(* ===== verification/_CoqProject ===== *)
-Q . S2P
Prelude.v
Replacer.v
Bitmap.v
Disk.v
BufferPool.v
BufferPoolFacts.v
BufferPoolFail.v
BufferPoolSpec.v
PageCache.v
PoolCache.v
RecordFile.v
RecordFacts.v
RecordSpec.v
Log.v
LogFacts.v
Recovery.v
RecoveryFacts.v
Conditions.v
LockManager.v
LockFacts.v
Watermark.v
Index.v
IndexTree.v
IndexSplit.v
IndexFacts.v
IndexOps.v
IndexKeys.v
IndexSpec.v
IndexFile.v
IndexScan.v
IndexClaims.v
Executor.v
ExecutorFacts.v
ExecutorSort.v
Aggregate.v
LongDouble.v
AggregateFacts.v
Mvcc.v
MvccFacts.v
MvccSpec.v
MvccClaims.v
Scans.v
Dml.v
DmlIndexes.v
DmlFacts.v
DmlUndo.v
DmlRun.v
Portal.v
Planner.v
Analyze.v
PortalFacts.v
ScanBounds.v
Catalogue.v
SysManager.v
SysFacts.v
Relations.v
PlannerFacts.v
AnalyzeFacts.v
ScanFacts.v
ScanViews.v
DmlWhere.v
DmlClaims.v
ScanReads.v
ScanClaims.v
PortalReads.v
PlannerReads.v
QueryClaims.v
PlannerClaims.v
AnalyzeClaims.v
SysClaims.v
