(* ===== verification/Prelude.v ===== *)
(** * RMDB: the verification library

    RMDB ([src/src/]) is a relational database server in C++.  A statement is parsed, analysed
    and planned; executors run the plan against heap files and B+ trees, which live in pages of
    a buffer pool; a transaction manager keeps versions and locks, a log manager makes changes
    durable, and recovery rebuilds the database from the log at the next start.  This library
    models the server from the analysis of a statement down to the bytes of its files, translated
    from the source, and proves what makes it correct.

    ** Parts and files

    The files follow the layers of the program; each requires the ones it calls.

    - [Prelude]: the state-and-exception monad [M] in which all stateful code is written (a
      thrown exception is a value, the state at the throw is kept), the exception classes,
      fixed-width integers, overwriting of byte ranges, shared lemmas and tactics.
    - [Replacer] ([replacer/lru_replacer.cpp]): the LRU list with iterators as identities.
    - [Bitmap] ([record/bitmap.h]): bit arrays over bytes.
    - [Disk] ([storage/disk_manager.cpp]): files as byte lists, descriptors, page numbers, the
      log file.  The classes [PageStore] and [PageAlloc] are what the pool uses of it.
    - [BufferPool], [BufferPoolFacts], [BufferPoolFail], [BufferPoolSpec]
      ([storage/buffer_pool_manager.cpp]): the sharded pool, the invariant of a shard, what a
      call that throws leaves, and runs of the pool against its specification, a map from page
      ids to bytes.
    - [PageCache], [PoolCache]: the interface through which the record layer sees the pool, as
      a class of operations and a class of laws, and the proof that the pool satisfies it.
    - [RecordFile], [RecordFacts], [RecordSpec] ([record/rm_*.{h,cpp}]): heap files over any
      page cache, down to the bytes of headers, bitmaps and slots; their specification is a
      map from record ids to records.
    - [Log], [LogFacts] ([recovery/log_manager.{h,cpp}], [log_recovery.cpp] for loading): the
      byte format of log records, the log buffer, group flushing as interleaved steps, and a
      thread that waits for its LSN among others.
    - [Recovery], [RecoveryFacts] ([recovery/log_recovery.cpp]): analysis, redo and undo.
    - [Conditions] ([common/common.h], [execution/execution_common.h], the comparison of
      [index/ix_index_handle.h]): values, IEEE floats, conditions, keys.
    - [LockManager], [LockFacts] ([transaction/concurrency/lock_manager.cpp]): multi-granularity
      locks, without waiting.
    - [Watermark] ([transaction/watermark.cpp]).
    - [Index] ([index/ix_index_handle.{h,cpp}], [ix_scan.cpp]): the B+ tree on the nodes of an
      index file, with the pins of pages.  [IndexTree], [IndexSplit], [IndexFacts], [IndexOps]:
      the tree invariant by key ranges and its preservation; [IndexKeys]: the order of keys by
      ranks; [IndexSpec]: the index against a map from ranks to entries; [IndexFile]
      ([ix_manager.h], [ix_defs.h]): the bytes of nodes and header, creation and opening;
      [IndexScan]: positions and scans; [IndexClaims].
    - [Executor] ([execution/executor_*.h], [execution_sort.h], [execution_manager.cpp]): an
      executor as a record of methods over a state of its own, and the operators;
      [ExecutorFacts]: what each delivers, read by record or by batch; [ExecutorSort].
    - [Aggregate] ([execution/executor_aggregate.h]), [LongDouble], [AggregateFacts]: grouping
      and aggregate functions, with [long double] in 64 bits of precision.
    - [Scans] ([execution/executor_seq_scan.h], [executor_index_scan.h]): the scans over the
      world of a transaction.  [ScanBounds]: the bounds of an index scan; [ScanFacts],
      [ScanViews], [ScanReads], [ScanClaims]: what scans deliver to a reading transaction.
    - [Portal] ([optimizer/plan.h], [portal.h]): plans, their conversion to executors, and the
      reference [eval_plan]; [PortalFacts], [PortalReads], [QueryClaims].
    - [Planner] ([optimizer/planner.cpp], [analyze/analyze.h]): the plan of a query: conditions
      moved to scans and joins, the choice of indexes and of index joins, grouping, sorting,
      limits, UNION and derived tables.  [Relations]: tables as multisets of rows, and the
      meaning of a query that mentions no plan; [PlannerFacts], [PlannerReads], [PlannerClaims].
    - [Analyze] ([parser/ast.h], [analyze/analyze.cpp]): the trees the parser makes and their
      analysis: names, aliases, types, aggregates; [AnalyzeFacts], [AnalyzeClaims].
    - [Catalogue] ([system/sm_meta.h], [defs.h]): tables, columns and indexes of a database and
      the text file they are kept in.  [SysManager] ([system/sm_manager.cpp]): CREATE and DROP of
      tables and indexes, with the sorting of the rows for the first index of a table, and
      closing and opening of a database; [SysFacts], [SysClaims].
    - [Dml] ([execution/executor_{insert,delete,update}.h], SET clauses of
      [analyze/analyze.cpp]): the executors that change tables, over the heap files, indexes,
      versions, locks and log of the transaction manager.  [DmlIndexes]: loops over indexes;
      [DmlFacts], [DmlUndo]: the invariant that an abort can take every write back; [DmlRun]:
      statements against their meaning on a finite map; [DmlWhere] ([portal.h]): DELETE and
      UPDATE with the scan of their WHERE clause; [DmlClaims].
    - [Mvcc], [MvccFacts], [MvccSpec], [MvccClaims] ([transaction/transaction_manager.cpp]):
      versions, snapshots, the rw-dependency graph, garbage collection, begin, commit, abort.

    ** What is shown

    Each theorem states its conditions in its comment.

    - Snapshot isolation, for versioned writes: while a snapshot transaction runs, nothing the
      others do changes what it reads ([MvccClaims.snapshot_stable]), and it never overwrites a
      version it does not see ([no_lost_update]).
    - Recovery gives every record the value of the committed transactions and can be repeated,
      from the states that [recoverable] describes ([RecoveryFacts.recover_correct]).
    - The buffer pool is transparent while no call throws ([BpmSpec.pool_refines]), keeps pinned
      pages in place ([pinned_page_stable]) and writes the log before the page
      ([pool_write_ahead]), both also in calls that throw.
    - The lock table implements an abstract map of held modes ([lock_table_refines]); locks of
      different transactions are compatible in every reachable state; two phases.
    - Heap files: insert, delete, update and scan against a finite map; the records of a closed
      file are there when it is opened ([reload_records]); page layout and termination of the
      free-list walk.
    - The log: round trip of the byte format, decoding within bounds, loading up to a torn tail;
      while no write fails, the order of the file under every interleaving and durability of a
      flush, with its wait ([flush_makes_durable]).
    - The index implements a map from keys to record ids ([IxClaims.index_refines]) under any
      sequence of insertions, deletions and lookups; its arrays in the page are lists; a created
      index is empty when opened.
    - A query returns what its plan means ([QueryClaims.query_returns_plan]): the executors of a
      plan deliver the records of [eval_plan], where it has any.  An index scan returns the
      records of a sequential scan, in the order of the index ([ScanClaims.index_scan_complete]).
      ORDER BY is the one stable sort; GROUP BY partitions; COUNT, SUM, MAX and MIN over
      integers are exact.
    - A planned query returns what the query means ([PlannerClaims.planned_query_returns]): the
      result is the one of its sources joined, filtered, grouped, sorted and cut, whichever
      indexes, join order and pushed-down conditions the planner chose.
    - A statement that the analysis accepts is well typed ([AnalyzeClaims.accepted_query_typed]),
      and a SELECT that it accepts runs to its result ([accepted_select_returns]).
    - CREATE and DROP statements keep the invariant of the system manager, failing ones too
      ([SysClaims.ddl_keeps_invariant]); a database that is closed and opened is the same
      database ([restart_keeps_database]); CREATE INDEX gives every row its entry or reports a
      duplicate or columns that are too long, and leaves the rows as they were
      ([create_index_correct]).
    - INSERT, DELETE and UPDATE have exactly the effect that [mean_stmt] gives them on the records
      of a table, failures included ([DmlClaims.statement_meaning]), also with the sequential
      scan of their WHERE clause ([where_statements]); the indexes stay consistent with the records, and an
      abort after any sequence of statements restores tables and indexes
      ([statements_roll_back]).
    - The replacer refines a list of frames; disk and bitmap behave as arrays.
    - Executions in which the code gives less than it means to are theorems on concrete
      states: undo of aborted transactions, restarted ids, a serializable cycle that commits,
      an abort that leaves a write, a failed flush that is forgotten, pins that a release build
      leaks, a join that loses the last record of a LIMIT, an index scan that throws on an empty
      range or behind an emptied leaf, HAVING that compares integers as floats, an abort that
      leaves a row that was inserted and deleted, an UPDATE that stores a string as a number,
      accepted statements that fail on an alias or an ORDER BY column, a self join whose
      conditions merge, a dropped table that stops the next start, a clustered index that
      recovery makes incomplete, index names that collide, heap files beyond 2 GiB that open
      empty.

    ** Conventions

    Integers are [Z]; where the source relies on the width of an [int] the wrap-around is
    written out ([int32]).  An access that C++ leaves undefined throws [Undefined], a failed
    [assert] throws [AssertFailure], a wait that only another thread can end throws [Blocked].
    Each operation runs under the mutex the source holds for its whole length, so that it is one
    atomic step; where the source releases a latch in the middle while it flushes the log or
    begins a transaction, the steps are separate and interleave.  Commit and abort also release
    [mvcc_latch_] between their parts; in the interleavings of [MvccClaims] each is one step.
    Loops without a structural bound take fuel; each such loop has a theorem that the fuel the
    model passes is enough: the free list is shorter than the number of pages, the log shorter
    than its file, a scan shorter than the slots that are left, a descent in a tree not longer
    than its pages, a walk along leaves not longer than theirs.  The loops of executors take a
    fuel that has to exceed the numbers of records they handle; the theorems say so, and
    [eval_plan] is undefined beyond it.

    ** Parameters

    The descriptor that [open] returns and [std::hash] are parameters; of the first only that
    it is not in use is assumed.  The slot that an INSERT takes is a parameter of [Dml] and
    [SysManager], which the heap file determines; what is assumed of it is the class [FreeSlots].
    The order in which a range [for] visits an [unordered_map] is that of [map_to_list], and no
    theorem depends on it.

    ** Not modelled

    The scanner and parser, which flex and bison generate; the printing of results and of plans
    (EXPLAIN); the plans of DELETE and UPDATE that scan an index; the loading of CSV files,
    checkpoints (which only ever store the offset 0 for recovery) and the directories of the system
    manager; sockets and threads.  The index is modelled on its nodes, with a frame for every page
    that it fetches; the system manager uses heap files and indexes at the level of their
    specifications and carries their contents over a restart; indexes of [Dml] and [Recovery] are
    keyed by bytes, so that the floats 0.0 and -0.0 are two keys there.  Writes to open files are
    complete: full disks and short writes are left out.  Mutexes and condition variables themselves.
    Pools of transaction objects ([release_transaction]). *)

From stdpp Require Export base tactics numbers list sorting gmap strings.
From coqutil Require Export Byte Word.LittleEndianList.
From Stdlib Require Export ZArith Lia.

#[global] Open Scope Z_scope.
#[global] Set Default Goal Selector "!".

(** ** Notation scope and automation of the library *)

Declare Scope rmdb_scope.
Delimit Scope rmdb_scope with rmdb.

Create HintDb rmdb discriminated.
Create Rewrite HintDb rmdb_len.

(** [inv_all] inverts every equation between constructors that is left over after a
    case analysis and closes the contradictory branches. *)
Ltac inv_all := repeat (simplify_eq/=; try done).

(** [split_ifs] performs the case analyses that the conditions and early returns of the
    code leave in a goal. *)
Ltac split_ifs :=
  repeat match goal with
         | |- context [if decide ?P then _ else _] => destruct (decide P)
         | |- context [if ?b then _ else _] => destruct b eqn:?
         | |- context [match ?o with Some _ => _ | None => _ end] => destruct o eqn:?
         end.

(** ** Constants of [common/config.h] *)

Definition INVALID_FRAME_ID : Z := -1.
Definition INVALID_PAGE_ID : Z := -1.
Definition INVALID_TXN_ID : Z := -1.
Definition INVALID_LSN : Z := -1.
Definition INVALID_TS : Z := -1.
Definition PAGE_SIZE : Z := 4096.
Definition BUFFER_POOL_SIZE : Z := 65536.
Definition LOG_BUFFER_SIZE : Z := 1024 * PAGE_SIZE.

(** ** Exceptions

    The exception classes of [errors.h] and [transaction/txn_defs.h] that the modelled
    code throws.  [AssertFailure] is a failed [assert] and [Undefined] an access the C++
    standard leaves undefined (an index out of range, a null pointer).  [Blocked] is a wait that
    only another thread can end. *)

Inductive AbortReason :=
| LOCK_ON_SHIRINKING | UPGRADE_CONFLICT | DEADLOCK_PREVENTION | MVCC_CONFLICT | SSI_CONFLICT.

Inductive exn :=
| InternalError
| UnixError
| FileNotOpenError (fd : Z)
| FileNotClosedError (path : string)
| FileExistsError (path : string)
| FileNotFoundError (path : string)
| RecordNotFoundError (page_no slot_no : Z)
| InvalidRecordSizeError (record_size : Z)
| InvalidColLengthError (col_len : Z)
| IndexEntryNotFoundError
| IndexNotFoundError (tab_name : string) (col_names : list string)
| TableNotFoundError (tab_name : string)
| TableExistsError (tab_name : string)
| IndexExistsError (tab_name : string) (col_names : list string)
| ColumnNotFoundError (col_name : string)
| AmbiguousColumnError (col_name : string)
| InvalidValueCountError
| StringOverflowError
| IncompatibleTypeError
| PageNotExistError (page_no : Z)
| RMDBError
| TransactionAbortException (txn_id : Z) (reason : AbortReason)
| AssertFailure
| Blocked
| Undefined.

#[export] Instance AbortReason_eq_dec : EqDecision AbortReason.
Proof. solve_decision. Defined.

#[export] Instance exn_eq_dec : EqDecision exn.
Proof. solve_decision. Defined.

(** ** State and exceptions

    [M S A] is a computation on the mutable state [S]: it returns a value or throws, and
    in both cases leaves a state behind, as C++ code that throws keeps the writes it made
    before. *)

Inductive res (A : Type) : Type :=
| Ok (a : A)
| Err (e : exn).
Arguments Ok {A} _.
Arguments Err {A} _.

Definition M (S A : Type) : Type := S → res A * S.

#[export] Instance M_ret S : MRet (M S) := λ A a s, (Ok a, s).
#[export] Instance M_bind S : MBind (M S) := λ A B k m s,
  match m s with
  | (Ok a, s') => k a s'
  | (Err e, s') => (Err e, s')
  end.

Definition get {S} : M S S := λ s, (Ok s, s).
Definition put {S} (s' : S) : M S unit := λ _, (Ok tt, s').
Definition modify {S} (f : S → S) : M S unit := λ s, (Ok tt, f s).
Definition throw {S A} (e : exn) : M S A := λ s, (Err e, s).
Definition try_catch {S A} (m : M S A) (h : exn → M S A) : M S A := λ s,
  match m s with
  | (Ok a, s') => (Ok a, s')
  | (Err e, s') => h e s'
  end.

(** An option read at a place where the code has no check: [None] is undefined behaviour. *)
Definition deref {S A} (o : option A) : M S A :=
  match o with Some a => mret a | None => throw Undefined end.

(** Computations that only fail, and their use where there is a state. *)
#[export] Instance res_ret : MRet res := @Ok.
#[export] Instance res_bind : MBind res := λ A B k r, match r with Ok a => k a | Err e => Err e end.
Definition lift {S A} (r : res A) : M S A := λ s, (r, s).
Definition require {A} (o : option A) (e : exn) : res A := match o with Some a => Ok a | None => Err e end.

Lemma res_bind_ok {A B} (r : res A) (k : A → res B) b : r ≫= k = Ok b ↔ ∃ a, r = Ok a ∧ k a = Ok b.
Proof. destruct r as [a|e]; [split; [by exists a|by intros (? & [= ->] & ?)]|]. split; [done|by intros (? & ? & ?)]. Qed.

Lemma require_ok {A} (o : option A) e a : require o e = Ok a ↔ o = Some a.
Proof. destruct o; [split; by intros [= ->]|done]. Qed.

Lemma mapM_ok {A B} (f : A → res B) l : ∀ k, mapM f l = Ok k ↔ Forall2 (λ x y, f x = Ok y) l k.
Proof.
  induction l as [|x l IH]; intros k; simpl.
  - split; [intros [= <-]; constructor|intros ->%Forall2_nil_inv_l; done].
  - rewrite res_bind_ok. setoid_rewrite res_bind_ok. setoid_rewrite IH. split.
    + intros (y & Hy & k' & Hk & [= <-]). by constructor.
    + intros (y & k' & Hy & Hk & ->)%Forall2_cons_inv_l. exists y. split; [done|]. by exists k'.
Qed.

Definition assert {S} (b : bool) : M S unit := if b then mret tt else throw AssertFailure.

Notation "'when' b 'do' m" := (if b then m else mret tt)
  (at level 10, b at level 100, m at level 200) : stdpp_scope.

Section monad.
Context {S : Type}.

Lemma bind_ok {A B} (m : M S A) (k : A → M S B) s a s' :
  m s = (Ok a, s') → mbind k m s = k a s'.
Proof. unfold mbind, M_bind. by intros ->. Qed.

(** A run, from its result. *)
Lemma ran {A} (m : M S A) s r : (m s).1 = r → m s = (r, (m s).2).
Proof. destruct (m s). by intros <-. Qed.

Lemma bind_err {A B} (m : M S A) (k : A → M S B) s e s' :
  m s = (Err e, s') → mbind k m s = (Err e, s').
Proof. unfold mbind, M_bind. by intros ->. Qed.

Lemma bind_inv_err {A B} (m : M S A) (k : A → M S B) s e s' :
  mbind k m s = (Err e, s') → m s = (Err e, s') ∨ ∃ a s1, m s = (Ok a, s1) ∧ k a s1 = (Err e, s').
Proof. unfold mbind, M_bind. destruct (m s) as [[a|x] s1]; intros H; [right; by exists a, s1|left; congruence]. Qed.

Lemma bind_inv_ok {A B} (m : M S A) (k : A → M S B) s b s' :
  mbind k m s = (Ok b, s') →
  ∃ a s1, m s = (Ok a, s1) ∧ k a s1 = (Ok b, s').
Proof.
  unfold mbind, M_bind. destruct (m s) as [[a|e] s1] eqn:E; [eauto|congruence].
Qed.

(** A property of the state that every part of a computation keeps is kept by it. *)
Definition preserves (I : S → Prop) {A} (m : M S A) : Prop :=
  ∀ s, I s → I (m s).2.

Lemma preserves_ret (I : S → Prop) {A} (a : A) : preserves I (mret a).
Proof. by intros s Hs. Qed.

Lemma preserves_throw (I : S → Prop) {A} e : preserves I (throw (A:=A) e).
Proof. by intros s Hs. Qed.

Lemma preserves_bind (I : S → Prop) {A B} (m : M S A) (k : A → M S B) :
  preserves I m → (∀ a, preserves I (k a)) → preserves I (mbind k m).
Proof.
  intros Hm Hk s Hs. specialize (Hm s Hs). unfold mbind, M_bind.
  destruct (m s) as [[a|e] s1]; simpl in *; [by apply Hk|done].
Qed.

(** [wp m s Q]: the run of [m] from [s] ends without an exception, in a result and a state
    that satisfy [Q]. *)
Definition wp {A} (m : M S A) (s : S) (Q : A → S → Prop) : Prop :=
  match m s with (Ok a, s') => Q a s' | (Err _, _) => False end.

Lemma wp_run {A} (m : M S A) s Q : wp m s Q → ∃ a s', m s = (Ok a, s') ∧ Q a s'.
Proof. unfold wp. destruct (m s) as [[a|e] s']; [eauto|done]. Qed.

Lemma wp_ret {A} (a : A) s (Q : A → S → Prop) : Q a s → wp (mret a) s Q.
Proof. done. Qed.

Lemma wp_bind {A B} (m : M S A) (k : A → M S B) s Q : wp m s (λ a s', wp (k a) s' Q) → wp (mbind k m) s Q.
Proof. unfold wp, mbind, M_bind. by destruct (m s) as [[a|e] s']. Qed.

Lemma wp_mono {A} (m : M S A) s (P Q : A → S → Prop) : wp m s P → (∀ a s', P a s' → Q a s') → wp m s Q.
Proof. unfold wp. destruct (m s) as [[a|e] s']; [eauto|done]. Qed.

(** One part of a sequence by its specification, the rest from what it promises. *)
Lemma wp_seq {A B} (m : M S A) (k : A → M S B) s P Q : wp m s P → (∀ a s', P a s' → wp (k a) s' Q) → wp (mbind k m) s Q.
Proof. intros H1 H2. apply wp_bind. by eapply wp_mono. Qed.

Lemma wp_deref {A} (o : option A) a s (Q : A → S → Prop) : o = Some a → Q a s → wp (deref o) s Q.
Proof. by intros ->. Qed.
End monad.

#[export] Hint Resolve preserves_ret preserves_throw preserves_bind : rmdb.

(** ** Machine integers *)

Definition wrapu (w z : Z) : Z := z mod 2 ^ w.
Definition wraps (w z : Z) : Z := (z + 2 ^ (w - 1)) mod 2 ^ w - 2 ^ (w - 1).

Abbreviation int32 := (wraps 32).
Abbreviation int64 := (wraps 64).
Abbreviation uint32 := (wrapu 32).
Abbreviation uint64 := (wrapu 64).

Definition is_int32 (z : Z) : Prop := -2147483648 ≤ z < 2147483648.
Definition is_int64 (z : Z) : Prop := -9223372036854775808 ≤ z < 9223372036854775808.
Definition is_uint32 (z : Z) : Prop := 0 ≤ z < 4294967296.
Definition is_uint64 (z : Z) : Prop := 0 ≤ z < 18446744073709551616.

Lemma int32_id z : is_int32 z → int32 z = z.
Proof. unfold is_int32, wraps. intros. change (2^(32-1)) with 2147483648.
  change (2^32) with 4294967296. rewrite Z.mod_small; lia. Qed.

Lemma int64_id z : is_int64 z → int64 z = z.
Proof. unfold is_int64, wraps. intros. change (2^(64-1)) with 9223372036854775808.
  change (2^64) with 18446744073709551616. rewrite Z.mod_small; lia. Qed.

Lemma wraps_wrapu w z : 0 < w → wraps w (wrapu w z) = wraps w z.
Proof.
  intros Hw. unfold wraps, wrapu. f_equal.
  by rewrite Zplus_mod_idemp_l.
Qed.

(** ** Bytes in memory

    A [char] buffer is a [list byte]; [read_bytes] and [write_bytes] are [memcpy] from and
    to an offset, and the integer reads and writes are little endian, as on the platform
    the code is written for. *)

Definition read_bytes (buf : list byte) (off len : nat) : list byte := take len (drop off buf).

Definition write_bytes (buf : list byte) (off : nat) (src : list byte) : list byte :=
  take off buf ++ src ++ drop (off + length src) buf.

Definition enc_int (n : nat) (z : Z) : list byte := le_split n z.
Definition dec_i32 (bs : list byte) : Z := int32 (le_combine bs).
Definition dec_u32 (bs : list byte) : Z := le_combine bs.
Definition dec_i64 (bs : list byte) : Z := int64 (le_combine bs).
Definition dec_u64 (bs : list byte) : Z := le_combine bs.

#[export] Instance byte_eq_dec : EqDecision byte.
Proof. exact Byte.byte_eq_dec. Defined.

#[export] Program Instance byte_countable : Countable byte :=
  inj_countable Byte.to_N Byte.of_N _.
Next Obligation. intros b. apply Byte.of_to_N. Qed.

Section bytes.
Implicit Types (buf src : list byte).

Lemma length_enc_int n z : length (enc_int n z) = n.
Proof. apply length_le_split. Qed.

Lemma length_write_bytes buf off src :
  (off + length src ≤ length buf)%nat → length (write_bytes buf off src) = length buf.
Proof. intros. unfold write_bytes. rewrite !length_app, length_take, length_drop. lia. Qed.

Lemma read_write_same buf off src :
  (off + length src ≤ length buf)%nat →
  read_bytes (write_bytes buf off src) off (length src) = src.
Proof.
  intros. unfold read_bytes, write_bytes.
  rewrite drop_app_length' by (rewrite length_take; lia).
  by rewrite take_app_length.
Qed.

(** A read of a range that a write does not touch. *)
Lemma read_write_other buf off src off' len :
  (off + length src ≤ length buf)%nat →
  (off' + len ≤ off ∨ off + length src ≤ off')%nat →
  read_bytes (write_bytes buf off src) off' len = read_bytes buf off' len.
Proof.
  intros Hb Hd. apply list_eq. intros i. unfold read_bytes, write_bytes.
  destruct (decide (i < len)%nat) as [Hi|Hi].
  2:{ rewrite !lookup_take_ge by lia. done. }
  rewrite !lookup_take_lt by lia. rewrite !lookup_drop.
  destruct Hd as [Hd|Hd].
  - rewrite lookup_app_l by (rewrite length_take; lia).
    rewrite lookup_take_lt by lia. done.
  - rewrite lookup_app_r by (rewrite length_take; lia). rewrite length_take.
    rewrite lookup_app_r by lia. rewrite lookup_drop. f_equal. lia.
Qed.

(** Reading a field out of a concatenation of fields. *)
Lemma read_app_skip buf1 buf2 off len :
  (length buf1 ≤ off)%nat →
  read_bytes (buf1 ++ buf2) off len = read_bytes buf2 (off - length buf1) len.
Proof. intros. unfold read_bytes. by rewrite drop_app_ge by lia. Qed.

Lemma read_app_here buf1 buf2 len :
  length buf1 = len → read_bytes (buf1 ++ buf2) 0 len = buf1.
Proof. intros <-. unfold read_bytes. rewrite drop_0. apply take_app_length. Qed.

Lemma dec_enc_i32 z : is_int32 z → dec_i32 (enc_int 4 z) = z.
Proof.
  intros Hz. unfold dec_i32, enc_int. rewrite le_combine_split.
  change (2 ^ (Z.of_nat 4 * 8)) with (2 ^ 32). fold (wrapu 32 z).
  rewrite wraps_wrapu by lia. by apply int32_id.
Qed.

Lemma dec_enc_i64 z : is_int64 z → dec_i64 (enc_int 8 z) = z.
Proof.
  intros Hz. unfold dec_i64, enc_int. rewrite le_combine_split.
  change (2 ^ (Z.of_nat 8 * 8)) with (2 ^ 64). fold (wrapu 64 z).
  rewrite wraps_wrapu by lia. by apply int64_id.
Qed.

Lemma dec_enc_u32 z : is_uint32 z → dec_u32 (enc_int 4 z) = z.
Proof.
  intros Hz. unfold dec_u32, enc_int, is_uint32 in *. rewrite le_combine_split.
  apply Z.mod_small. change (2 ^ (Z.of_nat 4 * 8)) with 4294967296. lia.
Qed.

Lemma dec_enc_u64 z : is_uint64 z → dec_u64 (enc_int 8 z) = z.
Proof.
  intros Hz. unfold dec_u64, enc_int, is_uint64 in *. rewrite le_combine_split.
  apply Z.mod_small. change (2 ^ (Z.of_nat 8 * 8)) with 18446744073709551616. lia.
Qed.

Lemma dec_u64_bound bs : length bs = 8%nat → is_uint64 (dec_u64 bs).
Proof.
  intros H. unfold is_uint64, dec_u64. pose proof (le_combine_bound bs) as Hb.
  rewrite H in Hb. change (2 ^ (8 * Z.of_nat 8)) with 18446744073709551616 in Hb. lia.
Qed.
End bytes.

#[export] Hint Rewrite length_enc_int @length_app @length_take @length_drop @length_replicate
  : rmdb_len.
#[export] Hint Resolve dec_enc_i32 dec_enc_i64 dec_enc_u32 dec_enc_u64 : rmdb.

(** [len] normalises lengths of buffers and closes the arithmetic that is left. *)
Ltac len := autorewrite with rmdb_len in *; simpl in *; try lia.

Global Opaque enc_int.

(** ** Lists *)

Section lists.
Context {A : Type}.
Implicit Types l : list A.

Lemma last_snoc_inv l x : last l = Some x → ∃ l', l = l' ++ [x].
Proof. intros H. by apply last_Some in H. Qed.

Lemma filter_ext_in (P Q : A → Prop) `{!∀ x, Decision (P x), !∀ x, Decision (Q x)} l :
  (∀ x, x ∈ l → P x ↔ Q x) → filter P l = filter Q l.
Proof.
  induction l as [|x l IH]; intros Hs; [done|]. rewrite !filter_cons.
  rewrite IH by (intros; apply Hs; set_solver).
  destruct (decide (P x)) as [Hp|Hp], (decide (Q x)) as [Hq|Hq]; try done;
    exfalso; [apply Hq, Hs|apply Hp, Hs]; set_solver.
Qed.

Lemma rev_cases l : l = [] ∨ ∃ l' x, l = l' ++ [x].
Proof. destruct l using rev_ind; eauto. Qed.
End lists.

Section lists_eq.
Context {A : Type} `{EqDecision A}.
Implicit Types l : list A.

Definition remove_elem (x : A) l : list A := filter (λ y, y ≠ x) l.

Lemma elem_of_remove_elem x y l : y ∈ remove_elem x l ↔ y ≠ x ∧ y ∈ l.
Proof. unfold remove_elem. by rewrite list_elem_of_filter. Qed.

Lemma NoDup_remove_elem x l : NoDup l → NoDup (remove_elem x l).
Proof. apply NoDup_filter. Qed.

Lemma remove_elem_not_in x l : x ∉ l → remove_elem x l = l.
Proof.
  unfold remove_elem. induction l as [|y l IH]; intros Hx; [done|].
  rewrite filter_cons_True by set_solver. f_equal. apply IH. set_solver.
Qed.

Lemma remove_elem_last x l : x ∉ l → remove_elem x (l ++ [x]) = l.
Proof.
  intros Hx. unfold remove_elem. rewrite filter_app.
  fold (remove_elem x l). rewrite remove_elem_not_in by done.
  rewrite filter_cons_False by naive_solver. by rewrite filter_nil, app_nil_r.
Qed.
End lists_eq.
