(* ===== verification/Replacer.v ===== *)
(** * The LRU replacer ([replacer/lru_replacer.{h,cpp}])

    [LRUReplacer] keeps the frames that may be evicted in a [std::list], most recently
    unpinned first, with a hash table from a frame to its list node and a vector of pin
    marks.  The list nodes are modelled with identities, so that the hash table really
    holds iterators and [erase(it)] removes the node it points to.

    The abstract replacer is the list of evictable frames, without repetition; the
    refinement lemmas show that each operation of the code is the abstract operation. *)

From S2P Require Import Prelude.

Module Lru.

(** ** The data structure *)

Record LRUReplacer := mk_LRUReplacer {
  LRUlist_ : list (positive * Z);
  LRUhash_ : gmap Z positive;
  max_size_ : nat;
  is_pinned_ : list bool;
  node_ctr : positive
}.

Definition init (num_pages : nat) : LRUReplacer := {|
  LRUlist_ := [];
  LRUhash_ := ∅;
  max_size_ := num_pages;
  is_pinned_ := replicate num_pages true;
  node_ctr := 1%positive |}.

Definition set_pin (f : Z) (b : bool) (r : LRUReplacer) : LRUReplacer := {|
  LRUlist_ := LRUlist_ r;
  LRUhash_ := LRUhash_ r;
  max_size_ := max_size_ r;
  is_pinned_ := <[Z.to_nat f := b]> (is_pinned_ r);
  node_ctr := node_ctr r |}.

Definition set_list (l : list (positive * Z)) (h : gmap Z positive) (r : LRUReplacer) : LRUReplacer := {|
  LRUlist_ := l;
  LRUhash_ := h;
  max_size_ := max_size_ r;
  is_pinned_ := is_pinned_ r;
  node_ctr := node_ctr r |}.

(** [is_pinned_[frame_id]]: out of range is undefined. *)
Definition pinned (f : Z) (r : LRUReplacer) : option bool :=
  if decide (0 ≤ f) then is_pinned_ r !! Z.to_nat f else None.

(** [LRUlist_.erase(it)] *)
Definition erase_node (n : positive) (l : list (positive * Z)) : list (positive * Z) :=
  filter (λ p, p.1 ≠ n) l.

(** ** The operations *)

Definition victim : M LRUReplacer (option Z) :=
  r ← get;
  match last (LRUlist_ r) with
  | None => mret None
  | Some (_, f) =>
      _ ← deref (pinned f r);
      modify (set_pin f true);;
      modify (λ r, set_list (take (length (LRUlist_ r) - 1) (LRUlist_ r)) (delete f (LRUhash_ r)) r);;
      mret (Some f)
  end.

Definition pin (f : Z) : M LRUReplacer unit :=
  r ← get;
  b ← deref (pinned f r);
  if (b : bool) then mret tt
  else
    modify (set_pin f true);;
    match LRUhash_ r !! f with
    | Some n => modify (λ r, set_list (erase_node n (LRUlist_ r)) (delete f (LRUhash_ r)) r)
    | None => mret tt
    end.

Definition unpin (f : Z) : M LRUReplacer unit :=
  r ← get;
  b ← deref (pinned f r);
  if (b : bool) then
    modify (set_pin f false);;
    modify (λ r, {|
      LRUlist_ := (node_ctr r, f) :: LRUlist_ r;
      LRUhash_ := <[f := node_ctr r]> (LRUhash_ r);
      max_size_ := max_size_ r;
      is_pinned_ := is_pinned_ r;
      node_ctr := Pos.succ (node_ctr r) |})
  else mret tt.

Definition Size (r : LRUReplacer) : nat := length (LRUlist_ r).

(** ** Representation invariant *)

Definition frames (r : LRUReplacer) : list Z := (LRUlist_ r).*2.

Record wf (r : LRUReplacer) : Prop := {
  wf_frames : NoDup (frames r);
  wf_nodes : NoDup (LRUlist_ r).*1;
  wf_ctr : ∀ n, n ∈ (LRUlist_ r).*1 → (n < node_ctr r)%positive;
  wf_len : length (is_pinned_ r) = max_size_ r;
  wf_range : ∀ f, f ∈ frames r → 0 ≤ f < Z.of_nat (max_size_ r);
  wf_pin : ∀ f, 0 ≤ f → is_pinned_ r !! Z.to_nat f = Some false ↔ f ∈ frames r;
  wf_hash : ∀ f n, LRUhash_ r !! f = Some n ↔ (n, f) ∈ LRUlist_ r
}.

(** ** The abstract replacer: the evictable frames, most recently released first *)

Definition a_victim (l : list Z) : option Z * list Z :=
  match last l with
  | None => (None, l)
  | Some f => (Some f, remove_elem f l)
  end.
Definition a_pin (f : Z) (l : list Z) : list Z := remove_elem f l.
Definition a_unpin (f : Z) (l : list Z) : list Z := if decide (f ∈ l) then l else f :: l.

Definition in_range (f : Z) (r : LRUReplacer) : Prop := 0 ≤ f < Z.of_nat (max_size_ r).

(** ** Lemmas *)

Lemma init_wf n : wf (init n).
Proof.
  split; simpl; try by constructor.
  - set_solver.
  - by rewrite length_replicate.
  - set_solver.
  - intros f Hf. split; [|set_solver]. intros H. by apply lookup_replicate in H as [? _].
  - intros f m. split; [by rewrite lookup_empty|set_solver].
Qed.

Section invariant.
Context (r : LRUReplacer) (Hwf : wf r).

Lemma pinned_spec f : in_range f r → pinned f r = Some (bool_decide (f ∉ frames r)).
Proof using Hwf.
  intros [H0 H1]. unfold pinned. rewrite decide_True by done.
  destruct (is_pinned_ r !! Z.to_nat f) as [b|] eqn:E.
  - f_equal. destruct b.
    + rewrite bool_decide_true; [done|]. intros Hin.
      apply (wf_pin r Hwf) in Hin; [congruence|done].
    + rewrite bool_decide_false; [done|]. apply (wf_pin r Hwf) in E; naive_solver.
  - apply lookup_ge_None in E. rewrite (wf_len r Hwf) in E. lia.
Qed.

Lemma node_of_frame f : f ∈ frames r → ∃ n, (n, f) ∈ LRUlist_ r.
Proof. unfold frames. rewrite list_elem_of_fmap. intros ([n g] & -> & H). by exists n. Qed.

(** The invariant does not depend on how a node leaves the list. *)
Lemma wf_drop f l :
  in_range f r → f ∈ frames r →
  (∀ p, p ∈ l ↔ p ∈ LRUlist_ r ∧ p.2 ≠ f) → NoDup l.*1 → NoDup l.*2 →
  wf (set_list l (delete f (LRUhash_ r)) (set_pin f true r)).
Proof using Hwf.
  intros Hr Hf Hl Hn1 Hn2.
  assert (Hfr : ∀ g, g ∈ l.*2 ↔ g ∈ frames r ∧ g ≠ f).
  { intros g. unfold frames. rewrite !list_elem_of_fmap. split.
    - intros (p & -> & Hp). apply Hl in Hp as [??]. eauto.
    - intros [(p & -> & Hp) ?]. exists p. split; [done|]. by apply Hl. }
  split; simpl.
  - done.
  - done.
  - intros n Hn. apply (wf_ctr r Hwf). apply list_elem_of_fmap in Hn as (p & -> & Hp).
    apply list_elem_of_fmap. exists p. split; [done|]. by apply Hl.
  - by rewrite length_insert, (wf_len r Hwf).
  - intros g Hg. apply (wf_range r Hwf). by apply Hfr in Hg as [? _].
  - intros g Hg0. rewrite Hfr. unfold in_range in Hr.
    destruct (decide (g = f)) as [->|Hne].
    + rewrite list_lookup_insert_eq by (rewrite (wf_len r Hwf); lia). naive_solver.
    + rewrite list_lookup_insert_ne by lia. rewrite (wf_pin r Hwf) by done. naive_solver.
  - intros g n. rewrite Hl. simpl. destruct (decide (g = f)) as [->|Hne].
    + rewrite lookup_delete_eq. naive_solver.
    + rewrite lookup_delete_ne by done. rewrite (wf_hash r Hwf). naive_solver.
Qed.

Lemma erase_node_spec n f :
  (n, f) ∈ LRUlist_ r →
  (∀ p, p ∈ erase_node n (LRUlist_ r) ↔ p ∈ LRUlist_ r ∧ p.2 ≠ f) ∧
  (erase_node n (LRUlist_ r)).*2 = remove_elem f (frames r).
Proof using Hwf.
  intros Hin. pose proof (wf_nodes r Hwf) as N1. pose proof (wf_frames r Hwf) as N2.
  unfold frames, erase_node, remove_elem in *. clear Hwf.
  assert (Heq : ∀ p, p ∈ LRUlist_ r → p.1 ≠ n ↔ p.2 ≠ f).
  { intros [pn pf] Hp; simpl. apply list_elem_of_lookup in Hin as [i Hi].
    apply list_elem_of_lookup in Hp as [j Hj].
    assert (pn = n ↔ pf = f) as ->; [|done]. split; intros E.
    - assert (i = j) as <-; [|by simplify_eq].
      eapply NoDup_lookup;
        [exact N1|by rewrite list_lookup_fmap, Hi|rewrite list_lookup_fmap, Hj; simpl; by rewrite E].
    - assert (i = j) as <-; [|by simplify_eq].
      eapply NoDup_lookup;
        [exact N2|by rewrite list_lookup_fmap, Hi|rewrite list_lookup_fmap, Hj; simpl; by rewrite E]. }
  split.
  - intros p. rewrite list_elem_of_filter. naive_solver.
  - clear -Heq. induction (LRUlist_ r) as [|p l IH]; [done|].
    assert (IH' := IH ltac:(intros; apply Heq; set_solver)).
    specialize (Heq p ltac:(set_solver)). rewrite fmap_cons, !filter_cons.
    repeat case_decide; simpl; try tauto. by f_equal.
Qed.

Lemma victim_node f n l :
  LRUlist_ r = l ++ [(n, f)] →
  (∀ p, p ∈ l ↔ p ∈ LRUlist_ r ∧ p.2 ≠ f) ∧ l.*2 = remove_elem f (frames r).
Proof using Hwf.
  intros E. pose proof (wf_frames r Hwf) as N2. unfold frames in *. rewrite E in *.
  rewrite fmap_app in *. simpl in *. apply NoDup_app in N2 as (N2 & Hd & _).
  assert (f ∉ l.*2) by (intros ?; eapply Hd; [done|set_solver]).
  split; [|by rewrite remove_elem_last].
  intros p. rewrite elem_of_app, list_elem_of_singleton. split.
  - intros Hp. split; [by left|]. intros ?; simplify_eq. set_solver.
  - intros [[?| ->] ?]; done.
Qed.
End invariant.

(** ** Refinement: the operations of the code are the abstract operations *)

Section refinement.
Context (r : LRUReplacer) (Hwf : wf r).

Lemma victim_refines :
  ∃ r', victim r = (Ok (a_victim (frames r)).1, r') ∧ wf r' ∧
        frames r' = (a_victim (frames r)).2 ∧ max_size_ r' = max_size_ r.
Proof using Hwf.
  unfold victim, a_victim, get, mbind, M_bind.
  replace (last (frames r)) with (snd <$> last (LRUlist_ r)) by (symmetry; apply fmap_last).
  destruct (last (LRUlist_ r)) as [[n f]|] eqn:E; simpl; [|by exists r].
  apply last_snoc_inv in E as [l E].
  assert (Hin : f ∈ frames r) by (unfold frames; rewrite E, fmap_app; set_solver).
  pose proof (wf_range r Hwf f Hin) as Hrange.
  rewrite (pinned_spec r Hwf) by done. simpl.
  destruct (victim_node r Hwf f n l E) as [Hl Hf].
  eexists. split; [reflexivity|]. rewrite E. rewrite length_app; simpl.
  replace (length l + 1 - 1)%nat with (length l) by lia. rewrite take_app_length.
  split; [|done]. pose proof (wf_nodes r Hwf) as N1. rewrite E, fmap_app in N1.
  apply NoDup_app in N1 as (N1 & _).
  apply (wf_drop r Hwf); [done..|rewrite Hf; apply NoDup_remove_elem, (wf_frames r Hwf)].
Qed.

Lemma pin_refines f :
  in_range f r →
  ∃ r', pin f r = (Ok tt, r') ∧ wf r' ∧
        frames r' = a_pin f (frames r) ∧ max_size_ r' = max_size_ r.
Proof using Hwf.
  intros Hr. unfold pin, a_pin, get, mbind, M_bind.
  rewrite (pinned_spec r Hwf) by done. simpl. case_bool_decide as Hin; simpl.
  - exists r. rewrite remove_elem_not_in by done. done.
  - destruct (decide (f ∈ frames r)) as [Hf|]; [|done]. clear Hin.
    destruct (node_of_frame r f Hf) as [n Hn].
    destruct (wf_hash r Hwf f n) as [_ Hh]. rewrite (Hh Hn).
    destruct (erase_node_spec r Hwf n f Hn) as [Hl Hfr].
    eexists. split; [reflexivity|]. simpl. split; [|done].
    apply (wf_drop r Hwf); [done..| |rewrite Hfr; apply NoDup_remove_elem, (wf_frames r Hwf)].
    unfold erase_node. pose proof (wf_nodes r Hwf) as N1.
    eapply sublist_NoDup; [exact N1|]. apply fmap_sublist. apply sublist_filter.
Qed.

Lemma unpin_refines f :
  in_range f r →
  ∃ r', unpin f r = (Ok tt, r') ∧ wf r' ∧
        frames r' = a_unpin f (frames r) ∧ max_size_ r' = max_size_ r.
Proof using Hwf.
  intros Hr. unfold unpin, a_unpin, get, mbind, M_bind.
  rewrite (pinned_spec r Hwf) by done. simpl.
  destruct (decide (f ∈ frames r)) as [Hf|Hf].
  - rewrite bool_decide_false by tauto. by exists r.
  - rewrite bool_decide_true by done. eexists. split; [reflexivity|]. split; [|done].
    unfold in_range in Hr. split; simpl.
    + unfold frames; simpl. constructor; [done|apply (wf_frames r Hwf)].
    + constructor; [|apply (wf_nodes r Hwf)]. intros H%(wf_ctr r Hwf). lia.
    + intros n. rewrite elem_of_cons. intros [->|H%(wf_ctr r Hwf)]; lia.
    + by rewrite length_insert, (wf_len r Hwf).
    + intros g. unfold frames; simpl. rewrite elem_of_cons.
      intros [->|H]; [done|]. by apply (wf_range r Hwf).
    + intros g Hg. unfold frames; simpl. rewrite elem_of_cons.
      destruct (decide (g = f)) as [->|Hne].
      * rewrite list_lookup_insert_eq by (rewrite (wf_len r Hwf); lia). naive_solver.
      * rewrite list_lookup_insert_ne by lia. rewrite (wf_pin r Hwf) by done.
        unfold frames. naive_solver.
    + intros g n. rewrite elem_of_cons. destruct (decide (g = f)) as [->|Hne].
      * rewrite lookup_insert_eq. split; [naive_solver|]. intros [?|Hin]; [naive_solver|].
        exfalso. apply Hf. unfold frames. apply list_elem_of_fmap. by exists (n, f).
      * rewrite lookup_insert_ne by done. rewrite (wf_hash r Hwf). naive_solver.
Qed.
End refinement.

(** ** Sequences of operations *)

Inductive op := Pin (f : Z) | Unpin (f : Z) | Victim.

Definition op_ok (n : nat) (o : op) : Prop :=
  match o with Pin f | Unpin f => 0 ≤ f < Z.of_nat n | Victim => True end.

(** One call on the code, with the frame that [victim] reports. *)
Definition run_op (o : op) : M LRUReplacer (option Z) :=
  match o with
  | Pin f => pin f;; mret None
  | Unpin f => unpin f;; mret None
  | Victim => victim
  end.

Definition a_run_op (o : op) (l : list Z) : option Z * list Z :=
  match o with
  | Pin f => (None, a_pin f l)
  | Unpin f => (None, a_unpin f l)
  | Victim => a_victim l
  end.

Fixpoint run_ops (os : list op) : M LRUReplacer (list (option Z)) :=
  match os with
  | [] => mret []
  | o :: os => x ← run_op o; xs ← run_ops os; mret (x :: xs)
  end.

Fixpoint a_run_ops (os : list op) (l : list Z) : list (option Z) * list Z :=
  match os with
  | [] => ([], l)
  | o :: os =>
      let '(x, l) := a_run_op o l in
      let '(xs, l) := a_run_ops os l in (x :: xs, l)
  end.

Lemma run_op_refines r o :
  wf r → op_ok (max_size_ r) o →
  ∃ r', run_op o r = (Ok (a_run_op o (frames r)).1, r') ∧ wf r' ∧
        frames r' = (a_run_op o (frames r)).2 ∧ max_size_ r' = max_size_ r.
Proof.
  intros Hwf Hok. destruct o as [f|f|]; simpl in *.
  - destruct (pin_refines r Hwf f Hok) as (r' & E & H). exists r'.
    split; [|done]. by rewrite (bind_ok _ _ _ _ _ E).
  - destruct (unpin_refines r Hwf f Hok) as (r' & E & H). exists r'.
    split; [|done]. by rewrite (bind_ok _ _ _ _ _ E).
  - by apply victim_refines.
Qed.

Lemma run_ops_refines os r :
  wf r → Forall (op_ok (max_size_ r)) os →
  ∃ r', run_ops os r = (Ok (a_run_ops os (frames r)).1, r') ∧ wf r' ∧
        frames r' = (a_run_ops os (frames r)).2 ∧ max_size_ r' = max_size_ r.
Proof.
  revert r. induction os as [|o os IH]; intros r Hwf Hok; [by exists r|].
  apply Forall_cons in Hok as [Ho Hos].
  destruct (run_op_refines r o Hwf Ho) as (r1 & E1 & Hwf1 & Hf1 & Hm1).
  rewrite <- Hm1 in Hos. destruct (IH r1 Hwf1 Hos) as (r2 & E2 & Hwf2 & Hf2 & Hm2).
  exists r2. simpl. rewrite (bind_ok _ _ _ _ _ E1), (bind_ok _ _ _ _ _ E2).
  rewrite Hf1 in *. destruct (a_run_op o (frames r)) as [x l]; simpl in *.
  destruct (a_run_ops os l) as [xs l']; simpl in *. by rewrite Hm2, Hm1.
Qed.

(** Frames released in the order [fs] leave the abstract replacer in that order. *)
Lemma a_unpins_victims fs l :
  NoDup (l ++ fs) →
  (a_run_ops (Unpin <$> fs) (reverse l)).2 = reverse (l ++ fs).
Proof.
  revert l. induction fs as [|f fs IH]; intros l Hnd; [by rewrite app_nil_r|].
  rewrite fmap_cons. cbn [a_run_ops a_run_op]. unfold a_unpin. apply NoDup_app in Hnd as Hnd'. destruct Hnd' as (_ & Hd & _).
  rewrite decide_False.
  2:{ rewrite elem_of_reverse. intros ?. eapply Hd; [done|set_solver]. }
  replace (f :: reverse l) with (reverse (l ++ [f])) by by rewrite reverse_app.
  specialize (IH (l ++ [f])). rewrite <- !app_assoc in IH. simpl in IH.
  destruct (a_run_ops (Unpin <$> fs) (reverse (l ++ [f]))) as [xs l'].
  simpl in *. by apply IH.
Qed.

Lemma a_victims_drain fs :
  NoDup fs → (a_run_ops (replicate (length fs) Victim) (reverse fs)).1 = Some <$> fs.
Proof.
  induction fs as [|f fs IH]; intros Hnd; [done|]. simpl.
  apply NoDup_cons in Hnd as [Hf Hnd]. rewrite reverse_cons. unfold a_victim.
  rewrite last_snoc. rewrite remove_elem_last by by rewrite elem_of_reverse.
  specialize (IH Hnd). destruct (a_run_ops (replicate (length fs) Victim) (reverse fs)).
  simpl in *. by f_equal.
Qed.

Lemma a_run_ops_app os1 os2 l :
  a_run_ops (os1 ++ os2) l =
    let '(xs, l1) := a_run_ops os1 l in
    let '(ys, l2) := a_run_ops os2 l1 in (xs ++ ys, l2).
Proof.
  revert l. induction os1 as [|o os1 IH]; intros l; simpl.
  - by destruct (a_run_ops os2 l).
  - destruct (a_run_op o l) as [x l1]. rewrite IH.
    destruct (a_run_ops os1 l1) as [xs l2]. by destruct (a_run_ops os2 l2).
Qed.

Lemma a_unpins_silent fs l : (a_run_ops (Unpin <$> fs) l).1 = replicate (length fs) None.
Proof.
  revert l. induction fs as [|f fs IH]; intros l; [done|].
  rewrite fmap_cons. cbn [a_run_ops a_run_op].
  specialize (IH (a_unpin f l)). destruct (a_run_ops _ _). simpl in *. by f_equal.
Qed.

(** ** Properties *)

(** C37: On every sequence of [pin], [unpin] and [victim] calls with frames of the pool, a
    new [LRUReplacer] throws nothing, reports exactly the frames that the abstract replacer
    (the list of released frames, most recent first) reports, and ends in a state that
    satisfies the representation invariant and holds the same frames. *)
Theorem replacer_refines (n : nat) (os : list op) (Hok : Forall (op_ok n) os) :
  ∃ r', run_ops os (init n) = (Ok (a_run_ops os []).1, r') ∧ wf r' ∧
        frames r' = (a_run_ops os []).2.
Proof.
  destruct (run_ops_refines os (init n) (init_wf n) Hok) as (r' & E & Hwf & Hf & _).
  by exists r'.
Qed.

(** The replacement policy is LRU: after frames are released one by one, [victim]
    evicts them in the order of their release, the oldest first. *)
Theorem victim_lru_order (n : nat) (fs : list Z)
    (Hnd : NoDup fs) (Hr : Forall (λ f, 0 ≤ f < Z.of_nat n) fs) :
  ∃ r', run_ops ((Unpin <$> fs) ++ replicate (length fs) Victim) (init n) =
        (Ok (replicate (length fs) None ++ (Some <$> fs)), r').
Proof.
  destruct (run_ops_refines ((Unpin <$> fs) ++ replicate (length fs) Victim) (init n))
    as (r' & E & _).
  - apply init_wf.
  - apply Forall_app. split; [by apply Forall_fmap|by apply Forall_replicate].
  - exists r'. rewrite E. do 2 f_equal. rewrite a_run_ops_app.
    pose proof (a_unpins_silent fs (frames (init n))) as H1.
    pose proof (a_unpins_victims fs [] Hnd) as H2.
    pose proof (a_victims_drain fs Hnd) as H3. simpl in *.
    change (reverse []) with (frames (init n)) in H2.
    destruct (a_run_ops (Unpin <$> fs) (frames (init n))) as [xs l]. simpl in *. subst.
    destruct (a_run_ops (replicate (length fs) Victim) (reverse fs)). simpl in *. by subst.
Qed.

Lemma replacer_refines_witness :
  Forall (op_ok 4) [Unpin 2; Unpin 0; Pin 2; Victim] ∧
  ∃ r', run_ops [Unpin 2; Unpin 0; Pin 2; Victim] (init 4) =
          (Ok (a_run_ops [Unpin 2; Unpin 0; Pin 2; Victim] []).1, r') ∧ wf r' ∧
        frames r' = (a_run_ops [Unpin 2; Unpin 0; Pin 2; Victim] []).2.
Proof.
  assert (H : Forall (op_ok 4) [Unpin 2; Unpin 0; Pin 2; Victim]).
  { repeat (apply Forall_cons; split; [simpl; lia|]). by apply Forall_nil. }
  split; [exact H|]. exact (replacer_refines 4 _ H).
Defined.

Lemma victim_lru_order_witness :
  ∃ r', run_ops ((Unpin <$> [3; 0; 2]) ++ replicate 3 Victim) (init 4) =
        (Ok (replicate 3 None ++ [Some 3; Some 0; Some 2]), r').
Proof.
  apply (victim_lru_order 4 [3; 0; 2]).
  - apply (bool_decide_unpack _). vm_compute. exact I.
  - apply (bool_decide_unpack _). vm_compute. exact I.
Defined.

End Lru.
