(* ===== verification/Bitmap.v ===== *)
(** * Slot bitmaps ([record/bitmap.h])

    A bitmap is an array of [char]; position [pos] is bit [7 - pos % 8] of byte [pos / 8].
    An access outside of the array is undefined and gives [None].  [bit] is the abstract
    view, the value at a position; the lemmas relate the operations of the code to it. *)

From S2P Require Import Prelude.

Module Bitmap.

Definition BITMAP_WIDTH : Z := 8.
Definition BITMAP_HIGHEST_BIT : Z := 128.

Definition get_bucket (pos : Z) : Z := Z.quot pos BITMAP_WIDTH.
Definition get_bit (pos : Z) : Z := Z.shiftr BITMAP_HIGHEST_BIT (Z.rem pos BITMAP_WIDTH).

(** [bm[i]] *)
Definition at_bucket (bm : list byte) (i : Z) : option byte :=
  if decide (0 ≤ i) then bm !! Z.to_nat i else None.

Definition init (size : Z) : list byte := replicate (Z.to_nat size) Byte.x00.

Definition set (bm : list byte) (pos : Z) : option (list byte) :=
  b ← at_bucket bm (get_bucket pos);
  Some (<[Z.to_nat (get_bucket pos) := byte.of_Z (Z.lor (byte.unsigned b) (get_bit pos))]> bm).

Definition reset (bm : list byte) (pos : Z) : option (list byte) :=
  b ← at_bucket bm (get_bucket pos);
  Some (<[Z.to_nat (get_bucket pos) := byte.of_Z (Z.land (byte.unsigned b) (Z.lnot (get_bit pos)))]> bm).

Definition is_set (bm : list byte) (pos : Z) : option bool :=
  b ← at_bucket bm (get_bucket pos);
  Some (negb (Z.land (byte.unsigned b) (get_bit pos) =? 0)).

(** The loop [for (int i = curr + 1; i < max_n; i++)], with the number of iterations left
    as its structural argument. *)
Fixpoint next_bit_from (bit : bool) (bm : list byte) (max_n i : Z) (fuel : nat) : option Z :=
  match fuel with
  | O => Some max_n
  | S fuel =>
      b ← is_set bm i;
      if Bool.eqb b bit then Some i else next_bit_from bit bm max_n (i + 1) fuel
  end.

Definition next_bit (bit : bool) (bm : list byte) (max_n curr : Z) : option Z :=
  next_bit_from bit bm max_n (curr + 1) (Z.to_nat (max_n - (curr + 1))).

Definition first_bit (bit : bool) (bm : list byte) (max_n : Z) : option Z :=
  next_bit bit bm max_n (-1).

(** ** Abstract view *)

Definition bit (bm : list byte) (pos : Z) : bool :=
  match bm !! Z.to_nat (pos / 8) with
  | Some b => Z.testbit (byte.unsigned b) (7 - pos mod 8)
  | None => false
  end.

Definition in_bitmap (bm : list byte) (pos : Z) : Prop := 0 ≤ pos < 8 * Z.of_nat (length bm).

Section lemmas.
Context (bm : list byte).

Lemma get_bucket_nonneg pos : 0 ≤ pos → get_bucket pos = pos / 8.
Proof. intros. unfold get_bucket, BITMAP_WIDTH. apply Z.quot_div_nonneg; lia. Qed.

Lemma get_bit_pow pos : 0 ≤ pos → get_bit pos = 2 ^ (7 - pos mod 8).
Proof.
  intros H. unfold get_bit, BITMAP_WIDTH, BITMAP_HIGHEST_BIT.
  rewrite Z.rem_mod_nonneg by lia. pose proof (Z.mod_pos_bound pos 8 eq_refl).
  change 128 with (2 ^ 7). rewrite Z.shiftr_div_pow2 by lia.
  rewrite <- Z.pow_sub_r by lia. done.
Qed.

Lemma at_bucket_in pos :
  in_bitmap bm pos →
  ∃ b, at_bucket bm (get_bucket pos) = Some b ∧ bm !! Z.to_nat (pos / 8) = Some b ∧
       get_bucket pos = pos / 8 ∧ 0 ≤ pos.
Proof.
  intros [H0 H1]. rewrite get_bucket_nonneg by lia. unfold at_bucket.
  assert (0 ≤ pos / 8 < Z.of_nat (length bm)) as Hb.
  { split; [apply Z.div_pos; lia|]. apply Z.div_lt_upper_bound; lia. }
  rewrite decide_True by lia.
  destruct (lookup_lt_is_Some_2 bm (Z.to_nat (pos / 8))) as [b Hb']; [lia|].
  exists b. auto.
Qed.

Lemma land_pow2 a n : 0 ≤ n → (Z.land a (2 ^ n) =? 0) = negb (Z.testbit a n).
Proof.
  intros Hn. destruct (Z.testbit a n) eqn:E; simpl.
  - apply Z.eqb_neq. intros H. assert (Z.testbit (Z.land a (2 ^ n)) n = true) as H2.
    { rewrite Z.land_spec, E, Z.pow2_bits_true by done. done. }
    rewrite H, Z.bits_0 in H2. done.
  - apply Z.eqb_eq. apply Z.bits_inj_iff. intros k. rewrite Z.land_spec, Z.bits_0.
    destruct (decide (k = n)) as [->|Hne]; [by rewrite E|].
    destruct (decide (0 ≤ k)); [|rewrite Z.testbit_neg_r by lia; done].
    rewrite Z.pow2_bits_false by lia. by rewrite andb_false_r.
Qed.

Lemma is_set_bit pos : in_bitmap bm pos → is_set bm pos = Some (bit bm pos).
Proof.
  intros H. destruct (at_bucket_in pos H) as (b & E1 & E2 & _ & H0).
  unfold is_set, bit. rewrite E1, E2; simpl. rewrite get_bit_pow by done.
  pose proof (Z.mod_pos_bound pos 8 eq_refl).
  rewrite land_pow2 by lia. by rewrite negb_involutive.
Qed.

Lemma testbit_of_Z z n : 0 ≤ n < 8 → Z.testbit (byte.unsigned (byte.of_Z z)) n = Z.testbit z n.
Proof.
  intros Hn. rewrite byte.unsigned_of_Z. unfold byte.wrap.
  rewrite Z.mod_pow2_bits_low by lia. done.
Qed.

(** Two positions are the same bit of the same byte only if they are equal. *)
Lemma same_position p q : 0 ≤ p → 0 ≤ q → p / 8 = q / 8 → p mod 8 = q mod 8 → p = q.
Proof. intros. rewrite (Z.div_mod p 8), (Z.div_mod q 8) by lia. congruence. Qed.

(** Replacing byte [p / 8] changes only bits of that byte. *)
Lemma bit_insert p q z :
  in_bitmap bm p → 0 ≤ q →
  bit (<[Z.to_nat (p / 8) := byte.of_Z z]> bm) q =
    if decide (p / 8 = q / 8) then Z.testbit z (7 - q mod 8) else bit bm q.
Proof.
  intros [Hp0 Hp1] Hq. unfold bit. pose proof (Z.mod_pos_bound q 8 eq_refl).
  assert (0 ≤ p / 8 < Z.of_nat (length bm)).
  { split; [apply Z.div_pos; lia|]. apply Z.div_lt_upper_bound; lia. }
  assert (0 ≤ q / 8) by (apply Z.div_pos; lia).
  case_decide as E.
  - rewrite <- E. rewrite list_lookup_insert_eq by lia. apply testbit_of_Z. lia.
  - rewrite list_lookup_insert_ne by lia. done.
Qed.

Lemma bit_lookup pos b : bm !! Z.to_nat (pos / 8) = Some b →
  Z.testbit (byte.unsigned b) (7 - pos mod 8) = bit bm pos.
Proof. unfold bit. by intros ->. Qed.

Lemma set_spec p :
  in_bitmap bm p →
  ∃ bm', set bm p = Some bm' ∧ length bm' = length bm ∧
         ∀ q, 0 ≤ q → bit bm' q = bool_decide (p = q) || bit bm q.
Proof.
  intros H. destruct (at_bucket_in p H) as (b & E1 & E2 & E3 & H0).
  unfold set. rewrite E1; simpl. rewrite E3. eexists. split; [done|].
  split; [apply length_insert|]. intros q Hq. rewrite bit_insert by done.
  rewrite get_bit_pow by done.
  pose proof (Z.mod_pos_bound p 8 eq_refl). pose proof (Z.mod_pos_bound q 8 eq_refl).
  case_decide as Ediv.
  - rewrite Z.lor_spec. rewrite Z.pow2_bits_eqb by lia.
    rewrite (bit_lookup q b) by (by rewrite <- Ediv). rewrite orb_comm. f_equal.
    case_bool_decide as E; [subst; by rewrite Z.eqb_refl|].
    apply Z.eqb_neq. intros E'. apply E. apply same_position; lia.
  - rewrite bool_decide_false; [done|]. by intros ->.
Qed.

Lemma reset_spec p :
  in_bitmap bm p →
  ∃ bm', reset bm p = Some bm' ∧ length bm' = length bm ∧
         ∀ q, 0 ≤ q → bit bm' q = negb (bool_decide (p = q)) && bit bm q.
Proof.
  intros H. destruct (at_bucket_in p H) as (b & E1 & E2 & E3 & H0).
  unfold reset. rewrite E1; simpl. rewrite E3. eexists. split; [done|].
  split; [apply length_insert|]. intros q Hq. rewrite bit_insert by done.
  rewrite get_bit_pow by done.
  pose proof (Z.mod_pos_bound p 8 eq_refl). pose proof (Z.mod_pos_bound q 8 eq_refl).
  case_decide as Ediv.
  - rewrite Z.land_spec, Z.lnot_spec by lia. rewrite Z.pow2_bits_eqb by lia.
    rewrite (bit_lookup q b) by (by rewrite <- Ediv). rewrite andb_comm. do 2 f_equal.
    case_bool_decide as E; [subst; by rewrite Z.eqb_refl|].
    apply Z.eqb_neq. intros E'. apply E. apply same_position; lia.
  - rewrite bool_decide_false; [done|]. by intros ->.
Qed.

(** The scan returns the first position of its range that has the wanted value. *)
Lemma next_bit_from_spec v max_n fuel i :
  0 ≤ i → Z.of_nat fuel = max_n - i → max_n ≤ 8 * Z.of_nat (length bm) →
  ∃ p, next_bit_from v bm max_n i fuel = Some p ∧ i ≤ p ≤ max_n ∧
       (∀ q, i ≤ q < p → bit bm q ≠ v) ∧ (p < max_n → bit bm p = v).
Proof.
  revert i. induction fuel as [|fuel IH]; intros i H0 Hf Hm; simpl.
  - exists max_n. split; [done|]. split; [lia|]. split; [intros; lia|lia].
  - rewrite is_set_bit by (unfold in_bitmap; lia). simpl.
    destruct (Bool.eqb (bit bm i) v) eqn:E.
    + apply eqb_prop in E. exists i. split; [done|]. split; [lia|]. split; [intros; lia|done].
    + apply eqb_false_iff in E. destruct (IH (i + 1)) as (p & Ep & Hp & Hlt & Hv); [lia..|].
      exists p. split; [done|]. split; [lia|]. split; [|done].
      intros q Hq. destruct (decide (q = i)) as [->|]; [done|]. apply Hlt. lia.
Qed.

Lemma next_bit_spec v max_n curr :
  -1 ≤ curr < max_n → max_n ≤ 8 * Z.of_nat (length bm) →
  ∃ p, next_bit v bm max_n curr = Some p ∧ curr < p ≤ max_n ∧
       (∀ q, curr < q < p → bit bm q ≠ v) ∧ (p < max_n → bit bm p = v).
Proof.
  intros Hc Hm. destruct (next_bit_from_spec v max_n (Z.to_nat (max_n - (curr + 1))) (curr + 1))
    as (p & E & Hp & Hlt & Hv); [lia..|].
  exists p. split; [done|]. split; [lia|]. split; [|done]. intros q Hq. apply Hlt. lia.
Qed.
End lemmas.

Lemma init_bit size q : bit (init size) q = false.
Proof.
  unfold bit, init. destruct (_ !! _) eqn:E; [|done].
  apply lookup_replicate in E as [-> _]. change (byte.unsigned Byte.x00) with 0.
  apply Z.bits_0.
Qed.

Lemma length_init size : 0 ≤ size → Z.of_nat (length (init size)) = size.
Proof. intros. unfold init. rewrite length_replicate. lia. Qed.

(** ** Properties *)

(** Setting and then clearing bits of a bitmap behaves as an array of booleans: after
    [set(bm, p)] position [p] reads [true], after [reset(bm, p)] it reads [false], and every
    other position of the array reads as before. *)
Theorem bitmap_array (bm : list byte) (p q : Z) (Hp : in_bitmap bm p) (Hq : in_bitmap bm q) :
  (bm' ← set bm p; is_set bm' q) = (if decide (p = q) then Some true else is_set bm q) ∧
  (bm' ← reset bm p; is_set bm' q) = (if decide (p = q) then Some false else is_set bm q).
Proof.
  destruct (set_spec bm p Hp) as (bm1 & E1 & L1 & B1).
  destruct (reset_spec bm p Hp) as (bm2 & E2 & L2 & B2).
  rewrite E1, E2; simpl. unfold in_bitmap in *.
  rewrite !is_set_bit by (unfold in_bitmap; lia). rewrite B1, B2 by lia.
  case_decide as E.
  - by rewrite !bool_decide_true.
  - by rewrite !bool_decide_false.
Qed.

(** [first_bit(v, bm, n)] is the smallest position below [n] that holds [v], and [n]
    when there is none; the scan reads only inside of the array. *)
Theorem first_bit_spec (v : bool) (bm : list byte) (n : Z)
    (H0 : 0 ≤ n) (Hn : n ≤ 8 * Z.of_nat (length bm)) :
  ∃ p, first_bit v bm n = Some p ∧ 0 ≤ p ≤ n ∧
       (p < n → is_set bm p = Some v) ∧
       (∀ q, 0 ≤ q < p → is_set bm q = Some (negb v)).
Proof.
  destruct (next_bit_from_spec bm v n (Z.to_nat (n - (-1 + 1))) (-1 + 1))
    as (p & E & Hp & Hlt & Hv); [lia..|].
  exists p. split; [done|]. split; [lia|]. split.
  - intros Hpn. rewrite is_set_bit by (unfold in_bitmap; lia). by rewrite Hv.
  - intros q Hq. rewrite is_set_bit by (unfold in_bitmap; lia).
    specialize (Hlt q ltac:(lia)). by destruct (bit bm q), v.
Qed.

Lemma bitmap_array_witness :
  (bm' ← set [Byte.xf0; Byte.x00] 10; is_set bm' 10) = Some true ∧
  (bm' ← reset [Byte.xf0; Byte.x00] 10; is_set bm' 10) = Some false.
Proof.
  apply (bitmap_array [Byte.xf0; Byte.x00] 10 10); unfold in_bitmap; simpl; lia.
Defined.

Lemma first_bit_spec_witness :
  ∃ p, first_bit false [Byte.xff; Byte.xe0] 13 = Some p ∧ 0 ≤ p ≤ 13 ∧
       (p < 13 → is_set [Byte.xff; Byte.xe0] p = Some false) ∧
       (∀ q, 0 ≤ q < p → is_set [Byte.xff; Byte.xe0] q = Some (negb false)).
Proof. apply (first_bit_spec false [Byte.xff; Byte.xe0] 13); simpl; lia. Defined.

End Bitmap.
