(* ===== verification/Disk.v ===== *)
(** * The disk manager ([storage/disk_manager.{h,cpp}])

    [DiskManager] maps paths to open file descriptors and back, reads and writes pages and
    the log through them, and counts the pages allocated to each file.  The files of the
    operating system are byte lists; [pread]/[pwrite]/[read]/[write] are the POSIX
    operations on them, and the descriptor that [open] returns is a parameter, of which
    only freshness is used.

    The class [PageStore] states what the buffer pool relies on; the last section shows
    that the disk manager provides it. *)

From S2P Require Import Prelude.

(** ** Interface: a store of pages *)

Class PageStore (D : Type) := {
  ps_wf : D → Prop;
  ps_read : Z → Z → D → res (list byte);
  ps_write : Z → Z → list byte → M D unit;
  ps_size : Z → D → res Z;        (* the size of an open file as an [int] *)
  ps_length : Z → D → Z           (* its length *)
}.

(** Page numbers that are written are not negative, and a page is [PAGE_SIZE] bytes. *)
Definition is_page (data : list byte) : Prop := length data = Z.to_nat PAGE_SIZE.

Class PageStoreLaws (D : Type) `{PageStore D} := {
  ps_write_wf fd p data d :
    ps_wf d → ps_wf (ps_write fd p data d).2;
  ps_read_page fd p d data :
    ps_read fd p d = Ok data → is_page data;
  ps_read_write_same fd p data d d' :
    ps_wf d → 0 ≤ p → is_page data →
    ps_write fd p data d = (Ok tt, d') → ps_read fd p d' = Ok data;
  ps_read_write_other fd p data d d' fd' p' old :
    ps_wf d → 0 ≤ p → 0 ≤ p' → is_page data → (fd, p) ≠ (fd', p') →
    ps_write fd p data d = (Ok tt, d') →
    ps_read fd' p' d = Ok old → ps_read fd' p' d' = Ok old;
  ps_write_err fd p data d e d' :
    ps_write fd p data d = (Err e, d') → d' = d;
  ps_read_size fd p d data :
    0 ≤ p → ps_read fd p d = Ok data →
    ps_size fd d = Ok (int32 (ps_length fd d)) ∧ (p + 1) * PAGE_SIZE ≤ ps_length fd d
}.

(** ** Interface: page numbers of a file as the buffer pool asks for them *)

Class PageAlloc (D : Type) := {
  pa_allocate : Z → M D Z;
  pa_rollback : Z → Z → M D bool
}.

(** The counters are apart from the pages. *)
Class PageAllocLaws (D : Type) `{PageStore D, PageAlloc D} := {
  pa_allocate_keeps fd d r d' : pa_allocate fd d = (r, d') →
    (∀ f p, ps_read f p d' = ps_read f p d) ∧ (ps_wf d → ps_wf d');
  pa_rollback_keeps fd p d r d' : pa_rollback fd p d = (r, d') →
    (∀ f q, ps_read f q d' = ps_read f q d) ∧ (ps_wf d → ps_wf d')
}.

Module Disk.

Definition MAX_FD : Z := 8192.

Record DiskManager := mk_DiskManager {
  os_files : gmap string (list byte);
  path2fd_ : gmap string Z;
  fd2path_ : gmap Z string;
  log_fd_ : Z;
  fd2pageno_ : gmap Z Z
}.

Definition init (files : gmap string (list byte)) : DiskManager := {|
  os_files := files; path2fd_ := ∅; fd2path_ := ∅; log_fd_ := -1; fd2pageno_ := ∅ |}.

Definition set_files (fs : gmap string (list byte)) (d : DiskManager) : DiskManager := {|
  os_files := fs; path2fd_ := path2fd_ d; fd2path_ := fd2path_ d;
  log_fd_ := log_fd_ d; fd2pageno_ := fd2pageno_ d |}.
Definition set_tables (p2f : gmap string Z) (f2p : gmap Z string) (d : DiskManager) : DiskManager := {|
  os_files := os_files d; path2fd_ := p2f; fd2path_ := f2p;
  log_fd_ := log_fd_ d; fd2pageno_ := fd2pageno_ d |}.
Definition set_log_fd (fd : Z) (d : DiskManager) : DiskManager := {|
  os_files := os_files d; path2fd_ := path2fd_ d; fd2path_ := fd2path_ d;
  log_fd_ := fd; fd2pageno_ := fd2pageno_ d |}.
Definition set_pageno (m : gmap Z Z) (d : DiskManager) : DiskManager := {|
  os_files := os_files d; path2fd_ := path2fd_ d; fd2path_ := fd2path_ d;
  log_fd_ := log_fd_ d; fd2pageno_ := m |}.

(** ** POSIX files *)

(** [pwrite] at [off]: a gap after the end of the file is filled with zeros. *)
Definition file_write (content : list byte) (off : nat) (data : list byte) : list byte :=
  write_bytes (content ++ replicate (off + length data - length content) Byte.x00) off data.

Definition file_of (fd : Z) (d : DiskManager) : option (string * list byte) :=
  path ← fd2path_ d !! fd; content ← os_files d !! path; Some (path, content).

Definition pwrite (fd : Z) (data : list byte) (off : Z) : M DiskManager bool :=
  d ← get;
  match file_of fd d with
  | Some (path, content) =>
      if decide (0 ≤ off) then
        put (set_files (<[path := file_write content (Z.to_nat off) data]> (os_files d)) d);;
        mret true
      else mret false
  | None => mret false
  end.

Definition pread (fd : Z) (len off : Z) (d : DiskManager) : option (list byte) :=
  if decide (0 ≤ off) then
    f ← file_of fd d; Some (read_bytes f.2 (Z.to_nat off) (Z.to_nat len))
  else None.

(** ** Pages *)

(** A [pwrite] to an open file is taken to write all bytes: disks do not run full and writes are
    not cut short.  A closed or negative descriptor makes it fail. *)
Definition write_page (fd page_no : Z) (data : list byte) : M DiskManager unit :=
  if decide (fd < 0) then throw InternalError
  else
    ok ← pwrite fd data (page_no * PAGE_SIZE);
    if (ok : bool) then mret tt else throw InternalError.

Definition read_page (fd page_no num_bytes : Z) (d : DiskManager) : res (list byte) :=
  if decide (fd < 0) then Err InternalError
  else match pread fd num_bytes (page_no * PAGE_SIZE) d with
       | Some data => if decide (Z.of_nat (length data) = num_bytes) then Ok data
                      else Err InternalError
       | None => Err InternalError
       end.

Definition pageno (fd : Z) (d : DiskManager) : Z := default 0 (fd2pageno_ d !! fd).
Definition set_fd2pageno (fd n : Z) (d : DiskManager) : DiskManager :=
  set_pageno (<[fd := n]> (fd2pageno_ d)) d.
Definition get_fd2pageno (fd : Z) (d : DiskManager) : Z := pageno fd d.

Definition allocate_page (fd : Z) : M DiskManager Z :=
  assert (bool_decide (0 ≤ fd < MAX_FD));;
  d ← get;
  put (set_fd2pageno fd (int32 (pageno fd d + 1)) d);;
  mret (pageno fd d).

(** [compare_exchange_strong]: the counter goes back only if it is still [page_no + 1]. *)
Definition rollback_allocated_page (fd page_no : Z) : M DiskManager bool :=
  assert (bool_decide (0 ≤ fd < MAX_FD));;
  d ← get;
  if decide (pageno fd d = page_no + 1)
  then put (set_fd2pageno fd page_no d);; mret true
  else mret false.

(** ** Files *)

Definition is_file (path : string) (d : DiskManager) : bool := bool_decide (is_Some (os_files d !! path)).

Definition create_file (path : string) : M DiskManager unit :=
  d ← get;
  if is_file path d then throw (FileExistsError path)
  else put (set_files (<[path := []]> (os_files d)) d).

Definition destroy_file (path : string) : M DiskManager unit :=
  d ← get;
  if negb (is_file path d) then throw (FileNotFoundError path)
  else if bool_decide (is_Some (path2fd_ d !! path)) then throw (FileNotClosedError path)
  else put (set_files (delete path (os_files d)) d).

Section descriptors.
(** The descriptor [open] returns for a process with the given descriptors open. *)
Context (os_fd : gmap Z string → Z).

Definition open_file (path : string) : M DiskManager Z :=
  d ← get;
  match path2fd_ d !! path with
  | Some fd => mret fd
  | None =>
      if is_file path d then
        let fd := os_fd (fd2path_ d) in
        put (set_tables (<[path := fd]> (path2fd_ d)) (<[fd := path]> (fd2path_ d)) d);;
        mret fd
      else throw (FileNotFoundError path)
  end.

Definition get_file_fd (file_name : string) : M DiskManager Z :=
  d ← get;
  match path2fd_ d !! file_name with
  | Some fd => mret fd
  | None => open_file file_name
  end.
End descriptors.

Definition close_file (fd : Z) : M DiskManager unit :=
  d ← get;
  match fd2path_ d !! fd with
  | None => throw (FileNotOpenError fd)
  | Some path => put (set_tables (delete path (path2fd_ d)) (delete fd (fd2path_ d)) d)
  end.

(** The size is returned as an [int]. *)
Definition get_file_size (path : string) (d : DiskManager) : Z :=
  match os_files d !! path with
  | Some content => int32 (Z.of_nat (length content))
  | None => -1
  end.

Definition get_file_name (fd : Z) (d : DiskManager) : res string :=
  match fd2path_ d !! fd with
  | Some path => Ok path
  | None => Err (FileNotOpenError fd)
  end.

(** ** The log file *)

Section log.
Context (os_fd : gmap Z string → Z).
Definition LOG_FILE_NAME : string := "db.log".

Definition open_log : M DiskManager unit :=
  d ← get;
  if decide (log_fd_ d = -1)
  then fd ← open_file os_fd LOG_FILE_NAME; modify (set_log_fd fd)
  else mret tt.

(** [-1] is returned for an offset behind the end; otherwise the bytes that were read. *)
Definition read_log (size offset : Z) : M DiskManager (option (list byte)) :=
  open_log;;
  d ← get;
  let log_path := default LOG_FILE_NAME (fd2path_ d !! log_fd_ d) in
  let file_size := get_file_size log_path d in
  if decide (file_size < offset) then mret None
  else
    let size := Z.min size (file_size - offset) in
    if decide (size = 0) then mret (Some [])
    else
      data ← deref (pread (log_fd_ d) size offset d);
      assert (bool_decide (Z.of_nat (length data) = size));;
      mret (Some data).

Definition write_log (data : list byte) : M DiskManager unit :=
  open_log;;
  d ← get;
  match file_of (log_fd_ d) d with
  | Some (path, content) => put (set_files (<[path := content ++ data]> (os_files d)) d)
  | None => throw UnixError
  end.
End log.

(** ** Invariant: the two descriptor tables are inverse to each other and every open
    path is a file *)

Record wf (d : DiskManager) : Prop := {
  wf_p2f : ∀ path fd, path2fd_ d !! path = Some fd ↔ fd2path_ d !! fd = Some path;
  wf_fd : ∀ fd path, fd2path_ d !! fd = Some path → 0 ≤ fd;
  wf_open : ∀ fd path, fd2path_ d !! fd = Some path → is_Some (os_files d !! path)
}.

Lemma disk_init_wf files : wf (init files).
Proof. split; simpl; intros *; by rewrite ?lookup_empty. Qed.

Lemma wf_set_files d path c :
  wf d → wf (set_files (<[path := c]> (os_files d)) d).
Proof.
  intros [H1 H2 H3]. split; simpl; [done..|].
  intros fd q Hq. destruct (decide (path = q)) as [->|]; simplify_map_eq; eauto.
Qed.

Lemma wf_pageno d m : wf d → wf (set_pageno m d).
Proof. by intros [H1 H2 H3]. Qed.

Lemma wf_log_fd d fd : wf d → wf (set_log_fd fd d).
Proof. by intros [H1 H2 H3]. Qed.

#[local] Hint Resolve wf_set_files wf_pageno wf_log_fd : rmdb.

Lemma pwrite_wf fd data off : preserves wf (pwrite fd data off).
Proof.
  intros d Hd. unfold pwrite, get, put, mbind, M_bind.
  destruct (file_of fd d) as [[path content]|]; [|done]. case_decide; simpl; eauto with rmdb.
Qed.

Lemma write_page_wf fd p data : preserves wf (write_page fd p data).
Proof.
  unfold write_page. case_decide; [auto with rmdb|].
  apply preserves_bind; [apply pwrite_wf|]. intros []; auto with rmdb.
Qed.

Lemma create_file_wf path : preserves wf (create_file path).
Proof.
  intros d Hd. unfold create_file, get, put, throw, mbind, M_bind.
  destruct (is_file path d); simpl; eauto with rmdb.
Qed.

Lemma destroy_file_wf path : preserves wf (destroy_file path).
Proof.
  intros d Hd. unfold destroy_file, get, put, throw, mbind, M_bind.
  destruct (negb _); [done|]. case_bool_decide as Hn; [done|]. simpl.
  destruct Hd as [H1 H2 H3]. split; simpl; [done..|]. intros fd q Hq.
  destruct (decide (path = q)) as [->|].
  - exfalso. apply Hn. apply H1 in Hq. eauto.
  - rewrite lookup_delete_ne by done. eauto.
Qed.

Lemma close_file_wf fd : preserves wf (close_file fd).
Proof.
  intros d Hd. unfold close_file, get, put, throw, mbind, M_bind.
  destruct (fd2path_ d !! fd) as [path|] eqn:E; [|done]. simpl.
  destruct Hd as [H1 H2 H3]. split; simpl.
  - intros q g. rewrite !lookup_delete.
    destruct (decide (path = q)) as [->|], (decide (fd = g)) as [->|]; try done.
    + split; [done|]. intros Hg. apply H1 in E, Hg. congruence.
    + split; [|done]. intros Hg%H1. congruence.
  - intros g q. rewrite lookup_delete. case_decide; [done|]. apply H2.
  - intros g q. rewrite lookup_delete. case_decide; [done|]. apply H3.
Qed.

Section open.
Context (os_fd : gmap Z string → Z).
(** POSIX: [open] returns a descriptor that is not open in the process. *)
Hypothesis os_fd_fresh : ∀ m, m !! os_fd m = None ∧ 0 ≤ os_fd m.

Lemma open_file_wf path : preserves wf (open_file os_fd path).
Proof using os_fd_fresh.
  intros d Hd. unfold open_file, get, put, throw, mbind, M_bind.
  destruct (path2fd_ d !! path) as [fd|] eqn:E; [done|].
  unfold is_file. case_bool_decide as Hf; [|done]. simpl.
  destruct (os_fd_fresh (fd2path_ d)) as [Hn H0]. destruct Hd as [H1 H2 H3].
  set (fd := os_fd (fd2path_ d)) in *. split; simpl.
  - intros q g. rewrite !lookup_insert.
    destruct (decide (path = q)) as [->|], (decide (fd = g)) as [<-|]; try naive_solver.
  - intros g q. rewrite lookup_insert. case_decide; [naive_solver|]. apply H2.
  - intros g q. rewrite lookup_insert. case_decide; [naive_solver|]. apply H3.
Qed.
End open.

(** ** Reading back what was written *)

Lemma length_file_write c off data :
  length (file_write c off data) = Nat.max (length c) (off + length data).
Proof.
  unfold file_write. rewrite length_write_bytes; len.
Qed.

Lemma file_write_same c off data :
  read_bytes (file_write c off data) off (length data) = data.
Proof. unfold file_write. apply read_write_same. len. Qed.

Lemma file_write_other c off data off' len' :
  (off' + len' ≤ off ∨ off + length data ≤ off')%nat →
  (off' + len' ≤ length c)%nat →
  read_bytes (file_write c off data) off' len' = read_bytes c off' len'.
Proof.
  intros Hd Hl. unfold file_write. rewrite read_write_other; [|len|done].
  unfold read_bytes. rewrite drop_app_le by lia. rewrite take_app_le; [done|len].
Qed.

Lemma write_page_inv fd p data d d' :
  write_page fd p data d = (Ok tt, d') →
  ∃ path content, 0 ≤ fd ∧ 0 ≤ p * PAGE_SIZE ∧ file_of fd d = Some (path, content) ∧
    d' = set_files (<[path := file_write content (Z.to_nat (p * PAGE_SIZE)) data]> (os_files d)) d.
Proof.
  unfold write_page, pwrite, get, put, throw, mbind, M_bind. case_decide; [done|].
  destruct (file_of fd d) as [[path content]|]; [|done].
  case_decide; [|done]. intros [= <-]. exists path, content. split_and!; [lia|done..].
Qed.

Lemma write_page_err fd p data d e d' : write_page fd p data d = (Err e, d') → d' = d.
Proof.
  unfold write_page, pwrite, get, put, throw, mbind, M_bind. case_decide; [by intros [= _ <-]|].
  destruct (file_of fd d) as [[path content]|]; [|by intros [= _ <-]].
  case_decide; [done|by intros [= _ <-]].
Qed.

Lemma file_of_set fd d path c :
  file_of fd (set_files (<[path := c]> (os_files d)) d) =
    if decide (fd2path_ d !! fd = Some path) then Some (path, c) else file_of fd d.
Proof.
  unfold file_of; simpl. destruct (fd2path_ d !! fd) as [q|] eqn:E; simpl; [|done].
  case_decide as H.
  - simplify_eq. by rewrite lookup_insert_eq.
  - rewrite lookup_insert_ne by congruence. done.
Qed.

Lemma file_of_path fd d path c : file_of fd d = Some (path, c) → fd2path_ d !! fd = Some path.
Proof.
  unfold file_of. destruct (fd2path_ d !! fd); simpl; [|done].
  destruct (os_files d !! _); simpl; naive_solver.
Qed.

Lemma read_page_inv fd p n d data :
  read_page fd p n d = Ok data →
  ∃ path c, 0 ≤ fd ∧ 0 ≤ p * PAGE_SIZE ∧ file_of fd d = Some (path, c) ∧
    data = read_bytes c (Z.to_nat (p * PAGE_SIZE)) (Z.to_nat n) ∧ Z.of_nat (length data) = n.
Proof.
  unfold read_page, pread. case_decide; [done|]. case_decide; [|done].
  destruct (file_of fd d) as [[path c]|]; simpl; [|done].
  case_decide; [|done]. intros [= <-]. exists path, c. split_and!; (lia || done).
Qed.

(** ** The disk manager is a page store *)

(** [get_file_size(get_file_name(fd))] *)
Definition fd_size (fd : Z) (d : DiskManager) : res Z :=
  match get_file_name fd d with Ok path => Ok (get_file_size path d) | Err e => Err e end.

#[global] Instance disk_store : PageStore DiskManager := {
  ps_wf := wf;
  ps_read := λ fd p d, read_page fd p PAGE_SIZE d;
  ps_write := write_page;
  ps_size := fd_size;
  ps_length := λ fd d, match file_of fd d with Some (_, c) => Z.of_nat (length c) | None => 0 end
}.

#[global] Instance disk_store_laws : PageStoreLaws DiskManager.
Proof.
  split; simpl.
  - intros fd p data d. apply write_page_wf.
  - intros fd p d data H. apply read_page_inv in H as (_ & _ & _ & _ & _ & _ & H).
    unfold is_page. lia.
  - intros fd p data d d' Hwf Hp Hdata E.
    apply write_page_inv in E as (path & c & Hfd & Hoff & Hf & ->).
    unfold read_page, pread. rewrite decide_False by lia. rewrite decide_True by lia.
    rewrite file_of_set. apply file_of_path in Hf. rewrite decide_True by done. simpl.
    unfold is_page in Hdata. rewrite <- Hdata. rewrite file_write_same.
    rewrite decide_True by (rewrite Hdata; unfold PAGE_SIZE; lia). done.
  - intros fd p data d d' fd' p' old Hwf Hp Hp' Hdata Hne E Hr.
    apply write_page_inv in E as (path & c & Hfd & Hoff & Hf & ->).
    apply read_page_inv in Hr as (path' & c' & Hfd' & Hoff' & Hf' & Hold & Hlen).
    unfold read_page, pread. rewrite decide_False by lia. rewrite decide_True by lia.
    rewrite file_of_set. apply file_of_path in Hf as Hpath. apply file_of_path in Hf' as Hpath'.
    case_decide as Hd.
    + assert (path' = path) as -> by congruence. assert (c' = c) as -> .
      { unfold file_of in Hf, Hf'. rewrite Hpath in Hf. rewrite Hpath' in Hf'. simpl in *.
        destruct (os_files d !! path); simpl in *; congruence. }
      assert (fd' = fd) as ->.
      { apply (wf_p2f d Hwf) in Hpath, Hpath'. congruence. }
      simpl. subst old. unfold read_bytes in Hlen. rewrite length_take, length_drop in Hlen.
      unfold is_page in Hdata. unfold PAGE_SIZE in *.
      rewrite file_write_other; [|assert (p ≠ p') by congruence; lia|lia].
      rewrite decide_True; [done|]. unfold read_bytes. rewrite length_take, length_drop. lia.
    + rewrite Hf'; simpl. rewrite <- Hold, decide_True by done. done.
  - intros fd p data d e d'. apply write_page_err.
  - intros fd p d data Hp Hr. apply read_page_inv in Hr as (path & c & Hfd & Hoff & Hf & Hold & Hlen). rewrite Hf.
    unfold fd_size, get_file_name, get_file_size. rewrite (file_of_path _ _ _ _ Hf). unfold file_of in Hf.
    rewrite (file_of_path fd d path c) in Hf by done. simpl in Hf.
    destruct (os_files d !! path) as [c'|]; simpl in Hf; [|done]. simplify_eq. split; [done|].
    unfold read_bytes, PAGE_SIZE in *. rewrite length_take, length_drop in Hlen. lia.
Qed.

(** ** Properties *)

(** A page that was written reads back as written, whatever the other pages of the file
    held, and no other page that could be read before, of this or of another open file,
    changes: page [i] of a file is the bytes from [i * PAGE_SIZE], and one file is never
    open under two descriptors. *)
Theorem disk_pages_independent (d d' : DiskManager) (fd p fd' p' : Z) (data old : list byte)
    (Hwf : wf d) (Hp : 0 ≤ p) (Hp' : 0 ≤ p') (Hdata : is_page data)
    (Hw : write_page fd p data d = (Ok tt, d')) :
  read_page fd p PAGE_SIZE d' = Ok data ∧
  ((fd, p) ≠ (fd', p') → read_page fd' p' PAGE_SIZE d = Ok old →
   read_page fd' p' PAGE_SIZE d' = Ok old) ∧ wf d'.
Proof.
  split_and!.
  - exact (ps_read_write_same fd p data d d' Hwf Hp Hdata Hw).
  - intros Hne Hr. exact (ps_read_write_other fd p data d d' fd' p' old Hwf Hp Hp' Hdata Hne Hw Hr).
  - pose proof (write_page_wf fd p data d Hwf) as H. by rewrite Hw in H.
Qed.

(** A disk with one open file of two pages. *)
Definition sample_disk : DiskManager := {|
  os_files := {[ "t" := replicate (Z.to_nat 8192) Byte.x01 ]};
  path2fd_ := {[ "t" := 3 ]}; fd2path_ := {[ 3 := "t" ]}; log_fd_ := -1; fd2pageno_ := ∅ |}.

Lemma sample_disk_wf : wf sample_disk.
Proof.
  split; simpl.
  - intros path fd. rewrite !lookup_singleton. repeat case_decide; naive_solver.
  - intros fd path. rewrite lookup_singleton. case_decide; [lia|done].
  - intros fd path. rewrite lookup_singleton. case_decide; [|done]. intros [= <-].
    rewrite lookup_singleton_eq. eauto.
Qed.

Lemma disk_pages_independent_witness :
  read_page 3 0 PAGE_SIZE (write_page 3 0 (replicate (Z.to_nat 4096) Byte.x07) sample_disk).2 =
    Ok (replicate (Z.to_nat 4096) Byte.x07).
Proof.
  apply (disk_pages_independent sample_disk
    (write_page 3 0 (replicate (Z.to_nat 4096) Byte.x07) sample_disk).2 3 0 3 1
    (replicate (Z.to_nat 4096) Byte.x07) (replicate (Z.to_nat 4096) Byte.x01)
    sample_disk_wf ltac:(lia) ltac:(lia) ltac:(vm_compute; reflexivity) ltac:(reflexivity)).
Defined.

Lemma pageno_set fd n d : pageno fd (set_fd2pageno fd n d) = n.
Proof. unfold pageno; simpl. by rewrite lookup_insert_eq. Qed.

Lemma allocate_page_eq fd d :
  allocate_page fd d =
    if decide (0 ≤ fd < MAX_FD)
    then (Ok (pageno fd d), set_fd2pageno fd (int32 (pageno fd d + 1)) d)
    else (Err AssertFailure, d).
Proof.
  unfold allocate_page, assert. case_bool_decide as H.
  - by rewrite decide_True.
  - by rewrite decide_False.
Qed.

Lemma rollback_allocated_page_eq fd p d :
  0 ≤ fd < MAX_FD →
  rollback_allocated_page fd p d =
    if decide (pageno fd d = p + 1) then (Ok true, set_fd2pageno fd p d) else (Ok false, d).
Proof.
  intros Hfd. unfold rollback_allocated_page, assert. rewrite bool_decide_true by done.
  unfold mbind, M_bind, get, put; simpl. by case_decide.
Qed.

#[global] Instance disk_alloc : PageAlloc DiskManager := {
  pa_allocate := allocate_page;
  pa_rollback := rollback_allocated_page
}.

#[global] Instance disk_alloc_laws : PageAllocLaws DiskManager.
Proof.
  assert (Hk : ∀ fd n d, (∀ f p, ps_read f p (set_fd2pageno fd n d) = ps_read f p d) ∧ (ps_wf d → ps_wf (set_fd2pageno fd n d))).
  { intros fd n d. split; [done|]. intros [H1 H2 H3]. by split. }
  split; simpl.
  - intros fd d r d' E. rewrite allocate_page_eq in E. case_decide; simplify_eq; [apply Hk|done].
  - intros fd p d r d' E. destruct (decide (0 ≤ fd < MAX_FD)) as [Hfd|Hfd].
    + rewrite rollback_allocated_page_eq in E by done. case_decide; simplify_eq; [apply Hk|done].
    + unfold rollback_allocated_page, assert in E. rewrite bool_decide_false in E by done.
      unfold throw, mbind, M_bind in E. by simplify_eq.
Qed.

(** Page numbers handed out by [allocate_page] are consecutive, and
    [rollback_allocated_page] takes one back exactly when no other page was allocated in the
    meantime. *)
Theorem allocate_rollback (d : DiskManager) (fd p : Z) (d1 : DiskManager)
    (Hr : 0 ≤ pageno fd d < 2147483646)
    (Ha : allocate_page fd d = (Ok p, d1)) :
  p = pageno fd d ∧
  (∃ d2, rollback_allocated_page fd p d1 = (Ok true, d2) ∧ pageno fd d2 = pageno fd d) ∧
  (∃ d3, allocate_page fd d1 = (Ok (p + 1), d3) ∧
         rollback_allocated_page fd p d3 = (Ok false, d3)).
Proof.
  rewrite allocate_page_eq in Ha. case_decide as Hfd; [|done]. simplify_eq.
  rewrite int32_id by (unfold is_int32; lia). split; [done|]. split.
  - rewrite rollback_allocated_page_eq by done. rewrite pageno_set, decide_True by done.
    eexists. split; [done|]. apply pageno_set.
  - rewrite allocate_page_eq, decide_True by done. rewrite pageno_set.
    eexists. split; [done|]. rewrite rollback_allocated_page_eq by done.
    rewrite pageno_set, int32_id by (unfold is_int32; lia). by rewrite decide_False by lia.
Qed.

Lemma allocate_rollback_witness :
  ∃ d1, allocate_page 3 sample_disk = (Ok 0, d1) ∧
        ∃ d2, rollback_allocated_page 3 0 d1 = (Ok true, d2) ∧ pageno 3 d2 = pageno 3 sample_disk.
Proof.
  eexists. split; [reflexivity|].
  destruct (allocate_rollback sample_disk 3 0 (set_fd2pageno 3 (int32 1) sample_disk))
    as (_ & H & _); [vm_compute; split; congruence|reflexivity|exact H].
Defined.

Section log_properties.
Context (os_fd : gmap Z string → Z).

(** The log file is append only: what [write_log] writes is read back by [read_log] at
    the old end of the file, and the bytes before it are unchanged. *)
Theorem log_append (d d' : DiskManager) (path : string) (content data : list byte)
    (Hopen : file_of (log_fd_ d) d = Some (path, content)) (Hfd : log_fd_ d ≠ -1)
    (Hne : data ≠ [])
    (Hsize : Z.of_nat (length content + length data) < 2147483648)
    (Hw : write_log os_fd data d = (Ok tt, d')) :
  read_log os_fd (Z.of_nat (length data)) (Z.of_nat (length content)) d' = (Ok (Some data), d') ∧
  file_of (log_fd_ d') d' = Some (path, content ++ data).
Proof.
  unfold write_log, open_log, get, put, mbind, M_bind in Hw.
  rewrite decide_False in Hw by done. simpl in Hw. rewrite Hopen in Hw. simplify_eq.
  pose proof (file_of_path _ _ _ _ Hopen) as Hpath.
  assert (Hnew : file_of (log_fd_ d) (set_files (<[path:=content ++ data]> (os_files d)) d) =
                 Some (path, content ++ data)).
  { rewrite file_of_set. by rewrite decide_True. }
  split; [|done].
  unfold read_log, open_log, get, deref, assert, mbind, M_bind. simpl.
  rewrite decide_False by done. simpl. rewrite Hpath; simpl.
  unfold get_file_size; simpl. rewrite lookup_insert_eq.
  destruct data as [|b data]; [done|]. rewrite length_app in *.
  rewrite int32_id by (unfold is_int32; lia).
  rewrite decide_False by lia. rewrite Z.min_l by lia. rewrite decide_False by (simpl; lia).
  unfold pread. rewrite decide_True by lia. rewrite Hnew; simpl.
  replace (Z.to_nat (Z.of_nat (length content))) with (length content) by lia.
  unfold read_bytes. rewrite drop_app_length. rewrite take_ge by (simpl; lia).
  rewrite bool_decide_true by done. done.
Qed.
End log_properties.

Lemma log_append_witness :
  let d := set_log_fd 3 sample_disk in
  ∃ d', write_log (λ _, 4) [Byte.x05] d = (Ok tt, d') ∧
        read_log (λ _, 4) 1 8192 d' = (Ok (Some [Byte.x05]), d').
Proof.
  eexists. split; [reflexivity|].
  apply (log_append (λ _, 4) (set_log_fd 3 sample_disk)
    (write_log (λ _, 4) [Byte.x05] (set_log_fd 3 sample_disk)).2 "t" (replicate (Z.to_nat 8192) Byte.x01)
    [Byte.x05] ltac:(reflexivity) ltac:(done) ltac:(done) ltac:(reflexivity) ltac:(reflexivity)).
Defined.

End Disk.
