(* ===== verification/BufferPool.v ===== *)
(** * The buffer pool ([storage/page.h], [storage/buffer_pool_manager.{h,cpp}])

    Frames hold pages; each page belongs to the shard its hash selects, and each shard has
    its own page table, free list, replacer and latch.  Every operation runs under the latch
    of one shard ([in_shard]), except for the two that walk over all shards in turn.

    The disk is any [PageStore] and the log any [LogSink].  The invariant [sinv] is the one
    of a shard; [content] is the abstract view, the bytes a page has for the layers above,
    wherever they are stored. *)

From S2P Require Import Prelude Replacer Disk.

(** ** Interface: the log as the buffer pool sees it

    [ls_durable l lsn]: the log records up to [lsn] are on disk; [ls_inv] is the invariant
    of the log, which a write of the log that fails may break. *)

Class LogSink (L : Type) := {
  ls_inv : L → Prop;
  ls_flush : Z → M L unit;
  ls_durable : L → Z → Prop
}.

Class LogSinkLaws (L : Type) `{LogSink L} := {
  ls_flush_ok lsn l l' : ls_inv l → ls_flush lsn l = (Ok tt, l') → ls_inv l' ∧ ls_durable l' lsn;
  ls_flush_keeps lsn l r l' x : ls_inv l → ls_flush lsn l = (r, l') → ls_durable l x → ls_durable l' x
}.

(** ** Pages *)

Record PageId := mk_PageId { fd : Z; page_no : Z }.

#[export] Instance PageId_eq_dec : EqDecision PageId.
Proof. solve_decision. Defined.
#[export] Program Instance PageId_countable : Countable PageId :=
  inj_countable' (λ p, (fd p, page_no p)) (λ '(a, b), mk_PageId a b) _.
Next Obligation. by intros []. Qed.

(** [PageId::operator<] *)
Definition PageId_lt (x y : PageId) : bool :=
  if decide (fd x < fd y) then true else bool_decide (page_no x < page_no y).

(** [PageIdHash]: computed in [int], converted to [size_t]. *)
Definition PageIdHash (x : PageId) : Z :=
  uint64 (Z.lor (int32 (Z.shiftl (fd x) 16)) (page_no x)).

Definition OFFSET_LSN : nat := 0.
Definition OFFSET_PAGE_HDR : nat := 4.

Definition get_page_lsn (data : list byte) : Z := dec_i32 (read_bytes data OFFSET_LSN 4).
Definition set_page_lsn (lsn : Z) (data : list byte) : list byte :=
  write_bytes data OFFSET_LSN (enc_int 4 lsn).

(** [reset_memory]: zeros, and an invalid LSN. *)
Definition reset_memory : list byte :=
  set_page_lsn INVALID_LSN (replicate (Z.to_nat PAGE_SIZE) Byte.x00).

Record Page := mk_Page {
  id_ : PageId;
  data_ : list byte;
  is_dirty_ : bool;
  pin_count_ : Z
}.

Definition mark_dirty (p : Page) : Page := mk_Page (id_ p) (data_ p) true (pin_count_ p).

Module Bpm.

Record Shard := mk_Shard {
  page_table_ : gmap PageId Z;
  free_list_ : list Z;
  replacer_ : Lru.LRUReplacer
}.

Definition choose_shard_count (pool_size : Z) : Z :=
  if decide (pool_size < 1024) then 1
  else if decide (pool_size < 8192) then 8
  else 32.

Section pool.
Context {D : Type} `{PageStore D} {L : Type} `{LogSink L}.

Record BufferPoolManager := mk_Bpm {
  pages_ : list Page;
  shards_ : list Shard;
  disk_manager_ : D;
  log_manager_ : option L
}.

Definition shard_index (n : Z) (pid : PageId) : Z := PageIdHash pid mod n.

(** The frames that the constructor gives to shard [i]. *)
Definition shard_frames (pool_size n i : Z) : list Z :=
  filter (λ f, f mod n = i) (seqZ 0 pool_size).

Definition make_bpm (pool_size : Z) (d : D) : BufferPoolManager :=
  let n := choose_shard_count pool_size in
  mk_Bpm (replicate (Z.to_nat pool_size) (mk_Page (mk_PageId 0 INVALID_PAGE_ID) reset_memory false 0))
    ((λ i, mk_Shard ∅ (shard_frames pool_size n i) (Lru.init (Z.to_nat pool_size))) <$> seqZ 0 n)
    d None.

Definition set_log_manager (l : L) (b : BufferPoolManager) : BufferPoolManager :=
  mk_Bpm (pages_ b) (shards_ b) (disk_manager_ b) (Some l).

(** ** Operations under the latch of one shard *)

Record SState := mk_SState {
  sh : Shard;
  pgs : list Page;
  dsk : D;
  lg : option L
}.

Definition set_sh (s : Shard) (st : SState) : SState := mk_SState s (pgs st) (dsk st) (lg st).
Definition set_page (f : Z) (p : Page) (st : SState) : SState :=
  mk_SState (sh st) (<[Z.to_nat f := p]> (pgs st)) (dsk st) (lg st).
Definition set_table (t : gmap PageId Z) (st : SState) : SState :=
  set_sh (mk_Shard t (free_list_ (sh st)) (replacer_ (sh st))) st.
Definition set_free (l : list Z) (st : SState) : SState :=
  set_sh (mk_Shard (page_table_ (sh st)) l (replacer_ (sh st))) st.

Definition page_at (f : Z) (st : SState) : option Page :=
  if decide (0 ≤ f) then pgs st !! Z.to_nat f else None.

(** Calls of the replacer, the disk manager and the log manager. *)
Definition on_replacer {A} (m : M Lru.LRUReplacer A) : M SState A := λ st,
  let '(r, rep) := m (replacer_ (sh st)) in
  (r, set_sh (mk_Shard (page_table_ (sh st)) (free_list_ (sh st)) rep) st).

Definition on_disk {A} (m : M D A) : M SState A := λ st,
  let '(r, d) := m (dsk st) in (r, mk_SState (sh st) (pgs st) d (lg st)).

Definition read_disk (pid : PageId) : M SState (list byte) := λ st,
  (ps_read (fd pid) (page_no pid) (dsk st), st).

Definition write_disk (pid : PageId) (data : list byte) : M SState unit :=
  on_disk (ps_write (fd pid) (page_no pid) data).

Definition flush_page_log (p : Page) : M SState unit := λ st,
  match lg st with
  | None => (Ok tt, st)
  | Some l =>
      let page_lsn := get_page_lsn (data_ p) in
      if decide (page_lsn ≠ INVALID_LSN)
      then let '(r, l') := ls_flush page_lsn l in (r, mk_SState (sh st) (pgs st) (dsk st) (Some l'))
      else (Ok tt, st)
  end.

Definition find_victim_page : M SState (option Z) :=
  st ← get;
  match last (free_list_ (sh st)) with
  | Some f =>
      put (set_free (take (length (free_list_ (sh st)) - 1) (free_list_ (sh st))) st);;
      mret (Some f)
  | None => on_replacer Lru.victim
  end.

(** [unordered_map::emplace] keeps an entry that is already there. *)
Definition emplace (pid : PageId) (f : Z) (t : gmap PageId Z) : gmap PageId Z :=
  match t !! pid with Some _ => t | None => <[pid := f]> t end.

Definition update_page (f : Z) (new_page_id : PageId) : M SState unit :=
  st ← get;
  page ← deref (page_at f st);
  (if is_dirty_ page then flush_page_log page;; write_disk (id_ page) (data_ page) else mret tt);;
  modify (λ st, set_table (emplace new_page_id f (delete (id_ page) (page_table_ (sh st)))) st);;
  modify (set_page f (mk_Page new_page_id reset_memory false 0)).

Definition fetch_page_in (pid : PageId) : M SState (option Z) :=
  st ← get;
  match page_table_ (sh st) !! pid with
  | Some f =>
      page ← deref (page_at f st);
      (if decide (pin_count_ page = 0) then on_replacer (Lru.pin f) else mret tt);;
      modify (set_page f (mk_Page (id_ page) (data_ page) (is_dirty_ page) (pin_count_ page + 1)));;
      mret (Some f)
  | None =>
      fo ← find_victim_page;
      match fo with
      | None => mret None
      | Some f =>
          update_page f pid;;
          data ← read_disk pid;
          modify (set_page f (mk_Page pid data false 1));;
          on_replacer (Lru.pin f);;
          mret (Some f)
      end
  end.

Definition unpin_page_in (pid : PageId) (is_dirty : bool) : M SState bool :=
  st ← get;
  match page_table_ (sh st) !! pid with
  | None => mret false
  | Some f =>
      page ← deref (page_at f st);
      if decide (pin_count_ page = 0) then mret false
      else
        (if decide (pin_count_ page - 1 = 0) then on_replacer (Lru.unpin f) else mret tt);;
        modify (set_page f (mk_Page (id_ page) (data_ page) (is_dirty_ page || is_dirty) (pin_count_ page - 1)));;
        mret true
  end.

Definition flush_page_in (pid : PageId) : M SState bool :=
  st ← get;
  match page_table_ (sh st) !! pid with
  | None => mret false
  | Some f =>
      page ← deref (page_at f st);
      flush_page_log page;;
      write_disk pid (data_ page);;
      modify (set_page f (mk_Page (id_ page) (data_ page) false (pin_count_ page)));;
      mret true
  end.

(** The part of [new_page] and [new_page_at] after the page number is known. *)
Definition install_new_page (pid : PageId) : M SState (option Z) :=
  fo ← find_victim_page;
  match fo with
  | None => mret None
  | Some f =>
      update_page f pid;;
      modify (set_page f (mk_Page pid reset_memory false 1));;
      on_replacer (Lru.pin f);;
      mret (Some f)
  end.

Definition new_page_at_in (pid : PageId) : M SState (option Z) :=
  st ← get;
  match page_table_ (sh st) !! pid with
  | Some _ => mret None
  | None => install_new_page pid
  end.

Definition delete_page_in (pid : PageId) : M SState bool :=
  st ← get;
  match page_table_ (sh st) !! pid with
  | None => mret true
  | Some f =>
      page ← deref (page_at f st);
      if decide (pin_count_ page ≠ 0) then mret false
      else
        (if is_dirty_ page then flush_page_log page;; write_disk pid (data_ page) else mret tt);;
        modify (set_page f (mk_Page (mk_PageId (fd (id_ page)) INVALID_PAGE_ID) reset_memory false 0));;
        modify (λ st, set_table (delete pid (page_table_ (sh st))) st);;
        modify (λ st, set_free (free_list_ (sh st) ++ [f]) st);;
        mret true
  end.

(** One step of the loops of [flush_all_pages] and [delete_all_pages]. *)
Definition flush_entry (file : Z) (e : PageId * Z) : M SState unit :=
  if decide (fd e.1 ≠ file) then mret tt
  else
    st ← get;
    page ← deref (page_at e.2 st);
    flush_page_log page;;
    write_disk (mk_PageId file (page_no e.1)) (data_ page);;
    modify (set_page e.2 (mk_Page (id_ page) (data_ page) false (pin_count_ page))).

Definition delete_entry (file : Z) (e : PageId * Z) : M SState unit :=
  if decide (fd e.1 ≠ file) then mret tt
  else
    st ← get;
    page ← deref (page_at e.2 st);
    on_replacer (Lru.pin e.2);;
    modify (set_page e.2 (mk_Page (mk_PageId (fd (id_ page)) INVALID_PAGE_ID) reset_memory false 0));;
    modify (λ st, set_free (free_list_ (sh st) ++ [e.2]) st);;
    modify (λ st, set_table (delete e.1 (page_table_ (sh st))) st).

Fixpoint for_each {S A} (f : A → M S unit) (l : list A) : M S unit :=
  match l with
  | [] => mret tt
  | a :: l => f a;; for_each f l
  end.

Definition flush_shard (file : Z) : M SState unit :=
  st ← get; for_each (flush_entry file) (map_to_list (page_table_ (sh st))).

Definition delete_shard (file : Z) : M SState unit :=
  st ← get; for_each (delete_entry file) (map_to_list (page_table_ (sh st))).

(** ** The operations of the pool *)

Definition with_shard {A} (i : Z) (m : M SState A) : M BufferPoolManager A := λ b,
  match shards_ b !! Z.to_nat i with
  | None => (Err Undefined, b)
  | Some s =>
      let '(r, st) := m (mk_SState s (pages_ b) (disk_manager_ b) (log_manager_ b)) in
      (r, mk_Bpm (pgs st) (<[Z.to_nat i := sh st]> (shards_ b)) (dsk st) (lg st))
  end.

Definition in_shard {A} (pid : PageId) (m : M SState A) : M BufferPoolManager A := λ b,
  with_shard (shard_index (Z.of_nat (length (shards_ b))) pid) m b.

Definition fetch_page (pid : PageId) : M BufferPoolManager (option Z) := in_shard pid (fetch_page_in pid).
Definition unpin_page (pid : PageId) (is_dirty : bool) : M BufferPoolManager bool :=
  in_shard pid (unpin_page_in pid is_dirty).
Definition flush_page (pid : PageId) : M BufferPoolManager bool := in_shard pid (flush_page_in pid).
Definition new_page_at (pid : PageId) : M BufferPoolManager (option Z) := in_shard pid (new_page_at_in pid).
Definition delete_page (pid : PageId) : M BufferPoolManager bool := in_shard pid (delete_page_in pid).

Definition flush_all_pages (file : Z) : M BufferPoolManager unit :=
  b ← get; for_each (λ i, with_shard i (flush_shard file)) (seqZ 0 (Z.of_nat (length (shards_ b)))).
Definition delete_all_pages (file : Z) : M BufferPoolManager unit :=
  b ← get; for_each (λ i, with_shard i (delete_shard file)) (seqZ 0 (Z.of_nat (length (shards_ b)))).

(** [new_page] takes the next page number of the file from the disk manager, and gives it back
    if there is no frame. *)
Definition on_bpm_disk {A} (m : M D A) : M BufferPoolManager A := λ b,
  let '(r, d) := m (disk_manager_ b) in
  (r, mk_Bpm (pages_ b) (shards_ b) d (log_manager_ b)).

Definition new_page `{PageAlloc D} (file : Z) : M BufferPoolManager (PageId * option Z) :=
  no ← on_bpm_disk (pa_allocate file);
  let pid := mk_PageId file no in
  fo ← in_shard pid (
         fo ← install_new_page pid;
         match fo with
         | Some f => mret (Some f)
         | None => on_disk (pa_rollback file no);; mret None
         end);
  mret (pid, fo).
End pool.

Arguments BufferPoolManager : clear implicits.
Arguments SState : clear implicits.

End Bpm.
