(* ===== verification/BufferPoolFacts.v ===== *)
(** * Correctness of the buffer pool

    The invariant of a shard, the abstract contents of the pages, and for each operation of
    [BufferPool] that it keeps the invariant, changes no contents and moves no pinned page. *)

From S2P Require Import Prelude Replacer Disk BufferPool.

Module BpmFacts.
Import Bpm.

Section shard.
Context {D : Type} `{HPS : PageStore D} `{HPL : !PageStoreLaws D}.
Context {L : Type} `{HLS : LogSink L} `{HLL : !LogSinkLaws L}.
(** The number of shards and the index of the shard in question. *)
Context (n i : Z).

Implicit Types (st : SState D L) (f : Z) (pid : PageId) (pg : Page).

Definition valid_pid pid : Prop := 0 ≤ page_no pid.

Definition owned st f : Prop := 0 ≤ f < Z.of_nat (length (pgs st)) ∧ f mod n = i.

(** The invariant with a hole [h]: a frame that was taken out of the shard and is not yet
    installed again. *)
Record sinv_ex (h : option Z) st : Prop := {
  si_table : ∀ pid f, page_table_ (sh st) !! pid = Some f →
    Some f ≠ h ∧ owned st f ∧ valid_pid pid ∧ shard_index n pid = i ∧
    ∃ pg, page_at f st = Some pg ∧ id_ pg = pid;
  si_nodup : NoDup (free_list_ (sh st));
  si_free : ∀ f, f ∈ free_list_ (sh st) →
    Some f ≠ h ∧ owned st f ∧
    ∃ pg, page_at f st = Some pg ∧ page_no (id_ pg) = INVALID_PAGE_ID ∧
          pin_count_ pg = 0 ∧ is_dirty_ pg = false;
  si_cover : ∀ f, owned st f →
    Some f = h ∨ f ∈ free_list_ (sh st) ∨ ∃ pid, page_table_ (sh st) !! pid = Some f;
  si_lru : Lru.wf (replacer_ (sh st));
  si_lru_size : Lru.max_size_ (replacer_ (sh st)) = length (pgs st);
  si_evictable : ∀ f, f ∈ Lru.frames (replacer_ (sh st)) →
    owned st f ∧ (Some f ≠ h → ∀ pg, page_at f st = Some pg → pin_count_ pg = 0);
  si_unpinned : ∀ pid f pg, page_table_ (sh st) !! pid = Some f → page_at f st = Some pg →
    pin_count_ pg = 0 → f ∈ Lru.frames (replacer_ (sh st));
  si_pages : ∀ f pg, page_at f st = Some pg → 0 ≤ pin_count_ pg ∧ is_page (data_ pg);
  si_clean : ∀ pid f pg, page_table_ (sh st) !! pid = Some f → page_at f st = Some pg →
    pin_count_ pg = 0 → is_dirty_ pg = false →
    ps_read (fd pid) (page_no pid) (dsk st) = Ok (data_ pg);
  si_disk : ps_wf (dsk st)
}.

Abbreviation sinv := (sinv_ex None).

(** The bytes of a page as the layers above see them. *)
Definition scontent st pid : res (list byte) :=
  match page_table_ (sh st) !! pid with
  | Some f => match page_at f st with Some pg => Ok (data_ pg) | None => Err Undefined end
  | None => ps_read (fd pid) (page_no pid) (dsk st)
  end.

(** What a step under the latch may not do to the rest of the pool. *)
Record sframe st st' : Prop := {
  sf_len : length (pgs st') = length (pgs st);
  sf_pages : ∀ f, f mod n ≠ i → page_at f st' = page_at f st;
  sf_disk : ∀ pid data, valid_pid pid → shard_index n pid ≠ i →
    ps_read (fd pid) (page_no pid) (dsk st) = Ok data →
    ps_read (fd pid) (page_no pid) (dsk st') = Ok data
}.

(** A page that is pinned stays in its frame with its data. *)
Definition pins_kept st st' : Prop := ∀ pid f pg,
  page_table_ (sh st) !! pid = Some f → page_at f st = Some pg → pin_count_ pg ≠ 0 →
  page_table_ (sh st') !! pid = Some f ∧ ∃ pg', page_at f st' = Some pg' ∧ data_ pg' = data_ pg.

(** A step on page [pid] leaves the other pages alone: no page comes into the pool, and a
    pinned page stays as it is, in the pool and on disk. *)
Definition quiet pid st st' : Prop := ∀ q, q ≠ pid →
  (∀ g x, page_table_ (sh st') !! q = Some g → page_at g st' = Some x →
     page_table_ (sh st) !! q = Some g ∧ page_at g st = Some x) ∧
  (∀ g x, page_table_ (sh st) !! q = Some g → page_at g st = Some x → pin_count_ x ≠ 0 →
     page_table_ (sh st') !! q = Some g ∧ page_at g st' = Some x ∧
     ∀ d, ps_read (fd q) (page_no q) (dsk st) = Ok d → ps_read (fd q) (page_no q) (dsk st') = Ok d).

Definition content_kept st st' : Prop := ∀ pid data,
  valid_pid pid → scontent st pid = Ok data → scontent st' pid = Ok data.

(** ** Frames *)

Lemma page_at_set f g pg st :
  0 ≤ f < Z.of_nat (length (pgs st)) → 0 ≤ g →
  page_at g (set_page f pg st) = if decide (f = g) then Some pg else page_at g st.
Proof.
  intros Hf Hg. unfold page_at, set_page; simpl. destruct (decide (0 ≤ g)); [|done].
  case_decide as E.
  - subst. apply list_lookup_insert_eq. lia.
  - rewrite list_lookup_insert_ne by lia. done.
Qed.

Lemma owned_page st f : owned st f → ∃ pg, page_at f st = Some pg.
Proof.
  intros [Hf _]. unfold page_at. rewrite decide_True by lia.
  apply lookup_lt_is_Some_2. lia.
Qed.

Lemma owned_range st f : owned st f → 0 ≤ f < Z.of_nat (length (pgs st)).
Proof. by intros []. Qed.

Lemma page_at_range st f pg : page_at f st = Some pg → 0 ≤ f < Z.of_nat (length (pgs st)).
Proof. unfold page_at. case_decide; [|done]. intros E%lookup_lt_Some. lia. Qed.

Lemma reset_memory_page : is_page reset_memory.
Proof. reflexivity. Qed.

(** A page table has at most one entry for a frame. *)
Lemma table_inj h st pid pid' f :
  sinv_ex h st → page_table_ (sh st) !! pid = Some f → page_table_ (sh st) !! pid' = Some f → pid = pid'.
Proof.
  intros HI (_ & _ & _ & _ & pg & E & Hid)%(si_table _ _ HI)
         (_ & _ & _ & _ & pg' & E' & Hid')%(si_table _ _ HI). congruence.
Qed.

Lemma free_not_mapped h st pid f :
  sinv_ex h st → f ∈ free_list_ (sh st) → page_table_ (sh st) !! pid = Some f → False.
Proof.
  intros HI (_ & _ & pg & E & Hid & _)%(si_free _ _ HI)
         (_ & _ & Hv & _ & pg' & E' & Hid')%(si_table _ _ HI).
  unfold valid_pid, INVALID_PAGE_ID in *. assert (pg = pg') by congruence. subst. lia.
Qed.

(** ** Logging and writing back *)

Lemma flush_page_log_ok pg st st' :
  flush_page_log pg st = (Ok tt, st') →
  sh st' = sh st ∧ pgs st' = pgs st ∧ dsk st' = dsk st.
Proof.
  unfold flush_page_log. destruct (lg st) as [l|]; [|intros; by simplify_eq].
  case_decide; [|intros; by simplify_eq].
  destruct (ls_flush _ l) as [[] l']; intros; by simplify_eq.
Qed.

Lemma write_disk_ok pid data st st' :
  write_disk pid data st = (Ok tt, st') →
  ∃ d', ps_write (fd pid) (page_no pid) data (dsk st) = (Ok tt, d') ∧
        st' = mk_SState (sh st) (pgs st) d' (lg st).
Proof.
  unfold write_disk, on_disk. destruct (ps_write _ _ _ _) as [[[]|e] d']; [|done].
  intros; simplify_eq. by exists d'.
Qed.

(** The effect of writing a page of the shard to disk on the rest of the state. *)
Definition wrote pid data (d d' : D) : Prop :=
  ps_wf d' ∧ ps_read (fd pid) (page_no pid) d' = Ok data ∧
  ∀ pid' old, valid_pid pid' → pid' ≠ pid →
    ps_read (fd pid') (page_no pid') d = Ok old → ps_read (fd pid') (page_no pid') d' = Ok old.

Lemma flush_write_ok pg pid st st' :
  (flush_page_log pg;; write_disk pid (data_ pg)) st = (Ok tt, st') →
  ps_wf (dsk st) → valid_pid pid → is_page (data_ pg) →
  sh st' = sh st ∧ pgs st' = pgs st ∧ wrote pid (data_ pg) (dsk st) (dsk st').
Proof using HPL.
  intros E Hwf Hv Hp. apply bind_inv_ok in E as ([] & st1 & E1 & E2).
  apply flush_page_log_ok in E1 as (Hs & Hpg & Hd).
  apply write_disk_ok in E2 as (d' & Hw & ->). simpl. split; [done|]. split; [done|].
  rewrite Hd in Hw. split_and!.
  - pose proof (ps_write_wf (fd pid) (page_no pid) (data_ pg) (dsk st) Hwf) as H'. by rewrite Hw in H'.
  - by apply (ps_read_write_same _ _ _ _ _ Hwf Hv Hp Hw).
  - intros pid' old Hv' Hne Hr.
    eapply ps_read_write_other; [exact Hwf|exact Hv|exact Hv'|exact Hp| |exact Hw|exact Hr].
    intros ?; simplify_eq. apply Hne. destruct pid, pid'; simpl in *; congruence.
Qed.

(** Writing back leaves the invariant alone as long as the page written is not a cached,
    clean, unpinned page with other data. *)
Lemma sinv_wrote h st st' pid data :
  sinv_ex h st → sh st' = sh st → pgs st' = pgs st → wrote pid data (dsk st) (dsk st') →
  (∀ f pg, page_table_ (sh st) !! pid = Some f → page_at f st = Some pg →
           pin_count_ pg = 0 → is_dirty_ pg = false → data_ pg = data) →
  sinv_ex h st'.
Proof.
  intros HI Hs Hp (Hwf & Hsame & Hother) Hd.
  destruct st as [s p d l], st' as [s' p' d' l']; simpl in *; subst.
  destruct HI. split; try assumption.
  intros pid' f pg Ht Hpg Hpin Hdirty.
  destruct (si_table0 _ _ Ht) as (_ & _ & Hv & _). simpl.
  destruct (decide (pid' = pid)) as [->|Hne].
  - rewrite Hsame. f_equal. symmetry. by eapply Hd.
  - apply Hother; [done..|]. by eapply si_clean0.
Qed.

(** ** Taking a frame *)

(** What [find_victim_page] leaves behind when it returns a frame. *)
Definition taken f pg st st' : Prop :=
  owned st f ∧ page_at f st = Some pg ∧ pin_count_ pg = 0 ∧
  pgs st' = pgs st ∧ dsk st' = dsk st ∧ page_table_ (sh st') = page_table_ (sh st) ∧
  (page_table_ (sh st) !! id_ pg = Some f ∨
   (page_no (id_ pg) = INVALID_PAGE_ID ∧ is_dirty_ pg = false ∧
    ∀ pid, page_table_ (sh st) !! pid ≠ Some f)) ∧
  (∀ g, g ∈ free_list_ (sh st') ↔ g ∈ free_list_ (sh st) ∧ g ≠ f) ∧ NoDup (free_list_ (sh st')) ∧
  Lru.wf (replacer_ (sh st')) ∧
  Lru.max_size_ (replacer_ (sh st')) = Lru.max_size_ (replacer_ (sh st)) ∧
  (∀ g, g ≠ f → g ∈ Lru.frames (replacer_ (sh st')) ↔ g ∈ Lru.frames (replacer_ (sh st))) ∧
  (f ∈ Lru.frames (replacer_ (sh st')) → f ∈ Lru.frames (replacer_ (sh st))) ∧ lg st' = lg st.

Lemma find_victim_free f l st :
  sinv st → free_list_ (sh st) = l ++ [f] →
  ∃ pg st', find_victim_page st = (Ok (Some f), st') ∧ taken f pg st st'.
Proof.
  intros HI E. pose proof (si_nodup _ _ HI) as Hnd. rewrite E in Hnd.
  apply NoDup_app in Hnd as (Hnd & Hdis & _).
  destruct (si_free _ _ HI f) as (_ & Ho & pg & Hpg & Hid & Hpin & Hdirty);
    [rewrite E; set_solver|].
  exists pg. unfold find_victim_page, get, mbind, M_bind. rewrite E, last_snoc.
  eexists. split; [done|]. unfold taken; simpl. rewrite length_app; simpl.
  replace (length l + 1 - 1)%nat with (length l) by lia. rewrite take_app_length, E.
  split_and!; try done.
  - right. split_and!; [done..|]. intros pid Hm.
    eapply free_not_mapped; [exact HI| |exact Hm]. rewrite E. set_solver.
  - intros g. rewrite elem_of_app, list_elem_of_singleton. split.
    + intros Hg. split; [by left|]. intros ->. eapply Hdis; [done|set_solver].
    + intros [[?| ->] ?]; done.
  - apply (si_lru _ _ HI).
Qed.

Lemma find_victim_lru st r st' :
  sinv st → free_list_ (sh st) = [] → find_victim_page st = (r, st') →
  (r = Ok None ∧ st' = st ∧ Lru.frames (replacer_ (sh st)) = []) ∨
  (∃ f pg, r = Ok (Some f) ∧ taken f pg st st').
Proof.
  intros HI E Hrun. unfold find_victim_page, get, mbind, M_bind in Hrun. rewrite E in Hrun.
  simpl in Hrun. unfold on_replacer in Hrun.
  destruct (Lru.victim_refines (replacer_ (sh st)) (si_lru _ _ HI)) as (rep & Hv & Hwf & Hfr & Hsz).
  rewrite Hv in Hrun. simplify_eq. unfold Lru.a_victim in *.
  destruct (last (Lru.frames (replacer_ (sh st)))) as [f|] eqn:El; simpl in *.
  - right. apply last_snoc_inv in El as [l El].
    assert (Hin : f ∈ Lru.frames (replacer_ (sh st))) by (rewrite El; set_solver).
    destruct (si_evictable _ _ HI f Hin) as [Ho Hpin].
    destruct (owned_page st f Ho) as [pg Hpg].
    destruct (si_cover _ _ HI f Ho) as [?|[Hfr0|[pid Hm]]];
      [done|by rewrite E, elem_of_nil in Hfr0|].
    destruct (si_table _ _ HI _ _ Hm) as (_ & _ & _ & _ & pg' & Hpg' & Hid).
    exists f, pg. split; [done|]. unfold taken; simpl. rewrite Hfr, Hsz, E.
    split_and!; try done.
    + by apply Hpin.
    + left. congruence.
    + intros g. rewrite elem_of_nil. naive_solver.
    + constructor.
    + intros g Hg. rewrite elem_of_remove_elem. naive_solver.
  - left. apply last_None in El. split; [done|]. split; [|done].
    unfold Lru.victim, get, mbind, M_bind in Hv. unfold Lru.frames in El.
    apply fmap_nil_inv in El. rewrite El in Hv. simpl in Hv. simplify_eq.
    destruct st as [[] ? ? ?]; unfold set_sh; simpl in *.
    unfold mret, M_ret in Hv. by simplify_eq.
Qed.

Lemma find_victim_ok st f st' :
  sinv st → find_victim_page st = (Ok (Some f), st') → ∃ pg, taken f pg st st'.
Proof.
  intros HI E. destruct (rev_cases (free_list_ (sh st))) as [El|(l & g & El)].
  - destruct (find_victim_lru st _ _ HI El E) as [(?&_)|(g & pg & ? & Ht)]; simplify_eq.
    by exists pg.
  - destruct (find_victim_free g l st HI El) as (pg & st1 & E1 & Ht).
    rewrite E in E1. simplify_eq. by exists pg.
Qed.

Lemma find_victim_none st st' :
  sinv st → find_victim_page st = (Ok None, st') →
  st' = st ∧ free_list_ (sh st) = [] ∧ Lru.frames (replacer_ (sh st)) = [].
Proof.
  intros HI E. destruct (rev_cases (free_list_ (sh st))) as [El|(l & g & El)].
  - destruct (find_victim_lru st _ _ HI El E) as [(_&?&?)|(g & pg & ? & Ht)]; by simplify_eq.
  - destruct (find_victim_free g l st HI El) as (pg & st1 & E1 & Ht). congruence.
Qed.

(** ** Installing a page in a taken frame *)

(** The disk after the old page of the frame was written back, if it had to be. *)
Record evicted f pg st (d' : D) : Prop := {
  ev_wf : ps_wf d';
  ev_old : page_table_ (sh st) !! id_ pg = Some f →
    ps_read (fd (id_ pg)) (page_no (id_ pg)) d' = Ok (data_ pg);
  ev_other : ∀ pid old, valid_pid pid → pid ≠ id_ pg →
    ps_read (fd pid) (page_no pid) (dsk st) = Ok old → ps_read (fd pid) (page_no pid) d' = Ok old
}.

(** The state after a page was installed in frame [f] and pinned. *)
Definition installed f pg pid data st (st1 : SState D L) rep d' l' : SState D L :=
  mk_SState (mk_Shard (<[pid := f]> (delete (id_ pg) (page_table_ (sh st)))) (free_list_ (sh st1)) rep)
    (<[Z.to_nat f := mk_Page pid data false 1]> (pgs st)) d' l'.

Section install.
Context (st st1 : SState D L) (f : Z) (pg : Page) (pid : PageId) (data : list byte).
Context (rep : Lru.LRUReplacer) (d' : D) (l' : option L).
Context (HI : sinv st) (Ht : taken f pg st st1) (Hev : evicted f pg st d').
Context (Hnew : page_table_ (sh st) !! pid = None) (Hv : valid_pid pid).
Context (Hix : shard_index n pid = i) (Hdata : is_page data).
Context (Hrep : Lru.wf rep) (Hsz : Lru.max_size_ rep = length (pgs st)).
Context (Hfr : Lru.frames rep = Lru.a_pin f (Lru.frames (replacer_ (sh st1)))).

Let st' := installed f pg pid data st st1 rep d' l'.

Lemma installed_page g :
  0 ≤ g → page_at g st' = if decide (f = g) then Some (mk_Page pid data false 1) else page_at g st.
Proof using HI Ht Hev Hnew Hv Hix Hdata Hrep Hsz Hfr.
  intros Hg. destruct Ht as (Ho & _). apply owned_range in Ho.
  exact (page_at_set f g (mk_Page pid data false 1) st Ho Hg).
Qed.

(** The entries that are left are those of the other frames. *)
Lemma installed_table q g :
  page_table_ (sh st') !! q = Some g ↔
  (q = pid ∧ g = f) ∨ (q ≠ pid ∧ g ≠ f ∧ page_table_ (sh st) !! q = Some g).
Proof using HI Ht Hev Hnew Hv Hix Hdata Hrep Hsz Hfr.
  destruct Ht as (Ho & Hpg & _ & _ & _ & _ & Hor & _). simpl.
  destruct (decide (pid = q)) as [->|Hne].
  { rewrite lookup_insert_eq. naive_solver. }
  rewrite lookup_insert_ne by done. destruct (decide (id_ pg = q)) as [<-|Hne'].
  - rewrite lookup_delete_eq. split; [done|]. intros [[? ?]|(_ & Hg & Hm)]; [done|].
    destruct (si_table _ _ HI _ _ Hm) as (_ & _ & Hvq & _ & pg' & Hpg' & Hid').
    destruct Hor as [Hor|(Hinv & _)]; [congruence|].
    unfold valid_pid, INVALID_PAGE_ID in *. lia.
  - rewrite lookup_delete_ne by done. split.
    + intros Hm. right. split_and!; [done| |done]. intros ->.
      destruct (si_table _ _ HI _ _ Hm) as (_ & _ & _ & _ & pg' & Hpg' & Hid'). congruence.
    + naive_solver.
Qed.

Lemma installed_lru g : g ∈ Lru.frames rep ↔ g ≠ f ∧ g ∈ Lru.frames (replacer_ (sh st)).
Proof using HI Ht Hev Hnew Hv Hix Hdata Hrep Hsz Hfr.
  destruct Ht as (_ & _ & _ & _ & _ & _ & _ & _ & _ & _ & _ & Hfrm & _).
  rewrite Hfr. unfold Lru.a_pin. rewrite elem_of_remove_elem. naive_solver.
Qed.

Lemma installed_sinv : sinv st'.
Proof using HI Ht Hev Hnew Hv Hix Hdata Hrep Hsz Hfr.
  assert (Hlen : length (pgs st') = length (pgs st)) by apply length_insert.
  assert (Hown : ∀ g, owned st' g ↔ owned st g) by (intros; unfold owned; by rewrite Hlen).
  pose proof Ht as (Ho & Hpg & Hpin & _ & _ & _ & Hor & Hfree & Hnd & _).
  pose proof (owned_range _ _ Ho) as Hfr0.
  split.
  - intros q g. rewrite installed_table. intros [[-> ->]|(Hq & Hg & Hm)].
    + split_and!; [done|by apply Hown|done..|].
      eexists. split; [rewrite installed_page, decide_True by (done || lia); done|done].
    + destruct (si_table _ _ HI _ _ Hm) as (_ & Hog & Hvq & Hiq & pg' & Hpg' & Hid).
      pose proof (owned_range _ _ Hog).
      split_and!; [done|by apply Hown|done..|]. exists pg'.
      rewrite installed_page, decide_False by (done || lia). done.
  - done.
  - intros g Hg. simpl in Hg. apply Hfree in Hg as [Hg Hne].
    destruct (si_free _ _ HI g Hg) as (_ & Hog & pg' & Hpg' & ?).
    pose proof (owned_range _ _ Hog).
    split_and!; [done|by apply Hown|]. exists pg'.
    rewrite installed_page, decide_False by (done || lia). done.
  - intros g Hg%Hown. right. destruct (decide (g = f)) as [->|Hne].
    { right. exists pid. apply installed_table. by left. }
    destruct (si_cover _ _ HI g Hg) as [?|[Hin|[q Hm]]]; [done|left|right].
    + by apply Hfree.
    + exists q. apply installed_table. right. split_and!; [|done..]. congruence.
  - done.
  - by rewrite Hlen.
  - intros g Hg. simpl in Hg. apply installed_lru in Hg as [Hne Hg].
    destruct (si_evictable _ _ HI g Hg) as [Hog Hp]. split; [by apply Hown|].
    pose proof (owned_range _ _ Hog). intros _ pg'.
    rewrite installed_page, decide_False by (done || lia). by apply Hp.
  - intros q g pg'. rewrite installed_table. intros [[-> ->]|(Hq & Hg & Hm)].
    + rewrite installed_page, decide_True by (done || lia). by intros [= <-].
    + pose proof (si_table _ _ HI _ _ Hm) as (_ & Hog & _). pose proof (owned_range _ _ Hog).
      rewrite installed_page, decide_False by (done || lia). intros Hpg' Hp0.
      apply installed_lru. split; [done|]. by eapply (si_unpinned _ _ HI).
  - intros g pg' Hg. pose proof (page_at_range _ _ _ Hg) as Hr.
    rewrite installed_page in Hg by lia. case_decide; [simplify_eq; simpl; split; [lia|done]|].
    by apply (si_pages _ _ HI) in Hg.
  - intros q g pg'. rewrite installed_table. intros [[-> ->]|(Hq & Hg & Hm)].
    + rewrite installed_page, decide_True by (done || lia). by intros [= <-].
    + pose proof (si_table _ _ HI _ _ Hm) as (_ & Hog & Hvq & _ & pg2 & Hpg2 & Hid2).
      pose proof (owned_range _ _ Hog).
      rewrite installed_page, decide_False by (done || lia). intros Hpg' Hp0 Hd0. simpl.
      apply (ev_other _ _ _ _ Hev); [done| |by eapply (si_clean _ _ HI)].
      intros ->. destruct Hor as [Hor|(Hinv & _)]; [congruence|].
      unfold valid_pid, INVALID_PAGE_ID in *. lia.
  - apply (ev_wf _ _ _ _ Hev).
Qed.

Lemma installed_content :
  scontent st' pid = Ok data ∧
  ∀ q old, valid_pid q → q ≠ pid → scontent st q = Ok old → scontent st' q = Ok old.
Proof using HI Ht Hev Hnew Hv Hix Hdata Hrep Hsz Hfr.
  pose proof Ht as (Ho & Hpg & Hpin & _ & _ & _ & Hor & _). pose proof (owned_range _ _ Ho) as Hr.
  split.
  - unfold scontent. destruct (installed_table pid f) as [_ H]. rewrite H by by left.
    by rewrite installed_page, decide_True by (done || lia).
  - intros q old Hvq Hne. unfold scontent.
    destruct (page_table_ (sh st) !! q) as [g|] eqn:Hm.
    + destruct (si_table _ _ HI _ _ Hm) as (_ & Hog & _ & _ & pg' & Hpg' & Hid).
      pose proof (owned_range _ _ Hog). destruct (decide (g = f)) as [->|Hgf].
      * assert (page_table_ (sh st') !! q = None) as ->.
        { destruct (page_table_ (sh st') !! q) as [g|] eqn:E; [|done].
          apply installed_table in E as [[? ?]|(_ & ? & ?)]; congruence. }
        assert (pg' = pg) as -> by congruence. rewrite Hpg. intros [= <-]. subst q.
        by apply (ev_old _ _ _ _ Hev).
      * destruct (installed_table q g) as [_ Hi]. rewrite Hi by (right; done).
        by rewrite installed_page, decide_False by (done || lia).
    + assert (page_table_ (sh st') !! q = None) as ->.
      { destruct (page_table_ (sh st') !! q) as [g|] eqn:E; [|done].
        apply installed_table in E as [[? ?]|(_ & ? & ?)]; congruence. }
      intros Hq. simpl. destruct (decide (q = id_ pg)) as [->|].
      * destruct Hor as [?|(Hinv & _)]; [congruence|]. unfold valid_pid, INVALID_PAGE_ID in *. lia.
      * by apply (ev_other _ _ _ _ Hev).
Qed.

Lemma installed_pins : pins_kept st st'.
Proof using HI Ht Hev Hnew Hv Hix Hdata Hrep Hsz Hfr.
  pose proof Ht as (Ho & Hpg & Hpin & _). intros q g pg' Hm Hg Hp.
  destruct (si_table _ _ HI _ _ Hm) as (_ & Hog & _). pose proof (owned_range _ _ Hog).
  assert (g ≠ f) by (intros ->; congruence).
  split; [apply installed_table; right; split_and!; congruence|].
  exists pg'. by rewrite installed_page, decide_False by (done || lia).
Qed.

Lemma installed_quiet : quiet pid st st'.
Proof using HI Ht Hev Hnew Hv Hix Hdata Hrep Hsz Hfr.
  pose proof Ht as (Ho & Hpg & Hpin & _). intros q Hq. split.
  - intros g x Hm Hx. apply installed_table in Hm as [[? _]|(_ & Hgf & Hm)]; [done|]. split; [done|].
    destruct (si_table _ _ HI _ _ Hm) as (_ & Hog & _). pose proof (owned_range _ _ Hog).
    by rewrite installed_page, decide_False in Hx by (done || lia).
  - intros g x Hm Hx Hxp. destruct (si_table _ _ HI _ _ Hm) as (_ & Hog & Hvq & _ & y & Hy & Hid).
    pose proof (owned_range _ _ Hog). assert (g ≠ f) by (intros ->; congruence).
    split_and!; [apply installed_table; right; done| |].
    + by rewrite installed_page, decide_False by (done || lia).
    + intros d Hd. apply (ev_other _ _ _ _ Hev); [done| |done]. intros ->.
      destruct Ht as (_ & _ & _ & _ & _ & _ & [Hor|(Hinv & _)] & _); [congruence|].
      unfold valid_pid, INVALID_PAGE_ID in *. lia.
Qed.

Lemma installed_frame : sframe st st'.
Proof using HI Ht Hev Hnew Hv Hix Hdata Hrep Hsz Hfr.
  pose proof Ht as (Ho & Hpg & Hpin & _ & _ & _ & Hor & _). destruct Ho as [Hr Hmod]. split.
  - apply length_insert.
  - intros g Hg. destruct (decide (0 ≤ g)) as [H0|H0].
    + rewrite installed_page by done. rewrite decide_False; [done|]. congruence.
    + unfold page_at. by rewrite !decide_False.
  - intros q old Hvq Hiq Hq. simpl. apply (ev_other _ _ _ _ Hev); [done| |done].
    intros ->. destruct Hor as [Hm|(Hinv & _)].
    + apply (si_table _ _ HI) in Hm as (_ & _ & _ & Hi' & _). done.
    + unfold valid_pid, INVALID_PAGE_ID in *. lia.
Qed.
End install.

(** ** Evicting the old page *)

(** Write-ahead logging: a page on disk only changes to bytes whose log record is durable. *)
Definition wal_kept st st' : Prop := ∀ l, lg st = Some l → ls_inv l → ∃ l', lg st' = Some l' ∧ ls_inv l' ∧
  (∀ x, ls_durable l x → ls_durable l' x) ∧
  ∀ pid old data, valid_pid pid → ps_read (fd pid) (page_no pid) (dsk st) = Ok old →
    ps_read (fd pid) (page_no pid) (dsk st') = Ok data →
    data = old ∨ get_page_lsn data = INVALID_LSN ∨ ls_durable l' (get_page_lsn data).

Lemma wal_refl st st' : lg st' = lg st → dsk st' = dsk st → wal_kept st st'.
Proof.
  intros Hl Hd l E Hi. exists l. rewrite Hl, Hd. split_and!; [done..|].
  intros pid old data _ ? ?. left. congruence.
Qed.

Lemma flush_page_log_wal pg st st' :
  flush_page_log pg st = (Ok tt, st') → ∀ l, lg st = Some l → ls_inv l → ∃ l', lg st' = Some l' ∧ ls_inv l' ∧
  (∀ x, ls_durable l x → ls_durable l' x) ∧
  (get_page_lsn (data_ pg) = INVALID_LSN ∨ ls_durable l' (get_page_lsn (data_ pg))).
Proof using HLL.
  unfold flush_page_log. intros E l Hl Hinv. rewrite Hl in E. case_decide as Hi.
  - destruct (ls_flush (get_page_lsn (data_ pg)) l) as [[[]|] l'] eqn:Ef; [|done].
    simplify_eq. destruct (ls_flush_ok _ _ _ Hinv Ef) as (Hi' & Hd'). pose proof (λ x, ls_flush_keeps _ _ _ _ x Hinv Ef) as Hm'.
    exists l'. split_and!; [done..|]. by right.
  - simplify_eq. exists l. split_and!; [done..|]. left. by destruct (decide (get_page_lsn (data_ pg) = INVALID_LSN)).
Qed.

Lemma flush_write_wal pg pid st st' :
  (flush_page_log pg;; write_disk pid (data_ pg)) st = (Ok tt, st') →
  ps_wf (dsk st) → valid_pid pid → is_page (data_ pg) → wal_kept st st'.
Proof using HPL HLL.
  intros E Hwf Hv Hp l Hl Hinv. pose proof E as E'.
  apply flush_write_ok in E' as (_ & _ & _ & Hsame & Hother); [|done..].
  apply bind_inv_ok in E as ([] & st1 & E1 & E2).
  destruct (flush_page_log_wal _ _ _ E1 l Hl Hinv) as (l' & Hl' & Hi' & Hm & Hd).
  apply write_disk_ok in E2 as (d' & _ & ->). exists l'. split_and!; [done..|].
  intros q old data Hq Ho Hn. simpl in *. destruct (decide (q = pid)) as [->|Hne].
  - rewrite Hsame in Hn. simplify_eq. by right.
  - left. rewrite (Hother q old Hq Hne Ho) in Hn. congruence.
Qed.

Lemma update_page_ok f pg pid st st1 st2 :
  sinv st → taken f pg st st1 → page_table_ (sh st) !! pid = None →
  update_page f pid st1 = (Ok tt, st2) →
  ∃ d' l', evicted f pg st d' ∧ wal_kept st1 st2 ∧
    st2 = mk_SState (mk_Shard (<[pid := f]> (delete (id_ pg) (page_table_ (sh st))))
                       (free_list_ (sh st1)) (replacer_ (sh st1)))
            (<[Z.to_nat f := mk_Page pid reset_memory false 0]> (pgs st)) d' l'.
Proof using HPL HLL.
  intros HI Ht Hnew E. pose proof Ht as (Ho & Hpg & Hpin & Hps & Hd & Htb & Hor & _).
  unfold update_page in E. apply bind_inv_ok in E as (st1' & ? & Eg & E). unfold get in Eg. simplify_eq.
  assert (Hpa : page_at f st1' = Some pg) by (unfold page_at in *; by rewrite Hps).
  rewrite Hpa in E. unfold deref in E. rewrite (bind_ok _ _ st1' pg st1') in E by done.
  apply bind_inv_ok in E as ([] & st3 & E3 & E).
  assert (Hem : emplace pid f (delete (id_ pg) (page_table_ (sh st))) =
                <[pid := f]> (delete (id_ pg) (page_table_ (sh st)))).
  { unfold emplace. destruct (decide (id_ pg = pid)) as [->|Hne].
    - by rewrite lookup_delete_eq.
    - by rewrite lookup_delete_ne, Hnew by done. }
  assert (Hkey : sh st3 = sh st1' ∧ pgs st3 = pgs st ∧ evicted f pg st (dsk st3) ∧ wal_kept st1' st3).
  { destruct (is_dirty_ pg) eqn:Hdirty.
    - destruct Hor as [Hm|(_ & ? & _)]; [|congruence].
      destruct (si_table _ _ HI _ _ Hm) as (_ & _ & Hv & _).
      destruct (si_pages _ _ HI _ _ Hpg) as [_ Hdata].
      pose proof (si_disk _ _ HI) as Hwf. rewrite <- Hd in Hwf.
      pose proof (flush_write_wal _ _ _ _ E3 Hwf Hv Hdata).
      apply flush_write_ok in E3 as (Hs & Hp & Hw); [|done..]. rewrite Hd in Hw.
      destruct Hw as (? & ? & ?). split_and!; [done|congruence|by split|done].
    - unfold mret, M_ret in E3. simplify_eq. split_and!; [done..| |by apply wal_refl]. rewrite Hd.
      split; [apply (si_disk _ _ HI)| |done]. intros Hm.
      by apply (si_clean _ _ HI _ _ _ Hm Hpg). }
  destruct Hkey as (Hs3 & Hp3 & Hev & Hw).
  unfold modify, mbind, M_bind in E. simplify_eq. exists (dsk st3), (lg st3).
  split_and!; [done| |].
  - intros l Hl Hinv. destruct (Hw l Hl Hinv) as (l' & ? & ? & ? & ?). by exists l'.
  - unfold set_page, set_table, set_sh; simpl. by rewrite Hs3, Hp3, Htb, Hem.
Qed.

(** ** Changing a cached page in place *)

Record sstep st st' : Prop := {
  ss_inv : sinv st';
  ss_frame : sframe st st';
  ss_pins : pins_kept st st';
  ss_wal : wal_kept st st'
}.

Section touch.
Context (st : SState D L) (pid : PageId) (f : Z) (pg pg' : Page) (rep : Lru.LRUReplacer).
Context (HI : sinv st) (Hm : page_table_ (sh st) !! pid = Some f) (Hpg : page_at f st = Some pg).
Context (Hid : id_ pg' = pid) (Hpin : 0 ≤ pin_count_ pg') (Hdata : is_page (data_ pg')).
Context (Hrep : Lru.wf rep) (Hsz : Lru.max_size_ rep = length (pgs st)).
Context (Hfr : ∀ g, g ∈ Lru.frames rep ↔ if decide (g = f) then pin_count_ pg' = 0 else g ∈ Lru.frames (replacer_ (sh st))).
Context (Hclean : pin_count_ pg' = 0 → is_dirty_ pg' = false →
  ps_read (fd pid) (page_no pid) (dsk st) = Ok (data_ pg')).

Let st' : SState D L :=
  mk_SState (mk_Shard (page_table_ (sh st)) (free_list_ (sh st)) rep)
    (<[Z.to_nat f := pg']> (pgs st)) (dsk st) (lg st).

Lemma touched_page g :
  0 ≤ g → page_at g st' = if decide (f = g) then Some pg' else page_at g st.
Proof using HI Hm Hpg Hid Hpin Hdata Hrep Hsz Hfr Hclean. intros Hg. apply page_at_range in Hpg. exact (page_at_set f g pg' st Hpg Hg). Qed.

Lemma touched_owned g : owned st' g ↔ owned st g.
Proof using HI Hm Hpg Hid Hpin Hdata Hrep Hsz Hfr Hclean. unfold owned; simpl. by rewrite length_insert. Qed.

Lemma touched_sinv : sinv st'.
Proof using HI Hm Hpg Hid Hpin Hdata Hrep Hsz Hfr Hclean.
  pose proof (page_at_range _ _ _ Hpg) as Hr.
  assert (Hpage : ∀ g x, page_at g st' = Some x → (g = f ∧ x = pg') ∨ (g ≠ f ∧ page_at g st = Some x)).
  { intros g x Hx. pose proof (page_at_range _ _ _ Hx) as Hx'. rewrite touched_page in Hx by lia.
    case_decide; [left|right]; naive_solver. }
  split; simpl.
  - intros q g Hq. destruct (si_table _ _ HI _ _ Hq) as (Hh & Ho & Hv & Hix & x & Hx & Hidx).
    split_and!; [done|by apply touched_owned|done..|].
    pose proof (owned_range _ _ Ho). rewrite touched_page by lia. case_decide as Hd.
    + exists pg'. split; [done|]. subst g. rewrite Hid. by eapply table_inj.
    + by exists x.
  - apply (si_nodup _ _ HI).
  - intros g Hg. destruct (si_free _ _ HI _ Hg) as (Hh & Ho & x & Hx & ?).
    split_and!; [done|by apply touched_owned|]. exists x.
    pose proof (owned_range _ _ Ho). rewrite touched_page by lia. case_decide as Hd; [|done].
    subst g. exfalso. by eapply free_not_mapped.
  - intros g Hg%touched_owned. by apply (si_cover _ _ HI).
  - done.
  - by rewrite length_insert.
  - intros g Hg. rewrite Hfr in Hg. case_decide as Hd.
    + subst g. destruct (si_table _ _ HI _ _ Hm) as (_ & Ho & _). split; [by apply touched_owned|].
      intros _ x Hx. destruct (Hpage _ _ Hx) as [[_ ->]|[? _]]; done.
    + destruct (si_evictable _ _ HI _ Hg) as [Ho Hp]. split; [by apply touched_owned|].
      intros _ x Hx. destruct (Hpage _ _ Hx) as [[? ->]|[? ?]]; [done|by apply Hp].
  - intros q g x Hq Hx Hx0. apply Hfr. destruct (Hpage _ _ Hx) as [[-> ->]|[Hne Hx']].
    + by rewrite decide_True.
    + rewrite decide_False by done. by eapply (si_unpinned _ _ HI).
  - intros g x Hx. destruct (Hpage _ _ Hx) as [[-> ->]|[Hne Hx']]; [done|]. by eapply (si_pages _ _ HI).
  - intros q g x Hq Hx Hx0 Hxd. destruct (Hpage _ _ Hx) as [[-> ->]|[Hne Hx']].
    + assert (q = pid) as -> by (by eapply table_inj). by apply Hclean.
    + by eapply (si_clean _ _ HI).
  - apply (si_disk _ _ HI).
Qed.

Lemma touched_frame : sframe st st'.
Proof using HI Hm Hpg Hid Hpin Hdata Hrep Hsz Hfr Hclean.
  destruct (si_table _ _ HI _ _ Hm) as (_ & [Hr Hmod] & _). split.
  - apply length_insert.
  - intros g Hg. destruct (decide (0 ≤ g)).
    + rewrite touched_page, decide_False by (done || congruence). done.
    + unfold page_at. by rewrite !decide_False.
  - done.
Qed.

Lemma touched_content q :
  scontent st' q = if decide (q = pid) then Ok (data_ pg') else scontent st q.
Proof using HI Hm Hpg Hid Hpin Hdata Hrep Hsz Hfr Hclean.
  unfold scontent; simpl. case_decide as Hd.
  - subst q. rewrite Hm. pose proof (page_at_range _ _ _ Hpg).
    by rewrite touched_page, decide_True by (done || lia).
  - destruct (page_table_ (sh st) !! q) as [g|] eqn:Eq; [|done].
    destruct (si_table _ _ HI _ _ Eq) as (_ & Ho & _). pose proof (owned_range _ _ Ho).
    rewrite touched_page, decide_False; [done| |lia].
    intros <-. apply Hd. by eapply table_inj.
Qed.

Lemma touched_quiet : quiet pid st st'.
Proof using HI Hm Hpg Hid Hpin Hdata Hrep Hsz Hfr Hclean.
  assert (Hk : ∀ q g, q ≠ pid → page_table_ (sh st) !! q = Some g → page_at g st' = page_at g st).
  { intros q g Hq Hqm. destruct (si_table _ _ HI _ _ Hqm) as (_ & Hog & _). pose proof (owned_range _ _ Hog).
    rewrite touched_page, decide_False; [done| |lia]. intros <-. apply Hq. by eapply table_inj. }
  intros q Hq. split.
  - intros g x Hqm Hx. split; [done|]. by rewrite <- (Hk q g).
  - intros g x Hqm Hx _. split_and!; [done| |done]. by rewrite (Hk q g).
Qed.

Lemma touched_pins : data_ pg' = data_ pg → pins_kept st st'.
Proof using HI Hm Hpg Hid Hpin Hdata Hrep Hsz Hfr Hclean.
  intros Hdd q g x Hq Hx Hxp. split; [done|]. pose proof (page_at_range _ _ _ Hx).
  rewrite touched_page by lia. case_decide as Hd.
  - exists pg'. split; [done|]. congruence.
  - by exists x.
Qed.
End touch.

(** ** The operations *)

Lemma lru_range st f : sinv st → owned st f → Lru.in_range f (replacer_ (sh st)).
Proof. intros HI Ho. unfold Lru.in_range. rewrite (si_lru_size _ _ HI). by apply owned_range in Ho. Qed.

Lemma get_bind {S A} (k : S → M S A) s : mbind k get s = k s s.
Proof. done. Qed.

Lemma deref_some {S A B} (o : option A) (k : A → M S B) s a :
  o = Some a → mbind k (deref o) s = k a s.
Proof. by intros ->. Qed.

(** The last part of fetching or creating a page, after [update_page]. *)
Definition pin_frame f pid data : M (SState D L) (option Z) :=
  modify (set_page f (mk_Page pid data false 1));; on_replacer (Lru.pin f);; mret (Some f).

Lemma install_ok f pg pid data st st1 st2 r st3 :
  sinv st → taken f pg st st1 → page_table_ (sh st) !! pid = None →
  valid_pid pid → shard_index n pid = i → is_page data →
  update_page f pid st1 = (Ok tt, st2) → pin_frame f pid data st2 = (r, st3) →
  r = Ok (Some f) ∧ sstep st st3 ∧ page_table_ (sh st3) !! pid = Some f ∧
  page_at f st3 = Some (mk_Page pid data false 1) ∧ scontent st3 pid = Ok data ∧
  (∀ q old, valid_pid q → q ≠ pid → scontent st q = Ok old → scontent st3 q = Ok old) ∧
  (∀ old, scontent st pid = Ok old → ps_read (fd pid) (page_no pid) (dsk st2) = Ok old) ∧
  dsk st3 = dsk st2 ∧ quiet pid st st3.
Proof using HPL HLL.
  intros HI Ht Hnew Hv Hix Hdata Hup Hpin.
  destruct (update_page_ok _ _ _ _ _ _ HI Ht Hnew Hup) as (d' & l' & Hev & Hwal & ->).
  pose proof Ht as (Ho & Hpg & _ & _ & Hd1 & _ & Hor & _ & _ & Hlw & Hlz & _ & _ & Hlg).
  assert (Hir : Lru.in_range f (replacer_ (sh st1))).
  { pose proof (lru_range _ _ HI Ho). unfold Lru.in_range in *. by rewrite Hlz. }
  destruct (Lru.pin_refines _ Hlw f Hir) as (rep & Hp & Hw & Hfr & Hsz).
  unfold pin_frame, modify, on_replacer, mbind, M_bind, mret, M_ret in Hpin. simpl in Hpin.
  rewrite Hp in Hpin. simplify_eq. unfold set_page, set_sh. simpl.
  rewrite list_insert_insert_eq.
  fold (installed f pg pid data st st1 rep d' l').
  assert (Hsz' : Lru.max_size_ rep = length (pgs st)).
  { rewrite Hsz, Hlz. apply (si_lru_size _ _ HI). }
  pose proof (installed_content st st1 f pg pid data rep d' l' HI Ht Hev Hnew Hv Hix Hdata Hw Hsz' Hfr) as [Hc1 Hc2].
  split_and!; try done.
  - split.
    + by apply installed_sinv.
    + by apply installed_frame.
    + by apply installed_pins.
    + intros l Hl Hinv. assert (lg st1 = Some l) as Hl1'.
      { congruence. }
      destruct (Hwal l Hl1' Hinv) as (l2 & ? & ? & ? & H3). exists l2. split_and!; [done..|].
      intros q old data' Hq Hold. rewrite <- Hd1 in Hold. by apply H3.
  - apply (installed_table st st1 f pg pid data rep d' l'); auto.
  - apply owned_range in Ho.
    rewrite (installed_page st st1 f pg pid data rep d' l'), decide_True by (done || lia). done.
  - intros old. unfold scontent. rewrite Hnew. simpl. intros Hq.
    apply (ev_other _ _ _ _ Hev); [done| |done].
    intros ->. destruct Hor as [?|(Hinv & _)]; [congruence|].
    unfold valid_pid, INVALID_PAGE_ID in *. lia.
  - by apply installed_quiet.
Qed.

Lemma fetch_hit pid f pg st r st' :
  sinv st → page_table_ (sh st) !! pid = Some f → page_at f st = Some pg →
  fetch_page_in pid st = (r, st') →
  r = Ok (Some f) ∧ sstep st st' ∧ page_table_ (sh st') !! pid = Some f ∧
  page_at f st' = Some (mk_Page pid (data_ pg) (is_dirty_ pg) (pin_count_ pg + 1)) ∧
  (∀ q, scontent st' q = scontent st q) ∧ dsk st' = dsk st ∧ quiet pid st st'.
Proof.
  intros HI Hm Hpg E. unfold fetch_page_in in E. rewrite get_bind, Hm in E.
  rewrite (deref_some _ _ _ pg) in E by done.
  destruct (si_table _ _ HI _ _ Hm) as (_ & Ho & _ & _ & pg0 & Hpg0 & Hid).
  assert (pg0 = pg) as -> by congruence. destruct (si_pages _ _ HI _ _ Hpg) as [Hp0 Hdata].
  set (pg' := mk_Page pid (data_ pg) (is_dirty_ pg) (pin_count_ pg + 1)) in *.
  assert (∃ rep, Lru.wf rep ∧ Lru.max_size_ rep = length (pgs st) ∧
     Lru.frames rep = Lru.a_pin f (Lru.frames (replacer_ (sh st))) ∧
     (if decide (pin_count_ pg = 0) then on_replacer (Lru.pin f) else mret tt) st =
       (Ok tt, mk_SState (mk_Shard (page_table_ (sh st)) (free_list_ (sh st)) rep) (pgs st) (dsk st) (lg st)))
    as (rep & Hw & Hsz & Hfr & Hrun).
  { case_decide as Hz.
    - destruct (Lru.pin_refines _ (si_lru _ _ HI) f (lru_range _ _ HI Ho)) as (rep & Hp & Hw & Hfr & Hsz).
      exists rep. rewrite Hsz, (si_lru_size _ _ HI). split_and!; try done.
      unfold on_replacer. by rewrite Hp.
    - exists (replacer_ (sh st)). rewrite (si_lru_size _ _ HI). split_and!; try done.
      + apply (si_lru _ _ HI).
      + unfold Lru.a_pin. rewrite remove_elem_not_in; [done|].
        intros Hin. destruct (si_evictable _ _ HI _ Hin) as [_ Hz']. by apply Hz in Hz'.
      + by destruct st as [[] ? ? ?]. }
  rewrite (bind_ok _ _ _ _ _ Hrun) in E.
  unfold modify, mbind, M_bind, mret, M_ret, set_page in E. simpl in E. rewrite Hid in E. fold pg' in E. simplify_eq.
  assert (Hfr' : ∀ g, g ∈ Lru.frames rep ↔
    if decide (g = f) then pin_count_ pg' = 0 else g ∈ Lru.frames (replacer_ (sh st))).
  { intros g. rewrite Hfr. unfold Lru.a_pin. rewrite elem_of_remove_elem. simpl.
    destruct (decide (g = f)); [split; [by intros [? _]|lia]|tauto]. }
  assert (Hcl : pin_count_ pg' = 0 → is_dirty_ pg' = false →
    ps_read (fd (id_ pg)) (page_no (id_ pg)) (dsk st) = Ok (data_ pg')) by (simpl; lia).
  assert (Hpin' : 0 ≤ pin_count_ pg') by (simpl; lia).
  split_and!; [done| |done| | |done|by apply (touched_quiet st (id_ pg) f pg pg' rep)].
  - split.
    + by apply (touched_sinv st (id_ pg) f pg pg' rep).
    + by apply (touched_frame st (id_ pg) f pg pg' rep).
    + by apply (touched_pins st (id_ pg) f pg pg' rep).
    + by apply wal_refl.
  - apply owned_range in Ho.
    rewrite (touched_page st (id_ pg) f pg pg' rep), decide_True by (done || lia). done.
  - intros q. rewrite (touched_content st (id_ pg) f pg pg' rep) by done.
    destruct (decide (q = id_ pg)) as [->|]; [|done]. unfold scontent. by rewrite Hm, Hpg.
Qed.

Lemma fetch_ok pid st r st' :
  sinv st → valid_pid pid → shard_index n pid = i → fetch_page_in pid st = (Ok r, st') →
  sstep st st' ∧ content_kept st st' ∧ quiet pid st st' ∧
  match r with
  | Some f => page_table_ (sh st') !! pid = Some f ∧ ∃ pg, page_at f st' = Some pg ∧ pin_count_ pg ≠ 0 ∧
                scontent st' pid = Ok (data_ pg) ∧
                ((∀ g x, page_table_ (sh st) !! pid = Some g → page_at g st = Some x → pin_count_ x = 0) →
                 pin_count_ pg = 1 ∧
                 (is_dirty_ pg = true ∨ ps_read (fd pid) (page_no pid) (dsk st') = Ok (data_ pg)))
  | None => st' = st ∧ page_table_ (sh st) !! pid = None ∧ free_list_ (sh st) = [] ∧
            Lru.frames (replacer_ (sh st)) = []
  end.
Proof using HPL HLL.
  intros HI Hv Hix E. destruct (page_table_ (sh st) !! pid) as [f|] eqn:Hm.
  { destruct (si_table _ _ HI _ _ Hm) as (_ & _ & _ & _ & pg & Hpg & Hid).
    destruct (fetch_hit _ _ _ _ _ _ HI Hm Hpg E) as (? & Hs & Hm' & Hpg' & Hc & Hd & Hqt). simplify_eq.
    destruct (si_pages _ _ HI _ _ Hpg). split; [done|]. split_and!; [|done|done|].
    - intros q old _ Hq. by rewrite Hc.
    - eexists. split; [done|]. simpl. split_and!; [lia| |].
      + rewrite Hc. unfold scontent. by rewrite Hm, Hpg.
      + intros Hz. specialize (Hz _ _ eq_refl Hpg). split; [lia|].
        destruct (is_dirty_ pg) eqn:Hdi; [by left|right]. rewrite Hd. by apply (si_clean _ _ HI _ _ _ Hm Hpg). }
  unfold fetch_page_in in E. rewrite get_bind, Hm in E.
  apply bind_inv_ok in E as (fo & st1 & Ef & E). destruct fo as [f|].
  - destruct (find_victim_ok _ _ _ HI Ef) as [pg Ht].
    apply bind_inv_ok in E as ([] & st2 & Eu & E). apply bind_inv_ok in E as (data & st3 & Er & E).
    unfold read_disk in Er. simplify_eq.
    assert (Hdata : is_page data) by (by eapply ps_read_page).
    destruct (install_ok f pg pid data _ _ _ _ _ HI Ht Hm Hv Hix Hdata Eu E)
      as (? & Hs & Hm' & Hpg' & Hc1 & Hc2 & Hc3 & Hd3 & Hqt). simplify_eq. split; [done|]. split_and!; [|done|done|].
    + intros q old Hq Hold. destruct (decide (q = pid)) as [->|Hne]; [|by apply Hc2].
      rewrite Hc1. apply Hc3 in Hold. congruence.
    + eexists. split; [done|]. split_and!; [done|done|]. intros _. split; [done|]. right. simpl. by rewrite Hd3.
  - destruct (find_victim_none _ _ HI Ef) as (-> & Hf & Hl).
    unfold mret, M_ret in E. simplify_eq. split; [|split; [by intros ???|split; [|done]]].
    2:{ intros q Hq. split; [done|]. intros g x ? ? _. done. }
    split; [done| | |by apply wal_refl].
    + by split.
    + intros q f pg Hq Hpg _. split; [done|]. by exists pg.
Qed.

Lemma new_page_at_ok pid st r st' :
  sinv st → valid_pid pid → shard_index n pid = i → new_page_at_in pid st = (Ok r, st') →
  match r with
  | Some f => sstep st st' ∧ page_table_ (sh st) !! pid = None ∧
      page_table_ (sh st') !! pid = Some f ∧ page_at f st' = Some (mk_Page pid reset_memory false 1) ∧
      scontent st' pid = Ok reset_memory ∧
      (∀ q old, valid_pid q → q ≠ pid → scontent st q = Ok old → scontent st' q = Ok old) ∧
      quiet pid st st'
  | None => st' = st
  end.
Proof using HPL HLL.
  intros HI Hv Hix E. unfold new_page_at_in in E. rewrite get_bind in E.
  destruct (page_table_ (sh st) !! pid) as [f|] eqn:Hm.
  { unfold mret, M_ret in E. by simplify_eq. }
  unfold install_new_page in E. apply bind_inv_ok in E as (fo & st1 & Ef & E). destruct fo as [f|].
  - destruct (find_victim_ok _ _ _ HI Ef) as [pg Ht].
    apply bind_inv_ok in E as ([] & st2 & Eu & E).
    destruct (install_ok f pg pid reset_memory _ _ _ _ _ HI Ht Hm Hv Hix reset_memory_page Eu E)
      as (? & Hs & Hm' & Hpg' & Hc1 & Hc2 & Hc3 & _ & Hqt). by simplify_eq.
  - destruct (find_victim_none _ _ HI Ef) as (-> & Hf & Hl).
    unfold mret, M_ret in E. by simplify_eq.
Qed.

Lemma unpin_ok pid dirty f pg st r st' :
  sinv st → page_table_ (sh st) !! pid = Some f → page_at f st = Some pg → pin_count_ pg ≠ 0 →
  dirty = true ∨ is_dirty_ pg = true ∨ ps_read (fd pid) (page_no pid) (dsk st) = Ok (data_ pg) →
  unpin_page_in pid dirty st = (r, st') →
  r = Ok true ∧ sstep st st' ∧ page_table_ (sh st') = page_table_ (sh st) ∧
  page_at f st' = Some (mk_Page pid (data_ pg) (is_dirty_ pg || dirty) (pin_count_ pg - 1)) ∧
  (∀ q, scontent st' q = scontent st q) ∧ dsk st' = dsk st ∧ quiet pid st st'.
Proof.
  intros HI Hm Hpg Hnz Hdis E. unfold unpin_page_in in E. rewrite get_bind, Hm in E.
  rewrite (deref_some _ _ _ pg) in E by done. rewrite decide_False in E by done.
  destruct (si_table _ _ HI _ _ Hm) as (_ & Ho & _ & _ & pg0 & Hpg0 & Hid).
  assert (pg0 = pg) as -> by congruence. destruct (si_pages _ _ HI _ _ Hpg) as [Hp0 Hdata].
  set (pg' := mk_Page pid (data_ pg) (is_dirty_ pg || dirty) (pin_count_ pg - 1)) in *.
  assert (Hnin : f ∉ Lru.frames (replacer_ (sh st))).
  { intros Hin. destruct (si_evictable _ _ HI _ Hin) as [_ Hz']. by apply Hz' in Hpg. }
  assert (∃ rep, Lru.wf rep ∧ Lru.max_size_ rep = length (pgs st) ∧
     (∀ g, g ∈ Lru.frames rep ↔
        if decide (g = f) then pin_count_ pg' = 0 else g ∈ Lru.frames (replacer_ (sh st))) ∧
     (if decide (pin_count_ pg - 1 = 0) then on_replacer (Lru.unpin f) else mret tt) st =
       (Ok tt, mk_SState (mk_Shard (page_table_ (sh st)) (free_list_ (sh st)) rep) (pgs st) (dsk st) (lg st)))
    as (rep & Hw & Hsz & Hfr & Hrun).
  { destruct (decide (pin_count_ pg - 1 = 0)) as [Hz|Hz].
    - destruct (Lru.unpin_refines _ (si_lru _ _ HI) f (lru_range _ _ HI Ho)) as (rep & Hp & Hw & Hfr & Hsz).
      exists rep. rewrite Hsz, (si_lru_size _ _ HI). split_and!; try done.
      + intros g. rewrite Hfr. unfold Lru.a_unpin. rewrite decide_False by done.
        rewrite elem_of_cons. simpl. destruct (decide (g = f)); [tauto|tauto].
      + unfold on_replacer. by rewrite Hp.
    - exists (replacer_ (sh st)). rewrite (si_lru_size _ _ HI). split_and!; try done.
      + apply (si_lru _ _ HI).
      + intros g. simpl. destruct (decide (g = f)) as [->|]; [tauto|tauto].
      + by destruct st as [[] ? ? ?]. }
  rewrite (bind_ok _ _ _ _ _ Hrun) in E.
  unfold modify, mbind, M_bind, mret, M_ret, set_page in E. simpl in E. rewrite Hid in E. fold pg' in E. simplify_eq.
  assert (Hcl : pin_count_ pg' = 0 → is_dirty_ pg' = false →
    ps_read (fd (id_ pg)) (page_no (id_ pg)) (dsk st) = Ok (data_ pg')).
  { simpl. intros _ [Hd1 Hd2]%orb_false_iff. destruct Hdis as [?|[?|?]]; congruence. }
  assert (Hpin' : 0 ≤ pin_count_ pg') by (simpl; lia).
  split_and!; [done| |done| | |done|by apply (touched_quiet st (id_ pg) f pg pg' rep)].
  - split.
    + by apply (touched_sinv st (id_ pg) f pg pg' rep).
    + by apply (touched_frame st (id_ pg) f pg pg' rep).
    + by apply (touched_pins st (id_ pg) f pg pg' rep).
    + by apply wal_refl.
  - apply owned_range in Ho.
    rewrite (touched_page st (id_ pg) f pg pg' rep), decide_True by (done || lia). done.
  - intros q. rewrite (touched_content st (id_ pg) f pg pg' rep) by done.
    destruct (decide (q = id_ pg)) as [->|]; [|done]. unfold scontent. by rewrite Hm, Hpg.
Qed.

(** The data of a pinned page is written by its user. *)
Definition write_data f data st : SState D L :=
  match page_at f st with
  | Some pg => set_page f (mk_Page (id_ pg) data (is_dirty_ pg) (pin_count_ pg)) st
  | None => st
  end.

Lemma write_data_ok pid f pg data st :
  sinv st → page_table_ (sh st) !! pid = Some f → page_at f st = Some pg → pin_count_ pg ≠ 0 →
  is_page data →
  sinv (write_data f data st) ∧ sframe st (write_data f data st) ∧
  (∀ q, scontent (write_data f data st) q = if decide (q = pid) then Ok data else scontent st q) ∧
  (∀ q g x, page_table_ (sh st) !! q = Some g → page_at g st = Some x → q ≠ pid →
     page_table_ (sh (write_data f data st)) !! q = Some g ∧ page_at g (write_data f data st) = Some x) ∧
  quiet pid st (write_data f data st) ∧
  page_at f (write_data f data st) = Some (mk_Page pid data (is_dirty_ pg) (pin_count_ pg)).
Proof.
  intros HI Hm Hpg Hnz Hdata. unfold write_data. rewrite Hpg.
  destruct (si_table _ _ HI _ _ Hm) as (_ & Ho & _ & _ & pg0 & Hpg0 & Hid).
  assert (pg0 = pg) as -> by congruence. destruct (si_pages _ _ HI _ _ Hpg) as [Hp0 _].
  set (pg' := mk_Page (id_ pg) data (is_dirty_ pg) (pin_count_ pg)).
  assert (Hfr : ∀ g, g ∈ Lru.frames (replacer_ (sh st)) ↔
    if decide (g = f) then pin_count_ pg' = 0 else g ∈ Lru.frames (replacer_ (sh st))).
  { intros g. destruct (decide (g = f)) as [->|]; [|done]. split; [|done].
    intros Hin. destruct (si_evictable _ _ HI _ Hin) as [_ Hz']. by apply Hz' in Hpg. }
  assert (Hst : set_page f pg' st =
    mk_SState (mk_Shard (page_table_ (sh st)) (free_list_ (sh st)) (replacer_ (sh st)))
      (<[Z.to_nat f := pg']> (pgs st)) (dsk st) (lg st)).
  { by destruct st as [[] ? ? ?]. }
  pose proof (si_lru _ _ HI). pose proof (si_lru_size _ _ HI). rewrite Hst. split_and!.
  - by apply (touched_sinv st pid f pg pg').
  - by apply (touched_frame st pid f pg pg').
  - by apply (touched_content st pid f pg pg').
  - intros q g x Hq Hx Hne. split; [done|]. pose proof (page_at_range _ _ _ Hx).
    rewrite (touched_page st pid f pg pg'), decide_False; [done| |done..|lia].
    intros <-. apply Hne. by eapply table_inj.
  - by apply (touched_quiet st pid f pg pg').
  - apply owned_range in Ho. rewrite (touched_page st pid f pg pg'), decide_True by (done || lia).
    unfold pg'. by rewrite Hid.
Qed.

(** Marking a pinned page as dirty. *)
Definition mark_data f st : SState D L :=
  match page_at f st with Some pg => set_page f (mark_dirty pg) st | None => st end.

Lemma mark_data_ok pid f pg st :
  sinv st → page_table_ (sh st) !! pid = Some f → page_at f st = Some pg →
  sinv (mark_data f st) ∧ sframe st (mark_data f st) ∧ quiet pid st (mark_data f st) ∧
  page_table_ (sh (mark_data f st)) = page_table_ (sh st) ∧
  page_at f (mark_data f st) = Some (mark_dirty pg) ∧ ∀ q, scontent (mark_data f st) q = scontent st q.
Proof.
  intros HI Hm Hpg. unfold mark_data. rewrite Hpg.
  destruct (si_table _ _ HI _ _ Hm) as (_ & Ho & _ & _ & pg0 & Hpg0 & Hid).
  assert (pg0 = pg) as -> by congruence. destruct (si_pages _ _ HI _ _ Hpg) as [Hp0 Hdt].
  set (pg' := mark_dirty pg).
  assert (Hfr : ∀ g, g ∈ Lru.frames (replacer_ (sh st)) ↔
    if decide (g = f) then pin_count_ pg' = 0 else g ∈ Lru.frames (replacer_ (sh st))).
  { intros g. destruct (decide (g = f)) as [->|]; [|done]. split.
    - intros Hin. destruct (si_evictable _ _ HI _ Hin) as [_ Hz']. by apply (Hz' ltac:(done) pg).
    - intros Hz. by apply (si_unpinned _ _ HI pid f pg). }
  assert (Hst : set_page f pg' st =
    mk_SState (mk_Shard (page_table_ (sh st)) (free_list_ (sh st)) (replacer_ (sh st)))
      (<[Z.to_nat f := pg']> (pgs st)) (dsk st) (lg st)).
  { by destruct st as [[] ? ? ?]. }
  pose proof (si_lru _ _ HI). pose proof (si_lru_size _ _ HI). rewrite Hst. split_and!.
  - by apply (touched_sinv st pid f pg pg').
  - by apply (touched_frame st pid f pg pg').
  - by apply (touched_quiet st pid f pg pg').
  - done.
  - apply owned_range in Ho. by rewrite (touched_page st pid f pg pg'), decide_True by (done || lia).
  - intros q. rewrite (touched_content st pid f pg pg') by done.
    destruct (decide (q = pid)) as [->|]; [|done]. unfold scontent. by rewrite Hm, Hpg.
Qed.

(** Writing a cached page to disk and marking it clean. *)
Lemma flush_cached pid f pg st st' :
  sinv st → page_table_ (sh st) !! pid = Some f → page_at f st = Some pg →
  (flush_page_log pg;; write_disk pid (data_ pg);;
   modify (set_page f (mk_Page (id_ pg) (data_ pg) false (pin_count_ pg)))) st = (Ok tt, st') →
  sstep st st' ∧ page_table_ (sh st') = page_table_ (sh st) ∧ wrote pid (data_ pg) (dsk st) (dsk st') ∧
  (∀ g, 0 ≤ g → page_at g st' = if decide (f = g) then Some (mk_Page pid (data_ pg) false (pin_count_ pg))
                                else page_at g st) ∧
  content_kept st st'.
Proof using HPL HLL.
  intros HI Hm Hpg E.
  destruct (si_table _ _ HI _ _ Hm) as (_ & Ho & Hv & Hix & pg0 & Hpg0 & Hid).
  assert (pg0 = pg) as -> by congruence. destruct (si_pages _ _ HI _ _ Hpg) as [Hp0 Hdata].
  assert (∃ st1, (flush_page_log pg;; write_disk pid (data_ pg)) st = (Ok tt, st1) ∧
                 st' = set_page f (mk_Page (id_ pg) (data_ pg) false (pin_count_ pg)) st1)
    as (st1 & E1 & ->).
  { apply bind_inv_ok in E as ([] & st0 & E0 & E). apply bind_inv_ok in E as ([] & st1 & E1 & E).
    unfold modify in E. simplify_eq. exists st1. by rewrite (bind_ok _ _ _ _ _ E0). }
  pose proof (flush_write_wal _ _ _ _ E1 (si_disk _ _ HI) Hv Hdata) as Hwal.
  apply flush_write_ok in E1 as (Hs & Hp & Hw); [|by apply (si_disk _ _ HI)|done|done].
  pose proof Hw as (Hwf & Hsame & Hother).
  assert (HI1 : sinv st1).
  { apply (sinv_wrote None st st1 pid (data_ pg)); [done..|]. intros g x ? ? _ _. congruence. }
  set (pg' := mk_Page (id_ pg) (data_ pg) false (pin_count_ pg)).
  assert (Hpg1 : page_at f st1 = Some pg) by (unfold page_at in *; by rewrite Hp).
  assert (Hm1 : page_table_ (sh st1) !! pid = Some f) by by rewrite Hs.
  assert (Hfr : ∀ g, g ∈ Lru.frames (replacer_ (sh st1)) ↔
    if decide (g = f) then pin_count_ pg' = 0 else g ∈ Lru.frames (replacer_ (sh st1))).
  { intros g. destruct (decide (g = f)) as [->|]; [|done]. split.
    - intros Hin. destruct (si_evictable _ _ HI1 _ Hin) as [_ Hz']. by apply (Hz' ltac:(done) pg).
    - intros Hz. by apply (si_unpinned _ _ HI1 pid f pg). }
  assert (Hst : set_page f pg' st1 =
    mk_SState (mk_Shard (page_table_ (sh st1)) (free_list_ (sh st1)) (replacer_ (sh st1)))
      (<[Z.to_nat f := pg']> (pgs st1)) (dsk st1) (lg st1)).
  { by destruct st1 as [[] ? ? ?]. }
  pose proof (si_lru _ _ HI1) as Hl1. pose proof (si_lru_size _ _ HI1) as Hl2.
  assert (Hpage : ∀ g, 0 ≤ g → page_at g (set_page f pg' st1) = if decide (f = g) then Some pg' else page_at g st).
  { intros g Hg. rewrite page_at_set; [|by apply page_at_range in Hpg1|done].
    destruct (decide (f = g)); [done|]. unfold page_at. by rewrite Hp. }
  split_and!.
  - split.
    + rewrite Hst. by apply (touched_sinv st1 pid f pg pg').
    + split.
      * simpl. by rewrite length_insert, Hp.
      * intros g Hg. destruct (decide (0 ≤ g)) as [H0|H0]; [|unfold page_at; by rewrite !decide_False].
        rewrite Hpage, decide_False; [done| |done]. destruct Ho as [_ Ho]. congruence.
      * intros q old Hq Hiq Hold. simpl. apply Hother; [done| |done]. congruence.
    + intros q g x Hq Hx Hxp. simpl. split; [by rewrite Hs|].
      pose proof (page_at_range _ _ _ Hx). rewrite Hpage by lia.
      destruct (decide (f = g)) as [<-|]; [|by exists x]. exists pg'. split; [done|]. simpl. congruence.
    + intros l Hl Hinv. destruct (Hwal l Hl Hinv) as (l' & ? & ? & ? & ?). by exists l'.
  - simpl. by rewrite Hs.
  - done.
  - intros g Hg. rewrite Hpage by done. unfold pg'. by rewrite Hid.
  - intros q old Hq. rewrite Hst. rewrite (touched_content st1 pid f pg pg') by done.
    destruct (decide (q = pid)) as [->|Hne]; unfold scontent.
    + by rewrite Hm, Hpg.
    + rewrite Hs. destruct (page_table_ (sh st) !! q) as [g|] eqn:Eq; [|by apply Hother].
      unfold page_at. by rewrite Hp.
Qed.

Lemma flush_ok pid f pg st r st' :
  sinv st → page_table_ (sh st) !! pid = Some f → page_at f st = Some pg →
  flush_page_in pid st = (Ok r, st') →
  r = true ∧ sstep st st' ∧ page_table_ (sh st') = page_table_ (sh st) ∧
  ps_read (fd pid) (page_no pid) (dsk st') = Ok (data_ pg) ∧ content_kept st st'.
Proof using HPL HLL.
  intros HI Hm Hpg E. unfold flush_page_in in E. rewrite get_bind, Hm in E.
  rewrite (deref_some _ _ _ pg) in E by done.
  apply bind_inv_ok in E as ([] & st1 & E1 & E). apply bind_inv_ok in E as ([] & st2 & E2 & E).
  apply bind_inv_ok in E as ([] & st3 & E3 & E). unfold mret, M_ret in E. simplify_eq.
  destruct (flush_cached pid f pg st st') as (Hs & Ht & Hw & Hp & Hc); [done..| |].
  { by rewrite (bind_ok _ _ _ _ _ E1), (bind_ok _ _ _ _ _ E2). }
  split_and!; [done..| |done]. by destruct Hw as (_ & ? & _).
Qed.

(** ** Giving a frame back *)

Section remove.
Context (st : SState D L) (pid : PageId) (f : Z) (pg pg' : Page) (rep : Lru.LRUReplacer).
Context (HI : sinv st) (Hm : page_table_ (sh st) !! pid = Some f) (Hpg : page_at f st = Some pg).
Context (Hid : page_no (id_ pg') = INVALID_PAGE_ID) (Hpin : pin_count_ pg' = 0).
Context (Hdirty : is_dirty_ pg' = false) (Hdata : is_page (data_ pg')).
Context (Hrep : Lru.wf rep) (Hsz : Lru.max_size_ rep = length (pgs st)).
Context (Hfr : ∀ g, g ≠ f → g ∈ Lru.frames rep ↔ g ∈ Lru.frames (replacer_ (sh st))).

Let st' : SState D L :=
  mk_SState (mk_Shard (delete pid (page_table_ (sh st))) (free_list_ (sh st) ++ [f]) rep)
    (<[Z.to_nat f := pg']> (pgs st)) (dsk st) (lg st).

Lemma removed_page g :
  0 ≤ g → page_at g st' = if decide (f = g) then Some pg' else page_at g st.
Proof using HI Hm Hpg Hid Hpin Hdirty Hdata Hrep Hsz Hfr.
  intros Hg. apply page_at_range in Hpg. exact (page_at_set f g pg' st Hpg Hg).
Qed.

Lemma removed_table q g :
  page_table_ (sh st') !! q = Some g ↔ q ≠ pid ∧ g ≠ f ∧ page_table_ (sh st) !! q = Some g.
Proof using HI Hm Hpg Hid Hpin Hdirty Hdata Hrep Hsz Hfr.
  simpl. rewrite lookup_delete_Some. split; [|naive_solver].
  intros [Hne Hq]. split_and!; [done| |done]. intros ->. apply Hne. symmetry. by eapply table_inj.
Qed.

Lemma removed_sinv : sinv st'.
Proof using HI Hm Hpg Hid Hpin Hdirty Hdata Hrep Hsz Hfr.
  pose proof (page_at_range _ _ _ Hpg) as Hr.
  assert (Hown : ∀ g, owned st' g ↔ owned st g) by (intros g; unfold owned; simpl; by rewrite length_insert).
  assert (Hpage : ∀ g x, page_at g st' = Some x → (g = f ∧ x = pg') ∨ (g ≠ f ∧ page_at g st = Some x)).
  { intros g x Hx. pose proof (page_at_range _ _ _ Hx) as Hx'. rewrite removed_page in Hx by lia.
    destruct (decide (f = g)); [left|right]; naive_solver. }
  destruct (si_table _ _ HI _ _ Hm) as (_ & Hof & _).
  split.
  - intros q g (Hne & Hgf & Hq)%removed_table.
    destruct (si_table _ _ HI _ _ Hq) as (Hh & Ho & Hv & Hix & x & Hx & Hidx).
    split_and!; [done|by apply Hown|done..|]. pose proof (owned_range _ _ Ho).
    rewrite removed_page, decide_False by (done || lia). by exists x.
  - simpl. apply NoDup_app. split_and!; [apply (si_nodup _ _ HI)| |apply NoDup_singleton].
    intros g Hg ->%list_elem_of_singleton. by eapply free_not_mapped.
  - intros g. simpl. rewrite elem_of_app, list_elem_of_singleton. intros [Hg| ->].
    + destruct (si_free _ _ HI _ Hg) as (Hh & Ho & x & Hx & ?).
      split_and!; [done|by apply Hown|]. pose proof (owned_range _ _ Ho). exists x.
      rewrite removed_page, decide_False; [done| |lia]. intros <-. by eapply free_not_mapped.
    + split_and!; [done|by apply Hown|]. exists pg'.
      rewrite removed_page, decide_True by (done || lia). done.
  - intros g Hg%Hown. right. simpl. rewrite elem_of_app, list_elem_of_singleton.
    destruct (decide (g = f)) as [->|Hne]; [by left; right|].
    destruct (si_cover _ _ HI g Hg) as [?|[Hin|[q Hq]]]; [done|by left; left|right].
    exists q. apply removed_table. split_and!; [|done..]. congruence.
  - done.
  - simpl. by rewrite length_insert.
  - intros g Hg. simpl in Hg. destruct (decide (g = f)) as [->|Hne].
    + split; [by apply Hown|]. intros _ x Hx. destruct (Hpage _ _ Hx) as [[_ ->]|[? _]]; done.
    + apply Hfr in Hg; [|done]. destruct (si_evictable _ _ HI _ Hg) as [Ho Hp]. split; [by apply Hown|].
      intros _ x Hx. destruct (Hpage _ _ Hx) as [[? _]|[_ ?]]; [done|by apply Hp].
  - intros q g x (Hne & Hgf & Hq)%removed_table Hx Hx0. apply Hfr; [done|].
    destruct (Hpage _ _ Hx) as [[? _]|[_ ?]]; [done|]. by eapply (si_unpinned _ _ HI).
  - intros g x Hx. destruct (Hpage _ _ Hx) as [[_ ->]|[_ Hx']]; [rewrite Hpin; done|].
    by eapply (si_pages _ _ HI).
  - intros q g x (Hne & Hgf & Hq)%removed_table Hx Hx0 Hxd.
    destruct (Hpage _ _ Hx) as [[? _]|[_ ?]]; [done|]. by eapply (si_clean _ _ HI).
  - apply (si_disk _ _ HI).
Qed.

Lemma removed_frame : sframe st st'.
Proof using HI Hm Hpg Hid Hpin Hdirty Hdata Hrep Hsz Hfr.
  destruct (si_table _ _ HI _ _ Hm) as (_ & [Hr Hmod] & _). split.
  - apply length_insert.
  - intros g Hg. destruct (decide (0 ≤ g)).
    + rewrite removed_page, decide_False by (done || congruence). done.
    + unfold page_at. by rewrite !decide_False.
  - done.
Qed.

Lemma removed_content q :
  scontent st' q = if decide (q = pid) then ps_read (fd pid) (page_no pid) (dsk st) else scontent st q.
Proof using HI Hm Hpg Hid Hpin Hdirty Hdata Hrep Hsz Hfr.
  unfold scontent; simpl. destruct (decide (q = pid)) as [->|Hne]; [by rewrite lookup_delete_eq|].
  rewrite lookup_delete_ne by done. destruct (page_table_ (sh st) !! q) as [g|] eqn:Eq; [|done].
  destruct (si_table _ _ HI _ _ Eq) as (_ & Ho & _). pose proof (owned_range _ _ Ho).
  rewrite removed_page, decide_False; [done| |lia]. intros <-. apply Hne. by eapply table_inj.
Qed.

Lemma removed_quiet : quiet pid st st'.
Proof using HI Hm Hpg Hid Hpin Hdirty Hdata Hrep Hsz Hfr.
  intros q Hq. split.
  - intros g x (_ & Hgf & Hqm)%removed_table Hx. split; [done|].
    destruct (si_table _ _ HI _ _ Hqm) as (_ & Hog & _). pose proof (owned_range _ _ Hog).
    by rewrite removed_page, decide_False in Hx by (done || lia).
  - intros g x Hqm Hx _. assert (Hgf : g ≠ f) by (intros ->; apply Hq; by eapply table_inj).
    pose proof (page_at_range _ _ _ Hx). split_and!; [by apply removed_table| |done].
    by rewrite removed_page, decide_False by (done || lia).
Qed.

Lemma removed_other_pins q g x :
  page_table_ (sh st) !! q = Some g → page_at g st = Some x → q ≠ pid →
  page_table_ (sh st') !! q = Some g ∧ page_at g st' = Some x.
Proof using HI Hm Hpg Hid Hpin Hdirty Hdata Hrep Hsz Hfr.
  intros Hq Hx Hne. assert (Hgf : g ≠ f) by (intros ->; apply Hne; by eapply table_inj).
  split; [by apply removed_table|]. pose proof (page_at_range _ _ _ Hx).
  by rewrite removed_page, decide_False by (done || lia).
Qed.
End remove.

Lemma delete_ok pid f pg st r st' :
  sinv st → page_table_ (sh st) !! pid = Some f → page_at f st = Some pg →
  delete_page_in pid st = (Ok r, st') →
  (r = false ∧ st' = st ∧ pin_count_ pg ≠ 0) ∨
  (r = true ∧ pin_count_ pg = 0 ∧ sstep st st' ∧ content_kept st st' ∧ page_table_ (sh st') !! pid = None ∧
   quiet pid st st').
Proof using HPL HLL.
  intros HI Hm Hpg E. unfold delete_page_in in E. rewrite get_bind, Hm in E.
  rewrite (deref_some _ _ _ pg) in E by done.
  destruct (decide (pin_count_ pg ≠ 0)) as [Hnz|Hz].
  { left. unfold mret, M_ret in E. by simplify_eq. }
  right. assert (Hz0 : pin_count_ pg = 0) by (destruct (decide (pin_count_ pg = 0)); tauto). clear Hz.
  destruct (si_table _ _ HI _ _ Hm) as (_ & Ho & Hv & Hix & pg0 & Hpg0 & Hid).
  assert (pg0 = pg) as -> by congruence. destruct (si_pages _ _ HI _ _ Hpg) as [_ Hdata].
  apply bind_inv_ok in E as ([] & st1 & E1 & E).
  assert (Hkey : sh st1 = sh st ∧ pgs st1 = pgs st ∧ wal_kept st st1 ∧
                 wrote pid (data_ pg) (dsk st) (dsk st1)) .
  { destruct (is_dirty_ pg) eqn:Hdirty.
    - pose proof (flush_write_wal _ _ _ _ E1 (si_disk _ _ HI) Hv Hdata).
      apply flush_write_ok in E1 as (Hs & Hp & Hw); [done|by apply (si_disk _ _ HI)|done..].
    - unfold mret, M_ret in E1. simplify_eq. split_and!; [done..|by apply wal_refl|].
      split_and!; [apply (si_disk _ _ HI)|by apply (si_clean _ _ HI _ _ _ Hm Hpg)|done]. }
  destruct Hkey as (Hs & Hp & Hwal & Hw). pose proof Hw as (Hwf & Hsame & Hother).
  assert (HI1 : sinv st1).
  { apply (sinv_wrote None st st1 pid (data_ pg)); [done..|]. intros g x ? ? _ _. congruence. }
  unfold modify, mbind, M_bind, mret, M_ret, set_page, set_table, set_free, set_sh in E. simpl in E.
  set (pg' := mk_Page (mk_PageId (fd (id_ pg)) INVALID_PAGE_ID) reset_memory false 0) in *.
  simplify_eq.
  assert (Hpg1 : page_at f st1 = Some pg) by (unfold page_at in *; by rewrite Hp).
  assert (Hm1 : page_table_ (sh st1) !! id_ pg = Some f) by by rewrite Hs.
  pose proof (si_lru _ _ HI1) as Hl1. pose proof (si_lru_size _ _ HI1) as Hl2.
  split_and!; try done.
  - split.
    + by apply (removed_sinv st1 (id_ pg) f pg pg' (replacer_ (sh st1))).
    + destruct (removed_frame st1 (id_ pg) f pg pg' (replacer_ (sh st1))) as [Hf1 Hf2 Hf3]; try done. split.
      * by rewrite Hf1, Hp.
      * intros g Hg. rewrite Hf2 by done. unfold page_at. by rewrite Hp.
      * intros q old Hq Hiq Hold. simpl. apply Hother; [done| |done]. congruence.
    + intros q g x Hq Hx Hxp. rewrite <- Hs in Hq.
      assert (page_at g st1 = Some x) as Hx1 by (unfold page_at in *; by rewrite Hp).
      destruct (removed_other_pins st1 (id_ pg) f pg pg' (replacer_ (sh st1)) HI1 Hm1 Hpg1) with (q:=q) (g:=g) (x:=x)
        as [? ?]; try done; [intros ->; congruence|]. split; [done|]. by exists x.
    + intros l Hl Hinv. destruct (Hwal l Hl Hinv) as (l' & ? & ? & ? & ?). by exists l'.
  - intros q old Hq. rewrite (removed_content st1 (id_ pg) f pg pg' (replacer_ (sh st1))) by done.
    destruct (decide (q = id_ pg)) as [->|Hne]; unfold scontent.
    + by rewrite Hm, Hpg, Hsame.
    + rewrite Hs. destruct (page_table_ (sh st) !! q) as [g|] eqn:Eq; [|by apply Hother].
      unfold page_at. by rewrite Hp.
  - simpl. by rewrite Hs, lookup_delete_eq.
  - pose proof (removed_quiet st1 (id_ pg) f pg pg' (replacer_ (sh st1)) HI1 Hm1 Hpg1) as Hqt.
    intros q Hq. destruct (Hqt ltac:(done) ltac:(done) ltac:(done) ltac:(done) Hl1 Hl2 ltac:(done) q Hq) as [Hq1 Hq2].
    assert (Hat : ∀ g, page_at g st1 = page_at g st) by (intros g; unfold page_at; by rewrite Hp).
    split.
    { intros g x Hm' Hx'. destruct (Hq1 g x Hm' Hx'). by rewrite <- Hs, <- Hat. }
    intros g x Hqm Hx Hxp. pose proof Hqm as Hqm'. rewrite <- Hs in Hqm'. rewrite <- Hat in Hx.
    destruct (Hq2 g x Hqm' Hx Hxp) as (A & B & _).
    split_and!; [done..|]. intros d Hd. simpl. apply Hother; [|done|done].
    by destruct (si_table _ _ HI _ _ Hqm) as (_ & _ & ? & _).
Qed.

(** ** Loops over the page table *)

(** What a run over a part of the page table that writes pages back guarantees. *)
Record flushed st st' : Prop := {
  fl_step : sstep st st';
  fl_content : content_kept st st';
  fl_table : page_table_ (sh st') = page_table_ (sh st);
  fl_pins : ∀ f pg, page_at f st = Some pg → ∃ pg', page_at f st' = Some pg' ∧ pin_count_ pg' = pin_count_ pg;
  fl_disk : ∀ pid data, valid_pid pid → scontent st pid = Ok data →
    ps_read (fd pid) (page_no pid) (dsk st) = Ok data → ps_read (fd pid) (page_no pid) (dsk st') = Ok data
}.

Lemma flushed_refl st : sinv st → flushed st st.
Proof.
  intros HI. split; try done.
  - split; [done|by split| |by apply wal_refl]. intros q f pg Hq Hpg _. split; [done|by exists pg].
  - by intros ???.
  - intros f pg Hpg. by exists pg.
Qed.

Lemma wal_trans st1 st2 st3 :
  wal_kept st1 st2 → wal_kept st2 st3 →
  (∀ pid old, valid_pid pid → ps_read (fd pid) (page_no pid) (dsk st1) = Ok old →
     ∃ mid, ps_read (fd pid) (page_no pid) (dsk st2) = Ok mid) →
  wal_kept st1 st3.
Proof.
  intros H12 H23 Hrd l Hl Hinv. destruct (H12 l Hl Hinv) as (l2 & Hl2 & Hi2 & Hm2 & Hw2).
  destruct (H23 l2 Hl2 Hi2) as (l3 & Hl3 & Hi3 & Hm3 & Hw3). exists l3. split_and!; [done|done|naive_solver|].
  intros pid old data Hv Ho Hd. destruct (Hrd _ _ Hv Ho) as [mid Hmid].
  destruct (Hw3 _ _ _ Hv Hmid Hd) as [->|?]; [|by right].
  destruct (Hw2 _ _ _ Hv Ho Hmid) as [->|[?|?]]; [by left|by right; left|]. right; right. by apply Hm3.
Qed.

Lemma flush_entry_ok file st pid f st' :
  sinv st → page_table_ (sh st) !! pid = Some f → flush_entry file (pid, f) st = (Ok tt, st') →
  flushed st st' ∧
  (∀ q old, valid_pid q → ps_read (fd q) (page_no q) (dsk st) = Ok old →
     ∃ mid, ps_read (fd q) (page_no q) (dsk st') = Ok mid) ∧
  (fd pid = file → ∀ data, scontent st pid = Ok data → ps_read (fd pid) (page_no pid) (dsk st') = Ok data).
Proof using HPL HLL.
  intros HI Hm E. unfold flush_entry in E. simpl in E. destruct (decide (fd pid ≠ file)) as [Hne|He].
  { unfold mret, M_ret in E. simplify_eq. split_and!; [by apply flushed_refl|eauto|done]. }
  assert (Hfd : fd pid = file) by (destruct (decide (fd pid = file)); tauto). clear He.
  destruct (si_table _ _ HI _ _ Hm) as (_ & Ho & Hv & Hix & pg & Hpg & Hid).
  rewrite get_bind, (deref_some _ _ _ pg) in E by done.
  replace (mk_PageId file (page_no pid)) with pid in E by (destruct pid; simpl in *; congruence).
  destruct (flush_cached pid f pg st st' HI Hm Hpg E) as (Hs & Ht & Hw & Hp & Hc).
  destruct Hw as (Hwf & Hsame & Hother). split_and!.
  - split; [done..| |].
    + intros g x Hx. pose proof (page_at_range _ _ _ Hx). rewrite Hp by lia.
      destruct (decide (f = g)) as [<-|]; [|by exists x]. eexists. split; [done|]. simpl. congruence.
    + intros q data Hq Hcq Hr. destruct (decide (q = pid)) as [->|Hne]; [|by apply Hother].
      rewrite Hsame. unfold scontent in Hcq. rewrite Hm, Hpg in Hcq. congruence.
  - intros q old Hq Hold. destruct (decide (q = pid)) as [->|Hne]; eauto.
  - intros _ data Hcq. unfold scontent in Hcq. rewrite Hm, Hpg in Hcq. congruence.
Qed.

Lemma flushed_trans st1 st2 st3 :
  flushed st1 st2 → flushed st2 st3 →
  (∀ q old, valid_pid q → ps_read (fd q) (page_no q) (dsk st1) = Ok old →
     ∃ mid, ps_read (fd q) (page_no q) (dsk st2) = Ok mid) →
  flushed st1 st3.
Proof.
  intros [[Hi1 Hf1 Hp1 Hw1] Hc1 Ht1 Hn1 Hd1] [[Hi2 Hf2 Hp2 Hw2] Hc2 Ht2 Hn2 Hd2] Hrd. split.
  - split; [done| | |by eapply wal_trans].
    + destruct Hf1 as [A1 B1 C1], Hf2 as [A2 B2 C2].
      split; [congruence|intros; by rewrite B2, B1|eauto].
    + intros q g x Hq Hx Hxp. destruct (Hp1 _ _ _ Hq Hx Hxp) as [Hq2 (y & Hy & Hyd)].
      destruct (Hn1 _ _ Hx) as (y' & Hy' & Hyp). assert (y' = y) as -> by congruence.
      destruct (Hp2 _ _ _ Hq2 Hy) as [Hq3 (z & Hz & Hzd)]; [congruence|].
      split; [done|]. exists z. split; [done|congruence].
  - intros q old Hq Ho. by apply Hc2, Hc1.
  - congruence.
  - intros f pg Hpg. destruct (Hn1 _ _ Hpg) as (y & Hy & Hyp). destruct (Hn2 _ _ Hy) as (z & Hz & Hzp).
    exists z. split; [done|congruence].
  - intros q data Hq Hcq Hr. apply Hd2; [done|by apply Hc1|by apply Hd1].
Qed.

Lemma flush_loop file es : ∀ st st',
  sinv st → (∀ e, e ∈ es → page_table_ (sh st) !! e.1 = Some e.2) →
  for_each (flush_entry file) es st = (Ok tt, st') →
  flushed st st' ∧
  (∀ e data, e ∈ es → fd e.1 = file → scontent st e.1 = Ok data →
     ps_read (fd e.1) (page_no e.1) (dsk st') = Ok data) ∧
  (∀ q old, valid_pid q → ps_read (fd q) (page_no q) (dsk st) = Ok old →
     ∃ mid, ps_read (fd q) (page_no q) (dsk st') = Ok mid).
Proof using HPL HLL.
  induction es as [|[pid f] es IH]; intros st st' HI Hes E.
  { simpl in E. unfold mret, M_ret in E. simplify_eq.
    split_and!; [by apply flushed_refl|intros ?? H%elem_of_nil; done|eauto]. }
  simpl in E. apply bind_inv_ok in E as ([] & st1 & E1 & E).
  assert (Hm : page_table_ (sh st) !! pid = Some f) by (apply (Hes (pid, f)); set_solver).
  destruct (flush_entry_ok _ _ _ _ _ HI Hm E1) as (Hf1 & Hrd1 & Hd1).
  destruct (IH st1 st') as (Hf2 & Hd2 & Hrd2).
  { exact (ss_inv _ _ (fl_step _ _ Hf1)). }
  { intros e He. rewrite (fl_table _ _ Hf1). apply Hes. set_solver. }
  { done. }
  split_and!.
  - by eapply flushed_trans.
  - intros e data He Hfd Hc.
    assert (Hv : valid_pid e.1) by (by destruct (si_table _ _ HI _ _ (Hes _ He)) as (_ & _ & ? & _)).
    apply elem_of_cons in He as [->|He].
    + apply (fl_disk _ _ Hf2); [done|by apply (fl_content _ _ Hf1)|by apply Hd1].
    + apply Hd2; [done..|]. by apply (fl_content _ _ Hf1).
  - intros q old Hq Ho. destruct (Hrd1 _ _ Hq Ho) as [mid Hmid]. eauto.
Qed.

(** [flush_all_pages] on a shard: the pages of the file are on disk afterwards. *)
Lemma flush_shard_ok file st st' :
  sinv st → flush_shard file st = (Ok tt, st') →
  flushed st st' ∧
  (∀ pid data, valid_pid pid → fd pid = file → scontent st pid = Ok data →
    page_table_ (sh st) !! pid ≠ None → ps_read (fd pid) (page_no pid) (dsk st') = Ok data) ∧
  (∀ q old, valid_pid q → ps_read (fd q) (page_no q) (dsk st) = Ok old →
     ∃ mid, ps_read (fd q) (page_no q) (dsk st') = Ok mid).
Proof using HPL HLL.
  intros HI E. unfold flush_shard in E. rewrite get_bind in E.
  apply flush_loop in E as (Hf & Hd & Hrd); [|done|by intros [q g] ?%elem_of_map_to_list].
  split_and!; [done| |done].
  intros pid data Hv Hfd Hc Hin. destruct (page_table_ (sh st) !! pid) as [f|] eqn:Em; [|done].
  apply (Hd (pid, f)); [by apply elem_of_map_to_list|done..].
Qed.

(** What a run over a part of the page table that drops pages guarantees. *)
Record dropped file (st st' : SState D L) : Prop := {
  dr_inv : sinv st';
  dr_frame : sframe st st';
  dr_disk : dsk st' = dsk st ∧ lg st' = lg st;
  dr_table : ∀ q g, fd q ≠ file → page_table_ (sh st) !! q = Some g → page_table_ (sh st') !! q = Some g;
  dr_sub : ∀ q g, page_table_ (sh st') !! q = Some g → page_table_ (sh st) !! q = Some g;
  dr_content : ∀ q, fd q ≠ file → scontent st' q = scontent st q
}.

Lemma dropped_refl file st : sinv st → dropped file st st.
Proof. intros HI. by split. Qed.

Lemma dropped_trans file st1 st2 st3 : dropped file st1 st2 → dropped file st2 st3 → dropped file st1 st3.
Proof.
  intros [A1 [B1 B2 B3] [C1 C2] D1 E1 F1] [A2 [B4 B5 B6] [C3 C4] D2 E2 F2]. split; [done| | |eauto..|].
  - split; [congruence|intros; by rewrite B5, B2|eauto].
  - split; congruence.
  - intros q Hq. by rewrite F2, F1.
Qed.

Lemma delete_entry_ok file st pid f r st' :
  sinv st → page_table_ (sh st) !! pid = Some f → delete_entry file (pid, f) st = (r, st') →
  r = Ok tt ∧ dropped file st st' ∧ (fd pid = file → page_table_ (sh st') !! pid = None) ∧
  (∀ q g, q ≠ pid → page_table_ (sh st) !! q = Some g → page_table_ (sh st') !! q = Some g).
Proof.
  intros HI Hm E. unfold delete_entry in E. simpl in E. destruct (decide (fd pid ≠ file)) as [Hne|He].
  { unfold mret, M_ret in E. simplify_eq. split_and!; [done|by apply dropped_refl|done|done]. }
  assert (Hfd : fd pid = file) by (destruct (decide (fd pid = file)); tauto). clear He.
  destruct (si_table _ _ HI _ _ Hm) as (_ & Ho & Hv & Hix & pg & Hpg & Hid).
  rewrite get_bind, (deref_some _ _ _ pg) in E by done.
  destruct (Lru.pin_refines _ (si_lru _ _ HI) f (lru_range _ _ HI Ho)) as (rep & Hp & Hw & Hfr & Hsz).
  unfold on_replacer, modify, mbind, M_bind, set_page, set_table, set_free, set_sh in E. simpl in E.
  rewrite Hp in E. simpl in E.
  set (pg' := mk_Page (mk_PageId (fd (id_ pg)) INVALID_PAGE_ID) reset_memory false 0) in *. simplify_eq.
  assert (Hsz' : Lru.max_size_ rep = length (pgs st)) by (rewrite Hsz; apply (si_lru_size _ _ HI)).
  assert (Hfr' : ∀ g, g ≠ f → g ∈ Lru.frames rep ↔ g ∈ Lru.frames (replacer_ (sh st))).
  { intros g Hg. rewrite Hfr. unfold Lru.a_pin. rewrite elem_of_remove_elem. tauto. }
  split_and!; [done| | |].
  - split.
    + by apply (removed_sinv st (id_ pg) f pg pg' rep).
    + by apply (removed_frame st (id_ pg) f pg pg' rep).
    + done.
    + intros q g Hq Hqm. simpl. rewrite lookup_delete_ne; [done|]. congruence.
    + intros q g. simpl. rewrite lookup_delete_Some. tauto.
    + intros q Hq. rewrite (removed_content st (id_ pg) f pg pg' rep) by done.
      destruct (decide (q = id_ pg)); [congruence|done].
  - intros _. simpl. by rewrite lookup_delete_eq.
  - intros q g Hq Hqm. simpl. by rewrite lookup_delete_ne.
Qed.

Lemma delete_loop file es : ∀ st r st',
  sinv st → NoDup es.*1 → (∀ e, e ∈ es → page_table_ (sh st) !! e.1 = Some e.2) →
  for_each (delete_entry file) es st = (r, st') →
  r = Ok tt ∧ dropped file st st' ∧ ∀ e, e ∈ es → fd e.1 = file → page_table_ (sh st') !! e.1 = None.
Proof.
  induction es as [|[pid f] es IH]; intros st r st' HI Hnd Hes E.
  { simpl in E. unfold mret, M_ret in E. simplify_eq.
    split_and!; [done|by apply dropped_refl|intros ? H%elem_of_nil; done]. }
  simpl in E. apply NoDup_cons in Hnd as [Hnin Hnd].
  assert (Hm : page_table_ (sh st) !! pid = Some f) by (apply (Hes (pid, f)); set_solver).
  destruct (delete_entry file (pid, f) st) as [r1 st1] eqn:E1.
  destruct (delete_entry_ok _ _ _ _ _ _ HI Hm E1) as (-> & Hd1 & Hn1 & Hk1).
  rewrite (bind_ok _ _ _ _ _ E1) in E.
  destruct (IH st1 r st') as (-> & Hd2 & Hn2); [apply (dr_inv _ _ _ Hd1)|done| |done|].
  { intros e He. apply Hk1; [|apply Hes; set_solver]. intros <-. apply Hnin. apply list_elem_of_fmap. by exists e. }
  split_and!; [done|by eapply dropped_trans|]. intros e He Hfd. apply elem_of_cons in He as [->|He]; [|eauto].
  destruct (page_table_ (sh st') !! (pid, f).1) as [g|] eqn:Eg; [|done].
  apply (dr_sub _ _ _ Hd2) in Eg. simpl in *. rewrite Hn1 in Eg; done.
Qed.

(** [delete_all_pages] on a shard always succeeds and drops exactly the pages of the file. *)
Lemma delete_shard_ok file st r st' :
  sinv st → delete_shard file st = (r, st') →
  r = Ok tt ∧ dropped file st st' ∧ ∀ q, fd q = file → page_table_ (sh st') !! q = None.
Proof.
  intros HI E. unfold delete_shard in E. rewrite get_bind in E.
  destruct (delete_loop file _ st r st' HI (NoDup_fst_map_to_list (page_table_ (sh st)))) as (-> & Hd & Hn);
    [by intros [q g] ?%elem_of_map_to_list|done|].
  split_and!; [done..|]. intros q Hq. destruct (page_table_ (sh st') !! q) as [g|] eqn:Eq; [|done].
  pose proof (dr_sub _ _ _ Hd _ _ Eq) as Hq0. rewrite <- Eq. apply (Hn (q, g)); [|done].
  by apply elem_of_map_to_list.
Qed.

End shard.
End BpmFacts.
