(* ===== verification/BufferPoolFail.v ===== *)
(** * Calls of the buffer pool that throw

    A call throws when a write of the log, a write of a page or a read of a page fails.  It may
    leave a frame without a list it is in, or a page in the table that was never read; but no
    pinned page has moved, and no page is on disk before its log records. *)

From S2P Require Import Prelude Replacer Disk BufferPool BufferPoolFacts.

Module BpmFail.
Import Bpm BpmFacts.

Section shard.
Context {D : Type} `{HPS : PageStore D} `{HPL : !PageStoreLaws D}.
Context {L : Type} `{HLS : LogSink L} `{HLL : !LogSinkLaws L}.
Context (n i : Z).

Implicit Types (st : SState D L) (f : Z) (pid : PageId) (pg : Page).

(** [wal_kept] without the invariant of the log, which a write that fails may break. *)
Definition wal_err st st' : Prop := ∀ l, lg st = Some l → ls_inv l → ∃ l', lg st' = Some l' ∧
  (∀ x, ls_durable l x → ls_durable l' x) ∧
  ∀ pid old data, valid_pid pid → ps_read (fd pid) (page_no pid) (dsk st) = Ok old →
    ps_read (fd pid) (page_no pid) (dsk st') = Ok data →
    data = old ∨ get_page_lsn data = INVALID_LSN ∨ ls_durable l' (get_page_lsn data).

Lemma wal_kept_err st st' : wal_kept st st' → wal_err st st'.
Proof. intros H l Hl Hi. destruct (H l Hl Hi) as (l' & ? & _ & ? & ?). by exists l'. Qed.

Lemma wal_err_trans st1 st2 st3 :
  wal_kept st1 st2 → wal_err st2 st3 →
  (∀ pid old, valid_pid pid → ps_read (fd pid) (page_no pid) (dsk st1) = Ok old →
     ∃ mid, ps_read (fd pid) (page_no pid) (dsk st2) = Ok mid) →
  wal_err st1 st3.
Proof.
  intros H12 H23 Hrd l Hl Hinv. destruct (H12 l Hl Hinv) as (l2 & Hl2 & Hi2 & Hm2 & Hw2).
  destruct (H23 l2 Hl2 Hi2) as (l3 & Hl3 & Hm3 & Hw3). exists l3. split_and!; [done|naive_solver|].
  intros pid old data Hv Ho Hd. destruct (Hrd _ _ Hv Ho) as [mid Hmid].
  destruct (Hw3 _ _ _ Hv Hmid Hd) as [->|?]; [|by right].
  destruct (Hw2 _ _ _ Hv Ho Hmid) as [->|[?|?]]; [by left|by right; left|]. right; right. by apply Hm3.
Qed.

(** What is left of a shard when a call has thrown. *)
Record sfail st st' : Prop := {
  fa_len : length (pgs st') = length (pgs st);
  fa_pages : ∀ f, f mod n ≠ i → page_at f st' = page_at f st;
  fa_pins : pins_kept st st';
  fa_wal : wal_err st st'
}.

Lemma sfail_same st st' :
  page_table_ (sh st') = page_table_ (sh st) → pgs st' = pgs st → wal_err st st' → sfail st st'.
Proof.
  intros Ht Hp Hw. assert (Hat : ∀ f, page_at f st' = page_at f st) by (intros f; unfold page_at; by rewrite Hp).
  split; [congruence|intros; apply Hat| |done]. intros q f pg Hq Hpg _. rewrite Ht, Hat. split; [done|by exists pg].
Qed.

Lemma sfail_step st1 st2 st3 :
  flushed n i st1 st2 → sfail st2 st3 →
  (∀ pid old, valid_pid pid → ps_read (fd pid) (page_no pid) (dsk st1) = Ok old →
     ∃ mid, ps_read (fd pid) (page_no pid) (dsk st2) = Ok mid) →
  sfail st1 st3.
Proof.
  intros [[_ [Hl Hpg _] Hpk Hw] _ Ht Hpn _] [Fl Fp Fk Fw] Hrd. split.
  - congruence.
  - intros f Hf. by rewrite Fp, Hpg.
  - intros q f pg Hq Hf Hpin. destruct (Hpk q f pg Hq Hf Hpin) as [Hq2 (x & Hx & Hxd)].
    destruct (Hpn f pg Hf) as (x' & Hx' & Hpc). assert (x' = x) as -> by congruence.
    destruct (Fk q f x Hq2 Hx) as [Hq3 (y & Hy & Hyd)]; [congruence|]. split; [done|]. exists y. split; [done|congruence].
  - by eapply wal_err_trans.
Qed.

(** ** The log and the disk *)

Lemma flush_page_log_fail pg st e st' :
  flush_page_log pg st = (Err e, st') → sh st' = sh st ∧ pgs st' = pgs st ∧ dsk st' = dsk st ∧ wal_err st st'.
Proof using HLL.
  unfold flush_page_log. destruct (lg st) as [l|] eqn:Hl; [|done]. case_decide; [|done].
  destruct (ls_flush (get_page_lsn (data_ pg)) l) as [r l'] eqn:E. intros [= -> <-]. split_and!; [done..|].
  intros l0 Hl0 Hi. rewrite Hl in Hl0. injection Hl0 as <-. exists l'. split_and!; [done| |].
  - intros x Hx. by eapply ls_flush_keeps.
  - intros q old data _ Ho Hd. left. simpl in Hd. congruence.
Qed.

Lemma flush_write_fail pg pid st e st' :
  (flush_page_log pg;; write_disk pid (data_ pg)) st = (Err e, st') →
  sh st' = sh st ∧ pgs st' = pgs st ∧ wal_err st st'.
Proof using HPL HLL.
  intros E. apply bind_inv_err in E as [E|([] & st1 & E1 & E)].
  - destruct (flush_page_log_fail _ _ _ _ E) as (? & ? & ? & ?). done.
  - pose proof (flush_page_log_ok _ _ _ E1) as (Hs & Hp & Hd). unfold write_disk, on_disk in E.
    destruct (ps_write _ _ _ (dsk st1)) as [r d'] eqn:Ew. injection E as -> <-. apply ps_write_err in Ew as ->. simpl.
    split_and!; [done..|]. intros l Hl Hi. destruct (flush_page_log_wal _ _ _ E1 l Hl Hi) as (l' & Hl' & _ & Hm & _).
    exists l'. split_and!; [done..|]. intros q old data _ Ho Hq. left. simpl in Hq. congruence.
Qed.

(** What follows a write does not fail. *)
Lemma flush_then_fail {A} pg pid (k : M (SState D L) A) st e st' :
  (∀ st1, ∃ a st2, k st1 = (Ok a, st2)) → (flush_page_log pg;; write_disk pid (data_ pg);; k) st = (Err e, st') → sfail st st'.
Proof using HPL HLL.
  intros Hk E. assert ((flush_page_log pg;; write_disk pid (data_ pg)) st = (Err e, st')) as Ef.
  { apply bind_inv_err in E as [E1|([] & st0 & E1 & E)]; [by apply bind_err|].
    apply bind_inv_err in E as [E2|([] & st1 & E2 & E)]; [by rewrite (bind_ok _ _ _ _ _ E1)|].
    destruct (Hk st1) as (a & st2 & ?). congruence. }
  apply flush_write_fail in Ef as (Hs & Hp & Hw). apply sfail_same; [congruence|done|done].
Qed.

Lemma update_page_fail f pg pid st st1 e st2 :
  taken n i f pg st st1 → update_page f pid st1 = (Err e, st2) → sfail st st2.
Proof using HPL HLL.
  intros (Ho & Hpg & Hpin & Hps & Hd & Htb & _ & _ & _ & _ & _ & _ & _ & Hlg) E.
  unfold update_page in E. rewrite get_bind in E.
  assert (Hpa : page_at f st1 = Some pg) by (unfold page_at in *; by rewrite Hps).
  rewrite (deref_some _ _ _ pg) in E by done. apply bind_inv_err in E as [E|([] & st3 & _ & E)].
  - destruct (is_dirty_ pg); [|done]. apply flush_write_fail in E as (Hs & Hp & Hw).
    apply sfail_same; [congruence..|]. intros l Hl Hi. destruct (Hw l) as (l' & ? & ? & H3); [congruence|done|].
    exists l'. split_and!; [done..|]. intros q old data Hv Hold. rewrite <-Hd in Hold. by apply H3.
  - done.
Qed.

(** A frame was given to a page whose bytes could not be read. *)
Lemma update_page_then f pg pid st st1 st2 :
  sinv_ex n i None st → taken n i f pg st st1 → page_table_ (sh st) !! pid = None →
  update_page f pid st1 = (Ok tt, st2) → sfail st st2.
Proof using HPL HLL.
  intros HI Ht Hnew E. destruct (update_page_ok n i _ _ _ _ _ _ HI Ht Hnew E) as (d' & l' & _ & Hw & ->).
  destruct Ht as ([Hr Hmod] & Hpg & Hpin & Hps & Hd & Htb & Hor & _ & _ & _ & _ & _ & _ & Hlg). split; simpl.
  - apply length_insert.
  - intros g Hg. unfold page_at. simpl. case_decide; [|done]. rewrite list_lookup_insert_ne; [done|].
    intros E1%Z2Nat.inj; [|lia..]. congruence.
  - intros q g x Hq Hx Hxp. assert (g ≠ f) as Hgf by (intros ->; congruence). simpl. pose proof (page_at_range _ _ _ Hx).
    split.
    + rewrite lookup_insert_ne by congruence. rewrite lookup_delete_ne; [done|]. intros <-.
      destruct Hor as [?|(Hinv & _)]; [congruence|].
      destruct (si_table _ _ _ _ HI _ _ Hq) as (_ & _ & Hv & _). unfold valid_pid, INVALID_PAGE_ID in *. lia.
    + exists x. unfold page_at in *. simpl. rewrite decide_True in Hx |- * by lia. by rewrite list_lookup_insert_ne by lia.
  - apply wal_kept_err. intros l Hl Hi. destruct (Hw l) as (l2 & ? & ? & ? & H3); [congruence|done|]. exists l2.
    split_and!; [done..|]. intros q old data Hv Hold. rewrite <-Hd in Hold. by apply H3.
Qed.

(** ** The operations *)

Lemma find_victim_total st r st' :
  sinv_ex n i None st → find_victim_page st = (r, st') → ∃ fo, r = Ok fo.
Proof.
  intros HI E. destruct (rev_cases (free_list_ (sh st))) as [El|(l & g & El)].
  - destruct (find_victim_lru n i st _ _ HI El E) as [(-> & _)|(g & pg & -> & _)]; by eexists.
  - destruct (find_victim_free n i g l st HI El) as (pg & st1 & E1 & _). rewrite E in E1. simplify_eq. by eexists.
Qed.

(** The last part of installing a page never fails. *)
Lemma pin_frame_total f pg pid data st st1 st2 r st3 :
  sinv_ex n i None st → taken n i f pg st st1 → page_table_ (sh st) !! pid = None → valid_pid pid → shard_index n pid = i → is_page data →
  update_page f pid st1 = (Ok tt, st2) → pin_frame f pid data st2 = (r, st3) → r = Ok (Some f).
Proof using HPL HLL. intros HI Ht Hn Hv Hix Hd E1 E2. by destruct (install_ok n i _ _ _ _ _ _ _ _ _ HI Ht Hn Hv Hix Hd E1 E2) as (-> & _). Qed.

Lemma fetch_fail pid st e st' :
  sinv_ex n i None st → valid_pid pid → shard_index n pid = i → fetch_page_in pid st = (Err e, st') → sfail st st'.
Proof using HPL HLL.
  intros HI Hv Hix E. destruct (page_table_ (sh st) !! pid) as [f|] eqn:Hm.
  { destruct (si_table _ _ _ _ HI _ _ Hm) as (_ & _ & _ & _ & pg & Hpg & _). by destruct (fetch_hit n i _ _ _ _ _ _ HI Hm Hpg E) as (? & _). }
  unfold fetch_page_in in E. rewrite get_bind, Hm in E. apply bind_inv_err in E as [E|(fo & st1 & Ef & E)].
  { by destruct (find_victim_total _ _ _ HI E). }
  destruct fo as [f|]; [|done]. destruct (find_victim_ok n i _ _ _ HI Ef) as [pg Ht].
  apply bind_inv_err in E as [E|([] & st2 & Eu & E)]; [by eapply update_page_fail|].
  apply bind_inv_err in E as [E|(data & st3 & Er & E)].
  - unfold read_disk in E. injection E as _ <-. by eapply update_page_then.
  - unfold read_disk in Er. simplify_eq. assert (is_page data) by (by eapply ps_read_page).
    by pose proof (pin_frame_total f pg pid data _ _ _ _ _ HI Ht Hm Hv Hix ltac:(done) Eu E).
Qed.

Lemma install_fail pid st e st' :
  sinv_ex n i None st → valid_pid pid → shard_index n pid = i → page_table_ (sh st) !! pid = None → install_new_page pid st = (Err e, st') → sfail st st'.
Proof using HPL HLL.
  intros HI Hv Hix Hm E. unfold install_new_page in E. apply bind_inv_err in E as [E|(fo & st1 & Ef & E)].
  { by destruct (find_victim_total _ _ _ HI E). }
  destruct fo as [f|]; [|done]. destruct (find_victim_ok n i _ _ _ HI Ef) as [pg Ht].
  apply bind_inv_err in E as [E|([] & st2 & Eu & E)]; [by eapply update_page_fail|].
  by pose proof (pin_frame_total f pg pid reset_memory _ _ _ _ _ HI Ht Hm Hv Hix reset_memory_page Eu E).
Qed.

Lemma new_page_at_fail pid st e st' :
  sinv_ex n i None st → valid_pid pid → shard_index n pid = i → new_page_at_in pid st = (Err e, st') → sfail st st'.
Proof using HPL HLL.
  intros HI Hv Hix E. unfold new_page_at_in in E. rewrite get_bind in E. destruct (page_table_ (sh st) !! pid) as [f|] eqn:Hm; [done|].
  by apply install_fail in E.
Qed.

Lemma flush_fail pid st e st' : sinv_ex n i None st → flush_page_in pid st = (Err e, st') → sfail st st'.
Proof using HPL HLL.
  intros HI E. unfold flush_page_in in E. rewrite get_bind in E. destruct (page_table_ (sh st) !! pid) as [f|] eqn:Hm; [|done].
  destruct (si_table _ _ _ _ HI _ _ Hm) as (_ & _ & _ & _ & pg & Hpg & _). rewrite (deref_some _ _ _ pg) in E by done.
  eapply flush_then_fail; [|exact E]. intros st1. by do 2 eexists.
Qed.

Lemma delete_fail pid st e st' : sinv_ex n i None st → delete_page_in pid st = (Err e, st') → sfail st st'.
Proof using HPL HLL.
  intros HI E. unfold delete_page_in in E. rewrite get_bind in E. destruct (page_table_ (sh st) !! pid) as [f|] eqn:Hm; [|done].
  destruct (si_table _ _ _ _ HI _ _ Hm) as (_ & _ & _ & _ & pg & Hpg & _). rewrite (deref_some _ _ _ pg) in E by done.
  case_decide; [done|]. apply bind_inv_err in E as [E|([] & st1 & _ & E)]; [|done].
  destruct (is_dirty_ pg); [|done]. apply flush_write_fail in E as (Hs & Hp & Hw). apply sfail_same; [congruence|done|done].
Qed.

Lemma flush_entry_fail file pid f st e st' :
  sinv_ex n i None st → page_table_ (sh st) !! pid = Some f → flush_entry file (pid, f) st = (Err e, st') → sfail st st'.
Proof using HPL HLL.
  intros HI Hm E. unfold flush_entry in E. simpl in E. case_decide; [done|].
  destruct (si_table _ _ _ _ HI _ _ Hm) as (_ & _ & _ & _ & pg & Hpg & _). rewrite get_bind, (deref_some _ _ _ pg) in E by done.
  eapply flush_then_fail; [|exact E]. intros st1. by do 2 eexists.
Qed.

Lemma flush_loop_fail file es : ∀ st e st',
  sinv_ex n i None st → (∀ x, x ∈ es → page_table_ (sh st) !! x.1 = Some x.2) →
  for_each (flush_entry file) es st = (Err e, st') → sfail st st'.
Proof using HPL HLL.
  induction es as [|[pid f] es IH]; intros st e st' HI Hes E; [done|]. simpl in E.
  assert (Hm : page_table_ (sh st) !! pid = Some f) by (apply (Hes (pid, f)); set_solver).
  apply bind_inv_err in E as [E|([] & st1 & E1 & E)]; [by eapply flush_entry_fail|].
  destruct (flush_entry_ok n i _ _ _ _ _ HI Hm E1) as (Hf & Hrd & _).
  eapply sfail_step; [exact Hf| |exact Hrd]. eapply IH; [exact (ss_inv _ _ _ _ (fl_step _ _ _ _ Hf))| |exact E].
  intros x Hx. rewrite (fl_table _ _ _ _ Hf). apply Hes. set_solver.
Qed.

Lemma flush_shard_fail file st e st' : sinv_ex n i None st → flush_shard file st = (Err e, st') → sfail st st'.
Proof using HPL HLL.
  intros HI E. unfold flush_shard in E. rewrite get_bind in E. eapply flush_loop_fail; [done| |exact E].
  by intros [q g] ?%elem_of_map_to_list.
Qed.
End shard.
End BpmFail.
