(* ===== verification/BufferPoolSpec.v ===== *)
(** * The buffer pool against its specification

    The lemmas of [BufferPoolFacts] speak of one shard; here they are lifted to the pool,
    and runs of the pool are related to its specification: a page keeps the bytes that were
    last written to it, wherever the pool keeps them, a pinned page stays in its frame, and
    the log goes to disk before the pages it describes. *)

From S2P Require Import Prelude Replacer Disk BufferPool BufferPoolFacts BufferPoolFail.

Module BpmSpec.
Import Bpm BpmFacts BpmFail.

Section pool.
Context {D : Type} `{HPS : PageStore D} `{HPL : !PageStoreLaws D}.
Context {L : Type} `{HLS : LogSink L} `{HLL : !LogSinkLaws L}.

Implicit Types (b : BufferPoolManager D L) (f : Z) (pid : PageId) (pg : Page).

Definition nshards b : Z := Z.of_nat (length (shards_ b)).
Definition view b (s : Shard) : SState D L := mk_SState s (pages_ b) (disk_manager_ b) (log_manager_ b).
Definition shard_of b pid : option Shard := shards_ b !! Z.to_nat (shard_index (nshards b) pid).

(** The invariant of the pool: every shard satisfies its own. *)
Definition binv b : Prop :=
  0 < nshards b ∧ ∀ k s, shards_ b !! k = Some s → sinv_ex (nshards b) (Z.of_nat k) None (view b s).

(** The bytes of a page for the users of the pool. *)
Definition content b pid : res (list byte) :=
  match shard_of b pid with Some s => scontent (view b s) pid | None => Err Undefined end.

(** The frame and page that hold a cached page. *)
Definition cached b pid : option (Z * Page) :=
  s ← shard_of b pid; f ← page_table_ s !! pid; pg ← page_at f (view b s); Some (f, pg).

Definition on_disk_is b pid data : Prop := ps_read (fd pid) (page_no pid) (disk_manager_ b) = Ok data.

(** The user of a pinned page writes its bytes. *)
Definition write_frame f data b : BufferPoolManager D L :=
  match pages_ b !! Z.to_nat f with
  | Some pg => mk_Bpm (<[Z.to_nat f := mk_Page (id_ pg) data (is_dirty_ pg) (pin_count_ pg)]> (pages_ b))
                 (shards_ b) (disk_manager_ b) (log_manager_ b)
  | None => b
  end.

(** ** Runs *)

(** Calls that can throw. *)
Inductive call := CFetch (pid : PageId) | CFlush (pid : PageId) | CNewAt (pid : PageId) | CNew (file : Z) | CDelete (pid : PageId) | CFlushAll (file : Z).

Inductive event :=
| Fetch (pid : PageId) (r : option Z)
| Write (pid : PageId) (data : list byte)
| Unpin (pid : PageId) (dirty : bool)
| Flush (pid : PageId)
| NewAt (pid : PageId) (r : option Z)
| NewPage (pid : PageId) (r : option Z)
| Delete (pid : PageId) (r : bool)
| FlushAll (file : Z)
| DeleteAll (file : Z)
| Failed (c : call) (x : exn).

Definition failed (e : event) : bool := match e with Failed _ _ => true | _ => false end.

(** The specification: what a run does to the bytes of the pages.  [delete_all_pages] drops the
    pages of a file as they are, so that nothing is known of them afterwards. *)
Definition effect (c : PageId → res (list byte)) (e : event) : PageId → res (list byte) :=
  match e with
  | Write pid data => λ q, if decide (q = pid) then Ok data else c q
  | NewAt pid (Some _) | NewPage pid (Some _) => λ q, if decide (q = pid) then Ok reset_memory else c q
  | DeleteAll file => λ q, if decide (fd q = file) then Err Undefined else c q
  | _ => c
  end.

(** ** Lifting a step of a shard *)

Lemma shard_index_range m pid : 0 < m → 0 ≤ shard_index m pid < m.
Proof. intros. apply Z.mod_pos_bound. lia. Qed.

Lemma binv_shard b pid : binv b → ∃ s, shard_of b pid = Some s ∧
  sinv_ex (nshards b) (shard_index (nshards b) pid) None (view b s).
Proof.
  intros [Hn Hi]. pose proof (shard_index_range _ pid Hn) as Hr.
  destruct (lookup_lt_is_Some_2 (shards_ b) (Z.to_nat (shard_index (nshards b) pid))) as [s Hs].
  { unfold nshards in *. lia. }
  exists s. split; [done|]. specialize (Hi _ _ Hs). by rewrite Z2Nat.id in Hi by lia.
Qed.

(** The invariant of another shard survives a step. *)
Lemma sinv_other m i j s s' b st' :
  i ≠ j → sinv_ex m j None (view b s') → sframe m i (view b s) st' → sinv_ex m i None st' →
  sinv_ex m j None (mk_SState s' (pgs st') (dsk st') (lg st')).
Proof.
  intros Hij HI [Hlen Hpg Hd] HI'.
  assert (Hown : ∀ f, owned m j (mk_SState s' (pgs st') (dsk st') (lg st')) f ↔ owned m j (view b s') f).
  { intros f. unfold owned. simpl in *. by rewrite Hlen. }
  assert (Hat : ∀ f, owned m j (view b s') f →
     page_at f (mk_SState s' (pgs st') (dsk st') (lg st')) = page_at f (view b s')).
  { intros f [_ Hf]. exact (Hpg f ltac:(congruence)). }
  destruct HI as [A B C E F G H I J K _]. split; simpl in *.
  - intros pid f Hm. destruct (A pid f Hm) as (? & Ho & ? & ? & pg & ? & ?).
    split_and!; [done|by apply Hown|done..|]. exists pg. by rewrite Hat.
  - done.
  - intros f Hf. destruct (C f Hf) as (? & Ho & pg & ? & ?).
    split_and!; [done|by apply Hown|]. exists pg. by rewrite Hat.
  - intros f Hf%Hown. by apply E.
  - done.
  - by rewrite Hlen.
  - intros f Hf. destruct (H f Hf) as [Ho Hp]. split; [by apply Hown|]. by rewrite Hat.
  - intros pid f pg Hm Hf. destruct (A pid f Hm) as (_ & Ho & _). rewrite Hat in Hf by done. eauto.
  - exact (si_pages _ _ _ _ HI').
  - intros pid f pg Hm Hf Hp Hdi. destruct (A pid f Hm) as (_ & Ho & Hv & Hix & _).
    rewrite Hat in Hf by done. apply Hd; [done|congruence|]. eauto.
  - exact (si_disk _ _ _ _ HI').
Qed.

Lemma sst_eta (st : SState D L) : mk_SState (sh st) (pgs st) (dsk st) (lg st) = st.
Proof. by destruct st. Qed.

(** A step of shard [i] as a step of the pool. *)
Definition after b (i : Z) (st' : SState D L) : BufferPoolManager D L :=
  mk_Bpm (pgs st') (<[Z.to_nat i := sh st']> (shards_ b)) (dsk st') (lg st').

Lemma in_shard_run {A} b pid (m : M (SState D L) A) s :
  shard_of b pid = Some s →
  in_shard pid m b = let '(r, st') := m (view b s) in (r, after b (shard_index (nshards b) pid) st').
Proof. intros Hs. unfold in_shard, with_shard. unfold shard_of, nshards in Hs. by rewrite Hs. Qed.

Section lift.
Context (b : BufferPoolManager D L) (i : Z) (s : Shard) (st' : SState D L).
Context (HB : binv b) (Hr : 0 ≤ i < nshards b) (Hs : shards_ b !! Z.to_nat i = Some s).
Context (HI' : sinv_ex (nshards b) i None st') (Hf : sframe (nshards b) i (view b s) st').

Lemma after_nshards : nshards (after b i st') = nshards b.
Proof using HB Hr Hs HI' Hf. unfold nshards, after; simpl. by rewrite length_insert. Qed.

Lemma after_shard q :
  shard_of (after b i st') q =
  if decide (shard_index (nshards b) q = i) then Some (sh st') else shard_of b q.
Proof using HB Hr Hs HI' Hf.
  unfold shard_of. rewrite after_nshards. destruct HB as [Hn _].
  pose proof (shard_index_range _ q Hn). simpl. destruct (decide (shard_index (nshards b) q = i)) as [->|Hne].
  - apply list_lookup_insert_eq. apply lookup_lt_Some in Hs. done.
  - apply list_lookup_insert_ne. lia.
Qed.

Lemma after_view s' : view (after b i st') s' = mk_SState s' (pgs st') (dsk st') (lg st').
Proof using HB Hr Hs HI' Hf. done. Qed.

Lemma after_binv : binv (after b i st').
Proof using HB Hr Hs HI' Hf.
  pose proof HB as [Hn Hall].
  split; [by rewrite after_nshards|]. intros k s' Hk. rewrite after_nshards, after_view. simpl in Hk.
  destruct (decide (k = Z.to_nat i)) as [->|Hne].
  - rewrite list_lookup_insert_eq in Hk by (by apply lookup_lt_Some in Hs). simplify_eq.
    by rewrite Z2Nat.id, sst_eta by lia.
  - rewrite list_lookup_insert_ne in Hk by done.
    apply (sinv_other (nshards b) i (Z.of_nat k) s s' b st'); [lia| |done..].
    by apply Hall.
Qed.

(** Pages of the same shard and pages of other shards. *)
Lemma after_content q :
  shard_index (nshards b) q = i → content (after b i st') q = scontent st' q.
Proof using HB Hr Hs HI' Hf.
  intros Hq. unfold content. by rewrite after_shard, decide_True, after_view, sst_eta by done.
Qed.

Lemma after_content_other q data :
  valid_pid q → shard_index (nshards b) q ≠ i → content b q = Ok data →
  content (after b i st') q = Ok data.
Proof using HB Hr Hs HI' Hf.
  intros Hv Hq Hc. unfold content in *. rewrite after_shard, decide_False by done.
  destruct (binv_shard b q HB) as (s' & Hs' & HI). rewrite Hs' in *. unfold scontent in *. simpl in *.
  destruct (page_table_ s' !! q) as [f|] eqn:Em; [|by apply (sf_disk _ _ _ _ Hf)].
  destruct (si_table _ _ _ _ HI _ _ Em) as (_ & [_ Hmod] & _).
  change (page_at f (view (after b i st') s')) with (page_at f st').
  rewrite (sf_pages _ _ _ _ Hf f) by congruence. done.
Qed.

Lemma content_here q : shard_index (nshards b) q = i → content b q = scontent (view b s) q.
Proof using HB Hr Hs HI' Hf.
  intros Hq. unfold content. replace (shard_of b q) with (Some s); [done|].
  rewrite <- Hs. unfold shard_of. by rewrite Hq.
Qed.

Lemma after_content_kept q data :
  content_kept (view b s) st' → valid_pid q → content b q = Ok data → content (after b i st') q = Ok data.
Proof using HB Hr Hs HI' Hf.
  intros Hc Hv Hq. destruct (decide (shard_index (nshards b) q = i)) as [Hi|Hi].
  - rewrite after_content by done. apply Hc; [done|]. by rewrite <- content_here.
  - by apply after_content_other.
Qed.

Lemma cached_here q f pg :
  shard_index (nshards b) q = i →
  cached b q = Some (f, pg) ↔ page_table_ s !! q = Some f ∧ page_at f (view b s) = Some pg.
Proof using HB Hr Hs HI' Hf.
  intros Hq. unfold cached. replace (shard_of b q) with (Some s); [|rewrite <- Hs; unfold shard_of; by rewrite Hq].
  simpl. destruct (page_table_ s !! q) as [g|]; simpl; [|naive_solver].
  destruct (page_at g (view b s)) as [x|] eqn:Ex; simpl; split; intros; naive_solver.
Qed.

(** Pinned pages stay where they are. *)
Lemma after_page q f pg :
  (page_table_ s !! q = Some f → page_at f (view b s) = Some pg →
   page_table_ (sh st') !! q = Some f ∧ ∃ pg', page_at f st' = Some pg' ∧ data_ pg' = data_ pg) →
  cached b q = Some (f, pg) →
  ∃ pg', cached (after b i st') q = Some (f, pg') ∧ data_ pg' = data_ pg.
Proof using HB Hr Hs HI' Hf.
  intros Hp Hc. destruct (decide (shard_index (nshards b) q = i)) as [Hi|Hi].
  - apply cached_here in Hc as [Hm Hpg]; [|done].
    destruct (Hp Hm Hpg) as [Hm' (pg' & Hpg' & Hd)]. exists pg'. split; [|done].
    unfold cached. rewrite after_shard, decide_True by done. simpl. rewrite Hm'. simpl.
    by rewrite after_view, sst_eta, Hpg'.
  - exists pg. split; [|done]. unfold cached in *. rewrite after_shard, decide_False by done.
    destruct (binv_shard b q HB) as (s' & Hs' & HI). rewrite Hs' in *. simpl in *.
    destruct (page_table_ s' !! q) as [g|] eqn:Em; simpl in *; [|done].
    destruct (si_table _ _ _ _ HI _ _ Em) as (_ & [_ Hmod] & _).
    pose proof (sf_pages _ _ _ _ Hf g ltac:(congruence)) as Hg.
    change (page_at g (view (after b i st') s')) with (page_at g st'). rewrite Hg. done.
Qed.

Lemma after_pins q f pg :
  pins_kept (view b s) st' → cached b q = Some (f, pg) → pin_count_ pg ≠ 0 →
  ∃ pg', cached (after b i st') q = Some (f, pg') ∧ data_ pg' = data_ pg.
Proof using HB Hr Hs HI' Hf. intros Hp Hc Hpin. apply after_page; [|done]. intros Hm Hpg. by eapply Hp. Qed.

Lemma after_flushed_pins q f pg :
  flushed (nshards b) i (view b s) st' → cached b q = Some (f, pg) → pin_count_ pg ≠ 0 →
  ∃ pg', cached (after b i st') q = Some (f, pg') ∧ data_ pg' = data_ pg ∧ pin_count_ pg' = pin_count_ pg.
Proof using HB Hr Hs HI' Hf.
  intros Hfl Hc Hpin. destruct (decide (shard_index (nshards b) q = i)) as [Hi|Hi].
  - destruct (after_pins q f pg (ss_pins _ _ _ _ (fl_step _ _ _ _ Hfl)) Hc Hpin) as (pg' & Hc' & Hd).
    exists pg'. split_and!; [done..|]. apply cached_here in Hc as [Hm Hpg]; [|done].
    destruct (fl_pins _ _ _ _ Hfl _ _ Hpg) as (pg2 & Hpg2 & Hpc). rewrite <- Hpc. f_equal.
    unfold cached in Hc'. rewrite after_shard, decide_True in Hc' by done. simpl in Hc'.
    rewrite (fl_table _ _ _ _ Hfl) in Hc'. simpl in Hc'. rewrite Hm in Hc'. simpl in Hc'.
    rewrite after_view, sst_eta, Hpg2 in Hc'. simpl in Hc'. congruence.
  - exists pg. split_and!; [|done..]. unfold cached in *. rewrite after_shard, decide_False by done.
    destruct (binv_shard b q HB) as (s' & Hs' & HI). rewrite Hs' in *. simpl in *.
    destruct (page_table_ s' !! q) as [g|] eqn:Em; simpl in *; [|done].
    destruct (si_table _ _ _ _ HI _ _ Em) as (_ & [_ Hmod] & _).
    pose proof (sf_pages _ _ _ _ Hf g ltac:(congruence)) as Hg.
    change (page_at g (view (after b i st') s')) with (page_at g st'). rewrite Hg. done.
Qed.
End lift.

Lemma write_frame_after b pid f pg s data :
  shard_of b pid = Some s → page_at f (view b s) = Some pg →
  write_frame f data b = after b (shard_index (nshards b) pid) (write_data f data (view b s)).
Proof.
  intros Hs Hpg. unfold write_frame, write_data, after. rewrite Hpg. simpl.
  unfold page_at in Hpg. destruct (decide (0 ≤ f)) as [H0|]; [|done]. simpl in Hpg. rewrite Hpg.
  unfold shard_of in Hs. by rewrite (list_insert_id (shards_ b)) by done.
Qed.

(** The disk and the log of the pool. *)
Definition bview b : SState D L := view b (mk_Shard ∅ [] (Lru.init 0)).

(** Every step of a run is a step of one shard, or of all of them in turn. *)
Record bstep b b' : Prop := {
  bs_inv : binv b';
  bs_shards : nshards b' = nshards b;
  bs_content : ∀ q data, valid_pid q → content b q = Ok data → content b' q = Ok data;
  bs_wal : wal_kept (bview b) (bview b');
  bs_readable : ∀ q old, valid_pid q → on_disk_is b q old → ∃ mid, on_disk_is b' q mid;
  bs_pins : ∀ q f pg, cached b q = Some (f, pg) → pin_count_ pg ≠ 0 →
    ∃ pg', cached b' q = Some (f, pg') ∧ data_ pg' = data_ pg ∧ pin_count_ pg' = pin_count_ pg
}.

Lemma bstep_refl b : binv b → bstep b b.
Proof. intros. split; [done..|by apply wal_refl|eauto|eauto]. Qed.

Lemma bstep_trans b1 b2 b3 : bstep b1 b2 → bstep b2 b3 → bstep b1 b3.
Proof.
  intros [A B C W R P] [A' B' C' W' R' P']. split; [done|congruence|eauto|by eapply wal_trans| |].
  - intros q old Hv Ho. destruct (R _ _ Hv Ho) as [mid ?]. eauto.
  - intros q f pg Hc Hp. destruct (P _ _ _ Hc Hp) as (x & Hx & Hd & Hn).
    destruct (P' _ _ _ Hx) as (y & Hy & Hd' & Hn'); [congruence|].
    exists y. split_and!; [done|congruence..].
Qed.

Lemma flush_all_loop file ks : ∀ b b',
  binv b → for_each (λ k, with_shard k (flush_shard file)) ks b = (Ok tt, b') →
  (∀ k, k ∈ ks → 0 ≤ k < nshards b) → bstep b b'.
Proof using HPL HLL.
  induction ks as [|k ks IH]; intros b b' HB E Hk; simpl in E.
  { unfold mret, M_ret in E. simplify_eq. by apply bstep_refl. }
  apply bind_inv_ok in E as ([] & b1 & E1 & E).
  destruct (Hk k) as [Hk0 Hk1]; [set_solver|]. pose proof HB as [Hn Hall].
  destruct (lookup_lt_is_Some_2 (shards_ b) (Z.to_nat k)) as [s Hs]; [unfold nshards in *; lia|].
  unfold with_shard in E1. rewrite Hs in E1. change (mk_SState s _ _ _) with (view b s) in E1.
  destruct (flush_shard file (view b s)) as [r st1] eqn:E2. simplify_eq.
  pose proof (Hall _ _ Hs) as HI. rewrite Z2Nat.id in HI by lia.
  destruct (flush_shard_ok _ _ _ _ _ HI E2) as (Hfl & _ & Hrd). destruct (fl_step _ _ _ _ Hfl) as [Hi Hf _ Hw].
  pose proof (fl_content _ _ _ _ Hfl) as Hc.
  fold (after b k st1) in E.
  assert (Hb1 : bstep b (after b k st1)).
  { split; [by eapply after_binv|by eapply after_nshards| |done..|].
    - intros. by eapply after_content_kept.
    - intros. by eapply after_flushed_pins. }
  eapply bstep_trans; [exact Hb1|]. apply IH; [apply (bs_inv _ _ Hb1)|done|].
  intros k' Hk'. rewrite (bs_shards _ _ Hb1). apply Hk. set_solver.
Qed.

(** The pages of a file whose shards were flushed are on the disk. *)
Lemma flush_all_disk file ks q data : ∀ b b',
  binv b → for_each (λ k, with_shard k (flush_shard file)) ks b = (Ok tt, b') →
  (∀ k, k ∈ ks → 0 ≤ k < nshards b) → valid_pid q → fd q = file → content b q = Ok data →
  shard_index (nshards b) q ∈ ks ∨ on_disk_is b q data → on_disk_is b' q data.
Proof using HPL HLL.
  induction ks as [|k ks IH]; intros b b' HB E Hk Hv Hq Hc Hor; simpl in E.
  { unfold mret, M_ret in E. simplify_eq. by destruct Hor as [?%elem_of_nil|?]. }
  apply bind_inv_ok in E as ([] & b1 & E1 & E).
  assert (Hb1 : bstep b b1).
  { apply (flush_all_loop file [k] b b1 HB); [simpl; by rewrite (bind_ok _ _ _ _ _ E1)|].
    intros k' ->%list_elem_of_singleton. apply Hk. by left. }
  eapply (IH b1); [apply (bs_inv _ _ Hb1)|done| |done|done|by apply (bs_content _ _ Hb1)|].
  { intros k' Hk'. rewrite (bs_shards _ _ Hb1). apply Hk. by right. }
  rewrite (bs_shards _ _ Hb1). destruct (Hk k) as [Hk0 Hk1]; [by left|]. pose proof HB as [Hn Hall].
  destruct (lookup_lt_is_Some_2 (shards_ b) (Z.to_nat k)) as [s Hs]; [unfold nshards in *; lia|].
  unfold with_shard in E1. rewrite Hs in E1. change (mk_SState s _ _ _) with (view b s) in E1.
  destruct (flush_shard file (view b s)) as [r st1] eqn:E2. simplify_eq.
  pose proof (Hall _ _ Hs) as HI. rewrite Z2Nat.id in HI by lia.
  destruct (flush_shard_ok _ _ _ _ _ HI E2) as (Hfl & Hcd & _). destruct (fl_step _ _ _ _ Hfl) as [Hi Hf _ _].
  destruct (decide (shard_index (nshards b) q = k)) as [Hix|Hix].
  - right. assert (Hsc : scontent (view b s) q = Ok data) by (rewrite <- Hc; symmetry; by apply (content_here b k s st1)).
    destruct (page_table_ s !! q) as [f|] eqn:Em; [apply Hcd; [done|done|done|simpl; by rewrite Em]|].
    apply (fl_disk _ _ _ _ Hfl); [done..|]. unfold scontent in Hsc. simpl in Hsc. by rewrite Em in Hsc.
  - destruct Hor as [[Hix'|?]%elem_of_cons|Ho]; [congruence|by left|]. right. by apply (sf_disk _ _ _ _ Hf).
Qed.

(** The effect of one step on the contents, the pinned pages and the log. *)
Record pstep_spec b (e : event) b' : Prop := {
  pp_inv : binv b';
  pp_content : ∀ q data, valid_pid q → effect (content b) e q = Ok data → content b' q = Ok data;
  pp_wal : wal_kept (bview b) (bview b');
  pp_pins : ∀ q f pg, cached b q = Some (f, pg) → pin_count_ pg ≠ 0 → (∀ data, e ≠ Write q data) → e ≠ DeleteAll (fd q) →
    ∃ pg', cached b' q = Some (f, pg') ∧ data_ pg' = data_ pg
}.

(** A step of the shard of [pid] that keeps all contents. *)
Lemma pstep_shard b pid s st' e :
  binv b → shard_of b pid = Some s → effect (content b) e = content b →
  sstep (nshards b) (shard_index (nshards b) pid) (view b s) st' → content_kept (view b s) st' →
  pstep_spec b e (after b (shard_index (nshards b) pid) st').
Proof.
  intros HB Hs He [Hi Hf Hp Hw] Hc. pose proof (shard_index_range _ pid (proj1 HB)) as Hr. split.
  - by eapply after_binv.
  - intros q data Hv. rewrite He. intros Hq. by eapply after_content_kept.
  - done.
  - intros. by eapply after_pins.
Qed.

(** A step that gives page [pid] new contents. *)
Lemma pstep_new b pid s st' e data :
  binv b → shard_of b pid = Some s →
  effect (content b) e = (λ q, if decide (q = pid) then Ok data else content b q) →
  sinv_ex (nshards b) (shard_index (nshards b) pid) None st' →
  sframe (nshards b) (shard_index (nshards b) pid) (view b s) st' →
  wal_kept (view b s) st' → scontent st' pid = Ok data →
  (∀ q old, valid_pid q → q ≠ pid → scontent (view b s) q = Ok old → scontent st' q = Ok old) →
  (∀ q f pg, cached b q = Some (f, pg) → pin_count_ pg ≠ 0 → (∀ data, e ≠ Write q data) → e ≠ DeleteAll (fd q) →
    ∃ pg', cached (after b (shard_index (nshards b) pid) st') q = Some (f, pg') ∧ data_ pg' = data_ pg) →
  pstep_spec b e (after b (shard_index (nshards b) pid) st').
Proof.
  intros HB Hs He Hi Hf Hw Hd Ho Hpin. pose proof (shard_index_range _ pid (proj1 HB)) as Hr. split.
  - by eapply after_binv.
  - intros q d Hv. rewrite He. destruct (decide (q = pid)) as [->|Hne].
    + intros [= <-]. by erewrite after_content.
    + destruct (decide (shard_index (nshards b) q = shard_index (nshards b) pid)) as [Hi'|Hi'].
      * erewrite after_content by done. erewrite content_here by done. by apply Ho.
      * by eapply after_content_other.
  - done.
  - done.
Qed.

Lemma pstep_same b e : binv b → effect (content b) e = content b → pstep_spec b e b.
Proof. intros HB He. split; [done| |by apply wal_refl|eauto]. intros q data _. by rewrite He. Qed.

Lemma fetch_pstep b pid r b' :
  binv b → valid_pid pid → fetch_page pid b = (Ok r, b') → pstep_spec b (Fetch pid r) b'.
Proof using HPL HLL.
  intros HB Hv E. destruct (binv_shard b pid HB) as (s & Hs & HI). unfold fetch_page in E.
  rewrite (in_shard_run _ _ _ _ Hs) in E. destruct (fetch_page_in pid (view b s)) as [r1 st1] eqn:E1.
  simplify_eq. destruct (fetch_ok _ _ _ _ _ _ HI Hv eq_refl E1) as (Hs1 & Hc & _).
  by eapply pstep_shard.
Qed.

Lemma new_pstep b pid r b' :
  binv b → valid_pid pid → new_page_at pid b = (Ok r, b') → pstep_spec b (NewAt pid r) b'.
Proof using HPL HLL.
  intros HB Hv E. destruct (binv_shard b pid HB) as (s & Hs & HI). unfold new_page_at in E.
  rewrite (in_shard_run _ _ _ _ Hs) in E. destruct (new_page_at_in pid (view b s)) as [r1 st1] eqn:E1.
  simplify_eq. pose proof (new_page_at_ok _ _ _ _ _ _ HI Hv eq_refl E1) as Hn. destruct r as [f|].
  - destruct Hn as ([Hi Hf Hp Hw] & _ & _ & _ & Hc & Ho & _). eapply pstep_new; try done.
    intros. by eapply after_pins; [done|apply shard_index_range, HB|done..].
  - subst st1. unfold after. simpl. unfold shard_of in Hs. rewrite (list_insert_id (shards_ b)) by done.
    destruct b. by apply pstep_same.
Qed.

Lemma cached_shard b pid f pg s :
  binv b → shard_of b pid = Some s → cached b pid = Some (f, pg) →
  page_table_ s !! pid = Some f ∧ page_at f (view b s) = Some pg.
Proof.
  intros HB Hs Hc. unfold cached in Hc. rewrite Hs in Hc. simpl in Hc.
  destruct (page_table_ s !! pid) as [g|]; simpl in Hc; [|done].
  destruct (page_at g (view b s)) as [x|] eqn:Ex; simpl in Hc; naive_solver.
Qed.

Lemma unpin_pstep b pid f pg dirty r b' :
  binv b → cached b pid = Some (f, pg) → pin_count_ pg ≠ 0 →
  dirty = true ∨ is_dirty_ pg = true ∨ on_disk_is b pid (data_ pg) →
  unpin_page pid dirty b = (r, b') → r = Ok true ∧ pstep_spec b (Unpin pid dirty) b'.
Proof.
  intros HB Hc Hp Hd E. destruct (binv_shard b pid HB) as (s & Hs & HI). unfold unpin_page in E.
  rewrite (in_shard_run _ _ _ _ Hs) in E. destruct (unpin_page_in pid dirty (view b s)) as [r1 st1] eqn:E1.
  simplify_eq. destruct (cached_shard _ _ _ _ _ HB Hs Hc) as [Hm Hpg].
  destruct (unpin_ok _ _ _ _ _ _ _ _ _ HI Hm Hpg Hp Hd E1) as (-> & Hs1 & _ & _ & Hc1 & _).
  split; [done|]. eapply pstep_shard; [done..|]. intros q old _ Hq. by rewrite Hc1.
Qed.

Lemma mapped_page b pid f s :
  shard_of b pid = Some s → sinv_ex (nshards b) (shard_index (nshards b) pid) None (view b s) →
  page_table_ s !! pid = Some f → ∃ pg, page_at f (view b s) = Some pg.
Proof. intros Hs HI Hm. destruct (si_table _ _ _ _ HI _ _ Hm) as (_ & _ & _ & _ & pg & ? & _). eauto. Qed.

Lemma after_same b pid s :
  shard_of b pid = Some s → after b (shard_index (nshards b) pid) (view b s) = b.
Proof.
  intros Hs. unfold after, shard_of in *. simpl. rewrite (list_insert_id (shards_ b)) by done. by destruct b.
Qed.

Lemma flush_pstep b pid r b' :
  binv b → flush_page pid b = (Ok r, b') → pstep_spec b (Flush pid) b'.
Proof using HPL HLL.
  intros HB E. destruct (binv_shard b pid HB) as (s & Hs & HI). unfold flush_page in E.
  rewrite (in_shard_run _ _ _ _ Hs) in E. destruct (flush_page_in pid (view b s)) as [r1 st1] eqn:E1.
  simplify_eq. destruct (page_table_ s !! pid) as [f|] eqn:Em.
  - destruct (mapped_page _ _ _ _ Hs HI Em) as [pg Hpg].
    destruct (flush_ok _ _ _ _ _ _ _ _ HI Em Hpg E1) as (_ & Hs1 & _ & _ & Hc). by eapply pstep_shard.
  - unfold flush_page_in in E1. rewrite get_bind in E1. simpl in E1. rewrite Em in E1.
    unfold mret, M_ret in E1. simplify_eq. rewrite after_same by done. by apply pstep_same.
Qed.

Lemma delete_pstep b pid r b' :
  binv b → delete_page pid b = (Ok r, b') → pstep_spec b (Delete pid r) b'.
Proof using HPL HLL.
  intros HB E. destruct (binv_shard b pid HB) as (s & Hs & HI). unfold delete_page in E.
  rewrite (in_shard_run _ _ _ _ Hs) in E. destruct (delete_page_in pid (view b s)) as [r1 st1] eqn:E1.
  simplify_eq. destruct (page_table_ s !! pid) as [f|] eqn:Em.
  - destruct (mapped_page _ _ _ _ Hs HI Em) as [pg Hpg].
    destruct (delete_ok _ _ _ _ _ _ _ _ HI Em Hpg E1) as [(_ & -> & _)|(_ & _ & Hs1 & Hc & _)].
    + rewrite after_same by done. by apply pstep_same.
    + by eapply pstep_shard.
  - unfold delete_page_in in E1. rewrite get_bind in E1. simpl in E1. rewrite Em in E1.
    unfold mret, M_ret in E1. simplify_eq. rewrite after_same by done. by apply pstep_same.
Qed.

Lemma write_pstep b pid f pg data :
  binv b → cached b pid = Some (f, pg) → pin_count_ pg ≠ 0 → is_page data →
  pstep_spec b (Write pid data) (write_frame f data b).
Proof.
  intros HB Hc Hp Hd. destruct (binv_shard b pid HB) as (s & Hs & HI).
  destruct (cached_shard _ _ _ _ _ HB Hs Hc) as [Hm Hpg].
  rewrite (write_frame_after b pid f pg s data) by done.
  destruct (write_data_ok _ _ _ _ _ data _ HI Hm Hpg Hp Hd) as (Hi & Hf & Hcq & Hoth & _).
  eapply pstep_new; try done.
  - apply wal_refl; unfold write_data; by destruct (page_at f (view b s)).
  - by rewrite Hcq, decide_True.
  - intros q old _ Hne Hq. by rewrite Hcq, decide_False.
  - intros q g x Hx Hxp Hne _. eapply after_page; try done; [apply shard_index_range, HB|].
    intros Hq Hg. destruct (Hoth q g x) as [? ?]; [done..|by intros ->; eapply Hne|].
    split; [done|]. by exists x.
Qed.

(** *** New pages *)

Definition with_disk b (d : D) : BufferPoolManager D L := mk_Bpm (pages_ b) (shards_ b) d (log_manager_ b).

(** ** The steps of the pool *)

Context `{HPA : PageAlloc D} `{HAL : !PageAllocLaws D}.

(** The page that [new_page] will number is not in the pool. *)
Definition fresh_page (file : Z) b : Prop := ∀ no d,
  pa_allocate file (disk_manager_ b) = (Ok no, d) → 0 ≤ no ∧ cached b (mk_PageId file no) = None.

Definition throws (c : call) b (x : exn) b' : Prop :=
  match c with
  | CFetch pid => valid_pid pid ∧ fetch_page pid b = (Err x, b')
  | CFlush pid => flush_page pid b = (Err x, b')
  | CNewAt pid => valid_pid pid ∧ new_page_at pid b = (Err x, b')
  | CNew file => fresh_page file b ∧ new_page file b = (Err x, b')
  | CDelete pid => delete_page pid b = (Err x, b')
  | CFlushAll file => flush_all_pages file b = (Err x, b')
  end.

(** The steps of the pool and its users: a user writes only pages it has pinned, and a page
    that differs from the disk is released as dirty. *)
Inductive pstep : BufferPoolManager D L → event → BufferPoolManager D L → Prop :=
| step_fetch b pid r b' :
    valid_pid pid → fetch_page pid b = (Ok r, b') → pstep b (Fetch pid r) b'
| step_write b pid f pg data :
    cached b pid = Some (f, pg) → pin_count_ pg ≠ 0 → is_page data →
    pstep b (Write pid data) (write_frame f data b)
| step_unpin b pid f pg dirty r b' :
    cached b pid = Some (f, pg) → pin_count_ pg ≠ 0 →
    dirty = true ∨ is_dirty_ pg = true ∨ on_disk_is b pid (data_ pg) →
    unpin_page pid dirty b = (r, b') → pstep b (Unpin pid dirty) b'
| step_flush b pid r b' :
    valid_pid pid → flush_page pid b = (Ok r, b') → pstep b (Flush pid) b'
| step_new b pid r b' :
    valid_pid pid → new_page_at pid b = (Ok r, b') → pstep b (NewAt pid r) b'
| step_new_page b file pid r b' :
    fresh_page file b → new_page file b = (Ok (pid, r), b') → pstep b (NewPage pid r) b'
| step_delete b pid r b' :
    valid_pid pid → delete_page pid b = (Ok r, b') → pstep b (Delete pid r) b'
| step_flush_all b file b' :
    flush_all_pages file b = (Ok tt, b') → pstep b (FlushAll file) b'
| step_delete_all b file r b' :
    delete_all_pages file b = (r, b') → pstep b (DeleteAll file) b'
| step_failed b c x b' :
    throws c b x b' → pstep b (Failed c x) b'.

Inductive psteps : BufferPoolManager D L → list event → BufferPoolManager D L → Prop :=
| psteps_nil b : psteps b [] b
| psteps_snoc b es b1 e b2 : psteps b es b1 → pstep b1 e b2 → psteps b (es ++ [e]) b2.

Section counters.
Context (b : BufferPoolManager D L) (d : D).
Context (Hrd : ∀ f p, ps_read f p d = ps_read f p (disk_manager_ b)) (Hwf : ps_wf (disk_manager_ b) → ps_wf d).

Lemma with_disk_binv : binv b → binv (with_disk b d).
Proof using Hrd Hwf.
  intros [Hn Hall]. split; [done|]. intros k s Hs. destruct (Hall k s Hs) as [A B C E F G H I J K W]. split; try done.
  - intros pid f pg Hm Hp Hz Hc. simpl. rewrite Hrd. by eapply K.
  - by apply Hwf.
Qed.

Lemma with_disk_content q : content (with_disk b d) q = content b q.
Proof using Hrd. unfold content. change (shard_of (with_disk b d) q) with (shard_of b q). destruct (shard_of b q) as [s|]; [|done].
  unfold scontent. simpl. destruct (page_table_ s !! q); [done|]. apply Hrd. Qed.

Lemma with_disk_wal st : wal_kept (bview (with_disk b d)) st → wal_kept (bview b) st.
Proof using Hrd. intros H l Hl Hi. destruct (H l Hl Hi) as (l' & ? & ? & ? & Hw). exists l'. split_and!; [done..|].
  intros q old data Hv Ho. apply Hw; [done|]. simpl. by rewrite Hrd. Qed.

Lemma with_disk_pstep e : binv b → effect (content b) e = content b → pstep_spec b e (with_disk b d).
Proof using Hrd Hwf.
  intros HB He. split; [by apply with_disk_binv| | |].
  - intros q data _. by rewrite He, with_disk_content.
  - apply with_disk_wal. by apply wal_refl.
  - intros q f pg Hc _ _ _. by exists pg.
Qed.
End counters.

Lemma cached_none b pid s : binv b → shard_of b pid = Some s → cached b pid = None → page_table_ s !! pid = None.
Proof.
  intros HB Hs Hc. destruct (page_table_ s !! pid) as [f|] eqn:Em; [|done]. destruct (binv_shard b pid HB) as (s' & Hs' & HI).
  rewrite Hs in Hs'. injection Hs' as <-. destruct (si_table _ _ _ _ HI _ _ Em) as (_ & _ & _ & _ & pg & Hpg & _).
  unfold cached in Hc. rewrite Hs in Hc. simpl in Hc. rewrite Em in Hc. simpl in Hc. by rewrite Hpg in Hc.
Qed.

(** The part of [new_page] behind the number of the page. *)
Lemma new_page_run file b x b' : binv b → fresh_page file b → new_page file b = (x, b') →
  (∃ e d, x = Err e ∧ pa_allocate file (disk_manager_ b) = (Err e, d) ∧ b' = with_disk b d) ∨
  ∃ no d s, let pid := mk_PageId file no in let b1 := with_disk b d in
    pa_allocate file (disk_manager_ b) = (Ok no, d) ∧ binv b1 ∧ valid_pid pid ∧ shard_of b1 pid = Some s ∧ page_table_ s !! pid = None ∧
    sinv_ex (nshards b1) (shard_index (nshards b1) pid) None (view b1 s) ∧
    let '(r, st) := (fo ← install_new_page pid; match fo with Some f => mret (Some f) | None => on_disk (pa_rollback file no);; mret None end) (view b1 s) in
    b' = after b1 (shard_index (nshards b1) pid) st ∧ x = match r with Ok fo => Ok (pid, fo) | Err e => Err e end.
Proof using HAL.
  intros HB Hfresh E. unfold new_page, on_bpm_disk, mbind at 1, M_bind at 1 in E.
  destruct (pa_allocate file (disk_manager_ b)) as [[no|e] d] eqn:Ea; [|left; exists e, d; by simplify_eq]. right. exists no, d.
  destruct (pa_allocate_keeps _ _ _ _ Ea) as [Hrd Hwf]. destruct (Hfresh no d Ea) as [Hno Hc].
  pose proof (with_disk_binv b d Hrd Hwf HB) as HB1. destruct (binv_shard (with_disk b d) (mk_PageId file no) HB1) as (s & Hs & HI). exists s. cbv zeta.
  split_and!; try done; [by eapply (cached_none (with_disk b d))|].
  fold (with_disk b d) in E. unfold mbind at 1, M_bind at 1 in E. rewrite (in_shard_run _ _ _ _ Hs) in E.
  match goal with |- context [?m (view (with_disk b d) s)] => destruct (m (view (with_disk b d) s)) as [[fo|e] st] end; unfold mret, M_ret in E; by simplify_eq.
Qed.

Lemma new_page_pstep file b pid r b' : binv b → fresh_page file b → new_page file b = (Ok (pid, r), b') → pstep_spec b (NewPage pid r) b'.
Proof using HPL HLL HAL.
  intros HB Hfresh E. destruct (new_page_run _ _ _ _ HB Hfresh E) as [(e & d & ? & _)|(no & d & s & Ea & HB1 & Hv & Hs & Hm & HI & Hrun)]; [done|].
  destruct (pa_allocate_keeps _ _ _ _ Ea) as [Hrd Hwf]. set (b1 := with_disk b d) in *. unfold mbind at 1, M_bind at 1 in Hrun.
  destruct (install_new_page (mk_PageId file no) (view b1 s)) as [[fo|e] st] eqn:Ei; [|by destruct Hrun].
  assert (new_page_at (mk_PageId file no) b1 = (Ok fo, after b1 (shard_index (nshards b1) (mk_PageId file no)) st)) as Hnew.
  { unfold new_page_at. rewrite (in_shard_run _ _ _ _ Hs). unfold new_page_at_in. rewrite get_bind. simpl. by rewrite Hm, Ei. }
  destruct fo as [f|].
  - destruct Hrun as [-> [= -> ->]]. destruct (new_pstep _ _ _ _ HB1 Hv Hnew) as [P1 P2 P3 P4]. split; [done| |by apply (with_disk_wal b d Hrd)|].
    + intros q data Hq Hd. apply P2; [done|]. simpl in *. case_decide; [done|]. unfold b1. by rewrite (with_disk_content b d Hrd).
    + intros q g x Hx Hp _ _. by apply (P4 q g x).
  - assert (new_page_at_in (mk_PageId file no) (view b1 s) = (Ok None, st)) as Hin by (unfold new_page_at_in; rewrite get_bind; simpl; by rewrite Hm).
    pose proof (new_page_at_ok _ _ _ _ _ _ HI Hv eq_refl Hin) as ->. unfold on_disk, mbind, M_bind in Hrun. simpl in Hrun.
    destruct (pa_rollback file no d) as [[y|e] d2] eqn:Er; [|by destruct Hrun]. destruct Hrun as [-> [= -> ->]].
    destruct (pa_rollback_keeps _ _ _ _ _ Er) as [Hrd2 Hwf2].
    assert (after b1 (shard_index (nshards b1) (mk_PageId file no)) (mk_SState s (pages_ b) d2 (log_manager_ b)) = with_disk b d2) as ->.
    { unfold after, with_disk. simpl. unfold shard_of in Hs. simpl in Hs. by rewrite (list_insert_id (shards_ b)) by done. }
    apply with_disk_pstep; [intros; by rewrite Hrd2, Hrd|auto|done|done].
Qed.

(** *** Dropping the pages of a file *)

Record bdrop (file : Z) b b' : Prop := {
  bd_inv : binv b';
  bd_shards : nshards b' = nshards b;
  bd_content : ∀ q data, valid_pid q → fd q ≠ file → content b q = Ok data → content b' q = Ok data;
  bd_disk : disk_manager_ b' = disk_manager_ b ∧ log_manager_ b' = log_manager_ b;
  bd_pages : ∀ q f pg, fd q ≠ file → cached b q = Some (f, pg) → ∃ pg', cached b' q = Some (f, pg') ∧ data_ pg' = data_ pg
}.

Lemma delete_all_loop file ks : ∀ b r b',
  binv b → for_each (λ k, with_shard k (delete_shard file)) ks b = (r, b') →
  (∀ k, k ∈ ks → 0 ≤ k < nshards b) → bdrop file b b'.
Proof.
  induction ks as [|k ks IH]; intros b r b' HB E Hk; simpl in E.
  { unfold mret, M_ret in E. simplify_eq. split; [done..|by eauto]. }
  destruct (Hk k) as [Hk0 Hk1]; [set_solver|]. pose proof HB as [Hn Hall].
  destruct (lookup_lt_is_Some_2 (shards_ b) (Z.to_nat k)) as [s Hs]; [unfold nshards in *; lia|].
  unfold with_shard, mbind at 1, M_bind at 1 in E. rewrite Hs in E. change (mk_SState s _ _ _) with (view b s) in E.
  destruct (delete_shard file (view b s)) as [r1 st1] eqn:E2.
  pose proof (Hall _ _ Hs) as HI. rewrite Z2Nat.id in HI by lia.
  destruct (delete_shard_ok _ _ _ _ _ _ HI E2) as (-> & [A F [Dd Dl] T S C] & _). fold (after b k st1) in E.
  assert (Hb1 : bdrop file b (after b k st1)).
  { split; [by eapply after_binv|by eapply after_nshards| |done|].
    - intros q data Hv Hq Hc. destruct (decide (shard_index (nshards b) q = k)) as [Hi|Hi].
      + erewrite after_content by done. rewrite C, <- Hc by done. symmetry. by apply (content_here b k s st1).
      + by eapply after_content_other.
    - intros q f pg Hq Hc. eapply after_page; try done. intros Hm Hpg. split; [by apply T|].
      specialize (C q Hq). unfold scontent in C. rewrite (T q f Hq Hm) in C. simpl in C. rewrite Hm, Hpg in C.
      destruct (page_at f st1) as [pg'|]; [|done]. exists pg'. split; [done|congruence]. }
  destruct (IH (after b k st1) r b') as [A' B' C' [D1 D2] E']; [apply (bd_inv _ _ _ Hb1)|done| |].
  { intros k' Hk'. rewrite (bd_shards _ _ _ Hb1). apply Hk. set_solver. }
  destruct Hb1 as [A1 B1 C1 [D3 D4] E1]. split; [done|congruence|eauto|split; congruence|].
  intros q f pg Hq Hc. destruct (E1 q f pg Hq Hc) as (x & Hx & Hd). destruct (E' q f x Hq Hx) as (y & Hy & Hd'). exists y. split; [done|congruence].
Qed.

Lemma pstep_ok b e b' : binv b → pstep b e b' → failed e = false → pstep_spec b e b'.
Proof using HPL HLL HAL.
  intros HB Hst Hnf. destruct Hst.
  - by apply fetch_pstep.
  - by eapply write_pstep.
  - by eapply unpin_pstep.
  - by eapply flush_pstep.
  - by eapply new_pstep.
  - by eapply new_page_pstep.
  - by eapply delete_pstep.
  - unfold flush_all_pages in *. rewrite get_bind in *.
    destruct (flush_all_loop file (seqZ 0 (Z.of_nat (length (shards_ b)))) b b') as [A B C W R P]; try done.
    { intros k Hk%elem_of_seqZ. unfold nshards. lia. }
    split; try done. intros q g x Hx Hxp _ _. destruct (P _ _ _ Hx Hxp) as (y & ? & ? & _). by exists y.
  - unfold delete_all_pages in *. rewrite get_bind in *.
    destruct (delete_all_loop file (seqZ 0 (Z.of_nat (length (shards_ b)))) b r b') as [A B C [D1 D2] P]; try done.
    { intros k Hk%elem_of_seqZ. unfold nshards. lia. }
    split; [done| |by apply wal_refl|].
    + intros q data Hv. simpl. case_decide; [done|]. by apply C.
    + intros q g x Hx _ _ Hne. apply P; [congruence|done].
  - done.
Qed.

(** *** Calls that throw *)

Record pfail b b' : Prop := {
  pf_wal : wal_err (bview b) (bview b');
  pf_pins : ∀ q f pg, cached b q = Some (f, pg) → pin_count_ pg ≠ 0 → ∃ pg', cached b' q = Some (f, pg') ∧ data_ pg' = data_ pg
}.

Lemma fail_lift b k s st' : binv b → 0 ≤ k < nshards b → shards_ b !! Z.to_nat k = Some s →
  sfail (nshards b) k (view b s) st' → pfail b (after b k st').
Proof.
  intros HB Hk Hs [Fl Fp Fk Fw]. split; [done|]. intros q f pg Hc Hp. destruct (binv_shard b q HB) as (s' & Hs' & HI).
  destruct (cached_shard _ _ _ _ _ HB Hs' Hc) as [Hm Hpg]. pose proof (shard_index_range _ q (proj1 HB)) as Hq. unfold cached, shard_of. simpl.
  assert (nshards (after b k st') = nshards b) as -> by (unfold nshards; simpl; by rewrite length_insert).
  destruct (decide (shard_index (nshards b) q = k)) as [<-|Hne].
  - unfold shard_of in Hs'. rewrite Hs in Hs'. injection Hs' as <-. destruct (Fk q f pg Hm Hpg Hp) as [Hm' (pg' & Hpg' & Hd)].
    rewrite list_lookup_insert_eq by (by apply lookup_lt_Some in Hs). simpl. rewrite Hm'. simpl. exists pg'. split; [|done].
    change (page_at f (view (after b (shard_index (nshards b) q) st') (sh st'))) with (page_at f st'). by rewrite Hpg'.
  - rewrite list_lookup_insert_ne by lia. unfold shard_of in Hs'. rewrite Hs'. simpl. rewrite Hm. simpl. exists pg. split; [|done].
    change (page_at f (view (after b k st') s')) with (page_at f st').
    destruct (si_table _ _ _ _ HI _ _ Hm) as (_ & [_ Hmod] & _). rewrite Fp by congruence.
    change (page_at f (view b s)) with (page_at f (view b s')). by rewrite Hpg.
Qed.

Lemma in_shard_fail {A} b pid (m : M (SState D L) A) x b' : binv b →
  (∀ s st', sinv_ex (nshards b) (shard_index (nshards b) pid) None (view b s) → shard_of b pid = Some s → m (view b s) = (Err x, st') → sfail (nshards b) (shard_index (nshards b) pid) (view b s) st') →
  in_shard pid m b = (Err x, b') → pfail b b'.
Proof.
  intros HB Hm E. destruct (binv_shard b pid HB) as (s & Hs & HI). rewrite (in_shard_run _ _ _ _ Hs) in E.
  destruct (m (view b s)) as [r st'] eqn:E1. simplify_eq. eapply fail_lift; [done|by apply shard_index_range, HB|done|]. by apply Hm.
Qed.

Lemma flush_all_fail file ks : ∀ b x b',
  binv b → for_each (λ k, with_shard k (flush_shard file)) ks b = (Err x, b') →
  (∀ k, k ∈ ks → 0 ≤ k < nshards b) → pfail b b'.
Proof using HPL HLL HAL.
  induction ks as [|k ks IH]; intros b x b' HB E Hk; simpl in E; [done|]. apply bind_inv_err in E as [E|([] & b1 & E1 & E)].
  - destruct (Hk k) as [Hk0 Hk1]; [set_solver|]. pose proof HB as [Hn Hall].
    destruct (lookup_lt_is_Some_2 (shards_ b) (Z.to_nat k)) as [s Hs]; [unfold nshards in *; lia|].
    unfold with_shard in E. rewrite Hs in E. change (mk_SState s _ _ _) with (view b s) in E.
    destruct (flush_shard file (view b s)) as [r st1] eqn:E2. simplify_eq. pose proof (Hall _ _ Hs) as HI. rewrite Z2Nat.id in HI by lia.
    eapply fail_lift; [done|done|done|]. by eapply flush_shard_fail.
  - destruct (flush_all_loop file [k] b b1 HB) as [A B C W R P].
    { simpl. by rewrite (bind_ok _ _ _ _ _ E1). } { intros k' ->%list_elem_of_singleton. apply Hk. by left. }
    destruct (IH b1 x b' A E) as [W' P']. { intros k' Hk'. rewrite B. apply Hk. by right. }
    split; [by eapply wal_err_trans|]. intros q f pg Hc Hp. destruct (P q f pg Hc Hp) as (y & Hy & Hd & Hn). destruct (P' q f y Hy) as (z & Hz & Hd'); [congruence|].
    exists z. split; [done|congruence].
Qed.

Lemma with_disk_fail b d : (∀ f p, ps_read f p d = ps_read f p (disk_manager_ b)) → pfail b (with_disk b d).
Proof.
  intros Hrd. split; [|by eauto]. apply wal_kept_err, with_disk_wal with d; [done|]. by apply wal_refl.
Qed.

Lemma new_page_fail file b x b' : binv b → fresh_page file b → new_page file b = (Err x, b') → pfail b b'.
Proof using HPL HLL HAL.
  intros HB Hfresh E. destruct (new_page_run _ _ _ _ HB Hfresh E) as [(e & d & _ & Ea & ->)|(no & d & s & Ea & HB1 & Hv & Hs & Hm & HI & Hrun)].
  { apply with_disk_fail. by apply pa_allocate_keeps in Ea as [? _]. }
  destruct (pa_allocate_keeps _ _ _ _ Ea) as [Hrd Hwf]. set (b1 := with_disk b d) in *. set (pid := mk_PageId file no) in *.
  assert (pfail b1 b') as [W P].
  { unfold mbind at 1, M_bind at 1 in Hrun. destruct (install_new_page pid (view b1 s)) as [[[f|]|e] st] eqn:Ei.
    - by destruct Hrun.
    - assert (new_page_at_in pid (view b1 s) = (Ok None, st)) as Hin by (unfold new_page_at_in; rewrite get_bind; simpl; by rewrite Hm).
      pose proof (new_page_at_ok _ _ _ _ _ _ HI Hv eq_refl Hin) as ->. unfold on_disk, mbind, M_bind in Hrun. simpl in Hrun.
      destruct (pa_rollback file no d) as [[y|e] d2] eqn:Er; [by destruct Hrun|]. destruct Hrun as [-> _].
      apply pa_rollback_keeps in Er as [Hrd2 _].
      assert (after b1 (shard_index (nshards b1) pid) (mk_SState s (pages_ b) d2 (log_manager_ b)) = with_disk b1 d2) as ->.
      { unfold after, with_disk. simpl. unfold shard_of in Hs. simpl in Hs. by rewrite (list_insert_id (shards_ b)) by done. }
      by apply with_disk_fail.
    - destruct Hrun as [-> _]. eapply fail_lift; [done|by apply shard_index_range, HB1|done|]. by eapply install_fail. }
  split; [|done]. intros l Hl Hi. destruct (W l Hl Hi) as (l' & ? & ? & Hw). exists l'. split_and!; [done..|].
  intros q old data Hq Ho. apply Hw; [done|]. simpl. by rewrite Hrd.
Qed.

Lemma throws_fail c b x b' : binv b → throws c b x b' → pfail b b'.
Proof using HPL HLL HAL.
  intros HB Ht. destruct c; simpl in Ht.
  - destruct Ht as [Hv E]. eapply in_shard_fail; [done| |exact E]. intros s st' HI _ Em. by eapply fetch_fail.
  - eapply in_shard_fail; [done| |exact Ht]. intros s st' HI _ Em. by eapply flush_fail.
  - destruct Ht as [Hv E]. eapply in_shard_fail; [done| |exact E]. intros s st' HI _ Em. by eapply new_page_at_fail.
  - destruct Ht as [Hf E]. by eapply new_page_fail.
  - eapply in_shard_fail; [done| |exact Ht]. intros s st' HI _ Em. by eapply delete_fail.
  - unfold flush_all_pages in Ht. rewrite get_bind in Ht. eapply flush_all_fail; [done|exact Ht|].
    intros k Hk%elem_of_seqZ. unfold nshards. lia.
Qed.

(** ** The initial state *)

Lemma choose_shard_count_pos k : 0 < choose_shard_count k.
Proof. unfold choose_shard_count. repeat case_decide; lia. Qed.

Lemma elem_of_shard_frames size m k f : f ∈ shard_frames size m k ↔ 0 ≤ f < size ∧ f mod m = k.
Proof. unfold shard_frames. rewrite list_elem_of_filter, elem_of_seqZ. intuition lia. Qed.

Definition blank_page : Page := mk_Page (mk_PageId 0 INVALID_PAGE_ID) reset_memory false 0.

Lemma make_bpm_shard size d (l : option L) k s :
  0 ≤ size → ps_wf d →
  shards_ (make_bpm size d : BufferPoolManager D L) !! k = Some s →
  sinv_ex (choose_shard_count size) (Z.of_nat k) None
    (mk_SState s (replicate (Z.to_nat size) blank_page) d l).
Proof.
  intros Hsz Hwf Hk. simpl in Hk. apply list_lookup_fmap_Some in Hk as (i & -> & Hi).
  apply lookup_seqZ in Hi as [-> Hk]. rewrite Z.add_0_l.
  assert (Hat : ∀ f, 0 ≤ f < size →
    page_at f (mk_SState (mk_Shard ∅ (shard_frames size (choose_shard_count size) (Z.of_nat k)) (Lru.init (Z.to_nat size)))
      (replicate (Z.to_nat size) blank_page) d l) = Some blank_page).
  { intros f Hf. unfold page_at; simpl. rewrite decide_True by lia. apply lookup_replicate. split; [done|lia]. }
  split; simpl; try done.
  - apply NoDup_filter, NoDup_seqZ.
  - intros f [Hf Hm]%elem_of_shard_frames. split_and!; [done| |].
    + split; simpl; [rewrite length_replicate; lia|done].
    + exists blank_page. split; [by apply Hat|]. done.
  - intros f [Hf Hm]. simpl in Hf. rewrite length_replicate in Hf. right; left.
    apply elem_of_shard_frames. split; [lia|done].
  - apply Lru.init_wf.
  - by rewrite length_replicate.
  - intros f Hf. unfold Lru.frames in Hf. simpl in Hf. by apply elem_of_nil in Hf.
  - intros f pg Hf. pose proof (page_at_range _ _ _ Hf) as Hr. simpl in Hr. rewrite length_replicate in Hr.
    rewrite Hat in Hf by lia. simplify_eq. simpl. split; [lia|apply reset_memory_page].
Qed.

Definition with_log (l : option L) b : BufferPoolManager D L :=
  match l with Some l => set_log_manager l b | None => b end.

Lemma make_bpm_binv size d l : 0 ≤ size → ps_wf d → binv (with_log l (make_bpm size d)).
Proof.
  intros Hsz Hwf. assert (Hn : nshards (with_log l (make_bpm size d)) = choose_shard_count size).
  { unfold nshards. pose proof (choose_shard_count_pos size). destruct l; simpl;
      rewrite length_fmap, length_seqZ; lia. }
  pose proof (choose_shard_count_pos size).
  split; [lia|]. intros k s Hk. rewrite Hn.
  assert (shards_ (make_bpm size d : BufferPoolManager D L) !! k = Some s) as Hk' by by destruct l.
  pose proof (make_bpm_shard size d l k s Hsz Hwf Hk'). by destruct l.
Qed.

Lemma make_bpm_content size d l pid :
  0 ≤ size → ps_wf d → content (with_log l (make_bpm size d)) pid = ps_read (fd pid) (page_no pid) d.
Proof.
  intros Hsz Hwf. pose proof (make_bpm_binv size d l Hsz Hwf) as HB.
  destruct (binv_shard _ pid HB) as (s & Hs & _). unfold content. rewrite Hs.
  assert (page_table_ s = ∅) as Ht.
  { unfold shard_of in Hs. destruct l; simpl in Hs;
      apply list_lookup_fmap_Some in Hs as (i & -> & _); done. }
  unfold scontent. simpl. rewrite Ht, lookup_empty. by destruct l.
Qed.

Lemma effect_mono c c' e pid data :
  (∀ q x, c q = Ok x → valid_pid q → c' q = Ok x) →
  valid_pid pid → effect c e pid = Ok data → effect c' e pid = Ok data.
Proof. intros Hc Hv. destruct e as [| | | |? []|? []| | | |]; simpl; try case_decide; eauto. Qed.

Lemma psteps_ok b es b' : binv b → psteps b es b' → Forall (λ e, failed e = false) es →
  binv b' ∧ ∀ pid data, valid_pid pid → fold_left effect es (content b) pid = Ok data → content b' pid = Ok data.
Proof using HPL HLL HAL.
  intros HB Hst. induction Hst as [b|b es b1 e b2 Hst IH He]; [done|]. intros [Hes Hfe]%Forall_app. apply (Forall_singleton _ e) in Hfe.
  destruct (IH HB Hes) as [HB1 Hc1]. destruct (pstep_ok _ _ _ HB1 He Hfe) as [HB2 Hc2 _ _].
  split; [done|]. intros pid data Hv Hd. rewrite fold_left_app in Hd. simpl in Hd.
  apply Hc2; [done|]. eapply effect_mono; [|done|exact Hd]. eauto.
Qed.

(** C3: The buffer pool is transparent.  In every run of the pool from its initial state in which
    no call throws, made of fetches, writes to pinned pages, releases, flushes, new pages and
    deletions of pages, the bytes a page has are those last written to it, or those on the disk
    at the start, however the page was evicted, flushed, deleted from the pool and fetched again.
    [delete_all_pages] drops the pages of a file: of these nothing is said from then on until
    they are written again.  Users write only pages they have pinned and release a page that
    differs from the disk as dirty; [new_page] gets a number whose page is not in the pool. *)
Theorem pool_refines (size : Z) (d : D) (l : option L) (es : list event) b :
  0 ≤ size → ps_wf d → psteps (with_log l (make_bpm size d)) es b → Forall (λ e, failed e = false) es →
  binv b ∧ ∀ pid data, valid_pid pid →
    fold_left effect es (λ q, ps_read (fd q) (page_no q) d) pid = Ok data → content b pid = Ok data.
Proof using HPL HLL HAL.
  intros Hsz Hwf Hst Hnf. destruct (psteps_ok _ _ _ (make_bpm_binv size d l Hsz Hwf) Hst Hnf) as [HB Hc].
  split; [done|]. intros pid data Hv Hd. apply Hc; [done|]. rewrite <- Hd. clear Hd Hst Hnf.
  assert (Hext : ∀ c c' : PageId → res (list byte), (∀ q, c q = c' q) → ∀ q, fold_left effect es c q = fold_left effect es c' q).
  { clear. induction es as [|e es IH]; intros c c' Hq q; simpl; [done|]. apply IH. intros q'.
    destruct e as [| | | |? []|? []| | | |]; simpl; try case_decide; done. }
  apply Hext. intros q. by apply make_bpm_content.
Qed.

(** C38: In a pool that satisfies its invariant, a successful fetch returns the frame of the
    page, pinned and holding the contents of the page; it returns no frame only when the page is not cached and every frame of the
    page's shard is pinned, and then nothing has changed. *)
Theorem fetch_page_correct b pid r b' :
  binv b → valid_pid pid → fetch_page pid b = (Ok r, b') →
  match r with
  | Some f => ∃ pg, cached b' pid = Some (f, pg) ∧ pin_count_ pg ≠ 0 ∧ id_ pg = pid ∧
                content b' pid = Ok (data_ pg) ∧
                ∀ data, content b pid = Ok data → data_ pg = data
  | None => b' = b ∧ cached b pid = None ∧
            ∀ f, 0 ≤ f < Z.of_nat (length (pages_ b)) → f mod nshards b = shard_index (nshards b) pid →
                 ∃ pg, pages_ b !! Z.to_nat f = Some pg ∧ pin_count_ pg ≠ 0
  end.
Proof using HPL HLL HAL.
  intros HB Hv E. pose proof (pp_content _ _ _ (fetch_pstep _ _ _ _ HB Hv E)) as Hkeep.
  destruct (binv_shard b pid HB) as (s & Hs & HI). unfold fetch_page in E.
  pose proof (shard_index_range _ pid (proj1 HB)) as Hr.
  rewrite (in_shard_run _ _ _ _ Hs) in E. destruct (fetch_page_in pid (view b s)) as [r1 st1] eqn:E1.
  simplify_eq. destruct (fetch_ok _ _ _ _ _ _ HI Hv eq_refl E1) as ([Hi Hf _ _] & Hc & _ & Hres).
  destruct r as [f|].
  - destruct Hres as [Hm (pg & Hpg & Hp & Hct & _)]. exists pg.
    assert (Hcon : content (after b (shard_index (nshards b) pid) st1) pid = Ok (data_ pg)).
    { by erewrite after_content. }
    destruct (si_table _ _ _ _ Hi _ _ Hm) as (_ & _ & _ & _ & x & Hx & Hxid).
    split_and!; [|done|congruence|done|].
    + unfold cached. rewrite (after_shard b _ s st1 HB Hr Hs Hi Hf), decide_True by done. simpl. rewrite Hm. simpl.
      change (view (after b (shard_index (nshards b) pid) st1) (sh st1)) with
        (mk_SState (sh st1) (pgs st1) (dsk st1) (lg st1)). by rewrite sst_eta, Hpg.
    + intros data Hd. apply (Hkeep pid data Hv) in Hd. congruence.
  - destruct Hres as (-> & Hm & Hfree & Hlru). rewrite after_same by done. split_and!; [done| |].
    + unfold cached. rewrite Hs. simpl. simpl in Hm. by rewrite Hm.
    + intros f Hf1 Hf2. destruct (si_cover _ _ _ _ HI f) as [?|[Hin|[q Hq]]]; [by split|done| |].
      * rewrite Hfree in Hin. by apply elem_of_nil in Hin.
      * destruct (si_table _ _ _ _ HI _ _ Hq) as (_ & _ & _ & _ & pg & Hpg & _). exists pg.
        unfold page_at in Hpg. rewrite decide_True in Hpg by lia. split; [done|]. intros Hz.
        pose proof (si_unpinned _ _ _ _ HI q f pg Hq) as Hu. rewrite Hlru in Hu.
        unfold page_at in Hu. rewrite decide_True in Hu by lia. by specialize (Hu Hpg Hz) as ?%elem_of_nil.
Qed.

(** C18: Write-ahead logging.  When a call of the pool changes the bytes of a page on disk, the
    log record that the new bytes name by their page LSN is durable, and no log record stops
    being durable.  This holds also of a call that throws: because a write of the log or of a page
    fails, before, between or behind the writes of pages; so a page is never written before its
    log record, whatever fails.  A call that returns also keeps the invariant of the log.  The
    call starts in a state that satisfies the invariant of the pool, as every state does that
    [pool_refines] speaks of. *)
Theorem pool_write_ahead b e b' l :
  binv b → pstep b e b' → log_manager_ b = Some l → ls_inv l →
  ∃ l', log_manager_ b' = Some l' ∧ (failed e = false → ls_inv l') ∧ (∀ x, ls_durable l x → ls_durable l' x) ∧
    ∀ pid old data, valid_pid pid → on_disk_is b pid old → on_disk_is b' pid data → data ≠ old →
      get_page_lsn data = INVALID_LSN ∨ ls_durable l' (get_page_lsn data).
Proof using HPL HLL HAL.
  intros HB Hst Hl Hinv. destruct (failed e) eqn:Hf.
  - destruct Hst as [| | | | | | | | |b c x b' Ht]; try done. destruct (pf_wal _ _ (throws_fail _ _ _ _ HB Ht) l Hl Hinv) as (l' & Hl' & Hm & Hw).
    exists l'. split_and!; [done..|]. intros pid old data Hv Ho Hd Hne. by destruct (Hw pid old data Hv Ho Hd).
  - destruct (pp_wal _ _ _ (pstep_ok _ _ _ HB Hst Hf) l Hl Hinv) as (l' & Hl' & Hi & Hm & Hw).
    exists l'. split_and!; [done..|]. intros pid old data Hv Ho Hd Hne. by destruct (Hw pid old data Hv Ho Hd).
Qed.

(** C30: A pinned page does not move: as long as it is pinned, no call of the pool evicts it or
    changes its bytes, calls that throw included.  The exceptions are a write to the page
    itself, and [delete_all_pages] of its file, which drops pinned pages too.  The call starts
    in a state that satisfies the invariant of the pool, as every state does that
    [pool_refines] speaks of. *)
Theorem pinned_page_stable b e b' pid f pg :
  binv b → pstep b e b' → cached b pid = Some (f, pg) → pin_count_ pg ≠ 0 →
  (∀ data, e ≠ Write pid data) → e ≠ DeleteAll (fd pid) →
  ∃ pg', cached b' pid = Some (f, pg') ∧ data_ pg' = data_ pg.
Proof using HPL HLL HAL.
  intros HB Hst. destruct (failed e) eqn:Hf; [|exact (pp_pins _ _ _ (pstep_ok _ _ _ HB Hst Hf) pid f pg)].
  intros Hc Hp _ _. destruct Hst as [| | | | | | | | |b c x b' Ht]; try done. by apply (pf_pins _ _ (throws_fail _ _ _ _ HB Ht)).
Qed.

End pool.

(** ** A concrete pool *)

(** A log that remembers up to which LSN it is durable. *)
#[global] Instance counter_sink : LogSink Z := {
  ls_inv := λ _, True;
  ls_flush := λ lsn l, (Ok tt, Z.max l lsn);
  ls_durable := λ l lsn, lsn ≤ l
}.
#[global] Instance counter_sink_laws : LogSinkLaws Z.
Proof. split; simpl; intros; simplify_eq/=; [split; [done|lia]|lia]. Qed.

Definition sample_pool : BufferPoolManager Disk.DiskManager Z := with_log (Some 0) (make_bpm 1 Disk.sample_disk).

Definition page0 : PageId := mk_PageId 3 0.
Definition page1 : PageId := mk_PageId 3 1.
Definition sevens : list byte := set_page_lsn 9 (replicate (Z.to_nat 4096) Byte.x07).

(** The pool after page 0 was fetched, after it was written, after it was released and after
    page 1 has taken its frame. *)
Definition pool1 := (fetch_page page0 sample_pool).2.
Definition pool2 := write_frame 0 sevens pool1.
Definition pool3 := (unpin_page page0 true pool2).2.
Definition pool4 := (fetch_page page1 pool3).2.

Lemma pool1_step : pstep sample_pool (Fetch page0 (Some 0)) pool1.
Proof. constructor; [vm_compute; congruence|vm_compute; reflexivity]. Qed.

Lemma pool2_step : pstep pool1 (Write page0 sevens) pool2.
Proof.
  eapply step_write with (pg := mk_Page page0 (replicate (Z.to_nat 4096) Byte.x01) false 1);
    [vm_compute; reflexivity|done|vm_compute; reflexivity].
Qed.

Lemma pool3_step : pstep pool2 (Unpin page0 true) pool3.
Proof.
  eapply step_unpin with (f := 0) (pg := mk_Page page0 sevens false 1) (r := Ok true);
    [vm_compute; reflexivity|done|by left|vm_compute; reflexivity].
Qed.

Lemma pool4_step : pstep pool3 (Fetch page1 (Some 0)) pool4.
Proof. constructor; [vm_compute; congruence|vm_compute; reflexivity]. Qed.

Definition sample_events : list event :=
  [Fetch page0 (Some 0); Write page0 sevens; Unpin page0 true; Fetch page1 (Some 0)].

Lemma sample_run : psteps sample_pool sample_events pool4.
Proof.
  apply (psteps_snoc _ [Fetch page0 (Some 0); Write page0 sevens; Unpin page0 true] pool3); [|apply pool4_step].
  apply (psteps_snoc _ [Fetch page0 (Some 0); Write page0 sevens] pool2); [|apply pool3_step].
  apply (psteps_snoc _ [Fetch page0 (Some 0)] pool1); [|apply pool2_step].
  apply (psteps_snoc _ [] sample_pool); [constructor|apply pool1_step].
Qed.

Lemma sample_pool_binv : binv sample_pool.
Proof. apply make_bpm_binv; [done|]. apply Disk.sample_disk_wf. Qed.

Lemma pool_binv es b : psteps sample_pool es b → Forall (λ e, failed e = false) es → binv b.
Proof. intros H Hf. eapply psteps_ok; [apply sample_pool_binv|exact H|exact Hf]. Qed.

Lemma pool3_binv : binv pool3.
Proof.
  eapply (pp_inv _ (Unpin page0 true)), pstep_ok; [|apply pool3_step|done].
  eapply (pp_inv _ (Write page0 sevens)), pstep_ok; [|apply pool2_step|done].
  eapply (pp_inv _ (Fetch page0 (Some 0))), pstep_ok; [apply sample_pool_binv|apply pool1_step|done].
Qed.

Lemma pool_refines_witness : content pool4 page0 = Ok sevens.
Proof.
  destruct (pool_refines 1 Disk.sample_disk (Some 0) sample_events pool4
    ltac:(lia) ltac:(exact Disk.sample_disk_wf) sample_run ltac:(repeat constructor)) as [_ H].
  apply H; [vm_compute; congruence|vm_compute; reflexivity].
Defined.

Lemma fetch_page_correct_witness : ∃ pg, cached pool1 page0 = Some (0, pg) ∧ pin_count_ pg ≠ 0.
Proof.
  destruct (fetch_page_correct sample_pool page0 (Some 0) pool1 sample_pool_binv
    ltac:(vm_compute; congruence) ltac:(vm_compute; reflexivity)) as (pg & H1 & H2 & _).
  exists pg. split; [exact H1|exact H2].
Defined.

Lemma pool_write_ahead_witness : ∃ l', log_manager_ pool4 = Some l' ∧ 9 ≤ l'.
Proof.
  destruct (pool_write_ahead pool3 (Fetch page1 (Some 0)) pool4 0 pool3_binv pool4_step ltac:(vm_compute; reflexivity) I)
    as (l' & H1 & _ & _ & H2).
  exists l'. split; [exact H1|].
  destruct (H2 page0 (replicate (Z.to_nat 4096) Byte.x01) sevens) as [H|H].
  - vm_compute; congruence.
  - vm_compute; reflexivity.
  - vm_compute; reflexivity.
  - vm_compute; congruence.
  - exfalso. vm_compute in H. congruence.
  - exact H.
Defined.

Lemma pinned_page_stable_witness : ∃ pg', cached pool3 page0 = Some (0, pg') ∧ data_ pg' = sevens.
Proof.
  apply (pinned_page_stable pool2 (Unpin page0 true) pool3 page0 0 (mk_Page page0 sevens false 1)).
  - eapply (pp_inv _ (Write page0 sevens)), pstep_ok; [|apply pool2_step|done].
    eapply (pp_inv _ (Fetch page0 (Some 0))), pstep_ok; [apply sample_pool_binv|apply pool1_step|done].
  - apply pool3_step.
  - vm_compute; reflexivity.
  - done.
  - done.
  - done.
Defined.

(** ** What happens when the disk read of a fetch fails *)

Definition page9 : PageId := mk_PageId 3 9.

(** A fetch of a page beyond the end of its file throws, but leaves the page in the page
    table: the next fetch of the same page succeeds and returns a blank page that is pinned
    once and was never read from the disk. *)
Theorem fetch_after_failed_read :
  (fetch_page page9 sample_pool).1 = Err InternalError ∧
  ∃ b', fetch_page page9 (fetch_page page9 sample_pool).2 = (Ok (Some 0), b') ∧
        cached b' page9 = Some (0, mk_Page page9 reset_memory false 1) ∧
        ps_read 3 9 (disk_manager_ b') = Err InternalError.
Proof. split; [vm_compute; reflexivity|]. eexists. split; [vm_compute; reflexivity|]. by vm_compute. Qed.

(** [PageId::operator<] is not a strict weak order: two page ids can each be less than
    the other. *)
Theorem PageId_lt_not_asymmetric :
  ∃ x y : PageId, PageId_lt x y = true ∧ PageId_lt y x = true.
Proof. by exists (mk_PageId 1 5), (mk_PageId 2 3). Qed.

End BpmSpec.
