(* ===== verification/PageCache.v ===== *)
(** * Interface: the buffer pool as the record and index layers see it

    A user fetches a page and gets a frame, reads and writes the bytes of the frame, marks
    the page dirty and releases it.  [pc_content] is the specification view: the bytes of
    every page.  [pc_held c pid f u] says that the user has page [pid] pinned in frame [f];
    [u] says that it holds changes the pool does not know of yet.  [pc_disk] shows the pages
    on the disk below, [pc_file_size] the size of a file as an [int].  The laws only speak of
    calls that succeed: a call may throw or find no frame. *)

From S2P Require Import Prelude Disk BufferPool BufferPoolFacts.

Class PageCache (C : Type) := {
  pc_inv : C → Prop;
  pc_content : C → PageId → res (list byte);
  pc_held : C → PageId → Z → bool → Prop;
  pc_unheld : C → PageId → Prop;
  pc_data : C → Z → option (list byte);
  pc_fetch : PageId → M C (option Z);
  pc_new_at : PageId → M C (option Z);
  pc_write : Z → list byte → C → C;
  pc_mark_dirty : Z → C → C;
  pc_unpin : PageId → bool → M C bool;
  pc_delete : PageId → M C bool;
  pc_flush_all : Z → M C unit;
  pc_disk : C → PageId → res (list byte);
  pc_file_size : Z → C → res Z;
  pc_file_length : Z → C → Z
}.

Section relations.
Context {C : Type} `{PageCache C}.

(** Contents are kept, except for the page [pid]. *)
Definition keeps_but (pid : option PageId) (c c' : C) : Prop := ∀ q d,
  BpmFacts.valid_pid q → Some q ≠ pid → pc_content c q = Ok d → pc_content c' q = Ok d.

(** The pages other than [pid] are held as before. *)
Definition others (pid : PageId) (c c' : C) : Prop := ∀ q, q ≠ pid →
  (∀ g u, pc_held c q g u → pc_held c' q g u) ∧ (pc_unheld c q → pc_unheld c' q).

Lemma keeps_but_refl o c : keeps_but o c c.
Proof. by intros q d _ _. Qed.

Lemma keeps_but_trans o c1 c2 c3 : keeps_but o c1 c2 → keeps_but o c2 c3 → keeps_but o c1 c3.
Proof. intros H1 H2 q d Hv Hq Hd. eauto. Qed.

Lemma keeps_weaken o c1 c2 : keeps_but None c1 c2 → keeps_but o c1 c2.
Proof. intros Hk q d Hv _ Hd. by apply Hk. Qed.

Lemma others_refl pid c : others pid c c.
Proof. by intros q Hq. Qed.

Lemma others_trans pid c1 c2 c3 : others pid c1 c2 → others pid c2 c3 → others pid c1 c3.
Proof. intros H1 H2 q Hq. destruct (H1 q Hq), (H2 q Hq). split; eauto. Qed.
End relations.

#[export] Hint Resolve keeps_but_refl keeps_weaken others_refl : rmdb.

Class PageCacheLaws (C : Type) `{PageCache C} := {
  pc_held_data c pid f u :
    pc_inv c → pc_held c pid f u →
    ∃ d, pc_data c f = Some d ∧ pc_content c pid = Ok d ∧ is_page d;
  pc_fetch_ok pid c f c' :
    pc_inv c → BpmFacts.valid_pid pid → pc_unheld c pid → pc_fetch pid c = (Ok (Some f), c') →
    pc_inv c' ∧ pc_held c' pid f false ∧ keeps_but None c c' ∧ others pid c c';
  pc_new_at_ok pid c f c' :
    pc_inv c → BpmFacts.valid_pid pid → pc_unheld c pid → pc_new_at pid c = (Ok (Some f), c') →
    pc_inv c' ∧ pc_held c' pid f true ∧ pc_content c' pid = Ok reset_memory ∧
    keeps_but (Some pid) c c' ∧ others pid c c';
  pc_write_ok pid c f u d :
    pc_inv c → pc_held c pid f u → is_page d →
    pc_inv (pc_write f d c) ∧ pc_held (pc_write f d c) pid f true ∧
    pc_content (pc_write f d c) pid = Ok d ∧ keeps_but (Some pid) c (pc_write f d c) ∧
    others pid c (pc_write f d c);
  pc_mark_dirty_ok pid c f u :
    pc_inv c → pc_held c pid f u →
    pc_inv (pc_mark_dirty f c) ∧ pc_held (pc_mark_dirty f c) pid f false ∧
    keeps_but None c (pc_mark_dirty f c) ∧ others pid c (pc_mark_dirty f c);
  pc_unpin_ok pid c f u dirty :
    pc_inv c → pc_held c pid f u → dirty = true ∨ u = false →
    ∃ c', pc_unpin pid dirty c = (Ok true, c') ∧ pc_inv c' ∧ pc_unheld c' pid ∧
          keeps_but None c c' ∧ others pid c c';
  pc_delete_ok pid c r c' :
    pc_inv c → BpmFacts.valid_pid pid → pc_unheld c pid → pc_delete pid c = (Ok r, c') →
    pc_inv c' ∧ pc_unheld c' pid ∧ keeps_but None c c' ∧ others pid c c';
  pc_flush_all_ok file c c' :
    pc_inv c → pc_flush_all file c = (Ok tt, c') →
    pc_inv c' ∧ keeps_but None c c' ∧
    ∀ q d, BpmFacts.valid_pid q → fd q = file → pc_content c q = Ok d → pc_disk c' q = Ok d;
  pc_file_size_ok q c d :
    0 ≤ page_no q → pc_disk c q = Ok d →
    pc_file_size (fd q) c = Ok (int32 (pc_file_length (fd q) c)) ∧
    (page_no q + 1) * PAGE_SIZE ≤ pc_file_length (fd q) c
}.
