(* ===== verification/PoolCache.v ===== *)
(** * The buffer pool provides the page cache interface

    [BufferPoolManager] with its operations is an instance of [PageCache] and satisfies its
    laws, so that the theorems proved against the interface hold of the pool. *)

From S2P Require Import Prelude Replacer Disk BufferPool BufferPoolFacts BufferPoolSpec PageCache.

Module PoolCache.
Import Bpm BpmFacts BpmSpec.

Section instance.
Context {D : Type} `{HPS : PageStore D} `{HPL : !PageStoreLaws D}.
Context {L : Type} `{HLS : LogSink L} `{HLL : !LogSinkLaws L}.

Implicit Types (b : BufferPoolManager D L) (f : Z) (pid : PageId) (pg : Page).

Definition mark_frame f b : BufferPoolManager D L :=
  match pages_ b !! Z.to_nat f with
  | Some pg => mk_Bpm (<[Z.to_nat f := mark_dirty pg]> (pages_ b)) (shards_ b) (disk_manager_ b) (log_manager_ b)
  | None => b
  end.

Definition held b pid f (u : bool) : Prop := ∃ pg, cached b pid = Some (f, pg) ∧ pin_count_ pg = 1 ∧
  (u = false → is_dirty_ pg = true ∨ on_disk_is b pid (data_ pg)).

Definition unheld b pid : Prop := ∀ f pg, cached b pid = Some (f, pg) → pin_count_ pg = 0.

#[global] Instance pool_cache : PageCache (BufferPoolManager D L) := {
  pc_inv := binv;
  pc_content := content;
  pc_held := held;
  pc_unheld := unheld;
  pc_data := λ b f, data_ <$> pages_ b !! Z.to_nat f;
  pc_fetch := fetch_page;
  pc_new_at := new_page_at;
  pc_write := write_frame;
  pc_mark_dirty := mark_frame;
  pc_unpin := unpin_page;
  pc_delete := delete_page;
  pc_flush_all := flush_all_pages;
  pc_disk := λ b q, ps_read (fd q) (page_no q) (disk_manager_ b);
  pc_file_size := λ file b, ps_size file (disk_manager_ b);
  pc_file_length := λ file b, ps_length file (disk_manager_ b)
}.

(** ** Other pages *)

Definition bquiet pid b b' : Prop := ∀ q, q ≠ pid →
  (∀ g x, cached b' q = Some (g, x) → cached b q = Some (g, x)) ∧
  (∀ g x, cached b q = Some (g, x) → pin_count_ x ≠ 0 → cached b' q = Some (g, x) ∧
     ∀ d, valid_pid q → on_disk_is b q d → on_disk_is b' q d).

Lemma cached_valid b q g x : binv b → cached b q = Some (g, x) → valid_pid q.
Proof.
  intros HB Hc. destruct (binv_shard b q HB) as (s & Hs & HI).
  destruct (cached_shard _ _ _ _ _ HB Hs Hc) as [Hm _]. by destruct (si_table _ _ _ _ HI _ _ Hm) as (_ & _ & ? & _).
Qed.

Lemma bquiet_others pid b b' : binv b → bquiet pid b b' → others pid b b'.
Proof.
  intros HB Hq q Hne. destruct (Hq q Hne) as [H1 H2]. split.
  - intros g u (x & Hc & Hp & Hu). destruct (H2 g x Hc ltac:(congruence)) as [Hc' Hd].
    exists x. split_and!; [done..|]. intros Huf. destruct (Hu Huf) as [?|?]; [by left|right].
    apply Hd; [by eapply cached_valid|done].
  - intros Hun g x Hc. by apply (Hun g), H1.
Qed.

Section lift.
Context (b : BufferPoolManager D L) (pid : PageId) (s : Shard) (st' : SState D L).
Let i := shard_index (nshards b) pid.
Context (HB : binv b) (Hs : shard_of b pid = Some s).
Context (HI' : sinv_ex (nshards b) i None st') (Hf : sframe (nshards b) i (view b s) st').

Lemma cached_after q g x :
  shard_index (nshards b) q = i →
  cached (after b i st') q = Some (g, x) ↔ page_table_ (sh st') !! q = Some g ∧ page_at g st' = Some x.
Proof using HB Hs HI' Hf.
  intros Hq. unfold cached.
  rewrite (after_shard b i s st' HB (shard_index_range _ pid (proj1 HB)) Hs HI' Hf), decide_True by done. simpl.
  destruct (page_table_ (sh st') !! q) as [g'|]; simpl; [|naive_solver].
  change (view (after b i st') (sh st')) with (mk_SState (sh st') (pgs st') (dsk st') (lg st')). rewrite sst_eta.
  destruct (page_at g' st') as [x'|] eqn:Ex; simpl; split; intros; naive_solver.
Qed.

Lemma cached_after_other q : shard_index (nshards b) q ≠ i → cached (after b i st') q = cached b q.
Proof using HB Hs HI' Hf.
  intros Hq. unfold cached.
  rewrite (after_shard b i s st' HB (shard_index_range _ pid (proj1 HB)) Hs HI' Hf), decide_False by done.
  destruct (binv_shard b q HB) as (s' & Hs' & HI). rewrite Hs'. simpl.
  destruct (page_table_ s' !! q) as [g|] eqn:Em; simpl; [|done].
  destruct (si_table _ _ _ _ HI _ _ Em) as (_ & [_ Hmod] & _).
  change (page_at g (view (after b i st') s')) with (page_at g st').
  by rewrite (sf_pages _ _ _ _ Hf g) by congruence.
Qed.

Lemma after_bquiet : quiet pid (view b s) st' → bquiet pid b (after b i st').
Proof using HB Hs HI' Hf.
  intros Hq q Hne. destruct (decide (shard_index (nshards b) q = i)) as [Hi|Hi].
  - destruct (Hq q Hne) as [H1 H2]. unfold i in *.
    pose proof (shard_index_range _ pid (proj1 HB)) as Hr.
    assert (Hhere : ∀ g x, cached b q = Some (g, x) ↔ page_table_ s !! q = Some g ∧ page_at g (view b s) = Some x).
    { intros g x. by apply (cached_here b (shard_index (nshards b) pid) s st'). }
    split.
    + intros g x Hc. apply Hhere. apply cached_after in Hc as [Hm Hx]; [|done]. by apply H1.
    + intros g x Hc Hp. apply Hhere in Hc as [Hm Hx]. destruct (H2 g x Hm Hx Hp) as (Hm' & Hx' & Hd).
      split; [by apply cached_after|]. intros d _. apply Hd.
  - rewrite cached_after_other by done. split; [done|]. intros g x Hc Hp. split; [done|].
    intros d Hv. by apply (sf_disk _ _ _ _ Hf).
Qed.
End lift.

Lemma content_kept_keeps b e b' :
  pstep_spec b e b' → effect (content b) e = content b → keeps_but None b b'.
Proof. intros Hp He q d Hv _ Hd. apply (pp_content _ _ _ Hp); [done|]. by rewrite He. Qed.

Lemma fetch_law pid b f b' :
  binv b → valid_pid pid → unheld b pid → fetch_page pid b = (Ok (Some f), b') →
  binv b' ∧ held b' pid f false ∧ keeps_but None b b' ∧ others pid b b'.
Proof using HPL HLL.
  intros HB Hv Hun E. pose proof (fetch_pstep _ _ _ _ HB Hv E) as Hp.
  destruct (binv_shard b pid HB) as (s & Hs & HI). unfold fetch_page in E.
  rewrite (in_shard_run _ _ _ _ Hs) in E. destruct (fetch_page_in pid (view b s)) as [r1 st1] eqn:E1.
  simplify_eq. destruct (fetch_ok _ _ _ _ _ _ HI Hv eq_refl E1) as ([Hi Hf _ _] & Hc & Hq & Hm & pg & Hpg & Hp0 & _ & Hone).
  split_and!.
  - apply (pp_inv _ _ _ Hp).
  - destruct Hone as [H1 Hsync].
    { intros g x Hg Hx. apply (Hun g). unfold cached. rewrite Hs. simpl. simpl in Hg. rewrite Hg. simpl. by rewrite Hx. }
    exists pg. split_and!; [by eapply (cached_after b pid s st1)|done|]. intros _. exact Hsync.
  - by eapply content_kept_keeps.
  - apply bquiet_others; [done|]. by eapply (after_bquiet b pid s st1).
Qed.

Lemma new_law pid b f b' :
  binv b → valid_pid pid → unheld b pid → new_page_at pid b = (Ok (Some f), b') →
  binv b' ∧ held b' pid f true ∧ content b' pid = Ok reset_memory ∧
  keeps_but (Some pid) b b' ∧ others pid b b'.
Proof using HPL HLL.
  intros HB Hv Hun E. pose proof (new_pstep _ _ _ _ HB Hv E) as Hp.
  destruct (binv_shard b pid HB) as (s & Hs & HI). unfold new_page_at in E.
  rewrite (in_shard_run _ _ _ _ Hs) in E. destruct (new_page_at_in pid (view b s)) as [r1 st1] eqn:E1.
  simplify_eq. destruct (new_page_at_ok _ _ _ _ _ _ HI Hv eq_refl E1) as ([Hi Hf _ _] & _ & Hm & Hpg & Hcon & Ho & Hq).
  split_and!.
  - apply (pp_inv _ _ _ Hp).
  - eexists. split; [by eapply (cached_after b pid s st1)|done].
  - apply (pp_content _ _ _ Hp); [done|]. simpl. by rewrite decide_True.
  - intros q d Hvq Hne Hd. apply (pp_content _ _ _ Hp); [done|]. simpl. rewrite decide_False; [done|congruence].
  - apply bquiet_others; [done|]. by eapply (after_bquiet b pid s st1).
Qed.

Lemma write_law pid b f u d :
  binv b → held b pid f u → is_page d →
  binv (write_frame f d b) ∧ held (write_frame f d b) pid f true ∧
  content (write_frame f d b) pid = Ok d ∧ keeps_but (Some pid) b (write_frame f d b) ∧
  others pid b (write_frame f d b).
Proof.
  intros HB (pg & Hc & Hp1 & _) Hd. assert (Hnz : pin_count_ pg ≠ 0) by lia.
  pose proof (write_pstep b pid f pg d HB Hc Hnz Hd) as Hp. pose proof (cached_valid _ _ _ _ HB Hc) as Hv.
  destruct (binv_shard b pid HB) as (s & Hs & HI).
  destruct (cached_shard _ _ _ _ _ HB Hs Hc) as [Hm Hpg].
  rewrite (write_frame_after b pid f pg s d) in * by done.
  destruct (write_data_ok _ _ _ _ _ d _ HI Hm Hpg Hnz Hd) as (Hi & Hf & Hcq & _ & Hq & Hat).
  split_and!.
  - apply (pp_inv _ _ _ Hp).
  - exists (mk_Page pid d (is_dirty_ pg) (pin_count_ pg)). split; [|split; [exact Hp1|done]].
    eapply (cached_after b pid s); [done|done|done|done|done|].
    split; [|exact Hat]. unfold write_data. rewrite Hpg. done.
  - apply (pp_content _ _ _ Hp); [done|]. simpl. by rewrite decide_True.
  - intros q e Hvq Hne He. apply (pp_content _ _ _ Hp); [done|]. simpl. rewrite decide_False; [done|congruence].
  - apply bquiet_others; [done|]. by eapply (after_bquiet b pid s).
Qed.

Lemma mark_frame_after b pid f pg s :
  shard_of b pid = Some s → page_at f (view b s) = Some pg →
  mark_frame f b = after b (shard_index (nshards b) pid) (mark_data f (view b s)).
Proof.
  intros Hs Hpg. unfold mark_frame, mark_data, after. rewrite Hpg. simpl.
  unfold page_at in Hpg. destruct (decide (0 ≤ f)) as [H0|]; [|done]. simpl in Hpg. rewrite Hpg.
  unfold shard_of in Hs. by rewrite (list_insert_id (shards_ b)) by done.
Qed.

Lemma mark_law pid b f u :
  binv b → held b pid f u →
  binv (mark_frame f b) ∧ held (mark_frame f b) pid f false ∧
  keeps_but None b (mark_frame f b) ∧ others pid b (mark_frame f b).
Proof.
  intros HB (pg & Hc & Hp1 & _). destruct (binv_shard b pid HB) as (s & Hs & HI).
  destruct (cached_shard _ _ _ _ _ HB Hs Hc) as [Hm Hpg].
  pose proof (shard_index_range _ pid (proj1 HB)) as Hr.
  rewrite (mark_frame_after b pid f pg s) by done.
  destruct (mark_data_ok _ _ _ _ _ _ HI Hm Hpg) as (Hi & Hf & Hq & Ht & Hat & Hcq).
  split_and!.
  - by eapply after_binv.
  - exists (mark_dirty pg). split; [|split; [exact Hp1|by left]].
    eapply (cached_after b pid s); [done|done|done|done|done|]. split; [by rewrite Ht|exact Hat].
  - intros q d Hvq _ Hd. eapply after_content_kept; try done. intros q' d' _. by rewrite Hcq.
  - apply bquiet_others; [done|]. by eapply (after_bquiet b pid s).
Qed.

Lemma unpin_law pid b f u dirty :
  binv b → held b pid f u → dirty = true ∨ u = false →
  ∃ b', unpin_page pid dirty b = (Ok true, b') ∧ binv b' ∧ unheld b' pid ∧
        keeps_but None b b' ∧ others pid b b'.
Proof.
  intros HB (pg & Hc & Hp1 & Hu) Hdu. assert (Hnz : pin_count_ pg ≠ 0) by lia.
  assert (Hd : dirty = true ∨ is_dirty_ pg = true ∨ on_disk_is b pid (data_ pg)).
  { destruct Hdu as [?|Huf]; [by left|right]. by apply Hu. }
  destruct (unpin_page pid dirty b) as [r b'] eqn:E. exists b'.
  destruct (unpin_pstep _ _ _ _ _ _ _ HB Hc Hnz Hd E) as [-> Hp].
  destruct (binv_shard b pid HB) as (s & Hs & HI). unfold unpin_page in E.
  rewrite (in_shard_run _ _ _ _ Hs) in E. destruct (unpin_page_in pid dirty (view b s)) as [r1 st1] eqn:E1.
  simplify_eq. destruct (cached_shard _ _ _ _ _ HB Hs Hc) as [Hm Hpg].
  destruct (unpin_ok _ _ _ _ _ _ _ _ _ HI Hm Hpg Hnz Hd E1) as (_ & [Hi Hf _ _] & Ht & Hat & _ & _ & Hq).
  split_and!; [done|apply (pp_inv _ _ _ Hp)| | |].
  - intros g x Hcx. eapply (cached_after b pid s st1) in Hcx as [Hg Hx]; [|done..].
    rewrite Ht in Hg. simpl in Hg. rewrite Hm in Hg. simplify_eq. simpl. lia.
  - by eapply content_kept_keeps.
  - apply bquiet_others; [done|]. by eapply (after_bquiet b pid s st1).
Qed.

Lemma delete_law pid b r b' :
  binv b → valid_pid pid → unheld b pid → delete_page pid b = (Ok r, b') →
  binv b' ∧ unheld b' pid ∧ keeps_but None b b' ∧ others pid b b'.
Proof using HPL HLL.
  intros HB Hv Hun E. pose proof (delete_pstep _ _ _ _ HB E) as Hp.
  destruct (binv_shard b pid HB) as (s & Hs & HI). unfold delete_page in E.
  rewrite (in_shard_run _ _ _ _ Hs) in E. destruct (delete_page_in pid (view b s)) as [r1 st1] eqn:E1.
  simplify_eq. destruct (page_table_ s !! pid) as [f|] eqn:Em.
  - destruct (mapped_page _ _ _ _ Hs HI Em) as [pg Hpg].
    destruct (delete_ok _ _ _ _ _ _ _ _ HI Em Hpg E1) as [(_ & -> & Hnz)|(_ & _ & [Hi Hf _ _] & Hc & Hn & Hq)].
    + rewrite after_same by done. split_and!; [done..|by eauto with rmdb|by eauto with rmdb].
    + split_and!; [apply (pp_inv _ _ _ Hp)| | |].
      * intros g x Hcx. eapply (cached_after b pid s st1) in Hcx as [Hg _]; [|done..]. congruence.
      * by eapply content_kept_keeps.
      * apply bquiet_others; [done|]. by eapply (after_bquiet b pid s st1).
  - unfold delete_page_in in E1. rewrite get_bind in E1. simpl in E1. rewrite Em in E1.
    unfold mret, M_ret in E1. simplify_eq. rewrite after_same by done.
    split_and!; [done..|by eauto with rmdb|by eauto with rmdb].
Qed.

Lemma flush_all_law file b b' :
  binv b → flush_all_pages file b = (Ok tt, b') →
  binv b' ∧ keeps_but None b b' ∧ ∀ q d, valid_pid q → fd q = file → content b q = Ok d → on_disk_is b' q d.
Proof using HPL HLL.
  intros HB E. unfold flush_all_pages in E. rewrite get_bind in E.
  assert (Hk : ∀ k, k ∈ seqZ 0 (Z.of_nat (length (shards_ b))) → 0 ≤ k < nshards b).
  { intros k Hk%elem_of_seqZ. unfold nshards. lia. }
  destruct (flush_all_loop file _ b b' HB E Hk) as [A _ C _ _ _]. split_and!; [done|by intros q d Hv _; apply C|].
  intros q d Hv Hq Hd. eapply flush_all_disk; [exact HB|exact E|exact Hk|done..|]. left.
  pose proof (shard_index_range _ q (proj1 HB)) as Hr. apply elem_of_seqZ. unfold nshards in *. lia.
Qed.

#[global] Instance pool_cache_laws : PageCacheLaws (BufferPoolManager D L).
Proof using HPL HLL.
  split; simpl.
  - intros b pid f u HB (pg & Hc & _). destruct (binv_shard b pid HB) as (s & Hs & HI).
    destruct (cached_shard _ _ _ _ _ HB Hs Hc) as [Hm Hpg]. exists (data_ pg). split_and!.
    + unfold page_at in Hpg. destruct (decide (0 ≤ f)); [|done]. simpl in Hpg. by rewrite Hpg.
    + unfold content. rewrite Hs. unfold scontent. simpl. by rewrite Hm, Hpg.
    + by apply (si_pages _ _ _ _ HI) in Hpg as [_ ?].
  - intros pid b f b'. apply fetch_law.
  - intros pid b f b'. apply new_law.
  - intros pid b f u d. apply write_law.
  - intros pid b f u. apply mark_law.
  - intros pid b f u dirty. apply unpin_law.
  - intros pid b r b'. apply delete_law.
  - intros file b b'. apply flush_all_law.
  - intros q b d. apply ps_read_size.
Qed.
End instance.

End PoolCache.
