(* ===== verification/RecordFile.v ===== *)
(** * Record files ([record/rm_defs.h], [rm_file_handle.{h,cpp}], [rm_manager.h], [rm_scan.{h,cpp}])

    A table is a file of pages.  Page 0 holds the file header; every other page has an LSN, a
    page header (next free page, number of records), a bitmap of the used slots and the
    slots.  Pages with a free slot form a linked list that starts in the file header.  All
    records are also kept in memory, in a map shared by the handles of a file; reads are
    served from it.

    The pages are reached through any [PageCache].  The state [Rm] is the handle that runs
    the operation together with the shared state of its file; another handle of the file
    has the same shared state, and every operation starts by copying the shared header, so
    that nothing depends on the header a handle had before. *)

From S2P Require Import Prelude Bitmap Disk BufferPool BufferPoolFacts PageCache.

Module RecFile.

Definition RM_NO_PAGE : Z := -1.
Definition RM_FILE_HDR_PAGE : Z := 0.
Definition RM_FIRST_RECORD_PAGE : Z := 1.
Definition RM_MAX_RECORD_SIZE : Z := 512.

Record Rid := mk_Rid { page_no : Z; slot_no : Z }.

#[global] Instance Rid_eq_dec : EqDecision Rid.
Proof. solve_decision. Defined.
#[global] Program Instance Rid_countable : Countable Rid :=
  inj_countable' (λ r, (page_no r, slot_no r)) (λ '(a, b), mk_Rid a b) _.
Next Obligation. by intros []. Qed.

Record RmFileHdr := mk_RmFileHdr {
  record_size : Z;
  num_pages : Z;
  num_records_per_page : Z;
  first_free_page_no : Z;
  bitmap_size : Z
}.

(** The header as the bytes of the struct. *)
Definition RmFileHdr_bytes (h : RmFileHdr) : list byte :=
  enc_int 4 (record_size h) ++ enc_int 4 (num_pages h) ++ enc_int 4 (num_records_per_page h) ++
  enc_int 4 (first_free_page_no h) ++ enc_int 4 (bitmap_size h).
Definition sizeof_RmFileHdr : Z := 20.
Definition RmFileHdr_of_bytes (bs : list byte) : RmFileHdr :=
  mk_RmFileHdr (dec_i32 (read_bytes bs 0 4)) (dec_i32 (read_bytes bs 4 4)) (dec_i32 (read_bytes bs 8 4))
    (dec_i32 (read_bytes bs 12 4)) (dec_i32 (read_bytes bs 16 4)).

(** ** The bytes of a page: [RmPageHandle]

    [page_hdr] starts after the LSN, the bitmap after the page header of two [int]s, the
    slots after the bitmap. *)

Definition OFF_NEXT : nat := 4.
Definition OFF_NUM : nat := 8.
Definition OFF_BITMAP : nat := 12.

Definition next_free_page_no (d : list byte) : Z := dec_i32 (read_bytes d OFF_NEXT 4).
Definition set_next_free_page_no (p : Z) (d : list byte) : list byte := write_bytes d OFF_NEXT (enc_int 4 p).
Definition num_records (d : list byte) : Z := dec_i32 (read_bytes d OFF_NUM 4).
Definition set_num_records (n : Z) (d : list byte) : list byte := write_bytes d OFF_NUM (enc_int 4 n).
Definition bitmap (h : RmFileHdr) (d : list byte) : list byte := read_bytes d OFF_BITMAP (Z.to_nat (bitmap_size h)).
Definition set_bitmap (bm d : list byte) : list byte := write_bytes d OFF_BITMAP bm.

Definition slot_offset (h : RmFileHdr) (s : Z) : nat :=
  (OFF_BITMAP + Z.to_nat (bitmap_size h) + Z.to_nat (s * record_size h))%nat.
Definition get_slot (h : RmFileHdr) (s : Z) (d : list byte) : list byte :=
  read_bytes d (slot_offset h s) (Z.to_nat (record_size h)).
Definition set_slot (h : RmFileHdr) (s : Z) (buf d : list byte) : list byte :=
  write_bytes d (slot_offset h s) buf.

(** ** State *)

Record SharedRecordState := mk_Shared {
  shared_hdr : RmFileHdr;
  header_loaded : bool;
  records_loaded : bool;
  active_handles : Z;
  records : gmap Z (list byte)
}.

Section file.
Context {C : Type} `{PageCache C}.

Record Rm := mk_Rm {
  cache : C;
  pageno_ : Z;                      (* the page counter of the file in the disk manager *)
  fd_ : Z;
  file_hdr_ : RmFileHdr;
  closed_ : bool;
  shared_state_ : SharedRecordState
}.

Definition set_cache (c : C) (r : Rm) : Rm :=
  mk_Rm c (pageno_ r) (fd_ r) (file_hdr_ r) (closed_ r) (shared_state_ r).
Definition set_pageno (n : Z) (r : Rm) : Rm :=
  mk_Rm (cache r) n (fd_ r) (file_hdr_ r) (closed_ r) (shared_state_ r).
Definition set_hdr (h : RmFileHdr) (r : Rm) : Rm :=
  mk_Rm (cache r) (pageno_ r) (fd_ r) h (closed_ r) (shared_state_ r).
Definition set_shared (s : SharedRecordState) (r : Rm) : Rm :=
  mk_Rm (cache r) (pageno_ r) (fd_ r) (file_hdr_ r) (closed_ r) s.

Definition set_first_free (p : Z) (r : Rm) : Rm :=
  let h := file_hdr_ r in
  set_hdr (mk_RmFileHdr (record_size h) (num_pages h) (num_records_per_page h) p (bitmap_size h)) r.
Definition set_num_pages (n : Z) (r : Rm) : Rm :=
  let h := file_hdr_ r in
  set_hdr (mk_RmFileHdr (record_size h) n (num_records_per_page h) (first_free_page_no h) (bitmap_size h)) r.

(** [shared_state_->file_hdr = file_hdr_] and the two ways to change the memory map. *)
Definition share_hdr (r : Rm) : Rm :=
  let s := shared_state_ r in
  set_shared (mk_Shared (file_hdr_ r) (header_loaded s) (records_loaded s) (active_handles s) (records s)) r.
Definition set_records (m : gmap Z (list byte)) (r : Rm) : Rm :=
  let s := shared_state_ r in
  set_shared (mk_Shared (shared_hdr s) (header_loaded s) (records_loaded s) (active_handles s) m) r.

Definition on_cache {A} (m : M C A) : M Rm A := λ r, let '(x, c) := m (cache r) in (x, set_cache c r).

(** ** Keys of the memory map *)

Definition memory_key (rid : Rid) : Z := Z.lor (Z.shiftl (page_no rid) 32) (uint32 (slot_no rid)).
Definition key_to_rid (key : Z) : Rid := mk_Rid (int32 (Z.shiftr key 32)) (int32 (Z.land key 4294967295)).

(** ** Page handles *)

(** A page handle is the page number and the frame; its reads and writes go to the frame. *)
Definition PageHandle : Type := Z * Z.

Definition read_page_data (h : PageHandle) : M Rm (list byte) := λ r,
  match pc_data (cache r) h.2 with Some d => (Ok d, r) | None => (Err Undefined, r) end.
Definition write_page_data (h : PageHandle) (d : list byte) : M Rm unit :=
  modify (λ r, set_cache (pc_write h.2 d (cache r)) r).
Definition mark_dirty (h : PageHandle) : M Rm unit :=
  modify (λ r, set_cache (pc_mark_dirty h.2 (cache r)) r).
Definition unpin (h : PageHandle) (dirty : bool) : M Rm unit :=
  r ← get; on_cache (pc_unpin (mk_PageId (fd_ r) h.1) dirty);; mret tt.

Definition ensure_open_locked : M Rm unit :=
  r ← get; if closed_ r then throw RMDBError else mret tt.

(** [file_hdr_ = shared_state_->file_hdr] *)
Definition refresh_hdr : M Rm unit := modify (λ r, set_hdr (shared_hdr (shared_state_ r)) r).

Definition fetch_page_handle_unlocked (p : Z) : M Rm PageHandle :=
  r ← get;
  if decide (p < RM_FIRST_RECORD_PAGE ∨ num_pages (file_hdr_ r) ≤ p) then throw (PageNotExistError p)
  else
    fo ← on_cache (pc_fetch (mk_PageId (fd_ r) p));
    f ← deref fo;
    mret (p, f).

Definition fetch_page_handle (p : Z) : M Rm PageHandle :=
  ensure_open_locked;; fetch_page_handle_unlocked p.

Definition create_new_page_handle_unlocked : M Rm PageHandle :=
  r ← get;
  let h := file_hdr_ r in
  let p := num_pages h in
  fo ← on_cache (pc_new_at (mk_PageId (fd_ r) p));
  match fo with
  | None => throw InternalError
  | Some f =>
      modify (set_pageno (p + 1));;
      modify (set_num_pages (int32 (p + 1)));;
      d ← read_page_data (p, f);
      write_page_data (p, f)
        (set_bitmap (Bitmap.init (bitmap_size h))
           (set_num_records 0 (set_next_free_page_no (first_free_page_no h) d)));;
      modify (set_first_free p);;
      mret (p, f)
  end.

Definition create_new_page_handle : M Rm PageHandle :=
  ensure_open_locked;; refresh_hdr;;
  ph ← create_new_page_handle_unlocked;
  modify share_hdr;;
  mret ph.

Definition create_page_handle : M Rm PageHandle :=
  r ← get;
  if decide (first_free_page_no (file_hdr_ r) = RM_NO_PAGE) then create_new_page_handle_unlocked
  else fetch_page_handle_unlocked (first_free_page_no (file_hdr_ r)).

Definition release_page_handle (ph : PageHandle) : M Rm unit :=
  r ← get;
  d ← read_page_data ph;
  write_page_data ph (set_next_free_page_no (first_free_page_no (file_hdr_ r)) d);;
  modify (set_first_free ph.1).

Definition set_next (ph : PageHandle) (p : Z) : M Rm unit :=
  d ← read_page_data ph; write_page_data ph (set_next_free_page_no p d).

(** The [while] loop of [remove_page_from_free_list]; [fuel] bounds its iterations. *)
Fixpoint unlink (fuel : nat) (ph : PageHandle) (next_free prev : Z) : M Rm unit :=
  match fuel with
  | O => throw Undefined
  | S fuel =>
      if decide (prev = RM_NO_PAGE) then set_next ph RM_NO_PAGE
      else
        prev_handle ← fetch_page_handle_unlocked prev;
        d ← read_page_data prev_handle;
        let prev_next := next_free_page_no d in
        if decide (prev_next = ph.1) then
          set_next prev_handle next_free;;
          mark_dirty prev_handle;;
          unpin prev_handle true;;
          set_next ph RM_NO_PAGE
        else
          unpin prev_handle false;;
          unlink fuel ph next_free prev_next
  end.

Definition remove_page_from_free_list (ph : PageHandle) : M Rm unit :=
  r ← get;
  d ← read_page_data ph;
  let next_free := next_free_page_no d in
  if decide (first_free_page_no (file_hdr_ r) = ph.1) then
    modify (set_first_free next_free);;
    set_next ph RM_NO_PAGE
  else unlink (S (Z.to_nat (num_pages (file_hdr_ r)))) ph next_free (first_free_page_no (file_hdr_ r)).

Definition record_exists_on_page (rid : Rid) (ph : PageHandle) : M Rm bool :=
  r ← get;
  if decide (0 ≤ slot_no rid < num_records_per_page (file_hdr_ r)) then
    d ← read_page_data ph; deref (Bitmap.is_set (bitmap (file_hdr_ r) d) (slot_no rid))
  else mret false.

(** ** Operations on records *)

Definition is_record (rid : Rid) : M Rm bool :=
  ensure_open_locked;;
  r ← get;
  mret (bool_decide (is_Some (records (shared_state_ r) !! memory_key rid))).

Definition get_record (rid : Rid) : M Rm (list byte) :=
  ensure_open_locked;;
  r ← get;
  match records (shared_state_ r) !! memory_key rid with
  | None => throw (RecordNotFoundError (page_no rid) (slot_no rid))
  | Some d => mret d
  end.

(** Storing [buf] in a slot of a page: the bytes, the bitmap and the number of records; the
    buffer holds at least [record_size] bytes. *)
Definition store_record (ph : PageHandle) (s : Z) (buf : list byte) : M Rm unit :=
  r ← get;
  let h := file_hdr_ r in
  d ← read_page_data ph;
  let d := set_slot h s (take (Z.to_nat (record_size h)) buf) d in
  bm ← deref (Bitmap.set (bitmap h d) s);
  let d := set_bitmap bm d in
  let d := set_num_records (int32 (num_records d + 1)) d in
  write_page_data ph d;;
  if decide (num_records d = num_records_per_page h) then remove_page_from_free_list ph else mret tt.

Definition remember (rid : Rid) (buf : list byte) : M Rm unit :=
  modify (λ r, set_records (<[memory_key rid := take (Z.to_nat (record_size (file_hdr_ r))) buf]>
                              (records (shared_state_ r))) r).

Definition insert_record (buf : list byte) : M Rm Rid :=
  ensure_open_locked;; refresh_hdr;;
  ph ← create_page_handle;
  r ← get;
  d ← read_page_data ph;
  s ← deref (Bitmap.first_bit false (bitmap (file_hdr_ r) d) (num_records_per_page (file_hdr_ r)));
  store_record ph s buf;;
  remember (mk_Rid ph.1 s) buf;;
  modify share_hdr;;
  mark_dirty ph;;
  unpin ph true;;
  mret (mk_Rid ph.1 s).

Definition insert_record_at (rid : Rid) (buf : list byte) : M Rm unit :=
  ensure_open_locked;; refresh_hdr;;
  ph ← fetch_page_handle_unlocked (page_no rid);
  r ← get;
  if decide (slot_no rid < 0 ∨ num_records_per_page (file_hdr_ r) ≤ slot_no rid) then
    unpin ph false;; throw (RecordNotFoundError (page_no rid) (slot_no rid))
  else
    d ← read_page_data ph;
    b ← deref (Bitmap.is_set (bitmap (file_hdr_ r) d) (slot_no rid));
    if (b : bool) then unpin ph false;; throw RMDBError
    else
      store_record ph (slot_no rid) buf;;
      remember rid buf;;
      modify share_hdr;;
      mark_dirty ph;;
      unpin ph true.

Definition delete_record (rid : Rid) : M Rm unit :=
  ensure_open_locked;; refresh_hdr;;
  ph ← fetch_page_handle_unlocked (page_no rid);
  b ← record_exists_on_page rid ph;
  if negb b then unpin ph false;; throw (RecordNotFoundError (page_no rid) (slot_no rid))
  else
    r ← get;
    let h := file_hdr_ r in
    d ← read_page_data ph;
    bm ← deref (Bitmap.reset (bitmap h d) (slot_no rid));
    let d := set_bitmap bm d in
    let d := set_num_records (int32 (num_records d - 1)) d in
    write_page_data ph d;;
    (if decide (num_records d = num_records_per_page h - 1) then release_page_handle ph else mret tt);;
    modify (λ r, set_records (delete (memory_key rid) (records (shared_state_ r))) r);;
    modify share_hdr;;
    mark_dirty ph;;
    unpin ph true.

Definition update_record (rid : Rid) (buf : list byte) : M Rm unit :=
  ensure_open_locked;; refresh_hdr;;
  ph ← fetch_page_handle_unlocked (page_no rid);
  b ← record_exists_on_page rid ph;
  if negb b then unpin ph false;; throw (RecordNotFoundError (page_no rid) (slot_no rid))
  else
    r ← get;
    let h := file_hdr_ r in
    d ← read_page_data ph;
    write_page_data ph (set_slot h (slot_no rid) (take (Z.to_nat (record_size h)) buf) d);;
    remember rid buf;;
    modify share_hdr;;
    mark_dirty ph;;
    unpin ph true.

(** [RmFileHandle::set_page_lsn] *)
Definition set_record_page_lsn (rid : Rid) (lsn : Z) : M Rm unit :=
  if decide (lsn = INVALID_LSN) then mret tt
  else
    ensure_open_locked;; refresh_hdr;;
    ph ← fetch_page_handle_unlocked (page_no rid);
    d ← read_page_data ph;
    write_page_data ph (set_page_lsn lsn d);;
    mark_dirty ph;;
    unpin ph true.

Definition reset_data_pages : M Rm unit :=
  ensure_open_locked;; refresh_hdr;;
  r ← get;
  Bpm.for_each (λ p, on_cache (pc_delete (mk_PageId (fd_ r) p));; mret tt)
    (seqZ RM_FIRST_RECORD_PAGE (num_pages (file_hdr_ r) - RM_FIRST_RECORD_PAGE));;
  modify (set_num_pages RM_FIRST_RECORD_PAGE);;
  modify (set_first_free RM_NO_PAGE);;
  modify (set_pageno RM_FIRST_RECORD_PAGE);;
  modify (set_records ∅);;
  modify share_hdr;;
  modify (λ r, let s := shared_state_ r in
    set_shared (mk_Shared (shared_hdr s) (header_loaded s) true (active_handles s) (records s)) r).

(** The order of [snapshot_rids]. *)
Definition rid_le (x y : Rid) : Prop :=
  page_no x < page_no y ∨ (page_no x = page_no y ∧ slot_no x ≤ slot_no y).
#[global] Instance rid_le_dec : RelDecision rid_le.
Proof. intros x y. unfold rid_le. apply _. Defined.

Definition snapshot_rids : M Rm (list Rid) :=
  ensure_open_locked;;
  r ← get;
  mret (merge_sort rid_le (key_to_rid <$> (map_to_list (records (shared_state_ r))).*1)).

(** One page of [load_memory_records]. *)
Definition page_records (h : RmFileHdr) (p : Z) (d : list byte) (m : gmap Z (list byte)) : gmap Z (list byte) :=
  foldl (λ m s, match Bitmap.is_set (bitmap h d) s with
                | Some true => <[memory_key (mk_Rid p s) := get_slot h s d]> m
                | _ => m
                end) m (seqZ 0 (num_records_per_page h)).

Definition load_page (p : Z) : M Rm unit :=
  r ← get;
  fo ← on_cache (pc_fetch (mk_PageId (fd_ r) p));
  f ← deref fo;
  d ← read_page_data (p, f);
  modify (λ r, set_records (page_records (file_hdr_ r) p d (records (shared_state_ r))) r);;
  unpin (p, f) false.

(** [disk_manager_->get_file_size(disk_manager_->get_file_name(fd_))] *)
Definition file_size : M Rm Z := λ r, (pc_file_size (fd_ r) (cache r), r).

Definition load_memory_records : M Rm unit :=
  r ← get;
  if records_loaded (shared_state_ r) then refresh_hdr
  else
    modify (set_records ∅);;
    size ← file_size;
    let file_pages := Z.quot size PAGE_SIZE in
    Bpm.for_each load_page
      (seqZ RM_FIRST_RECORD_PAGE (Z.min (num_pages (file_hdr_ r)) file_pages - RM_FIRST_RECORD_PAGE));;
    modify (λ r, let s := shared_state_ r in
      set_shared (mk_Shared (shared_hdr s) (header_loaded s) true (active_handles s) (records s)) r).

(** The constructor of a handle on a file whose header page holds [disk_hdr]. *)
Definition open_handle (disk_hdr : RmFileHdr) : M Rm unit :=
  modify (λ r, let s := shared_state_ r in
    if header_loaded s then r
    else set_shared (mk_Shared disk_hdr true (records_loaded s) (active_handles s) (records s)) r);;
  refresh_hdr;;
  modify (λ r, let s := shared_state_ r in
    set_shared (mk_Shared (shared_hdr s) (header_loaded s) (records_loaded s) (active_handles s + 1) (records s)) r);;
  modify (λ r, set_pageno (num_pages (file_hdr_ r)) r);;
  load_memory_records.

End file.
Arguments Rm : clear implicits.

(** ** Scans *)

Record RmScan := mk_RmScan { rids_ : list Rid; pos_ : nat; rid_ : Rid }.

Definition no_rid : Rid := mk_Rid RM_NO_PAGE RM_NO_PAGE.

Definition RmScan_init (rids : list Rid) : RmScan :=
  mk_RmScan rids 0 (match rids with [] => no_rid | r :: _ => r end).

Definition scan_next (s : RmScan) : RmScan :=
  if decide (pos_ s + 1 < length (rids_ s))%nat
  then mk_RmScan (rids_ s) (pos_ s + 1) (default no_rid (rids_ s !! (pos_ s + 1)%nat))
  else mk_RmScan (rids_ s) (length (rids_ s)) no_rid.

Definition scan_is_end (s : RmScan) : bool := bool_decide (page_no (rid_ s) = RM_NO_PAGE).

(** The loop of a scan's user: [for (; !scan.is_end(); scan.next())]. *)
Fixpoint scan_all (fuel : nat) (s : RmScan) : list Rid :=
  match fuel with
  | O => []
  | S fuel => if scan_is_end s then [] else rid_ s :: scan_all fuel (scan_next s)
  end.

(** ** Files: [RmManager] *)

Section manager.
Context (os_fd : gmap Z string → Z).

Definition make_hdr (rs : Z) : RmFileHdr :=
  let n := Z.quot (Bitmap.BITMAP_WIDTH * (PAGE_SIZE - 1 - sizeof_RmFileHdr) + 1) (1 + rs * Bitmap.BITMAP_WIDTH) in
  mk_RmFileHdr rs 1 n RM_NO_PAGE (Z.quot (n + Bitmap.BITMAP_WIDTH - 1) Bitmap.BITMAP_WIDTH).

Definition create_file (filename : string) (rs : Z) : M Disk.DiskManager unit :=
  if decide (rs < 1 ∨ RM_MAX_RECORD_SIZE < rs) then throw (InvalidRecordSizeError rs)
  else
    Disk.create_file filename;;
    fd ← Disk.open_file os_fd filename;
    Disk.write_page fd RM_FILE_HDR_PAGE (RmFileHdr_bytes (make_hdr rs));;
    Disk.close_file fd.

(** The header page as the constructor of a handle reads it. *)
Definition read_hdr (fd : Z) (d : Disk.DiskManager) : res RmFileHdr :=
  match Disk.read_page fd RM_FILE_HDR_PAGE sizeof_RmFileHdr d with
  | Ok bs => Ok (RmFileHdr_of_bytes bs)
  | Err e => Err e
  end.
End manager.

(** [RmManager::close_file]: the pages of the file are flushed.  The result is the header that
    goes to page 0 of the file and whether this was the last handle, so that the descriptor is
    closed too; these two calls of the disk manager do not touch the pool. *)
Section close.
Context {C : Type} `{PageCache C}.

Definition close_file : M (Rm C) (option (RmFileHdr * bool)) :=
  r ← get;
  if closed_ r then mret None
  else
    let s := shared_state_ r in
    let h := if decide (num_pages (shared_hdr s) < num_pages (file_hdr_ r)) then file_hdr_ r else shared_hdr s in
    let n := if decide (0 < active_handles s) then active_handles s - 1 else active_handles s in
    put (mk_Rm (cache r) (pageno_ r) (fd_ r) (file_hdr_ r) true
           (mk_Shared h (header_loaded s) (records_loaded s) n (records s)));;
    on_cache (pc_flush_all (fd_ r));;
    mret (Some (h, bool_decide (n = 0))).
End close.

End RecFile.
