(* ===== verification/RecordFacts.v ===== *)
(** * Correctness of record files

    [crep] relates the buffer pool to the pages of one file and to the pages its operations
    have pinned; the lemmas after it give every access of the record layer in these terms.
    The bytes of a page are related to its slots, and the free list to the pages with room. *)

From S2P Require Import Prelude Bitmap Disk BufferPool BufferPoolFacts PageCache RecordFile.

Module RecFacts.
Import RecFile.

(** ** Keys *)

Definition is_rid (rid : Rid) : Prop := is_int32 (page_no rid) ∧ is_int32 (slot_no rid).

Lemma key_rid rid : is_rid rid → key_to_rid (memory_key rid) = rid.
Proof.
  intros [Hp Hs]. destruct rid as [p s]. unfold key_to_rid, memory_key. simpl in *.
  assert (Hu : 0 ≤ uint32 s < 2 ^ 32) by (apply Z.mod_pos_bound; lia).
  f_equal.
  - rewrite Z.shiftr_lor, Z.shiftr_shiftl_l by lia. change (32 - 32) with 0. rewrite Z.shiftl_0_r.
    rewrite (Z.shiftr_div_pow2 (uint32 s)), (Z.div_small (uint32 s)) by lia.
    rewrite Z.lor_0_r. by apply int32_id.
  - rewrite Z.land_lor_distr_l. change 4294967295 with (Z.ones 32).
    rewrite !Z.land_ones by lia. rewrite Z.shiftl_mul_pow2, Z_mod_mult, Z.lor_0_l by lia.
    rewrite (Z.mod_small (uint32 s)) by done. rewrite wraps_wrapu by lia. by apply int32_id.
Qed.

Lemma memory_key_inj x y : is_rid x → is_rid y → memory_key x = memory_key y → x = y.
Proof. intros Hx Hy E. rewrite <- (key_rid x), <- (key_rid y), E by done. done. Qed.

(** ** The pages of a file in the buffer pool *)

Section cache.
Context {C : Type} `{HPC : PageCache C} `{HPL : !PageCacheLaws C}.

Record crep (c : C) (fd : Z) (pages : gmap Z (list byte)) (H : gmap Z (Z * bool)) : Prop := {
  cr_inv : pc_inv c;
  cr_pages : ∀ p d, pages !! p = Some d → 0 ≤ p ∧ pc_content c (mk_PageId fd p) = Ok d ∧ is_page d;
  cr_held : ∀ p f u, H !! p = Some (f, u) → pc_held c (mk_PageId fd p) f u;
  cr_unheld : ∀ p, H !! p = None → pc_unheld c (mk_PageId fd p)
}.

Lemma crep_data c fd pages H p f u d :
  crep c fd pages H → H !! p = Some (f, u) → pages !! p = Some d → pc_data c f = Some d.
Proof using HPL.
  intros HC Hh Hd. destruct (cr_pages _ _ _ _ HC _ _ Hd) as (_ & Hcon & _).
  destruct (pc_held_data c (mk_PageId fd p) f u) as (d' & Hd' & Hc' & _);
    [apply (cr_inv _ _ _ _ HC)|by apply (cr_held _ _ _ _ HC)|]. congruence.
Qed.

(** How a step on page [p] changes the relation. *)
Lemma crep_step c c' fd pages H p o d' :
  crep c fd pages H → pc_inv c' →
  keeps_but (Some (mk_PageId fd p)) c c' → others (mk_PageId fd p) c c' →
  0 ≤ p → pc_content c' (mk_PageId fd p) = Ok d' → is_page d' →
  match o with Some (f, u) => pc_held c' (mk_PageId fd p) f u | None => pc_unheld c' (mk_PageId fd p) end →
  crep c' fd (<[p := d']> pages) (partial_alter (λ _, o) p H).
Proof.
  intros [Hi Hp Hh Hu] Hi' Hk Ho H0 Hc Hd Hnew. split; [done| | |].
  - intros q d. destruct (decide (p = q)) as [->|Hne].
    + rewrite lookup_insert_eq. intros [= <-]. done.
    + rewrite lookup_insert_ne by done. intros Hq. destruct (Hp _ _ Hq) as (? & Hcq & ?).
      split_and!; [done| |done]. apply Hk; [done|congruence|done].
  - intros q f u. destruct (decide (p = q)) as [->|Hne].
    + rewrite lookup_partial_alter_eq. by intros ->.
    + rewrite lookup_partial_alter_ne by done. intros Hq. apply Ho; [congruence|]. by apply Hh.
  - intros q. destruct (decide (p = q)) as [->|Hne].
    + rewrite lookup_partial_alter_eq. by intros ->.
    + rewrite lookup_partial_alter_ne by done. intros Hq. apply Ho; [congruence|]. by apply Hu.
Qed.

Lemma crep_fetch c fd pages H p d f c' :
  crep c fd pages H → H !! p = None → pages !! p = Some d →
  pc_fetch (mk_PageId fd p) c = (Ok (Some f), c') → crep c' fd pages (<[p := (f, false)]> H).
Proof using HPL.
  intros HC Hn Hd E. destruct (cr_pages _ _ _ _ HC _ _ Hd) as (H0 & Hcon & Hpg).
  destruct (pc_fetch_ok _ _ _ _ (cr_inv _ _ _ _ HC) (H0 : BpmFacts.valid_pid (mk_PageId fd p))
    (cr_unheld _ _ _ _ HC _ Hn) E) as (Hi & Hh & Hk & Ho).
  rewrite <- (insert_id pages p d) by done.
  apply (crep_step c c' fd pages H p (Some (f, false)) d); eauto with rmdb; by apply Hk.
Qed.

Lemma crep_new c fd pages H p f c' :
  crep c fd pages H → H !! p = None → 0 ≤ p →
  pc_new_at (mk_PageId fd p) c = (Ok (Some f), c') →
  crep c' fd (<[p := reset_memory]> pages) (<[p := (f, true)]> H).
Proof using HPL.
  intros HC Hn H0 E.
  destruct (pc_new_at_ok _ _ _ _ (cr_inv _ _ _ _ HC) (H0 : BpmFacts.valid_pid (mk_PageId fd p))
    (cr_unheld _ _ _ _ HC _ Hn) E) as (Hi & Hh & Hc & Hk & Ho).
  by apply (crep_step c c' fd pages H p (Some (f, true)) reset_memory).
Qed.

Lemma crep_write c fd pages H p f u d d' :
  crep c fd pages H → H !! p = Some (f, u) → pages !! p = Some d → is_page d' →
  crep (pc_write f d' c) fd (<[p := d']> pages) (<[p := (f, true)]> H).
Proof using HPL.
  intros HC Hh Hd Hpg. destruct (cr_pages _ _ _ _ HC _ _ Hd) as (H0 & _).
  destruct (pc_write_ok _ _ _ _ d' (cr_inv _ _ _ _ HC) (cr_held _ _ _ _ HC _ _ _ Hh) Hpg) as (Hi & Hh' & Hc & Hk & Ho).
  by apply (crep_step c _ fd pages H p (Some (f, true)) d').
Qed.

Lemma crep_mark c fd pages H p f u d :
  crep c fd pages H → H !! p = Some (f, u) → pages !! p = Some d →
  crep (pc_mark_dirty f c) fd pages (<[p := (f, false)]> H).
Proof using HPL.
  intros HC Hh Hd. destruct (cr_pages _ _ _ _ HC _ _ Hd) as (H0 & Hcon & Hpg).
  destruct (pc_mark_dirty_ok _ _ _ _ (cr_inv _ _ _ _ HC) (cr_held _ _ _ _ HC _ _ _ Hh)) as (Hi & Hh' & Hk & Ho).
  rewrite <- (insert_id pages p d) by done.
  apply (crep_step c _ fd pages H p (Some (f, false)) d); eauto with rmdb; by apply Hk.
Qed.

Lemma crep_unpin c fd pages H p f u dirty d :
  crep c fd pages H → H !! p = Some (f, u) → pages !! p = Some d → dirty = true ∨ u = false →
  ∃ c', pc_unpin (mk_PageId fd p) dirty c = (Ok true, c') ∧ crep c' fd pages (delete p H).
Proof using HPL.
  intros HC Hh Hd Hdu. destruct (cr_pages _ _ _ _ HC _ _ Hd) as (H0 & Hcon & Hpg).
  destruct (pc_unpin_ok _ _ _ _ dirty (cr_inv _ _ _ _ HC) (cr_held _ _ _ _ HC _ _ _ Hh) Hdu)
    as (c' & E & Hi & Hu & Hk & Ho).
  exists c'. split; [done|]. rewrite <- (insert_id pages p d) by done.
  apply (crep_step c _ fd pages H p None d); eauto with rmdb; by apply Hk.
Qed.

Lemma crep_sub c fd pages pages' H :
  crep c fd pages H → (∀ p d, pages' !! p = Some d → pages !! p = Some d) → crep c fd pages' H.
Proof. intros [] Hs. split; eauto. Qed.
End cache.

(** ** The bytes of a page *)

(** A header whose page layout fits in a page. *)
Record geom (h : RmFileHdr) : Prop := {
  g_size : 0 < record_size h;
  g_slots : 0 < num_records_per_page h;
  g_bitmap : num_records_per_page h ≤ 8 * bitmap_size h;
  g_fits : 12 + bitmap_size h + num_records_per_page h * record_size h ≤ PAGE_SIZE
}.

Section bytes.
Context (h : RmFileHdr) (Hg : geom h).
Implicit Types d buf bm : list byte.

Abbreviation n := (num_records_per_page h).

Definition good_slot (s : Z) : Prop := 0 ≤ s < n.

Lemma slot_in_page s :
  good_slot s → (slot_offset h s + Z.to_nat (record_size h) ≤ Z.to_nat PAGE_SIZE)%nat.
Proof using Hg.
  intros Hs. destruct Hg as [H1 H2 H3 H4]. unfold slot_offset, OFF_BITMAP, good_slot in *.
  assert (s * record_size h + record_size h ≤ n * record_size h) by nia.
  assert (0 ≤ s * record_size h) by nia. assert (0 ≤ bitmap_size h) by lia. lia.
Qed.

Lemma slot_after_bitmap s :
  good_slot s → (OFF_BITMAP + Z.to_nat (bitmap_size h) ≤ slot_offset h s)%nat.
Proof using Hg. intros. unfold slot_offset. lia. Qed.

Lemma slots_disjoint s t :
  good_slot s → good_slot t → s ≠ t →
  (slot_offset h s + Z.to_nat (record_size h) ≤ slot_offset h t ∨
   slot_offset h t + Z.to_nat (record_size h) ≤ slot_offset h s)%nat.
Proof using Hg.
  intros Hs Ht Hne. destruct Hg as [H1 H2 H3 H4]. unfold slot_offset, OFF_BITMAP, good_slot in *.
  destruct (decide (s < t)).
  - left. assert (s * record_size h + record_size h ≤ t * record_size h) by nia.
    assert (0 ≤ s * record_size h) by nia. lia.
  - right. assert (t * record_size h + record_size h ≤ s * record_size h) by nia.
    assert (0 ≤ t * record_size h) by nia. lia.
Qed.

Lemma bitmap_in_page : (OFF_BITMAP + Z.to_nat (bitmap_size h) ≤ Z.to_nat PAGE_SIZE)%nat.
Proof using Hg. destruct Hg as [H1 H2 H3 H4]. unfold OFF_BITMAP. assert (0 ≤ n * record_size h) by nia. lia. Qed.

Lemma length_bitmap d : is_page d → length (bitmap h d) = Z.to_nat (bitmap_size h).
Proof using Hg.
  intros Hd. unfold bitmap, read_bytes. rewrite length_take, length_drop, Hd.
  pose proof bitmap_in_page. lia.
Qed.

Lemma page_4096 d : is_page d → length d = 4096%nat.
Proof. done. Qed.

Ltac offs := unfold OFF_NEXT, OFF_NUM, OFF_BITMAP, is_page in *; rewrite ?length_enc_int; lia.

Lemma set_next_page d p : is_page d → is_page (set_next_free_page_no p d).
Proof using. intros Hd. pose proof (page_4096 d Hd). unfold is_page, set_next_free_page_no. rewrite length_write_bytes by offs. done. Qed.

Lemma set_num_page d k : is_page d → is_page (set_num_records k d).
Proof using. intros Hd. pose proof (page_4096 d Hd). unfold is_page, set_num_records. rewrite length_write_bytes by offs. done. Qed.

Lemma set_bitmap_page d bm : is_page d → length bm = Z.to_nat (bitmap_size h) → is_page (set_bitmap bm d).
Proof using Hg.
  intros Hd Hb. unfold is_page, set_bitmap. rewrite length_write_bytes; [done|].
  rewrite Hb, Hd. apply bitmap_in_page.
Qed.

Lemma set_slot_page d s buf :
  is_page d → good_slot s → length buf = Z.to_nat (record_size h) → is_page (set_slot h s buf d).
Proof using Hg.
  intros Hd Hs Hb. unfold is_page, set_slot. rewrite length_write_bytes; [done|].
  rewrite Hb, Hd. by apply slot_in_page.
Qed.

(** What each write leaves of the other fields. *)
Lemma read_set_next d p : is_page d → is_int32 p →
  next_free_page_no (set_next_free_page_no p d) = p ∧
  num_records (set_next_free_page_no p d) = num_records d ∧
  bitmap h (set_next_free_page_no p d) = bitmap h d ∧
  (∀ s, good_slot s → get_slot h s (set_next_free_page_no p d) = get_slot h s d).
Proof using Hg.
  intros Hd Hp. pose proof (page_4096 d Hd). unfold next_free_page_no, set_next_free_page_no, num_records, bitmap, get_slot.
  split_and!.
  - rewrite <- (length_enc_int 4 p) at 2. rewrite read_write_same by offs. by apply dec_enc_i32.
  - rewrite read_write_other by offs. done.
  - apply read_write_other; offs.
  - intros s Hs. pose proof (slot_after_bitmap s Hs). apply read_write_other; offs.
Qed.

Lemma read_set_num d k : is_page d → is_int32 k →
  next_free_page_no (set_num_records k d) = next_free_page_no d ∧
  num_records (set_num_records k d) = k ∧
  bitmap h (set_num_records k d) = bitmap h d ∧
  (∀ s, good_slot s → get_slot h s (set_num_records k d) = get_slot h s d).
Proof using Hg.
  intros Hd Hp. pose proof (page_4096 d Hd). unfold next_free_page_no, set_num_records, num_records, bitmap, get_slot.
  split_and!.
  - rewrite read_write_other by offs. done.
  - rewrite <- (length_enc_int 4 k) at 2. rewrite read_write_same by offs. by apply dec_enc_i32.
  - apply read_write_other; offs.
  - intros s Hs. pose proof (slot_after_bitmap s Hs). apply read_write_other; offs.
Qed.

Lemma read_set_bitmap d bm : is_page d → length bm = Z.to_nat (bitmap_size h) →
  next_free_page_no (set_bitmap bm d) = next_free_page_no d ∧
  num_records (set_bitmap bm d) = num_records d ∧
  bitmap h (set_bitmap bm d) = bm ∧
  (∀ s, good_slot s → get_slot h s (set_bitmap bm d) = get_slot h s d).
Proof using Hg.
  intros Hd Hb. pose proof (page_4096 d Hd). pose proof bitmap_in_page as Hbp.
  change (Z.to_nat PAGE_SIZE) with 4096%nat in Hbp.
  unfold next_free_page_no, set_bitmap, num_records, bitmap, get_slot.
  split_and!.
  - rewrite read_write_other by offs. done.
  - rewrite read_write_other by offs. done.
  - rewrite <- Hb. apply read_write_same. offs.
  - intros s Hs. pose proof (slot_after_bitmap s Hs). apply read_write_other; offs.
Qed.

Lemma read_set_slot d s buf : is_page d → good_slot s → length buf = Z.to_nat (record_size h) →
  next_free_page_no (set_slot h s buf d) = next_free_page_no d ∧
  num_records (set_slot h s buf d) = num_records d ∧
  bitmap h (set_slot h s buf d) = bitmap h d ∧
  (∀ t, good_slot t → get_slot h t (set_slot h s buf d) = if decide (t = s) then buf else get_slot h t d).
Proof using Hg.
  intros Hd Hs Hb. pose proof (page_4096 d Hd). pose proof (slot_in_page s Hs) as Hsp.
  change (Z.to_nat PAGE_SIZE) with 4096%nat in Hsp. pose proof (slot_after_bitmap s Hs).
  unfold next_free_page_no, set_slot, num_records, bitmap, get_slot.
  split_and!.
  - rewrite read_write_other by offs. done.
  - rewrite read_write_other by offs. done.
  - apply read_write_other; offs.
  - intros t Ht. destruct (decide (t = s)) as [->|Hne].
    + rewrite <- Hb. apply read_write_same. offs.
    + pose proof (slots_disjoint s t Hs Ht ltac:(done)). apply read_write_other; offs.
Qed.

(** ** Slots and the number of records *)

Definition used d (s : Z) : bool := Bitmap.bit (bitmap h d) s.

Definition slot_of d (s : Z) : option (list byte) :=
  if decide (good_slot s) then if used d s then Some (get_slot h s d) else None else None.

Definition count d : Z := Z.of_nat (length (filter (λ s, used d s = true) (seqZ 0 n))).

Record page_ok d : Prop := {
  pk_page : is_page d;
  pk_count : num_records d = count d;
  pk_next : is_int32 (next_free_page_no d)
}.

Lemma count_bound d : 0 ≤ count d ≤ n.
Proof using Hg.
  unfold count. pose proof (length_filter (λ s, used d s = true) (seqZ 0 n)).
  rewrite length_seqZ in *. destruct Hg. lia.
Qed.

Lemma n_int32 : 0 < n ≤ PAGE_SIZE.
Proof using Hg. destruct Hg. unfold PAGE_SIZE in *. nia. Qed.
End bytes.

Lemma filter_flip (P Q : Z → Prop) `{!∀ x, Decision (P x), !∀ x, Decision (Q x)} (l : list Z) (x : Z) :
  NoDup l → x ∈ l → ¬ P x → Q x → (∀ y, y ≠ x → P y ↔ Q y) →
  length (filter Q l) = S (length (filter P l)).
Proof.
  intros Hnd Hx HP HQ Hs. induction Hnd as [|y l Hy Hnd IH]; [by apply elem_of_nil in Hx|].
  apply elem_of_cons in Hx as [<-|Hx].
  - rewrite filter_cons_True, filter_cons_False by done. simpl. f_equal. f_equal.
    apply filter_ext_in. intros z Hz. symmetry. apply Hs. by intros ->.
  - assert (y ≠ x) as Hyx by (by intros ->). specialize (IH Hx). destruct (decide (P y)) as [Hp|Hp].
    + rewrite !filter_cons_True by (done || by apply Hs). simpl. by rewrite IH.
    + rewrite !filter_cons_False by (done || by rewrite <- Hs). done.
Qed.

(** ** The effect of the operations on a page *)

Section page_effects.
Context (h : RmFileHdr) (Hg : geom h).
Implicit Types d buf bm : list byte.
Abbreviation n := (num_records_per_page h).

Lemma slot_in_bitmap d s : is_page d → good_slot h s → Bitmap.in_bitmap (bitmap h d) s.
Proof using Hg.
  intros Hd [H0 H1]. unfold Bitmap.in_bitmap. rewrite length_bitmap by done. destruct Hg. lia.
Qed.

(** Equal bitmaps and slots give equal views. *)
Lemma slot_of_ext d d' :
  bitmap h d' = bitmap h d → (∀ s, good_slot h s → get_slot h s d' = get_slot h s d) →
  (∀ s, slot_of h d' s = slot_of h d s) ∧ count h d' = count h d.
Proof using.
  intros Hb Hs. unfold slot_of, count, used. rewrite Hb. split; [|done].
  intros s. case_decide; [|done]. by rewrite Hs.
Qed.

Lemma set_next_effect d p :
  page_ok h d → is_int32 p →
  page_ok h (set_next_free_page_no p d) ∧ next_free_page_no (set_next_free_page_no p d) = p ∧
  num_records (set_next_free_page_no p d) = num_records d ∧
  ∀ s, slot_of h (set_next_free_page_no p d) s = slot_of h d s.
Proof using Hg.
  intros [Hd Hc Hn] Hp. destruct (read_set_next h Hg d p Hd Hp) as (H1 & H2 & H3 & H4).
  destruct (slot_of_ext d (set_next_free_page_no p d) H3 H4) as [H5 H6].
  split_and!; try done. split; [by apply set_next_page|congruence|by rewrite H1].
Qed.

(** Any change of bitmap, slot bytes and record number that agrees on the count. *)
Lemma flip_effect d d' s (b : bool) bm :
  page_ok h d → is_page d' → good_slot h s → used h d s = negb b →
  bitmap h d' = bm →
  (∀ q, 0 ≤ q → Bitmap.bit bm q = if decide (q = s) then b else Bitmap.bit (bitmap h d) q) →
  next_free_page_no d' = next_free_page_no d →
  num_records d' = num_records d + (if b then 1 else -1) → page_ok h d'.
Proof using Hg.
  intros [Hd Hc Hn] Hd' [Hs0 Hs1] Hu Hb Hbit Hnx Hnr.
  assert (Hin : s ∈ seqZ 0 n) by (apply elem_of_seqZ; lia).
  assert (Hv : ∀ q, q ∈ seqZ 0 n → used h d' q = if decide (q = s) then b else used h d q).
  { intros q Hq%elem_of_seqZ. unfold used. rewrite Hb, Hbit by lia. done. }
  split; [done| |congruence]. rewrite Hnr, Hc. unfold count.
  set (P := λ q, used h d q = true).
  set (Q := λ q, (if decide (q = s) then b else used h d q) = true).
  assert (filter (λ q, used h d' q = true) (seqZ 0 n) = filter Q (seqZ 0 n)) as ->.
  { apply filter_ext_in. intros q Hq. unfold Q. by rewrite Hv. }
  assert (HPQ : ∀ q, q ≠ s → P q ↔ Q q) by (intros q Hq; unfold P, Q; by rewrite decide_False).
  destruct b; simpl in *.
  - rewrite (filter_flip P Q (seqZ 0 n) s); [lia|apply NoDup_seqZ|done| | |done].
    + unfold P. by rewrite Hu.
    + unfold Q. by rewrite decide_True.
  - rewrite (filter_flip Q P (seqZ 0 n) s); [lia|apply NoDup_seqZ|done| | |].
    + unfold Q. by rewrite decide_True.
    + unfold P. by rewrite Hu.
    + intros q Hq. symmetry. by apply HPQ.
Qed.

Definition stored s buf bm d : list byte :=
  let d := set_bitmap bm (set_slot h s buf d) in set_num_records (int32 (num_records d + 1)) d.

Lemma store_effect d s buf :
  page_ok h d → good_slot h s → used h d s = false → length buf = Z.to_nat (record_size h) →
  ∃ bm, Bitmap.set (bitmap h (set_slot h s buf d)) s = Some bm ∧
        page_ok h (stored s buf bm d) ∧ num_records (stored s buf bm d) = num_records d + 1 ∧
        next_free_page_no (stored s buf bm d) = next_free_page_no d ∧
        ∀ t, slot_of h (stored s buf bm d) t = if decide (t = s) then Some buf else slot_of h d t.
Proof using Hg.
  intros Hok Hs Hu Hb. pose proof Hok as [Hd Hc Hn].
  destruct (read_set_slot h Hg d s buf Hd Hs Hb) as (A1 & A2 & A3 & A4).
  pose proof (set_slot_page h Hg d s buf Hd Hs Hb) as Hd1.
  destruct (Bitmap.set_spec (bitmap h (set_slot h s buf d)) s) as (bm & E & Hl & Hbit);
    [by apply slot_in_bitmap|].
  assert (Hlb : length bm = Z.to_nat (bitmap_size h)) by (rewrite Hl; by apply length_bitmap).
  destruct (read_set_bitmap h Hg _ bm Hd1 Hlb) as (B1 & B2 & B3 & B4).
  pose proof (set_bitmap_page h Hg _ bm Hd1 Hlb) as Hd2.
  pose proof (count_bound h Hg d) as Hcb. pose proof (n_int32 h Hg) as Hni. unfold PAGE_SIZE in Hni.
  assert (Hk : int32 (num_records (set_bitmap bm (set_slot h s buf d)) + 1) = num_records d + 1).
  { rewrite B2, A2. apply int32_id. unfold is_int32. lia. }
  destruct (read_set_num h Hg _ (num_records d + 1) Hd2) as (C1 & C2 & C3 & C4); [unfold is_int32; lia|].
  exists bm. unfold stored. rewrite Hk. split; [done|]. split_and!; [|done|congruence|].
  - apply (flip_effect d _ s true bm); [done|by apply set_num_page|done|done|congruence| |congruence|done].
    intros q Hq. rewrite Hbit by done. rewrite A3.
    destruct (decide (q = s)) as [->|Hne].
    + by rewrite bool_decide_true.
    + by rewrite bool_decide_false by congruence.
  - intros t. unfold slot_of. case_decide as Ht; [|rewrite decide_False by congruence; done].
    unfold used. rewrite C3, B3, Hbit, A3 by (destruct Ht; lia). rewrite C4, B4, A4 by done.
    destruct (decide (t = s)) as [->|Hne].
    + by rewrite bool_decide_true.
    + by rewrite bool_decide_false by congruence.
Qed.

Definition erased bm d : list byte :=
  let d := set_bitmap bm d in set_num_records (int32 (num_records d - 1)) d.

Lemma erase_effect d s :
  page_ok h d → good_slot h s → used h d s = true →
  ∃ bm, Bitmap.reset (bitmap h d) s = Some bm ∧
        page_ok h (erased bm d) ∧ num_records (erased bm d) = num_records d - 1 ∧
        next_free_page_no (erased bm d) = next_free_page_no d ∧
        ∀ t, slot_of h (erased bm d) t = if decide (t = s) then None else slot_of h d t.
Proof using Hg.
  intros Hok Hs Hu. pose proof Hok as [Hd Hc Hn].
  destruct (Bitmap.reset_spec (bitmap h d) s) as (bm & E & Hl & Hbit); [by apply slot_in_bitmap|].
  assert (Hlb : length bm = Z.to_nat (bitmap_size h)) by (rewrite Hl; by apply length_bitmap).
  destruct (read_set_bitmap h Hg _ bm Hd Hlb) as (B1 & B2 & B3 & B4).
  pose proof (set_bitmap_page h Hg _ bm Hd Hlb) as Hd2.
  pose proof (count_bound h Hg d) as Hcb. pose proof (n_int32 h Hg) as Hni. unfold PAGE_SIZE in Hni.
  assert (Hk : int32 (num_records (set_bitmap bm d) - 1) = num_records d - 1).
  { rewrite B2. apply int32_id. unfold is_int32. lia. }
  destruct (read_set_num h Hg _ (num_records d - 1) Hd2) as (C1 & C2 & C3 & C4); [unfold is_int32; lia|].
  exists bm. unfold erased. rewrite Hk. split; [done|]. split_and!; [|done|congruence|].
  - apply (flip_effect d _ s false bm); [done|by apply set_num_page|done|done|congruence| |congruence|rewrite C2; lia].
    intros q Hq. rewrite Hbit by done.
    destruct (decide (q = s)) as [->|Hne].
    + by rewrite bool_decide_true.
    + by rewrite bool_decide_false by congruence.
  - intros t. unfold slot_of. case_decide as Ht; [|by destruct (decide (t = s))].
    unfold used. rewrite C3, B3, Hbit by (destruct Ht; lia). rewrite C4, B4 by done.
    destruct (decide (t = s)) as [->|Hne].
    + by rewrite bool_decide_true.
    + by rewrite bool_decide_false by congruence.
Qed.

Lemma update_effect d s buf :
  page_ok h d → good_slot h s → used h d s = true → length buf = Z.to_nat (record_size h) →
  page_ok h (set_slot h s buf d) ∧ num_records (set_slot h s buf d) = num_records d ∧
  next_free_page_no (set_slot h s buf d) = next_free_page_no d ∧
  ∀ t, slot_of h (set_slot h s buf d) t = if decide (t = s) then Some buf else slot_of h d t.
Proof using Hg.
  intros Hok Hs Hu Hb. pose proof Hok as [Hd Hc Hn].
  destruct (read_set_slot h Hg d s buf Hd Hs Hb) as (A1 & A2 & A3 & A4).
  split_and!; [|done..|].
  - split; [by apply set_slot_page| |congruence]. unfold count, used in *. by rewrite A3, A2.
  - intros t. unfold slot_of. case_decide as Ht; [|rewrite decide_False by congruence; done].
    unfold used in *. rewrite A3, A4 by done. destruct (decide (t = s)) as [->|]; [by rewrite Hu|done].
Qed.

(** A new page: no slot is used. *)
Definition fresh_page (next : Z) : list byte :=
  set_bitmap (Bitmap.init (bitmap_size h)) (set_num_records 0 (set_next_free_page_no next reset_memory)).

Lemma fresh_effect next :
  is_int32 next →
  page_ok h (fresh_page next) ∧ num_records (fresh_page next) = 0 ∧
  next_free_page_no (fresh_page next) = next ∧ ∀ t, slot_of h (fresh_page next) t = None.
Proof using Hg.
  intros Hnx. pose proof BpmFacts.reset_memory_page as Hd0.
  destruct (read_set_next h Hg _ next Hd0 Hnx) as (A1 & A2 & A3 & A4).
  pose proof (set_next_page _ next Hd0) as Hd1.
  destruct (read_set_num h Hg _ 0 Hd1) as (B1 & B2 & B3 & B4); [done|].
  pose proof (set_num_page _ 0 Hd1) as Hd2.
  assert (Hl : length (Bitmap.init (bitmap_size h)) = Z.to_nat (bitmap_size h)) by apply length_replicate.
  destruct (read_set_bitmap h Hg _ _ Hd2 Hl) as (C1 & C2 & C3 & C4).
  pose proof (set_bitmap_page h Hg _ _ Hd2 Hl) as Hd3. fold (fresh_page next) in *.
  assert (Hu : ∀ t, used h (fresh_page next) t = false).
  { intros t. unfold used. rewrite C3. apply Bitmap.init_bit. }
  split_and!; [|congruence..|].
  - split; [done| |congruence]. rewrite C2, B2. unfold count.
    assert (filter (λ s, used h (fresh_page next) s = true) (seqZ 0 n) = []) as ->; [|done].
    induction (seqZ 0 n) as [|x l IH]; [done|]. rewrite filter_cons_False by (by rewrite Hu). done.
  - intros t. unfold slot_of. rewrite Hu. by case_decide.
Qed.

(** A page that is not full has a free slot, and [first_bit] finds it. *)
Lemma free_slot d :
  page_ok h d → num_records d < n →
  ∃ s, Bitmap.first_bit false (bitmap h d) n = Some s ∧ good_slot h s ∧ used h d s = false.
Proof using Hg.
  intros [Hd Hc Hn] Hlt. pose proof (g_slots _ Hg).
  destruct (Bitmap.next_bit_spec (bitmap h d) false n (-1)) as (s & E & Hs & Hbefore & Hat).
  { lia. } { rewrite length_bitmap by done. destruct Hg. lia. }
  exists s. split; [done|]. destruct (decide (s = n)) as [->|Hne].
  - exfalso. rewrite Hc in Hlt. unfold count in Hlt.
    assert (filter (λ q, used h d q = true) (seqZ 0 n) = seqZ 0 n) as Hall.
    { clear -Hbefore Hs. assert (Hq : ∀ q, q ∈ seqZ 0 n → used h d q = true).
      { intros q Hq%elem_of_seqZ. specialize (Hbefore q ltac:(lia)). unfold used. by destruct (Bitmap.bit _ _). }
      revert Hq. generalize (seqZ 0 n). induction l as [|x l IH]; intros Hq; [done|].
      rewrite filter_cons_True by (apply Hq; set_solver). f_equal. apply IH. set_solver. }
    rewrite Hall, length_seqZ in Hlt. lia.
  - split; [unfold good_slot; lia|]. apply Hat. lia.
Qed.

End page_effects.

(** ** The free list *)

Fixpoint chain (pages : gmap Z (list byte)) (first : Z) (l : list Z) : Prop :=
  match l with
  | [] => first = RM_NO_PAGE
  | p :: l => first = p ∧ ∃ d, pages !! p = Some d ∧ chain pages (next_free_page_no d) l
  end.

Lemma chain_same_next pages pages' first l :
  (∀ p d, p ∈ l → pages !! p = Some d →
     ∃ d', pages' !! p = Some d' ∧ next_free_page_no d' = next_free_page_no d) →
  chain pages first l → chain pages' first l.
Proof.
  revert first. induction l as [|p l IH]; intros first Hs; [done|]. simpl.
  intros (-> & d & Hd & Hc). split; [done|]. destruct (Hs p d) as (d' & Hd' & Hn); [set_solver|done|].
  exists d'. split; [done|]. rewrite Hn. apply IH; [|done]. intros q dq Hq. apply Hs. set_solver.
Qed.

Lemma chain_notin pages first l p d :
  p ∉ l → chain pages first l → chain (<[p := d]> pages) first l.
Proof.
  intros Hp. apply chain_same_next. intros q dq Hq Hdq. exists dq.
  rewrite lookup_insert_ne; [done|]. by intros ->.
Qed.

Lemma chain_first pages first l : chain pages first l → first = RM_NO_PAGE ∨ ∃ d, pages !! first = Some d.
Proof. destruct l; simpl; [by left|]. intros (-> & d & ? & _). right. by exists d. Qed.

(** ** The invariant of a file *)

Record finv (h : RmFileHdr) (pages recs : gmap Z (list byte)) (l : list Z) : Prop := {
  fi_geom : geom h;
  fi_num : 1 ≤ num_pages h < 2147483647;
  fi_dom : ∀ p, is_Some (pages !! p) ↔ 1 ≤ p < num_pages h;
  fi_page : ∀ p d, pages !! p = Some d → page_ok h d;
  fi_recs : ∀ k buf, recs !! k = Some buf ↔
    ∃ p s d, k = memory_key (mk_Rid p s) ∧ pages !! p = Some d ∧ slot_of h d s = Some buf;
  fi_chain : chain pages (first_free_page_no h) l;
  fi_nodup : NoDup l;
  fi_free : ∀ p, p ∈ l ↔ ∃ d, pages !! p = Some d ∧ num_records d < num_records_per_page h
}.

Section pure.
Context (h : RmFileHdr) (pages recs : gmap Z (list byte)) (l : list Z).
Context (HI : finv h pages recs l).

Lemma finv_rid p s d buf : pages !! p = Some d → slot_of h d s = Some buf → is_rid (mk_Rid p s).
Proof using HI.
  intros Hp Hs. assert (Hr : 1 ≤ p < num_pages h) by (apply (fi_dom _ _ _ _ HI); by eexists).
  pose proof (fi_num _ _ _ _ HI). unfold slot_of in Hs. case_decide as Hg; [|done].
  pose proof (n_int32 h (fi_geom _ _ _ _ HI)) as Hn. unfold PAGE_SIZE, good_slot in *.
  unfold is_rid, is_int32; simpl. lia.
Qed.

Lemma finv_int32 p d : pages !! p = Some d → is_int32 p.
Proof using HI.
  intros Hp. assert (Hr : 1 ≤ p < num_pages h) by (apply (fi_dom _ _ _ _ HI); by eexists).
  pose proof (fi_num _ _ _ _ HI). unfold is_int32. lia.
Qed.

Lemma slot_rid p d s : pages !! p = Some d → good_slot h s → is_rid (mk_Rid p s).
Proof using HI.
  intros Hp Hs. pose proof (finv_int32 p d Hp). pose proof (n_int32 h (fi_geom _ _ _ _ HI)) as Hn.
  unfold good_slot, PAGE_SIZE in *. split; simpl; [done|]. unfold is_int32. lia.
Qed.

(** Changing one slot of one page changes one record. *)
Lemma finv_recs_update p d d' s o :
  pages !! p = Some d → good_slot h s →
  (∀ t, slot_of h d' t = if decide (t = s) then o else slot_of h d t) →
  ∀ k buf, partial_alter (λ _, o) (memory_key (mk_Rid p s)) recs !! k = Some buf ↔
    ∃ q t e, k = memory_key (mk_Rid q t) ∧ <[p := d']> pages !! q = Some e ∧ slot_of h e t = Some buf.
Proof using HI.
  intros Hp Hs Hd' k buf. pose proof (slot_rid p d s Hp Hs) as Hrid.
  destruct (decide (memory_key (mk_Rid p s) = k)) as [<-|Hne].
  - rewrite lookup_partial_alter_eq. split.
    + intros ->. exists p, s, d'. rewrite lookup_insert_eq, Hd', decide_True by done. done.
    + intros (q & t & e & Hk & He & Ht).
      assert (mk_Rid q t = mk_Rid p s) as Heq.
      { apply memory_key_inj; [|done|done]. destruct (decide (p = q)) as [->|Hpq].
        - rewrite lookup_insert_eq in He. simplify_eq. rewrite Hd' in Ht.
          destruct (decide (t = s)) as [->|]; [done|]. by eapply finv_rid.
        - rewrite lookup_insert_ne in He by done. by eapply finv_rid. }
      simplify_eq. rewrite lookup_insert_eq in He. simplify_eq. rewrite Hd', decide_True in Ht; done.
  - rewrite lookup_partial_alter_ne by done. rewrite (fi_recs _ _ _ _ HI). split.
    + intros (q & t & e & -> & He & Ht). destruct (decide (p = q)) as [->|Hpq].
      * exists q, t, d'. rewrite lookup_insert_eq, Hd'. rewrite decide_False by congruence.
        split_and!; [done..|congruence].
      * exists q, t, e. by rewrite lookup_insert_ne.
    + intros (q & t & e & -> & He & Ht). destruct (decide (p = q)) as [->|Hpq].
      * rewrite lookup_insert_eq in He. simplify_eq. rewrite Hd' in Ht.
        destruct (decide (t = s)) as [->|]; [done|]. by exists q, t, d.
      * rewrite lookup_insert_ne in He by done. by exists q, t, e.
Qed.

Lemma finv_dom_update p d d' : pages !! p = Some d → ∀ q, is_Some (<[p := d']> pages !! q) ↔ 1 ≤ q < num_pages h.
Proof using HI.
  intros Hp q. rewrite <- (fi_dom _ _ _ _ HI q). destruct (decide (p = q)) as [->|Hne].
  - rewrite lookup_insert_eq, Hp. split; by eexists.
  - by rewrite lookup_insert_ne.
Qed.

Lemma finv_page_update p d' : page_ok h d' → ∀ q e, <[p := d']> pages !! q = Some e → page_ok h e.
Proof using HI.
  intros Hok q e. destruct (decide (p = q)) as [->|Hne].
  - rewrite lookup_insert_eq. by intros [= <-].
  - rewrite lookup_insert_ne by done. apply (fi_page _ _ _ _ HI).
Qed.

(** A page that changes and keeps its place in the free list. *)
Lemma finv_update p d d' s o :
  pages !! p = Some d → good_slot h s → page_ok h d' →
  next_free_page_no d' = next_free_page_no d →
  (num_records d' < num_records_per_page h ↔ num_records d < num_records_per_page h) →
  (∀ t, slot_of h d' t = if decide (t = s) then o else slot_of h d t) →
  finv h (<[p := d']> pages) (partial_alter (λ _, o) (memory_key (mk_Rid p s)) recs) l.
Proof using HI.
  intros Hp Hs Hok Hn Hf Ho. split; try apply HI.
  - by eapply finv_dom_update.
  - by apply finv_page_update.
  - by eapply finv_recs_update.
  - eapply chain_same_next, (fi_chain _ _ _ _ HI). intros q e Hq He. destruct (decide (p = q)) as [->|Hne].
    + exists d'. rewrite lookup_insert_eq. split; congruence.
    + exists e. by rewrite lookup_insert_ne.
  - intros q. rewrite (fi_free _ _ _ _ HI). destruct (decide (p = q)) as [->|Hne].
    + rewrite lookup_insert_eq. split; intros (e & ? & ?); simplify_eq; eexists; (split; [done|]); by apply Hf.
    + by rewrite lookup_insert_ne.
Qed.

(** A full page that gets a free slot goes to the front of the list. *)
Lemma finv_release p d d' s o :
  let h' := mk_RmFileHdr (record_size h) (num_pages h) (num_records_per_page h) p (bitmap_size h) in
  pages !! p = Some d → good_slot h s → page_ok h d' →
  next_free_page_no d' = first_free_page_no h →
  num_records d = num_records_per_page h → num_records d' < num_records_per_page h →
  (∀ t, slot_of h d' t = if decide (t = s) then o else slot_of h d t) →
  finv h' (<[p := d']> pages) (partial_alter (λ _, o) (memory_key (mk_Rid p s)) recs) (p :: l).
Proof using HI.
  intros h' Hp Hs Hok Hn Hfull Hfree Ho.
  assert (Hpl : p ∉ l) by (rewrite (fi_free _ _ _ _ HI); intros (e & ? & ?); simplify_eq; lia).
  destruct (fi_geom _ _ _ _ HI) as [G1 G2 G3 G4]. split; simpl.
  - by split.
  - apply (fi_num _ _ _ _ HI).
  - by eapply finv_dom_update.
  - intros q e Hq. destruct (finv_page_update p d' Hok q e Hq) as [A B C']. by split.
  - by eapply finv_recs_update.
  - split; [done|]. exists d'. rewrite lookup_insert_eq, Hn. split; [done|].
    apply chain_notin; [done|]. apply (fi_chain _ _ _ _ HI).
  - constructor; [done|]. apply (fi_nodup _ _ _ _ HI).
  - intros q. rewrite elem_of_cons, (fi_free _ _ _ _ HI). destruct (decide (p = q)) as [->|Hne].
    + rewrite lookup_insert_eq. split; [intros _; by exists d'|by left].
    + rewrite lookup_insert_ne by done. split; [intros [?|?]; [congruence|done]|by right].
Qed.

(** A new, empty page at the end of the file. *)
Lemma finv_new :
  let p := num_pages h in
  let h' := mk_RmFileHdr (record_size h) (p + 1) (num_records_per_page h) p (bitmap_size h) in
  p < 2147483646 →
  finv h' (<[p := fresh_page h (first_free_page_no h)]> pages) recs (p :: l).
Proof using HI.
  intros p h' Hp. pose proof (fi_geom _ _ _ _ HI) as Hg. pose proof (fi_num _ _ _ _ HI) as Hnum.
  assert (Hnp : pages !! p = None).
  { destruct (pages !! p) as [d|] eqn:E; [|done].
    assert (1 ≤ p < num_pages h) by (apply (fi_dom _ _ _ _ HI); by eexists). subst p. lia. }
  assert (Hff : is_int32 (first_free_page_no h)).
  { destruct (chain_first _ _ _ (fi_chain _ _ _ _ HI)) as [->|[d Hd]]; [done|]. by eapply finv_int32. }
  destruct (fresh_effect h Hg _ Hff) as (Hok & Hn0 & Hnx & Hsl).
  assert (Hpl : p ∉ l) by (rewrite (fi_free _ _ _ _ HI); intros (e & ? & ?); congruence).
  pose proof Hg as [G1 G2 G3 G4]. split; simpl.
  - by split.
  - subst p. lia.
  - intros q. destruct (decide (p = q)) as [<-|Hne].
    + rewrite lookup_insert_eq. split; [intros _; subst p; lia|by eexists].
    + rewrite lookup_insert_ne by done. rewrite (fi_dom _ _ _ _ HI). subst p. lia.
  - intros q e. destruct (decide (p = q)) as [->|Hne].
    + rewrite lookup_insert_eq. intros [= <-]. destruct Hok as [A B C']. by split.
    + rewrite lookup_insert_ne by done. intros Hq. destruct (fi_page _ _ _ _ HI q e Hq) as [A B C']. by split.
  - intros k buf. rewrite (fi_recs _ _ _ _ HI). split.
    + intros (q & s & d & -> & Hd & Hs). exists q, s, d. rewrite lookup_insert_ne by congruence. done.
    + intros (q & s & d & -> & Hd & Hs). destruct (decide (p = q)) as [<-|Hne].
      * rewrite lookup_insert_eq in Hd. simplify_eq. change (slot_of h' _ s) with (slot_of h (fresh_page h (first_free_page_no h)) s) in Hs.
        by rewrite Hsl in Hs.
      * rewrite lookup_insert_ne in Hd by done. by exists q, s, d.
  - split; [done|]. exists (fresh_page h (first_free_page_no h)). rewrite lookup_insert_eq, Hnx. split; [done|].
    apply chain_notin; [done|]. apply (fi_chain _ _ _ _ HI).
  - constructor; [done|]. apply (fi_nodup _ _ _ _ HI).
  - intros q. rewrite elem_of_cons, (fi_free _ _ _ _ HI). destruct (decide (p = q)) as [<-|Hne].
    + rewrite lookup_insert_eq. split; [intros _; eexists; split; [done|]; lia|by left].
    + rewrite lookup_insert_ne by done. split; [intros [?|?]; [congruence|done]|by right].
Qed.
End pure.

Definition with_first (p : Z) (h : RmFileHdr) : RmFileHdr :=
  mk_RmFileHdr (record_size h) (num_pages h) (num_records_per_page h) p (bitmap_size h).

Lemma with_first_id h : with_first (first_free_page_no h) h = h.
Proof. by destruct h. Qed.

(** Pages that differ at most in their links. *)
Definition same_but_next (h : RmFileHdr) (pages pages' : gmap Z (list byte)) : Prop := ∀ q,
  match pages !! q, pages' !! q with
  | Some e, Some e' => page_ok h e' ∧ num_records e' = num_records e ∧ ∀ t, slot_of h e' t = slot_of h e t
  | None, None => True
  | _, _ => False
  end.

Lemma same_but_next_set h pages pages' q e nx :
  geom h → same_but_next h pages pages' → pages' !! q = Some e → is_int32 nx →
  same_but_next h pages (<[q := set_next_free_page_no nx e]> pages').
Proof.
  intros Hg Hs Hq Hnx p. specialize (Hs p). destruct (decide (q = p)) as [->|Hne].
  - rewrite lookup_insert_eq. rewrite Hq in Hs. destruct (pages !! p) as [e0|]; [|done].
    destruct Hs as (Hok & Hn & Hsl). destruct (set_next_effect h Hg e nx Hok Hnx) as (A & _ & B & D).
    split_and!; [done|congruence|]. intros t. by rewrite D.
  - by rewrite lookup_insert_ne.
Qed.

Lemma same_but_next_refl h pages : (∀ q e, pages !! q = Some e → page_ok h e) → same_but_next h pages pages.
Proof. intros Hok q. destruct (pages !! q) as [e|] eqn:E; [|done]. split_and!; [by eapply Hok|done..]. Qed.

(** A page that gets full and leaves the free list. *)
Lemma finv_fill h pages recs l p d d1 s o pages2 first2 :
  finv h pages recs l →
  pages !! p = Some d → good_slot h s → page_ok h d1 →
  num_records d1 = num_records_per_page h →
  (∀ t, slot_of h d1 t = if decide (t = s) then o else slot_of h d t) →
  same_but_next h (<[p := d1]> pages) pages2 → chain pages2 first2 (remove_elem p l) →
  finv (with_first first2 h) pages2 (partial_alter (λ _, o) (memory_key (mk_Rid p s)) recs) (remove_elem p l).
Proof.
  intros HI Hp Hs Hok Hfull Ho Hsame Hch.
  pose proof (finv_dom_update _ _ _ _ HI p d d1 Hp) as Hdom.
  pose proof (finv_recs_update _ _ _ _ HI p d d1 s o Hp Hs Ho) as Hrec.
  destruct (fi_geom _ _ _ _ HI) as [G1 G2 G3 G4]. split; simpl.
  - by split.
  - apply (fi_num _ _ _ _ HI).
  - intros q. rewrite <- Hdom. specialize (Hsame q).
    destruct (<[p := d1]> pages !! q), (pages2 !! q); (done || (split; by eexists) || (split; by intros [])).
  - intros q e Hq. specialize (Hsame q). rewrite Hq in Hsame.
    destruct (<[p := d1]> pages !! q); [|done]. destruct Hsame as ([A B D] & _). by split.
  - intros k buf. rewrite Hrec. split; intros (q & t & e & -> & He & Ht); specialize (Hsame q); rewrite He in Hsame.
    + destruct (pages2 !! q) as [e'|] eqn:E; [|done]. destruct Hsame as (_ & _ & Hsl).
      exists q, t, e'. split_and!; [done..|]. change (slot_of h e' t = Some buf). by rewrite Hsl.
    + destruct (<[p := d1]> pages !! q) as [e'|] eqn:E; [|done]. destruct Hsame as (_ & _ & Hsl).
      exists q, t, e'. split_and!; [done..|]. rewrite <- Hsl. exact Ht.
  - done.
  - apply NoDup_remove_elem, (fi_nodup _ _ _ _ HI).
  - intros q. rewrite elem_of_remove_elem, (fi_free _ _ _ _ HI). specialize (Hsame q).
    destruct (decide (p = q)) as [<-|Hne].
    + rewrite lookup_insert_eq in Hsame. split; [by intros [? _]|]. intros (e & He & Hlt).
      rewrite He in Hsame. destruct Hsame as (_ & Hn & _). lia.
    + rewrite lookup_insert_ne in Hsame by done. split.
      * intros (_ & e & He & Hlt). rewrite He in Hsame. destruct (pages2 !! q) as [e'|]; [|done].
        destruct Hsame as (_ & Hn & _). exists e'. split; [done|]. lia.
      * intros (e & He & Hlt). rewrite He in Hsame. destruct (pages !! q) as [e'|]; [|done].
        destruct Hsame as (_ & Hn & _). split; [congruence|]. exists e'. split; [done|]. lia.
Qed.

(** ** Runs of the record layer *)

Section runs.
Context {C : Type} `{HPC : PageCache C} `{HPL : !PageCacheLaws C}.
Implicit Types (r : Rm C) (pages : gmap Z (list byte)) (H : gmap Z (Z * bool)).

(** What the steps on pages leave alone. *)
Definition same_file r r' : Prop :=
  fd_ r' = fd_ r ∧ closed_ r' = closed_ r ∧ shared_state_ r' = shared_state_ r.

Lemma same_file_refl r : same_file r r.
Proof. done. Qed.

Lemma same_file_trans r1 r2 r3 : same_file r1 r2 → same_file r2 r3 → same_file r1 r3.
Proof. unfold same_file. intuition congruence. Qed.

Lemma read_run r pages H ph u d :
  crep (cache r) (fd_ r) pages H → H !! ph.1 = Some (ph.2, u) → pages !! ph.1 = Some d →
  read_page_data ph r = (Ok d, r).
Proof using HPL. intros HC Hh Hd. unfold read_page_data. by erewrite crep_data. Qed.

Lemma write_run r pages H ph u d d' x r' :
  crep (cache r) (fd_ r) pages H → H !! ph.1 = Some (ph.2, u) → pages !! ph.1 = Some d → is_page d' →
  write_page_data ph d' r = (x, r') →
  x = Ok tt ∧ same_file r r' ∧ file_hdr_ r' = file_hdr_ r ∧
  crep (cache r') (fd_ r') (<[ph.1 := d']> pages) (<[ph.1 := (ph.2, true)]> H).
Proof using HPL.
  intros HC Hh Hd Hp E. unfold write_page_data, modify in E. simplify_eq. split_and!; [done..|].
  by eapply crep_write.
Qed.

Lemma set_next_run r pages H ph u d nx x r' :
  crep (cache r) (fd_ r) pages H → H !! ph.1 = Some (ph.2, u) → pages !! ph.1 = Some d →
  set_next ph nx r = (x, r') →
  x = Ok tt ∧ same_file r r' ∧ file_hdr_ r' = file_hdr_ r ∧
  crep (cache r') (fd_ r') (<[ph.1 := set_next_free_page_no nx d]> pages) (<[ph.1 := (ph.2, true)]> H).
Proof using HPL.
  intros HC Hh Hd E. unfold set_next in E. rewrite (bind_ok _ _ _ d r) in E by (by eapply read_run).
  eapply write_run; [exact HC|exact Hh|exact Hd| |exact E].
  destruct (cr_pages _ _ _ _ HC _ _ Hd) as (_ & _ & Hp). by apply set_next_page.
Qed.

Lemma mark_run r pages H ph u d x r' :
  crep (cache r) (fd_ r) pages H → H !! ph.1 = Some (ph.2, u) → pages !! ph.1 = Some d →
  mark_dirty ph r = (x, r') →
  x = Ok tt ∧ same_file r r' ∧ file_hdr_ r' = file_hdr_ r ∧
  crep (cache r') (fd_ r') pages (<[ph.1 := (ph.2, false)]> H).
Proof using HPL.
  intros HC Hh Hd E. unfold mark_dirty, modify in E. simplify_eq. split_and!; [done..|]. by eapply crep_mark.
Qed.

Lemma unpin_run r pages H ph u d dirty x r' :
  crep (cache r) (fd_ r) pages H → H !! ph.1 = Some (ph.2, u) → pages !! ph.1 = Some d →
  dirty = true ∨ u = false → unpin ph dirty r = (x, r') →
  x = Ok tt ∧ same_file r r' ∧ file_hdr_ r' = file_hdr_ r ∧ crep (cache r') (fd_ r') pages (delete ph.1 H).
Proof using HPL.
  intros HC Hh Hd Hdu E. unfold unpin in E. rewrite BpmFacts.get_bind in E.
  destruct (crep_unpin _ _ _ _ _ _ _ dirty _ HC Hh Hd Hdu) as (c' & Eu & HC').
  unfold on_cache, mbind, M_bind in E. rewrite Eu in E. unfold mret, M_ret in E. simplify_eq. done.
Qed.

Lemma fetch_run r pages H p ph r' :
  crep (cache r) (fd_ r) pages H → H !! p = None →
  (∀ q, is_Some (pages !! q) ↔ 1 ≤ q < num_pages (file_hdr_ r)) →
  fetch_page_handle_unlocked p r = (Ok ph, r') →
  ph.1 = p ∧ same_file r r' ∧ file_hdr_ r' = file_hdr_ r ∧ (∃ d, pages !! p = Some d) ∧
  crep (cache r') (fd_ r') pages (<[p := (ph.2, false)]> H).
Proof using HPL.
  intros HC Hn Hdom E. unfold fetch_page_handle_unlocked in E. rewrite BpmFacts.get_bind in E.
  case_decide as Hr; [done|]. unfold RM_FIRST_RECORD_PAGE in Hr.
  destruct (proj2 (Hdom p)) as [d Hd]; [lia|].
  apply bind_inv_ok in E as (fo & r1 & E1 & E). apply bind_inv_ok in E as (f & r2 & E2 & E).
  unfold mret, M_ret in E. simplify_eq. unfold on_cache in E1.
  destruct (pc_fetch (mk_PageId (fd_ r) p) (cache r)) as [y c'] eqn:Ec. simplify_eq.
  destruct fo as [f'|]; [|done]. unfold deref, mret, M_ret in E2. simplify_eq. simpl.
  split_and!; [done..|by exists d|]. by eapply crep_fetch.
Qed.

(** The loop of [remove_page_from_free_list]: it finds the page before [p] and takes [p] out
    of the list. *)
Lemma unlink_run h p f dp pages : geom h → page_ok h dp → pages !! p = Some dp →
  ∀ l fuel prev r r' u,
  crep (cache r) (fd_ r) pages {[p := (f, u)]} → file_hdr_ r = h →
  (∀ q, is_Some (pages !! q) ↔ 1 ≤ q < num_pages h) → (∀ q e, pages !! q = Some e → page_ok h e) →
  chain pages prev l → NoDup l → p ∈ l → prev ≠ p →
  unlink fuel (p, f) (next_free_page_no dp) prev r = (Ok tt, r') →
  ∃ pages', same_file r r' ∧ file_hdr_ r' = h ∧ crep (cache r') (fd_ r') pages' {[p := (f, true)]} ∧
    same_but_next h pages pages' ∧ chain pages' prev (remove_elem p l) ∧
    (∀ q e, q ∉ l → pages !! q = Some e → pages' !! q = Some e).
Proof using HPL.
  intros Hg Hokp Hdp. induction l as [|q l IH]; intros fuel prev r r' u HC Hh Hdom Hok Hch Hnd Hin Hne E;
    [by apply elem_of_nil in Hin|].
  destruct Hch as (-> & dq & Hdq & Hch). apply NoDup_cons in Hnd as [Hnq Hnd].
  apply elem_of_cons in Hin as [->|Hin]; [done|].
  destruct fuel as [|fuel]; [done|]. simpl in E.
  assert (Hq1 : 1 ≤ q < num_pages h) by (apply Hdom; by eexists).
  rewrite decide_False in E by (unfold RM_NO_PAGE; lia).
  apply bind_inv_ok in E as (ph & r1 & Ef & E).
  eapply fetch_run in Ef as (Hp1 & Hs1 & Hh1 & _ & HC1);
    [|exact HC|by rewrite lookup_singleton_ne|by rewrite Hh].
  destruct ph as [q' g]. simpl in Hp1. subst q'. simpl in HC1.
  rewrite (bind_ok _ _ _ dq r1) in E.
  2:{ eapply read_run; [exact HC1|simpl; by rewrite lookup_insert_eq|done]. }
  simpl in E. destruct (decide (next_free_page_no dq = p)) as [Hnx|Hnx].
  - (* [q] is the page before [p] *)
    apply bind_inv_ok in E as ([] & r2 & E2 & E).
    eapply set_next_run in E2 as (_ & Hs2 & Hh2 & HC2); [|exact HC1|simpl; by rewrite lookup_insert_eq|exact Hdq].
    apply bind_inv_ok in E as ([] & r3 & E3 & E).
    eapply mark_run in E3 as (_ & Hs3 & Hh3 & HC3); [|exact HC2|simpl; by rewrite lookup_insert_eq|simpl; by rewrite lookup_insert_eq].
    apply bind_inv_ok in E as ([] & r4 & E4 & E).
    eapply unpin_run in E4 as (_ & Hs4 & Hh4 & HC4); [|exact HC3|simpl; by rewrite lookup_insert_eq|simpl; by rewrite lookup_insert_eq|by left].
    simpl in HC4.
    rewrite !delete_insert_eq, delete_id in HC4 by (by rewrite lookup_singleton_ne).
    eapply (set_next_run _ _ _ (p, f) u dp) in E as (_ & Hs5 & Hh5 & HC5);
      [|exact HC4|simpl; by rewrite lookup_singleton_eq|simpl; by rewrite lookup_insert_ne].
    simpl in HC5. rewrite insert_singleton_eq in HC5.
    eexists. split_and!; [eauto using same_file_trans|congruence|exact HC5| | |].
    + eapply same_but_next_set; [done| |by rewrite lookup_insert_ne|done].
      eapply same_but_next_set; [done|by apply same_but_next_refl|done|apply (pk_next _ _ Hokp)].
    + rewrite <- Hnx in *. destruct l as [|p' l']; [by apply elem_of_nil in Hin|]. simpl in Hch.
      destruct Hch as (Hp' & dp' & Hdp' & Hch). subst p'.
      assert (dp' = dp) as -> by congruence.
      apply NoDup_cons in Hnd as [Hnp Hnd].
      unfold remove_elem. rewrite filter_cons_True by done. rewrite filter_cons_False by (intros ?; done).
      fold (remove_elem (next_free_page_no dq) l'). rewrite remove_elem_not_in by done.
      split; [done|]. eexists. split.
      { rewrite lookup_insert_ne by done. by rewrite lookup_insert_eq. }
      destruct (set_next_effect h Hg dq (next_free_page_no dp) (Hok _ _ Hdq) (pk_next _ _ Hokp)) as (_ & -> & _).
      apply chain_notin; [done|]. apply chain_notin; [set_solver|done].
    + intros q' e Hq' He. rewrite !lookup_insert_ne; [done|set_solver|set_solver].
  - apply bind_inv_ok in E as ([] & r2 & E2 & E).
    eapply unpin_run in E2 as (_ & Hs2 & Hh2 & HC2); [|exact HC1|simpl; by rewrite lookup_insert_eq|simpl; exact Hdq|by right].
    simpl in HC2. rewrite delete_insert_id in HC2 by (by rewrite lookup_singleton_ne).
    eapply IH in E as (pages' & Hs3 & Hh3 & HC3 & Hsame & Hch' & Hkeep); [|exact HC2|congruence|done|done|exact Hch|done|done|done].
    exists pages'. split_and!; [by eauto using same_file_trans|done..| |].
    2:{ intros q' e Hq'. apply Hkeep. set_solver. }
    unfold remove_elem. rewrite filter_cons_True by done. split; [done|].
    exists dq. split; [by apply Hkeep|done].
Qed.
(** More iterations than pages in the list are never needed. *)
Lemma unlink_fuel h p f pages nx :
  ∀ l fuel prev r u,
  crep (cache r) (fd_ r) pages {[p := (f, u)]} → file_hdr_ r = h →
  (∀ q, is_Some (pages !! q) ↔ 1 ≤ q < num_pages h) →
  chain pages prev l → prev ≠ p → (length l < fuel)%nat →
  unlink (S fuel) (p, f) nx prev r = unlink fuel (p, f) nx prev r.
Proof using HPL.
  induction l as [|q l IH]; intros fuel prev r u HC Hh Hdom Hch Hne Hf;
    (destruct fuel as [|fuel]; [simpl in Hf; lia|]).
  { simpl in Hch. by subst prev. }
  destruct Hch as (-> & dq & Hdq & Hch). simpl in Hf.
  assert (Hq1 : 1 ≤ q < num_pages h) by (apply Hdom; by eexists).
  change (unlink (S (S fuel)) (p, f) nx q) with
    (if decide (q = RM_NO_PAGE) then set_next (p, f) RM_NO_PAGE else
     (prev_handle ← fetch_page_handle_unlocked q; d ← read_page_data prev_handle;
      if decide (next_free_page_no d = p) then
        set_next prev_handle nx;; mark_dirty prev_handle;; unpin prev_handle true;; set_next (p, f) RM_NO_PAGE
      else unpin prev_handle false;; unlink (S fuel) (p, f) nx (next_free_page_no d))).
  change (unlink (S fuel) (p, f) nx q) with
    (if decide (q = RM_NO_PAGE) then set_next (p, f) RM_NO_PAGE else
     (prev_handle ← fetch_page_handle_unlocked q; d ← read_page_data prev_handle;
      if decide (next_free_page_no d = p) then
        set_next prev_handle nx;; mark_dirty prev_handle;; unpin prev_handle true;; set_next (p, f) RM_NO_PAGE
      else unpin prev_handle false;; unlink fuel (p, f) nx (next_free_page_no d))).
  rewrite !decide_False by (unfold RM_NO_PAGE; lia). unfold mbind, M_bind.
  destruct (fetch_page_handle_unlocked q r) as [[ph|e] r1] eqn:Ef; [|done].
  eapply fetch_run in Ef as (Hp1 & Hs1 & Hh1 & _ & HC1);
    [|exact HC|by rewrite lookup_singleton_ne|by rewrite Hh].
  destruct ph as [q' g]. simpl in Hp1. subst q'. simpl in HC1.
  rewrite (read_run r1 pages _ (q, g) false dq) by (done || (simpl; by rewrite lookup_insert_eq)).
  destruct (decide (next_free_page_no dq = p)) as [Hnx|Hnx]; [done|].
  destruct (unpin (q, g) false r1) as [x r2] eqn:Eu.
  eapply unpin_run in Eu as (-> & Hs2 & Hh2 & HC2); [|exact HC1|simpl; by rewrite lookup_insert_eq|simpl; exact Hdq|by right].
  simpl in HC2. rewrite delete_insert_id in HC2 by (by rewrite lookup_singleton_ne).
  eapply IH; [exact HC2|congruence|done|done|done|lia].
Qed.

Lemma remove_run h p f dp pages r r' u l :
  geom h → pages !! p = Some dp → file_hdr_ r = h → is_int32 p →
  crep (cache r) (fd_ r) pages {[p := (f, u)]} →
  (∀ q, is_Some (pages !! q) ↔ 1 ≤ q < num_pages h) → (∀ q e, pages !! q = Some e → page_ok h e) →
  chain pages (first_free_page_no h) l → NoDup l → p ∈ l →
  remove_page_from_free_list (p, f) r = (Ok tt, r') →
  ∃ pages' first', same_file r r' ∧ file_hdr_ r' = with_first first' h ∧
    crep (cache r') (fd_ r') pages' {[p := (f, true)]} ∧
    same_but_next h pages pages' ∧ chain pages' first' (remove_elem p l).
Proof using HPL.
  intros Hg Hdp Hh Hp32 HC Hdom Hok Hch Hnd Hin E.
  unfold remove_page_from_free_list in E. rewrite BpmFacts.get_bind in E.
  rewrite (bind_ok _ _ _ dp r) in E by (eapply read_run; [exact HC|simpl; by rewrite lookup_singleton_eq|done]).
  cbn [fst] in E. destruct (decide (first_free_page_no (file_hdr_ r) = p)) as [Hf|Hf].
  - apply bind_inv_ok in E as ([] & r1 & E1 & E). unfold modify in E1. simplify_eq.
    eapply (set_next_run _ pages {[first_free_page_no (file_hdr_ r) := (f, u)]} _ u dp) in E as (_ & Hs & Hh1 & HC1);
      [|done|simpl; by rewrite lookup_singleton_eq|done].
    simpl in HC1. rewrite insert_singleton_eq in HC1.
    eexists _, (next_free_page_no dp). split_and!; [exact Hs|done|exact HC1| |].
    + eapply same_but_next_set; [done|by apply same_but_next_refl|done|done].
    + destruct l as [|q l]; [by apply elem_of_nil in Hin|]. simpl in Hch.
      destruct Hch as (Hq & dq & Hdq & Hch). subst q. assert (dq = dp) as -> by congruence.
      apply NoDup_cons in Hnd as [Hnq Hnd]. unfold remove_elem. rewrite filter_cons_False by (intros Hx; done).
      fold (remove_elem (first_free_page_no (file_hdr_ r)) l). rewrite remove_elem_not_in by done.
      by apply chain_notin.
  - rewrite Hh in *. eapply unlink_run in E as (pages' & Hs & Hh' & HC' & Hsame & Hch' & _);
      [|done|by eapply Hok|done|exact HC|done|done|done|exact Hch|done|done|done].
    exists pages', (first_free_page_no h). rewrite with_first_id. done.
Qed.

(** [store_record]: one more record, and the page leaves the free list if it is full. *)
Lemma store_run h p f d pages recs l r r' u s buf :
  finv h pages recs l → file_hdr_ r = h → pages !! p = Some d →
  crep (cache r) (fd_ r) pages {[p := (f, u)]} → p ∈ l →
  good_slot h s → used h d s = false → (Z.to_nat (record_size h) ≤ length buf)%nat →
  store_record (p, f) s buf r = (Ok tt, r') →
  ∃ pages' l' first', same_file r r' ∧ file_hdr_ r' = with_first first' h ∧
    crep (cache r') (fd_ r') pages' {[p := (f, true)]} ∧
    finv (with_first first' h) pages'
      (<[memory_key (mk_Rid p s) := take (Z.to_nat (record_size h)) buf]> recs) l' ∧ is_Some (pages' !! p).
Proof using HPL.
  intros HI Hh Hd HC Hpl Hs Hu Hb E. pose proof (fi_geom _ _ _ _ HI) as Hg.
  unfold store_record in E. rewrite BpmFacts.get_bind in E. rewrite Hh in E.
  rewrite (bind_ok _ _ _ d r) in E by (eapply read_run; [exact HC|simpl; by rewrite lookup_singleton_eq|done]).
  destruct (store_effect h Hg d s (take (Z.to_nat (record_size h)) buf) (fi_page _ _ _ _ HI _ _ Hd) Hs Hu)
    as (bm & Ebm & Hok & Hn & Hnx & Hsl); [rewrite length_take; lia|].
  rewrite (BpmFacts.deref_some _ _ _ bm) in E by done. fold (stored h s (take (Z.to_nat (record_size h)) buf) bm d) in E.
  set (d1 := stored h s (take (Z.to_nat (record_size h)) buf) bm d) in *.
  apply bind_inv_ok in E as ([] & r1 & E1 & E).
  eapply write_run in E1 as (_ & Hs1 & Hh1 & HC1); [|exact HC|simpl; by rewrite lookup_singleton_eq|exact Hd|apply (pk_page _ _ Hok)].
  simpl in HC1. rewrite insert_singleton_eq in HC1.
  apply (fi_free _ _ _ _ HI) in Hpl as Hlt. destruct Hlt as (d0 & Hd0 & Hlt).
  assert (d0 = d) as -> by congruence.
  destruct (decide (num_records d1 = num_records_per_page h)) as [Hfull|Hfull].
  - eapply remove_run in E as (pages' & first' & Hs2 & Hh2 & HC2 & Hsame & Hch);
      [| exact Hg | by rewrite lookup_insert_eq | congruence | by eapply finv_int32 | exact HC1 | by eapply finv_dom_update
       | by eapply finv_page_update | | apply (fi_nodup _ _ _ _ HI) | done].
    2:{ eapply chain_same_next, (fi_chain _ _ _ _ HI). intros q e Hq He. destruct (decide (p = q)) as [->|Hne].
        - exists d1. rewrite lookup_insert_eq. split; congruence.
        - exists e. by rewrite lookup_insert_ne. }
    exists pages', (remove_elem p l), first'. split_and!; [by eauto using same_file_trans|done|done| |].
    + by eapply (finv_fill h pages recs l p d d1 s (Some _)).
    + specialize (Hsame p). rewrite lookup_insert_eq in Hsame. destruct (pages' !! p); [by eexists|done].
  - unfold mret, M_ret in E. simplify_eq.
    exists (<[p := d1]> pages), l, (first_free_page_no (file_hdr_ r)). rewrite with_first_id.
    split_and!; [done..| |by rewrite lookup_insert_eq; eexists].
    eapply (finv_update (file_hdr_ r) pages recs l HI p d d1 s (Some _)); try done.
    pose proof (pk_count _ _ Hok). pose proof (count_bound (file_hdr_ r) Hg d1). lia.
Qed.

(** A page handle on a page with room. *)
Lemma create_page_handle_run h pages recs l r ph r' :
  finv h pages recs l → file_hdr_ r = h → crep (cache r) (fd_ r) pages ∅ →
  num_pages h < 2147483646 → create_page_handle r = (Ok ph, r') →
  ∃ pages' l' h' u, same_file r r' ∧ file_hdr_ r' = h' ∧ finv h' pages' recs l' ∧
    record_size h' = record_size h ∧
    crep (cache r') (fd_ r') pages' {[ph.1 := (ph.2, u)]} ∧ ph.1 ∈ l'.
Proof using HPL.
  intros HI Hh HC Hlim E. unfold create_page_handle in E. rewrite BpmFacts.get_bind in E. rewrite Hh in E.
  destruct (decide (first_free_page_no h = RM_NO_PAGE)) as [Hf|Hf].
  - unfold create_new_page_handle_unlocked in E. rewrite BpmFacts.get_bind in E. rewrite Hh in E.
    apply bind_inv_ok in E as (fo & r1 & E1 & E). unfold on_cache in E1.
    destruct (pc_new_at (mk_PageId (fd_ r) (num_pages h)) (cache r)) as [y c'] eqn:Ec. simplify_eq.
    destruct fo as [f|]; [|done]. pose proof (fi_num _ _ _ _ HI) as Hnum.
    eapply crep_new in Ec as HC1; [|exact HC|done|lia]. rewrite insert_empty in HC1.
    apply bind_inv_ok in E as ([] & ra & Ea & E). apply bind_inv_ok in E as ([] & r2 & Eb & E).
    unfold modify in Ea, Eb. injection Ea as <-. injection Eb as <-.
    match type of E with mbind _ (read_page_data _) ?x = _ => set (r2 := x) in E end.
    apply bind_inv_ok in E as (d & r3 & E3 & E).
    rewrite (read_run r2 (<[num_pages (file_hdr_ r) := reset_memory]> pages) {[num_pages (file_hdr_ r) := (f, true)]}
      _ true reset_memory) in E3; [|done|simpl; by rewrite lookup_singleton_eq|simpl; by rewrite lookup_insert_eq].
    injection E3 as <- <-. apply bind_inv_ok in E as ([] & r4 & E4 & E).
    fold (fresh_page (file_hdr_ r) (first_free_page_no (file_hdr_ r))) in E4.
    pose proof (finv_new _ _ _ _ HI Hlim) as HI'. simpl in HI'.
    eapply (write_run r2 (<[num_pages (file_hdr_ r) := reset_memory]> pages) {[num_pages (file_hdr_ r) := (f, true)]}
      _ true reset_memory) in E4 as (_ & Hs4 & Hh4 & HC4);
      [|done|simpl; by rewrite lookup_singleton_eq|simpl; by rewrite lookup_insert_eq|].
    2:{ eapply (pk_page _ _), (fi_page _ _ _ _ HI'). by rewrite lookup_insert_eq. }
    simpl in HC4. rewrite insert_singleton_eq, insert_insert_eq in HC4. unfold modify, mbind, M_bind, mret, M_ret in E. injection E as <- <-.
    eexists _, _, _, true. split_and!; [| |exact HI'|done| |by left].
    + done.
    + simpl. unfold set_first_free; simpl. rewrite Hh4. simpl. by rewrite int32_id by (unfold is_int32; lia).
    + done.
  - eapply fetch_run in E as (Hp & Hs1 & Hh1 & (d & Hd) & HC1); [|exact HC|done|rewrite Hh; apply (fi_dom _ _ _ _ HI)].
    rewrite insert_empty in HC1. rewrite <- Hp in *.
    exists pages, l, h, false. split_and!; [done|congruence|done|done|done|].
    pose proof (fi_chain _ _ _ _ HI) as Hch. destruct l as [|q l]; simpl in Hch; [congruence|].
    destruct Hch as [Hq _]. rewrite Hp, Hq. set_solver.
Qed.
End runs.

End RecFacts.
