(* ===== verification/RecordSpec.v ===== *)
(** * Record files against their specification

    A table is a finite map from record ids to records.  The theorems state what each
    operation of [RmFileHandle] does to that map, that the pages hold exactly the records of
    the map, so that reopening a file gives the same map, and that a scan enumerates it. *)

From S2P Require Import Prelude Bitmap Disk BufferPool BufferPoolFacts BufferPoolSpec PageCache PoolCache.
From S2P Require Import RecordFile RecordFacts.

Module RecSpec.
Import RecFile RecFacts.

Lemma RmFileHdr_roundtrip h :
  is_int32 (record_size h) → is_int32 (num_pages h) → is_int32 (num_records_per_page h) →
  is_int32 (first_free_page_no h) → is_int32 (bitmap_size h) →
  RmFileHdr_of_bytes (RmFileHdr_bytes h) = h.
Proof.
  intros. destruct h as [a b c d e]. unfold RmFileHdr_of_bytes, RmFileHdr_bytes. simpl in *.
  repeat first [rewrite read_app_skip by (rewrite length_enc_int; lia); rewrite length_enc_int; simpl Nat.sub
               |rewrite read_app_here by apply length_enc_int].
  rewrite <- (app_nil_r (enc_int 4 e)).
  repeat first [rewrite read_app_skip by (rewrite length_enc_int; lia); rewrite length_enc_int; simpl Nat.sub
               |rewrite read_app_here by apply length_enc_int].
  f_equal; by apply dec_enc_i32.
Qed.

Section spec.
Context {C : Type} `{HPC : PageCache C} `{HPL : !PageCacheLaws C}.
Implicit Types (r : Rm C) (rid : Rid) (buf : list byte).

Abbreviation hdr r := (shared_hdr (shared_state_ r)).
Abbreviation recs r := (records (shared_state_ r)).

(** The invariant between operations: the pages are well formed and hold the records of the
    memory map, and no page of the file is pinned. *)
Definition rinv r : Prop := closed_ r = false ∧ ∃ pages l,
  crep (cache r) (fd_ r) pages ∅ ∧ finv (hdr r) pages (recs r) l.

(** The first steps of every operation. *)
Lemma open_refresh {A} r (k : M (Rm C) A) :
  closed_ r = false → (ensure_open_locked;; refresh_hdr;; k) r = k (set_hdr (hdr r) r).
Proof.
  intros Hc. unfold ensure_open_locked, refresh_hdr, modify, get, mbind, M_bind. by rewrite Hc.
Qed.

(** The last steps of every operation that changes a page. *)
Lemma finish_run r pages p f u x r' :
  crep (cache r) (fd_ r) pages {[p := (f, u)]} → is_Some (pages !! p) →
  (mark_dirty (p, f);; unpin (p, f) true) r = (x, r') →
  x = Ok tt ∧ same_file r r' ∧ crep (cache r') (fd_ r') pages ∅.
Proof using HPL.
  intros HC [d Hd] E. destruct (mark_dirty (p, f) r) as [y r1] eqn:E1.
  eapply mark_run in E1 as E1'; [|exact HC|simpl; by rewrite lookup_singleton_eq|exact Hd].
  destruct E1' as (-> & Hs1 & _ & HC1). simpl in HC1. rewrite insert_singleton_eq in HC1.
  rewrite (bind_ok _ _ _ _ _ E1) in E.
  eapply unpin_run in E as (-> & Hs2 & _ & HC2); [|exact HC1|simpl; by rewrite lookup_singleton_eq|exact Hd|by left].
  simpl in HC2. rewrite delete_singleton_eq in HC2. split_and!; [done|by eauto using same_file_trans|done].
Qed.

(** Storing a record, updating the memory map and releasing the page. *)
Lemma store_finish r h pages recs0 l p f u s buf d x r' :
  finv h pages recs0 l → file_hdr_ r = h → closed_ r = false → recs r = recs0 →
  crep (cache r) (fd_ r) pages {[p := (f, u)]} → pages !! p = Some d → p ∈ l →
  good_slot h s → used h d s = false → (Z.to_nat (record_size h) ≤ length buf)%nat →
  (store_record (p, f) s buf;; remember (mk_Rid p s) buf;; modify share_hdr;;
   mark_dirty (p, f);; unpin (p, f) true) r = (Ok x, r') →
  rinv r' ∧ recs r' = <[memory_key (mk_Rid p s) := take (Z.to_nat (record_size h)) buf]> recs0.
Proof using HPL.
  intros HI Hh Hcl Hrec HC Hd Hpl Hs Hu Hb E. apply bind_inv_ok in E as ([] & r1 & E1 & E).
  eapply store_run in E1 as (pages' & l' & first' & (Hs1 & Hs2 & Hs3) & Hh1 & HC1 & HI1 & Hp1);
    [|exact HI|done|exact Hd|exact HC|done|done|done|done].
  apply bind_inv_ok in E as ([] & r2 & E2 & E). unfold remember, modify in E2. injection E2 as <-.
  apply bind_inv_ok in E as ([] & r3 & E3 & E). unfold modify in E3. injection E3 as <-.
  eapply finish_run in E as (_ & (Hf1 & Hf2 & Hf3) & HC2); [|exact HC1|done].
  assert (Hrs : record_size (file_hdr_ r1) = record_size h) by by rewrite Hh1.
  split.
  - split; [by rewrite Hf2; simpl; rewrite Hs2|]. exists pages', l'. rewrite Hf3. simpl. split; [done|].
    rewrite Hrs, Hh1, Hs3, Hrec. done.
  - rewrite Hf3. simpl. by rewrite Hrs, Hs3, Hrec.
Qed.

Lemma insert_record_ok r buf rid r' :
  rinv r → num_pages (hdr r) < 2147483646 → (Z.to_nat (record_size (hdr r)) ≤ length buf)%nat →
  insert_record buf r = (Ok rid, r') →
  rinv r' ∧ is_rid rid ∧ recs r !! memory_key rid = None ∧
  recs r' = <[memory_key rid := take (Z.to_nat (record_size (hdr r))) buf]> (recs r).
Proof using HPL.
  intros (Hcl & pages & l & HC & HI) Hlim Hb E. unfold insert_record in E. rewrite open_refresh in E by done.
  apply bind_inv_ok in E as (ph & r1 & E1 & E).
  eapply create_page_handle_run in E1 as (pages1 & l1 & h1 & u & (Hs1 & Hs2 & Hs3) & Hh1 & HI1 & Hrs & HC1 & Hpl);
    [|exact HI|done|exact HC|done].
  simpl in *. rewrite BpmFacts.get_bind in E.
  apply (fi_free _ _ _ _ HI1) in Hpl as Hroom. destruct Hroom as (d & Hd & Hlt).
  rewrite (bind_ok _ _ _ d r1) in E by (eapply read_run; [exact HC1|by rewrite lookup_singleton_eq|done]).
  pose proof (fi_geom _ _ _ _ HI1) as Hg.
  destruct (free_slot h1 Hg d (fi_page _ _ _ _ HI1 _ _ Hd) Hlt) as (s & Ef & Hgs & Hu).
  rewrite Hh1 in E. rewrite (BpmFacts.deref_some _ _ _ s) in E by done. destruct ph as [p f]. simpl in *.
  assert (E' : ∃ r2, (store_record (p, f) s buf;; remember (mk_Rid p s) buf;; modify share_hdr;;
     mark_dirty (p, f);; unpin (p, f) true) r1 = (Ok tt, r2) ∧ r' = r2 ∧ rid = mk_Rid p s).
  { apply bind_inv_ok in E as ([] & ra & Ea & E). rewrite (bind_ok _ _ _ _ _ Ea).
    apply bind_inv_ok in E as ([] & rb & Eb & E). rewrite (bind_ok _ _ _ _ _ Eb).
    apply bind_inv_ok in E as ([] & rc & Ec & E). rewrite (bind_ok _ _ _ _ _ Ec).
    apply bind_inv_ok in E as ([] & rd & Ed & E). rewrite (bind_ok _ _ _ _ _ Ed).
    apply bind_inv_ok in E as ([] & re & Ee & E). unfold mret, M_ret in E. injection E as <- <-.
    exists re. done. }
  destruct E' as (r2 & E2 & -> & ->).
  eapply store_finish in E2 as [Hinv Hrec]; [|exact HI1|done|congruence|by rewrite Hs3|exact HC1|exact Hd|done|done|done|by rewrite Hrs].
  pose proof (slot_rid _ _ _ _ HI1 p d s Hd Hgs) as Hrid.
  split_and!; [done|done| |by rewrite Hrec, Hrs].
  destruct (recs r !! memory_key (mk_Rid p s)) as [b0|] eqn:Er; [|done]. exfalso.
  apply (fi_recs _ _ _ _ HI1) in Er as (q & t & e & Hk & He & Ht).
  apply memory_key_inj in Hk; [|done|by eapply finv_rid]. injection Hk as <- <-.
  assert (e = d) as -> by congruence. unfold slot_of in Ht. rewrite Hu in Ht. by case_decide.
Qed.

(** Looking a record up in the pages and in the memory map. *)
Lemma slot_lookup h pages recs0 l p d s :
  finv h pages recs0 l → pages !! p = Some d → is_int32 s →
  recs0 !! memory_key (mk_Rid p s) = slot_of h d s.
Proof.
  intros HI Hd Hs. destruct (slot_of h d s) as [b|] eqn:E.
  - apply (fi_recs _ _ _ _ HI). by exists p, s, d.
  - destruct (recs0 !! _) as [b|] eqn:Er; [|done]. exfalso.
    apply (fi_recs _ _ _ _ HI) in Er as (q & t & e & Hk & He & Ht).
    apply memory_key_inj in Hk; [|split; [by eapply finv_int32|done]|by eapply finv_rid].
    injection Hk as <- <-. congruence.
Qed.

(** [record_exists_on_page] on a fetched page. *)
Lemma exists_run r h pages p f u d rid :
  geom h → file_hdr_ r = h → crep (cache r) (fd_ r) pages {[p := (f, u)]} → pages !! p = Some d → is_page d →
  record_exists_on_page rid (p, f) r =
    (Ok (bool_decide (good_slot h (slot_no rid)) && used h d (slot_no rid)), r).
Proof using HPL.
  intros Hg Hh HC Hd Hp. unfold record_exists_on_page. rewrite BpmFacts.get_bind, Hh.
  unfold good_slot. case_decide as Hs.
  - rewrite bool_decide_true by done.
    rewrite (bind_ok _ _ _ d r) by (eapply read_run; [exact HC|simpl; by rewrite lookup_singleton_eq|done]).
    rewrite Bitmap.is_set_bit by (by apply slot_in_bitmap). done.
  - by rewrite bool_decide_false.
Qed.

(** The start of [delete_record] and [update_record]: either the record is found, or the
    page is released and an exception thrown. *)
Lemma locate_run {A} r rid (k : PageHandle → M (Rm C) A) x r' :
  rinv r → is_rid rid →
  (ph ← fetch_page_handle_unlocked (page_no rid); b ← record_exists_on_page rid ph;
   if negb b then unpin ph false;; throw (RecordNotFoundError (page_no rid) (slot_no rid)) else k ph)
    (set_hdr (hdr r) r) = (x, r') →
  (x = Err (RecordNotFoundError (page_no rid) (slot_no rid)) ∧ rinv r' ∧ recs r' = recs r ∧
   recs r !! memory_key rid = None) ∨
  (∃ e, fetch_page_handle_unlocked (page_no rid) (set_hdr (hdr r) r) = (Err e, r') ∧ x = Err e) ∨
  (∃ f pages l d r1, crep (cache r1) (fd_ r1) pages {[page_no rid := (f, false)]} ∧
     finv (hdr r) pages (recs r) l ∧ pages !! page_no rid = Some d ∧ good_slot (hdr r) (slot_no rid) ∧
     used (hdr r) d (slot_no rid) = true ∧ file_hdr_ r1 = hdr r ∧ closed_ r1 = false ∧
     shared_state_ r1 = shared_state_ r ∧ k (page_no rid, f) r1 = (x, r')).
Proof using HPL.
  intros (Hcl & pages & l & HC & HI) Hrid E.
  destruct (fetch_page_handle_unlocked (page_no rid) (set_hdr (hdr r) r)) as [[ph|e] r1] eqn:Ef.
  2:{ rewrite (bind_err _ _ _ _ _ Ef) in E. injection E as <- <-. right; left. by exists e. }
  rewrite (bind_ok _ _ _ _ _ Ef) in E.
  eapply fetch_run in Ef as (Hp & (Hs1 & Hs2 & Hs3) & Hh1 & (d & Hd) & HC1); [|exact HC|done|apply (fi_dom _ _ _ _ HI)].
  destruct ph as [p f]. simpl in *. subst p. rewrite insert_empty in HC1.
  pose proof (fi_geom _ _ _ _ HI) as Hg. pose proof (fi_page _ _ _ _ HI _ _ Hd) as Hok.
  erewrite (bind_ok _ _ r1) in E by (eapply exists_run; [exact Hg|done|exact HC1|exact Hd|apply (pk_page _ _ Hok)]).
  pose proof (slot_lookup _ _ _ _ _ _ (slot_no rid) HI Hd (proj2 Hrid)) as Hlk.
  destruct (bool_decide (good_slot (hdr r) (slot_no rid)) && used (hdr r) d (slot_no rid)) eqn:Eb; simpl in E.
  - apply andb_true_iff in Eb as [Hgs%bool_decide_eq_true Hu].
    right; right. exists f, pages, l, d, r1. split_and!; try done. congruence.
  - left. destruct (unpin (page_no rid, f) false r1) as [y r2] eqn:Eu.
    eapply unpin_run in Eu as Eu'; [|exact HC1|simpl; by rewrite lookup_singleton_eq|exact Hd|by right].
    destruct Eu' as (-> & (Ht1 & Ht2 & Ht3) & _ & HC2). simpl in HC2. rewrite delete_singleton_eq in HC2.
    rewrite (bind_ok _ _ _ _ _ Eu) in E. unfold throw in E. injection E as <- <-.
    assert (Hnone : recs r !! memory_key rid = None).
    { replace (memory_key rid) with (memory_key (mk_Rid (page_no rid) (slot_no rid))) by (by destruct rid).
      rewrite Hlk. unfold slot_of. destruct (decide (good_slot (hdr r) (slot_no rid))) as [Hgs|]; [|done].
      apply andb_false_iff in Eb as [Eb|Eb]; [by apply bool_decide_eq_false in Eb|by rewrite Eb]. }
    split_and!; [done| |by rewrite Ht3, Hs3|done]. split; [congruence|].
    exists pages, l. rewrite Ht3, Hs3. done.
Qed.

(** Why an operation on an existing record fails. *)
Definition not_located r rid (e : exn) r' : Prop :=
  (e = RecordNotFoundError (page_no rid) (slot_no rid) ∧ rinv r' ∧ recs r' = recs r ∧
   recs r !! memory_key rid = None) ∨
  (fetch_page_handle_unlocked (page_no rid) (set_hdr (hdr r) r) = (Err e, r') ∧
   shared_state_ r' = shared_state_ r ∧ fd_ r' = fd_ r ∧ closed_ r' = closed_ r).

(** A page that cannot be fetched leaves the handle and the records as they were. *)
Lemma fetch_handle_fail r rid e r' :
  fetch_page_handle_unlocked (page_no rid) (set_hdr (hdr r) r) = (Err e, r') → not_located r rid e r'.
Proof.
  intros E. right. split; [done|]. unfold fetch_page_handle_unlocked in E. rewrite BpmFacts.get_bind in E. case_decide.
  { unfold throw in E. by simplify_eq. }
  apply bind_inv_err in E as [E|(fo & r1 & E1 & E)].
  - unfold on_cache in E. destruct (pc_fetch _ _) as [y c]. by simplify_eq.
  - unfold on_cache in E1. destruct (pc_fetch _ _) as [y c]. destruct fo as [f|]; simpl in E; unfold deref, throw, mret, M_ret, mbind, M_bind in E; by simplify_eq.
Qed.

Lemma delete_record_ok r rid x r' :
  rinv r → is_rid rid → delete_record rid r = (x, r') →
  match x with
  | Ok _ => rinv r' ∧ is_Some (recs r !! memory_key rid) ∧ recs r' = delete (memory_key rid) (recs r)
  | Err e => not_located r rid e r'
  end.
Proof using HPL.
  intros Hr Hrid E. pose proof Hr as (Hcl & _). unfold delete_record in E. rewrite open_refresh in E by done.
  destruct (locate_run _ _ _ _ _ Hr Hrid E) as [(-> & ? & ? & ?)|[(e & Ef & ->)|Hfound]];
    [by left|by apply fetch_handle_fail|]. clear E.
  destruct Hfound as (f & pages & l & d & r1 & HC & HI & Hd & Hgs & Hu & Hh & Hc1 & Hsh & E).
  pose proof (fi_geom _ _ _ _ HI) as Hg. pose proof (fi_page _ _ _ _ HI _ _ Hd) as Hok.
  rewrite BpmFacts.get_bind, Hh in E.
  rewrite (bind_ok _ _ _ d r1) in E by (eapply read_run; [exact HC|simpl; by rewrite lookup_singleton_eq|done]).
  destruct (erase_effect _ Hg d (slot_no rid) Hok Hgs Hu) as (bm & Ebm & Hok1 & Hn1 & Hnx1 & Hsl1).
  rewrite (BpmFacts.deref_some _ _ _ bm) in E by done. fold (erased bm d) in E. set (d1 := erased bm d) in *.
  destruct (write_page_data (page_no rid, f) d1 r1) as [y r2] eqn:Ew.
  eapply write_run in Ew as Ew'; [|exact HC|simpl; by rewrite lookup_singleton_eq|exact Hd|apply (pk_page _ _ Hok1)].
  destruct Ew' as (-> & (Ha1 & Ha2 & Ha3) & Hh2 & HC2). rewrite (bind_ok _ _ _ _ _ Ew) in E. simpl in HC2.
  rewrite insert_singleton_eq in HC2.
  assert (Hkey : memory_key rid = memory_key (mk_Rid (page_no rid) (slot_no rid))) by by destruct rid.
  pose proof (slot_lookup _ _ _ _ _ _ (slot_no rid) HI Hd (proj2 Hrid)) as Hlk. rewrite <- Hkey in Hlk.
  assert (Hsome : is_Some (recs r !! memory_key rid)).
  { rewrite Hlk. unfold slot_of. rewrite decide_True, Hu by done. by eexists. }
  (* the page goes back to the free list if it was full *)
  assert (Hrel : ∃ r3 pages3 l3 first3,
    (if decide (num_records d1 = num_records_per_page (hdr r) - 1) then release_page_handle (page_no rid, f)
     else mret tt) r2 = (Ok tt, r3) ∧ same_file r2 r3 ∧ file_hdr_ r3 = with_first first3 (hdr r) ∧
    crep (cache r3) (fd_ r3) pages3 {[page_no rid := (f, true)]} ∧ is_Some (pages3 !! page_no rid) ∧
    finv (with_first first3 (hdr r)) pages3 (delete (memory_key rid) (recs r)) l3).
  { rewrite Hkey. destruct (decide (num_records d1 = num_records_per_page (hdr r) - 1)) as [Hfull|Hfull].
    - unfold release_page_handle. rewrite BpmFacts.get_bind.
      rewrite (bind_ok _ _ _ d1 r2) by (eapply read_run; [exact HC2|simpl; by rewrite lookup_singleton_eq|simpl; by rewrite lookup_insert_eq]).
      rewrite Hh2, Hh. set (d2 := set_next_free_page_no _ d1).
      assert (Hff : is_int32 (first_free_page_no (hdr r))).
      { destruct (chain_first _ _ _ (fi_chain _ _ _ _ HI)) as [->|[e He]]; [done|]. by eapply finv_int32. }
      destruct (set_next_effect _ Hg d1 _ Hok1 Hff) as (Hok2 & Hnx2 & Hn2 & Hsl2). fold d2 in Hok2, Hnx2, Hn2, Hsl2.
      destruct (write_page_data (page_no rid, f) d2 r2) as [z r3] eqn:Ew3.
      eapply write_run in Ew3 as Ew3'; [|exact HC2|simpl; by rewrite lookup_singleton_eq|simpl; by rewrite lookup_insert_eq|apply (pk_page _ _ Hok2)].
      destruct Ew3' as (-> & Hsf3 & Hh3 & HC3). rewrite (bind_ok _ _ _ _ _ Ew3).
      simpl in HC3. rewrite insert_insert_eq, insert_singleton_eq in HC3.
      eexists _, _, (page_no rid :: l), (page_no rid). split_and!; [done|done| |exact HC3| |].
      + simpl. by rewrite Hh3, Hh2, Hh.
      + rewrite lookup_insert_eq. by eexists.
      + eapply (finv_release _ _ _ _ HI (page_no rid) d d2 (slot_no rid) None); try done; [lia|lia|].
        intros t. by rewrite Hsl2, Hsl1.
    - eexists r2, _, l, (first_free_page_no (hdr r)). rewrite with_first_id.
      split_and!; [done|done|congruence|exact HC2|rewrite lookup_insert_eq; by eexists|].
      eapply (finv_update _ _ _ _ HI (page_no rid) d d1 (slot_no rid) None); try done.
      pose proof (pk_count _ _ Hok). pose proof (count_bound _ Hg d). lia. }
  destruct Hrel as (r3 & pages3 & l3 & first3 & E3 & (Hb1 & Hb2 & Hb3) & Hh3 & HC3 & Hp3 & HI3).
  rewrite (bind_ok _ _ _ _ _ E3) in E. unfold modify in E.
  rewrite (bind_ok (λ s, (Ok tt, _)) _ r3 tt _ eq_refl) in E.
  match type of E with mbind _ _ ?x0 = _ => set (r4 := x0) in E end.
  rewrite (bind_ok (λ s, (Ok tt, _)) _ r4 tt _ eq_refl) in E.
  eapply finish_run in E as (-> & (Hc4 & Hc5 & Hc6) & HC4); [|exact HC3|done].
  assert (Hrec : recs r' = delete (memory_key rid) (recs r)).
  { rewrite Hc6. simpl. by rewrite Hb3, Ha3, Hsh. }
  split_and!; [|done|done]. split; [rewrite Hc5; simpl; congruence|].
  exists pages3, l3. split; [done|]. rewrite Hrec, Hc6. simpl. by rewrite Hh3.
Qed.

Lemma update_record_ok r rid buf x r' :
  rinv r → is_rid rid → (Z.to_nat (record_size (hdr r)) ≤ length buf)%nat →
  update_record rid buf r = (x, r') →
  match x with
  | Ok _ => rinv r' ∧ is_Some (recs r !! memory_key rid) ∧
            recs r' = <[memory_key rid := take (Z.to_nat (record_size (hdr r))) buf]> (recs r)
  | Err e => not_located r rid e r'
  end.
Proof using HPL.
  intros Hr Hrid Hb E. pose proof Hr as (Hcl & _). unfold update_record in E. rewrite open_refresh in E by done.
  destruct (locate_run _ _ _ _ _ Hr Hrid E) as [(-> & ? & ? & ?)|[(e & Ef & ->)|Hfound]];
    [by left|by apply fetch_handle_fail|]. clear E.
  destruct Hfound as (f & pages & l & d & r1 & HC & HI & Hd & Hgs & Hu & Hh & Hc1 & Hsh & E).
  pose proof (fi_geom _ _ _ _ HI) as Hg. pose proof (fi_page _ _ _ _ HI _ _ Hd) as Hok.
  rewrite BpmFacts.get_bind, Hh in E.
  rewrite (bind_ok _ _ _ d r1) in E by (eapply read_run; [exact HC|simpl; by rewrite lookup_singleton_eq|done]).
  set (b := take (Z.to_nat (record_size (hdr r))) buf) in *.
  destruct (update_effect _ Hg d (slot_no rid) b Hok Hgs Hu) as (Hok1 & Hn1 & Hnx1 & Hsl1);
    [unfold b; rewrite length_take; lia|].
  set (d1 := set_slot (hdr r) (slot_no rid) b d) in *.
  destruct (write_page_data (page_no rid, f) d1 r1) as [y r2] eqn:Ew.
  eapply write_run in Ew as Ew'; [|exact HC|simpl; by rewrite lookup_singleton_eq|exact Hd|apply (pk_page _ _ Hok1)].
  destruct Ew' as (-> & (Ha1 & Ha2 & Ha3) & Hh2 & HC2). rewrite (bind_ok _ _ _ _ _ Ew) in E. simpl in HC2.
  rewrite insert_singleton_eq in HC2.
  assert (Hkey : memory_key rid = memory_key (mk_Rid (page_no rid) (slot_no rid))) by by destruct rid.
  pose proof (slot_lookup _ _ _ _ _ _ (slot_no rid) HI Hd (proj2 Hrid)) as Hlk. rewrite <- Hkey in Hlk.
  unfold remember, modify in E. rewrite (bind_ok (λ s, (Ok tt, _)) _ r2 tt _ eq_refl) in E.
  match type of E with mbind _ _ ?x0 = _ => set (r4 := x0) in E end.
  rewrite (bind_ok (λ s, (Ok tt, _)) _ r4 tt _ eq_refl) in E.
  eapply finish_run in E as (-> & (Hc4 & Hc5 & Hc6) & HC4); [|exact HC2|rewrite lookup_insert_eq; by eexists].
  assert (Hrec : recs r' = <[memory_key rid := b]> (recs r)).
  { rewrite Hc6. simpl. rewrite Ha3, Hsh, Hh2, Hh. done. }
  split_and!; [| |done].
  - split; [rewrite Hc5; simpl; congruence|]. exists (<[page_no rid := d1]> pages), l. split; [done|].
    rewrite Hrec, Hc6, Hkey. simpl. rewrite Hh2, Hh.
    eapply (finv_update _ _ _ _ HI (page_no rid) d d1 (slot_no rid) (Some b)); try done. by rewrite Hn1.
  - rewrite Hlk. unfold slot_of. rewrite decide_True, Hu by done. by eexists.
Qed.
(** ** Reopening a file *)

(** The records at the slots visited so far. *)
Definition loaded h (pages m : gmap Z (list byte)) (visited : list (Z * Z)) : Prop := ∀ k b,
  m !! k = Some b ↔ ∃ q t d, (q, t) ∈ visited ∧ k = memory_key (mk_Rid q t) ∧ pages !! q = Some d ∧ slot_of h d t = Some b.

Lemma loaded_slot h pages recs0 l m visited p d s :
  finv h pages recs0 l → loaded h pages m visited → pages !! p = Some d → good_slot h s →
  loaded h pages
    (match Bitmap.is_set (bitmap h d) s with
     | Some true => <[memory_key (mk_Rid p s) := get_slot h s d]> m
     | _ => m
     end) (visited ++ [(p, s)]).
Proof.
  intros HI Hm Hd Hs k b. pose proof (fi_geom _ _ _ _ HI) as Hg.
  pose proof (fi_page _ _ _ _ HI _ _ Hd) as Hok. setoid_rewrite elem_of_app. setoid_rewrite list_elem_of_singleton.
  rewrite Bitmap.is_set_bit by (apply slot_in_bitmap; [done|apply (pk_page _ _ Hok)|done]).
  fold (used h d s). destruct (used h d s) eqn:Hu.
  - assert (Hsl : slot_of h d s = Some (get_slot h s d)) by (unfold slot_of; by rewrite decide_True, Hu).
    destruct (decide (k = memory_key (mk_Rid p s))) as [->|Hne].
    + rewrite lookup_insert_eq. split.
      * intros [= <-]. exists p, s, d. split_and!; [by right|done..].
      * intros (q & t & e & _ & Hk & He & Ht).
        apply memory_key_inj in Hk; [|by eapply finv_rid|by eapply finv_rid]. injection Hk as <- <-. congruence.
    + rewrite lookup_insert_ne by done. rewrite (Hm k b). split.
      * intros (q & t & e & Hin & ?). exists q, t, e. split; [by left|done].
      * intros (q & t & e & [Hin|Heq] & Hk & ?); [by exists q, t, e|]. simplify_eq.
  - assert (Hsl : slot_of h d s = None) by (unfold slot_of; by rewrite decide_True, Hu).
    rewrite (Hm k b). split.
    + intros (q & t & e & Hin & ?). exists q, t, e. split; [by left|done].
    + intros (q & t & e & [Hin|Heq] & Hk & He & Ht); [by exists q, t, e|]. simplify_eq.
Qed.

Lemma loaded_page h pages recs0 l p d : 
  finv h pages recs0 l → pages !! p = Some d → ∀ ss m visited,
  (∀ s, s ∈ ss → good_slot h s) → loaded h pages m visited →
  loaded h pages
    (foldl (λ m s, match Bitmap.is_set (bitmap h d) s with
                   | Some true => <[memory_key (mk_Rid p s) := get_slot h s d]> m
                   | _ => m
                   end) m ss) (visited ++ ((λ s, (p, s)) <$> ss)).
Proof.
  intros HI Hd. induction ss as [|s ss IH]; intros m visited Hss Hm; simpl; [by rewrite app_nil_r|].
  rewrite (cons_middle (p, s)), app_assoc. apply IH; [set_solver|]. eapply loaded_slot; [done..|]. apply Hss. set_solver.
Qed.

Lemma load_pages h pages recs0 l ps : ∀ r r' visited,
  finv h pages recs0 l → file_hdr_ r = h → crep (cache r) (fd_ r) pages ∅ →
  (∀ p, p ∈ ps → 1 ≤ p < num_pages h) → loaded h pages (recs r) visited →
  Bpm.for_each load_page ps r = (Ok tt, r') →
  file_hdr_ r' = h ∧ fd_ r' = fd_ r ∧ closed_ r' = closed_ r ∧ hdr r' = hdr r ∧ crep (cache r') (fd_ r') pages ∅ ∧
  loaded h pages (recs r') (visited ++ (p ← ps; (λ s, (p, s)) <$> seqZ 0 (num_records_per_page h))).
Proof using HPL.
  induction ps as [|p ps IH]; intros r r' visited HI Hh HC Hps Hld E; simpl in E.
  { unfold mret, M_ret in E. injection E as <-. simpl. by rewrite app_nil_r. }
  apply bind_inv_ok in E as ([] & r1 & E1 & E).
  destruct (proj2 (fi_dom _ _ _ _ HI p)) as [d Hd]; [apply Hps; set_solver|].
  unfold load_page in E1. rewrite BpmFacts.get_bind in E1.
  apply bind_inv_ok in E1 as (fo & r2 & E2 & E1). unfold on_cache in E2.
  destruct (pc_fetch (mk_PageId (fd_ r) p) (cache r)) as [y c'] eqn:Ec. injection E2 as -> <-.
  destruct fo as [f|]; [|done]. rewrite (BpmFacts.deref_some _ _ _ f) in E1 by done.
  eapply crep_fetch in Ec as HC1; [|exact HC|done|exact Hd]. rewrite insert_empty in HC1.
  rewrite (bind_ok _ _ _ d (set_cache c' r)) in E1.
  2:{ eapply (read_run (set_cache c' r)); [exact HC1|simpl; by rewrite lookup_singleton_eq|done]. }
  apply bind_inv_ok in E1 as ([] & r3 & E3 & E1). unfold modify in E3. injection E3 as <-.
  eapply (unpin_run _ pages {[p := (f, false)]}) in E1 as (_ & (Hs1 & Hs2 & Hs3) & Hh1 & HC2);
    [|exact HC1|simpl; by rewrite lookup_singleton_eq|exact Hd|by right].
  simpl in HC2. rewrite delete_singleton_eq in HC2. simpl in Hs1, Hs2, Hs3, Hh1.
  eapply IH in E as (A & B & B2 & B3 & HC3 & Hld3); [|exact HI|congruence|exact HC2|set_solver|].
  - split_and!; [done|congruence|congruence|by rewrite B3, Hs3|done|].
    simpl. rewrite app_assoc. exact Hld3.
  - rewrite Hs3. simpl. rewrite Hh. eapply loaded_page; [exact HI|exact Hd| |exact Hld].
    intros s Hs%elem_of_seqZ. unfold good_slot. lia.
Qed.

(** The pages of file [fd1] on the disk of [c1] are what [c0] shows of file [fd0]: as a new pool
    on the same disk does, or the same pool with no page of the file pinned. *)
Record reopens (c1 : C) (fd1 : Z) (c0 : C) (fd0 : Z) : Prop := {
  ro_inv : pc_inv c0;
  ro_pages : ∀ p d, 0 ≤ p → pc_disk c1 (mk_PageId fd1 p) = Ok d →
    pc_disk c0 (mk_PageId fd0 p) = Ok d ∧ pc_content c0 (mk_PageId fd0 p) = Ok d;
  ro_unheld : ∀ p, pc_unheld c0 (mk_PageId fd0 p)
}.

Lemma finv_roundtrip h pages m l : finv h pages m l → RmFileHdr_of_bytes (RmFileHdr_bytes h) = h.
Proof.
  intros HI. pose proof (fi_geom _ _ _ _ HI) as Hg. pose proof (fi_num _ _ _ _ HI). pose proof (n_int32 _ Hg).
  destruct Hg as [H1 H2 H3 H4]. unfold PAGE_SIZE in *.
  assert (record_size h ≤ num_records_per_page h * record_size h) by nia.
  apply RmFileHdr_roundtrip; try (unfold is_int32; lia).
  destruct (chain_first _ _ _ (fi_chain _ _ _ _ HI)) as [->|[e He]]; [done|]. by eapply finv_int32.
Qed.

Lemma load_ok r h pages m l r' :
  finv h pages m l → file_hdr_ r = h → hdr r = h → closed_ r = false → crep (cache r) (fd_ r) pages ∅ →
  records_loaded (shared_state_ r) = false →
  (∀ p d, pages !! p = Some d → pc_disk (cache r) (mk_PageId (fd_ r) p) = Ok d) →
  pc_file_length (fd_ r) (cache r) < 2147483648 → load_memory_records r = (Ok tt, r') →
  rinv r' ∧ hdr r' = h ∧ recs r' = m.
Proof using HPL.
  intros HI Hh Hsh Hcl HC Hrl Hdk Hlen E. unfold load_memory_records in E.
  rewrite BpmFacts.get_bind, Hrl in E. unfold modify in E. rewrite (bind_ok (λ s, (Ok tt, _)) _ r tt _ eq_refl) in E.
  apply bind_inv_ok in E as (size & r0 & Es & E). unfold file_size in Es. injection Es as Hsz <-.
  apply bind_inv_ok in E as ([] & r1 & E1 & E). injection E as <-. simpl in Hsz.
  assert (Hfp : num_pages h ≤ Z.max 1 (Z.quot size PAGE_SIZE)).
  { destruct (decide (num_pages h = 1)) as [->|Hn1]; [lia|]. pose proof (fi_num _ _ _ _ HI).
    destruct (proj2 (fi_dom _ _ _ _ HI (num_pages h - 1))) as [d Hd]; [lia|].
    destruct (pc_file_size_ok (mk_PageId (fd_ r) (num_pages h - 1)) (cache r) d) as [H1 H2]; [simpl; lia|by apply Hdk|].
    simpl in H1, H2. unfold PAGE_SIZE in *. rewrite int32_id in H1 by (unfold is_int32; lia). rewrite Hsz in H1. injection H1 as ->.
    rewrite Z.quot_div_nonneg by lia. assert (num_pages h ≤ pc_file_length (fd_ r) (cache r) / 4096) by (apply Z.div_le_lower_bound; lia). lia. }
  set (fp := Z.quot size PAGE_SIZE) in *. rewrite Hh in E1.
  assert (Hlist : seqZ RM_FIRST_RECORD_PAGE (Z.min (num_pages h) fp - RM_FIRST_RECORD_PAGE) = seqZ 1 (num_pages h - 1)).
  { unfold RM_FIRST_RECORD_PAGE. pose proof (fi_num _ _ _ _ HI). destruct (decide (num_pages h ≤ fp)) as [?|?]; [by rewrite Z.min_l by lia|].
    rewrite !seqZ_nil by lia. done. }
  rewrite Hlist in E1. clear Hlist Hfp Hsz.
  eapply (load_pages h pages m l _ _ _ []) in E1 as (Hh1 & Hf1 & Hc1 & Hsh1 & HC1 & Hld); [|exact HI|exact Hh|exact HC| |].
  - simpl in *. assert (Hrec : recs r1 = m).
    { apply map_eq. intros k. apply option_eq. intros b. rewrite (Hld k b), (fi_recs _ _ _ _ HI k b). split.
      - intros (q & t & d & _ & ? & ? & ?). by exists q, t, d.
      - intros (q & t & d & ? & Hd & Ht). exists q, t, d. split_and!; try done.
        apply list_elem_of_bind. exists q. split.
        + apply list_elem_of_fmap. exists t. split; [done|]. apply elem_of_seqZ.
          unfold slot_of in Ht. case_decide as Hg; [|done]. unfold good_slot in Hg. lia.
        + apply elem_of_seqZ. assert (1 ≤ q < num_pages h) by (apply (fi_dom _ _ _ _ HI); by eexists). lia. }
    split_and!; [|by rewrite Hsh1, <- Hsh|done]. split; [simpl; congruence|]. exists pages, l. split; [done|]. simpl.
    rewrite Hsh1. simpl. by rewrite Hsh, Hrec.
  - intros p Hp%elem_of_seqZ. lia.
  - intros k b. simpl. rewrite lookup_empty. split; [done|]. intros (? & ? & ? & H%elem_of_nil & _). done.
Qed.

Lemma close_ok r h last r1 :
  rinv r → num_pages (file_hdr_ r) ≤ num_pages (hdr r) → close_file r = (Ok (Some (h, last)), r1) →
  h = hdr r ∧ pc_inv (cache r1) ∧ ∀ q d, BpmFacts.valid_pid q → fd q = fd_ r → pc_content (cache r) q = Ok d → pc_disk (cache r1) q = Ok d.
Proof using HPL.
  intros (Hcl & pages & l & HC & HI) Hn E. unfold close_file in E. rewrite BpmFacts.get_bind, Hcl in E.
  rewrite decide_False in E by lia. apply bind_inv_ok in E as ([] & r2 & E1 & E). unfold put in E1. injection E1 as <-.
  apply bind_inv_ok in E as ([] & r3 & E1 & E). unfold mret, M_ret in E. injection E as <- _ <-. unfold on_cache in E1. simpl in E1.
  destruct (pc_flush_all (fd_ r) (cache r)) as [y c] eqn:Ef. simplify_eq. split; [done|].
  destruct (pc_flush_all_ok _ _ _ (cr_inv _ _ _ _ HC) Ef) as (A & _ & B). done.
Qed.

Lemma reload_ok r h last r1 r0 r' :
  rinv r → num_pages (file_hdr_ r) ≤ num_pages (hdr r) → close_file r = (Ok (Some (h, last)), r1) →
  reopens (cache r1) (fd_ r) (cache r0) (fd_ r0) → pc_file_length (fd_ r0) (cache r0) < 2147483648 → closed_ r0 = false →
  header_loaded (shared_state_ r0) = false → records_loaded (shared_state_ r0) = false →
  open_handle (RmFileHdr_of_bytes (RmFileHdr_bytes h)) r0 = (Ok tt, r') →
  rinv r' ∧ hdr r' = hdr r ∧ recs r' = recs r.
Proof using HPL.
  intros Hr Hn Ec [Ri Rp Ru] Hlen Hcl Hhl Hrl E. destruct (close_ok _ _ _ _ Hr Hn Ec) as (-> & _ & Hdk).
  destruct Hr as (_ & pages & l & HC & HI). rewrite (finv_roundtrip _ _ _ _ HI) in E.
  unfold open_handle, refresh_hdr, modify in E. do 4 rewrite (bind_ok (λ s, (Ok tt, _)) _ _ tt _ eq_refl) in E. rewrite Hhl in E. simpl in E.
  assert (Hpg : ∀ p d, pages !! p = Some d → pc_disk (cache r0) (mk_PageId (fd_ r0) p) = Ok d ∧ pc_content (cache r0) (mk_PageId (fd_ r0) p) = Ok d).
  { intros p d Hp. destruct (cr_pages _ _ _ _ HC _ _ Hp) as (H0 & Hc & _). apply Rp; [done|]. by apply Hdk. }
  eapply load_ok in E; [exact E|exact HI|done|done|done| |done|intros; by apply Hpg|done].
  split; simpl; [done| |intros ? ? ?; by rewrite lookup_empty|done]. intros p d Hp. destruct (cr_pages _ _ _ _ HC _ _ Hp) as (H0 & _ & Hlp). split_and!; [done|by apply Hpg|done].
Qed.

(** A file of 2 to 4 GiB has a negative size: none of its records is loaded. *)
Theorem large_file_loads_nothing r d r' :
  pc_disk (cache r) (mk_PageId (fd_ r) 0) = Ok d → 2147483648 ≤ pc_file_length (fd_ r) (cache r) < 4294967296 →
  records_loaded (shared_state_ r) = false → load_memory_records r = (Ok tt, r') → recs r' = ∅.
Proof using HPL.
  intros Hd Hl Hrl E. unfold load_memory_records in E. rewrite BpmFacts.get_bind, Hrl in E. unfold modify in E.
  rewrite (bind_ok (λ s, (Ok tt, _)) _ r tt _ eq_refl) in E.
  apply bind_inv_ok in E as (size & r0 & Es & E). unfold file_size in Es. injection Es as Hsz <-. simpl in Hsz.
  destruct (pc_file_size_ok (mk_PageId (fd_ r) 0) (cache r) d) as [H1 _]; [simpl; lia|done|]. simpl in H1. rewrite Hsz in H1. injection H1 as ->.
  rewrite seqZ_nil in E; [unfold mbind, M_bind in E; by injection E as <-|]. set (len := pc_file_length (fd_ r) (cache r)) in *.
  assert (int32 len = len - 4294967296) as -> by (unfold wraps; change (2^(32-1)) with 2147483648; change (2^32) with 4294967296; replace (len + 2147483648) with ((len - 2147483648) + 1 * 4294967296) by lia; rewrite Z.mod_add, Z.mod_small by lia; lia).
  assert (Z.quot (len - 4294967296) PAGE_SIZE ≤ 0) by (unfold PAGE_SIZE; replace (len - 4294967296) with (- (4294967296 - len)) by lia; rewrite Z.quot_opp_l by lia; pose proof (Z.quot_pos (4294967296 - len) 4096); lia).
  unfold RM_FIRST_RECORD_PAGE. lia.
Qed.

(** ** Scans *)

Lemma scan_all_from rids pos fuel :
  (∀ x, x ∈ rids → page_no x ≠ RM_NO_PAGE) → (pos < length rids)%nat → (length rids - pos < fuel)%nat →
  scan_all fuel (mk_RmScan rids pos (default no_rid (rids !! pos))) = drop pos rids.
Proof.
  intros Hn. revert pos. induction fuel as [|fuel IH]; intros pos Hp Hf; [lia|].
  destruct (lookup_lt_is_Some_2 rids pos Hp) as [x Hx].
  simpl. rewrite Hx. simpl. unfold scan_is_end. simpl.
  rewrite bool_decide_false by (apply Hn; by eapply list_elem_of_lookup_2).
  rewrite (drop_S _ x) by done. f_equal. unfold scan_next. simpl. case_decide as Hd.
  - rewrite IH by lia. f_equal. lia.
  - rewrite drop_ge by lia. destruct fuel; [done|]. done.
Qed.

Lemma scan_all_spec rids :
  (∀ x, x ∈ rids → page_no x ≠ RM_NO_PAGE) → scan_all (S (length rids)) (RmScan_init rids) = rids.
Proof.
  intros Hn. destruct rids as [|x rids]; [done|].
  exact (scan_all_from (x :: rids) 0 (S (length (x :: rids))) Hn ltac:(simpl; lia) ltac:(simpl; lia)).
Qed.

#[local] Instance rid_le_total : Total rid_le.
Proof. intros x y. unfold rid_le. lia. Qed.

Lemma snapshot_ok r rids r' :
  rinv r → snapshot_rids r = (Ok rids, r') →
  r' = r ∧ Sorted rid_le rids ∧ NoDup rids ∧
  (∀ rid, rid ∈ rids ↔ is_rid rid ∧ is_Some (recs r !! memory_key rid)) ∧
  (∀ rid, rid ∈ rids → page_no rid ≠ RM_NO_PAGE).
Proof.
  intros (Hcl & pages & l & HC & HI) E. unfold snapshot_rids, ensure_open_locked, get, mbind, M_bind, mret, M_ret in E.
  rewrite Hcl in E. injection E as <- <-.
  set (ks := (map_to_list (recs r)).*1).
  assert (Hks : ∀ k, k ∈ ks ↔ is_Some (recs r !! k)).
  { intros k. unfold ks. rewrite list_elem_of_fmap. split.
    - intros ([k' v] & -> & Hin%elem_of_map_to_list). by eexists.
    - intros [v Hv]. exists (k, v). split; [done|]. by apply elem_of_map_to_list. }
  assert (Hkr : ∀ k, k ∈ ks → ∃ p s d b, k = memory_key (mk_Rid p s) ∧ is_rid (mk_Rid p s) ∧ pages !! p = Some d ∧ slot_of (hdr r) d s = Some b).
  { intros k [b Hb]%Hks. apply (fi_recs _ _ _ _ HI) in Hb as (p & s & d & -> & Hd & Hs).
    exists p, s, d, b. split_and!; try done. by eapply finv_rid. }
  assert (Hin : ∀ rid, rid ∈ merge_sort rid_le (key_to_rid <$> ks) ↔ is_rid rid ∧ is_Some (recs r !! memory_key rid)).
  { intros rid. rewrite (merge_sort_Permutation rid_le), list_elem_of_fmap. split.
    - intros (k & -> & Hk). destruct (Hkr k Hk) as (p & s & d & b & -> & Hrid & _).
      rewrite key_rid by done. split; [done|]. by apply Hks.
    - intros [Hrid Hs]. exists (memory_key rid). rewrite key_rid by done. split; [done|]. by apply Hks. }
  split_and!; [done| | |done|].
  - apply Sorted_merge_sort, _.
  - rewrite (merge_sort_Permutation rid_le). apply NoDup_fmap_2_strong.
    + intros k1 k2 H1 H2 Heq. destruct (Hkr _ H1) as (? & ? & ? & ? & -> & Hr1 & _).
      destruct (Hkr _ H2) as (? & ? & ? & ? & -> & Hr2 & _). rewrite !key_rid in Heq by done. by rewrite Heq.
    + apply NoDup_fst_map_to_list.
  - intros rid [Hrid [b Hb]]%Hin Hp. apply (fi_recs _ _ _ _ HI) in Hb as (p & s & d & Hk & Hd & Hs).
    apply memory_key_inj in Hk; [|done|by eapply finv_rid]. subst rid. simpl in Hp.
    assert (1 ≤ p < num_pages (hdr r)) by (apply (fi_dom _ _ _ _ HI); by eexists). unfold RM_NO_PAGE in *. lia.
Qed.

(** ** Properties *)

(** C19: [insert_record] stores the record under a record id that was not in use and leaves
    every other record as it was; the invariant of the file is kept, also when the record
    fills its page or needs a new one. *)
Theorem insert_record_correct r buf rid r' :
  rinv r → num_pages (hdr r) < 2147483646 → (Z.to_nat (record_size (hdr r)) ≤ length buf)%nat →
  insert_record buf r = (Ok rid, r') →
  rinv r' ∧ is_rid rid ∧ recs r !! memory_key rid = None ∧
  recs r' = <[memory_key rid := take (Z.to_nat (record_size (hdr r))) buf]> (recs r).
Proof using HPL. apply insert_record_ok. Qed.

(** C20: [delete_record] removes exactly the record it names.  It fails only if there is no
    such record, and then the records and the invariant of the file are as before, or if the
    page of the record cannot be fetched, and then the records, the shared header and the
    handle are as before and the pool is as the failed fetch left it. *)
Theorem delete_record_correct r rid x r' :
  rinv r → is_rid rid → delete_record rid r = (x, r') →
  match x with
  | Ok _ => rinv r' ∧ is_Some (recs r !! memory_key rid) ∧ recs r' = delete (memory_key rid) (recs r)
  | Err e => not_located r rid e r'
  end.
Proof using HPL. apply delete_record_ok. Qed.

(** C21: [update_record] replaces exactly the record it names; it fails as [delete_record]
    does. *)
Theorem update_record_correct r rid buf x r' :
  rinv r → is_rid rid → (Z.to_nat (record_size (hdr r)) ≤ length buf)%nat →
  update_record rid buf r = (x, r') →
  match x with
  | Ok _ => rinv r' ∧ is_Some (recs r !! memory_key rid) ∧
            recs r' = <[memory_key rid := take (Z.to_nat (record_size (hdr r))) buf]> (recs r)
  | Err e => not_located r rid e r'
  end.
Proof using HPL. apply update_record_ok. Qed.

(** C22: the records of a table survive closing and reopening its file.  [close_file] flushes
    the pages and gives the header, and a handle opened on a fresh shared state, on any cache
    that shows the pages the disk then has (a new pool after a restart, say) loads exactly the
    records that were in memory: every record the operations stored is on its page and on disk,
    and nothing else is.  The header goes through its bytes; the file is shorter than 2 GiB
    ([get_file_size] returns an [int]: a larger one loads nothing), the copy of the header in
    the closing handle is not ahead of the shared one, and both calls return. *)
Theorem reload_records r h last r1 r0 r' :
  rinv r → num_pages (file_hdr_ r) ≤ num_pages (hdr r) → close_file r = (Ok (Some (h, last)), r1) →
  reopens (cache r1) (fd_ r) (cache r0) (fd_ r0) → pc_file_length (fd_ r0) (cache r0) < 2147483648 → closed_ r0 = false →
  header_loaded (shared_state_ r0) = false → records_loaded (shared_state_ r0) = false →
  open_handle (RmFileHdr_of_bytes (RmFileHdr_bytes h)) r0 = (Ok tt, r') →
  rinv r' ∧ hdr r' = hdr r ∧ recs r' = recs r.
Proof using HPL. apply reload_ok. Qed.

(** C23: a scan terminates and visits every record of the file exactly once, in the order of
    the record ids. *)
Theorem scan_complete r rids r' :
  rinv r → snapshot_rids r = (Ok rids, r') →
  scan_all (S (length rids)) (RmScan_init rids) = rids ∧ Sorted rid_le rids ∧ NoDup rids ∧
  ∀ rid, rid ∈ rids ↔ is_rid rid ∧ is_Some (recs r !! memory_key rid).
Proof.
  intros HI E. destruct (snapshot_ok r rids r' HI E) as (_ & Hs & Hn & Hin & Hp).
  split_and!; [by apply scan_all_spec|done..].
Qed.

(** The walk of [remove_page_from_free_list] over the free list ends: the iterations the
    model allows for are more than the list has pages, and allowing more of them does not
    change the result. *)
Theorem free_list_walk_ends r pages l p f u nx :
  finv (file_hdr_ r) pages (recs r) l → crep (cache r) (fd_ r) pages {[p := (f, u)]} →
  first_free_page_no (file_hdr_ r) ≠ p →
  ∀ k, unlink (S (Z.to_nat (num_pages (file_hdr_ r))) + k) (p, f) nx (first_free_page_no (file_hdr_ r)) r =
       unlink (S (Z.to_nat (num_pages (file_hdr_ r)))) (p, f) nx (first_free_page_no (file_hdr_ r)) r.
Proof using HPL.
  intros HI HC Hne.
  assert (Hlen : (length l < Z.to_nat (num_pages (file_hdr_ r)))%nat).
  { assert (length l ≤ length (seqZ 1 (num_pages (file_hdr_ r) - 1)))%nat as Hle.
    { apply submseteq_length, NoDup_submseteq; [apply (fi_nodup _ _ _ _ HI)|]. intros q Hq.
      apply (fi_free _ _ _ _ HI) in Hq as (d & Hd & _). apply elem_of_seqZ.
      assert (1 ≤ q < num_pages (file_hdr_ r)) by (apply (fi_dom _ _ _ _ HI); by eexists). lia. }
    rewrite length_seqZ in Hle. pose proof (fi_num _ _ _ _ HI). lia. }
  induction k as [|k IH]; [by rewrite Nat.add_0_r|].
  rewrite <- IH, Nat.add_succ_r.
  eapply (unlink_fuel (file_hdr_ r) p f pages nx l); [exact HC|done|apply (fi_dom _ _ _ _ HI)|apply (fi_chain _ _ _ _ HI)|done|lia].
Qed.
End spec.

(** ** The layout of pages *)

Lemma make_hdr_geom rs : 1 ≤ rs ≤ RM_MAX_RECORD_SIZE → geom (make_hdr rs).
Proof.
  unfold RM_MAX_RECORD_SIZE. intros Hrs. unfold make_hdr, Bitmap.BITMAP_WIDTH, sizeof_RmFileHdr, PAGE_SIZE.
  change (8 * (4096 - 1 - 20) + 1) with 32601. set (n := Z.quot 32601 (1 + rs * 8)).
  assert (Hn : n = 32601 / (1 + rs * 8)) by (apply Z.quot_div_nonneg; lia).
  assert (Hlo : 0 < n) by (rewrite Hn; apply Z.div_str_pos; lia).
  assert (Hhi : n * (1 + rs * 8) ≤ 32601).
  { rewrite Hn. rewrite Z.mul_comm. apply Z.mul_div_le. lia. }
  rewrite Z.quot_div_nonneg by lia.
  pose proof (Z.div_mod (n + 8 - 1) 8 ltac:(lia)). pose proof (Z.mod_pos_bound (n + 8 - 1) 8 ltac:(lia)).
  split; simpl; [lia|lia|lia|]. unfold PAGE_SIZE. nia.
Qed.

(** C39: For every record size the code accepts, [create_file] writes a header whose layout
    fits: the page header, the bitmap and all the slots lie within a page, the bitmap has a
    bit for each slot, and there is at least one slot; reading the header page back gives
    that header.  The new file is left closed.  The disk is well formed and has no such file, and
    the descriptor that [open] returns is not in use. *)
Theorem create_file_layout (os_fd : gmap Z string → Z) (filename : string) (rs : Z) (d : Disk.DiskManager) :
  1 ≤ rs ≤ RM_MAX_RECORD_SIZE → Disk.wf d → Disk.os_files d !! filename = None →
  0 ≤ os_fd (Disk.fd2path_ d) → Disk.fd2path_ d !! os_fd (Disk.fd2path_ d) = None →
  ∃ d' bs, create_file os_fd filename rs d = (Ok tt, d') ∧ Disk.os_files d' !! filename = Some bs ∧
    RmFileHdr_of_bytes (take (Z.to_nat sizeof_RmFileHdr) bs) = make_hdr rs ∧ geom (make_hdr rs) ∧
    Disk.fd2path_ d' = Disk.fd2path_ d ∧ Disk.path2fd_ d' = Disk.path2fd_ d.
Proof.
  intros Hrs Hwf Hno Hfd Hfresh. pose proof (make_hdr_geom rs Hrs) as Hg.
  assert (Hpath : Disk.path2fd_ d !! filename = None).
  { destruct (Disk.path2fd_ d !! filename) as [fd|] eqn:E; [|done].
    apply (Disk.wf_p2f _ Hwf) in E. apply (Disk.wf_open _ Hwf) in E as [? ?]. congruence. }
  set (fd := os_fd (Disk.fd2path_ d)) in *.
  assert (Hlen : length (RmFileHdr_bytes (make_hdr rs)) = 20%nat).
  { unfold RmFileHdr_bytes. len. }
  exists (Disk.set_tables (Disk.path2fd_ d) (Disk.fd2path_ d)
    (Disk.set_files (<[filename := RmFileHdr_bytes (make_hdr rs)]> (Disk.os_files d)) d)), (RmFileHdr_bytes (make_hdr rs)).
  split_and!; try done.
  - unfold create_file. unfold RM_MAX_RECORD_SIZE in *. rewrite decide_False by lia.
    set (d1 := Disk.set_files (<[filename := []]> (Disk.os_files d)) d).
    rewrite (bind_ok _ _ d tt d1).
    2:{ unfold Disk.create_file, Disk.is_file, get, mbind, M_bind. by rewrite Hno. }
    set (d2 := Disk.set_tables (<[filename := fd]> (Disk.path2fd_ d)) (<[fd := filename]> (Disk.fd2path_ d)) d1).
    rewrite (bind_ok _ _ d1 fd d2).
    2:{ unfold Disk.open_file, Disk.is_file, get, mbind, M_bind. simpl. rewrite Hpath.
        by rewrite lookup_insert_eq. }
    set (d3 := Disk.set_files (<[filename := RmFileHdr_bytes (make_hdr rs)]> (Disk.os_files d)) d2).
    rewrite (bind_ok _ _ d2 tt d3).
    2:{ unfold Disk.write_page. rewrite decide_False by lia.
        unfold Disk.pwrite, Disk.file_of, get, mbind, M_bind. cbn [Disk.fd2path_ d2 Disk.set_tables].
        rewrite lookup_insert_eq. simpl. rewrite lookup_insert_eq. simpl.
        unfold put, mret, M_ret. rewrite insert_insert_eq.
        unfold d3, Disk.file_write, write_bytes. by rewrite take_0. }
    unfold Disk.close_file, get, put, mbind, M_bind. simpl. rewrite lookup_insert_eq.
    unfold Disk.set_tables, Disk.set_files. simpl. by rewrite !delete_insert_id by done.
  - apply lookup_insert_eq.
  - rewrite take_ge by (rewrite Hlen; done).
    pose proof (n_int32 _ Hg). pose proof (g_bitmap _ Hg). pose proof (g_fits _ Hg). pose proof (g_size _ Hg).
    unfold PAGE_SIZE, RM_MAX_RECORD_SIZE in *.
    assert (record_size (make_hdr rs) = rs ∧ num_pages (make_hdr rs) = 1 ∧
            first_free_page_no (make_hdr rs) = RM_NO_PAGE) as (E1 & E2 & E3) by done.
    assert (0 ≤ num_records_per_page (make_hdr rs) * record_size (make_hdr rs)) by (apply Z.mul_nonneg_nonneg; lia).
    set (h := make_hdr rs) in *. clearbody h. unfold RM_NO_PAGE in *.
    apply RmFileHdr_roundtrip; unfold is_int32; lia.
Qed.

Lemma create_file_layout_witness :
  ∃ d' bs, create_file (λ _, 5) "r" 100 Disk.sample_disk = (Ok tt, d') ∧ Disk.os_files d' !! "r" = Some bs.
Proof.
  destruct (create_file_layout (λ _, 5) "r" 100 Disk.sample_disk) as (d' & bs & H1 & H2 & _).
  - unfold RM_MAX_RECORD_SIZE. lia.
  - exact Disk.sample_disk_wf.
  - vm_compute; reflexivity.
  - lia.
  - vm_compute; reflexivity.
  - exists d', bs. split; [exact H1|exact H2].
Defined.

(** ** A concrete table *)

(** An empty file of records of 2000 bytes, two to a page, in the concrete pool. *)
Definition sample_hdr : RmFileHdr := mk_RmFileHdr 2000 1 2 RM_NO_PAGE 1.
Definition sample_file : Rm (Bpm.BufferPoolManager Disk.DiskManager Z) :=
  mk_Rm BpmSpec.sample_pool 1 3 sample_hdr false (mk_Shared sample_hdr true true 1 ∅).
Definition rec_a : list byte := replicate 2000 Byte.x61.
Definition rec_b : list byte := replicate 2000 Byte.x62.

Lemma sample_crep : crep BpmSpec.sample_pool 3 {[0 := replicate (Z.to_nat 4096) Byte.x01]} ∅.
Proof.
  split.
  - apply BpmSpec.sample_pool_binv.
  - intros p d [<- <-]%lookup_singleton_Some. split_and!; [lia|vm_compute; reflexivity|vm_compute; reflexivity].
  - intros p f u. by rewrite lookup_empty.
  - intros p _ f pg. unfold BpmSpec.cached.
    destruct (BpmSpec.shard_of BpmSpec.sample_pool (mk_PageId 3 p)) as [s|] eqn:Es; [|done].
    unfold BpmSpec.shard_of in Es. apply list_elem_of_lookup_2 in Es. simpl in Es.
    apply list_elem_of_singleton in Es. by subst s.
Qed.

Lemma sample_finv : finv sample_hdr ∅ ∅ [].
Proof.
  split; try done.
  - intros p. rewrite lookup_empty. simpl. split; [by intros []|lia].
  - intros k b. split; [by rewrite lookup_empty|]. intros (? & ? & ? & _ & H & _). by rewrite lookup_empty in H.
  - constructor.
  - intros p. split; [by intros ?%elem_of_nil|]. intros (? & H & _). by rewrite lookup_empty in H.
Qed.

Lemma sample_file_rinv : rinv sample_file.
Proof.
  split; [done|]. exists ∅, []. split; [|apply sample_finv].
  eapply crep_sub; [apply sample_crep|]. intros p d. by rewrite lookup_empty.
Qed.

(** The same file while page 0 of the disk file is pinned. *)
Definition pinned_file : Rm (Bpm.BufferPoolManager Disk.DiskManager Z) :=
  mk_Rm BpmSpec.pool1 1 3 sample_hdr false (mk_Shared sample_hdr true true 1 ∅).

Lemma pinned_crep : crep BpmSpec.pool1 3 ∅ {[0 := (0, false)]}.
Proof.
  eapply crep_sub; [eapply (crep_fetch BpmSpec.sample_pool 3 _ ∅ 0)|].
  - apply sample_crep.
  - done.
  - by rewrite lookup_singleton_eq.
  - vm_compute; reflexivity.
  - intros p d. by rewrite lookup_empty.
Qed.

Lemma free_list_walk_ends_witness :
  unlink (S 1 + 3) (0, 0) 7 RM_NO_PAGE pinned_file = unlink (S 1) (0, 0) 7 RM_NO_PAGE pinned_file.
Proof.
  exact (free_list_walk_ends pinned_file ∅ [] 0 0 false 7 sample_finv pinned_crep ltac:(vm_compute; congruence) 3%nat).
Defined.

Definition file1 := (insert_record rec_a sample_file).2.
Definition rid0 : Rid := mk_Rid 1 0.

Lemma file1_run : insert_record rec_a sample_file = (Ok rid0, file1).
Proof. vm_compute. reflexivity. Qed.

Lemma file1_rinv : rinv file1.
Proof.
  apply (insert_record_ok sample_file rec_a rid0 file1);
    [apply sample_file_rinv|done|apply Nat.leb_le; vm_compute; reflexivity|apply file1_run].
Qed.

Lemma rid0_ok : is_rid rid0.
Proof. done. Qed.

Lemma insert_record_correct_witness : records (shared_state_ file1) !! memory_key rid0 = Some rec_a.
Proof.
  destruct (insert_record_correct sample_file rec_a rid0 file1 sample_file_rinv) as (_ & _ & _ & H).
  - vm_compute; reflexivity.
  - apply Nat.leb_le; vm_compute; reflexivity.
  - exact file1_run.
  - rewrite H. vm_compute; reflexivity.
Defined.

Lemma delete_record_correct_witness :
  ∃ r', delete_record rid0 file1 = (Ok tt, r') ∧ records (shared_state_ r') !! memory_key rid0 = None.
Proof.
  exists (delete_record rid0 file1).2. split; [vm_compute; reflexivity|].
  destruct (delete_record_correct file1 rid0 (Ok tt) (delete_record rid0 file1).2 file1_rinv rid0_ok) as (_ & _ & H).
  - vm_compute; reflexivity.
  - rewrite H. apply lookup_delete_eq.
Defined.

Lemma update_record_correct_witness :
  ∃ r', update_record rid0 rec_b file1 = (Ok tt, r') ∧ records (shared_state_ r') !! memory_key rid0 = Some rec_b.
Proof.
  exists (update_record rid0 rec_b file1).2. split; [vm_compute; reflexivity|].
  destruct (update_record_correct file1 rid0 rec_b (Ok tt) (update_record rid0 rec_b file1).2 file1_rinv rid0_ok) as (_ & _ & H).
  - apply Nat.leb_le; vm_compute; reflexivity.
  - vm_compute; reflexivity.
  - rewrite H, lookup_insert_eq. vm_compute; reflexivity.
Defined.

(** A new pool on the disk of an old one shows what the disk has. *)
Lemma fresh_pool_reopens {D} `{PageStore D} {L} `{LogSink L} (b : Bpm.BufferPoolManager D L) size l file :
  0 ≤ size → BpmSpec.binv b →
  reopens b file (BpmSpec.with_log l (Bpm.make_bpm size (Bpm.disk_manager_ b))) file.
Proof.
  intros Hsz HB. destruct (BpmSpec.binv_shard b (mk_PageId 0 0) HB) as (s0 & _ & HI).
  assert (Hwf : ps_wf (Bpm.disk_manager_ b)) by exact (BpmFacts.si_disk _ _ _ _ HI).
  split.
  - by apply BpmSpec.make_bpm_binv.
  - intros p d Hp Hd. split; [by destruct l|]. simpl. by rewrite BpmSpec.make_bpm_content.
  - intros p f pg Hc. unfold BpmSpec.cached in Hc.
    destruct (BpmSpec.shard_of _ (mk_PageId file p)) as [s|] eqn:Hs; [|done]. simpl in Hc.
    assert (Bpm.page_table_ s = ∅) as Ht.
    { unfold BpmSpec.shard_of in Hs. destruct l; simpl in Hs; apply list_lookup_fmap_Some in Hs as (i & -> & _); done. }
    by rewrite Ht, lookup_empty in Hc.
Qed.

(** The file closed, and a handle on it in a new pool. *)
Definition closed1 := (close_file file1).2.
Definition reopened : Rm (Bpm.BufferPoolManager Disk.DiskManager Z) :=
  mk_Rm (BpmSpec.with_log (Some 0) (Bpm.make_bpm 1 (Bpm.disk_manager_ (cache closed1)))) 0 3 sample_hdr false
    (mk_Shared sample_hdr false false 0 ∅).
Definition hdr1 : RmFileHdr := shared_hdr (shared_state_ file1).

Lemma closed1_run : close_file file1 = (Ok (Some (hdr1, true)), closed1).
Proof. vm_compute. reflexivity. Qed.

Lemma reopened_ok : reopens (cache closed1) 3 (cache reopened) 3.
Proof.
  destruct (close_ok file1 hdr1 true closed1 file1_rinv) as (_ & Hi & _); [vm_compute; congruence|apply closed1_run|].
  by apply fresh_pool_reopens.
Qed.

Lemma reload_records_witness :
  ∃ r', open_handle (RmFileHdr_of_bytes (RmFileHdr_bytes hdr1)) reopened = (Ok tt, r') ∧
    records (shared_state_ r') !! memory_key rid0 = Some rec_a.
Proof.
  exists (open_handle (RmFileHdr_of_bytes (RmFileHdr_bytes hdr1)) reopened).2. split; [vm_compute; reflexivity|].
  destruct (reload_records file1 hdr1 true closed1 reopened (open_handle (RmFileHdr_of_bytes (RmFileHdr_bytes hdr1)) reopened).2 file1_rinv)
    as (_ & _ & H).
  - vm_compute; congruence.
  - exact closed1_run.
  - exact reopened_ok.
  - vm_compute; reflexivity.
  - reflexivity.
  - reflexivity.
  - reflexivity.
  - vm_compute; reflexivity.
  - rewrite H. vm_compute; reflexivity.
Defined.

Lemma scan_complete_witness :
  ∃ rids, snapshot_rids file1 = (Ok rids, file1) ∧ scan_all (S (length rids)) (RmScan_init rids) = rids.
Proof.
  exists [rid0]. split; [vm_compute; reflexivity|].
  apply (scan_complete file1 [rid0] file1 file1_rinv). vm_compute; reflexivity.
Defined.

End RecSpec.
