(* ===== verification/Log.v ===== *)
(** * The log ([recovery/log_defs.h], [recovery/log_manager.{h,cpp}])

    Log records with their byte format, the buffer of the log manager with the hand-over of
    a batch to the disk, and the decoding of a record, which checks every length before it
    reads.  A C++ [std::string] is its bytes.

    The log manager releases its latch while a batch is written, so that other threads can
    add records meanwhile: [begin_flush] and [end_flush] are the two critical sections, and
    the step relation [lstep] lets them interleave with additions. *)

From S2P Require Import Prelude Disk BufferPool RecordFile.

Module Log.
Import RecFile.

Inductive LogType := UPDATE | INSERT | DELETE | begin | commit | ABORT | CHECKPOINT.

#[global] Instance LogType_eq_dec : EqDecision LogType.
Proof. solve_decision. Defined.

Definition LogType_code (t : LogType) : Z :=
  match t with
  | UPDATE => 0 | INSERT => 1 | DELETE => 2 | begin => 3 | commit => 4 | ABORT => 5 | CHECKPOINT => 6
  end.

Definition OFFSET_LOG_TYPE : nat := 0.
Definition OFFSET_LSN : nat := 4.
Definition OFFSET_LOG_TOT_LEN : nat := 8.
Definition OFFSET_LOG_TID : nat := 12.
Definition OFFSET_PREV_LSN : nat := 20.
Definition OFFSET_LOG_DATA : nat := 24.
Definition LOG_HEADER_SIZE : Z := 24.

(** ** Records *)

(** The subclasses of [LogRecord] with the fields they add. *)
Inductive payload :=
| PBegin | PCommit | PAbort | PCheckpoint
| PInsert (insert_value : list byte) (rid : Rid) (table_name : list byte)
| PDelete (delete_value : list byte) (rid : Rid) (table_name : list byte)
| PUpdate (old_value new_value : list byte) (rid : Rid) (table_name : list byte).

Record LogRecord := mk_LogRecord {
  lsn_ : Z;
  log_tot_len_ : Z;
  log_tid_ : Z;
  prev_lsn_ : Z;
  body : payload
}.

Definition log_type_ (r : LogRecord) : LogType :=
  match body r with
  | PBegin => begin | PCommit => commit | PAbort => ABORT | PCheckpoint => CHECKPOINT
  | PInsert _ _ _ => INSERT | PDelete _ _ _ => DELETE | PUpdate _ _ _ _ => UPDATE
  end.

Definition size (bs : list byte) : Z := Z.of_nat (length bs).

(** The constructors; the length is computed in [uint32_t]. *)
Definition BeginLogRecord (txn : Z) : LogRecord := mk_LogRecord INVALID_LSN LOG_HEADER_SIZE txn INVALID_LSN PBegin.
Definition CommitLogRecord (txn prev : Z) : LogRecord := mk_LogRecord INVALID_LSN LOG_HEADER_SIZE txn prev PCommit.
Definition AbortLogRecord (txn prev : Z) : LogRecord := mk_LogRecord INVALID_LSN LOG_HEADER_SIZE txn prev PAbort.
Definition CheckpointLogRecord : LogRecord :=
  mk_LogRecord INVALID_LSN LOG_HEADER_SIZE INVALID_TXN_ID INVALID_LSN PCheckpoint.
Definition InsertLogRecord (txn : Z) (v : list byte) (rid : Rid) (tab : list byte) : LogRecord :=
  mk_LogRecord INVALID_LSN (uint32 (LOG_HEADER_SIZE + 4 + size v + 8 + (8 + size tab))) txn INVALID_LSN (PInsert v rid tab).
Definition DeleteLogRecord (txn prev : Z) (v : list byte) (rid : Rid) (tab : list byte) : LogRecord :=
  mk_LogRecord INVALID_LSN (uint32 (LOG_HEADER_SIZE + (4 + size v + 8 + 8 + size tab))) txn prev (PDelete v rid tab).
Definition UpdateLogRecord (txn prev : Z) (o v : list byte) (rid : Rid) (tab : list byte) : LogRecord :=
  mk_LogRecord INVALID_LSN (uint32 (LOG_HEADER_SIZE + (4 + size o + 4 + size v + 8 + 8 + size tab))) txn prev (PUpdate o v rid tab).

(** ** Serialization *)

(** [LogRecord::serialize]: the header. *)
Definition serialize_header (r : LogRecord) : list byte :=
  enc_int 4 (LogType_code (log_type_ r)) ++ enc_int 4 (lsn_ r) ++ enc_int 4 (log_tot_len_ r) ++
  enc_int 8 (log_tid_ r) ++ enc_int 4 (prev_lsn_ r).

Definition ser_value (v : list byte) : list byte := enc_int 4 (size v) ++ v.
Definition ser_rid (rid : Rid) : list byte := enc_int 4 (page_no rid) ++ enc_int 4 (slot_no rid).
Definition ser_name (tab : list byte) : list byte := enc_int 8 (size tab) ++ tab.

Definition serialize_body (p : payload) : list byte :=
  match p with
  | PInsert v rid tab | PDelete v rid tab => ser_value v ++ ser_rid rid ++ ser_name tab
  | PUpdate o v rid tab => ser_value o ++ ser_value v ++ ser_rid rid ++ ser_name tab
  | _ => []
  end.

Definition serialize (r : LogRecord) : list byte := serialize_header r ++ serialize_body (body r).

(** ** Deserialization *)

Definition i32_at (src : list byte) (off : Z) : Z := dec_i32 (read_bytes src (Z.to_nat off) 4).
Definition u32_at (src : list byte) (off : Z) : Z := dec_u32 (read_bytes src (Z.to_nat off) 4).
Definition i64_at (src : list byte) (off : Z) : Z := dec_i64 (read_bytes src (Z.to_nat off) 8).
Definition u64_at (src : list byte) (off : Z) : Z := dec_u64 (read_bytes src (Z.to_nat off) 8).

(** [RmRecord::Deserialize]: the size, then as many bytes. *)
Definition value_at (src : list byte) (off : Z) : list byte :=
  read_bytes src (Z.to_nat (off + 4)) (Z.to_nat (i32_at src off)).
Definition rid_at (src : list byte) (off : Z) : Rid := mk_Rid (i32_at src off) (i32_at src (off + 4)).
Definition name_at (src : list byte) (off : Z) : list byte :=
  read_bytes src (Z.to_nat (off + 8)) (Z.to_nat (u64_at src off)).

(** [deserialize] of [InsertLogRecord] and [DeleteLogRecord]. *)
Definition one_value_at (src : list byte) : list byte * Rid * list byte :=
  let off := 24 + 4 + i32_at src 24 in
  (value_at src 24, rid_at src off, name_at src (off + 8)).
(** [deserialize] of [UpdateLogRecord]. *)
Definition two_values_at (src : list byte) : list byte * list byte * Rid * list byte :=
  let off1 := 24 + (4 + i32_at src 24) in
  let off2 := off1 + (4 + i32_at src off1) in
  (value_at src 24, value_at src off1, rid_at src off2, name_at src (off2 + 8)).

(** [advance_checked] returns the new offset. *)
Definition advance_checked (offset amount total_len : Z) : option Z :=
  if decide (total_len < amount ∨ total_len - amount < offset) then None else Some (offset + amount).

(** One round of the loop of [validate_record_with_table_name]. *)
Definition validate_value (src : list byte) (total_len offset : Z) : option Z :=
  offset ← advance_checked offset 4 total_len;
  let rec_size := i32_at src (offset - 4) in
  if decide (rec_size < 0) then None else advance_checked offset rec_size total_len.

Definition validate_record_with_table_name (src : list byte) (total_len : Z) (has_two_records : bool) : bool :=
  match
    (offset ← validate_value src total_len 24;
     offset ← (if has_two_records then validate_value src total_len offset else Some offset);
     offset ← advance_checked offset 8 total_len;
     offset ← advance_checked offset 8 total_len;
     let table_name_size := u64_at src (offset - 8) in
     advance_checked offset table_name_size total_len)
  with
  | Some offset => bool_decide (offset = total_len)
  | None => false
  end.

Definition deserialize_log_record (src : list byte) (len : Z) : option LogRecord :=
  if decide (len < LOG_HEADER_SIZE) then None
  else
    let type := i32_at src 0 in
    let total_len := u32_at src 8 in
    if decide (total_len < LOG_HEADER_SIZE ∨ uint32 len < total_len) then None
    else
      let mk := mk_LogRecord (i32_at src 4) total_len (i64_at src 12) (i32_at src 20) in
      if decide (type = 0) then
        if validate_record_with_table_name src total_len true then
          let '(o, v, rid, tab) := two_values_at src in Some (mk (PUpdate o v rid tab))
        else None
      else if decide (type = 1) then
        if validate_record_with_table_name src total_len false then
          let '(v, rid, tab) := one_value_at src in Some (mk (PInsert v rid tab))
        else None
      else if decide (type = 2) then
        if validate_record_with_table_name src total_len false then
          let '(v, rid, tab) := one_value_at src in Some (mk (PDelete v rid tab))
        else None
      else if decide (type = 3) then Some (mk PBegin)
      else if decide (type = 4) then Some (mk PCommit)
      else if decide (type = 5) then Some (mk PAbort)
      else if decide (type = 6) then Some (mk PCheckpoint)
      else None.

(** ** The log manager *)

Record LogManager := mk_LogManager {
  global_lsn_ : Z;
  log_buffer_ : list byte;          (* the first [offset_] bytes of the buffer *)
  log_buffer_max_lsn_ : Z;
  persist_lsn_ : Z;
  flush_in_progress_ : bool;
  flush_buffer_ : list byte;        (* the batch being written *)
  disk_manager_ : Disk.DiskManager
}.

Definition make_log_manager (d : Disk.DiskManager) : LogManager :=
  mk_LogManager 0 [] INVALID_LSN INVALID_LSN false [] d.

Definition is_full (append_size : Z) (m : LogManager) : bool :=
  bool_decide (LOG_BUFFER_SIZE < size (log_buffer_ m) + append_size).

Section manager.
Context (os_fd : gmap Z string → Z).

(** [flush_buffer_locked] up to the release of the latch; it does nothing for an empty
    buffer. *)
Definition begin_flush : M LogManager Z := λ m,
  (Ok (log_buffer_max_lsn_ m),
   mk_LogManager (global_lsn_ m) [] INVALID_LSN (persist_lsn_ m) true (log_buffer_ m) (disk_manager_ m)).

(** [write_log] of the batch, without the latch. *)
Definition write_batch : M LogManager unit := λ m,
  let '(r, d) := Disk.write_log os_fd (flush_buffer_ m) (disk_manager_ m) in
  (r, mk_LogManager (global_lsn_ m) (log_buffer_ m) (log_buffer_max_lsn_ m) (persist_lsn_ m)
        (flush_in_progress_ m) (flush_buffer_ m) d).

(** After the latch was taken again. *)
Definition end_flush (flush_lsn : Z) : M LogManager unit :=
  modify (λ m, mk_LogManager (global_lsn_ m) (log_buffer_ m) (log_buffer_max_lsn_ m)
                 (Z.max (persist_lsn_ m) flush_lsn) false (flush_buffer_ m) (disk_manager_ m)).

Definition fail_flush : M LogManager unit :=
  modify (λ m, mk_LogManager (global_lsn_ m) (log_buffer_ m) (log_buffer_max_lsn_ m)
                 (persist_lsn_ m) false (flush_buffer_ m) (disk_manager_ m)).

(** The whole of it, run without a step of another thread in between: while another thread
    flushes, it waits. *)
Definition flush_buffer_locked : M LogManager unit :=
  m ← get;
  if flush_in_progress_ m then throw Blocked
  else if decide (log_buffer_ m = []) then mret tt
  else
    flush_lsn ← begin_flush;
    try_catch write_batch (λ e, fail_flush;; throw e);;
    end_flush flush_lsn.

Definition append_record (r : LogRecord) : M LogManager Z := λ m,
  let r := mk_LogRecord (global_lsn_ m) (log_tot_len_ r) (log_tid_ r) (prev_lsn_ r) (body r) in
  (Ok (lsn_ r),
   mk_LogManager (int32 (global_lsn_ m + 1)) (log_buffer_ m ++ serialize r) (lsn_ r) (persist_lsn_ m)
     (flush_in_progress_ m) (flush_buffer_ m) (disk_manager_ m)).

(** The [while] of [add_log_to_buffer]: one flush empties the buffer, so that the second
    test fails. *)
Definition add_log_to_buffer (r : LogRecord) : M LogManager Z :=
  if decide (LOG_BUFFER_SIZE < log_tot_len_ r) then throw InternalError
  else
    m ← get;
    (if is_full (log_tot_len_ r) m then flush_buffer_locked else mret tt);;
    append_record r.

(** [flush_log_to_disk], run without a step of another thread in between: after a flush the
    buffer is empty, so that the loop ends.  The loop among other threads is [fstep] below. *)
Definition flush_log_to_disk (target_lsn : Z) : M LogManager unit :=
  m ← get;
  if decide (target_lsn = INVALID_LSN) then flush_buffer_locked
  else if decide (target_lsn ≤ persist_lsn_ m) then mret tt
  else if flush_in_progress_ m then throw Blocked
  else if decide (log_buffer_ m = []) then mret tt
  else flush_buffer_locked.

(** ** Interleavings

    A state is the manager and the [flush_lsn] of the thread that is flushing.  [Add r]
    appends a record while there is room for it; a flush starts only when none is in progress
    and the buffer is not empty. *)
Inductive levent := Add (r : LogRecord) | StartFlush | FinishFlush | FailFlush.

Inductive lstep : LogManager * Z → levent → LogManager * Z → Prop :=
| lstep_add m r lsn m' fl :
    is_full (log_tot_len_ r) m = false → append_record r m = (Ok lsn, m') → lstep (m, fl) (Add r) (m', fl)
| lstep_start m m' fl flush_lsn :
    flush_in_progress_ m = false → log_buffer_ m ≠ [] → begin_flush m = (Ok flush_lsn, m') →
    lstep (m, fl) StartFlush (m', flush_lsn)
| lstep_finish m m1 m' fl :
    flush_in_progress_ m = true → write_batch m = (Ok tt, m1) → end_flush fl m1 = (Ok tt, m') →
    lstep (m, fl) FinishFlush (m', fl)
| lstep_fail m m1 m' fl e :
    flush_in_progress_ m = true → write_batch m = (Err e, m1) → fail_flush m1 = (Ok tt, m') →
    lstep (m, fl) FailFlush (m', fl).

Inductive lsteps : LogManager * Z → list levent → LogManager * Z → Prop :=
| lsteps_nil s : lsteps s [] s
| lsteps_snoc s es s1 e s2 : lsteps s es s1 → lstep s1 e s2 → lsteps s (es ++ [e]) s2.

(** *** A thread in [flush_log_to_disk]

    The target is an LSN, not [INVALID_LSN].  The thread is at the head of its loop, or it writes a batch, or it has returned or thrown.
    Each step is one part of the code that holds the latch; the steps of the other threads
    ([fstep_other]) come between them.  While another thread flushes, the thread waits on
    [flush_cv_]: it has no step until the other thread has finished. *)
Inductive fpc := Head | Flushing | Returned | Thrown.

Inductive fstep (target : Z) : (LogManager * Z) * fpc → list levent → (LogManager * Z) * fpc → Prop :=
| fstep_other s pc e s' :
    pc = Head ∨ (pc = Flushing ∧ e ≠ FinishFlush ∧ e ≠ FailFlush) →
    lstep s e s' → fstep target (s, pc) [e] (s', pc)
| fstep_durable m fl :
    target ≤ persist_lsn_ m → fstep target ((m, fl), Head) [] ((m, fl), Returned)
| fstep_empty m fl :
    persist_lsn_ m < target → flush_in_progress_ m = false → log_buffer_ m = [] →
    fstep target ((m, fl), Head) [] ((m, fl), Returned)
| fstep_start m fl s' :
    persist_lsn_ m < target → lstep (m, fl) StartFlush s' →
    fstep target ((m, fl), Head) [StartFlush] (s', Flushing)
| fstep_finish s s' :
    lstep s FinishFlush s' → fstep target (s, Flushing) [FinishFlush] (s', Head)
| fstep_fail s s' :
    lstep s FailFlush s' → fstep target (s, Flushing) [FailFlush] (s', Thrown).

Inductive fsteps (target : Z) : (LogManager * Z) * fpc → list levent → (LogManager * Z) * fpc → Prop :=
| fsteps_nil s : fsteps target s [] s
| fsteps_snoc s es s1 e s2 : fsteps target s es s1 → fstep target s1 e s2 → fsteps target s (es ++ e) s2.

(** ** Loading the log: [RecoveryManager::load_logs] *)

(** [restart]: the number in [db.restart], if the file can be read.  [create_static_checkpoint]
    only ever writes 0 to it. *)
Definition checkpoint_offset (restart : option Z) : Z := Z.max 0 (default 0 restart).

(** The loop from an offset; a record is only taken if the file has all its bytes behind
    [offset], so that [offset] never passes the size of the file, which is an [int]. *)
Fixpoint load_logs (fuel : nat) (offset : Z) : M Disk.DiskManager (list LogRecord) :=
  match fuel with
  | O => throw Undefined
  | S fuel =>
      header ← Disk.read_log os_fd LOG_HEADER_SIZE offset;
      match header with
      | None => mret []
      | Some header =>
          if decide (size header < LOG_HEADER_SIZE) then mret []
          else
            let total_len := u32_at header 8 in
            if decide (total_len < LOG_HEADER_SIZE ∨ LOG_BUFFER_SIZE < total_len) then mret []
            else
              data ← Disk.read_log os_fd total_len offset;
              match data with
              | None => mret []
              | Some data =>
                  if decide (size data ≠ total_len) then mret []
                  else
                    match deserialize_log_record data (size data) with
                    | None => mret []
                    | Some r =>
                        rs ← load_logs fuel (offset + total_len);
                        mret (r :: rs)
                    end
              end
      end
  end.

Definition load_logs_from (restart : option Z) (fuel : nat) : M Disk.DiskManager (list LogRecord) :=
  load_logs fuel (checkpoint_offset restart).
End manager.

End Log.
