(* ===== verification/LogFacts.v ===== *)
(** * Correctness of the log

    The byte format is read back as it was written, and a decoder that is given damaged
    bytes never reads outside of them; the batches of the log manager reach the log file in
    the order of the LSNs, whatever the interleaving; loading the log stops at a torn tail
    and returns everything before it. *)

From S2P Require Import Prelude Disk BufferPool BufferPoolFacts RecordFile Log.

Module LogFacts.
Import RecFile Log.

(** ** Reading fields of a concatenation *)

Lemma read_app buf1 buf2 off len :
  length buf1 = off → read_bytes (buf1 ++ buf2) (off + 0) len = read_bytes buf2 0 len.
Proof. intros <-. rewrite Nat.add_0_r. rewrite read_app_skip by lia. by rewrite Nat.sub_diag. Qed.

(** A source that starts with [pre] and continues with an encoded field. *)
Section fields.
Context (src pre : list byte) (off : Z) (Hoff : 0 ≤ off) (Hpre : length pre = Z.to_nat off).

Lemma read_at f post n : src = pre ++ f ++ post → length f = n → read_bytes src (Z.to_nat off) n = f.
Proof using Hpre. intros -> <-. rewrite read_app_skip by lia. rewrite Hpre, Nat.sub_diag. by apply read_app_here. Qed.

Lemma i32_field z post : src = pre ++ enc_int 4 z ++ post → is_int32 z → i32_at src off = z.
Proof using Hpre. intros E Hz. unfold i32_at. rewrite (read_at _ _ 4 E) by apply length_enc_int. by apply dec_enc_i32. Qed.

Lemma u32_field z post : src = pre ++ enc_int 4 z ++ post → is_uint32 z → u32_at src off = z.
Proof using Hpre. intros E Hz. unfold u32_at. rewrite (read_at _ _ 4 E) by apply length_enc_int. by apply dec_enc_u32. Qed.

Lemma i64_field z post : src = pre ++ enc_int 8 z ++ post → is_int64 z → i64_at src off = z.
Proof using Hpre. intros E Hz. unfold i64_at. rewrite (read_at _ _ 8 E) by apply length_enc_int. by apply dec_enc_i64. Qed.

Lemma u64_field z post : src = pre ++ enc_int 8 z ++ post → is_uint64 z → u64_at src off = z.
Proof using Hpre. intros E Hz. unfold u64_at. rewrite (read_at _ _ 8 E) by apply length_enc_int. by apply dec_enc_u64. Qed.
End fields.

Definition small (bs : list byte) : Prop := size bs < 2147483648.

Lemma size_nonneg bs : 0 ≤ size bs.
Proof. unfold size. lia. Qed.

Lemma size_app b1 b2 : size (b1 ++ b2) = size b1 + size b2.
Proof. unfold size. rewrite length_app. lia. Qed.

Lemma size_enc n z : size (enc_int n z) = Z.of_nat n.
Proof. unfold size. by rewrite length_enc_int. Qed.

Lemma size_value v : size (ser_value v) = 4 + size v.
Proof. unfold ser_value. rewrite size_app, size_enc. lia. Qed.
Lemma size_rid r : size (ser_rid r) = 8.
Proof. unfold ser_rid. rewrite size_app, !size_enc. lia. Qed.
Lemma size_name t : size (ser_name t) = 8 + size t.
Proof. unfold ser_name. rewrite size_app, size_enc. lia. Qed.
Lemma size_header r : size (serialize_header r) = 24.
Proof. unfold serialize_header. rewrite !size_app, !size_enc. lia. Qed.

Lemma size_length bs k : size bs = k → length bs = Z.to_nat k.
Proof. unfold size. lia. Qed.

(** Reading a value, a record id and a name behind a prefix of the right length. *)
Section structs.
Context (src pre : list byte) (off : Z) (Hoff : 0 ≤ off) (Hpre : size pre = off).

Lemma value_field v post : src = pre ++ ser_value v ++ post → small v →
  i32_at src off = size v ∧ value_at src off = v.
Proof using Hpre Hoff.
  intros E Hs. pose proof (size_nonneg v). unfold ser_value in E. rewrite <- app_assoc in E.
  assert (Hi : i32_at src off = size v).
  { eapply i32_field; [by apply size_length|exact E|]. unfold is_int32, small in *. lia. }
  split; [done|]. unfold value_at. rewrite Hi.
  apply (read_at src (pre ++ enc_int 4 (size v)) (off + 4)) with (post := post).
  - apply size_length. rewrite size_app, size_enc. lia.
  - by rewrite <- app_assoc.
  - unfold size. lia.
Qed.

Lemma rid_field rid post : src = pre ++ ser_rid rid ++ post → is_int32 (page_no rid) → is_int32 (slot_no rid) →
  rid_at src off = rid.
Proof using Hpre Hoff.
  intros E Hp Hs. unfold ser_rid in E. rewrite <- app_assoc in E. unfold rid_at.
  rewrite (i32_field src pre off (size_length _ _ Hpre) _ _ E Hp).
  assert (Hl : length (pre ++ enc_int 4 (page_no rid)) = Z.to_nat (off + 4)).
  { apply size_length. rewrite size_app, size_enc. lia. }
  rewrite app_assoc in E. rewrite (i32_field src _ (off + 4) Hl _ _ E Hs). by destruct rid.
Qed.

Lemma name_field t post : src = pre ++ ser_name t ++ post → small t →
  u64_at src off = size t ∧ name_at src off = t.
Proof using Hpre Hoff.
  intros E Hs. pose proof (size_nonneg t). unfold ser_name in E. rewrite <- app_assoc in E.
  assert (Hi : u64_at src off = size t).
  { eapply u64_field; [by apply size_length|exact E|]. unfold is_uint64, small in *. lia. }
  split; [done|]. unfold name_at. rewrite Hi.
  apply (read_at src (pre ++ enc_int 8 (size t)) (off + 8)) with (post := post).
  - apply size_length. rewrite size_app, size_enc. lia.
  - by rewrite <- app_assoc.
  - unfold size. lia.
Qed.
End structs.

Lemma advance_ok off n total : 0 ≤ n → off + n ≤ total → 0 ≤ off → advance_checked off n total = Some (off + n).
Proof. intros. unfold advance_checked. rewrite decide_False by lia. done. Qed.

Lemma advance_inv off n total off' : advance_checked off n total = Some off' → off' = off + n ∧ off + n ≤ total ∧ n ≤ total.
Proof. unfold advance_checked. case_decide as H; [done|]. intros [= <-]. lia. Qed.

(** ** Round trip *)

Definition wf_payload (p : payload) : Prop :=
  match p with
  | PInsert v rid tab | PDelete v rid tab => is_int32 (page_no rid) ∧ is_int32 (slot_no rid)
  | PUpdate o v rid tab => is_int32 (page_no rid) ∧ is_int32 (slot_no rid)
  | _ => True
  end.

(** A record as the constructors build it and the log buffer accepts it. *)
Record wf_record (r : LogRecord) : Prop := {
  wr_lsn : is_int32 (lsn_ r);
  wr_prev : is_int32 (prev_lsn_ r);
  wr_tid : is_int64 (log_tid_ r);
  wr_len : log_tot_len_ r = size (serialize r);
  wr_fits : log_tot_len_ r ≤ LOG_BUFFER_SIZE;
  wr_body : wf_payload (body r)
}.

Lemma header_fields r rest :
  wf_record r →
  i32_at (serialize r ++ rest) 0 = LogType_code (log_type_ r) ∧ i32_at (serialize r ++ rest) 4 = lsn_ r ∧
  u32_at (serialize r ++ rest) 8 = log_tot_len_ r ∧ i64_at (serialize r ++ rest) 12 = log_tid_ r ∧
  i32_at (serialize r ++ rest) 20 = prev_lsn_ r.
Proof.
  intros [H1 H2 H3 H4 H5 H6]. unfold LOG_BUFFER_SIZE, PAGE_SIZE in *. pose proof (size_nonneg (serialize r)).
  set (E1 := enc_int 4 (LogType_code (log_type_ r))). set (E2 := enc_int 4 (lsn_ r)).
  set (E3 := enc_int 4 (log_tot_len_ r)). set (E4 := enc_int 8 (log_tid_ r)). set (E5 := enc_int 4 (prev_lsn_ r)).
  assert (Hser : serialize r ++ rest = E1 ++ E2 ++ E3 ++ E4 ++ E5 ++ (serialize_body (body r) ++ rest)).
  { unfold serialize, serialize_header. by rewrite <- !app_assoc. }
  rewrite Hser. split_and!.
  - apply (i32_field _ [] 0 eq_refl _ (E2 ++ E3 ++ E4 ++ E5 ++ (serialize_body (body r) ++ rest))); [done|].
    by destruct (log_type_ r).
  - apply (i32_field _ E1 4 (length_enc_int _ _) _ (E3 ++ E4 ++ E5 ++ (serialize_body (body r) ++ rest))); [done|done].
  - apply (u32_field _ (E1 ++ E2) 8) with (post := E4 ++ E5 ++ (serialize_body (body r) ++ rest)).
    + unfold E1, E2. by rewrite length_app, !length_enc_int.
    + by rewrite <- !app_assoc.
    + unfold is_uint32. lia.
  - apply (i64_field _ (E1 ++ E2 ++ E3) 12) with (post := E5 ++ (serialize_body (body r) ++ rest)).
    + unfold E1, E2, E3, E4. by rewrite !length_app, !length_enc_int.
    + by rewrite <- !app_assoc.
    + done.
  - apply (i32_field _ (E1 ++ E2 ++ E3 ++ E4) 20) with (post := serialize_body (body r) ++ rest).
    + unfold E1, E2, E3, E4. by rewrite !length_app, !length_enc_int.
    + by rewrite <- !app_assoc.
    + done.
Qed.

(** The body of a record with one value. *)
Lemma one_value_body hd v rid tab rest total :
  size hd = 24 → total = 24 + (4 + size v + 8 + 8 + size tab) → total ≤ LOG_BUFFER_SIZE →
  is_int32 (page_no rid) → is_int32 (slot_no rid) →
  let src := (hd ++ ser_value v ++ ser_rid rid ++ ser_name tab) ++ rest in
  validate_record_with_table_name src total false = true ∧ one_value_at src = (v, rid, tab).
Proof.
  intros Hhd Ht Hfit Hp Hs src. unfold LOG_BUFFER_SIZE, PAGE_SIZE in Hfit.
  pose proof (size_nonneg v). pose proof (size_nonneg tab).
  assert (Hsv : small v) by (unfold small; lia). assert (Hst : small tab) by (unfold small; lia).
  assert (E1 : src = hd ++ ser_value v ++ (ser_rid rid ++ ser_name tab ++ rest)) by (unfold src; by rewrite <- !app_assoc).
  destruct (value_field src hd 24 ltac:(lia) Hhd v _ E1 Hsv) as [Hi Hv].
  assert (E2 : src = (hd ++ ser_value v) ++ ser_rid rid ++ (ser_name tab ++ rest)) by (unfold src; by rewrite <- !app_assoc).
  assert (S2 : size (hd ++ ser_value v) = 24 + 4 + size v) by (rewrite size_app, size_value; lia).
  pose proof (rid_field src _ (24 + 4 + size v) ltac:(lia) S2 rid _ E2 Hp Hs) as Hr.
  assert (E3 : src = ((hd ++ ser_value v) ++ ser_rid rid) ++ ser_name tab ++ rest) by (unfold src; by rewrite <- !app_assoc).
  assert (S3 : size ((hd ++ ser_value v) ++ ser_rid rid) = 24 + 4 + size v + 8) by (rewrite size_app, S2, size_rid; lia).
  destruct (name_field src _ (24 + 4 + size v + 8) ltac:(lia) S3 tab _ E3 Hst) as [Hu Hn]. split.
  - unfold validate_record_with_table_name, validate_value.
    rewrite advance_ok by lia. cbn [mbind option_bind]. change (24 + 4 - 4) with 24. rewrite Hi, decide_False by lia.
    rewrite advance_ok by lia. cbn [mbind option_bind]. rewrite advance_ok by lia. cbn [mbind option_bind]. rewrite advance_ok by lia. cbn [mbind option_bind].
    replace (24 + 4 + size v + 8 + 8 - 8) with (24 + 4 + size v + 8) by lia. rewrite Hu.
    rewrite advance_ok by lia. apply bool_decide_eq_true. lia.
  - unfold one_value_at. rewrite Hi, Hv, Hr, Hn. done.
Qed.

(** The body of a record with two values. *)
Lemma two_values_body hd o v rid tab rest total :
  size hd = 24 → total = 24 + (4 + size o + 4 + size v + 8 + 8 + size tab) → total ≤ LOG_BUFFER_SIZE →
  is_int32 (page_no rid) → is_int32 (slot_no rid) →
  let src := (hd ++ ser_value o ++ ser_value v ++ ser_rid rid ++ ser_name tab) ++ rest in
  validate_record_with_table_name src total true = true ∧ two_values_at src = (o, v, rid, tab).
Proof.
  intros Hhd Ht Hfit Hp Hs src. unfold LOG_BUFFER_SIZE, PAGE_SIZE in Hfit.
  pose proof (size_nonneg v). pose proof (size_nonneg o). pose proof (size_nonneg tab).
  assert (Hso : small o) by (unfold small; lia).
  assert (Hsv : small v) by (unfold small; lia). assert (Hst : small tab) by (unfold small; lia).
  assert (E0 : src = hd ++ ser_value o ++ (ser_value v ++ ser_rid rid ++ ser_name tab ++ rest)) by (unfold src; by rewrite <- !app_assoc).
  destruct (value_field src hd 24 ltac:(lia) Hhd o _ E0 Hso) as [Ho1 Ho2].
  assert (E1 : src = (hd ++ ser_value o) ++ ser_value v ++ (ser_rid rid ++ ser_name tab ++ rest)) by (unfold src; by rewrite <- !app_assoc).
  assert (S1 : size (hd ++ ser_value o) = 24 + (4 + size o)) by (rewrite size_app, size_value; lia).
  destruct (value_field src _ (24 + (4 + size o)) ltac:(lia) S1 v _ E1 Hsv) as [Hi Hv].
  assert (E2 : src = ((hd ++ ser_value o) ++ ser_value v) ++ ser_rid rid ++ (ser_name tab ++ rest)) by (unfold src; by rewrite <- !app_assoc).
  assert (S2 : size ((hd ++ ser_value o) ++ ser_value v) = 24 + (4 + size o) + (4 + size v)) by (rewrite size_app, S1, size_value; lia).
  pose proof (rid_field src _ (24 + (4 + size o) + (4 + size v)) ltac:(lia) S2 rid _ E2 Hp Hs) as Hr.
  assert (E3 : src = (((hd ++ ser_value o) ++ ser_value v) ++ ser_rid rid) ++ ser_name tab ++ rest) by (unfold src; by rewrite <- !app_assoc).
  assert (S3 : size (((hd ++ ser_value o) ++ ser_value v) ++ ser_rid rid) = 24 + (4 + size o) + (4 + size v) + 8) by (rewrite size_app, S2, size_rid; lia).
  destruct (name_field src _ (24 + (4 + size o) + (4 + size v) + 8) ltac:(lia) S3 tab _ E3 Hst) as [Hu Hn]. split.
  - unfold validate_record_with_table_name, validate_value.
    rewrite advance_ok by lia. cbn [mbind option_bind]. change (24 + 4 - 4) with 24. rewrite Ho1, decide_False by lia.
    rewrite advance_ok by lia. cbn [mbind option_bind]. rewrite advance_ok by lia. cbn [mbind option_bind].
    replace (24 + 4 + size o + 4 - 4) with (24 + (4 + size o)) by lia. rewrite Hi, decide_False by lia.
    rewrite advance_ok by lia. cbn [mbind option_bind]. rewrite advance_ok by lia. cbn [mbind option_bind]. rewrite advance_ok by lia. cbn [mbind option_bind].
    replace (24 + 4 + size o + 4 + size v + 8 + 8 - 8) with (24 + (4 + size o) + (4 + size v) + 8) by lia. rewrite Hu.
    rewrite advance_ok by lia. apply bool_decide_eq_true. lia.
  - unfold two_values_at. rewrite Ho1, Ho2, Hi, Hv, Hr, Hn. done.
Qed.

Lemma deserialize_serialize r rest :
  wf_record r → deserialize_log_record (serialize r ++ rest) (log_tot_len_ r) = Some r.
Proof.
  intros Hr. pose proof (header_fields r rest Hr) as (F1 & F2 & F3 & F4 & F5).
  destruct Hr as [H1 H2 H3 H4 H5 H6]. pose proof (size_header r) as Hh.
  assert (Hge : 24 ≤ log_tot_len_ r).
  { rewrite H4. unfold serialize. rewrite size_app, Hh. pose proof (size_nonneg (serialize_body (body r))). lia. }
  unfold deserialize_log_record, LOG_HEADER_SIZE. rewrite decide_False by lia.
  rewrite F1, F2, F3, F4, F5. unfold LOG_BUFFER_SIZE, PAGE_SIZE in *.
  rewrite decide_False by (unfold wrapu; rewrite Z.mod_small by lia; lia).
  destruct r as [lsn tot tid prev b]. destruct b as [| | | |v rid tab|v rid tab|o v rid tab];
    cbn [log_type_ body LogType_code lsn_ log_tot_len_ log_tid_ prev_lsn_] in *;
    repeat rewrite (decide_False (P := _ = _)) by lia; rewrite decide_True by lia; try done.
  - destruct (one_value_body (serialize_header (mk_LogRecord lsn tot tid prev (PInsert v rid tab))) v rid tab rest tot) as [Hv Ho];
      [apply size_header| |unfold LOG_BUFFER_SIZE, PAGE_SIZE; lia|apply H6|apply H6|].
    { rewrite H4. unfold serialize. rewrite size_app, size_header. simpl. rewrite !size_app, size_value, size_rid, size_name. lia. }
    unfold serialize. cbn [body serialize_body]. by rewrite Hv, Ho.
  - destruct (one_value_body (serialize_header (mk_LogRecord lsn tot tid prev (PDelete v rid tab))) v rid tab rest tot) as [Hv Ho];
      [apply size_header| |unfold LOG_BUFFER_SIZE, PAGE_SIZE; lia|apply H6|apply H6|].
    { rewrite H4. unfold serialize. rewrite size_app, size_header. simpl. rewrite !size_app, size_value, size_rid, size_name. lia. }
    unfold serialize. cbn [body serialize_body]. by rewrite Hv, Ho.
  - destruct (two_values_body (serialize_header (mk_LogRecord lsn tot tid prev (PUpdate o v rid tab))) o v rid tab rest tot) as [Hv Ho];
      [apply size_header| |unfold LOG_BUFFER_SIZE, PAGE_SIZE; lia|apply H6|apply H6|].
    { rewrite H4. unfold serialize. rewrite size_app, size_header. simpl. rewrite !size_app, !size_value, size_rid, size_name. lia. }
    unfold serialize. cbn [body serialize_body]. by rewrite Hv, Ho.
Qed.

(** ** Decoding stays in bounds *)

Section bounds.
Context (src src' : list byte) (len : Z).
Context (Hagree : take (Z.to_nat len) src = take (Z.to_nat len) src').

Lemma read_agree off n : 0 ≤ off → off + Z.of_nat n ≤ len → read_bytes src (Z.to_nat off) n = read_bytes src' (Z.to_nat off) n.
Proof using Hagree.
  intros H0 H1. unfold read_bytes.
  assert (Hk : ∀ l : list byte, take n (drop (Z.to_nat off) l) = take n (drop (Z.to_nat off) (take (Z.to_nat len) l))).
  { intros l. rewrite skipn_firstn_comm, take_take. f_equal. lia. }
  by rewrite (Hk src), (Hk src'), Hagree.
Qed.

Lemma i32_agree off : 0 ≤ off → off + 4 ≤ len → i32_at src off = i32_at src' off.
Proof using Hagree. intros. unfold i32_at. f_equal. apply read_agree; lia. Qed.
Lemma u32_agree off : 0 ≤ off → off + 4 ≤ len → u32_at src off = u32_at src' off.
Proof using Hagree. intros. unfold u32_at. f_equal. apply read_agree; lia. Qed.
Lemma i64_agree off : 0 ≤ off → off + 8 ≤ len → i64_at src off = i64_at src' off.
Proof using Hagree. intros. unfold i64_at. f_equal. apply read_agree; lia. Qed.
Lemma u64_agree off : 0 ≤ off → off + 8 ≤ len → u64_at src off = u64_at src' off.
Proof using Hagree. intros. unfold u64_at. f_equal. apply read_agree; lia. Qed.

Lemma value_agree off : 0 ≤ off → 0 ≤ i32_at src off → off + 4 + i32_at src off ≤ len → value_at src off = value_at src' off.
Proof using Hagree. intros. unfold value_at. rewrite <- i32_agree by lia. apply read_agree; lia. Qed.
Lemma rid_agree off : 0 ≤ off → off + 8 ≤ len → rid_at src off = rid_at src' off.
Proof using Hagree. intros. unfold rid_at. rewrite !i32_agree by lia. done. Qed.
Lemma name_agree off : 0 ≤ off → 0 ≤ u64_at src off → off + 8 + u64_at src off ≤ len → name_at src off = name_at src' off.
Proof using Hagree. intros. unfold name_at. rewrite <- u64_agree by lia. apply read_agree; lia. Qed.

Lemma u64_nonneg bs off : 0 ≤ u64_at bs off.
Proof. unfold u64_at, dec_u64. apply le_combine_bound. Qed.

Lemma validate_value_agree total off :
  0 ≤ off → total ≤ len → validate_value src total off = validate_value src' total off.
Proof using Hagree.
  intros H0 Ht. unfold validate_value. destruct (advance_checked off 4 total) as [off1|] eqn:E; [|done].
  apply advance_inv in E as (-> & H1 & _). simpl. by rewrite i32_agree by lia.
Qed.

Lemma validate_value_inv bs total off off' :
  validate_value bs total off = Some off' →
  off' = off + 4 + i32_at bs off ∧ 0 ≤ i32_at bs off ∧ off + 4 + i32_at bs off ≤ total.
Proof using.
  unfold validate_value. destruct (advance_checked off 4 total) as [off1|] eqn:E; [|done].
  apply advance_inv in E as (-> & H1 & _). simpl. replace (off + 4 - 4) with off by lia.
  case_decide; [done|]. intros (-> & H2 & H3)%advance_inv. lia.
Qed.

Lemma validate_agree total two :
  total ≤ len → validate_record_with_table_name src total two = validate_record_with_table_name src' total two.
Proof using Hagree.
  intros Ht. unfold validate_record_with_table_name. rewrite <- validate_value_agree by lia.
  destruct (validate_value src total 24) as [o1|] eqn:E1; [|done]. apply validate_value_inv in E1 as (-> & A1 & A2). simpl.
  rewrite <- validate_value_agree by lia.
  destruct (if two then validate_value src total (24 + 4 + i32_at src 24) else Some (24 + 4 + i32_at src 24)) as [o2|] eqn:E2; [|done]. simpl.
  assert (Hb : 0 ≤ o2).
  { destruct two; [apply validate_value_inv in E2; lia|]. simplify_eq. lia. }
  destruct (advance_checked o2 8 total) as [o3|] eqn:E3; [|done]. apply advance_inv in E3 as (-> & C1 & _). simpl.
  destruct (advance_checked (o2 + 8) 8 total) as [o4|] eqn:E4; [|done]. apply advance_inv in E4 as (-> & D1 & _). simpl.
  by rewrite <- u64_agree by lia.
Qed.

(** What a successful validation says about the lengths in the record. *)
Lemma validate_true bs total two :
  validate_record_with_table_name bs total two = true →
  ∃ o2, (if two then validate_value bs total (24 + 4 + i32_at bs 24) else Some (24 + 4 + i32_at bs 24)) = Some o2 ∧
    0 ≤ i32_at bs 24 ∧ 24 + 4 + i32_at bs 24 ≤ total ∧ o2 + 16 + u64_at bs (o2 + 8) = total.
Proof using.
  unfold validate_record_with_table_name.
  destruct (validate_value bs total 24) as [o1|] eqn:E1; [|done]. apply validate_value_inv in E1 as (-> & A1 & A2). simpl.
  destruct (if two then validate_value bs total (24 + 4 + i32_at bs 24) else Some (24 + 4 + i32_at bs 24)) as [o2|] eqn:E2; [|done]. simpl.
  destruct (advance_checked o2 8 total) as [o3|] eqn:E3; [|done]. apply advance_inv in E3 as (-> & C1 & _). simpl.
  destruct (advance_checked (o2 + 8) 8 total) as [o4|] eqn:E4; [|done]. apply advance_inv in E4 as (-> & D1 & _). simpl.
  replace (o2 + 8 + 8 - 8) with (o2 + 8) by lia.
  destruct (advance_checked (o2 + 8 + 8) (u64_at bs (o2 + 8)) total) as [o5|] eqn:E5; [|done].
  apply advance_inv in E5 as (-> & F1 & _). intros H%bool_decide_eq_true. exists o2. split_and!; [done|lia..].
Qed.

Lemma one_value_agree total :
  total ≤ len → validate_record_with_table_name src total false = true → one_value_at src = one_value_at src'.
Proof using Hagree.
  intros Ht (o2 & E & A & B & F)%validate_true. injection E as <-. pose proof (u64_nonneg src (24 + 4 + i32_at src 24 + 8)).
  unfold one_value_at. rewrite <- i32_agree by lia.
  rewrite (value_agree 24), (rid_agree (24 + 4 + i32_at src 24)), (name_agree (24 + 4 + i32_at src 24 + 8)) by lia. done.
Qed.

Lemma two_values_agree total :
  total ≤ len → validate_record_with_table_name src total true = true → two_values_at src = two_values_at src'.
Proof using Hagree.
  intros Ht (o2 & E & A & B & F)%validate_true. apply validate_value_inv in E as (-> & G1 & G2).
  replace (24 + 4 + i32_at src 24) with (24 + (4 + i32_at src 24)) in * by lia.
  pose proof (u64_nonneg src (24 + (4 + i32_at src 24) + 4 + i32_at src (24 + (4 + i32_at src 24)) + 8)).
  unfold two_values_at. rewrite <- (i32_agree 24) by lia. rewrite <- (i32_agree (24 + (4 + i32_at src 24))) by lia.
  replace (24 + (4 + i32_at src 24) + (4 + i32_at src (24 + (4 + i32_at src 24)))) with
    (24 + (4 + i32_at src 24) + 4 + i32_at src (24 + (4 + i32_at src 24))) by lia.
  rewrite (value_agree 24), (value_agree (24 + (4 + i32_at src 24))) by lia.
  rewrite rid_agree, name_agree by lia. done.
Qed.

Lemma deserialize_agree : 0 ≤ len < 4294967296 → deserialize_log_record src len = deserialize_log_record src' len.
Proof using Hagree.
  intros Hl. unfold deserialize_log_record, LOG_HEADER_SIZE. case_decide as H24; [done|].
  rewrite <- (i32_agree 0), <- (u32_agree 8), <- (i32_agree 4), <- (i64_agree 12), <- (i32_agree 20) by lia.
  case_decide as Ht; [done|]. unfold wrapu in Ht. rewrite Z.mod_small in Ht by lia.
  rewrite <- !validate_agree by lia.
  destruct (decide (i32_at src 0 = 0)).
  { destruct (validate_record_with_table_name src (u32_at src 8) true) eqn:Ev; [|done].
    by rewrite <- (two_values_agree (u32_at src 8)) by (lia || done). }
  destruct (decide (i32_at src 0 = 1)).
  { destruct (validate_record_with_table_name src (u32_at src 8) false) eqn:Ev; [|done].
    by rewrite <- (one_value_agree (u32_at src 8)) by (lia || done). }
  destruct (decide (i32_at src 0 = 2)); [|done].
  destruct (validate_record_with_table_name src (u32_at src 8) false) eqn:Ev; [|done].
  by rewrite <- (one_value_agree (u32_at src 8)) by (lia || done).
Qed.
End bounds.

(** ** The log manager *)

Definition log_file (d : Disk.DiskManager) : option (list byte) :=
  if decide (Disk.log_fd_ d = -1) then None else snd <$> Disk.file_of (Disk.log_fd_ d) d.

Definition ser (rs : list LogRecord) : list byte := concat (serialize <$> rs).

Lemma ser_app rs1 rs2 : ser (rs1 ++ rs2) = ser rs1 ++ ser rs2.
Proof. unfold ser. by rewrite fmap_app, concat_app. Qed.

Lemma serialize_size r : 24 ≤ size (serialize r).
Proof. unfold serialize. rewrite size_app, size_header. pose proof (size_nonneg (serialize_body (body r))). lia. Qed.

Lemma ser_nil rs : ser rs = [] ↔ rs = [].
Proof.
  split; [|by intros ->]. destruct rs as [|r rs]; [done|]. unfold ser. simpl. intros E.
  pose proof (serialize_size r). apply app_nil in E as [E _]. rewrite E in *. done.
Qed.

Lemma write_log_run os_fd d c data :
  log_file d = Some c → ∃ d', Disk.write_log os_fd data d = (Ok tt, d') ∧ log_file d' = Some (c ++ data).
Proof.
  unfold log_file. case_decide as Hfd; [done|]. destruct (Disk.file_of (Disk.log_fd_ d) d) as [[path c']|] eqn:Ef; [|done].
  intros [= <-]. simpl. unfold Disk.write_log, Disk.open_log, get, mbind, M_bind. rewrite decide_False by done.
  unfold mret, M_ret. simpl. rewrite Ef. unfold put. eexists. split; [done|].
  simpl. rewrite decide_False by done. rewrite Disk.file_of_set. apply Disk.file_of_path in Ef.
  by rewrite decide_True by done.
Qed.

(** [rs] numbered from [k]. *)
Definition set_lsn (k : Z) (r : LogRecord) : LogRecord :=
  mk_LogRecord k (log_tot_len_ r) (log_tid_ r) (prev_lsn_ r) (body r).
Fixpoint number (k : Z) (rs : list LogRecord) : list LogRecord :=
  match rs with [] => [] | r :: rs => set_lsn k r :: number (k + 1) rs end.

Lemma length_number k rs : length (number k rs) = length rs.
Proof. revert k. induction rs; intros; simpl; [done|]. by f_equal. Qed.

Lemma number_app k rs1 rs2 : number k (rs1 ++ rs2) = number k rs1 ++ number (k + Z.of_nat (length rs1)) rs2.
Proof.
  revert k. induction rs1 as [|r rs1 IH]; intros k; simpl; [by rewrite Z.add_0_r|].
  rewrite IH. do 3 f_equal. lia.
Qed.

Lemma number_lsn k rs r : r ∈ number k rs → k ≤ lsn_ r < k + Z.of_nat (length rs).
Proof.
  revert k. induction rs as [|x rs IH]; intros k; simpl; [by intros ?%elem_of_nil|].
  intros [->|H]%elem_of_cons; simpl; [lia|]. apply IH in H. lia.
Qed.

(** The state of the manager: the records [p] are in the file behind [c0], [q] is the batch
    being written, [b] is buffered; together they are the records issued, in LSN order. *)
Record lrep (c0 : list byte) (p q b : list LogRecord) (m : LogManager) (fl : Z) : Prop := {
  lr_file : log_file (disk_manager_ m) = Some (c0 ++ ser p);
  lr_num : ∃ rs, p ++ q ++ b = number 0 rs;
  lr_global : global_lsn_ m = Z.of_nat (length (p ++ q ++ b));
  lr_bound : Z.of_nat (length (p ++ q ++ b)) < 2147483647;
  lr_buffer : log_buffer_ m = ser b;
  lr_max : b ≠ [] → log_buffer_max_lsn_ m = Z.of_nat (length (p ++ q ++ b)) - 1;
  lr_persist : persist_lsn_ m = Z.of_nat (length p) - 1;
  lr_flight : if flush_in_progress_ m then flush_buffer_ m = ser q ∧ fl = Z.of_nat (length (p ++ q)) - 1 else q = []
}.

Lemma lrep_lsn c0 p q b m fl r : lrep c0 p q b m fl → r ∈ b → Z.of_nat (length (p ++ q)) ≤ lsn_ r.
Proof.
  intros HL Hr. destruct (lr_num _ _ _ _ _ _ HL) as [rs Hrs].
  assert (Hb : b = number (Z.of_nat (length (p ++ q))) (drop (length (p ++ q)) rs)).
  { rewrite app_assoc in Hrs. rewrite <- (take_drop (length (p ++ q)) rs), number_app in Hrs.
    assert (Hlen : length (take (length (p ++ q)) rs) = length (p ++ q)).
    { rewrite length_take. pose proof (length_number 0 rs) as Hl. 
      rewrite <- (take_drop (length (p ++ q)) rs), number_app, <- Hrs in Hl.
      rewrite take_drop, (length_app (p ++ q)) in Hl. lia. }
    apply app_inj_1 in Hrs as [_ ->]; [|by rewrite length_number, Hlen]. by rewrite Hlen, Z.add_0_l. }
  rewrite Hb in Hr. apply number_lsn in Hr. lia.
Qed.

(** The records that are not in the file have LSNs behind [persist_lsn_]. *)
Lemma lrep_behind c0 p q b m fl target r :
  lrep c0 p q b m fl → r ∈ q ++ b → target ≤ persist_lsn_ m ∨ q ++ b = [] → target < lsn_ r.
Proof.
  intros HL Hr [Ht|Hnil]; [|rewrite Hnil in Hr; by apply elem_of_nil in Hr].
  destruct (lr_num _ _ _ _ _ _ HL) as [rs Hrs]. rewrite (lr_persist _ _ _ _ _ _ HL) in Ht.
  assert (Hlen : (length p ≤ length rs)%nat). { rewrite <- (length_number 0 rs), <- Hrs, length_app. lia. }
  rewrite <- (take_drop (length p) rs), number_app in Hrs. apply app_inj_1 in Hrs as [_ Hqb]; [|rewrite length_number, length_take; lia].
  rewrite Hqb in Hr. apply number_lsn in Hr. rewrite length_take in Hr. lia.
Qed.

Section steps.
Context (os_fd : gmap Z string → Z).

Lemma append_lrep c0 p q b m fl r lsn m' :
  lrep c0 p q b m fl → Z.of_nat (length (p ++ q ++ b)) < 2147483646 → append_record r m = (Ok lsn, m') →
  lrep c0 p q (b ++ [set_lsn (Z.of_nat (length (p ++ q ++ b))) r]) m' fl ∧ lsn = Z.of_nat (length (p ++ q ++ b)).
Proof.
  intros [H1 [rs H2] H3 H4 H5 H6 H7 H8] Hn E. unfold append_record in E. injection E as <- <-. simpl in *.
  assert (Hlen : length (p ++ q ++ b ++ [set_lsn (Z.of_nat (length (p ++ q ++ b))) r]) = S (length (p ++ q ++ b))).
  { rewrite !length_app. simpl. lia. }
  split; [|exact H3]. split; simpl; [exact H1| | | | | |exact H7|exact H8].
  - exists (rs ++ [r]). rewrite number_app, <- H2, <- !app_assoc. simpl.
    rewrite <- (length_number 0 rs), <- H2. done.
  - rewrite Hlen, H3. rewrite int32_id by (unfold is_int32; lia). lia.
  - rewrite Hlen. lia.
  - rewrite H5, ser_app, H3. f_equal. unfold ser. simpl. by rewrite app_nil_r.
  - intros _. rewrite Hlen, H3. lia.
Qed.

Lemma begin_lrep c0 p b m fl flush_lsn m' :
  lrep c0 p [] b m fl → flush_in_progress_ m = false → b ≠ [] → begin_flush m = (Ok flush_lsn, m') →
  lrep c0 p b [] m' flush_lsn.
Proof.
  intros [H1 H2 H3 H4 H5 H6 H7 H8] Hf Hb E. unfold begin_flush in E. injection E as <- <-. simpl in *.
  rewrite app_nil_r in *. split; simpl; rewrite ?app_nil_r; [exact H1|exact H2|exact H3|exact H4|reflexivity|done|exact H7|].
  split; [exact H5|]. by apply H6.
Qed.

Lemma finish_lrep c0 p q b m fl m1 m' :
  lrep c0 p q b m fl → flush_in_progress_ m = true → write_batch os_fd m = (Ok tt, m1) →
  end_flush fl m1 = (Ok tt, m') → lrep c0 (p ++ q) [] b m' fl.
Proof.
  intros [H1 H2 H3 H4 H5 H6 H7 H8] Hf Ew Ee. rewrite Hf in H8. destruct H8 as [H8 H9].
  unfold write_batch in Ew. destruct (write_log_run os_fd _ _ (flush_buffer_ m) H1) as (d' & Ed & Hd).
  rewrite Ed in Ew. injection Ew as <-. unfold end_flush, modify in Ee. injection Ee as <-.
  split; simpl; rewrite <- ?app_assoc; [|exact H2|exact H3|exact H4|exact H5|exact H6| |reflexivity].
  - by rewrite Hd, H8, ser_app, <- app_assoc.
  - rewrite H7, H9, length_app. lia.
Qed.

(** No batch fails once the log file is open. *)
Lemma write_batch_ok c0 p q b m fl : lrep c0 p q b m fl → ∃ m1, write_batch os_fd m = (Ok tt, m1).
Proof.
  intros HL. destruct (write_log_run os_fd _ _ (flush_buffer_ m) (lr_file _ _ _ _ _ _ HL)) as (d' & Ed & _).
  unfold write_batch. rewrite Ed. by eexists.
Qed.

Definition idle c0 p b m : Prop := flush_in_progress_ m = false ∧ ∃ fl, lrep c0 p [] b m fl.

(** [flush_buffer_locked] of a single thread writes everything that is buffered. *)
Lemma flush_buffer_ok c0 p b m :
  idle c0 p b m → ∃ m', flush_buffer_locked os_fd m = (Ok tt, m') ∧ idle c0 (p ++ b) [] m'.
Proof.
  intros [Hf [fl HL]]. unfold flush_buffer_locked. unfold get at 1, mbind at 1, M_bind at 1. rewrite Hf.
  case_decide as Hb.
  - exists m. rewrite (lr_buffer _ _ _ _ _ _ HL) in Hb. apply ser_nil in Hb. subst b. rewrite app_nil_r.
    split; [done|]. split; [done|]. by exists fl.
  - assert (Hbn : b ≠ []) by (intros ->; by rewrite (lr_buffer _ _ _ _ _ _ HL) in Hb).
    destruct (begin_flush m) as [r m1] eqn:Eb. assert (r = Ok (log_buffer_max_lsn_ m)) as -> by (unfold begin_flush in Eb; congruence).
    pose proof (begin_lrep _ _ _ _ _ _ _ HL Hf Hbn Eb) as HL1. rewrite (bind_ok _ _ _ _ _ Eb).
    destruct (write_batch_ok _ _ _ _ _ _ HL1) as [m2 Ew].
    rewrite (bind_ok _ _ m1 tt m2) by (unfold try_catch; by rewrite Ew).
    assert (Hf1 : flush_in_progress_ m1 = true) by (unfold begin_flush in Eb; by injection Eb as <-).
    eexists. split; [done|]. split; [done|]. exists (log_buffer_max_lsn_ m). by eapply finish_lrep.
Qed.

Lemma flush_log_ok c0 p b m lsn m' :
  idle c0 p b m → flush_log_to_disk os_fd lsn m = (Ok tt, m') →
  ∃ p' b', p ++ b = p' ++ b' ∧ idle c0 p' b' m' ∧ (∀ r, r ∈ b' → lsn < lsn_ r) ∧ (length p ≤ length p')%nat.
Proof.
  intros HI E. unfold flush_log_to_disk in E. unfold get at 1, mbind at 1, M_bind at 1 in E.
  destruct (flush_buffer_ok c0 p b m HI) as (m1 & E1 & HI1).
  assert (Hall : m' = m1 → ∃ p' b', p ++ b = p' ++ b' ∧ idle c0 p' b' m' ∧ (∀ r, r ∈ b' → lsn < lsn_ r) ∧ (length p ≤ length p')%nat).
  { intros ->. exists (p ++ b), []. rewrite app_nil_r. split_and!; [done|done|by intros r ?%elem_of_nil|]. rewrite length_app. lia. }
  pose proof HI as [Hf [fl HL]].
  case_decide as Hinv; [apply Hall; congruence|]. case_decide as Hp.
  { unfold mret, M_ret in E. injection E as <-. exists p, b. split_and!; [done|done| |done].
    intros r Hr. pose proof (lrep_lsn _ _ _ _ _ _ _ HL Hr) as Hlsn. rewrite app_nil_r in Hlsn.
    rewrite (lr_persist _ _ _ _ _ _ HL) in Hp. lia. }
  rewrite Hf in E. case_decide as Hb; [|apply Hall; congruence].
  unfold mret, M_ret in E. injection E as <-. rewrite (lr_buffer _ _ _ _ _ _ HL) in Hb. apply ser_nil in Hb. subst b.
  exists p, []. split_and!; [done|done|by intros r ?%elem_of_nil|done].
Qed.
End steps.

(** ** The log manager is a log for the buffer pool *)

Section sink.
Context (os_fd : gmap Z string → Z).

Definition log_sink : LogSink LogManager := {|
  ls_inv := λ m, ∃ c0 p b, idle c0 p b m;
  ls_flush := flush_log_to_disk os_fd;
  ls_durable := λ m lsn, ∃ c0 p b, idle c0 p b m ∧ ∀ r, r ∈ b → lsn < lsn_ r
|}.

(** From a state without a flush in progress a flush does not fail. *)
Lemma flush_log_total c0 p b m lsn r m' : idle c0 p b m → flush_log_to_disk os_fd lsn m = (r, m') → r = Ok tt.
Proof.
  intros HI E. destruct (flush_buffer_ok os_fd c0 p b m HI) as (m1 & E1 & _). unfold flush_log_to_disk in E.
  unfold get at 1, mbind at 1, M_bind at 1 in E. rewrite (proj1 HI) in E.
  repeat case_decide; try congruence; unfold mret, M_ret in E; congruence.
Qed.

Lemma log_sink_laws : @LogSinkLaws LogManager log_sink.
Proof.
  split; simpl.
  - intros lsn m m' (c0 & p & b & HI) E. destruct (flush_log_ok os_fd _ _ _ _ _ _ HI E) as (p' & b' & Hpb & HI' & Hd & Hlen).
    split; by exists c0, p', b'.
  - intros lsn m r m' x _ E (c1 & p1 & b1 & HI1 & Hx). pose proof (flush_log_total _ _ _ _ _ _ _ HI1 E) as ->.
    destruct (flush_log_ok os_fd _ _ _ _ _ _ HI1 E) as (p2 & b2 & Hpb2 & HI2 & _ & Hlen2).
    exists c1, p2, b2. split; [done|]. intros r Hr. apply Hx.
    assert (Hsuf : ∃ k, b1 = k ++ b2).
    { exists (drop (length p1) p2). apply (f_equal (drop (length p1))) in Hpb2.
      rewrite drop_app_length in Hpb2. rewrite Hpb2, drop_app_le by lia. done. }
    destruct Hsuf as [k ->]. set_solver.
Qed.
End sink.

(** ** Loading the log *)

Section load.
Context (os_fd : gmap Z string → Z).

Lemma read_log_run d c n off :
  log_file d = Some c → size c < 2147483648 → 0 ≤ off ≤ size c → 0 ≤ n →
  Disk.read_log os_fd n off d = (Ok (Some (read_bytes c (Z.to_nat off) (Z.to_nat n))), d).
Proof.
  intros Hc Hsz Hoff Hn. unfold log_file in Hc. case_decide as Hfd; [done|].
  destruct (Disk.file_of (Disk.log_fd_ d) d) as [[path c']|] eqn:Ef; [|done]. injection Hc as ->.
  pose proof (Disk.file_of_path _ _ _ _ Ef) as Hp.
  assert (Hos : Disk.os_files d !! path = Some c).
  { unfold Disk.file_of in Ef. rewrite Hp in Ef. simpl in Ef. destruct (Disk.os_files d !! path); simpl in Ef; congruence. }
  unfold Disk.read_log, Disk.open_log, get, mbind, M_bind. rewrite decide_False by done.
  unfold mret, M_ret. rewrite Hp. simpl. unfold Disk.get_file_size. rewrite Hos.
  fold (size c). rewrite int32_id by (unfold is_int32; pose proof (size_nonneg c); lia).
  rewrite decide_False by lia.
  assert (Hrb : read_bytes c (Z.to_nat off) (Z.to_nat n) = read_bytes c (Z.to_nat off) (Z.to_nat (Z.min n (size c - off)))).
  { unfold read_bytes. destruct (decide (n ≤ size c - off)); [by rewrite Z.min_l by lia|].
    rewrite Z.min_r by lia. unfold size in *. rewrite !take_ge; [done|rewrite length_drop; lia..]. }
  case_decide as Hz.
  { rewrite Hrb, Hz. unfold read_bytes. by rewrite take_0. }
  unfold Disk.pread. rewrite decide_True by lia. rewrite Ef. simpl.
  unfold assert. rewrite bool_decide_true.
  - by rewrite Hrb.
  - unfold read_bytes, size in *. rewrite length_take, length_drop. lia.
Qed.

Definition torn (tail : list byte) : Prop := ∃ r rest, wf_record r ∧ rest ≠ [] ∧ serialize r = tail ++ rest.

Lemma read_here (pre x post : list byte) n :
  size x ≤ n → (size post = 0 ∨ n = size x) →
  read_bytes (pre ++ x ++ post) (Z.to_nat (size pre)) (Z.to_nat n) = x.
Proof.
  intros Hn Hp. unfold read_bytes. rewrite drop_app_length' by (unfold size; lia).
  destruct Hp as [Hp| ->].
  - assert (post = []) as -> by (apply nil_length_inv; unfold size in *; lia).
    rewrite app_nil_r. apply take_ge. unfold size in *. lia.
  - apply take_app_length'. unfold size. lia.
Qed.

Lemma load_logs_spec d c tail : log_file d = Some c → size c < 2147483648 → torn tail →
  ∀ rs pre fuel, Forall wf_record rs → c = pre ++ ser rs ++ tail → (length rs < fuel)%nat →
  load_logs os_fd fuel (size pre) d = (Ok rs, d).
Proof.
  intros Hc Hsz (rt & rest & Hwt & Hrest & Htail). induction rs as [|r rs IH]; intros pre fuel Hwf Hcc Hf;
    (destruct fuel as [|fuel]; [simpl in Hf; lia|]).
  - unfold ser in Hcc. simpl in Hcc. subst c. pose proof (size_nonneg pre) as Hp0. pose proof (size_nonneg tail).
    rewrite size_app in Hsz. cbn [load_logs].
    rewrite (bind_ok _ _ d _ d (read_log_run d _ LOG_HEADER_SIZE (size pre) Hc ltac:(rewrite size_app; lia)
      ltac:(rewrite size_app; lia) ltac:(done))).
    destruct (decide (size tail < 24)) as [Hlt|Hge].
    { replace (pre ++ tail) with (pre ++ tail ++ []) by (by rewrite app_nil_r).
      rewrite read_here; [|unfold LOG_HEADER_SIZE; lia|by left].
      unfold LOG_HEADER_SIZE. by rewrite decide_True by lia. }
    assert (Hhd : read_bytes (pre ++ tail) (Z.to_nat (size pre)) (Z.to_nat LOG_HEADER_SIZE) = take 24 tail).
    { unfold read_bytes. rewrite drop_app_length' by (unfold size; lia). done. }
    rewrite Hhd. assert (Hlen : size (take 24 tail) = 24) by (unfold size in *; rewrite length_take; lia).
    unfold LOG_HEADER_SIZE. rewrite decide_False by lia.
    destruct (header_fields rt [] Hwt) as (_ & _ & F3 & _). rewrite app_nil_r in F3.
    assert (Hu : u32_at (take 24 tail) 8 = log_tot_len_ rt).
    { rewrite <- F3, Htail. apply (u32_agree _ _ 24); [|lia|lia].
      rewrite take_take. change (Z.to_nat 24) with 24%nat. rewrite Nat.min_id. symmetry. apply take_app_le. unfold size in *. lia. }
    rewrite Hu. pose proof (wr_fits _ Hwt) as Hfit. pose proof (serialize_size rt) as Hss. pose proof (wr_len _ Hwt) as Hwl.
    rewrite decide_False by lia.
    rewrite (bind_ok _ _ d _ d (read_log_run d _ (log_tot_len_ rt) (size pre) Hc ltac:(rewrite size_app; lia)
      ltac:(rewrite size_app; lia) ltac:(lia))).
    assert (Hshort : size tail < log_tot_len_ rt).
    { rewrite Hwl, Htail, size_app. destruct rest as [|x rest]; [done|]. unfold size; simpl. lia. }
    replace (pre ++ tail) with (pre ++ tail ++ []) by (by rewrite app_nil_r).
    rewrite read_here; [|lia|by left]. by rewrite decide_True by lia.
  - apply Forall_cons in Hwf as [Hr Hwf]. simpl in Hf.
    assert (Hser : ser (r :: rs) = serialize r ++ ser rs) by done. rewrite Hser in Hcc.
    pose proof (size_nonneg pre) as Hp0. pose proof (serialize_size r) as Hss. pose proof (wr_len _ Hr) as Hwl.
    pose proof (wr_fits _ Hr) as Hfit.
    assert (Hcs : size c = size pre + size (serialize r) + size (ser rs ++ tail)).
    { rewrite Hcc, size_app, <- app_assoc, size_app. lia. }
    pose proof (size_nonneg (ser rs ++ tail)). cbn [load_logs].
    rewrite (bind_ok _ _ d _ d (read_log_run d _ LOG_HEADER_SIZE (size pre) Hc ltac:(lia) ltac:(lia) ltac:(done))).
    assert (Hhd : read_bytes c (Z.to_nat (size pre)) (Z.to_nat LOG_HEADER_SIZE) = take 24 (serialize r)).
    { rewrite Hcc. unfold read_bytes. rewrite drop_app_length' by (unfold size; lia).
      rewrite <- app_assoc. change (Z.to_nat LOG_HEADER_SIZE) with 24%nat. apply take_app_le. unfold size in *. lia. }
    rewrite Hhd. assert (Hlen : size (take 24 (serialize r)) = 24) by (unfold size in *; rewrite length_take; lia).
    unfold LOG_HEADER_SIZE. rewrite decide_False by lia.
    destruct (header_fields r [] Hr) as (_ & _ & F3 & _). rewrite app_nil_r in F3.
    assert (Hu : u32_at (take 24 (serialize r)) 8 = log_tot_len_ r).
    { rewrite <- F3. apply (u32_agree _ _ 24); [|lia|lia]. rewrite take_take. done. }
    rewrite Hu, decide_False by lia.
    rewrite (bind_ok _ _ d _ d (read_log_run d _ (log_tot_len_ r) (size pre) Hc ltac:(lia) ltac:(lia) ltac:(lia))).
    assert (Hdata : read_bytes c (Z.to_nat (size pre)) (Z.to_nat (log_tot_len_ r)) = serialize r).
    { rewrite Hcc, <- app_assoc. apply read_here; [lia|right; lia]. }
    rewrite Hdata, decide_False by (intros Hx; apply Hx; lia).
    rewrite <- Hwl. pose proof (deserialize_serialize r [] Hr) as Hds. rewrite app_nil_r in Hds. rewrite Hds.
    assert (IHr : load_logs os_fd fuel (size (pre ++ serialize r)) d = (Ok rs, d)).
    { apply IH; [done| |lia]. by rewrite Hcc, <- !app_assoc. }
    rewrite size_app, <- Hwl in IHr. rewrite (bind_ok _ _ _ _ _ IHr). done.
Qed.
End load.

(** ** Properties *)

(** C26: a log record is decoded from its bytes exactly as it was encoded, whatever bytes
    follow it. *)
Theorem log_record_roundtrip (r : LogRecord) (rest : list byte) :
  wf_record r → deserialize_log_record (serialize r ++ rest) (log_tot_len_ r) = Some r.
Proof. apply deserialize_serialize. Qed.

(** C28: decoding never depends on bytes outside of the given length: for any bytes, damaged
    or not, the result is determined by the first [len] of them. *)
Theorem log_decode_in_bounds (src src' : list byte) (len : Z) :
  0 ≤ len < 4294967296 → take (Z.to_nat len) src = take (Z.to_nat len) src' →
  deserialize_log_record src len = deserialize_log_record src' len.
Proof. intros Hl Ha. by apply deserialize_agree. Qed.

(** C27: loading the log returns every record before a torn tail, in order, and stops there;
    the iterations it needs are one more than the records. *)
Theorem load_logs_torn_tail (os_fd : gmap Z string → Z) (d : Disk.DiskManager) (rs : list LogRecord) (tail : list byte) :
  log_file d = Some (ser rs ++ tail) → size (ser rs ++ tail) < 2147483648 → Forall wf_record rs → torn tail →
  ∀ fuel, (length rs < fuel)%nat → load_logs os_fd fuel 0 d = (Ok rs, d).
Proof. intros Hc Hsz Hwf Ht fuel Hf. exact (load_logs_spec os_fd d _ tail Hc Hsz Ht rs [] fuel Hwf eq_refl Hf). Qed.

Definition added (es : list levent) : list LogRecord := omap (λ e, match e with Add r => Some r | _ => None end) es.

Lemma lsteps_lrep os_fd d c0 es m fl :
  log_file d = Some c0 → lsteps os_fd (make_log_manager d, 0) es (m, fl) → FailFlush ∉ es →
  Z.of_nat (length (added es)) < 2147483646 →
  ∃ p q b, lrep c0 p q b m fl ∧ p ++ q ++ b = number 0 (added es).
Proof.
  intros Hd Hst. remember (make_log_manager d, 0) as s0 eqn:Hs0. remember (m, fl) as s1 eqn:Hs1.
  revert m fl Hs1. induction Hst as [s|s es s1 e s2 Hst IH He]; intros m fl Hs1 Hnf Hn.
  { rewrite Hs0 in Hs1. injection Hs1 as <- <-. exists [], [], []. split; [|done].
    split; simpl; [by rewrite app_nil_r|by exists []|done|lia|done|done|done|done]. }
  subst s2. destruct s1 as [m1 fl1]. unfold added in Hn. rewrite omap_app, length_app in Hn.
  destruct (IH Hs0 m1 fl1 eq_refl) as (p & q & b & HL & Hpqb); [set_solver|unfold added; lia|].
  assert (Hadd : added (es ++ [e]) = added es ++ added [e]) by (unfold added; by rewrite omap_app).
  assert (Hlen : length (p ++ q ++ b) = length (added es)) by (by rewrite Hpqb, length_number).
  inversion He; subst.
  - match goal with H : append_record _ _ = _ |- _ => eapply append_lrep in H as [HL' _] end; [|exact HL|simpl in Hn; rewrite Hlen; unfold added; lia].
    exists p, q, (b ++ [set_lsn (Z.of_nat (length (p ++ q ++ b))) r]). split; [done|].
    rewrite Hadd, number_app, <- Hpqb, <- !app_assoc. simpl. by rewrite Hlen.
  - match goal with H : flush_in_progress_ _ = false |- _ => rename H into Hfp end.
    match goal with H : log_buffer_ _ ≠ [] |- _ => rename H into Hne end.
    pose proof (lr_flight _ _ _ _ _ _ HL) as Hq. rewrite Hfp in Hq. subst q.
    exists p, b, []. split; [|by rewrite Hadd, app_nil_r, app_nil_r].
    eapply begin_lrep; [exact HL|done| |done]. intros ->. by rewrite (lr_buffer _ _ _ _ _ _ HL) in Hne.
  - exists (p ++ q), [], b. split; [by eapply finish_lrep|]. by rewrite Hadd, app_nil_r, <- app_assoc.
  - set_solver.
Qed.

(** C24: whatever the interleaving of additions with the writing of batches, as long as no write
    of a batch fails and no more than 2^31 - 3 records are added, the log file
    holds a prefix of the records that were added, in the order of their LSNs, the LSNs
    being consecutive from 0; the prefix is the one up to [persist_lsn_], and the records
    behind it are in the batch being written and in the buffer. *)
Theorem log_file_in_lsn_order (os_fd : gmap Z string → Z) d c0 es m fl :
  log_file d = Some c0 → lsteps os_fd (make_log_manager d, 0) es (m, fl) → FailFlush ∉ es →
  Z.of_nat (length (added es)) < 2147483646 →
  ∃ p q b, number 0 (added es) = p ++ q ++ b ∧ log_file (disk_manager_ m) = Some (c0 ++ ser p) ∧
    persist_lsn_ m = Z.of_nat (length p) - 1 ∧ log_buffer_ m = ser b ∧
    (flush_in_progress_ m = true → flush_buffer_ m = ser q) ∧ (flush_in_progress_ m = false → q = []).
Proof.
  intros Hd Hst Hnf Hn. destruct (lsteps_lrep os_fd d c0 es m fl Hd Hst Hnf Hn) as (p & q & b & [H1 H2 H3 H4 H5 H6 H7 H8] & Hpqb).
  exists p, q, b. split_and!; [done..| |].
  - intros Hf. rewrite Hf in H8. by destruct H8.
  - intros Hf. by rewrite Hf in H8.
Qed.

(** *** A thread that waits for its LSN *)

Section thread.
Context (os_fd : gmap Z string → Z) (target : Z).

Lemma fsteps_trans s es s1 es1 s2 :
  fsteps os_fd target s es s1 → fsteps os_fd target s1 es1 s2 → fsteps os_fd target s (es ++ es1) s2.
Proof.
  intros H1 H2. induction H2 as [s1|s1 es1 s2 e s3 H2 IH He]; [by rewrite app_nil_r|].
  rewrite app_assoc. econstructor; [by apply IH|done].
Qed.

Lemma fsteps_one s e s1 : fstep os_fd target s e s1 → fsteps os_fd target s e s1.
Proof. intros H. by apply (fsteps_snoc _ _ _ [] s); [constructor|]. Qed.

(** The events of the thread and of the others are a run of the log manager. *)
Lemma fsteps_lsteps s0 es0 s pc es s' :
  lsteps os_fd s0 es0 s → fsteps os_fd target (s, pc) es s' → lsteps os_fd s0 (es0 ++ es) s'.1.
Proof.
  intros H0 H. remember (s, pc) as x eqn:Hx. induction H as [x|x es x1 e x2 H IH He]; subst; [by rewrite app_nil_r|].
  specialize (IH eq_refl). rewrite app_assoc. destruct He; simpl in *; rewrite ?app_nil_r; try done; by econstructor.
Qed.

(** What holds when the thread has returned, and while it flushes. *)
Lemma fsteps_pc s es m fl pc :
  fsteps os_fd target (s, Head) es ((m, fl), pc) →
  match pc with
  | Returned => target ≤ persist_lsn_ m ∨ (flush_in_progress_ m = false ∧ log_buffer_ m = [])
  | Flushing => flush_in_progress_ m = true
  | _ => True
  end.
Proof.
  remember (s, Head) as x eqn:Hx. remember (m, fl, pc) as y eqn:Hy. intros H. revert m fl pc Hy.
  induction H as [x|x es x1 e x2 H IH He]; intros m fl pc Hy; subst; [by simplify_eq|]. specialize (IH eq_refl). inversion He; subst; try done.
  - destruct s0 as [m0 fl0]. match goal with H : _ ∨ _ |- _ => destruct H as [->|(-> & ? & ?)] end; [done|].
    specialize (IH m0 fl0 _ eq_refl). simpl in IH. match goal with H : lstep _ _ _ _ |- _ => inversion H; subst end; [|congruence|done|done].
    match goal with H : append_record _ _ = _ |- _ => unfold append_record in H; by injection H as _ <- end.
  - by left.
  - by right.
  - match goal with H : lstep _ _ _ _ |- _ => inversion H; subst end.
    match goal with H : begin_flush _ = _ |- _ => unfold begin_flush in H; by injection H as _ <- end.
Qed.

Lemma fsteps_not_thrown s es s' : fsteps os_fd target (s, Head) es (s', Thrown) → FailFlush ∉ es → False.
Proof.
  remember (s, Head) as x eqn:Hx. remember (s', Thrown) as y eqn:Hy. intros H Hn. destruct H as [x|x es x1 e x2 H He]; [by simplify_eq|].
  subst. inversion He; subst; [|set_solver]. by match goal with H : _ ∨ _ |- _ => destruct H as [?|[? _]] end.
Qed.

(** From every state the thread can return, in at most five steps and without a failure. *)
Lemma flush_can_return c0 p q b m fl pc :
  lrep c0 p q b m fl → pc = Head ∨ (pc = Flushing ∧ flush_in_progress_ m = true) →
  ∃ es s, fsteps os_fd target ((m, fl), pc) es (s, Returned) ∧ FailFlush ∉ es ∧ (length es ≤ 3)%nat.
Proof.
  assert (Hdone : ∀ c0 p b m fl, lrep c0 p [] b m fl → flush_in_progress_ m = false → persist_lsn_ m < target → b ≠ [] →
    ∃ m1 fl1 m2, lstep os_fd (m, fl) StartFlush (m1, fl1) ∧ lstep os_fd (m1, fl1) FinishFlush (m2, fl1) ∧ flush_in_progress_ m2 = false ∧ log_buffer_ m2 = []).
  { intros c p' b' m' fl' HL Hf Hp Hb. destruct (begin_flush m') as [r m1] eqn:Eb.
    assert (r = Ok (log_buffer_max_lsn_ m')) as -> by (unfold begin_flush in Eb; congruence).
    pose proof (begin_lrep _ _ _ _ _ _ _ HL Hf Hb Eb) as HL1. destruct (write_batch_ok os_fd _ _ _ _ _ _ HL1) as [m2 Ew].
    assert (Hf1 : flush_in_progress_ m1 = true) by (unfold begin_flush in Eb; by injection Eb as <-).
    eexists m1, _, _. split_and!; [econstructor; [done| |exact Eb]|by econstructor|done|].
    - intros Hn. rewrite (lr_buffer _ _ _ _ _ _ HL) in Hn. by apply ser_nil in Hn.
    - pose proof (finish_lrep os_fd _ _ _ _ _ _ _ _ HL1 Hf1 Ew eq_refl) as HL2. by rewrite (lr_buffer _ _ _ _ _ _ HL2). }
  assert (Hret : ∀ m fl, flush_in_progress_ m = false → log_buffer_ m = [] → fsteps os_fd target ((m, fl), Head) [] ((m, fl), Returned)).
  { intros m' fl' Hf Hb. apply fsteps_one. destruct (decide (target ≤ persist_lsn_ m')); [by constructor|constructor; [lia|done..]]. }
  assert (Hidle : ∀ c0 p b m fl, lrep c0 p [] b m fl → flush_in_progress_ m = false →
    ∃ es s, fsteps os_fd target ((m, fl), Head) es (s, Returned) ∧ FailFlush ∉ es ∧ (length es ≤ 2)%nat).
  { intros c p' b' m' fl' HL Hf. destruct (decide (target ≤ persist_lsn_ m')) as [Ht|Ht].
    { exists [], (m', fl'). split_and!; [apply fsteps_one; by constructor|set_solver|simpl; lia]. }
    destruct (decide (b' = [])) as [->|Hb]. { exists [], (m', fl'). split_and!; [apply Hret; [done|apply (lr_buffer _ _ _ _ _ _ HL)]|set_solver|simpl; lia]. }
    destruct (Hdone _ _ _ _ _ HL Hf ltac:(lia) Hb) as (m1 & fl1 & m2 & S1 & S2 & F2 & B2). exists ([StartFlush] ++ [FinishFlush] ++ []), (m2, fl1).
    split_and!; [|set_solver|simpl; lia]. eapply fsteps_trans; [apply fsteps_one, fstep_start; [lia|exact S1]|].
    eapply fsteps_trans; [apply fsteps_one, fstep_finish, S2|]. by apply Hret. }
  intros HL Hpc. destruct (flush_in_progress_ m) eqn:Hf.
  - destruct (write_batch_ok os_fd _ _ _ _ _ _ HL) as [m1 Ew]. pose proof (finish_lrep os_fd _ _ _ _ _ _ _ _ HL Hf Ew eq_refl) as HL1.
    destruct (Hidle _ _ _ _ _ HL1 eq_refl) as (es & s & Hs & Hn & Hlen).
    assert (Hst : lstep os_fd (m, fl) FinishFlush ((end_flush fl m1).2, fl)) by (econstructor; [exact Hf|exact Ew|done]).
    exists ([FinishFlush] ++ es), s. split_and!; [|set_solver|simpl; lia]. eapply fsteps_trans; [|exact Hs]. apply fsteps_one.
    destruct Hpc as [->|[-> _]]; [apply fstep_other; [by left|done]|by apply fstep_finish].
  - destruct Hpc as [->|[_ ?]]; [|done]. pose proof (lr_flight _ _ _ _ _ _ HL) as Hq. rewrite Hf in Hq. subst q.
    destruct (Hidle _ _ _ _ _ HL Hf) as (es & s & Hs & Hn & Hlen). exists es, s. split_and!; [done..|lia].
Qed.

(** The function [flush_log_to_disk] is the thread without the others. *)
Lemma flush_log_alone m fl m' : target ≠ INVALID_LSN → flush_log_to_disk os_fd target m = (Ok tt, m') →
  ∃ es fl', fsteps os_fd target ((m, fl), Head) es ((m', fl'), Returned).
Proof.
  intros Hinv E. unfold flush_log_to_disk in E. rewrite BpmFacts.get_bind, decide_False in E by done. case_decide as Ht.
  { unfold mret, M_ret in E. injection E as <-. exists [], fl. apply fsteps_one. by constructor. }
  destruct (flush_in_progress_ m) eqn:Hf; [done|]. case_decide as Hb.
  { unfold mret, M_ret in E. injection E as <-. exists [], fl. apply fsteps_one. apply fstep_empty; [lia|done..]. }
  unfold flush_buffer_locked in E. rewrite BpmFacts.get_bind, Hf, decide_False in E by done.
  apply bind_inv_ok in E as (lsn & m1 & Eb & E). apply bind_inv_ok in E as ([] & m2 & Ew & E). unfold try_catch in Ew.
  destruct (write_batch os_fd m1) as [[[]|e] m3] eqn:Ew'; [injection Ew as ->|by unfold fail_flush, modify, mbind, M_bind, throw in Ew].
  assert (Hf1 : flush_in_progress_ m1 = true ∧ log_buffer_ m1 = []) by (unfold begin_flush in Eb; by injection Eb as _ <-). destruct Hf1 as [Hf1 Hb1].
  exists ([StartFlush] ++ [FinishFlush] ++ []), lsn. eapply fsteps_trans; [apply fsteps_one, fstep_start; [lia|by econstructor]|].
  eapply fsteps_trans; [apply fsteps_one, fstep_finish; by econstructor|]. apply fsteps_one.
  unfold write_batch in Ew'. destruct (Disk.write_log _ _ _) as [[[]|] ?]; [|done]. injection Ew' as <-. unfold end_flush, modify in E. injection E as <-.
  match goal with |- fstep _ _ (?x, _, _) _ _ => destruct (decide (target ≤ persist_lsn_ x)); [by constructor|apply fstep_empty; [lia|done..]] end.
Qed.
End thread.

Definition finishes (es : list levent) : nat := length (omap (λ e, match e with FinishFlush => Some tt | _ => None end) es).

(** Two finished batches hold everything that was there before them. *)
Lemma two_flushes os_fd d c0 es0 s es m fl :
  log_file d = Some c0 → lsteps os_fd (make_log_manager d, 0) es0 s → lsteps os_fd s es (m, fl) → FailFlush ∉ es0 ++ es →
  Z.of_nat (length (added (es0 ++ es))) < 2147483646 →
  ((1 ≤ finishes es)%nat → flush_in_progress_ m = true → Z.of_nat (length (added es0)) ≤ fl + 1) ∧
  ((2 ≤ finishes es)%nat → Z.of_nat (length (added es0)) ≤ persist_lsn_ m + 1).
Proof.
  intros Hd H0 H. remember (m, fl) as s1 eqn:Hs1. revert m fl Hs1. induction H as [s|s es s1 e s2 Hst IH He]; intros m fl Hs1 Hnf Hn.
  { unfold finishes. simpl. split; lia. }
  subst s2. destruct s1 as [m1 fl1]. rewrite app_assoc in Hnf, Hn.
  assert (Hadd : added ((es0 ++ es) ++ [e]) = added (es0 ++ es) ++ added [e]) by (unfold added; by rewrite omap_app).
  rewrite Hadd, length_app in Hn. assert (Hnf' : FailFlush ∉ es0 ++ es) by set_solver.
  destruct (IH H0 m1 fl1 eq_refl Hnf' ltac:(lia)) as [I1 I2].
  assert (Hl : lsteps os_fd (make_log_manager d, 0) (es0 ++ es) (m1, fl1)).
  { clear -H0 Hst. induction Hst as [s|s es s1 e s2 Hst IH He]; [by rewrite app_nil_r|]. rewrite app_assoc. econstructor; [by apply IH|done]. }
  destruct (lsteps_lrep os_fd d c0 _ _ _ Hd Hl Hnf' ltac:(lia)) as (p & q & b & HL & Hpqb).
  assert (Hlen : length (p ++ q ++ b) = length (added (es0 ++ es))) by (by rewrite Hpqb, length_number).
  assert (Hge : (length (added es0) ≤ length (added (es0 ++ es)))%nat) by (unfold added; rewrite omap_app, length_app; lia).
  assert (Hfin : finishes (es ++ [e]) = (finishes es + finishes [e])%nat) by (unfold finishes; by rewrite omap_app, length_app).
  rewrite Hfin. pose proof (lr_flight _ _ _ _ _ _ HL) as Hq. pose proof (lr_persist _ _ _ _ _ _ HL) as Hp.
  inversion He; subst.
  - match goal with H : append_record _ _ = _ |- _ => unfold append_record in H; injection H as _ <- end.
    unfold finishes at 2 4. simpl. rewrite Nat.add_0_r. split; [exact I1|exact I2].
  - match goal with H : flush_in_progress_ _ = false |- _ => rename H into Hfp end. rewrite Hfp in Hq. subst q. simpl in Hlen.
    match goal with H : begin_flush _ = _ |- _ => unfold begin_flush in H; injection H as <- <- end.
    unfold finishes at 2 4. simpl. rewrite Nat.add_0_r. split; [|exact I2]. intros _ _.
    match goal with H : log_buffer_ _ ≠ [] |- _ => rename H into Hne end.
    rewrite (lr_max _ _ _ _ _ _ HL) by (intros ->; by rewrite (lr_buffer _ _ _ _ _ _ HL) in Hne). simpl. lia.
  - match goal with H : flush_in_progress_ _ = true |- _ => rename H into Hfp end. rewrite Hfp in Hq, I1.
    match goal with H : write_batch _ _ = _, H2 : end_flush _ _ = _ |- _ => pose proof (finish_lrep os_fd _ _ _ _ _ _ _ _ HL Hfp H H2) as HL1; unfold end_flush, modify in H2; injection H2 as <- end.
    pose proof (lr_persist _ _ _ _ _ _ HL1) as Hp1. unfold finishes at 2 4. simpl in *. split; [done|]. intros H2.
    specialize (I1 ltac:(lia) eq_refl). destruct Hq as [_ Hfl]. lia.
  - set_solver.
Qed.

(** C25: [flush_log_to_disk] makes its target durable, among other threads that add records and
    flush.  When the thread returns, every record with an LSN up to the target that has been
    added is in the log file; wherever it is, it can return, after at most three more steps
    that start or finish a batch; and once two batches have been finished since the call, a
    record that was added before the call is durable, so that the thread no longer waits.  This
    is for logs of which no write of a batch fails (the code returns after a failed one although
    the records are lost) and at most 2^31 - 3 records. *)
Theorem flush_makes_durable (os_fd : gmap Z string → Z) d c0 es0 s0 target es m fl pc :
  log_file d = Some c0 → target ≠ INVALID_LSN →
  lsteps os_fd (make_log_manager d, 0) es0 s0 → fsteps os_fd target (s0, Head) es ((m, fl), pc) →
  FailFlush ∉ es0 ++ es → Z.of_nat (length (added (es0 ++ es))) < 2147483646 →
  (pc = Returned → ∃ p rest, number 0 (added (es0 ++ es)) = p ++ rest ∧
     log_file (disk_manager_ m) = Some (c0 ++ ser p) ∧ ∀ r, r ∈ rest → target < lsn_ r) ∧
  (pc ≠ Returned → ∃ es' s, fsteps os_fd target ((m, fl), pc) es' (s, Returned) ∧ FailFlush ∉ es' ∧ (length es' ≤ 3)%nat) ∧
  (target < Z.of_nat (length (added es0)) → (2 ≤ finishes es)%nat → target ≤ persist_lsn_ m).
Proof.
  intros Hd Hinv H0 H Hnf Hn. pose proof (fsteps_lsteps os_fd target _ _ _ _ _ _ H0 H) as Hl. simpl in Hl.
  destruct (lsteps_lrep os_fd d c0 _ _ _ Hd Hl Hnf Hn) as (p & q & b & HL & Hpqb). pose proof (fsteps_pc _ _ _ _ _ _ _ H) as Hpc.
  split_and!.
  - intros ->. exists p, (q ++ b). split_and!; [done|apply (lr_file _ _ _ _ _ _ HL)|]. intros r Hr. eapply lrep_behind; [exact HL|exact Hr|].
    destruct Hpc as [?|[Hf Hb]]; [by left|]. right. pose proof (lr_flight _ _ _ _ _ _ HL) as Hq. rewrite Hf in Hq. subst q.
    rewrite (lr_buffer _ _ _ _ _ _ HL) in Hb. by apply ser_nil in Hb as ->.
  - intros Hne. eapply flush_can_return; [exact HL|]. destruct pc; [by left|by right|done|]. exfalso. eapply fsteps_not_thrown; [exact H|set_solver].
  - intros Ht H2. destruct (two_flushes os_fd d c0 es0 s0 es m fl Hd H0) as [_ H3]; [by apply (fsteps_lsteps os_fd target s0 [] s0 Head es (m, fl, pc)); [constructor|]|done|done|].
    specialize (H3 H2). lia.
Qed.

(** When the write of a batch fails, its records are gone: the buffer is empty and the
    next call of [flush_log_to_disk] for the same LSN returns normally although the record
    was never written. *)
Theorem failed_flush_forgets (os_fd : gmap Z string → Z) (m : LogManager) (lsn : Z) e d' :
  lsn ≠ INVALID_LSN → persist_lsn_ m < lsn → log_buffer_ m ≠ [] → flush_in_progress_ m = false →
  Disk.write_log os_fd (log_buffer_ m) (disk_manager_ m) = (Err e, d') →
  ∃ m', flush_log_to_disk os_fd lsn m = (Err e, m') ∧ log_buffer_ m' = [] ∧ persist_lsn_ m' < lsn ∧
        flush_log_to_disk os_fd lsn m' = (Ok tt, m').
Proof.
  intros Hinv Hp Hb Hf Ew.
  exists (mk_LogManager (global_lsn_ m) [] INVALID_LSN (persist_lsn_ m) false (log_buffer_ m) d').
  split_and!; [|done|done|].
  - unfold flush_log_to_disk, get, mbind, M_bind. rewrite Hf, !decide_False by (done || lia).
    unfold flush_buffer_locked, begin_flush, get, mbind, M_bind. rewrite Hf, decide_False by done.
    unfold try_catch, write_batch. simpl. by rewrite Ew.
  - unfold flush_log_to_disk, get, mbind, M_bind. simpl. by rewrite !decide_False by (done || lia).
Qed.

(** ** Concrete logs *)

Definition log_disk (content : list byte) : Disk.DiskManager :=
  Disk.mk_DiskManager {["db.log" := content]} {["db.log" := 4]} {[4 := "db.log"]} 4 ∅.
Definition closed_disk : Disk.DiskManager := Disk.mk_DiskManager ∅ ∅ ∅ 4 ∅.
Definition the_fd : gmap Z string → Z := λ _, 9.

Definition sample_insert : LogRecord := set_lsn 0 (InsertLogRecord 7 [Byte.x61; Byte.x62] (mk_Rid 1 0) [Byte.x74]).
Definition sample_commit : LogRecord := set_lsn 1 (CommitLogRecord 7 0).

Lemma sample_insert_wf : wf_record sample_insert.
Proof. split; try (vm_compute; done). Qed.
Lemma sample_commit_wf : wf_record sample_commit.
Proof. split; try (vm_compute; done). Qed.

Lemma log_record_roundtrip_witness :
  deserialize_log_record (serialize sample_insert ++ [Byte.x00]) (log_tot_len_ sample_insert) = Some sample_insert.
Proof. apply (log_record_roundtrip sample_insert [Byte.x00] sample_insert_wf). Defined.

Lemma log_decode_in_bounds_witness :
  deserialize_log_record (serialize sample_insert ++ [Byte.x00]) 47 = deserialize_log_record (serialize sample_insert ++ [Byte.xff]) 47.
Proof.
  apply (log_decode_in_bounds (serialize sample_insert ++ [Byte.x00]) (serialize sample_insert ++ [Byte.xff]) 47);
    [lia|vm_compute; reflexivity].
Defined.

Lemma load_logs_torn_tail_witness :
  load_logs the_fd 3 0 (log_disk (ser [sample_insert; sample_commit] ++ take 10 (serialize sample_commit))) =
    (Ok [sample_insert; sample_commit], log_disk (ser [sample_insert; sample_commit] ++ take 10 (serialize sample_commit))).
Proof.
  apply (load_logs_torn_tail the_fd (log_disk (ser [sample_insert; sample_commit] ++ take 10 (serialize sample_commit)))
    [sample_insert; sample_commit] (take 10 (serialize sample_commit))).
  - vm_compute; reflexivity.
  - vm_compute; reflexivity.
  - repeat constructor; first [apply sample_insert_wf|apply sample_commit_wf].
  - exists sample_commit, (drop 10 (serialize sample_commit)). split; [apply sample_commit_wf|].
    split; [vm_compute; congruence|vm_compute; reflexivity].
  - simpl. lia.
Defined.

Definition log1 : LogManager := (append_record sample_insert (make_log_manager (log_disk []))).2.
Definition log2 : LogManager := (begin_flush log1).2.
Definition log3 : LogManager := (append_record sample_commit log2).2.
Definition log4 : LogManager := (end_flush 0 (write_batch the_fd log3).2).2.

Lemma sample_log_run :
  lsteps the_fd (make_log_manager (log_disk []), 0) [Add sample_insert; StartFlush; Add sample_commit; FinishFlush] (log4, 0).
Proof.
  apply (lsteps_snoc _ _ [Add sample_insert; StartFlush; Add sample_commit] (log3, 0)).
  2:{ eapply (lstep_finish _ log3 (write_batch the_fd log3).2 log4 0); vm_compute; reflexivity. }
  apply (lsteps_snoc _ _ [Add sample_insert; StartFlush] (log2, 0)).
  2:{ eapply (lstep_add _ log2 sample_commit 1 log3 0); vm_compute; reflexivity. }
  apply (lsteps_snoc _ _ [Add sample_insert] (log1, 0)).
  2:{ eapply (lstep_start _ log1 log2 0 0); [vm_compute; reflexivity|vm_compute; congruence|vm_compute; reflexivity]. }
  apply (lsteps_snoc _ _ [] (make_log_manager (log_disk []), 0)); [constructor|].
  eapply (lstep_add _ _ sample_insert 0 log1 0); vm_compute; reflexivity.
Qed.

Lemma log_file_in_lsn_order_witness :
  ∃ p q b, number 0 [sample_insert; sample_commit] = p ++ q ++ b ∧ log_file (disk_manager_ log4) = Some (ser p).
Proof.
  destruct (log_file_in_lsn_order the_fd (log_disk []) [] [Add sample_insert; StartFlush; Add sample_commit; FinishFlush] log4 0)
    as (p & q & b & H1 & H2 & _).
  - vm_compute; reflexivity.
  - exact sample_log_run.
  - set_solver.
  - vm_compute; reflexivity.
  - exists p, q, b. split; [exact H1|exact H2].
Defined.

(** The thread that waits for the first record while it writes it itself. *)
Definition log5 : LogManager := (end_flush 0 (write_batch the_fd log2).2).2.

Lemma sample_wait : fsteps the_fd 0 ((log1, 0), Head) [StartFlush; FinishFlush] ((log5, 0), Returned).
Proof.
  assert (S1 : lstep the_fd (log1, 0) StartFlush (log2, 0)).
  { eapply (lstep_start _ log1 log2 0 0); [vm_compute; reflexivity|vm_compute; congruence|vm_compute; reflexivity]. }
  assert (S2 : lstep the_fd (log2, 0) FinishFlush (log5, 0)).
  { eapply (lstep_finish _ log2 (write_batch the_fd log2).2 log5 0); vm_compute; reflexivity. }
  apply (fsteps_snoc _ _ _ [StartFlush; FinishFlush] (log5, 0, Head) []); [|apply fstep_durable; vm_compute; congruence].
  apply (fsteps_snoc _ _ _ [StartFlush] (log2, 0, Flushing) [FinishFlush]); [|by apply fstep_finish].
  apply (fsteps_snoc _ _ _ [] (log1, 0, Head) [StartFlush]); [constructor|]. apply fstep_start; [vm_compute; reflexivity|done].
Qed.

Lemma sample_added : lsteps the_fd (make_log_manager (log_disk []), 0) [Add sample_insert] (log1, 0).
Proof.
  apply (lsteps_snoc _ _ [] (make_log_manager (log_disk []), 0)); [constructor|].
  eapply (lstep_add _ _ sample_insert 0 log1 0); vm_compute; reflexivity.
Qed.

Lemma flush_makes_durable_witness :
  ∃ p rest, [sample_insert] = p ++ rest ∧ log_file (disk_manager_ log5) = Some (ser p) ∧ ∀ r, r ∈ rest → 0 < lsn_ r.
Proof.
  destruct (flush_makes_durable the_fd (log_disk []) [] [Add sample_insert] (log1, 0) 0 [StartFlush; FinishFlush] log5 0 Returned) as (H & _).
  - vm_compute; reflexivity.
  - vm_compute; congruence.
  - exact sample_added.
  - exact sample_wait.
  - set_solver.
  - vm_compute; reflexivity.
  - exact (H eq_refl).
Defined.

Definition broken_log : LogManager := (append_record sample_insert (make_log_manager closed_disk)).2.

Lemma failed_flush_forgets_witness :
  ∃ m', flush_log_to_disk the_fd 0 broken_log = (Err UnixError, m') ∧ log_buffer_ m' = [] ∧ persist_lsn_ m' < 0 ∧
        flush_log_to_disk the_fd 0 m' = (Ok tt, m').
Proof.
  apply (failed_flush_forgets the_fd broken_log 0 UnixError closed_disk).
  - vm_compute; congruence.
  - vm_compute; reflexivity.
  - vm_compute; congruence.
  - vm_compute; reflexivity.
  - vm_compute; reflexivity.
Defined.

End LogFacts.
