(* ===== verification/Recovery.v ===== *)
(** * Recovery ([recovery/log_recovery.{h,cpp}])

    Analysis sorts the transactions of the log into committed and active ones, redo repeats
    the changes of the committed ones that are not on their page yet, and undo takes back
    the changes of the active ones that are.

    Tables are used through the operations of [RmFileHandle], which [Table] gives at the
    level of their specification ([RecSpec]): a map from record ids to records, the LSN of
    every page and the number of pages.  An index is the map from keys to record ids that it
    stands for. *)

From S2P Require Import Prelude RecordFile Log.

Module Recovery.
Import RecFile Log.

(** ** Tables and indexes *)

Record IndexCol := mk_IndexCol { ic_offset : Z; ic_len : Z }.

Record Index := mk_Index {
  cols : list IndexCol;
  entries : gmap (list byte) Rid
}.

Record Table := mk_Table {
  t_records : gmap Rid (list byte);
  t_lsn : gmap Z Z;                 (* page LSNs *)
  t_pages : Z;                      (* [num_pages] *)
  t_slots : Z;                      (* [num_records_per_page] *)
  t_indexes : list Index
}.

Definition with_records (m : gmap Rid (list byte)) (t : Table) : Table :=
  mk_Table m (t_lsn t) (t_pages t) (t_slots t) (t_indexes t).
Definition with_indexes (ix : list Index) (t : Table) : Table :=
  mk_Table (t_records t) (t_lsn t) (t_pages t) (t_slots t) ix.

Definition page_ok (p : Z) (t : Table) : bool := bool_decide (RM_FIRST_RECORD_PAGE ≤ p < t_pages t).
Definition slot_ok (s : Z) (t : Table) : bool := bool_decide (0 ≤ s < t_slots t).

Definition is_record (rid : Rid) (t : Table) : bool := bool_decide (is_Some (t_records t !! rid)).

Definition insert_record_at (rid : Rid) (buf : list byte) : M Table unit :=
  t ← get;
  if negb (page_ok (page_no rid) t) then throw (PageNotExistError (page_no rid))
  else if negb (slot_ok (slot_no rid) t) then throw (RecordNotFoundError (page_no rid) (slot_no rid))
  else if is_record rid t then throw RMDBError
  else put (with_records (<[rid := buf]> (t_records t)) t).

Definition update_record (rid : Rid) (buf : list byte) : M Table unit :=
  t ← get;
  if negb (page_ok (page_no rid) t) then throw (PageNotExistError (page_no rid))
  else if negb (is_record rid t) then throw (RecordNotFoundError (page_no rid) (slot_no rid))
  else put (with_records (<[rid := buf]> (t_records t)) t).

Definition delete_record (rid : Rid) : M Table unit :=
  t ← get;
  if negb (page_ok (page_no rid) t) then throw (PageNotExistError (page_no rid))
  else if negb (is_record rid t) then throw (RecordNotFoundError (page_no rid) (slot_no rid))
  else put (with_records (delete rid (t_records t)) t).

Definition get_record (rid : Rid) : M Table (list byte) :=
  t ← get;
  match t_records t !! rid with
  | Some v => mret v
  | None => throw (RecordNotFoundError (page_no rid) (slot_no rid))
  end.

Definition page_lsn (p : Z) (t : Table) : Z := default INVALID_LSN (t_lsn t !! p).

Definition set_page_lsn (rid : Rid) (lsn : Z) : M Table unit :=
  if decide (lsn = INVALID_LSN) then mret tt
  else
    t ← get;
    if negb (page_ok (page_no rid) t) then throw (PageNotExistError (page_no rid))
    else put (mk_Table (t_records t) (<[page_no rid := lsn]> (t_lsn t)) (t_pages t) (t_slots t) (t_indexes t)).

Definition create_new_page : M Table unit :=
  modify (λ t, mk_Table (t_records t) (<[t_pages t := INVALID_LSN]> (t_lsn t)) (t_pages t + 1) (t_slots t) (t_indexes t)).

(** ** Index maintenance *)

Definition make_index_key (record : list byte) (ix : Index) : list byte :=
  concat ((λ c, read_bytes record (Z.to_nat (ic_offset c)) (Z.to_nat (ic_len c))) <$> cols ix).

Definition insert_indexes (record : list byte) (rid : Rid) : M Table unit :=
  modify (λ t, with_indexes ((λ ix,
    let key := make_index_key record ix in
    match entries ix !! key with
    | Some _ => ix
    | None => mk_Index (cols ix) (<[key := rid]> (entries ix))
    end) <$> t_indexes t) t).

Definition delete_indexes (record : list byte) : M Table unit :=
  modify (λ t, with_indexes ((λ ix,
    mk_Index (cols ix) (delete (make_index_key record ix) (entries ix))) <$> t_indexes t) t).

(** ** Redo and undo of one record *)

(** [ensure_record_slot]: pages are appended until the page exists. *)
Fixpoint append_pages (n : nat) : M Table unit :=
  match n with O => mret tt | S n => create_new_page;; append_pages n end.
Definition ensure_record_slot (rid : Rid) : M Table unit :=
  t ← get; append_pages (Z.to_nat (page_no rid + 1 - t_pages t)).

Definition page_has_log (rid : Rid) (lsn : Z) (t : Table) : bool :=
  page_ok (page_no rid) t &&
  bool_decide (page_lsn (page_no rid) t ≠ INVALID_LSN ∧ lsn ≤ page_lsn (page_no rid) t).

Definition redo_insert (rid : Rid) (record : list byte) : M Table unit :=
  ensure_record_slot rid;;
  t ← get;
  (if is_record rid t then
     old ← get_record rid;
     delete_indexes old;;
     update_record rid record
   else insert_record_at rid record);;
  insert_indexes record rid.

Definition redo_delete (rid : Rid) : M Table unit :=
  t ← get;
  if negb (is_record rid t) then mret tt
  else
    old ← get_record rid;
    delete_indexes old;;
    delete_record rid.

Definition redo_update (rid : Rid) (new_record : list byte) : M Table unit := redo_insert rid new_record.

(** [fhs_.at(name)] throws [std::out_of_range] for a table that is not open. *)
Abbreviation Db := (gmap (list byte) Table).

Definition at_table {A} (name : list byte) (m : M Table A) : M Db A := λ db,
  match db !! name with
  | None => (Err InternalError, db)
  | Some t => let '(r, t') := m t in (r, <[name := t']> db)
  end.

Definition set_lsn_if_page (rid : Rid) (lsn : Z) : M Table unit :=
  t ← get; if decide (page_no rid < t_pages t) then set_page_lsn rid lsn else mret tt.

Definition apply_redo (r : LogRecord) : M Db unit :=
  match body r with
  | PInsert v rid tab => at_table tab (
      t ← get;
      if page_has_log rid (lsn_ r) t then mret tt else redo_insert rid v;; set_page_lsn rid (lsn_ r))
  | PDelete v rid tab => at_table tab (
      t ← get;
      if page_has_log rid (lsn_ r) t then mret tt else redo_delete rid;; set_lsn_if_page rid (lsn_ r))
  | PUpdate o v rid tab => at_table tab (
      t ← get;
      if page_has_log rid (lsn_ r) t then mret tt else redo_update rid v;; set_page_lsn rid (lsn_ r))
  | _ => mret tt
  end.

Definition apply_undo (r : LogRecord) : M Db unit :=
  match body r with
  | PInsert v rid tab => at_table tab (
      t ← get;
      if negb (page_has_log rid (lsn_ r) t) then mret tt else redo_delete rid;; set_lsn_if_page rid (lsn_ r))
  | PDelete v rid tab => at_table tab (
      t ← get;
      if negb (page_has_log rid (lsn_ r) t) then mret tt else redo_insert rid v;; set_page_lsn rid (lsn_ r))
  | PUpdate o v rid tab => at_table tab (
      t ← get;
      if negb (page_has_log rid (lsn_ r) t) then mret tt else redo_update rid o;; set_page_lsn rid (lsn_ r))
  | _ => mret tt
  end.

(** ** The three phases *)

Record Analysis := mk_Analysis {
  committed_txns_ : gset Z;
  active_txns_ : gset Z;
  undo_logs_ : list LogRecord
}.

Definition is_data (r : LogRecord) : bool :=
  match log_type_ r with INSERT | DELETE | UPDATE => true | _ => false end.

Definition analyze_step (st : gset Z * gset Z) (r : LogRecord) : gset Z * gset Z :=
  let '(committed, active) := st in
  match log_type_ r with
  | begin => (committed, {[log_tid_ r]} ∪ active)
  | commit => ({[log_tid_ r]} ∪ committed, active ∖ {[log_tid_ r]})
  | ABORT => (committed, {[log_tid_ r]} ∪ active)
  | INSERT | DELETE | UPDATE =>
      if decide (log_tid_ r ∈ committed) then (committed, active)
      else (committed, {[log_tid_ r]} ∪ active)
  | CHECKPOINT => (committed, active)
  end.

Definition analyze (logs : list LogRecord) : Analysis :=
  let '(committed, active) := foldl analyze_step (∅, ∅) logs in
  mk_Analysis committed active
    (filter (λ r, is_data r = true ∧ log_tid_ r ∈ active) (reverse logs)).

Fixpoint redo_logs (committed : gset Z) (logs : list LogRecord) : M Db unit :=
  match logs with
  | [] => mret tt
  | r :: logs =>
      (if decide (log_tid_ r ∈ committed) then apply_redo r else mret tt);;
      redo_logs committed logs
  end.

Definition redo (a : Analysis) (logs : list LogRecord) : M Db unit := redo_logs (committed_txns_ a) logs.

Fixpoint undo_records (rs : list LogRecord) : M Db unit :=
  match rs with [] => mret tt | r :: rs => apply_undo r;; undo_records rs end.

Definition undo (a : Analysis) : M Db unit := undo_records (undo_logs_ a).

(** Recovery as the server runs it at start-up. *)
Definition recover (logs : list LogRecord) : M Db unit :=
  let a := analyze logs in redo a logs;; undo a.

End Recovery.
