(* ===== verification/RecoveryFacts.v ===== *)
(** * Correctness of recovery

    [recover] brings every record to the value that the committed transactions of the log
    give it ([recover_correct]), from any state the disk can be in when the server starts:
    pages with and without the changes of committed and of unfinished transactions.  What
    the log has to satisfy is stated in [recoverable]; the last section has two logs outside
    of it, which the code produces, and on which recovery loses committed data. *)

From S2P Require Import Prelude RecordFile Log Recovery.

Module RecoveryFacts.
Import RecFile Log Recovery.

Implicit Types (r : LogRecord) (logs : list LogRecord) (db : Db) (t : Table).

(** ** Replaying a log *)

(** A record of the database: its table and its place there. *)
Abbreviation rkey := (list byte * Rid)%type.

Definition target (r : LogRecord) : option rkey :=
  match body r with
  | PInsert _ rid tab | PDelete _ rid tab | PUpdate _ _ rid tab => Some (tab, rid)
  | _ => None
  end.
Definition after_image (r : LogRecord) : option (list byte) :=
  match body r with PInsert v _ _ => Some v | PUpdate _ v _ _ => Some v | _ => None end.
Definition before_image (r : LogRecord) : option (list byte) :=
  match body r with PDelete v _ _ => Some v | PUpdate o _ _ _ => Some o | _ => None end.

Definition replay1 (k : rkey) (v : option (list byte)) (r : LogRecord) : option (list byte) :=
  if decide (target r = Some k) then after_image r else v.
Definition replay (logs : list LogRecord) (k : rkey) (v : option (list byte)) : option (list byte) :=
  foldl (replay1 k) v logs.

(** What a database holds. *)
Definition value (db : Db) (k : rkey) : option (list byte) :=
  match db !! k.1 with Some t => t_records t !! k.2 | None => None end.
Definition tlsn (t : Table) (p : Z) : Z := if page_ok p t then page_lsn p t else INVALID_LSN.
Definition lsn_of (db : Db) (k : rkey) : Z :=
  match db !! k.1 with Some t => tlsn t (page_no k.2) | None => INVALID_LSN end.

Lemma replay_app l1 l2 k v : replay (l1 ++ l2) k v = replay l2 k (replay l1 k v).
Proof. apply foldl_app. Qed.

Lemma replay_skip l k v : Forall (λ r, target r ≠ Some k) l → replay l k v = v.
Proof.
  unfold replay. induction 1 as [|r l Hr _ IH]; [done|]. simpl. unfold replay1 at 2.
  by rewrite decide_False.
Qed.

Lemma is_data_target r : is_data r = true ↔ is_Some (target r).
Proof. unfold is_data, log_type_, target. destruct (body r); split; intros H; try done; by destruct H. Qed.

(** ** Tables *)

Record twf (t : Table) : Prop := mk_twf {
  twf_slot : ∀ rid v, t_records t !! rid = Some v → page_ok (page_no rid) t = true;
  twf_lsn : ∀ p l, t_lsn t !! p = Some l → INVALID_LSN ≤ l;
  twf_pages : RM_FIRST_RECORD_PAGE ≤ t_pages t
}.

Definition dbwf (db : Db) : Prop := map_Forall (λ _, twf) db.

(** A record the log may name: its table is open and its place is one of a record. *)
Definition placed (db : Db) (r : LogRecord) : Prop :=
  ∀ k, target r = Some k →
  ∃ t, db !! k.1 = Some t ∧ RM_FIRST_RECORD_PAGE ≤ page_no k.2 ∧ slot_ok (slot_no k.2) t = true.

Lemma page_ok_spec p t : page_ok p t = true ↔ RM_FIRST_RECORD_PAGE ≤ p < t_pages t.
Proof. unfold page_ok. apply bool_decide_eq_true. Qed.

Lemma append_pages_ok n t :
  twf t →
  ∃ t', append_pages n t = (Ok tt, t') ∧ twf t' ∧ t_records t' = t_records t ∧
        t_pages t' = t_pages t + Z.of_nat n ∧ t_slots t' = t_slots t ∧ ∀ p, tlsn t' p = tlsn t p.
Proof.
  revert t. induction n as [|n IH]; intros t Ht.
  - exists t. split_and!; try done. lia.
  - set (t1 := mk_Table (t_records t) (<[t_pages t := INVALID_LSN]> (t_lsn t)) (t_pages t + 1) (t_slots t) (t_indexes t)).
    assert (twf t1) as Ht1.
    { destruct Ht as [H1 H2 H3]. split; simpl.
      - intros rid v Hv. apply H1, page_ok_spec in Hv. apply page_ok_spec. simpl. lia.
      - intros p l. rewrite lookup_insert_Some. intros [[_ <-]|[_ Hl]]; [done|by eapply H2].
      - lia. }
    destruct (IH t1 Ht1) as (t' & Hrun & Hw & Hr & Hp & Hs & Hl).
    exists t'. simpl. rewrite (bind_ok create_new_page _ t tt t1) by done.
    split_and!; try done.
    + rewrite Hp. unfold t1. simpl. lia.
    + intros p. rewrite Hl. unfold tlsn, page_lsn, page_ok, t1. simpl.
      destruct Ht as [_ _ H3]. unfold RM_FIRST_RECORD_PAGE in *.
      destruct (decide (p = t_pages t)) as [->|Hne].
      * rewrite bool_decide_true by lia. rewrite bool_decide_false by lia.
        rewrite lookup_insert_eq. done.
      * rewrite lookup_insert_ne by done.
        destruct (decide (1 ≤ p < t_pages t)).
        -- by rewrite !bool_decide_true by lia.
        -- by rewrite !bool_decide_false by lia.
Qed.

(** A change of records and indexes that leaves pages alone. *)
Definition same_pages (t t' : Table) : Prop :=
  t_lsn t' = t_lsn t ∧ t_pages t' = t_pages t ∧ t_slots t' = t_slots t.

(** The effect of redoing or undoing a change of record [rid] to [v] with LSN [l]. *)
Record written (t t' : Table) (rid : Rid) (v : option (list byte)) (l : Z) : Prop := mk_written {
  wr_wf : twf t';
  wr_slots : t_slots t' = t_slots t;
  wr_rid : t_records t' !! rid = v;
  wr_other : ∀ rid', rid' ≠ rid → t_records t' !! rid' = t_records t !! rid';
  wr_lsn : ∀ p, tlsn t' p = tlsn t p ∨ p = page_no rid ∧ tlsn t' p = l
}.

Lemma set_page_lsn_ok rid l t :
  0 ≤ l → twf t → page_ok (page_no rid) t = true →
  set_page_lsn rid l t =
    (Ok tt, mk_Table (t_records t) (<[page_no rid := l]> (t_lsn t)) (t_pages t) (t_slots t) (t_indexes t)).
Proof.
  intros Hl Ht Hp. unfold set_page_lsn. rewrite decide_False by (unfold INVALID_LSN; lia).
  unfold mbind, M_bind, get. by rewrite Hp.
Qed.

(** A table whose records changed at [rid] only and whose page got the LSN [l]. *)
Lemma written_intro t t1 rid v l :
  0 ≤ l → twf t → twf t1 → (∀ p, tlsn t1 p = tlsn t p) → t_slots t1 = t_slots t →
  page_ok (page_no rid) t1 = true →
  t_records t1 !! rid = v → (∀ rid', rid' ≠ rid → t_records t1 !! rid' = t_records t !! rid') →
  written t (mk_Table (t_records t1) (<[page_no rid := l]> (t_lsn t1)) (t_pages t1) (t_slots t1) (t_indexes t1)) rid v l.
Proof.
  intros Hl0 Ht [H1 H2 H3] Hl Hs Hp Hv Ho. split; try done.
  - split; simpl; [apply H1| |done].
    intros p l'. rewrite lookup_insert_Some. unfold INVALID_LSN. intros [[_ <-]|[_ Hx]]; [lia|by eapply H2].
  - intros p. destruct (decide (p = page_no rid)) as [->|Hne].
    + right. split; [done|]. unfold tlsn, page_lsn. simpl.
      change (page_ok (page_no rid) _) with (page_ok (page_no rid) t1). rewrite Hp.
      by rewrite lookup_insert_eq.
    + left. rewrite <- Hl. unfold tlsn, page_lsn. simpl.
      change (page_ok p _) with (page_ok p t1). by rewrite lookup_insert_ne.
Qed.

(** Index maintenance changes indexes only. *)
Lemma insert_indexes_ok v rid t :
  ∃ ix, insert_indexes v rid t = (Ok tt, with_indexes ix t).
Proof. by eexists. Qed.
Lemma delete_indexes_ok v t : ∃ ix, delete_indexes v t = (Ok tt, with_indexes ix t).
Proof. by eexists. Qed.

Lemma redo_insert_ok rid v t :
  twf t → RM_FIRST_RECORD_PAGE ≤ page_no rid → slot_ok (slot_no rid) t = true →
  ∃ t', redo_insert rid v t = (Ok tt, t') ∧ twf t' ∧ t_records t' = <[rid := v]> (t_records t) ∧
        t_slots t' = t_slots t ∧ page_ok (page_no rid) t' = true ∧ ∀ p, tlsn t' p = tlsn t p.
Proof.
  intros Ht Hp Hs. unfold redo_insert.
  destruct (append_pages_ok (Z.to_nat (page_no rid + 1 - t_pages t)) t Ht)
    as (t1 & Hrun & Hw1 & Hr1 & Hp1 & Hs1 & Hl1).
  assert (page_ok (page_no rid) t1 = true) as Hpo by (apply page_ok_spec; lia).
  assert (slot_ok (slot_no rid) t1 = true) as Hso by (unfold slot_ok in *; by rewrite Hs1).
  rewrite (bind_ok (ensure_record_slot rid) _ t tt t1) by done.
  assert (∀ ix, let t2 := with_indexes ix (with_records (<[rid := v]> (t_records t1)) t1) in
    twf t2 ∧ t_records t2 = <[rid := v]> (t_records t) ∧
    t_slots t2 = t_slots t ∧ page_ok (page_no rid) t2 = true ∧ ∀ p, tlsn t2 p = tlsn t p) as Hfin.
  { intros ix t2. split_and!; simpl; try done.
    - destruct Hw1 as [A B C]. split; simpl; try done.
      intros rid' v'. rewrite lookup_insert_Some. intros [[<- _]|[_ Hx]]; [done|by eapply A].
    - by rewrite Hr1. }
  rewrite (bind_ok get _ t1 t1 t1) by done.
  unfold is_record. rewrite Hr1.
  destruct (t_records t !! rid) as [old|] eqn:Eold.
  - rewrite bool_decide_true by eauto.
    unfold mbind, M_bind. unfold get_record, mbind, M_bind, get. rewrite Hr1, Eold. simpl.
    unfold update_record, mbind, M_bind, get.
    change (page_ok (page_no rid) (with_indexes _ t1)) with (page_ok (page_no rid) t1). rewrite Hpo.
    unfold is_record. simpl. rewrite Hr1, Eold. simpl.
    eexists. split; [reflexivity|]. rewrite <- Hr1 in Hfin |- *. apply Hfin.
  - rewrite bool_decide_false by (intros [? ?]; done).
    unfold mbind, M_bind. unfold insert_record_at, mbind, M_bind, get. rewrite Hpo, Hso.
    unfold is_record. rewrite Hr1, Eold, bool_decide_false by (intros [? ?]; done). simpl.
    eexists. split; [reflexivity|]. rewrite <- Hr1 in Hfin |- *. apply Hfin.
Qed.

Lemma redo_delete_ok rid t :
  twf t →
  ∃ t', redo_delete rid t = (Ok tt, t') ∧ twf t' ∧ t_records t' = delete rid (t_records t) ∧
        t_slots t' = t_slots t ∧ t_pages t' = t_pages t ∧ ∀ p, tlsn t' p = tlsn t p.
Proof.
  intros Ht. unfold redo_delete. rewrite (bind_ok get _ t t t) by done. unfold is_record.
  destruct (t_records t !! rid) as [old|] eqn:Eold.
  - rewrite bool_decide_true by eauto. simpl.
    unfold mbind, M_bind. unfold get_record, mbind, M_bind, get. rewrite Eold. simpl.
    unfold delete_record, mbind, M_bind, get.
    change (page_ok (page_no rid) (with_indexes _ t)) with (page_ok (page_no rid) t).
    rewrite (twf_slot t Ht rid old Eold). unfold is_record. simpl. rewrite Eold. simpl.
    eexists. split; [reflexivity|]. split_and!; simpl; try done.
    destruct Ht as [A B C]. split; simpl; try done.
    intros rid' v'. rewrite lookup_delete_Some. intros [_ Hx]. by eapply A.
  - rewrite bool_decide_false by (intros [? ?]; done). simpl.
    exists t. split_and!; try done. by rewrite delete_id.
Qed.

(** ** One record of the log *)

Definition write_image (k : rkey) (v : option (list byte)) (l : Z) : M Table unit :=
  match v with
  | Some v => redo_insert k.2 v;; set_page_lsn k.2 l
  | None => redo_delete k.2;; set_lsn_if_page k.2 l
  end.

Lemma write_image_ok k v l t :
  0 ≤ l → twf t → RM_FIRST_RECORD_PAGE ≤ page_no k.2 → slot_ok (slot_no k.2) t = true →
  ∃ t', write_image k v l t = (Ok tt, t') ∧ written t t' k.2 v l.
Proof.
  intros Hl Ht Hp Hs. destruct v as [v|]; simpl.
  - destruct (redo_insert_ok k.2 v t Ht Hp Hs) as (t1 & Hrun & Hw & Hr & Hs1 & Hpo & Hl1).
    rewrite (bind_ok _ _ _ _ _ Hrun), set_page_lsn_ok by done. eexists. split; [reflexivity|].
    apply written_intro; try done; rewrite Hr; [by rewrite lookup_insert_eq|].
    intros rid' Hne. by rewrite lookup_insert_ne.
  - destruct (redo_delete_ok k.2 t Ht) as (t1 & Hrun & Hw & Hr & Hs1 & Hpg & Hl1).
    rewrite (bind_ok _ _ _ _ _ Hrun). unfold set_lsn_if_page. rewrite (bind_ok get _ t1 t1 t1) by done.
    destruct (decide (page_no k.2 < t_pages t1)) as [Hlt|Hge].
    + rewrite set_page_lsn_ok by (try done; apply page_ok_spec; lia). eexists. split; [reflexivity|].
      apply written_intro; try done; [apply page_ok_spec; lia| |]; rewrite Hr; [by rewrite lookup_delete_eq|].
      intros rid' Hne. by rewrite lookup_delete_ne.
    + exists t1. split; [done|]. split; try done; [by rewrite Hr, lookup_delete_eq| |].
      * intros rid' Hne. by rewrite Hr, lookup_delete_ne.
      * intros p. left. apply Hl1.
Qed.

(** The effect on the database. *)
Record changed (db db' : Db) (k : rkey) (v : option (list byte)) (l : Z) : Prop := mk_changed {
  ch_wf : dbwf db';
  ch_placed : ∀ r, placed db r → placed db' r;
  ch_value : ∀ k', value db' k' = if decide (k' = k) then v else value db k';
  ch_lsn : ∀ k', lsn_of db' k' = lsn_of db k' ∨
                 (k'.1 = k.1 ∧ page_no k'.2 = page_no k.2) ∧ lsn_of db' k' = l
}.

Lemma written_changed db t t' k v l :
  dbwf db → db !! k.1 = Some t → written t t' k.2 v l → changed db (<[k.1 := t']> db) k v l.
Proof.
  intros Hwf Ht [W1 W2 W3 W4 W5]. split.
  - by apply map_Forall_insert_2.
  - intros r Hr k' Hk'. destruct (Hr k' Hk') as (t0 & Ht0 & Hp & Hs).
    destruct (decide (k'.1 = k.1)) as [E|Hne].
    + exists t'. rewrite E in *. rewrite lookup_insert_eq. split_and!; try done.
      rewrite Ht in Ht0. injection Ht0 as <-. unfold slot_ok in *. by rewrite W2.
    + exists t0. by rewrite lookup_insert_ne.
  - intros [tab rid]. destruct k as [tab0 rid0]. unfold value. simpl in *.
    destruct (decide (tab = tab0)) as [->|Hne].
    + rewrite lookup_insert_eq, Ht. destruct (decide (rid = rid0)) as [->|Hne].
      * by rewrite decide_True.
      * rewrite decide_False by congruence. by apply W4.
    + rewrite lookup_insert_ne by congruence. rewrite decide_False by congruence. done.
  - intros k'. unfold lsn_of. destruct (decide (k'.1 = k.1)) as [->|Hne].
    + rewrite lookup_insert_eq, Ht. destruct (W5 (page_no k'.2)) as [H|[H1 H2]]; auto.
    + rewrite lookup_insert_ne by done. by left.
Qed.

Lemma changed_refl db k l : dbwf db → changed db db k (value db k) l.
Proof. intros Hwf. split; try done; [|auto]. intros k'. by destruct (decide (k' = k)) as [->|]. Qed.

Lemma page_has_log_spec rid l t :
  twf t → 0 ≤ l → page_has_log rid l t = bool_decide (l ≤ tlsn t (page_no rid)).
Proof.
  intros Ht Hl. unfold page_has_log, tlsn. destruct (page_ok (page_no rid) t); simpl.
  - apply bool_decide_ext. unfold INVALID_LSN. lia.
  - symmetry. apply bool_decide_eq_false. unfold INVALID_LSN. lia.
Qed.

Lemma apply_redo_shape r k :
  target r = Some k →
  apply_redo r = at_table k.1 (
    t ← get; if page_has_log k.2 (lsn_ r) t then mret tt else write_image k (after_image r) (lsn_ r)).
Proof. unfold target, apply_redo, after_image, write_image. intros H. by destruct (body r); inv_all. Qed.

Lemma apply_undo_shape r k :
  target r = Some k →
  apply_undo r = at_table k.1 (
    t ← get; if negb (page_has_log k.2 (lsn_ r) t) then mret tt else write_image k (before_image r) (lsn_ r)).
Proof. unfold target, apply_undo, before_image, write_image. intros H. by destruct (body r); inv_all. Qed.

Lemma apply_redo_ok r k db :
  target r = Some k → 0 ≤ lsn_ r → dbwf db → placed db r →
  ∃ db', apply_redo r db = (Ok tt, db') ∧
    (lsn_ r ≤ lsn_of db k → db' = db) ∧
    (lsn_of db k < lsn_ r → changed db db' k (after_image r) (lsn_ r)).
Proof.
  intros Hk Hl Hwf Hpl. destruct (Hpl k Hk) as (t & Ht & Hp & Hs).
  pose proof (Hwf _ _ Ht) as Hwt. rewrite (apply_redo_shape r k Hk). unfold at_table. rewrite Ht.
  unfold mbind, M_bind, get. rewrite page_has_log_spec by done.
  unfold lsn_of. rewrite Ht. case_bool_decide as Hc.
  - exists (<[k.1 := t]> db). split; [done|]. split; [|lia]. intros _. by apply insert_id.
  - destruct (write_image_ok k (after_image r) (lsn_ r) t Hl Hwt Hp Hs) as (t' & -> & Hw).
    eexists. split; [done|]. split; [lia|]. intros _. by eapply written_changed.
Qed.

Lemma apply_undo_ok r k db :
  target r = Some k → 0 ≤ lsn_ r → dbwf db → placed db r →
  ∃ db', apply_undo r db = (Ok tt, db') ∧
    (lsn_of db k < lsn_ r → db' = db) ∧
    (lsn_ r ≤ lsn_of db k → changed db db' k (before_image r) (lsn_ r)).
Proof.
  intros Hk Hl Hwf Hpl. destruct (Hpl k Hk) as (t & Ht & Hp & Hs).
  pose proof (Hwf _ _ Ht) as Hwt. rewrite (apply_undo_shape r k Hk). unfold at_table. rewrite Ht.
  unfold mbind, M_bind, get. rewrite page_has_log_spec by done.
  unfold lsn_of. rewrite Ht. case_bool_decide as Hc; simpl.
  - destruct (write_image_ok k (before_image r) (lsn_ r) t Hl Hwt Hp Hs) as (t' & -> & Hw).
    eexists. split; [done|]. split; [lia|]. intros _. by eapply written_changed.
  - exists (<[k.1 := t]> db). split; [done|]. split; [|lia]. intros _. by apply insert_id.
Qed.

(** ** Outcomes of transactions *)

Definition committed_in (logs : list LogRecord) (tid : Z) : Prop :=
  Exists (λ r, log_type_ r = commit ∧ log_tid_ r = tid) logs.

#[global] Instance committed_in_dec logs tid : Decision (committed_in logs tid).
Proof. unfold committed_in. apply _. Defined.

(** A record of a transaction that committed, and a change of one that did not. *)
Definition winner (logs : list LogRecord) (r : LogRecord) : Prop := committed_in logs (log_tid_ r).
Definition loser (logs : list LogRecord) (r : LogRecord) : Prop := is_data r = true ∧ ¬ winner logs r.

#[global] Instance winner_dec logs r : Decision (winner logs r).
Proof. unfold winner. apply _. Defined.
#[global] Instance loser_dec logs r : Decision (loser logs r).
Proof. unfold loser. apply _. Defined.

(** The value that the committed transactions of a log give to a record. *)
Definition committed_value (logs : list LogRecord) (base : rkey → option (list byte)) (k : rkey) : option (list byte) :=
  replay (filter (winner logs) logs) k (base k).

(** A transaction writes nothing after its commit record. *)
Definition commit_last (logs : list LogRecord) : Prop :=
  ∀ pre r post, logs = pre ++ r :: post → log_type_ r = commit → ∀ r', r' ∈ post → log_tid_ r' ≠ log_tid_ r.

Lemma commit_last_prefix l1 l2 : commit_last (l1 ++ l2) → commit_last l1.
Proof.
  intros H pre r post -> Hc r' Hr'. apply (H pre r (post ++ l2)); [by rewrite <- app_assoc|done|set_solver].
Qed.

Lemma committed_in_snoc logs r tid :
  committed_in (logs ++ [r]) tid ↔ committed_in logs tid ∨ log_type_ r = commit ∧ log_tid_ r = tid.
Proof. unfold committed_in. rewrite Exists_app, Exists_cons, Exists_nil. naive_solver. Qed.

Definition sets_of (logs : list LogRecord) : gset Z * gset Z := foldl analyze_step (∅, ∅) logs.

Lemma sets_of_committed logs tid : tid ∈ (sets_of logs).1 ↔ committed_in logs tid.
Proof.
  unfold sets_of. induction logs as [|r logs IH] using rev_ind; simpl.
  - unfold committed_in. rewrite Exists_nil. set_solver.
  - rewrite foldl_app, committed_in_snoc, <- IH. simpl.
    destruct (foldl analyze_step (∅, ∅) logs) as [C A]. unfold analyze_step.
    destruct (log_type_ r) eqn:E; split_ifs; set_solver.
Qed.

(** The active transactions are those that wrote and did not commit. *)
Lemma sets_of_active logs r :
  commit_last logs → is_data r = true → r ∈ logs →
  log_tid_ r ∈ (sets_of logs).2 ↔ ¬ committed_in logs (log_tid_ r).
Proof.
  intros Hcl Hd Hin.
  assert (∀ tid, tid ∈ (sets_of logs).2 → ¬ committed_in logs tid) as H1.
  { clear Hd Hin. induction logs as [|r0 logs IH] using rev_ind; [set_solver|].
    intros tid Ht. rewrite committed_in_snoc. specialize (IH (commit_last_prefix _ _ Hcl)).
    assert (tid = log_tid_ r0 → ¬ committed_in logs tid) as Hnew.
    { intros -> (r1 & (pre & post & ->)%list_elem_of_split & Hc & Ht1)%Exists_exists.
      apply (Hcl pre r1 (post ++ [r0])) with r0; [by rewrite <- app_assoc|done|set_solver|done]. }
    unfold sets_of in Ht. rewrite foldl_app in Ht. simpl in Ht.
    fold (sets_of logs) in Ht. specialize (IH tid). destruct (sets_of logs) as [C A].
    unfold analyze_step in Ht. intros [Hcm|[E1 E2]].
    - destruct (log_type_ r0), (decide (log_tid_ r0 ∈ C)); set_solver.
    - rewrite E1 in Ht. set_solver. }
  assert (∀ r, is_data r = true → r ∈ logs → ¬ committed_in logs (log_tid_ r) → log_tid_ r ∈ (sets_of logs).2) as H2.
  { clear r Hd Hin H1. induction logs as [|r0 logs IH] using rev_ind; [set_solver|].
    intros r Hd [Hin| ->%list_elem_of_singleton]%elem_of_app; rewrite committed_in_snoc; intros Hn;
      unfold sets_of; rewrite foldl_app; simpl; fold (sets_of logs).
    - specialize (IH (commit_last_prefix _ _ Hcl) r Hd Hin). destruct (sets_of logs) as [C A]. simpl in IH.
      unfold analyze_step. destruct (log_type_ r0) eqn:E, (decide (log_tid_ r0 ∈ C)); simpl; set_solver.
    - assert (log_tid_ r0 ∉ (sets_of logs).1) as Hc by (rewrite sets_of_committed; naive_solver).
      destruct (sets_of logs) as [C A]. simpl in Hc. unfold analyze_step, is_data in *.
      destruct (log_type_ r0); try done; rewrite decide_False by done; set_solver. }
  naive_solver.
Qed.

(** The result of the analysis. *)
Lemma analyze_ok logs :
  commit_last logs →
  (∀ r, log_tid_ r ∈ committed_txns_ (analyze logs) ↔ winner logs r) ∧
  undo_logs_ (analyze logs) = reverse (filter (loser logs) logs).
Proof.
  intros Hcl. unfold analyze. pose proof (sets_of_committed logs) as Hc.
  pose proof (λ r, sets_of_active logs r Hcl) as Ha. unfold sets_of in *.
  destruct (foldl analyze_step (∅, ∅) logs) as [C A]; simpl in *. split.
  - intros r. apply Hc.
  - rewrite <- filter_reverse. apply filter_ext_in. intros r Hr. unfold loser, winner.
    split; intros [Hd Hx]; (split; [done|]); apply Ha; try done; by apply elem_of_reverse.
Qed.

(** ** The phases *)

Section phases.
Context (logs : list LogRecord) (base : rkey → option (list byte)).

(** What a log and the database that a crash left have to satisfy: LSNs grow, a transaction
    is over when it commits, a record that an unfinished transaction changed is not changed
    by others, and a page that has no change of an unfinished transaction on record [k] has
    the committed changes of [k] at least up to its LSN. *)
Record recoverable (db : Db) : Prop := mk_recoverable {
  rv_wf : dbwf db;
  rv_placed : Forall (placed db) logs;
  rv_lsns : Forall (λ r, 0 ≤ lsn_ r) logs;
  rv_sorted : StronglySorted (λ r r', lsn_ r < lsn_ r') logs;
  rv_commit : commit_last logs;
  rv_strict : ∀ pre r post, logs = pre ++ r :: post → loser logs r →
    ∀ r', r' ∈ post → winner logs r' → target r' ≠ target r;
  rv_image : ∀ pre r post k, logs = pre ++ r :: post → loser logs r → target r = Some k →
    (∀ r', r' ∈ pre → loser logs r' → target r' ≠ Some k) →
    before_image r = replay (filter (winner logs) pre) k (base k);
  rv_disk : ∀ k, (∀ r, r ∈ logs → loser logs r → target r = Some k → lsn_of db k < lsn_ r) →
    ∃ m, lsn_of db k ≤ m ∧
      value db k = replay (filter (λ r, winner logs r ∧ lsn_ r ≤ m) logs) k (base k)
}.

Lemma replay_filter_none (P : LogRecord → Prop) `{HPdec : !∀ r, Decision (P r)} l k v :
  (∀ r, r ∈ l → P r → target r ≠ Some k) → replay (filter P l) k v = v.
Proof.
  intros H. apply replay_skip, Forall_forall. intros r [HP Hr]%list_elem_of_filter. auto.
Qed.

Lemma replay_filter_cons (P : LogRecord → Prop) `{HPdec : !∀ r, Decision (P r)} r l k v :
  target r ≠ Some k → replay (filter P (r :: l)) k v = replay (filter P l) k v.
Proof.
  intros H. rewrite filter_cons. destruct (decide (P r)); [|done].
  unfold replay. simpl. unfold replay1 at 2. by rewrite decide_False.
Qed.

Lemma filter_split (P : LogRecord → Prop) `{HPdec : !∀ r, Decision (P r)} l a x b :
  filter P l = a ++ x :: b → ∃ l1 l2, l = l1 ++ x :: l2 ∧ filter P l1 = a ∧ filter P l2 = b ∧ P x.
Proof.
  revert a. induction l as [|y l IH]; intros a H; [by destruct a|].
  rewrite filter_cons in H. destruct (decide (P y)) as [Hy|Hy].
  - destruct a as [|a0 a]; injection H as <- H.
    + by exists [], l.
    + destruct (IH a H) as (l1 & l2 & -> & Ha & Hb & Hx). exists (y :: l1), l2.
      split_and!; try done. by rewrite filter_cons_True, Ha.
  - destruct (IH a H) as (l1 & l2 & -> & Ha & Hb & Hx). exists (y :: l1), l2.
    split_and!; try done. by rewrite filter_cons_False.
Qed.

(** Records after one with LSN [l] are above any bound up to [l]. *)
Lemma filter_above (post : list LogRecord) l m :
  (∀ r, r ∈ post → l < lsn_ r) → m ≤ l → filter (λ r, winner logs r ∧ lsn_ r ≤ m) post = [].
Proof.
  intros H Hm. apply elem_of_nil_inv. intros r [[_ Hle] Hr]%list_elem_of_filter. specialize (H r Hr). lia.
Qed.

(** The state of redo after the records [pre], with [post] still to come. *)
Definition redone (db : Db) (pre post : list LogRecord) : Prop :=
  ∀ k, (∀ r, r ∈ logs → loser logs r → target r = Some k → lsn_of db k < lsn_ r) →
  ∃ m, lsn_of db k ≤ m ∧
    value db k = replay (filter (winner logs) pre ++ filter (λ r, winner logs r ∧ lsn_ r ≤ m) post) k (base k).

Lemma sorted_after pre r post r' :
  StronglySorted (λ r r', lsn_ r < lsn_ r') (pre ++ r :: post) → r' ∈ post → lsn_ r < lsn_ r'.
Proof.
  intros H%StronglySorted_app_1_r Hr'. apply StronglySorted_inv in H as [_ H].
  by eapply Forall_forall in H.
Qed.

Lemma sorted_before pre r post r' :
  StronglySorted (λ r r', lsn_ r < lsn_ r') (pre ++ r :: post) → r' ∈ pre → lsn_ r' < lsn_ r.
Proof.
  intros H Hr'.
  apply (StronglySorted_app_1_elem_of (λ r r', lsn_ r < lsn_ r') pre (r :: post) r' r H Hr'). by left.
Qed.

(** One step of redo for a record that is redone or already on its page. *)
Lemma redone_step pre r k post db :
  logs = pre ++ r :: post → StronglySorted (λ r r', lsn_ r < lsn_ r') logs →
  winner logs r → target r = Some k → 0 ≤ lsn_ r → dbwf db → placed db r →
  redone db pre (r :: post) →
  ∃ db', apply_redo r db = (Ok tt, db') ∧ dbwf db' ∧ (∀ r', placed db r' → placed db' r') ∧
         redone db' (pre ++ [r]) post.
Proof.
  intros E Hsort Hwin Hk Hl Hwf Hpl Hred.
  assert (∀ r', r' ∈ post → lsn_ r < lsn_ r') as Hpost by (intros r'; rewrite E in Hsort; by eapply sorted_after).
  assert (∀ v, replay [r] k v = after_image r) as Hon by (intros v; simpl; unfold replay1; by rewrite decide_True).
  destruct (apply_redo_ok r k db Hk Hl Hwf Hpl) as (db' & Hrun & Hskip & Hdo).
  exists db'. split; [done|]. destruct (decide (lsn_ r ≤ lsn_of db k)) as [Hle|Hgt].
  - rewrite (Hskip Hle). split_and!; try done. intros k' Hk'. destruct (Hred k' Hk') as (m & Hm & ->).
    exists m. split; [done|]. rewrite filter_app, !replay_app.
    destruct (decide (lsn_ r ≤ m)) as [Hrm|Hrm].
    + by rewrite (filter_cons_True _ r post), (filter_cons_True _ r []).
    + assert (target r ≠ Some k') by (intros E'; rewrite Hk in E'; injection E' as <-; lia).
      by rewrite !replay_filter_cons.
  - destruct Hdo as [C1 C2 C3 C4]; [lia|]. split_and!; try done. intros k' Hk'.
    assert (lsn_of db k' ≤ Z.max (lsn_of db k') (lsn_ r) ∧ lsn_of db' k' ≤ Z.max (lsn_of db k') (lsn_ r)) as [_ Hb].
    { destruct (C4 k') as [->|[_ ->]]; lia. }
    rewrite C3. destruct (decide (k' = k)) as [->|Hne].
    + exists (lsn_ r). split; [destruct (C4 k) as [->|[_ ->]]; lia|].
      rewrite (filter_above post (lsn_ r) (lsn_ r)) by (done || lia).
      rewrite app_nil_r, filter_app, (filter_cons_True _ r) by done. rewrite filter_nil, replay_app. by rewrite Hon.
    + assert (lsn_of db k' ≤ lsn_of db' k') as Hmono.
      { destruct (C4 k') as [->|[[E1 E2] ->]]; [lia|].
        assert (lsn_of db k' = lsn_of db k) as -> by (unfold lsn_of; by rewrite E1, E2). lia. }
      destruct (Hred k') as (m & Hm & ->); [intros r0 H1 H2 H3; specialize (Hk' r0 H1 H2 H3); lia|].
      exists (Z.max m (lsn_of db' k')). split; [lia|].
      rewrite filter_app, !replay_app.
      rewrite (replay_filter_none (winner logs) [r]) by (intros r0 ->%list_elem_of_singleton _; congruence).
      rewrite replay_filter_cons by congruence. f_equal.
      destruct (decide (m < lsn_ r)).
      * rewrite !(filter_above post (lsn_ r)) by (done || lia || (destruct (C4 k') as [->|[_ ->]]; lia)). done.
      * replace (Z.max m (lsn_of db' k')) with m; [done|]. destruct (C4 k') as [->|[_ ->]]; lia.
Qed.

Lemma apply_redo_nodata r : target r = None → apply_redo r = mret tt.
Proof. unfold target, apply_redo. by destruct (body r). Qed.

(** Redo runs to its end. *)
Lemma redo_logs_ok C post : ∀ pre db,
  (∀ r, log_tid_ r ∈ C ↔ winner logs r) →
  logs = pre ++ post → StronglySorted (λ r r', lsn_ r < lsn_ r') logs → Forall (λ r, 0 ≤ lsn_ r) logs →
  dbwf db → Forall (placed db) logs → redone db pre post →
  ∃ db', redo_logs C post db = (Ok tt, db') ∧ dbwf db' ∧ Forall (placed db') logs ∧ redone db' logs [].
Proof.
  induction post as [|r post IH]; intros pre db HC E Hs Hl Hwf Hpl Hred.
  { exists db. rewrite app_nil_r in E. subst pre. done. }
  assert (E' : logs = (pre ++ [r]) ++ post) by (by rewrite <- app_assoc).
  assert (r ∈ logs) as Hin by (rewrite E; set_solver).
  assert ((¬ winner logs r ∨ target r = None) → redone db (pre ++ [r]) post) as Hno.
  { intros Hr k Hk. destruct (Hred k Hk) as (m & Hm & ->). exists m. split; [done|].
    rewrite filter_app, !replay_app. destruct (decide (winner logs r)) as [Hw|Hw].
    - assert (target r ≠ Some k) by (destruct Hr; congruence).
      rewrite replay_filter_cons by done. f_equal.
      by rewrite replay_filter_cons.
    - rewrite !filter_cons_False by naive_solver. done. }
  simpl. destruct (decide (log_tid_ r ∈ C)) as [Hin'|Hout].
  - apply HC in Hin'. destruct (target r) as [k|] eqn:Ek.
    + destruct (redone_step pre r k post db) as (db' & Hrun & Hwf' & Hpl' & Hred'); try done.
      { by eapply Forall_forall in Hl. } { by eapply Forall_forall in Hpl. }
      rewrite (bind_ok _ _ _ _ _ Hrun). eapply IH; eauto. eapply Forall_impl; eauto.
    + rewrite apply_redo_nodata by done. rewrite (bind_ok _ _ db tt db) by done. eapply IH; eauto.
  - rewrite (bind_ok _ _ db tt db) by done. eapply IH; eauto. apply Hno. left. by rewrite <- HC.
Qed.

(** The state of undo: [rem] is still to come, [db0] is the state after redo. *)
Record undone (db0 db : Db) (rem : list LogRecord) : Prop := mk_undone {
  ud_value : ∀ k, (∀ r, r ∈ rem → target r = Some k → lsn_of db0 k < lsn_ r) →
    value db k = committed_value logs base k;
  ud_lsn : ∀ k, lsn_of db k = lsn_of db0 k ∨
    lsn_of db k ≤ lsn_of db0 k ∧ ∀ r, r ∈ rem → lsn_ r < lsn_of db k
}.

(** The first change of an unfinished transaction has the committed value as its image. *)
Lemma loser_image db pre r post k :
  recoverable db → logs = pre ++ r :: post → loser logs r → target r = Some k →
  (∀ r', r' ∈ pre → loser logs r' → target r' ≠ Some k) →
  before_image r = committed_value logs base k.
Proof.
  intros Hrv E Hlo Hk Hfirst. rewrite (rv_image _ Hrv pre r post k E Hlo Hk Hfirst).
  unfold committed_value. transitivity (replay (filter (winner logs) (pre ++ r :: post)) k (base k));
    [|by rewrite <- E].
  rewrite filter_app, (filter_cons_False _ r) by apply Hlo.
  rewrite replay_app. symmetry. apply replay_filter_none. intros r' Hr' Hw.
  rewrite <- Hk. by eapply rv_strict.
Qed.

Lemma undone_step db00 db0 db r k rem don :
  recoverable db00 → filter (loser logs) logs = rem ++ r :: don → target r = Some k →
  dbwf db → placed db r → undone db0 db (reverse (rem ++ [r])) →
  ∃ db', apply_undo r db = (Ok tt, db') ∧ dbwf db' ∧ (∀ r', placed db r' → placed db' r') ∧
         undone db0 db' (reverse rem).
Proof.
  intros Hrv E Hk Hwf Hpl [Hval Hlsn].
  destruct (filter_split _ _ _ _ _ E) as (pre & post & E' & Hpre & Hpost & Hlo).
  assert (0 ≤ lsn_ r) as Hl.
  { pose proof (rv_lsns _ Hrv) as H. rewrite E' in H. apply Forall_app in H as [_ H]. by inversion H. }
  assert (∀ r', r' ∈ reverse rem → lsn_ r' < lsn_ r) as Hbelow.
  { intros r'. rewrite elem_of_reverse, <- Hpre, list_elem_of_filter. intros [_ Hr'].
    pose proof (rv_sorted _ Hrv) as Hs. rewrite E' in Hs. by eapply sorted_before. }
  rewrite reverse_app in Hval, Hlsn. simpl in Hval, Hlsn.
  assert (lsn_ r ≤ lsn_of db k ↔ lsn_ r ≤ lsn_of db0 k) as Hiff.
  { destruct (Hlsn k) as [->|[H1 H2]]; [done|]. specialize (H2 r ltac:(set_solver)). lia. }
  destruct (apply_undo_ok r k db Hk Hl Hwf Hpl) as (db' & Hrun & Hskip & Hdo).
  exists db'. split; [done|]. destruct (decide (lsn_ r ≤ lsn_of db k)) as [Hle|Hgt].
  - destruct (Hdo Hle) as [C1 C2 C3 C4]. split_and!; [done..|]. split.
    + intros k' Hk'. rewrite C3. destruct (decide (k' = k)) as [->|Hne].
      * apply (loser_image db00 pre r post k); try done. intros r' Hr' Hlo' Ht'.
        assert (r' ∈ reverse rem) as Hrem by (rewrite elem_of_reverse, <- Hpre, list_elem_of_filter; done).
        specialize (Hk' r' Hrem Ht'). specialize (Hbelow r' Hrem). lia.
      * apply Hval. intros r'. rewrite elem_of_cons. intros [->|Hr'] Ht'; [congruence|by apply Hk'].
    + intros k'. destruct (C4 k') as [->|[[E1 E2] ->]].
      * destruct (Hlsn k') as [->|[H1 H2]]; [by left|]. right. split; [done|]. intros r' Hr'. apply H2. by right.
      * right. split; [|done]. assert (∀ d : Db, lsn_of d k' = lsn_of d k) as -> by (intros d; unfold lsn_of; by rewrite E1, E2). lia.
  - rewrite Hskip by lia. split_and!; try done. split.
    + intros k' Hk'. apply Hval. intros r'. rewrite elem_of_cons. intros [->|Hr'] Ht'; [|by apply Hk'].
      rewrite Hk in Ht'. injection Ht' as <-. lia.
    + intros k'. destruct (Hlsn k') as [->|[H1 H2]]; [by left|]. right. split; [done|]. intros r' Hr'. apply H2. by right.
Qed.

Lemma undo_records_ok db00 db0 rem : ∀ don db,
  recoverable db00 → filter (loser logs) logs = rem ++ don →
  dbwf db → Forall (placed db) logs → undone db0 db (reverse rem) →
  ∃ db', undo_records (reverse rem) db = (Ok tt, db') ∧ dbwf db' ∧ Forall (placed db') logs ∧ undone db0 db' [].
Proof.
  induction rem as [|r rem IH] using rev_ind; intros don db Hrv E Hwf Hpl Hun; [by exists db|].
  rewrite <- app_assoc in E. simpl in E.
  destruct (filter_split _ _ _ _ _ E) as (pre & post & E' & _ & _ & [Hd _]).
  apply is_data_target in Hd as [k Hk].
  destruct (undone_step db00 db0 db r k rem don) as (db1 & Hrun & Hwf1 & Hpl1 & Hun1); try done.
  { eapply Forall_forall; [done|]. rewrite E'. set_solver. }
  rewrite reverse_app. simpl. rewrite (bind_ok _ _ _ _ _ Hrun). eapply IH; eauto.
  eapply Forall_impl; eauto.
Qed.

Lemma recover_ok db :
  recoverable db →
  ∃ db', recover logs db = (Ok tt, db') ∧ recoverable db' ∧
         ∀ k, value db' k = committed_value logs base k.
Proof.
  intros Hrv. destruct (analyze_ok logs (rv_commit _ Hrv)) as [HC HU].
  destruct (redo_logs_ok (committed_txns_ (analyze logs)) logs [] db) as (db0 & Hrun0 & Hwf0 & Hpl0 & Hred);
    try done; try apply Hrv.
  { intros k Hk. destruct (rv_disk _ Hrv k Hk) as (m & Hm & Hv). by exists m. }
  assert (undone db0 db0 (reverse (filter (loser logs) logs))) as Hun.
  { split; [|auto]. intros k Hk. destruct (Hred k) as (m & _ & ->); [|by rewrite filter_nil, app_nil_r].
    intros r Hin Hlo Ht. apply Hk; [|done]. by rewrite elem_of_reverse, list_elem_of_filter. }
  destruct (undo_records_ok db db0 (filter (loser logs) logs) [] db0) as (db' & Hrun & Hwf & Hpl & Hfin);
    try done; [by rewrite app_nil_r|].
  assert (∀ k, value db' k = committed_value logs base k) as Hall by (intros k; apply Hfin; set_solver).
  exists db'. split.
  { unfold recover, redo, undo. rewrite (bind_ok _ _ _ _ _ Hrun0), HU. done. }
  split; [|done]. destruct Hrv. split; try done.
  intros k _. exists (Z.max (lsn_of db' k) (foldr (λ r, Z.max (lsn_ r)) 0 logs)). split; [lia|].
  rewrite Hall. unfold committed_value. f_equal. apply filter_ext_in. intros r Hr.
  assert (lsn_ r ≤ foldr (λ r, Z.max (lsn_ r)) 0 logs) as Hmax.
  { clear -Hr. induction logs as [|r0 l IH]; [set_solver|]. simpl. apply elem_of_cons in Hr as [->|Hr]; [lia|].
    specialize (IH Hr). lia. }
  split; [|naive_solver]. intros Hw. split; [done|lia].
Qed.
End phases.

(** ** Claims *)

(** C2: recovery from a crash in the first run on a log.  If the log and the database are
    [recoverable], [recover] runs to its end without an error and gives every record of every
    table the value that the committed transactions of the log give it: changes of committed
    transactions that did not reach the disk are there, changes of unfinished transactions
    that did are not.  The result is again recoverable, so that a second run after a crash
    gives the same.  [recoverable] asks that the LSNs of the log grow (so it is the log of one
    run of the server: LSNs and transaction ids start again at each start), that a transaction
    writes nothing behind its commit record, that the tables of the log are open, with the
    places of its records (no table was dropped and none was sorted into new pages by its first
    index since), that no committed transaction changes a record behind a change of one without
    a commit record, aborted ones included, that the before-image of the first such change is
    the committed value before it, and that a page whose LSN is below those of the
    uncommitted changes to a record has the committed changes to it at least up to its LSN.
    Outside of these recovery goes wrong ([undo_of_aborted_overwrites_commit],
    [restarted_ids_lose_updates], [dropped_table_blocks_restart], [clustering_breaks_recovery]). *)
Theorem recover_correct logs base db :
  recoverable logs base db →
  ∃ db', recover logs db = (Ok tt, db') ∧ recoverable logs base db' ∧
         ∀ k, value db' k = committed_value logs base k.
Proof. apply recover_ok. Qed.

(** The analysis.  When nothing follows the commit record of a transaction, the
    committed transactions are exactly those with a commit record, and the records to undo
    are the changes of all the others, the last one first. *)
Theorem analyze_classifies logs :
  commit_last logs →
  (∀ tid, tid ∈ committed_txns_ (analyze logs) ↔ committed_in logs tid) ∧
  undo_logs_ (analyze logs) = reverse (filter (loser logs) logs).
Proof.
  intros H. destruct (analyze_ok logs H) as [HC HU]. split; [|done]. intros tid.
  pose proof (HC (mk_LogRecord 0 0 tid 0 PBegin)) as HC'. apply HC'.
Qed.

(** *** A log with a transaction that committed and one that did not *)

Definition tab1 : list byte := [Byte.x74].
Definition rec_ (b : byte) : list byte := [b].
Definition entry (lsn tid : Z) (p : payload) : LogRecord := mk_LogRecord lsn 0 tid INVALID_LSN p.
Definition rid10 : Rid := mk_Rid 1 0.
Definition rid11 : Rid := mk_Rid 1 1.

Definition table_with (pages lsn : Z) (rs : list (Rid * list byte)) : Db :=
  {[tab1 := mk_Table (list_to_map rs) {[1 := lsn]} pages 2 []]}.

(** Transaction 1 inserts [rid10] and commits, transaction 2 updates [rid10] and inserts
    [rid11] and does not; the page was written after the first change of each. *)
Definition log12 : list LogRecord :=
  [entry 0 1 PBegin; entry 1 1 (PInsert (rec_ Byte.x01) rid10 tab1);
   entry 2 2 PBegin; entry 3 2 (PInsert (rec_ Byte.x02) rid11 tab1);
   entry 4 1 (PUpdate (rec_ Byte.x01) (rec_ Byte.x03) rid10 tab1); entry 5 1 PCommit;
   entry 6 2 (PUpdate (rec_ Byte.x03) (rec_ Byte.x04) rid10 tab1)].
Definition db12 : Db := table_with 2 3 [(rid10, rec_ Byte.x01); (rid11, rec_ Byte.x02)].

Ltac log_cases pre E := repeat (destruct pre as [|? pre]; simplify_eq/=).

Lemma commit_last12 : commit_last log12.
Proof.
  intros pre r post E Hc r' Hr'. unfold log12 in E. log_cases pre E; try done; set_solver.
Defined.

Lemma twf_table_with pages lsn rs :
  0 ≤ lsn → 2 ≤ pages → Forall (λ p, page_no p.1 = 1) rs → dbwf (table_with pages lsn rs).
Proof.
  intros Hl Hp Hrs. apply map_Forall_singleton. split; simpl.
  - intros rid v Hv%elem_of_list_to_map_2. eapply Forall_forall in Hrs; [|done].
    apply page_ok_spec. simpl in *. unfold RM_FIRST_RECORD_PAGE. lia.
  - intros p l [_ <-]%lookup_singleton_Some. unfold INVALID_LSN. lia.
  - unfold RM_FIRST_RECORD_PAGE. lia.
Defined.

(** [refute H] closes a goal by evaluating the decidable hypothesis [H] to false. *)
Ltac refute H :=
  exfalso; revert H; match goal with |- ?P → False => refine (bool_decide_unpack (¬ P) _); vm_compute; exact I end.

Definition k10 : rkey := (tab1, rid10).
Definition k11 : rkey := (tab1, rid11).

Lemma recoverable12 : recoverable log12 (λ _, None) db12.
Proof.
  split.
  - apply twf_table_with; [lia|lia|]. repeat constructor.
  - unfold log12. repeat apply Forall_cons_2; try apply Forall_nil_2;
      (intros k Hk; unfold target in Hk; simpl in Hk; simplify_eq; simpl; (eexists; (split; [reflexivity|done]))).
  - unfold log12. repeat constructor; simpl; lia.
  - unfold log12. repeat constructor; simpl; lia.
  - apply commit_last12.
  - intros pre r post E Hlo r' Hr' Hw. unfold log12 in E.
    log_cases pre E; first [refute Hlo | set_solver].
  - intros pre r post k E Hlo Hk Hf. unfold log12 in E.
    log_cases pre E; first [refute Hlo | unfold target in Hk; simpl in Hk; simplify_eq; vm_compute; reflexivity].
  - intros k Hk. destruct (decide (k = k10)) as [->|H10]; [|destruct (decide (k = k11)) as [->|H11]].
    + exists 3. split; [vm_compute; congruence|vm_compute; reflexivity].
    + exfalso. specialize (Hk (entry 3 2 (PInsert (rec_ Byte.x02) rid11 tab1))).
      assert (lsn_of db12 k11 = 3) as E3 by (vm_compute; reflexivity).
      rewrite E3 in Hk. simpl in Hk. enough (3 < 3) by lia. apply Hk; [unfold log12; set_solver| |done].
      refine (bool_decide_unpack (loser _ _) _). vm_compute. exact I.
    + exists (lsn_of db12 k). split; [lia|]. rewrite replay_filter_none.
      * destruct k as [tab rid]. unfold value, db12, table_with, k10, k11 in *. simpl in *.
        destruct (decide (tab = tab1)) as [->|Hne]; [|by rewrite lookup_singleton_ne].
        rewrite lookup_singleton_eq. simpl. by rewrite !lookup_insert_ne by congruence.
      * intros r Hr _ Ht. unfold log12 in Hr. unfold k10, k11 in *.
        repeat (apply elem_of_cons in Hr as [->|Hr]; [unfold target in Ht; simpl in Ht; congruence|]).
        by apply elem_of_nil in Hr.
Defined.

Lemma recover_correct_witness :
  ∃ db', recover log12 db12 = (Ok tt, db') ∧ recoverable log12 (λ _, None) db' ∧
         ∀ k, value db' k = committed_value log12 (λ _, None) k.
Proof. apply (recover_correct log12 (λ _, None) db12), recoverable12. Defined.

(** The values recovery gives: transaction 1's update, and no record of transaction 2. *)
Example recover12 :
  let db' := (recover log12 db12).2 in
  (recover log12 db12).1 = Ok tt ∧ value db' k10 = Some (rec_ Byte.x03) ∧ value db' k11 = None.
Proof. vm_compute. done. Qed.

Lemma analyze_classifies_witness :
  (∀ tid, tid ∈ committed_txns_ (analyze log12) ↔ committed_in log12 tid) ∧
  undo_logs_ (analyze log12) = reverse (filter (loser log12) log12).
Proof. apply (analyze_classifies log12), commit_last12. Defined.

(** *** Logs that recovery does not handle *)

(** Transaction 1 updates [rid10] and aborts: [TransactionManager::abort] restores the
    record in its page and writes an abort record, but no record of the restored value.
    Transaction 2 then updates the record and commits. *)
Definition log_abort : list LogRecord :=
  [entry 1 1 (PUpdate (rec_ Byte.x01) (rec_ Byte.x02) rid10 tab1); entry 2 1 PAbort;
   entry 4 2 (PUpdate (rec_ Byte.x01) (rec_ Byte.x03) rid10 tab1); entry 5 2 PCommit].

(** An aborted transaction takes a committed change back.  [analyze] keeps a transaction
    with an abort record among the active ones, and undo then restores its before-image
    over the value that a later transaction committed, although that value is on disk. *)
Theorem undo_of_aborted_overwrites_commit :
  let db := table_with 2 4 [(rid10, rec_ Byte.x03)] in
  committed_value log_abort (λ _, Some (rec_ Byte.x01)) k10 = Some (rec_ Byte.x03) ∧
  (recover log_abort db).1 = Ok tt ∧
  value (recover log_abort db).2 k10 = Some (rec_ Byte.x01).
Proof. vm_compute. done. Qed.

(** Two runs of the server.  LSNs and transaction ids start at 0 in both, and the second
    run appends to the log of the first. *)
Definition run1 : list LogRecord :=
  [entry 0 0 (PInsert (rec_ Byte.x01) rid10 tab1); entry 1 0 PCommit].
Definition run2 (commits : bool) : list LogRecord :=
  [entry 0 0 (PUpdate (rec_ Byte.x01) (rec_ Byte.x05) rid10 tab1)] ++
  (if commits then [entry 1 0 PCommit] else []).

(** LSNs and transaction ids that start again.  After a restart a committed update that
    did not reach its page is not redone, since the page has as high a LSN from the run
    before; and an uncommitted update that did reach it is not undone, since a transaction
    with its id committed in the run before. *)
Theorem restarted_ids_lose_updates :
  (let db := table_with 2 0 [(rid10, rec_ Byte.x01)] in
   value (recover (run1 ++ run2 true) db).2 k10 = Some (rec_ Byte.x01)) ∧
  (let db := table_with 2 0 [(rid10, rec_ Byte.x05)] in
   value (recover (run1 ++ run2 false) db).2 k10 = Some (rec_ Byte.x05)).
Proof. vm_compute. done. Qed.

End RecoveryFacts.
