(* ===== verification/Conditions.v ===== *)
(** * Values and conditions ([common/common.h], [system/sm_meta.h], [execution/execution_common.h])

    Column metadata, values, the conditions of a WHERE clause and their evaluation on a
    record, in the two copies the program has: [eval_conds] of the executors and
    [eval_txn_conds] of the transaction manager, which serializable reads depend on.  Also
    the comparison of index keys, [ix_compare].

    A [float] is its 32 bits, decoded to the Standard Library's [spec_float], whose
    comparison is that of IEEE 754. *)

From Stdlib Require Import SpecFloat.
From S2P Require Import Prelude.

Module Cond.

Inductive ColType := TYPE_INT | TYPE_FLOAT | TYPE_STRING.
Inductive CompOp := OP_EQ | OP_NE | OP_LT | OP_GT | OP_LE | OP_GE.

Record ColMeta := mk_ColMeta {
  cm_tab_name : list byte;
  cm_name : list byte;
  cm_type : ColType;
  cm_len : Z;
  cm_offset : Z
}.

Record IndexMeta := mk_IndexMeta { im_cols : list ColMeta }.
Record TabMeta := mk_TabMeta { tm_cols : list ColMeta; tm_indexes : list IndexMeta }.

Record TabCol := mk_TabCol { tc_tab_name : list byte; tc_col_name : list byte }.
#[export] Instance ColType_eq_dec : EqDecision ColType.
Proof. solve_decision. Defined.
#[export] Instance TabCol_eq_dec : EqDecision TabCol.
Proof. solve_decision. Defined.

(** [Value]: [int_val] and [float_val] share the four bytes of a union. *)
Record Value := mk_Value { v_bits : list byte; str_val : list byte }.

Record Condition := mk_Condition {
  lhs_col : TabCol;
  op : CompOp;
  is_rhs_val : bool;
  rhs_col : TabCol;
  rhs_val : Value
}.

(** ** Floats *)

(** The value of the bits [b] of a [float]. *)
Definition float_of_bits (b : Z) : spec_float :=
  let s := Z.testbit b 31 in
  let e := Z.land (Z.shiftr b 23) 255 in
  let m := Z.land b 8388607 in
  if decide (e = 255) then (if decide (m = 0) then S754_infinity s else S754_nan)
  else if decide (e = 0) then match m with Zpos p => S754_finite s p (-149) | _ => S754_zero s end
  else match m + 8388608 with Zpos p => S754_finite s p (e - 150) | _ => S754_nan end.

(** ** Reading fields *)

Definition int_of (bs : list byte) : Z := dec_i32 bs.
Definition float_of (bs : list byte) : spec_float := float_of_bits (dec_u32 bs).

(** [std::string s(p, len); s.resize(strlen(s.c_str()))]: up to the first zero byte. *)
Fixpoint c_str (bs : list byte) : list byte :=
  match bs with
  | [] => []
  | b :: bs => if decide (b = Byte.x00) then [] else b :: c_str bs
  end.

(** [memcmp] and the order of [std::string], on unsigned bytes. *)
Fixpoint byte_compare (a b : list byte) : comparison :=
  match a, b with
  | [], [] => Eq
  | [], _ => Lt
  | _, [] => Gt
  | x :: a, y :: b =>
      match byte.unsigned x ?= byte.unsigned y with Eq => byte_compare a b | c => c end
  end.

Definition field (rec : list byte) (off len : Z) : list byte := read_bytes rec (Z.to_nat off) (Z.to_nat len).

(** ** Conditions *)

(** The six operators on the result of a comparison; a comparison with a NaN has none. *)
Definition compare_op (o : CompOp) (c : option comparison) : bool :=
  match o, c with
  | OP_EQ, Some Eq => true
  | OP_NE, Some Eq => false
  | OP_NE, _ => true
  | OP_LT, Some Lt => true
  | OP_GT, Some Gt => true
  | OP_LE, Some (Lt | Eq) => true
  | OP_GE, Some (Gt | Eq) => true
  | _, _ => false
  end.

Definition compare_int (o : CompOp) (l r : Z) : bool := compare_op o (Some (l ?= r)).
Definition compare_float (o : CompOp) (l r : spec_float) : bool := compare_op o (SFcompare l r).
Definition compare_string (o : CompOp) (l r : list byte) : bool := compare_op o (Some (byte_compare l r)).

Definition find_col (cols : list ColMeta) (c : TabCol) : option ColMeta :=
  snd <$> list_find (λ m, cm_tab_name m = tc_tab_name c ∧ cm_name m = tc_col_name c) cols.

(** [eval_conds] ([execution_common.h]). *)
Fixpoint eval_conds (rec : list byte) (cols : list ColMeta) (conds : list Condition) : bool :=
  match conds with
  | [] => true
  | cond :: conds =>
      match find_col cols (lhs_col cond) with
      | None => false
      | Some lhs =>
          let ok :=
            if is_rhs_val cond then
              match cm_type lhs with
              | TYPE_INT => compare_int (op cond) (int_of (field rec (cm_offset lhs) 4)) (int_of (v_bits (rhs_val cond)))
              | TYPE_FLOAT => compare_float (op cond) (float_of (field rec (cm_offset lhs) 4)) (float_of (v_bits (rhs_val cond)))
              | TYPE_STRING => compare_string (op cond) (c_str (field rec (cm_offset lhs) (cm_len lhs))) (str_val (rhs_val cond))
              end
            else
              match find_col cols (rhs_col cond) with
              | None => false
              | Some rhs =>
                  match cm_type lhs with
                  | TYPE_INT => compare_int (op cond) (int_of (field rec (cm_offset lhs) 4)) (int_of (field rec (cm_offset rhs) 4))
                  | TYPE_FLOAT => compare_float (op cond) (float_of (field rec (cm_offset lhs) 4)) (float_of (field rec (cm_offset rhs) 4))
                  | TYPE_STRING => compare_string (op cond) (c_str (field rec (cm_offset lhs) (cm_len lhs))) (c_str (field rec (cm_offset rhs) (cm_len rhs)))
                  end
              end in
          if ok then eval_conds rec cols conds else false
      end
  end.

(** [eval_txn_conds] ([transaction_manager.cpp]). *)
Fixpoint eval_txn_conds (rec : list byte) (cols : list ColMeta) (conds : list Condition) : bool :=
  match conds with
  | [] => true
  | cond :: conds =>
      match find_col cols (lhs_col cond) with
      | None => false
      | Some lhs =>
          let rest := eval_txn_conds rec cols conds in
          if is_rhs_val cond then
            match cm_type lhs with
            | TYPE_INT => if compare_int (op cond) (int_of (field rec (cm_offset lhs) 4)) (int_of (v_bits (rhs_val cond))) then rest else false
            | TYPE_FLOAT => if compare_float (op cond) (float_of (field rec (cm_offset lhs) 4)) (float_of (v_bits (rhs_val cond))) then rest else false
            | TYPE_STRING => if compare_string (op cond) (c_str (field rec (cm_offset lhs) (cm_len lhs))) (str_val (rhs_val cond)) then rest else false
            end
          else
            match find_col cols (rhs_col cond) with
            | None => false
            | Some rhs =>
                match cm_type lhs with
                | TYPE_INT => if compare_int (op cond) (int_of (field rec (cm_offset lhs) 4)) (int_of (field rec (cm_offset rhs) 4)) then rest else false
                | TYPE_FLOAT => if compare_float (op cond) (float_of (field rec (cm_offset lhs) 4)) (float_of (field rec (cm_offset rhs) 4)) then rest else false
                | TYPE_STRING => if compare_string (op cond) (c_str (field rec (cm_offset lhs) (cm_len lhs))) (c_str (field rec (cm_offset rhs) (cm_len rhs))) then rest else false
                end
            end
      end
  end.

(** ** Comparison of index keys ([index/ix_index_handle.h]) *)

(** [ix_compare] of one column: the sign of the result. *)
Definition ix_compare_col (a b : list byte) (type : ColType) (col_len : Z) : comparison :=
  match type with
  | TYPE_INT => int_of (take 4 a) ?= int_of (take 4 b)
  | TYPE_FLOAT =>
      let fa := float_of (take 4 a) in
      let fb := float_of (take 4 b) in
      if SFltb fa fb then Lt else if SFltb fb fa then Gt else Eq
  | TYPE_STRING => byte_compare (take (Z.to_nat col_len) a) (take (Z.to_nat col_len) b)
  end.

Fixpoint ix_compare (a b : list byte) (cols : list (ColType * Z)) : comparison :=
  match cols with
  | [] => Eq
  | (type, len) :: cols =>
      match ix_compare_col a b type len with
      | Eq => ix_compare (drop (Z.to_nat len) a) (drop (Z.to_nat len) b) cols
      | c => c
      end
  end.

(** ** Index keys of a record *)

Definition make_index_key (rec : list byte) (ix : IndexMeta) : list byte :=
  concat ((λ c, field rec (cm_offset c) (cm_len c)) <$> im_cols ix).

Definition index_keys_changed (tab : TabMeta) (o n : list byte) : bool :=
  existsb (λ ix, existsb (λ c,
    negb (bool_decide (field o (cm_offset c) (cm_len c) = field n (cm_offset c) (cm_len c)))) (im_cols ix)) (tm_indexes tab).

(** ** Properties *)

(** The two copies of the evaluation agree. *)
Lemma eval_conds_agree rec cols conds : eval_txn_conds rec cols conds = eval_conds rec cols conds.
Proof.
  induction conds as [|c conds IH]; [done|]. simpl. rewrite IH.
  destruct (find_col cols (lhs_col c)) as [l|]; [|done].
  destruct (is_rhs_val c); [by destruct (cm_type l)|].
  destruct (find_col cols (rhs_col c)); [by destruct (cm_type l)|done].
Qed.

(** Keys do not change exactly when every index of the table has the same key for both. *)
Lemma index_keys_changed_spec tab o n :
  index_keys_changed tab o n = false → Forall (λ ix, make_index_key o ix = make_index_key n ix) (tm_indexes tab).
Proof.
  intros H. apply Forall_forall. intros ix Hix. unfold make_index_key. f_equal.
  apply list_fmap_ext. intros i c Hc.
  destruct (decide (field o (cm_offset c) (cm_len c) = field n (cm_offset c) (cm_len c))) as [|Hne]; [done|].
  exfalso. assert (index_keys_changed tab o n = true) as Ht; [|congruence].
  unfold index_keys_changed. apply existsb_exists. exists ix. split; [by apply list_elem_of_In|].
  apply existsb_exists. exists c. split; [by eapply list_elem_of_In, list_elem_of_lookup_2|].
  by rewrite bool_decide_false.
Qed.

(** The bits of a float as a signed integer, in whose order floats compare. *)
Definition fbits_key (b : Z) : Z := if Z.testbit b 31 then - (b mod 2147483648) else b mod 2147483648.

(** A bit pattern that is not a NaN. *)
Definition not_nan (b : Z) : Prop := b mod 2147483648 ≤ 2139095040.

Lemma float_fields b :
  0 ≤ b →
  Z.land (Z.shiftr b 23) 255 = (b mod 2147483648) / 8388608 ∧ Z.land b 8388607 = (b mod 2147483648) mod 8388608.
Proof.
  intros Hb. rewrite Z.shiftr_div_pow2 by lia.
  change 255 with (Z.ones 8).
  change 8388607 with (Z.ones 23).
  rewrite !Z.land_ones by lia. change (2 ^ 23) with 8388608. change (2 ^ 8) with 256. split.
  - change 2147483648 with (8388608 * 256). rewrite Z.rem_mul_r by lia.
    rewrite Z.add_comm, Z.mul_comm, Z.div_add_l by lia. rewrite (Z.div_small (b mod 8388608)); [lia|].
    apply Z.mod_pos_bound. lia.
  - change 2147483648 with (8388608 * 256). rewrite Z.rem_mul_r by lia.
    rewrite Z.add_comm, Z.mul_comm, Z.add_comm, Z.mod_add by lia. by rewrite Z.mod_mod by lia.
Qed.

(** The shape of a float that is not a NaN, with the magnitude [a] of its bits. *)
Inductive float_shape (s : bool) (a : Z) : spec_float → Prop :=
| FZero : a = 0 → float_shape s a (S754_zero s)
| FInf : a = 2139095040 → float_shape s a (S754_infinity s)
| FFinite p e : a = Zpos p + (e + 149) * 8388608 → Zpos p < 16777216 → -149 ≤ e →
    e = -149 ∨ 8388608 ≤ Zpos p → a < 2139095040 → float_shape s a (S754_finite s p e).

Lemma float_of_bits_shape b :
  0 ≤ b → not_nan b → float_shape (Z.testbit b 31) (b mod 2147483648) (float_of_bits b).
Proof.
  intros Hb Hn. unfold float_of_bits, not_nan in *. destruct (float_fields b Hb) as [-> ->].
  set (a := b mod 2147483648) in *. assert (0 ≤ a) by (apply Z.mod_pos_bound; lia). clearbody a.
  pose proof (Z.div_mod a 8388608 ltac:(lia)) as Hdm. pose proof (Z.mod_pos_bound a 8388608 ltac:(lia)) as Hm.
  set (e := a / 8388608) in *. set (m := a mod 8388608) in *. clearbody e m.
  destruct (decide (e = 255)) as [->|He].
  - rewrite decide_True by lia. apply FInf. lia.
  - destruct (decide (e = 0)) as [->|He0].
    + destruct m as [|p|p]; [apply FZero; lia|apply FFinite; lia|lia].
    + destruct (m + 8388608) as [|p|p] eqn:E; [lia|apply FFinite; lia|lia].
Qed.

(** Floats compare as their keys do. *)
Lemma float_compare_key x y :
  0 ≤ x → 0 ≤ y → not_nan x → not_nan y →
  SFcompare (float_of_bits x) (float_of_bits y) = Some (fbits_key x ?= fbits_key y).
Proof.
  intros Hx Hy Nx Ny. unfold fbits_key.
  pose proof (float_of_bits_shape x Hx Nx) as Sx. pose proof (float_of_bits_shape y Hy Ny) as Sy.
  set (a := x mod 2147483648) in *. set (b := y mod 2147483648) in *. clearbody a b.
  destruct (Z.testbit x 31), (Z.testbit y 31);
  destruct Sx as [?|?|p e ? ? ? ? ?], Sy as [?|?|q f ? ? ? ? ?]; simpl; f_equal; symmetry;
    try (first [apply Z.compare_eq_iff; lia|apply Z.compare_lt_iff; lia|apply Z.compare_gt_iff; lia]).
  all: change (Pos.compare_cont Eq p q) with (p ?= q)%positive.
  all: destruct (Z.compare_spec e f), (Pos.compare_spec p q); simpl;
    first [apply Z.compare_eq_iff; lia|apply Z.compare_lt_iff; lia|apply Z.compare_gt_iff; lia].
Qed.
End Cond.
