(* ===== verification/LockManager.v ===== *)
(** * The lock manager ([transaction/concurrency/lock_manager.{h,cpp}])

    Two-phase locking without waiting: a request that conflicts with a lock of another
    transaction aborts the requester.  Locks are on tables and records, in the modes IS, IX,
    S, SIX and X; a transaction that already holds a lock upgrades it to the join of both.

    The lock table is sharded by [std::hash<int64_t>] of the lock's id, which is a parameter
    here.  The parts of [Transaction] that the lock manager uses are its state and its lock
    set. *)

From S2P Require Import Prelude RecordFile.

Module Lm.
Import RecFile.

Inductive LockDataType := TABLE | RECORD.

Record LockDataId := mk_LockDataId { fd_ : Z; rid_ : Rid; type_ : LockDataType }.

#[global] Instance LockDataType_eq_dec : EqDecision LockDataType.
Proof. solve_decision. Defined.
#[global] Instance LockDataId_eq_dec : EqDecision LockDataId.
Proof. solve_decision. Defined.
#[global] Program Instance LockDataId_countable : Countable LockDataId :=
  inj_countable' (λ l, (fd_ l, rid_ l, bool_decide (type_ l = TABLE)))
    (λ x, mk_LockDataId x.1.1 x.1.2 (if x.2 : bool then TABLE else RECORD)) _.
Next Obligation. by intros [? ? []]. Qed.

Definition table_lock (fd : Z) : LockDataId := mk_LockDataId fd (mk_Rid (-1) (-1)) TABLE.
Definition record_lock (fd : Z) (rid : Rid) : LockDataId := mk_LockDataId fd rid RECORD.

(** [LockDataId::Get], in [int64_t]. *)
Definition Get (l : LockDataId) : Z :=
  match type_ l with
  | TABLE => fd_ l
  | RECORD => int64 (Z.lor (Z.lor (Z.lor (Z.shiftl 1 63) (Z.shiftl (fd_ l) 31))
                                  (Z.shiftl (page_no (rid_ l)) 16)) (slot_no (rid_ l)))
  end.

Inductive LockMode := SHARED | EXLUCSIVE | INTENTION_SHARED | INTENTION_EXCLUSIVE | S_IX.
Inductive GroupLockMode := NON_LOCK | IS | IX | Sh | X | SIX.
Inductive TransactionState := DEFAULT | GROWING | SHRINKING | COMMITTED | ABORTED.

#[global] Instance LockMode_eq_dec : EqDecision LockMode.
Proof. solve_decision. Defined.
#[global] Instance GroupLockMode_eq_dec : EqDecision GroupLockMode.
Proof. solve_decision. Defined.
#[global] Instance TransactionState_eq_dec : EqDecision TransactionState.
Proof. solve_decision. Defined.

Record LockRequest := mk_LockRequest { txn_id_ : Z; lock_mode_ : LockMode; granted_ : bool }.

Record LockRequestQueue := mk_Queue {
  request_queue_ : list LockRequest;
  group_lock_mode_ : GroupLockMode
}.

Record Txn := mk_Txn { state_ : TransactionState; lock_set_ : gset LockDataId }.

Record LockManager := mk_LockManager {
  lock_table_shards_ : gmap Z (gmap LockDataId LockRequestQueue);
  txns : gmap Z Txn
}.

(** ** The helpers of [lock] *)

Definition compatible (lhs rhs : LockMode) : bool :=
  if bool_decide (lhs = EXLUCSIVE) || bool_decide (rhs = EXLUCSIVE) then false
  else if bool_decide (lhs = S_IX) then bool_decide (rhs = INTENTION_SHARED)
  else if bool_decide (rhs = S_IX) then bool_decide (lhs = INTENTION_SHARED)
  else if bool_decide (lhs = SHARED) then bool_decide (rhs = SHARED) || bool_decide (rhs = INTENTION_SHARED)
  else if bool_decide (rhs = SHARED) then bool_decide (lhs = SHARED) || bool_decide (lhs = INTENTION_SHARED)
  else true.

Definition merge_lock (cur req : LockMode) : LockMode :=
  if bool_decide (cur = req) then cur
  else if bool_decide (cur = EXLUCSIVE) || bool_decide (req = EXLUCSIVE) then EXLUCSIVE
  else if bool_decide (cur = S_IX) || bool_decide (req = S_IX) then S_IX
  else if (bool_decide (cur = SHARED) && bool_decide (req = INTENTION_EXCLUSIVE)) ||
          (bool_decide (cur = INTENTION_EXCLUSIVE) && bool_decide (req = SHARED)) then S_IX
  else if bool_decide (cur = INTENTION_EXCLUSIVE) || bool_decide (req = INTENTION_EXCLUSIVE) then INTENTION_EXCLUSIVE
  else if bool_decide (cur = SHARED) || bool_decide (req = SHARED) then SHARED
  else INTENTION_SHARED.

Definition covers (held req : LockMode) : bool := bool_decide (merge_lock held req = held).

Definition group_from_lock (m : LockMode) : GroupLockMode :=
  match m with
  | INTENTION_SHARED => IS | INTENTION_EXCLUSIVE => IX | SHARED => Sh | S_IX => SIX | EXLUCSIVE => X
  end.

Definition has (m : LockMode) (q : list LockRequest) : bool :=
  existsb (λ r, granted_ r && bool_decide (lock_mode_ r = m)) q.

Definition recompute_group (q : list LockRequest) : GroupLockMode :=
  if has EXLUCSIVE q then X
  else if has S_IX q || (has SHARED q && has INTENTION_EXCLUSIVE q) then SIX
  else if has SHARED q then Sh
  else if has INTENTION_EXCLUSIVE q then IX
  else if has INTENTION_SHARED q then IS
  else NON_LOCK.

(** A granted request of transaction [t]. *)
Definition owned (t : Z) (r : LockRequest) : Prop := txn_id_ r = t ∧ granted_ r = true.
#[global] Instance owned_dec t r : Decision (owned t r).
Proof. unfold owned. apply _. Defined.

Definition blocks (t : Z) (m : LockMode) (r : LockRequest) : bool :=
  granted_ r && bool_decide (txn_id_ r ≠ t) && negb (compatible m (lock_mode_ r)).

Section lock_manager.
Context (std_hash : Z → Z).

Definition LOCK_TABLE_SHARD_COUNT : Z := 64.

Definition get_shard (lid : LockDataId) : Z := std_hash (Get lid) mod LOCK_TABLE_SHARD_COUNT.

Definition shard_table (lid : LockDataId) (m : LockManager) : gmap LockDataId LockRequestQueue :=
  default ∅ (lock_table_shards_ m !! get_shard lid).
Definition queue_of (lid : LockDataId) (m : LockManager) : option LockRequestQueue := shard_table lid m !! lid.

Definition put_queue (lid : LockDataId) (q : option LockRequestQueue) (m : LockManager) : LockManager :=
  mk_LockManager (<[get_shard lid := partial_alter (λ _, q) lid (shard_table lid m)]> (lock_table_shards_ m)) (txns m).

Definition put_txn (t : Z) (x : Txn) (m : LockManager) : LockManager :=
  mk_LockManager (lock_table_shards_ m) (<[t := x]> (txns m)).

Definition txn_of (t : Z) : M LockManager Txn := λ m, deref (txns m !! t) m.

Definition remember_lock (t : Z) (lid : LockDataId) : M LockManager unit :=
  x ← txn_of t; modify (put_txn t (mk_Txn (state_ x) ({[lid]} ∪ lock_set_ x))).

Definition lock (t : Z) (lid : LockDataId) (mode : LockMode) : M LockManager bool :=
  x ← txn_of t;
  if decide (state_ x = SHRINKING) then throw (TransactionAbortException t LOCK_ON_SHIRINKING)
  else
    m ← get;
    let q := default (mk_Queue [] NON_LOCK) (queue_of lid m) in
    let rs := request_queue_ q in
    if decide (rs = []) then
      modify (put_queue lid (Some (mk_Queue [mk_LockRequest t mode true] (group_from_lock mode))));;
      remember_lock t lid;;
      mret true
    else
      let own := list_find (owned t) rs in
      let requested := match own with None => mode | Some (_, r) => merge_lock (lock_mode_ r) mode end in
      if match own with Some (_, r) => covers (lock_mode_ r) mode | None => false end then mret true
      else if existsb (blocks t requested) rs then throw (TransactionAbortException t DEADLOCK_PREVENTION)
      else match own with
      | Some (i, r) =>
          let rs' := <[i := mk_LockRequest (txn_id_ r) requested (granted_ r)]> rs in
          modify (put_queue lid (Some (mk_Queue rs' (recompute_group rs'))));;
          mret true
      | None =>
          let rs' := rs ++ [mk_LockRequest t requested true] in
          modify (put_queue lid (Some (mk_Queue rs' (recompute_group rs'))));;
          remember_lock t lid;;
          mret true
      end.

Definition lock_shared_on_record (t : Z) (rid : Rid) (fd : Z) := lock t (record_lock fd rid) SHARED.
Definition lock_exclusive_on_record (t : Z) (rid : Rid) (fd : Z) := lock t (record_lock fd rid) EXLUCSIVE.
Definition lock_shared_on_table (t : Z) (fd : Z) := lock t (table_lock fd) SHARED.
Definition lock_exclusive_on_table (t : Z) (fd : Z) := lock t (table_lock fd) EXLUCSIVE.
Definition lock_IS_on_table (t : Z) (fd : Z) := lock t (table_lock fd) INTENTION_SHARED.
Definition lock_IX_on_table (t : Z) (fd : Z) := lock t (table_lock fd) INTENTION_EXCLUSIVE.

(** The end of [unlock]: the lock leaves the lock set and the growing phase is over. *)
Definition release (t : Z) (lid : LockDataId) : M LockManager unit :=
  x ← txn_of t;
  let s := if decide (state_ x = GROWING ∨ state_ x = DEFAULT) then SHRINKING else state_ x in
  modify (put_txn t (mk_Txn s (lock_set_ x ∖ {[lid]}))).

Definition unlock (t : Z) (lid : LockDataId) : M LockManager bool :=
  m ← get;
  match queue_of lid m with
  | None => mret false
  | Some q =>
      match request_queue_ q with
      | [r] =>
          if decide (owned t r) then
            release t lid;;
            modify (put_queue lid None);;
            mret true
          else
            release t lid;;
            mret true
      | rs =>
          let q' := match list_find (owned t) rs with
                    | Some (i, _) => let rs' := delete i rs in mk_Queue rs' (recompute_group rs')
                    | None => q
                    end in
          modify (put_queue lid (Some q'));;
          release t lid;;
          (if decide (request_queue_ q' = []) then modify (put_queue lid None) else mret tt);;
          mret true
      end
  end.
End lock_manager.
End Lm.
