(* ===== verification/LockFacts.v ===== *)
(** * Correctness of the lock manager

    The lock table stands for a map from lock and transaction to the mode held ([held]).
    [lock] and [unlock] implement the operations on that map, the locks of different
    transactions on one object are compatible in every reachable state, and a transaction
    that has released a lock gets no further one. *)

From S2P Require Import Prelude RecordFile LockManager.

Module LmFacts.
Import RecFile Lm.

(** ** Modes *)

(** The modes form a lattice with [merge_lock] as join, and a join conflicts with what one
    of its parts conflicts with. *)
Lemma merge_lock_comm a b : merge_lock a b = merge_lock b a.
Proof. by destruct a, b. Qed.
Lemma merge_lock_assoc a b c : merge_lock a (merge_lock b c) = merge_lock (merge_lock a b) c.
Proof. by destruct a, b, c. Qed.
Lemma merge_lock_idem a : merge_lock a a = a.
Proof. by destruct a. Qed.
Lemma compatible_comm a b : compatible a b = compatible b a.
Proof. by destruct a, b. Qed.
Lemma compatible_merge a b c : compatible (merge_lock a b) c = compatible a c && compatible b c.
Proof. by destruct a, b, c. Qed.
Lemma covers_merge a b : covers (merge_lock a b) b = true.
Proof. by destruct a, b. Qed.
Lemma recompute_single t m : recompute_group [mk_LockRequest t m true] = group_from_lock m.
Proof. by destruct m. Qed.

(** The mode after a request for [m]. *)
Definition upgrade (held : option LockMode) (m : LockMode) : LockMode :=
  match held with Some h => merge_lock h m | None => m end.

(** ** Queues *)

Definition held_in (rs : list LockRequest) (t : Z) : option LockMode :=
  (λ p, lock_mode_ p.2) <$> list_find (owned t) rs.

Record qwf (q : LockRequestQueue) : Prop := mk_qwf {
  qwf_ne : request_queue_ q ≠ [];
  qwf_granted : Forall (λ r, granted_ r = true) (request_queue_ q);
  qwf_nodup : NoDup (txn_id_ <$> request_queue_ q);
  qwf_compat : ∀ t1 t2 m1 m2, t1 ≠ t2 → held_in (request_queue_ q) t1 = Some m1 →
    held_in (request_queue_ q) t2 = Some m2 → compatible m1 m2 = true;
  qwf_group : group_lock_mode_ q = recompute_group (request_queue_ q)
}.

Section queues.
Implicit Types (rs : list LockRequest) (r : LockRequest).

Lemma nodup_txn rs r1 r2 :
  NoDup (txn_id_ <$> rs) → r1 ∈ rs → r2 ∈ rs → txn_id_ r1 = txn_id_ r2 → r1 = r2.
Proof.
  intros Hnd [i Hi]%list_elem_of_lookup [j Hj]%list_elem_of_lookup E.
  assert (i = j) as ->; [|congruence].
  eapply (NoDup_lookup _ i j (txn_id_ r1) Hnd); rewrite list_lookup_fmap; [by rewrite Hi|].
  by rewrite Hj, E.
Qed.

Lemma held_in_elem rs t m :
  Forall (λ r, granted_ r = true) rs → NoDup (txn_id_ <$> rs) →
  held_in rs t = Some m ↔ mk_LockRequest t m true ∈ rs.
Proof.
  intros Hg Hnd. unfold held_in. rewrite fmap_Some. split.
  - intros ([i [t' m' g']] & (Hi & [Ht Hgr] & _)%list_find_Some & ->). simpl in *. subst.
    by eapply list_elem_of_lookup_2.
  - intros Hin. destruct (list_find_elem_of (owned t) rs _ Hin) as [[i r] Hr]; [done|].
    exists (i, r). split; [done|]. apply list_find_Some in Hr as (Hi & [Ht _] & _).
    assert (mk_LockRequest t m true = r) as <-; [|done].
    apply (nodup_txn rs); try done. by eapply list_elem_of_lookup_2.
Qed.

(** The request that [list_find] returns, with what is before and after it. *)
Lemma find_split t rs i r :
  list_find (owned t) rs = Some (i, r) →
  ∃ l1 l2, rs = l1 ++ r :: l2 ∧ i = length l1 ∧ r = mk_LockRequest t (lock_mode_ r) true.
Proof.
  intros (Hi & [Ht Hg] & _)%list_find_Some.
  exists (take i rs), (drop (S i) rs). split_and!.
  - symmetry. by apply take_drop_middle.
  - rewrite length_take. apply lookup_lt_Some in Hi. lia.
  - destruct r. simpl in *. by subst.
Qed.

Lemma find_none t rs : list_find (owned t) rs = None → Forall (λ r, granted_ r = true) rs → t ∉ txn_id_ <$> rs.
Proof.
  rewrite list_find_None. intros Hn Hg (r & -> & Hr)%list_elem_of_fmap.
  eapply Forall_forall in Hn; [|done]. eapply Forall_forall in Hg; [|done]. by apply Hn.
Qed.

Lemma held_in_find t rs : held_in rs t = (λ p, lock_mode_ p.2) <$> list_find (owned t) rs.
Proof. done. Qed.

(** Two queues with the same requests hold the same locks. *)
Lemma held_in_ext rs rs' t f :
  Forall (λ r, granted_ r = true) rs' → NoDup (txn_id_ <$> rs') →
  (∀ m, mk_LockRequest t m true ∈ rs' ↔ f = Some m) → held_in rs' t = f.
Proof. intros Hg Hnd H. apply option_eq. intros m. by rewrite held_in_elem, H. Qed.

(** [rs'] is [rs] with the lock of [t] set to [m] or, for [None], taken away. *)
Record replaced (rs rs' : list LockRequest) (t : Z) (m : option LockMode) : Prop := mk_replaced {
  rp_granted : Forall (λ r, granted_ r = true) rs';
  rp_nodup : NoDup (txn_id_ <$> rs');
  rp_held : ∀ t', held_in rs' t' = if decide (t' = t) then m else held_in rs t'
}.

Lemma replaced_append rs t m :
  Forall (λ r, granted_ r = true) rs → NoDup (txn_id_ <$> rs) → list_find (owned t) rs = None →
  replaced rs (rs ++ [mk_LockRequest t m true]) t (Some m).
Proof.
  intros Hg Hnd Hf. pose proof (find_none t rs Hf Hg) as Hnew.
  assert (Forall (λ r, granted_ r = true) (rs ++ [mk_LockRequest t m true])) as Hg'.
  { apply Forall_app. split; [done|]. by repeat constructor. }
  assert (NoDup (txn_id_ <$> rs ++ [mk_LockRequest t m true])) as Hnd'.
  { rewrite fmap_app. apply NoDup_app. split_and!; [done|set_solver|apply NoDup_singleton]. }
  split; [done..|]. intros t'. apply (held_in_ext rs); [done..|]. intros m'.
  rewrite elem_of_app, list_elem_of_singleton. destruct (decide (t' = t)) as [->|Hne].
  - split; [|naive_solver]. intros [Hin|Hin]; [|naive_solver].
    destruct Hnew. apply list_elem_of_fmap. by exists (mk_LockRequest t m' true).
  - rewrite held_in_elem by done. naive_solver.
Qed.

Lemma txn_once l1 l2 t m0 :
  NoDup (txn_id_ <$> l1 ++ mk_LockRequest t m0 true :: l2) → t ∉ (txn_id_ <$> l1) ∧ t ∉ (txn_id_ <$> l2).
Proof.
  rewrite fmap_app. simpl. intros (_ & Ha & [Hb _]%NoDup_cons)%NoDup_app. split; [|done].
  intros Hin. specialize (Ha t Hin). set_solver.
Qed.

Lemma replaced_change l1 l2 t m0 m :
  let rs := l1 ++ mk_LockRequest t m0 true :: l2 in
  Forall (λ r, granted_ r = true) rs → NoDup (txn_id_ <$> rs) →
  replaced rs (l1 ++ mk_LockRequest t m true :: l2) t (Some m).
Proof.
  intros rs Hg Hnd.
  assert (Forall (λ r, granted_ r = true) (l1 ++ mk_LockRequest t m true :: l2)) as Hg'.
  { apply Forall_app in Hg as [H1 H2]. apply Forall_app. split; [done|]. inversion H2. by constructor. }
  destruct (txn_once l1 l2 t m0 Hnd) as [H1 H2].
  assert (NoDup (txn_id_ <$> l1 ++ mk_LockRequest t m true :: l2)) as Hnd'.
  { unfold rs in Hnd. by rewrite fmap_app in *. }
  split; [done..|]. intros t'. apply (held_in_ext rs); [done..|]. intros m'.
  rewrite elem_of_app, elem_of_cons. destruct (decide (t' = t)) as [->|Hne].
  - split; [|naive_solver]. intros [Hin|[Hin|Hin]]; [|naive_solver|];
      [destruct H1|destruct H2]; apply list_elem_of_fmap; by exists (mk_LockRequest t m' true).
  - rewrite held_in_elem by done. unfold rs. rewrite elem_of_app, elem_of_cons. naive_solver.
Qed.

Lemma replaced_delete l1 l2 t m0 :
  let rs := l1 ++ mk_LockRequest t m0 true :: l2 in
  Forall (λ r, granted_ r = true) rs → NoDup (txn_id_ <$> rs) → replaced rs (l1 ++ l2) t None.
Proof.
  intros rs Hg Hnd.
  assert (Forall (λ r, granted_ r = true) (l1 ++ l2)) as Hg'.
  { apply Forall_app in Hg as [H1 H2]. apply Forall_app. split; [done|]. by inversion H2. }
  destruct (txn_once l1 l2 t m0 Hnd) as [H1 H2].
  assert (NoDup (txn_id_ <$> l1 ++ l2)) as Hnd'.
  { unfold rs in Hnd. rewrite fmap_app in *. simpl in Hnd. apply NoDup_app in Hnd as (Ha & Hb & [_ Hc]%NoDup_cons).
    apply NoDup_app. split_and!; [done| |done]. intros x Hx. specialize (Hb x Hx). set_solver. }
  split; [done..|]. intros t'. apply (held_in_ext rs); [done..|]. intros m'.
  rewrite elem_of_app. destruct (decide (t' = t)) as [->|Hne].
  - split; [|naive_solver]. intros [Hin|Hin];
      [destruct H1|destruct H2]; apply list_elem_of_fmap; by exists (mk_LockRequest t m' true).
  - rewrite held_in_elem by done. unfold rs. rewrite elem_of_app, elem_of_cons. naive_solver.
Qed.

(** A queue stays well-formed when the new mode is compatible with the other locks. *)
Lemma replaced_qwf rs rs' t m :
  replaced rs rs' t m → rs' ≠ [] →
  (∀ t1 t2 m1 m2, t1 ≠ t2 → held_in rs t1 = Some m1 → held_in rs t2 = Some m2 → compatible m1 m2 = true) →
  (∀ t' m1 m2, m = Some m1 → t' ≠ t → held_in rs t' = Some m2 → compatible m1 m2 = true) →
  qwf (mk_Queue rs' (recompute_group rs')).
Proof.
  intros [Hg Hnd Hh] Hne Hc Hnew. split; simpl; try done.
  intros t1 t2 m1 m2 H12. rewrite !Hh.
  destruct (decide (t1 = t)) as [->|N1], (decide (t2 = t)) as [->|N2]; [done|eauto| |eauto].
  intros H1 H2. rewrite compatible_comm. eauto.
Qed.

(** No request of the queue stands in the way of mode [m]. *)
Lemma not_blocked rs t m :
  Forall (λ r, granted_ r = true) rs → NoDup (txn_id_ <$> rs) →
  existsb (blocks t m) rs = false →
  ∀ t' m', t' ≠ t → held_in rs t' = Some m' → compatible m m' = true.
Proof.
  intros Hg Hnd Hb t' m' Hne Hh. apply held_in_elem in Hh; [|done..].
  destruct (compatible m m') eqn:E; [done|]. exfalso.
  assert (existsb (blocks t m) rs = true) as Ht; [|congruence].
  apply existsb_exists. exists (mk_LockRequest t' m' true). split; [by apply list_elem_of_In|].
  unfold blocks. simpl. rewrite E. by rewrite bool_decide_true.
Qed.

Lemma blocked rs t m :
  Forall (λ r, granted_ r = true) rs → NoDup (txn_id_ <$> rs) →
  existsb (blocks t m) rs = true →
  ∃ t' m', t' ≠ t ∧ held_in rs t' = Some m' ∧ compatible m m' = false.
Proof.
  intros Hg Hnd ([t' m' g] & Hin%list_elem_of_In & Hb)%existsb_exists. unfold blocks in Hb. simpl in Hb.
  destruct g; [|done]. simpl in Hb. destruct (bool_decide (t' ≠ t)) eqn:E; [|done].
  apply bool_decide_eq_true in E. exists t', m'. split; [done|]. split; [by apply held_in_elem|].
  by destruct (compatible m m').
Qed.
End queues.

(** ** The lock table *)

Section manager.
Context (std_hash : Z → Z).
Implicit Types (m : LockManager) (t : Z) (lid : LockDataId).

Abbreviation queue_of := (queue_of std_hash).
Abbreviation lock := (lock std_hash).
Abbreviation unlock := (unlock std_hash).
Abbreviation put_queue := (put_queue std_hash).

(** The mode in which [t] holds [lid]. *)
Definition held m lid t : option LockMode := queue_of lid m ≫= λ q, held_in (request_queue_ q) t.
Definition state_of m t : option TransactionState := state_ <$> txns m !! t.
Definition lock_set m t : gset LockDataId := default ∅ (lock_set_ <$> txns m !! t).

Record linv m : Prop := mk_linv {
  linv_queue : ∀ lid q, queue_of lid m = Some q → qwf q;
  linv_set : ∀ lid t, lid ∈ lock_set m t ↔ is_Some (held m lid t)
}.

Lemma queue_of_put lid lid' q m :
  queue_of lid' (put_queue lid q m) = if decide (lid' = lid) then q else queue_of lid' m.
Proof.
  unfold Lm.queue_of, Lm.put_queue, shard_table. simpl.
  destruct (decide (get_shard std_hash lid' = get_shard std_hash lid)) as [E|Hne].
  - rewrite E, lookup_insert_eq. simpl. destruct (decide (lid' = lid)) as [->|Hn].
    + by rewrite lookup_partial_alter_eq.
    + by rewrite lookup_partial_alter_ne.
  - rewrite lookup_insert_ne by done. by rewrite decide_False by congruence.
Qed.

Lemma held_put lid lid' t q m :
  held (put_queue lid q m) lid' t =
    if decide (lid' = lid) then q ≫= (λ q, held_in (request_queue_ q) t) else held m lid' t.
Proof. unfold held. rewrite queue_of_put. by destruct (decide (lid' = lid)). Qed.

Lemma lock_set_put_txn t t' x m : lock_set (put_txn t x m) t' = if decide (t' = t) then lock_set_ x else lock_set m t'.
Proof.
  unfold lock_set, put_txn. simpl. destruct (decide (t' = t)) as [->|Hne].
  - by rewrite lookup_insert_eq.
  - by rewrite lookup_insert_ne.
Qed.

Lemma state_of_put_txn t t' x m : state_of (put_txn t x m) t' = if decide (t' = t) then Some (state_ x) else state_of m t'.
Proof.
  unfold state_of, put_txn. simpl. destruct (decide (t' = t)) as [->|Hne].
  - by rewrite lookup_insert_eq.
  - by rewrite lookup_insert_ne.
Qed.

(** The abstract table after the lock of [t] on [lid] became [mo]. *)
Definition held_update m m' lid t (mo : option LockMode) : Prop :=
  ∀ lid' t', held m' lid' t' = if decide (lid' = lid ∧ t' = t) then mo else held m lid' t'.

(** A queue of [lid] replaced, and the lock set of [t] with it. *)
Lemma linv_replace m m' lid t (mo : option LockMode) (q' : option LockRequestQueue) :
  linv m →
  (∀ lid', queue_of lid' m' = if decide (lid' = lid) then q' else queue_of lid' m) →
  (∀ t', lock_set m' t' = if decide (t' = t)
     then (if mo then {[lid]} ∪ lock_set m t else lock_set m t ∖ {[lid]}) else lock_set m t') →
  (∀ q, q' = Some q → qwf q) →
  (∀ t', (q' ≫= λ q, held_in (request_queue_ q) t') = if decide (t' = t) then mo else held m lid t') →
  linv m' ∧ held_update m m' lid t mo.
Proof.
  intros [Hq Hs] Hq' Hs' Hwf Hh.
  assert (held_update m m' lid t mo) as Hup.
  { intros lid' t'. unfold held at 1. rewrite Hq'. destruct (decide (lid' = lid)) as [->|Hne].
    - rewrite Hh. destruct (decide (t' = t)) as [->|]; [by rewrite decide_True|].
      by rewrite decide_False by naive_solver.
    - by rewrite decide_False by naive_solver. }
  split; [|done]. split.
  - intros lid' q. rewrite Hq'. destruct (decide (lid' = lid)); [apply Hwf|apply Hq].
  - intros lid' t'. rewrite Hs', (Hup lid' t'). specialize (Hs lid').
    destruct (decide (t' = t)) as [->|Hne].
    + destruct (decide (lid' = lid)) as [->|Hn].
      * rewrite decide_True by done. destruct mo; [|set_solver by naive_solver].
        split; [by eauto|set_solver].
      * rewrite decide_False by naive_solver. rewrite <- Hs. destruct mo; set_solver.
    + rewrite decide_False by naive_solver. apply Hs.
Qed.

Lemma remember_lock_ok t x lid m :
  txns m !! t = Some x →
  remember_lock t lid m = (Ok tt, put_txn t (mk_Txn (state_ x) ({[lid]} ∪ lock_set_ x)) m).
Proof. intros Hx. unfold remember_lock, txn_of, mbind, M_bind, deref. by rewrite Hx. Qed.

Lemma queue_of_put_txn lid t x m : queue_of lid (put_txn t x m) = queue_of lid m.
Proof. done. Qed.

(** What [lock] promises: the request is granted, or refused because the transaction is
    shrinking or because of a conflicting lock of another one. *)
Definition lock_outcome m t lid mode (r : res bool * LockManager) : Prop :=
  let mo := upgrade (held m lid t) mode in
  match r with
  | (Ok b, m') =>
      b = true ∧ state_of m t ≠ Some SHRINKING ∧
      (∀ t' c2, t' ≠ t → held m lid t' = Some c2 → compatible mo c2 = true) ∧
      linv m' ∧ held_update m m' lid t (Some mo) ∧ ∀ t', state_of m' t' = state_of m t'
  | (Err e, m') =>
      m' = m ∧
      (state_of m t = Some SHRINKING ∧ e = TransactionAbortException t LOCK_ON_SHIRINKING ∨
       e = TransactionAbortException t DEADLOCK_PREVENTION ∧
       ∃ t' c2, t' ≠ t ∧ held m lid t' = Some c2 ∧ compatible mo c2 = false)
  end.

Lemma held_queue m lid q t : queue_of lid m = Some q → held m lid t = held_in (request_queue_ q) t.
Proof. unfold held. by intros ->. Qed.

Lemma lock_set_some m t x : txns m !! t = Some x → lock_set m t = lock_set_ x.
Proof. unfold lock_set. by intros ->. Qed.

Lemma state_of_some m t x : txns m !! t = Some x → state_of m t = Some (state_ x).
Proof. unfold state_of. by intros ->. Qed.

(** A request whose queue [q] of [lid] the code has looked up, of a transaction that is not
    shrinking. *)
Section request.
Context m t x lid (mode : LockMode) (Hinv : linv m) (Hx : txns m !! t = Some x) (Hs : state_of m t ≠ Some SHRINKING).
Context rs (Hheld : ∀ t', held_in rs t' = held m lid t').
Context (Hpair : ∀ t1 t2 c1 c2, t1 ≠ t2 → held_in rs t1 = Some c1 → held_in rs t2 = Some c2 → compatible c1 c2 = true).
Context (Hg : Forall (λ r, granted_ r = true) rs) (Hnd : NoDup (txn_id_ <$> rs)).

Let mo := upgrade (held m lid t) mode.

Lemma granted_outcome rs' :
  replaced rs rs' t (Some mo) → rs' ≠ [] → existsb (blocks t mo) rs = false →
  lock_outcome m t lid mode
    (Ok true, put_txn t (mk_Txn (state_ x) ({[lid]} ∪ lock_set_ x))
                (put_queue lid (Some (mk_Queue rs' (recompute_group rs'))) m)).
Proof.
  intros Hrep Hne Hb. set (m2 := put_txn _ _ _).
  assert (∀ t' c2, t' ≠ t → held m lid t' = Some c2 → compatible mo c2 = true) as Hc.
  { intros t' c2 Hn. rewrite <- Hheld. by apply (not_blocked rs t). }
  destruct (linv_replace m m2 lid t (Some mo) (Some (mk_Queue rs' (recompute_group rs')))) as [H1 H2]; try done.
  - intros lid'. unfold m2. rewrite queue_of_put_txn. apply queue_of_put.
  - intros t'. unfold m2. rewrite lock_set_put_txn, (lock_set_some m t x Hx). done.
  - intros q [= <-]. eapply replaced_qwf; try done. intros t' c1 c2 [= <-] Hn Hc2. rewrite Hheld in Hc2. eauto.
  - intros t'. simpl. rewrite (rp_held _ _ _ _ Hrep). by rewrite Hheld.
  - unfold lock_outcome. split_and!; try done. intros t'. unfold m2. rewrite state_of_put_txn.
    destruct (decide (t' = t)) as [->|]; [|done]. by rewrite (state_of_some m t x Hx).
Qed.

Lemma blocked_outcome :
  existsb (blocks t mo) rs = true →
  lock_outcome m t lid mode (Err (TransactionAbortException t DEADLOCK_PREVENTION), m).
Proof.
  intros Hb. split; [done|]. right. split; [done|].
  destruct (blocked rs t mo Hg Hnd Hb) as (t' & c2 & H1 & H2 & H3). rewrite Hheld in H2. eauto.
Qed.

Lemma covered_outcome c :
  held m lid t = Some c → covers c mode = true → lock_outcome m t lid mode (Ok true, m).
Proof.
  intros Hc Hcov. apply bool_decide_eq_true in Hcov.
  assert (upgrade (held m lid t) mode = c) as Eup by (by rewrite Hc).
  unfold lock_outcome. rewrite Eup. split_and!; try done.
  - intros t' c2 Hn Hc2. rewrite <- Hheld in Hc, Hc2. by eapply (Hpair t t').
  - intros lid' t'. destruct (decide (lid' = lid ∧ t' = t)) as [[-> ->]|]; done.
Qed.
End request.

(** Recording a lock that is in the lock set already changes nothing. *)
Lemma put_txn_same m t x lid :
  txns m !! t = Some x → lid ∈ lock_set_ x → put_txn t (mk_Txn (state_ x) ({[lid]} ∪ lock_set_ x)) m = m.
Proof.
  intros Hx Hin. unfold put_txn. destruct m as [tb tx]; simpl in *. f_equal. apply insert_id.
  rewrite Hx. destruct x as [s0 l0]; simpl in *. do 2 f_equal. set_solver.
Qed.

Lemma linv_held_set m t x lid : linv m → txns m !! t = Some x → is_Some (held m lid t) → lid ∈ lock_set_ x.
Proof. intros [_ Hs] Hx Hh. apply Hs in Hh. by rewrite (lock_set_some m t x Hx) in Hh. Qed.

Lemma lock_ok m t x lid mode :
  linv m → txns m !! t = Some x → lock_outcome m t lid mode (lock t lid mode m).
Proof.
  intros Hinv Hx. unfold Lm.lock, txn_of. unfold mbind at 1, M_bind at 1. unfold deref. rewrite Hx. simpl.
  pose proof (state_of_some m t x Hx) as Hst. destruct (decide (state_ x = SHRINKING)) as [Es|Es].
  { split; [done|]. left. by rewrite Hst, Es. }
  unfold mbind at 1, M_bind at 1, get.
  assert (state_of m t ≠ Some SHRINKING) as Hns by (rewrite Hst; congruence).
  destruct (queue_of lid m) as [q|] eqn:Eq; simpl.
  2:{ assert (∀ t', held m lid t' = None) as Hnone by (intros t'; unfold held; by rewrite Eq).
      unfold mbind, M_bind. simpl. rewrite (remember_lock_ok t x) by done. simpl. rewrite <- (recompute_single t).
      apply (granted_outcome m t x lid mode Hinv Hx Hns []); try done; [by constructor..|]. rewrite Hnone.
      apply (replaced_append []); [by constructor|by constructor|done]. }
  destruct (linv_queue m Hinv lid q Eq) as [Q1 Q2 Q3 Q4 Q5]. rewrite decide_False by done.
  set (rs := request_queue_ q) in *.
  assert (∀ t', held_in rs t' = held m lid t') as Hheld by (intros t'; by rewrite (held_queue m lid q t' Eq)).
  assert (held m lid t = (λ p, lock_mode_ p.2) <$> list_find (owned t) rs) as Hown by (by rewrite <- Hheld).
  destruct (list_find (owned t) rs) as [[i r]|] eqn:Ef; simpl in Hown.
  - destruct (covers (lock_mode_ r) mode) eqn:Ec; [by eapply covered_outcome|].
    assert (merge_lock (lock_mode_ r) mode = upgrade (held m lid t) mode) as -> by (by rewrite Hown).
    destruct (existsb _ rs) eqn:Eb; [by eapply blocked_outcome|].
    destruct (find_split t rs i r Ef) as (l1 & l2 & Hrs & -> & Hr). rewrite Hr. simpl.
    rewrite Hrs, insert_app_r_alt, Nat.sub_diag by lia. simpl.
    unfold mbind, M_bind, modify. simpl. rewrite <- (put_txn_same (put_queue _ _ m) t x lid); [|done|].
    + apply (granted_outcome m t x lid mode Hinv Hx Hns rs); try done; [|by destruct l1].
      rewrite Hrs, Hr in Q2, Q3 |- *. by apply replaced_change.
    + eapply linv_held_set; [done..|]. by rewrite Hown.
  - destruct (existsb _ rs) eqn:Eb.
    + eapply blocked_outcome; try done. by rewrite Hown.
    + unfold mbind, M_bind. simpl. rewrite (remember_lock_ok t x) by done. simpl.
      apply (granted_outcome m t x lid mode Hinv Hx Hns rs); try done; [|by destruct rs|by rewrite Hown].
      rewrite Hown. by apply replaced_append.
Qed.

(** The state of a transaction after it released a lock. *)
Definition shrunk (s : TransactionState) : TransactionState :=
  if decide (s = GROWING ∨ s = DEFAULT) then SHRINKING else s.

Lemma release_ok t x lid m :
  txns m !! t = Some x →
  release t lid m = (Ok tt, put_txn t (mk_Txn (shrunk (state_ x)) (lock_set_ x ∖ {[lid]})) m).
Proof. intros Hx. unfold release, txn_of, mbind, M_bind, deref. by rewrite Hx. Qed.

Definition unlock_outcome m t lid (r : res bool * LockManager) : Prop :=
  match queue_of lid m with
  | None => r = (Ok false, m)
  | Some _ =>
      r.1 = Ok true ∧ linv r.2 ∧ held_update m r.2 lid t None ∧
      ∀ t', state_of r.2 t' = if decide (t' = t) then shrunk <$> state_of m t else state_of m t'
  end.

(** The queue of [lid] without the lock of [t], and [t] past its growing phase. *)
Lemma released_outcome m t x lid q q' m' :
  linv m → txns m !! t = Some x → queue_of lid m = Some q →
  (∀ lid', queue_of lid' m' = if decide (lid' = lid) then q' else queue_of lid' m) →
  txns m' = <[t := mk_Txn (shrunk (state_ x)) (lock_set_ x ∖ {[lid]})]> (txns m) →
  (∀ q0, q' = Some q0 → qwf q0) →
  (∀ t', (q' ≫= λ q, held_in (request_queue_ q) t') =
     if decide (t' = t) then None else held_in (request_queue_ q) t') →
  unlock_outcome m t lid (Ok true, m').
Proof.
  intros Hinv Hx Eq Hq Ht Hwf Hh.
  set (xx := mk_Txn (shrunk (state_ x)) (lock_set_ x ∖ {[lid]})) in *.
  destruct (linv_replace m m' lid t None q') as [H1 H2]; try done.
  - intros t'. rewrite (lock_set_some m t x Hx).
    assert (lock_set m' t' = lock_set (put_txn t xx m) t') as -> by (unfold lock_set; by rewrite Ht).
    by rewrite lock_set_put_txn.
  - intros t'. rewrite Hh. by rewrite (held_queue m lid q t' Eq).
  - unfold unlock_outcome. rewrite Eq. split_and!; try done. simpl. intros t'.
    assert (state_of m' t' = state_of (put_txn t xx m) t') as -> by (unfold state_of; by rewrite Ht).
    rewrite state_of_put_txn. by rewrite (state_of_some m t x Hx).
Qed.

Lemma unlock_ok m t x lid :
  linv m → txns m !! t = Some x → unlock_outcome m t lid (unlock t lid m).
Proof.
  intros Hinv Hx. unfold Lm.unlock. unfold mbind at 1, M_bind at 1, get.
  destruct (queue_of lid m) as [q|] eqn:Eq; [|unfold unlock_outcome; by rewrite Eq].
  destruct (linv_queue m Hinv lid q Eq) as [Q1 Q2 Q3 Q4 Q5].
  assert (∀ rs', replaced (request_queue_ q) rs' t None → rs' ≠ [] → qwf (mk_Queue rs' (recompute_group rs'))) as Hwf.
  { intros rs' Hrep Hne. by eapply replaced_qwf. }
  assert (list_find (owned t) (request_queue_ q) = None →
    ∀ t', held_in (request_queue_ q) t' = if decide (t' = t) then None else held_in (request_queue_ q) t') as Hnone.
  { intros Hf t'. destruct (decide (t' = t)) as [->|]; [|done]. unfold held_in. by rewrite Hf. }
  assert (∀ m1, txns m1 = txns m → release t lid m1 =
    (Ok tt, put_txn t (mk_Txn (shrunk (state_ x)) (lock_set_ x ∖ {[lid]})) m1)) as Hrel.
  { intros m1 E. apply release_ok. by rewrite E. }
  destruct (request_queue_ q) as [|r [|r2 rs]] eqn:Ers; [done| |].
  - destruct (decide (owned t r)) as [[Ht Hgr]|Ho]; unfold mbind, M_bind; rewrite Hrel by done; simpl.
    + eapply (released_outcome m t x lid q None); try done; [intros lid'; by rewrite queue_of_put|].
      intros t'. simpl. rewrite Ers. unfold held_in. simpl. destruct (decide (t' = t)) as [->|Hn]; [done|].
      rewrite decide_False; [done|]. unfold owned. naive_solver.
    + eapply (released_outcome m t x lid q (Some q)); try done.
      * intros lid'. rewrite queue_of_put_txn. by destruct (decide (lid' = lid)) as [->|].
      * intros q0 [= <-]. by eapply linv_queue.
      * intros t'. simpl. rewrite Ers. apply Hnone. simpl. by rewrite decide_False.
  - rewrite <- Ers in *. unfold mbind, M_bind, modify.
    destruct (list_find (owned t) (request_queue_ q)) as [[i r0]|] eqn:Ef.
    + destruct (find_split t _ i r0 Ef) as (l1 & l2 & Hrs & -> & Hr0).
      assert (delete (length l1) (request_queue_ q) = l1 ++ l2) as Hdel by (rewrite Hrs; apply delete_middle).
      assert (l1 ++ l2 ≠ []) as Hne.
      { intros E. apply (f_equal length) in Hrs, Ers, E. rewrite length_app in *. simpl in *. lia. }
      assert (replaced (request_queue_ q) (l1 ++ l2) t None) as Hrep.
      { rewrite Hrs, Hr0 in Q2, Q3 |- *. by eapply replaced_delete. }
      rewrite Hdel, Hrel by done. simpl. rewrite decide_False by done. simpl.
      eapply (released_outcome m t x lid q (Some (mk_Queue (l1 ++ l2) (recompute_group (l1 ++ l2))))); try done.
      * intros lid'. by rewrite queue_of_put_txn, queue_of_put.
      * intros q0 [= <-]. by apply Hwf.
      * intros t'. apply Hrep.
    + rewrite Hrel by done. simpl. rewrite decide_False by done. simpl.
      eapply (released_outcome m t x lid q (Some q)); try done.
      * intros lid'. by rewrite queue_of_put_txn, queue_of_put.
      * intros q0 [= <-]. by eapply linv_queue.
      * intros t'. by apply Hnone.
Qed.

(** ** Runs *)

Inductive lop := OLock t lid (mode : LockMode) | OUnlock t lid.

Definition lop_txn (o : lop) : Z := match o with OLock t _ _ => t | OUnlock t _ => t end.

Definition exec_lop (o : lop) m : LockManager :=
  match o with OLock t lid mode => (lock t lid mode m).2 | OUnlock t lid => (unlock t lid m).2 end.
Definition exec_lops (os : list lop) m : LockManager := foldl (λ m o, exec_lop o m) m os.

(** What one call can change: the locks of its transaction, upwards if it is not shrinking. *)
Lemma exec_lop_ok o m :
  linv m → is_Some (txns m !! lop_txn o) →
  linv (exec_lop o m) ∧ (∀ t, is_Some (state_of m t) → is_Some (state_of (exec_lop o m) t)) ∧
  (∀ lid t, t ≠ lop_txn o → held (exec_lop o m) lid t = held m lid t ∧ state_of (exec_lop o m) t = state_of m t) ∧
  (∀ t, state_of m t = Some SHRINKING → state_of (exec_lop o m) t = Some SHRINKING ∧
     ∀ lid c, held (exec_lop o m) lid t = Some c → held m lid t = Some c).
Proof.
  intros Hinv [x Hx]. destruct o as [t lid mode|t lid]; simpl in *.
  - pose proof (lock_ok m t x lid mode Hinv Hx) as H. destruct (lock t lid mode m) as [[b|e] m']; simpl in *.
    + destruct H as (-> & Hns & _ & Hinv' & Hup & Hst). split_and!; try done; [intros t'; by rewrite Hst|..].
      * intros lid' t' Hne. rewrite (Hup lid' t'), decide_False by naive_solver. auto.
      * intros t' Hs. rewrite Hst. split; [done|]. intros lid' c. rewrite (Hup lid' t').
        rewrite decide_False; [done|]. naive_solver.
    + destruct H as [-> _]. split_and!; auto.
  - pose proof (unlock_ok m t x lid Hinv Hx) as H. unfold unlock_outcome in H.
    destruct (queue_of lid m); [|rewrite H; split_and!; auto].
    destruct (unlock t lid m) as [r m']. simpl in *. destruct H as (-> & Hinv' & Hup & Hst). split_and!; try done.
    + intros t' [s Hs]. rewrite Hst. destruct (decide (t' = t)) as [->|]; rewrite Hs; eauto.
    + intros lid' t' Hne. rewrite (Hup lid' t'), Hst, !decide_False by naive_solver. auto.
    + intros t' Hs. rewrite Hst. split.
      * destruct (decide (t' = t)) as [->|]; [|done]. by rewrite Hs.
      * intros lid' c. rewrite (Hup lid' t'). by destruct (decide _).
Qed.

(** The transactions that make calls are known to the transaction manager. *)
Definition known (os : list lop) m : Prop := Forall (λ o, is_Some (txns m !! lop_txn o)) os.

Lemma is_Some_state m t : is_Some (state_of m t) ↔ is_Some (txns m !! t).
Proof. unfold state_of. apply fmap_is_Some. Qed.

Lemma exec_lops_ok os m :
  linv m → known os m →
  linv (exec_lops os m) ∧
  (∀ t, state_of m t = Some SHRINKING → state_of (exec_lops os m) t = Some SHRINKING ∧
     ∀ lid c, held (exec_lops os m) lid t = Some c → held m lid t = Some c).
Proof.
  revert m. induction os as [|o os IH]; intros m Hinv Hk; [auto|].
  apply Forall_cons in Hk as [Ho Hk]. destruct (exec_lop_ok o m Hinv Ho) as (H1 & H2 & _ & H4).
  destruct (IH (exec_lop o m) H1) as [I1 I2].
  { eapply Forall_impl; [exact Hk|]. intros o'. rewrite <- !is_Some_state. apply H2. }
  split; [done|]. intros t Hs. destruct (H4 t Hs) as [S1 S2]. destruct (I2 t S1) as [S3 S4]. eauto.
Qed.

Definition no_locks m : Prop := lock_table_shards_ m = ∅ ∧ ∀ t x, txns m !! t = Some x → lock_set_ x = ∅.

Lemma no_locks_linv m : no_locks m → linv m.
Proof.
  intros [E Hs].
  assert (∀ lid, queue_of lid m = None) as Hq.
  { intros lid. unfold Lm.queue_of, shard_table. by rewrite E, lookup_empty. }
  split; [intros lid q; by rewrite Hq|]. intros lid t. unfold held. rewrite Hq. unfold lock_set.
  destruct (txns m !! t) as [x|] eqn:Ex; simpl; [rewrite (Hs t x Ex)|]; split; try set_solver; by intros [].
Qed.
End manager.

(** ** Claims *)

(** C4: [lock] and [unlock] implement the abstract lock table.  A request is granted exactly
    when the transaction is not shrinking and the join of the mode it has and the mode it
    asks for is compatible with the locks of all others; then it holds the join and nothing
    else changes.  Otherwise it throws and changes nothing.  [unlock] takes the lock of the
    transaction away, leaves the others, and ends its growing phase. *)
Theorem lock_table_refines std_hash m t x lid mode :
  linv std_hash m → txns m !! t = Some x →
  lock_outcome std_hash m t lid mode (lock std_hash t lid mode m) ∧
  unlock_outcome std_hash m t lid (unlock std_hash t lid m).
Proof. intros Hinv Hx. split; [by eapply lock_ok|by eapply unlock_ok]. Qed.


(** C29: two phases.  Once a transaction has released a lock it is shrinking, and whatever
    calls follow, of this and of other transactions, it holds no lock afterwards that it
    did not hold before, in the same mode. *)
Theorem two_phase_locking std_hash m os t lid x :
  linv std_hash m → known os m → txns m !! t = Some x → state_ x = GROWING ∨ state_ x = DEFAULT →
  is_Some (held std_hash m lid t) →
  let m1 := (unlock std_hash t lid m).2 in
  state_of m1 t = Some SHRINKING ∧ held std_hash m1 lid t = None ∧
  ∀ lid' c, held std_hash (exec_lops std_hash os m1) lid' t = Some c → held std_hash m lid' t = Some c.
Proof.
  intros Hinv Hk Hx Hs [c Hc] m1. pose proof (unlock_ok std_hash m t x lid Hinv Hx) as H.
  assert (is_Some (queue_of std_hash lid m)) as [q Eq] by (unfold held in Hc; by destruct (queue_of std_hash lid m)).
  unfold unlock_outcome in H. rewrite Eq in H. destruct H as (_ & Hinv1 & Hup & Hst). fold m1 in Hinv1, Hup, Hst.
  assert (state_of m1 t = Some SHRINKING) as Hsh.
  { rewrite Hst, decide_True by done. rewrite (state_of_some m t x Hx). simpl. unfold shrunk. by rewrite decide_True. }
  assert (known os m1) as Hk1.
  { eapply Forall_impl; [exact Hk|]. intros o. rewrite <- !is_Some_state, Hst.
    destruct (decide (lop_txn o = t)) as [->|]; [|done]. by rewrite fmap_is_Some. }
  destruct (exec_lops_ok std_hash os m1 Hinv1 Hk1) as [_ H2].
  split_and!; [done|by rewrite (Hup lid t), decide_True|]. intros lid' c' Hc'.
  apply (proj2 (H2 t Hsh)) in Hc'. rewrite (Hup lid' t) in Hc'. by destruct (decide _).
Qed.

(** *** Witnesses: two transactions on one table *)

Definition lm0 : LockManager := mk_LockManager ∅ {[1 := mk_Txn DEFAULT ∅; 2 := mk_Txn GROWING ∅]}.

Lemma no_locks0 : no_locks lm0.
Proof.
  split; [done|]. intros t x. unfold lm0. simpl. rewrite lookup_insert_Some, lookup_singleton_Some. naive_solver.
Defined.

(** IX and IS are granted on table 3, and an S request of the first transaction upgrades it
    to SIX, which IS allows and an IX request of the second does not. *)
Definition ops0 : list lop :=
  [OLock 1 (table_lock 3) INTENTION_EXCLUSIVE; OLock 2 (table_lock 3) INTENTION_SHARED;
   OLock 1 (table_lock 3) SHARED; OLock 2 (table_lock 3) INTENTION_EXCLUSIVE].

Lemma known0 : known ops0 lm0.
Proof. repeat constructor; vm_compute; eauto. Defined.


Lemma lock_table_refines_witness :
  lock_outcome id lm0 1 (table_lock 3) SHARED (lock id 1 (table_lock 3) SHARED lm0) ∧
  unlock_outcome id lm0 1 (table_lock 3) (unlock id 1 (table_lock 3) lm0).
Proof.
  apply (lock_table_refines id lm0 1 (mk_Txn DEFAULT ∅)); [apply no_locks_linv, no_locks0|vm_compute; reflexivity].
Defined.

Definition lm1 : LockManager := exec_lops id ops0 lm0.

Lemma two_phase_locking_witness :
  let m1 := (unlock id 1 (table_lock 3) lm1).2 in
  state_of m1 1 = Some SHRINKING ∧ held id m1 (table_lock 3) 1 = None ∧
  ∀ lid' c, held id (exec_lops id ops0 m1) lid' 1 = Some c → held id lm1 lid' 1 = Some c.
Proof.
  apply (two_phase_locking id lm1 ops0 1 (table_lock 3) (mk_Txn DEFAULT {[table_lock 3]})).
  - apply exec_lops_ok; [apply no_locks_linv, no_locks0|apply known0].
  - repeat constructor; vm_compute; eauto.
  - vm_compute. reflexivity.
  - by right.
  - vm_compute. eauto.
Defined.

End LmFacts.
