(* ===== verification/Watermark.v ===== *)
(** * The watermark ([transaction/watermark.{h,cpp}])

    The read timestamps of the running snapshot transactions, with the smallest of them, up
    to which old versions may be collected. *)

From S2P Require Import Prelude.

Module Wm.

Record Watermark := mk_Watermark {
  commit_ts_ : Z;
  watermark_ : Z;
  current_reads_ : gmap Z Z
}.

Definition make_watermark (commit_ts : Z) : Watermark := mk_Watermark commit_ts commit_ts ∅.

(** [current_reads_.begin()->first]: the smallest key of the ordered map. *)
Definition begin_first (m : gmap Z Z) : option Z :=
  foldr (λ p o, match o with None => Some p.1 | Some k => Some (Z.min p.1 k) end) None (map_to_list m).

Definition AddTxn (read_ts : Z) (w : Watermark) : Watermark :=
  let reads := <[read_ts := default 0 (current_reads_ w !! read_ts) + 1]> (current_reads_ w) in
  mk_Watermark (commit_ts_ w)
    (if decide (size reads = 1%nat ∨ read_ts < watermark_ w) then read_ts else watermark_ w) reads.

Definition RemoveTxn (read_ts : Z) (w : Watermark) : Watermark :=
  match current_reads_ w !! read_ts with
  | None => w
  | Some n =>
      let reads := if decide (n - 1 = 0) then delete read_ts (current_reads_ w)
                   else <[read_ts := n - 1]> (current_reads_ w) in
      mk_Watermark (commit_ts_ w) (default (commit_ts_ w) (begin_first reads)) reads
  end.

Definition UpdateCommitTs (commit_ts : Z) (w : Watermark) : Watermark :=
  mk_Watermark commit_ts
    (if decide (current_reads_ w = ∅) then commit_ts else watermark_ w) (current_reads_ w).

Definition GetWatermark (w : Watermark) : Z := watermark_ w.

(** ** Properties *)

Lemma begin_first_spec (m : gmap Z Z) :
  match begin_first m with
  | None => m = ∅
  | Some k => is_Some (m !! k) ∧ ∀ k', is_Some (m !! k') → k ≤ k'
  end.
Proof.
  assert (∀ l : list (Z * Z),
    match foldr (λ p o, match o with None => Some p.1 | Some k => Some (Z.min p.1 k) end) None l with
    | None => l = []
    | Some k => k ∈ l.*1 ∧ ∀ k', k' ∈ l.*1 → k ≤ k'
    end) as H.
  { induction l as [|[k v] l IH]; [done|]. simpl. destruct (foldr _ None l) as [k0|].
    - destruct IH as [H1 H2]. split.
      + destruct (Z.min_spec k k0) as [[_ ->]|[_ ->]]; [by left|by right].
      + intros k'. rewrite elem_of_cons. intros [->|Hk]; [lia|]. specialize (H2 k' Hk). lia.
    - subst l. split; [by left|]. intros k'. rewrite elem_of_cons. intros [->|[]%elem_of_nil]. lia. }
  specialize (H (map_to_list m)). unfold begin_first.
  assert (∀ k, is_Some (m !! k) ↔ k ∈ (map_to_list m).*1) as Hdom.
  { intros k. rewrite list_elem_of_fmap. split.
    - intros [v Hv]. exists (k, v). split; [done|]. by apply elem_of_map_to_list.
    - intros ([k' v] & -> & Hv%elem_of_map_to_list). by exists v. }
  destruct (foldr _ None _) as [k|]; [|by apply map_to_list_empty_iff].
  rewrite Hdom. split; [apply H|]. intros k'. rewrite Hdom. apply H.
Qed.

(** The watermark is the smallest running read timestamp, or the last commit timestamp when
    nothing runs. *)
Record wwf (w : Watermark) : Prop := mk_wwf {
  wwf_min : ∀ ts, is_Some (current_reads_ w !! ts) → watermark_ w ≤ ts;
  wwf_in : current_reads_ w ≠ ∅ → is_Some (current_reads_ w !! watermark_ w);
  wwf_idle : current_reads_ w = ∅ → watermark_ w = commit_ts_ w;
  wwf_pos : ∀ ts n, current_reads_ w !! ts = Some n → 0 < n
}.

Lemma wwf_make ts : wwf (make_watermark ts).
Proof. split; simpl; try done. by intros ? []. Qed.

Lemma AddTxn_wwf ts w : wwf w → wwf (AddTxn ts w).
Proof.
  intros [H1 H2 H3 H4]. unfold AddTxn.
  assert (∀ n, size (<[ts := n]> (current_reads_ w)) = 1%nat → ∀ ts', is_Some (<[ts := n]> (current_reads_ w) !! ts') → ts' = ts) as Hone.
  { intros n Hs ts' [n' Hn']. destruct (decide (ts' = ts)) as [|Hne]; [done|]. exfalso.
    assert (size (delete ts (<[ts := n]> (current_reads_ w))) = 0%nat) as Hd%map_size_empty_inv.
    { rewrite map_size_delete_Some, Hs; [done|]. rewrite lookup_insert_eq. eauto. }
    assert (delete ts (<[ts := n]> (current_reads_ w)) !! ts' = Some n') as Hl by (by rewrite lookup_delete_ne).
    by rewrite Hd, lookup_empty in Hl. }
  destruct (decide (size _ = 1%nat ∨ ts < watermark_ w)) as [Hc|Hc]; split; simpl.
  - intros ts' Hts'. destruct Hc as [Hs|Hlt]; [by rewrite (Hone _ Hs ts' Hts')|].
    destruct (decide (ts' = ts)) as [->|Hne]; [lia|]. rewrite lookup_insert_ne in Hts' by done.
    specialize (H1 ts' Hts'). lia.
  - intros _. rewrite lookup_insert_eq. eauto.
  - intros E. by apply insert_non_empty in E.
  - intros ts' n. rewrite lookup_insert_Some. intros [[<- <-]|[_ Hn]]; [|by eapply H4].
    destruct (current_reads_ w !! ts) as [n0|] eqn:E; simpl; [specialize (H4 ts n0 E)|]; lia.
  - intros ts' Hts'. destruct (decide (ts' = ts)) as [->|Hne]; [lia|]. rewrite lookup_insert_ne in Hts' by done. by apply H1.
  - intros _. destruct (decide (watermark_ w = ts)) as [->|Hne]; [rewrite lookup_insert_eq; eauto|].
    rewrite lookup_insert_ne by done. apply H2. intros E. apply Hc. left. rewrite E, insert_empty. apply map_size_singleton.
  - intros E. by apply insert_non_empty in E.
  - intros ts' n. rewrite lookup_insert_Some. intros [[<- <-]|[_ Hn]]; [|by eapply H4].
    destruct (current_reads_ w !! ts) as [n0|] eqn:E; simpl; [specialize (H4 ts n0 E)|]; lia.
Qed.

Lemma RemoveTxn_wwf ts w : wwf w → wwf (RemoveTxn ts w).
Proof.
  intros Hw. unfold RemoveTxn. destruct (current_reads_ w !! ts) as [n|] eqn:E; [|done].
  set (reads := if decide _ then _ else _).
  assert (∀ ts n, reads !! ts = Some n → 0 < n) as Hpos.
  { intros ts' n'. unfold reads. destruct (decide (n - 1 = 0)).
    - rewrite lookup_delete_Some. intros [_ H]. by eapply (wwf_pos w).
    - rewrite lookup_insert_Some. intros [[_ <-]|[_ H]]; [|by eapply (wwf_pos w)].
      pose proof (wwf_pos w Hw ts n E). lia. }
  pose proof (begin_first_spec reads) as Hb. clearbody reads.
  destruct (begin_first reads) as [k|]; split; simpl; try done.
  - intros ts'. apply Hb.
  - intros _. apply Hb.
  - intros ->. destruct Hb as [[v Hv] _]. by rewrite lookup_empty in Hv.
  - subst. by intros ts' [].
Qed.

Lemma UpdateCommitTs_wwf ts w : wwf w → wwf (UpdateCommitTs ts w).
Proof.
  intros [H1 H2 H3 H4]. unfold UpdateCommitTs. destruct (decide (current_reads_ w = ∅)) as [E|E]; split; simpl; try done.
  intros ts' []. rewrite E in H. by rewrite lookup_empty in H.
Qed.

(** A running transaction keeps the watermark at or below its read timestamp. *)
Lemma running_below ts w : wwf w → is_Some (current_reads_ w !! ts) → GetWatermark w ≤ ts.
Proof. intros Hw. apply (wwf_min w Hw). Qed.

(** The number of running transactions with a read timestamp. *)
Definition count (w : Watermark) (ts : Z) : Z := default 0 (current_reads_ w !! ts).

Lemma AddTxn_count ts w ts' : count (AddTxn ts w) ts' = count w ts' + if decide (ts' = ts) then 1 else 0.
Proof.
  unfold count, AddTxn. simpl. destruct (decide (ts' = ts)) as [->|Hne].
  - by rewrite lookup_insert_eq.
  - rewrite lookup_insert_ne by done. lia.
Qed.

Lemma RemoveTxn_count ts w ts' :
  0 < count w ts → count (RemoveTxn ts w) ts' = count w ts' - if decide (ts' = ts) then 1 else 0.
Proof.
  unfold count, RemoveTxn. destruct (current_reads_ w !! ts) as [n|] eqn:E; simpl; [|lia]. intros Hn.
  destruct (decide (ts' = ts)) as [->|Hne].
  - rewrite E. simpl. destruct (decide (n - 1 = 0)).
    + rewrite lookup_delete_eq. simpl. lia.
    + by rewrite lookup_insert_eq.
  - destruct (decide (n - 1 = 0)).
    + rewrite lookup_delete_ne by done. lia.
    + rewrite lookup_insert_ne by done. lia.
Qed.

Lemma UpdateCommitTs_count c w ts : count (UpdateCommitTs c w) ts = count w ts.
Proof. done. Qed.

Lemma count_below ts w : wwf w → 0 < count w ts → GetWatermark w ≤ ts.
Proof.
  intros Hw Hc. apply running_below; [done|]. unfold count in Hc.
  destruct (current_reads_ w !! ts); [eauto|simpl in Hc; lia].
Qed.

End Wm.
