(* ===== verification/Index.v ===== *)
(** * The B+ tree index ([index/ix_defs.h], [index/ix_index_handle.{h,cpp}],
      [index/ix_scan.{h,cpp}], [index/ix_manager.h])

    A node is the contents of a page: its header and the key and rid arrays up to [num_key],
    as a list of pairs; the byte layout of a page is [node_bytes].  The handle keeps the file
    header, the nodes of the index file as the buffer pool shows them, and what the code does
    to the pool besides reading and writing nodes: the pages it has pinned and the pages it
    has marked dirty.  A page number stands for an [IxNodeHandle] of it.

    [ndebug] is the build mode: with [NDEBUG], as in the default build, an [assert] does not
    evaluate its argument.  Loops take fuel, one more than the pages of the file. *)

From stdpp Require Import gmultiset.
From S2P Require Import Prelude Disk RecordFile Conditions.

Module Ix.
Import RecFile Cond.

Abbreviation key := (list byte).

Definition IX_NO_PAGE : Z := -1.
Definition IX_FILE_HDR_PAGE : Z := 0.
Definition IX_LEAF_HEADER_PAGE : Z := 1.
Definition IX_INIT_ROOT_PAGE : Z := 2.
Definition IX_INIT_NUM_PAGES : Z := 3.
Definition IX_MAX_COL_LEN : Z := 512.

Record IxFileHdr := mk_IxFileHdr {
  first_free_page_no_ : Z;
  num_pages_ : Z;
  root_page_ : Z;
  col_types_ : list ColType;
  col_lens_ : list Z;
  col_tot_len_ : Z;
  btree_order_ : Z;
  keys_size_ : Z;
  first_leaf_ : Z;
  last_leaf_ : Z;
  tot_len_ : Z
}.

(** [IxPageHdr] with the key and rid arrays. *)
Record IxNode := mk_IxNode {
  parent : Z;
  is_leaf : bool;
  prev_leaf : Z;
  next_leaf : Z;
  pairs : list (key * Rid)
}.

Record IxIndexHandle := mk_IxIndexHandle {
  file_hdr_ : IxFileHdr;
  nodes : gmap Z IxNode;
  pinned : gmultiset Z;
  dirty : gset Z
}.

Definition set_hdr (h : IxFileHdr) (s : IxIndexHandle) : IxIndexHandle := mk_IxIndexHandle h (nodes s) (pinned s) (dirty s).
Definition set_nodes (m : gmap Z IxNode) (s : IxIndexHandle) : IxIndexHandle := mk_IxIndexHandle (file_hdr_ s) m (pinned s) (dirty s).
Definition set_pins (m : gmultiset Z) (d : gset Z) (s : IxIndexHandle) : IxIndexHandle := mk_IxIndexHandle (file_hdr_ s) (nodes s) m d.

Definition set_root (p : Z) (h : IxFileHdr) : IxFileHdr :=
  mk_IxFileHdr (first_free_page_no_ h) (num_pages_ h) p (col_types_ h) (col_lens_ h) (col_tot_len_ h) (btree_order_ h)
    (keys_size_ h) (first_leaf_ h) (last_leaf_ h) (tot_len_ h).
Definition set_last_leaf (p : Z) (h : IxFileHdr) : IxFileHdr :=
  mk_IxFileHdr (first_free_page_no_ h) (num_pages_ h) (root_page_ h) (col_types_ h) (col_lens_ h) (col_tot_len_ h) (btree_order_ h)
    (keys_size_ h) (first_leaf_ h) p (tot_len_ h).
Definition set_num_pages (n : Z) (h : IxFileHdr) : IxFileHdr :=
  mk_IxFileHdr (first_free_page_no_ h) n (root_page_ h) (col_types_ h) (col_lens_ h) (col_tot_len_ h) (btree_order_ h)
    (keys_size_ h) (first_leaf_ h) (last_leaf_ h) (tot_len_ h).

Definition set_parent (p : Z) (n : IxNode) : IxNode := mk_IxNode p (is_leaf n) (prev_leaf n) (next_leaf n) (pairs n).
Definition set_prev (p : Z) (n : IxNode) : IxNode := mk_IxNode (parent n) (is_leaf n) p (next_leaf n) (pairs n).
Definition set_next (p : Z) (n : IxNode) : IxNode := mk_IxNode (parent n) (is_leaf n) (prev_leaf n) p (pairs n).
Definition set_pairs (l : list (key * Rid)) (n : IxNode) : IxNode := mk_IxNode (parent n) (is_leaf n) (prev_leaf n) (next_leaf n) l.

(** ** Searching a node *)

Definition get_max_size (h : IxFileHdr) : Z := btree_order_ h + 1.
Definition get_key (ps : list (key * Rid)) (i : nat) : key := default [] (fst <$> ps !! i).

(** [ix_compare] with the column types and lengths of the index. *)
Definition compare (h : IxFileHdr) (a b : key) : comparison := ix_compare a b (zip (col_types_ h) (col_lens_ h)).

(** The binary search of [lower_bound] and [upper_bound]: [before k] says that the position
    is behind the key [k]. *)
Fixpoint bsearch (before : key → bool) (ps : list (key * Rid)) (fuel left right : nat) : nat :=
  match fuel with
  | O => left
  | S fuel =>
      if decide (left < right)%nat then
        let mid := ((left + right) / 2)%nat in
        if before (get_key ps mid) then bsearch before ps fuel (mid + 1) right
        else bsearch before ps fuel left mid
      else left
  end.

Definition node_lower_bound (h : IxFileHdr) (n : IxNode) (target : key) : nat :=
  bsearch (λ k, bool_decide (compare h k target = Lt)) (pairs n) (S (length (pairs n))) 0 (length (pairs n)).

Definition node_upper_bound (h : IxFileHdr) (n : IxNode) (target : key) : nat :=
  bsearch (λ k, bool_decide (compare h k target ≠ Gt)) (pairs n) (S (length (pairs n)))
    (if is_leaf n then 0%nat else 1%nat) (length (pairs n)).

(** The position of a key in a node, if the node has it. *)
Definition find_key (h : IxFileHdr) (n : IxNode) (k : key) : option nat :=
  let pos := node_lower_bound h n k in
  if decide ((pos < length (pairs n))%nat ∧ compare h (get_key (pairs n) pos) k = Eq) then Some pos else None.

Definition leaf_lookup (h : IxFileHdr) (n : IxNode) (k : key) : option Rid :=
  pos ← find_key h n k; snd <$> pairs n !! pos.

Definition value_at (n : IxNode) (i : nat) : option Z := page_no ∘ snd <$> pairs n !! i.

Definition internal_lookup (h : IxFileHdr) (n : IxNode) (k : key) : option Z :=
  if decide (length (pairs n) = 0%nat) then Some IX_NO_PAGE
  else value_at n (node_upper_bound h n k - 1).

(** [insert_pairs] and [erase_pair] on the arrays. *)
Definition insert_pairs (pos : nat) (l ps : list (key * Rid)) : list (key * Rid) := take pos ps ++ l ++ drop pos ps.
Definition erase_pair (pos : nat) (ps : list (key * Rid)) : list (key * Rid) := take pos ps ++ drop (S pos) ps.

Definition node_insert (h : IxFileHdr) (n : IxNode) (k : key) (v : Rid) : IxNode :=
  match find_key h n k with
  | Some _ => n
  | None => set_pairs (insert_pairs (node_lower_bound h n k) [(k, v)] (pairs n)) n
  end.

Definition node_remove (h : IxFileHdr) (n : IxNode) (k : key) : IxNode :=
  match find_key h n k with
  | Some pos => set_pairs (erase_pair pos (pairs n)) n
  | None => n
  end.

(** The index of the child [p] of a node. *)
Definition find_child (n : IxNode) (p : Z) : option nat := fst <$> list_find (λ e : key * Rid, page_no e.2 = p) (pairs n).

(** ** Pages *)

Section index.
Context (ndebug : bool).

(** [assert(e)] for an expression without effects. *)
Definition assert_ {S} (b : bool) : M S unit := if ndebug then mret tt else assert b.

Definition fuel_of (s : IxIndexHandle) : nat := S (Z.to_nat (num_pages_ (file_hdr_ s))).

Definition node_at (p : Z) : M IxIndexHandle IxNode := λ s, deref (nodes s !! p) s.
Definition update_node (p : Z) (f : IxNode → IxNode) : M IxIndexHandle unit :=
  modify (λ s, set_nodes (alter f p (nodes s)) s).
Definition hdr : M IxIndexHandle IxFileHdr := λ s, (Ok (file_hdr_ s), s).

(** [fetch_node] pins the page. *)
Definition fetch_node (p : Z) : M IxIndexHandle IxNode :=
  n ← node_at p;
  modify (λ s, set_pins ({[+ p +]} ⊎ pinned s) (dirty s) s);;
  mret n.

Definition unpin_page (p : Z) (is_dirty : bool) : M IxIndexHandle bool := λ s,
  if decide (p ∈ pinned s)
  then (Ok true, set_pins (pinned s ∖ {[+ p +]}) (if is_dirty then {[p]} ∪ dirty s else dirty s) s)
  else (Ok false, s).
Definition unpin (p : Z) (is_dirty : bool) : M IxIndexHandle unit := unpin_page p is_dirty;; mret tt.

(** [assert(buffer_pool_manager_->unpin_page(...))]. *)
Definition assert_unpin (p : Z) (is_dirty : bool) : M IxIndexHandle unit :=
  if ndebug then mret tt else b ← unpin_page p is_dirty; assert b.

(** A blank page at the end of the file. *)
Definition blank_node : IxNode := mk_IxNode 0 false 0 0 [].

Definition create_node : M IxIndexHandle Z := λ s,
  let p := num_pages_ (file_hdr_ s) in
  (Ok p, mk_IxIndexHandle (set_num_pages (p + 1) (file_hdr_ s)) (<[p := blank_node]> (nodes s)) ({[+ p +]} ⊎ pinned s) (dirty s)).

(** ** Descent *)

Fixpoint descend (fuel : nat) (k : key) (find_first : bool) (p : Z) : M IxIndexHandle Z :=
  match fuel with
  | O => throw Undefined
  | S fuel =>
      n ← node_at p;
      if is_leaf n then mret p
      else
        h ← hdr;
        child ← deref (if find_first then value_at n 0 else internal_lookup h n k);
        unpin p false;;
        fetch_node child;;
        descend fuel k find_first child
  end.

Definition find_leaf_page (k : key) (find_first : bool) : M IxIndexHandle (option Z) :=
  h ← hdr;
  if decide (root_page_ h = IX_NO_PAGE) then mret None
  else
    fetch_node (root_page_ h);;
    s ← get;
    p ← descend (fuel_of s) k find_first (root_page_ h);
    mret (Some p).

Definition get_value (k : key) : M IxIndexHandle (option Rid) :=
  leaf ← find_leaf_page k false;
  match leaf with
  | None => mret None
  | Some p =>
      h ← hdr;
      n ← node_at p;
      unpin p false;;
      mret (leaf_lookup h n k)
  end.

(** ** Insertion *)

Definition maintain_child (p : Z) (child_idx : nat) : M IxIndexHandle unit :=
  n ← node_at p;
  if is_leaf n then mret tt
  else
    c ← deref (value_at n child_idx);
    fetch_node c;;
    update_node c (set_parent p);;
    unpin c true.

Fixpoint maintain_children (p : Z) (idxs : list nat) : M IxIndexHandle unit :=
  match idxs with [] => mret tt | i :: idxs => maintain_child p i;; maintain_children p idxs end.

(** [split] moves the upper half of a node to a new one. *)
Definition split (p : Z) : M IxIndexHandle Z :=
  q ← create_node;
  n ← node_at p;
  let move_start := (length (pairs n) / 2)%nat in
  let moved := drop move_start (pairs n) in
  h ← hdr;
  assert_ (bool_decide (Z.of_nat (length moved) ≤ get_max_size h));;
  update_node q (λ _, mk_IxNode (parent n) (is_leaf n) IX_NO_PAGE IX_NO_PAGE moved);;
  update_node p (set_pairs (take move_start (pairs n)));;
  (if is_leaf n then
     update_node q (set_prev p);;
     update_node q (set_next (next_leaf n));;
     (if decide (next_leaf n ≠ IX_LEAF_HEADER_PAGE) then
        fetch_node (next_leaf n);;
        update_node (next_leaf n) (set_prev q);;
        unpin (next_leaf n) true
      else mret tt);;
     update_node p (set_next q);;
     modify (λ s, if decide (last_leaf_ (file_hdr_ s) = p) then set_hdr (set_last_leaf q (file_hdr_ s)) s else s)
   else maintain_children q (seq 0 (length moved)));;
  mret q.

Definition child_rid (p : Z) : Rid := mk_Rid p (-1).

Fixpoint insert_into_parent (fuel : nat) (old_node : Z) (k : key) (new_node : Z) : M IxIndexHandle unit :=
  match fuel with
  | O => throw Undefined
  | S fuel =>
      o ← node_at old_node;
      n ← node_at new_node;
      if decide (parent o = IX_NO_PAGE) then
        root ← create_node;
        update_node root (λ _, mk_IxNode IX_NO_PAGE false IX_NO_PAGE IX_NO_PAGE
          [(get_key (pairs o) 0, child_rid old_node); (get_key (pairs n) 0, child_rid new_node)]);;
        update_node old_node (set_parent root);;
        update_node new_node (set_parent root);;
        modify (λ s, set_hdr (set_root root (file_hdr_ s)) s);;
        unpin root true
      else
        let g := parent o in
        pn ← fetch_node g;
        i ← deref (find_child pn old_node);
        h ← hdr;
        assert_ (bool_decide (Z.of_nat (length (pairs pn)) + 1 ≤ get_max_size h));;
        update_node g (set_pairs (insert_pairs (i + 1) [(k, child_rid new_node)] (pairs pn)));;
        update_node new_node (set_parent g);;
        (if decide (get_max_size h ≤ Z.of_nat (length (pairs pn)) + 1) then
           new_parent ← split g;
           np ← node_at new_parent;
           insert_into_parent fuel g (get_key (pairs np) 0) new_parent;;
           unpin new_parent true
         else mret tt);;
        unpin g true
  end.

(** [maintain_parent]: the first key of a node is copied to its parent, upwards until a
    parent has it already. *)
Fixpoint maintain_parent (fuel : nat) (p : Z) : M IxIndexHandle unit :=
  match fuel with
  | O => throw Undefined
  | S fuel =>
      n ← node_at p;
      if decide (parent n = IX_NO_PAGE) then mret tt
      else
        let g := parent n in
        pn ← fetch_node g;
        rank ← deref (find_child pn p);
        e ← deref (pairs pn !! rank);
        first ← deref (fst <$> pairs n !! 0%nat);
        if decide (e.1 = first) then assert_unpin g true
        else
          update_node g (set_pairs (<[rank := (first, e.2)]> (pairs pn)));;
          assert_unpin g true;;
          maintain_parent fuel g
  end.

Definition insert_entry (k : key) (value : Rid) : M IxIndexHandle Z :=
  leaf ← find_leaf_page k false;
  match leaf with
  | None => mret IX_NO_PAGE
  | Some p =>
      h ← hdr;
      n ← node_at p;
      let n' := node_insert h n k value in
      if decide (length (pairs n') = length (pairs n)) then unpin p false;; mret IX_NO_PAGE
      else
        assert_ (bool_decide (Z.of_nat (length (pairs n)) + 1 ≤ get_max_size h));;
        update_node p (λ _, n');;
        s ← get;
        (if decide (get_max_size h ≤ Z.of_nat (length (pairs n'))) then
           q ← split p;
           nq ← node_at q;
           insert_into_parent (fuel_of s) p (get_key (pairs nq) 0) q;;
           unpin q true
         else if decide (node_lower_bound h n' k = 0%nat) then maintain_parent (fuel_of s) p
         else mret tt);;
        unpin p true;;
        mret p
  end.

(** ** Deletion: nodes are never merged *)

Definition delete_entry (k : key) : M IxIndexHandle bool :=
  leaf ← find_leaf_page k false;
  match leaf with
  | None => mret false
  | Some p =>
      h ← hdr;
      n ← node_at p;
      let n' := node_remove h n k in
      let deleted := negb (bool_decide (length (pairs n') = length (pairs n))) in
      update_node p (λ _, n');;
      s ← get;
      (if deleted && bool_decide (0 < length (pairs n'))%nat then maintain_parent (fuel_of s) p else mret tt);;
      unpin p deleted;;
      mret deleted
  end.

(** ** Positions and scans *)

Record Iid := mk_Iid { iid_page : Z; iid_slot : nat }.
#[global] Instance Iid_eq_dec : EqDecision Iid.
Proof. solve_decision. Defined.

Definition get_rid (i : Iid) : M IxIndexHandle Rid :=
  n ← fetch_node (iid_page i);
  if decide (length (pairs n) ≤ iid_slot i)%nat then throw IndexEntryNotFoundError
  else unpin (iid_page i) false;; deref (snd <$> pairs n !! iid_slot i).

Definition leaf_end : M IxIndexHandle Iid :=
  h ← hdr;
  n ← fetch_node (last_leaf_ h);
  unpin (last_leaf_ h) false;;
  mret (mk_Iid (last_leaf_ h) (length (pairs n))).

(** Over leaves in which the search ends behind the last entry. *)
Fixpoint skip_leaves (bound : IxNode → nat) (fuel : nat) (p : Z) : M IxIndexHandle Iid :=
  match fuel with
  | O => throw Undefined
  | S fuel =>
      h ← hdr;
      n ← node_at p;
      if decide (bound n = length (pairs n) ∧ p ≠ last_leaf_ h) then
        unpin p false;;
        fetch_node (next_leaf n);;
        skip_leaves bound fuel (next_leaf n)
      else
        unpin p false;;
        mret (mk_Iid p (bound n))
  end.

Definition bound_of (bound : IxFileHdr → IxNode → key → nat) (k : key) : M IxIndexHandle Iid :=
  leaf ← find_leaf_page k false;
  match leaf with
  | None => leaf_end
  | Some p => h ← hdr; s ← get; skip_leaves (λ n, bound h n k) (fuel_of s) p
  end.

Definition lower_bound (k : key) : M IxIndexHandle Iid := bound_of node_lower_bound k.
Definition upper_bound (k : key) : M IxIndexHandle Iid := bound_of node_upper_bound k.

(** [leaf_begin]: over empty leaves. *)
Definition leaf_begin : M IxIndexHandle Iid :=
  h ← hdr;
  fetch_node (first_leaf_ h);;
  s ← get;
  skip_leaves (λ _, 0%nat) (fuel_of s) (first_leaf_ h).

(** [IxScan::next] of a scan that is at [i] and ends at [e]. *)
Definition scan_next (i e : Iid) : M IxIndexHandle Iid :=
  assert_ (negb (bool_decide (i = e)));;
  n ← fetch_node (iid_page i);
  assert_ (is_leaf n);;
  assert_ (bool_decide (iid_slot i < length (pairs n))%nat);;
  h ← hdr;
  let slot := S (iid_slot i) in
  unpin (iid_page i) false;;
  mret (if decide (iid_page i ≠ last_leaf_ h ∧ slot = length (pairs n)) then mk_Iid (next_leaf n) 0
        else mk_Iid (iid_page i) slot).

(** The loop of a range scan: the rids from [i] to [e]. *)
Fixpoint scan (fuel : nat) (i e : Iid) : M IxIndexHandle (list Rid) :=
  match fuel with
  | O => throw Undefined
  | S fuel =>
      if decide (i = e) then mret []
      else
        r ← get_rid i;
        i' ← scan_next i e;
        l ← scan fuel i' e;
        mret (r :: l)
  end.
End index.
End Ix.
