(* ===== verification/IndexTree.v ===== *)
(** * The shape of a B+ tree

    The nodes of an index file form a search tree.  The invariant is local: a ghost map gives
    every page of the tree the range of keys it is responsible for and its height, and each
    node has to fit the ranges of its children.  Keys are compared by their rank, an integer;
    a range is half open, from a separator up to the next one.

    [shape] is the invariant without the separators that the nodes hold, [keys_ok] says that
    these are the lower ends of the ranges of the children, [links] is the list of leaves. *)

From S2P Require Import Prelude RecordFile Conditions Index.

Module IxTree.
Import RecFile Cond Ix.

(** What the tree needs of the comparison of keys: on valid keys it compares ranks. *)
Class KeyOrder (cmp : key → key → comparison) := {
  valid : key → Prop;
  rank : key → Z;
  cmp_rank a b : valid a → valid b → cmp a b = (rank a ?= rank b)
}.

Abbreviation entry := (key * Rid)%type.

Record range := mk_range { lo : option key; hi : option key; ht : nat }.

(** The pages of the children of a node. *)
Definition kids (n : IxNode) : list Z := (λ e : entry, page_no e.2) <$> pairs n.

Section tree.
Context {cmp : key → key → comparison} `{KO : !KeyOrder cmp}.
Implicit Types (p q g c : Z) (r rc rg : range) (n : IxNode) (es : list entry).
Implicit Types (ns : gmap Z IxNode) (G : gmap Z range) (h : IxFileHdr).

(** ** Ranges *)

Definition from (l : option key) (z : Z) : Prop := match l with Some b => rank b ≤ z | None => True end.
Definition upto (z : Z) (u : option key) : Prop := match u with Some b => z < rank b | None => True end.
Definition within (z : Z) r : Prop := from (lo r) z ∧ upto z (hi r).
#[global] Instance within_dec z r : Decision (within z r).
Proof. unfold within, from, upto. destruct (lo r), (hi r); apply _. Defined.

(** A range is not empty, and its ends are valid keys. *)
Definition range_ok r : Prop :=
  (∀ b, lo r = Some b → valid b ∧ upto (rank b) (hi r)) ∧ (∀ b, hi r = Some b → valid b).

Definition sorted es : Prop :=
  ∀ i j e1 e2, (i < j)%nat → es !! i = Some e1 → es !! j = Some e2 → rank e1.1 < rank e2.1.

Definition leaf_ok r es : Prop := sorted es ∧ ∀ e, e ∈ es → valid e.1 ∧ within (rank e.1) r.

(** ** The invariant *)

Definition lo_of G c : option key := G !! c ≫= lo.

(** The upper end of the [i]-th child is where the next one begins. *)
Definition next_lo G n (i : nat) (u : option key) : option key :=
  match kids n !! S i with Some c => lo_of G c | None => u end.

Definition kid_ok ns G p r n (i : nat) c : Prop :=
  ∃ rc cn, G !! c = Some rc ∧ ns !! c = Some cn ∧ parent cn = p ∧ ht r = S (ht rc) ∧
    (if decide (i = 0%nat) then lo rc = lo r else is_Some (lo rc)) ∧ hi rc = next_lo G n i (hi r).

Record shape h ns G (H : nat) : Prop := {
  sh_root : G !! root_page_ h = Some (mk_range None None H);
  sh_root_parent n : ns !! root_page_ h = Some n → parent n = IX_NO_PAGE;
  sh_page p r : G !! p = Some r → 2 ≤ p < num_pages_ h;
  sh_node p r : G !! p = Some r → ∃ n, ns !! p = Some n ∧ is_leaf n = bool_decide (ht r = 0%nat);
  sh_range p r : G !! p = Some r → range_ok r ∧ (ht r ≤ H)%nat;
  sh_up p r : G !! p = Some r → p ≠ root_page_ h →
    ∃ g rg gn i, G !! g = Some rg ∧ ns !! g = Some gn ∧ (0 < ht rg)%nat ∧ kids gn !! i = Some p;
  sh_kids p r n : G !! p = Some r → ns !! p = Some n → (0 < ht r)%nat →
    pairs n ≠ [] ∧ ∀ i c, kids n !! i = Some c → kid_ok ns G p r n i c;
  sh_leaf p r n : G !! p = Some r → ns !! p = Some n → ht r = 0%nat → leaf_ok r (pairs n)
}.

(** A relation between the range of a child and the key its parent has for it. *)
Definition keys_are (K : range → key → Prop) ns G : Prop :=
  ∀ p r n i e rc, G !! p = Some r → (0 < ht r)%nat → ns !! p = Some n → pairs n !! i = Some e →
    G !! page_no e.2 = Some rc → K rc e.1.
Definition keys_ok : gmap Z IxNode → gmap Z range → Prop := keys_are (λ rc k, ∀ b, lo rc = Some b → k = b).

Definition next_ok h G p r n : Prop :=
  match hi r with
  | None => next_leaf n = IX_LEAF_HEADER_PAGE ∧ last_leaf_ h = p
  | Some b => last_leaf_ h ≠ p ∧ ∃ r', G !! next_leaf n = Some r' ∧ ht r' = 0%nat ∧ lo r' = Some b
  end.
Definition prev_ok h G p r n : Prop :=
  match lo r with
  | None => prev_leaf n = IX_LEAF_HEADER_PAGE ∧ first_leaf_ h = p
  | Some b => first_leaf_ h ≠ p ∧ ∃ r', G !! prev_leaf n = Some r' ∧ ht r' = 0%nat ∧ hi r' = Some b
  end.
Definition links h ns G : Prop :=
  ∀ p r n, G !! p = Some r → ns !! p = Some n → ht r = 0%nat → next_ok h G p r n ∧ prev_ok h G p r n.

(** Every node but [x] has room for one more entry, and [x] is not beyond its size. *)
Definition sizes (mx : Z) ns G (x : option Z) : Prop :=
  ∀ p r n, G !! p = Some r → ns !! p = Some n →
    Z.of_nat (length (pairs n)) < mx ∨ (x = Some p ∧ Z.of_nat (length (pairs n)) = mx).

(** The entries of the tree. *)
Definition holds ns G (e : entry) : Prop :=
  ∃ p r n, G !! p = Some r ∧ ht r = 0%nat ∧ ns !! p = Some n ∧ e ∈ pairs n.

(** ** Ranges *)

Lemma range_ne r b : range_ok r → lo r = Some b → within (rank b) r.
Proof. intros [Hr _] Hb. destruct (Hr b Hb) as [_ Hu]. split; [by rewrite Hb; simpl|done]. Qed.

Lemma range_inhabited r : range_ok r → ∃ z, within z r.
Proof.
  intros Hr. destruct (lo r) as [b|] eqn:El; [exists (rank b); by apply range_ne|].
  destruct (hi r) as [u|] eqn:Eu; [exists (rank u - 1)|exists 0]; unfold within; rewrite El, Eu; simpl; split; lia.
Qed.

Lemma kids_lookup n i c : kids n !! i = Some c ↔ ∃ e, pairs n !! i = Some e ∧ page_no e.2 = c.
Proof. unfold kids. rewrite list_lookup_fmap, fmap_Some. naive_solver. Qed.

Lemma length_kids n : length (kids n) = length (pairs n).
Proof. apply length_fmap. Qed.

(** ** Children of a node *)

Section kids.
Context {h ns G H} (Hs : shape h ns G H).
Context {p r n} (Hp : G !! p = Some r) (Hn : ns !! p = Some n) (Hh : (0 < ht r)%nat).

Lemma kid i c : kids n !! i = Some c → kid_ok ns G p r n i c.
Proof. apply (sh_kids _ _ _ _ Hs _ _ _ Hp Hn Hh). Qed.

(** The children follow each other from left to right. *)
Lemma kids_step i c rc c' rc' : kids n !! i = Some c → kids n !! S i = Some c' →
  G !! c = Some rc → G !! c' = Some rc' → ∃ b, hi rc = Some b ∧ lo rc' = Some b.
Proof.
  intros H1 H2 G1 G2. destruct (kid _ _ H1) as (rc1 & cn1 & E1 & _ & _ & _ & _ & Hhi).
  destruct (kid _ _ H2) as (rc2 & cn2 & E2 & _ & _ & _ & [b Hlo] & _). simplify_eq.
  exists b. split; [|done]. rewrite Hhi. unfold next_lo, lo_of. by rewrite H2, G2.
Qed.

Lemma kids_order i d c rc c' rc' : kids n !! i = Some c → kids n !! (i + S d)%nat = Some c' →
  G !! c = Some rc → G !! c' = Some rc' →
  ∃ b b', hi rc = Some b ∧ lo rc' = Some b' ∧ rank b ≤ rank b'.
Proof.
  revert c' rc'. induction d as [|d IH]; intros c' rc' H1 H2 G1 G2.
  - replace (i + 1)%nat with (S i) in H2 by lia. destruct (kids_step _ _ _ _ _ H1 H2 G1 G2) as (b & ? & ?). exists b, b. by split_and!.
  - replace (i + S (S d))%nat with (S (i + S d)) in H2 by lia.
    destruct (lookup_lt_is_Some_2 (kids n) (i + S d)) as [c1 H3]; [apply lookup_lt_Some in H2; lia|].
    destruct (kid _ _ H3) as (rc1 & _ & G3 & _). destruct (IH _ _ H1 H3 G1 G3) as (b & b1 & Hb & Hb1 & Hle).
    destruct (kids_step _ _ _ _ _ H3 H2 G3 G2) as (b' & Hb' & Hb2). exists b, b'. split_and!; try done.
    pose proof (sh_range _ _ _ _ Hs _ _ G3) as [Hr _]. destruct (range_ne _ _ Hr Hb1) as [_ Hu]. rewrite Hb' in Hu. simpl in Hu. lia.
Qed.

(** The range of a child lies in that of the node. *)
Lemma kid_within i c rc z : kids n !! i = Some c → G !! c = Some rc → within z rc → within z r.
Proof.
  intros Hc Gc [Hf Hu]. split.
  - destruct (kids n !! 0%nat) as [c0|] eqn:H0; [|by apply lookup_ge_None in H0; apply lookup_lt_Some in Hc; lia].
    destruct (kid _ _ H0) as (r0 & _ & G0 & _ & _ & _ & Hl & _). simpl in Hl. rewrite <-Hl. destruct i as [|i]; [by simplify_eq|].
    destruct (kids_order 0 i c0 r0 c rc H0 Hc G0 Gc) as (b & b' & Hb & Hb' & Hle). rewrite Hb' in Hf. simpl in Hf.
    destruct (lo r0) as [b0|] eqn:E0; [|done]. simpl.
    pose proof (sh_range _ _ _ _ Hs _ _ G0) as [Hr _]. destruct (range_ne _ _ Hr E0) as [_ Hu0]. rewrite Hb in Hu0. simpl in Hu0. lia.
  - destruct (hi r) as [u|] eqn:Eu; [|done]. simpl.
    destruct (lookup_lt_is_Some_2 (kids n) (length (kids n) - 1)) as [cl Hcl]; [apply lookup_lt_Some in Hc; lia|].
    destruct (kid _ _ Hcl) as (rl & _ & Gl & _ & _ & _ & _ & Hhi).
    unfold next_lo in Hhi. rewrite (proj2 (lookup_ge_None (kids n) _)) in Hhi by lia. rewrite Eu in Hhi.
    destruct (decide (i = length (kids n) - 1)%nat) as [->|Hne].
    + simplify_eq. rewrite Hhi in Hu. done.
    + apply lookup_lt_Some in Hc as Hlt.
      replace (length (kids n) - 1)%nat with (i + S (length (kids n) - 2 - i))%nat in Hcl by lia.
      destruct (kids_order _ _ _ _ _ _ Hc Hcl Gc Gl) as (b & b' & Hb & Hb' & Hle). rewrite Hb in Hu. simpl in Hu.
      pose proof (sh_range _ _ _ _ Hs _ _ Gl) as [Hr _]. destruct (range_ne _ _ Hr Hb') as [_ Hu0]. rewrite Hhi in Hu0. simpl in Hu0. lia.
Qed.

(** At most one child is responsible for a rank. *)
Lemma kid_disjoint i j c c' rc rc' z : (i < j)%nat → kids n !! i = Some c → kids n !! j = Some c' →
  G !! c = Some rc → G !! c' = Some rc' → within z rc → within z rc' → False.
Proof.
  intros Hij H1 H2 G1 G2 [_ Hu] [Hf _]. replace j with (i + S (j - i - 1))%nat in H2 by lia.
  destruct (kids_order _ _ _ _ _ _ H1 H2 G1 G2) as (b & b' & Hb & Hb' & Hle). rewrite Hb in Hu. rewrite Hb' in Hf. simpl in *. lia.
Qed.

Lemma kid_unique i j c c' rc rc' z : kids n !! i = Some c → kids n !! j = Some c' →
  G !! c = Some rc → G !! c' = Some rc' → within z rc → within z rc' → i = j.
Proof.
  intros H1 H2 G1 G2 W1 W2.
  destruct (Nat.lt_trichotomy i j) as [?|[?|?]]; [|done|]; exfalso; [eapply (kid_disjoint i j)|eapply (kid_disjoint j i)]; done.
Qed.
End kids.

(** ** Pages of a tree *)

Section pages.
Context {h ns G H} (Hs : shape h ns G H).

Lemma parent_of p r n : G !! p = Some r → ns !! p = Some n → p ≠ root_page_ h →
  ∃ rg gn i, G !! parent n = Some rg ∧ ns !! parent n = Some gn ∧ ht rg = S (ht r) ∧ kids gn !! i = Some p ∧
    kid_ok ns G (parent n) rg gn i p.
Proof.
  intros Hp Hn Hr. destruct (sh_up _ _ _ _ Hs _ _ Hp Hr) as (g & rg & gn & i & Hg & Hgn & Hh & Hi).
  pose proof (kid Hs Hg Hgn Hh _ _ Hi) as Hk. pose proof Hk as (rc & cn & Hrc & Hcn & Hpar & Hht & _).
  rewrite Hp in Hrc. rewrite Hn in Hcn. injection Hrc as <-. injection Hcn as <-. rewrite Hpar. by exists rg, gn, i.
Qed.

Lemma root_height p r : G !! p = Some r → ht r = H → p = root_page_ h.
Proof.
  intros Hp Hr. destruct (decide (p = root_page_ h)) as [|Hne]; [done|].
  destruct (sh_node _ _ _ _ Hs _ _ Hp) as (n & Hn & _).
  destruct (parent_of _ _ _ Hp Hn Hne) as (rg & gn & i & Hg & _ & Hh & _).
  pose proof (sh_range _ _ _ _ Hs _ _ Hg) as [_ ?]. lia.
Qed.

Lemma below_root p r : G !! p = Some r → p ≠ root_page_ h → (ht r < H)%nat.
Proof.
  intros Hp Hne. pose proof (sh_range _ _ _ _ Hs _ _ Hp) as [_ ?].
  destruct (decide (ht r = H)) as [E|]; [|lia]. by destruct (Hne (root_height _ _ Hp E)).
Qed.

(** On each level one page is responsible for a rank. *)
Lemma page_unique d : ∀ p q r r' z, (H - ht r = d)%nat → G !! p = Some r → G !! q = Some r' → ht r = ht r' →
  within z r → within z r' → p = q.
Proof.
  induction d as [|d IH]; intros p q r r' z Hd Hp Hq Hh Wp Wq;
    pose proof (sh_range _ _ _ _ Hs _ _ Hp) as [_ Hle].
  { rewrite (root_height p r), (root_height q r'); try done; lia. }
  assert (p ≠ root_page_ h) as Np by (intros ->; rewrite (sh_root _ _ _ _ Hs) in Hp; simplify_eq/=; lia).
  assert (q ≠ root_page_ h) as Nq by (intros ->; rewrite (sh_root _ _ _ _ Hs) in Hq; simplify_eq/=; lia).
  destruct (sh_up _ _ _ _ Hs _ _ Hp Np) as (g & rg & gn & i & Hg & Hgn & Hgh & Hi).
  destruct (sh_up _ _ _ _ Hs _ _ Hq Nq) as (g' & rg' & gn' & j & Hg' & Hgn' & Hgh' & Hj).
  destruct (kid Hs Hg Hgn Hgh _ _ Hi) as (? & ? & ? & _ & _ & Hht & _).
  destruct (kid Hs Hg' Hgn' Hgh' _ _ Hj) as (? & ? & ? & _ & _ & Hht' & _). simplify_eq.
  assert (g = g') as ->.
  { eapply (IH g g' rg rg' z); try done; [lia|lia|..].
    - by eapply (kid_within Hs Hg Hgn Hgh).
    - by eapply (kid_within Hs Hg' Hgn' Hgh'). }
  simplify_eq. assert (i = j) as -> by by eapply (kid_unique Hs Hg Hgn Hgh). by simplify_eq.
Qed.

Lemma same_page p q r r' z : G !! p = Some r → G !! q = Some r' → ht r = ht r' → within z r → within z r' → p = q.
Proof. by eapply page_unique. Qed.

Lemma same_lo p q r r' b : G !! p = Some r → G !! q = Some r' → ht r = ht r' → lo r = Some b → lo r' = Some b → p = q.
Proof.
  intros Hp Hq Hh Hl Hl'. eapply (same_page p q r r' (rank b)); try done; eapply range_ne; try done; by eapply (sh_range _ _ _ _ Hs).
Qed.

(** The page above a page on a given level has a range around that of the page. *)
Lemma above d : ∀ p r, G !! p = Some r → (ht r + d ≤ H)%nat →
  ∃ q r', G !! q = Some r' ∧ ht r' = (ht r + d)%nat ∧ ∀ z, within z r → within z r'.
Proof.
  induction d as [|d IH]; intros p r Hp Hd.
  { exists p, r. split_and!; [done|lia|done]. }
  destruct (IH p r Hp ltac:(lia)) as (q & r1 & Hq & Hh & Hw).
  assert (q ≠ root_page_ h) as Nq by (intros ->; rewrite (sh_root _ _ _ _ Hs) in Hq; simplify_eq/=; lia).
  destruct (sh_up _ _ _ _ Hs _ _ Hq Nq) as (g & rg & gn & i & Hg & Hgn & Hgh & Hi).
  destruct (kid Hs Hg Hgn Hgh _ _ Hi) as (? & ? & ? & _ & _ & Hht & _). simplify_eq.
  exists g, rg. split_and!; [done|lia|]. intros z Hz. eapply (kid_within Hs Hg Hgn Hgh); [done..|]. by apply Hw.
Qed.

(** A page whose range begins at [b] is above or below every page whose range has [b], or
    begins there too. *)
Lemma lo_above p r q r' b : G !! p = Some r → G !! q = Some r' → (ht r ≤ ht r')%nat →
  lo r = Some b → lo r' = Some b → ∀ z, within z r → within z r'.
Proof.
  intros Hp Hq Hh Hl Hl'. pose proof (sh_range _ _ _ _ Hs _ _ Hq) as [Hrq Hle].
  destruct (above (ht r' - ht r) p r Hp ltac:(lia)) as (q' & r1 & Hq' & Hh1 & Hw).
  assert (q' = q) as ->; [|by simplify_eq].
  eapply (same_page q' q r1 r' (rank b)); [done|done|lia| |by apply range_ne].
  apply Hw. eapply range_ne; [|done]. by eapply (sh_range _ _ _ _ Hs).
Qed.

(** There is a page on every level, so the height is less than the number of pages. *)
Lemma level d : (d ≤ H)%nat → ∃ p r, G !! p = Some r ∧ ht r = (H - d)%nat.
Proof.
  induction d as [|d IH]; intros Hd.
  { exists (root_page_ h), (mk_range None None H). split; [apply (sh_root _ _ _ _ Hs)|simpl; lia]. }
  destruct (IH ltac:(lia)) as (p & r & Hp & Hh). destruct (sh_node _ _ _ _ Hs _ _ Hp) as (n & Hn & _).
  destruct (sh_kids _ _ _ _ Hs _ _ _ Hp Hn ltac:(lia)) as [Hne Hk].
  destruct (pairs n) as [|e l] eqn:E; [done|].
  destruct (Hk 0%nat (page_no e.2)) as (rc & cn & Hc & _ & _ & Hht & _).
  { apply kids_lookup. exists e. by rewrite E. }
  exists (page_no e.2), rc. split; [done|lia].
Qed.

Lemma levels d : (d ≤ S H)%nat → ∃ X : gset Z, size X = d ∧ ∀ p, p ∈ X → ∃ r, G !! p = Some r ∧ (ht r < d)%nat.
Proof.
  induction d as [|d IH]; intros Hd; [exists ∅; split; [apply size_empty|set_solver]|].
  destruct (IH ltac:(lia)) as (X & HX & Hin). destruct (level (H - d) ltac:(lia)) as (p & r & Hp & Hh).
  exists ({[p]} ∪ X). split.
  - rewrite size_union, size_singleton; [lia|]. apply disjoint_singleton_l. intros Hx. destruct (Hin _ Hx) as (r' & ? & ?). simplify_eq. lia.
  - intros q [Hq%elem_of_singleton|Hq]%elem_of_union; [subst; exists r; split; [done|lia]|].
    destruct (Hin _ Hq) as (r' & ? & ?). exists r'. split; [done|lia].
Qed.

Lemma height_pages : Z.of_nat H + 2 < num_pages_ h.
Proof.
  destruct (levels (S H) ltac:(lia)) as (X & HX & Hin).
  assert (X ⊆ list_to_set (seqZ 2 (num_pages_ h - 2))) as Hsub.
  { intros p Hp. destruct (Hin _ Hp) as (r & Hr & _). pose proof (sh_page _ _ _ _ Hs _ _ Hr).
    apply elem_of_list_to_set, elem_of_seqZ. lia. }
  apply subseteq_size in Hsub. rewrite HX, size_list_to_set in Hsub by apply NoDup_seqZ.
  rewrite length_seqZ in Hsub. pose proof (sh_page _ _ _ _ Hs _ _ (sh_root _ _ _ _ Hs)). lia.
Qed.

(** An entry is in the one leaf that is responsible for it. *)
Lemma holds_leaf p r n e : G !! p = Some r → ht r = 0%nat → ns !! p = Some n → within (rank e.1) r →
  holds ns G e ↔ e ∈ pairs n.
Proof.
  intros Hp Hh Hn Hw. split; [|intros He; by exists p, r, n].
  intros (q & r' & n' & Hq & Hh' & Hn' & He). destruct (sh_leaf _ _ _ _ Hs _ _ _ Hq Hn' Hh') as [_ Hin].
  destruct (Hin _ He) as [_ Hw']. assert (p = q) as -> by (eapply (same_page p q r r'); try done; congruence). by simplify_eq.
Qed.
End pages.

(** ** Changes that keep the children of every node *)

(** The nodes [ns'] have the children and parents of [ns], and leaves that fit. *)
Definition same_kids ns ns' G : Prop :=
  ∀ p r n, G !! p = Some r → ns !! p = Some n → ∃ n', ns' !! p = Some n' ∧ is_leaf n' = is_leaf n ∧ parent n' = parent n ∧
    ((0 < ht r)%nat → kids n' = kids n) ∧ (ht r = 0%nat → leaf_ok r (pairs n')).

Lemma shape_ext h h' ns ns' G H : shape h ns G H → same_kids ns ns' G →
  root_page_ h' = root_page_ h → num_pages_ h ≤ num_pages_ h' → shape h' ns' G H.
Proof.
  intros Hs He Hr Hn.
  assert (∀ p r n', G !! p = Some r → ns' !! p = Some n' → ∃ n, ns !! p = Some n ∧ is_leaf n' = is_leaf n ∧ parent n' = parent n ∧
    ((0 < ht r)%nat → kids n' = kids n) ∧ (ht r = 0%nat → leaf_ok r (pairs n'))) as He'.
  { intros p r n' Hp Hn'. destruct (sh_node _ _ _ _ Hs _ _ Hp) as (n & Hpn & _). destruct (He _ _ _ Hp Hpn) as (n1 & ? & ?). simplify_eq. by exists n. }
  split; rewrite ?Hr.
  - apply (sh_root _ _ _ _ Hs).
  - intros n' Hn'. destruct (He' _ _ _ (sh_root _ _ _ _ Hs) Hn') as (n & Hpn & _ & -> & _). by apply (sh_root_parent _ _ _ _ Hs).
  - intros p r Hp. pose proof (sh_page _ _ _ _ Hs _ _ Hp). lia.
  - intros p r Hp. destruct (sh_node _ _ _ _ Hs _ _ Hp) as (n & Hpn & Hl). destruct (He _ _ _ Hp Hpn) as (n' & Hn' & Hl' & _). exists n'. by rewrite Hl'.
  - apply (sh_range _ _ _ _ Hs).
  - intros p r Hp Hne. destruct (sh_up _ _ _ _ Hs _ _ Hp Hne) as (g & rg & gn & i & Hg & Hgn & Hh & Hi).
    destruct (He _ _ _ Hg Hgn) as (gn' & Hgn' & _ & _ & Hk & _). exists g, rg, gn', i. by rewrite Hk.
  - intros p r n' Hp Hn' Hh. destruct (He' _ _ _ Hp Hn') as (n & Hpn & _ & _ & Hk & _).
    destruct (sh_kids _ _ _ _ Hs _ _ _ Hp Hpn Hh) as [Hne Hks]. specialize (Hk Hh). split.
    { intros E. apply Hne, length_zero_iff_nil. by rewrite <-length_kids, <-Hk, length_kids, E. }
    intros i c. rewrite Hk. intros Hc. destruct (Hks _ _ Hc) as (rc & cn & Hrc & Hcn & Hpar & Hht & Hlo & Hhi).
    destruct (He _ _ _ Hrc Hcn) as (cn' & Hcn' & _ & Hpar' & _). exists rc, cn'. rewrite Hpar'.
    split_and!; try done. unfold next_lo. by rewrite Hk.
  - intros p r n' Hp Hn' Hh. destruct (He' _ _ _ Hp Hn') as (n & _ & _ & _ & _ & Hl). by apply Hl.
Qed.

(** A leaf gets other entries. *)
Lemma same_kids_leaf h ns G H p r n es : shape h ns G H → G !! p = Some r → ns !! p = Some n → ht r = 0%nat → leaf_ok r es →
  same_kids ns (<[p := set_pairs es n]> ns) G.
Proof.
  intros Hs Hp Hn Hh Hes q rq nq Hq Hnq. destruct (decide (q = p)) as [->|Hne].
  - simplify_eq. exists (set_pairs es n). rewrite lookup_insert_eq. split_and!; try done. lia.
  - exists nq. rewrite lookup_insert_ne by done. split_and!; try done. by eapply (sh_leaf _ _ _ _ Hs).
Qed.

Lemma keys_leaf K ns G p r n es : G !! p = Some r → ns !! p = Some n → ht r = 0%nat →
  keys_are K ns G → keys_are K (<[p := set_pairs es n]> ns) G.
Proof.
  intros Hp Hn Hh HK q rq nq i e rc Hq Hhq Hnq. destruct (decide (q = p)) as [->|Hne]; [simplify_eq; lia|].
  rewrite lookup_insert_ne in Hnq by done. by eapply HK.
Qed.

Lemma links_leaf h ns G p r n es : G !! p = Some r → ns !! p = Some n → links h ns G → links h (<[p := set_pairs es n]> ns) G.
Proof.
  intros Hp Hn HL q rq nq Hq Hnq Hh. destruct (decide (q = p)) as [->|Hne].
  - rewrite lookup_insert_eq in Hnq. simplify_eq. apply (HL _ _ _ Hp Hn Hh).
  - rewrite lookup_insert_ne in Hnq by done. by apply HL.
Qed.

Lemma sizes_leaf mx ns G p r n es : sizes mx ns G None → G !! p = Some r → ns !! p = Some n → Z.of_nat (length es) ≤ mx →
  sizes mx (<[p := set_pairs es n]> ns) G (Some p).
Proof.
  intros HS Hp Hn Hl q rq nq Hq Hnq. destruct (decide (q = p)) as [->|Hne].
  - rewrite lookup_insert_eq in Hnq. simplify_eq. simpl. destruct (decide (Z.of_nat (length es) = mx)); [by right|left; lia].
  - rewrite lookup_insert_ne in Hnq by done. destruct (HS _ _ _ Hq Hnq) as [?|[? _]]; [by left|done].
Qed.

Lemma sizes_small mx ns G p n : sizes mx ns G (Some p) → ns !! p = Some n → Z.of_nat (length (pairs n)) < mx → sizes mx ns G None.
Proof.
  intros HS Hn Hl q rq nq Hq Hnq. destruct (HS _ _ _ Hq Hnq) as [?|[E E2]]; [by left|]. injection E as ->. simplify_eq. lia.
Qed.

(** ** Raising a separator *)

Definition subst_key (b b' : key) (o : option key) : option key := if decide (o = Some b) then Some b' else o.
Definition subst_range (b b' : key) r : range := mk_range (subst_key b b' (lo r)) (subst_key b b' (hi r)) (ht r).

Lemma subst_None b b' : subst_key b b' None = None.
Proof. done. Qed.
Lemma subst_eq b b' : subst_key b b' (Some b) = Some b'.
Proof. unfold subst_key. by rewrite decide_True. Qed.
Lemma subst_is_Some b b' o : is_Some o → is_Some (subst_key b b' o).
Proof. unfold subst_key. case_decide; [eauto|done]. Qed.
Lemma subst_cases b b' o x : subst_key b b' o = Some x → (o = Some b ∧ x = b') ∨ (o = Some x ∧ x ≠ b).
Proof. unfold subst_key. case_decide; [naive_solver|]. intros ->. right. split; congruence. Qed.

Lemma subst_lookup b b' G p r : (subst_range b b' <$> G) !! p = Some r ↔ ∃ r0, G !! p = Some r0 ∧ r = subst_range b b' r0.
Proof. rewrite lookup_fmap, fmap_Some. done. Qed.

Lemma upto_subst b b' z u : rank b ≤ rank b' → upto z u → upto z (subst_key b b' u).
Proof. intros Hb. unfold subst_key. case_decide; [subst; simpl; lia|done]. Qed.

Section raise.
Context {h ns G H} (Hs : shape h ns G H).
Context {p r n} {b b' : key} (Hp : G !! p = Some r) (Hn : ns !! p = Some n) (Hh : ht r = 0%nat) (Hlo : lo r = Some b).
Context (Hb : rank b ≤ rank b') (Hv : valid b') (Hu : upto (rank b') (hi r)).

Lemma raise_within q r' : G !! q = Some r' → lo r' = Some b → within (rank b') r'.
Proof.
  intros Hq Hl. eapply (lo_above Hs p r q r' b); try done; [lia|]. split; [by rewrite Hlo|done].
Qed.

Lemma raise_range r' q : G !! q = Some r' → range_ok (subst_range b b' r').
Proof.
  intros Hq. pose proof (sh_range _ _ _ _ Hs _ _ Hq) as [[H1 H2] _]. split; simpl.
  - intros x [[El ->]|[El Hne]]%subst_cases.
    + split; [done|]. apply upto_subst; [done|]. by apply (raise_within _ _ Hq El).
    + destruct (H1 _ El) as [? ?]. split; [done|]. by apply upto_subst.
  - intros x [[El ->]|[El Hne]]%subst_cases; [done|by apply H2].
Qed.

Lemma raise_shape : (∀ e, e ∈ pairs n → rank b' ≤ rank e.1) → shape h ns (subst_range b b' <$> G) H.
Proof.
  intros Hes. split.
  - rewrite lookup_fmap, (sh_root _ _ _ _ Hs). done.
  - apply (sh_root_parent _ _ _ _ Hs).
  - intros q r' (r0 & Hq & ->)%subst_lookup. by eapply (sh_page _ _ _ _ Hs).
  - intros q r' (r0 & Hq & ->)%subst_lookup. apply (sh_node _ _ _ _ Hs _ _ Hq).
  - intros q r' (r0 & Hq & ->)%subst_lookup. split; [by eapply raise_range|]. apply (sh_range _ _ _ _ Hs _ _ Hq).
  - intros q r' (r0 & Hq & ->)%subst_lookup Hne. destruct (sh_up _ _ _ _ Hs _ _ Hq Hne) as (g & rg & gn & i & Hg & Hgn & Hhg & Hi).
    exists g, (subst_range b b' rg), gn, i. split_and!; try done. apply subst_lookup. eauto.
  - intros q r' nq (r0 & Hq & ->)%subst_lookup Hnq Hhq. destruct (sh_kids _ _ _ _ Hs _ _ _ Hq Hnq Hhq) as [Hne Hks].
    split; [done|]. intros i c Hc. destruct (Hks _ _ Hc) as (rc & cn & Hrc & Hcn & Hpar & Hht & Hl & Hhi).
    exists (subst_range b b' rc), cn. split_and!; [apply subst_lookup; eauto|done..| |].
    + simpl. case_decide; [by rewrite Hl|by apply subst_is_Some].
    + simpl. rewrite Hhi. unfold next_lo. destruct (kids nq !! S i) as [c'|]; [|done].
      unfold lo_of. rewrite lookup_fmap. by destruct (G !! c').
  - intros q r' nq (r0 & Hq & ->)%subst_lookup Hnq Hhq. simpl in Hhq. destruct (sh_leaf _ _ _ _ Hs _ _ _ Hq Hnq Hhq) as [Hso Hin].
    split; [done|]. intros e He. destruct (Hin _ He) as [Hve [Hf Hup]]. split; [done|]. split; simpl; [|by apply upto_subst].
    unfold subst_key. case_decide as El; [|done]. assert (q = p) as -> by (eapply (same_lo Hs q p r0 r b); try done; congruence).
    simplify_eq. by apply Hes.
Qed.
End raise.

Lemma raise_links h ns G b b' : links h ns G → links h ns (subst_range b b' <$> G).
Proof.
  intros HL q r' n (r0 & Hq & ->)%subst_lookup Hn Hh. simpl in Hh. destruct (HL _ _ _ Hq Hn Hh) as [Hx Hy].
  unfold next_ok, prev_ok in *. simpl. split.
  - destruct (hi r0) as [u|]; [|by rewrite subst_None]. destruct Hx as (Hl & r1 & H1 & H2 & H3).
    destruct (subst_is_Some b b' (Some u) ltac:(done)) as [x Ex]. rewrite Ex. split; [done|].
    exists (subst_range b b' r1). split_and!; [apply subst_lookup; eauto|done|]. simpl. by rewrite H3.
  - destruct (lo r0) as [u|]; [|by rewrite subst_None]. destruct Hy as (Hl & r1 & H1 & H2 & H3).
    destruct (subst_is_Some b b' (Some u) ltac:(done)) as [x Ex]. rewrite Ex. split; [done|].
    exists (subst_range b b' r1). split_and!; [apply subst_lookup; eauto|done|]. simpl. by rewrite H3.
Qed.

Lemma raise_sizes mx ns G x b b' : sizes mx ns G x → sizes mx ns (subst_range b b' <$> G) x.
Proof. intros HS q r' n (r0 & Hq & ->)%subst_lookup Hn. by apply (HS q r0). Qed.

Lemma raise_holds ns G b b' e : holds ns (subst_range b b' <$> G) e ↔ holds ns G e.
Proof.
  split.
  - intros (q & r' & n & (r0 & Hq & ->)%subst_lookup & Hrest). by exists q, r0, n.
  - intros (q & r0 & n & Hq & Hrest). exists q, (subst_range b b' r0), n. split; [apply subst_lookup; eauto|done].
Qed.

(** ** Carrying a raised separator upwards

    While [maintain_parent] is at a node of range [r], the parents of the pages on its level
    and above whose ranges begin where [r] begins still have the old separator [b]. *)
Definition lag (b : key) r rc (k : key) : Prop :=
  ∀ x, lo rc = Some x → k = (if decide ((ht r ≤ ht rc)%nat ∧ lo rc = lo r) then b else x).

Lemma ok_lag ns G r : keys_ok ns G → ∃ b, keys_are (lag b r) ns G.
Proof.
  intros HK. exists (default [] (lo r)). intros p rp n i e rc Hp Hh Hn He Hc x Hx.
  rewrite (HK _ _ _ _ _ _ Hp Hh Hn He Hc x Hx). case_decide as E; [|done]. destruct E as [_ E]. rewrite <-E, Hx. done.
Qed.

Lemma lag_ok b r ns G : keys_are (lag b r) ns G → (∀ x, lo r = Some x → x = b) → keys_ok ns G.
Proof.
  intros HK Hb p rp n i e rc Hp Hh Hn He Hc x Hx. rewrite (HK _ _ _ _ _ _ Hp Hh Hn He Hc x Hx).
  case_decide as E; [|done]. destruct E as [_ E]. symmetry. apply Hb. congruence.
Qed.

Section upwards.
Context {h ns G H} (Hs : shape h ns G H).

(** Below a page there are pages that begin where it begins. *)
Lemma lo_down d : ∀ p r b, G !! p = Some r → lo r = Some b → (d ≤ ht r)%nat →
  ∃ q r', G !! q = Some r' ∧ lo r' = Some b ∧ ht r' = (ht r - d)%nat.
Proof.
  induction d as [|d IH]; intros p r b Hp Hl Hd; [exists p, r; split_and!; [done..|lia]|].
  destruct (IH p r b Hp Hl ltac:(lia)) as (q & r1 & Hq & Hl1 & Hh1). destruct (sh_node _ _ _ _ Hs _ _ Hq) as (n & Hn & _).
  destruct (sh_kids _ _ _ _ Hs _ _ _ Hq Hn ltac:(lia)) as [Hne Hk]. destruct (pairs n) as [|e l] eqn:E; [done|].
  destruct (Hk 0%nat (page_no e.2)) as (rc & cn & Hc & _ & _ & Hht & Hlo & _).
  { apply kids_lookup. exists e. by rewrite E. }
  simpl in Hlo. exists (page_no e.2), rc. split_and!; [done|congruence|lia].
Qed.

(** A page above [p] begins at [b] if it has [b] at all and some page as high begins there. *)
Lemma lo_level p r q r' b : G !! p = Some r → G !! q = Some r' → (ht r ≤ ht r')%nat →
  within (rank b) r → lo r' = Some b → lo r = Some b.
Proof.
  intros Hp Hq Hh Hw Hl. destruct (lo_down (ht r' - ht r) q r' b Hq Hl ltac:(lia)) as (d & rd & Hd & Hld & Hhd).
  assert (d = p) as ->; [|by simplify_eq].
  eapply (same_page Hs d p rd r (rank b)); [done..|lia| |done]. eapply range_ne; [|done]. by eapply (sh_range _ _ _ _ Hs).
Qed.

Lemma raise_lag p r n b b' : G !! p = Some r → ns !! p = Some n → ht r = 0%nat → lo r = Some b →
  rank b ≤ rank b' → upto (rank b') (hi r) → keys_ok ns G →
  keys_are (lag b (subst_range b b' r)) ns (subst_range b b' <$> G).
Proof.
  intros Hp Hn Hh Hl Hb Hu HK q rq nq i e rc (rq0 & Hq & ->)%subst_lookup Hhq Hnq He (rc0 & Hc & ->)%subst_lookup x.
  simpl in *. rewrite Hl, subst_eq. intros [[El ->]|[El Hne]]%subst_cases.
  - rewrite (HK _ _ _ _ _ _ Hq Hhq Hnq He Hc b El), El, subst_eq. rewrite decide_True by (split; [lia|done]). done.
  - rewrite (HK _ _ _ _ _ _ Hq Hhq Hnq He Hc x El). case_decide as E; [|done]. destruct E as [_ E].
    rewrite El in E. unfold subst_key in E. rewrite decide_False in E by congruence. injection E as ->.
    assert (lo r = Some b') as Hl' by (eapply (lo_level p r (page_no e.2) rc0); try done; [lia|]; split; [by rewrite Hl|done]).
    congruence.
Qed.

(** The pair of [p] in its parent is the only one that leads to [p]. *)
Lemma pair_unique p r g rg gn (i : nat) e q rq nq (j : nat) e' :
  G !! p = Some r → G !! g = Some rg → ns !! g = Some gn → (0 < ht rg)%nat → pairs gn !! i = Some e → page_no e.2 = p →
  G !! q = Some rq → ns !! q = Some nq → (0 < ht rq)%nat → pairs nq !! j = Some e' → page_no e'.2 = p → q = g ∧ j = i.
Proof.
  intros Hp Hg Hgn Hh Hi He Hq Hnq Hhq Hj He'.
  assert (kids gn !! i = Some p) as K1 by (apply kids_lookup; eauto).
  assert (kids nq !! j = Some p) as K2 by (apply kids_lookup; eauto).
  destruct (kid Hs Hg Hgn Hh _ _ K1) as (? & ? & ? & ? & P1 & _).
  destruct (kid Hs Hq Hnq Hhq _ _ K2) as (? & ? & ? & ? & P2 & _). simplify_eq. split; [done|].
  destruct (range_inhabited r) as [z Hz]; [by apply (sh_range _ _ _ _ Hs _ _ Hp)|].
  by eapply (kid_unique Hs Hg Hgn Hh j i).
Qed.

Definition set_key (i : nat) (k : key) (e : entry) n : IxNode := set_pairs (<[i := (k, e.2)]> (pairs n)) n.

Lemma set_key_kids i k e n : pairs n !! i = Some e → kids (set_key i k e n) = kids n.
Proof.
  intros Hi. unfold kids, set_key. simpl. rewrite list_fmap_insert. simpl. apply list_insert_id.
  by rewrite list_lookup_fmap, Hi.
Qed.

Lemma set_key_same g rg gn i e k : G !! g = Some rg → (0 < ht rg)%nat → ns !! g = Some gn → pairs gn !! i = Some e →
  same_kids ns (<[g := set_key i k e gn]> ns) G.
Proof.
  intros Hg Hh Hgn Hi q rq nq Hq Hnq. destruct (decide (q = g)) as [->|Hne].
  - simplify_eq. exists (set_key i k e gn). rewrite lookup_insert_eq. split_and!; try done; [|lia]. intros _. by apply set_key_kids.
  - exists nq. rewrite lookup_insert_ne by done. split_and!; try done. by eapply (sh_leaf _ _ _ _ Hs).
Qed.

(** A pair of the changed nodes is a pair of the nodes before, or the changed one. *)
Lemma set_key_pair g gn i e k q nq j e' : ns !! g = Some gn → pairs gn !! i = Some e →
  <[g := set_key i k e gn]> ns !! q = Some nq → pairs nq !! j = Some e' →
  (q = g ∧ j = i ∧ e' = (k, e.2)) ∨ (¬ (q = g ∧ j = i) ∧ ∃ nq', ns !! q = Some nq' ∧ pairs nq' !! j = Some e').
Proof.
  intros Hgn Hi Hq Hj. destruct (decide (q = g)) as [->|Hne].
  - rewrite lookup_insert_eq in Hq. simplify_eq. unfold set_key in Hj. simpl in Hj. destruct (decide (j = i)) as [->|Hji].
    + rewrite list_lookup_insert_eq in Hj by (by eapply lookup_lt_Some). simplify_eq. by left.
    + rewrite list_lookup_insert_ne in Hj by done. right. split; [naive_solver|]. eauto.
  - rewrite lookup_insert_ne in Hq by done. right. split; [naive_solver|]. eauto.
Qed.

Section step.
Context {p r g rg gn} {i : nat} {e : entry} {b f : key} (Hp : G !! p = Some r) (Hg : G !! g = Some rg) (Hgn : ns !! g = Some gn).
Context (Hh : ht rg = S (ht r)) (Hi : pairs gn !! i = Some e) (He : page_no e.2 = p).
Context (HK : keys_are (lag b r) ns G) (Hf : ∀ x, lo r = Some x → f = x).

(** The loop ends when the parent has the key already. *)
Lemma lag_stop : e.1 = f → keys_ok ns G.
Proof.
  intros Ef. eapply lag_ok; [done|]. intros x Hx. rewrite <-(Hf x Hx), <-Ef.
  rewrite (HK g rg gn i e r Hg ltac:(lia) Hgn Hi ltac:(by rewrite He) x Hx). by rewrite decide_True.
Qed.

(** Otherwise the parent is changed, and is the next node. *)
Lemma lag_step : ∃ b', keys_are (lag b' rg) (<[g := set_key i f e gn]> ns) G.
Proof.
  assert (∀ q rq nq j e' rc x, G !! q = Some rq → (0 < ht rq)%nat → <[g := set_key i f e gn]> ns !! q = Some nq →
    pairs nq !! j = Some e' → G !! page_no e'.2 = Some rc → lo rc = Some x →
    e'.1 = x ∨ (e'.1 = b ∧ lo r = Some x ∧ (ht rg ≤ ht rc)%nat ∧ lo rg = Some x)) as Hnew.
  { intros q rq nq j e' rc x Hq Hhq Hnq Hj Hc Hx.
    destruct (set_key_pair _ _ _ _ _ _ _ _ _ Hgn Hi Hnq Hj) as [(-> & -> & ->)|(Hne & nq' & Hnq' & Hj')].
    { simpl in *. rewrite He, Hp in Hc. simplify_eq. left. by apply Hf. }
    rewrite (HK _ _ _ _ _ _ Hq Hhq Hnq' Hj' Hc x Hx). case_decide as E; [|by left]. destruct E as [E1 E2]. right.
    assert (ht r ≠ ht rc) as Hhne.
    { intros Eh. assert (page_no e'.2 = p) as E3 by (eapply (same_lo Hs _ p rc r x); try done; congruence).
      apply Hne. by eapply (pair_unique p r g rg gn i e q rq nq' j e'); try done; lia. }
    split_and!; [done|congruence|lia|]. eapply (lo_level g rg _ rc); [done..|lia| |done].
    eapply (kid_within Hs Hg Hgn ltac:(lia) i p); [apply kids_lookup; eauto|done|].
    apply range_ne; [by apply (sh_range _ _ _ _ Hs _ _ Hp)|congruence]. }
  destruct (decide (lo rg = lo r)) as [El|Hnl].
  - exists b. intros q rq nq j e' rc Hq Hhq Hnq Hj Hc x Hx. case_decide as E.
    + destruct E as [E1 E2]. destruct (set_key_pair _ _ _ _ _ _ _ _ _ Hgn Hi Hnq Hj) as [(-> & -> & ->)|(Hne & nq' & Hnq' & Hj')].
      { simpl in *. rewrite He, Hp in Hc. simplify_eq. lia. }
      rewrite (HK _ _ _ _ _ _ Hq Hhq Hnq' Hj' Hc x Hx). rewrite decide_True; [done|split; [lia|congruence]].
    + destruct (Hnew _ _ _ _ _ _ _ Hq Hhq Hnq Hj Hc Hx) as [?|(_ & ? & ? & ?)]; [done|]. destruct E. split; [done|congruence].
  - apply ok_lag. intros q rq nq j e' rc Hq Hhq Hnq Hj Hc x Hx.
    destruct (Hnew _ _ _ _ _ _ _ Hq Hhq Hnq Hj Hc Hx) as [?|(_ & ? & ? & ?)]; [done|]. congruence.
Qed.

(** The first key of the next node is the lower end of its range. *)
Lemma first_step e0 x : pairs (set_key i f e gn) !! 0%nat = Some e0 → lo rg = Some x → e0.1 = x.
Proof.
  intros H0 Hx. assert (kids gn !! 0%nat = Some (page_no e0.2)) as K0.
  { rewrite <-(set_key_kids i f e gn Hi). apply kids_lookup. eauto. }
  destruct (kid Hs Hg Hgn ltac:(lia) _ _ K0) as (rc & _ & Hc & _ & _ & Hht & Hl & _). simpl in Hl.
  destruct lag_step as [b' HK']. specialize (HK' g rg _ 0%nat e0 rc Hg ltac:(lia) (lookup_insert_eq _ _ _) H0 Hc x ltac:(congruence)).
  rewrite decide_False in HK' by lia. done.
Qed.
End step.
End upwards.
End tree.
End IxTree.
