(* ===== verification/IndexSplit.v ===== *)
(** * Splitting a node of a B+ tree

    A node is split in two, with the key of the first moved entry as the separator, and its
    parent gets a pair for the new node; a tree grows by a new root above the old one.  The
    nodes after the change are described by what they have to hold, since the code writes
    them one field at a time. *)

From S2P Require Import Prelude RecordFile Conditions Index IndexTree.

Module IxSplit.
Import RecFile Cond Ix IxTree.

(** Two lookups of one page give the same. *)
Ltac agree :=
  repeat match goal with
         | H1 : ?m !! ?x = Some ?a, H2 : ?m !! ?x = Some ?b |- _ =>
             is_var b; let E := fresh in assert (b = a) as E by congruence; clear H2; subst b
         | H2 : ?m !! ?x = Some _, H1 : ?m !! ?x = None |- _ => exfalso; congruence
         end.

Section split.
Context {cmp : key → key → comparison} `{KO : !KeyOrder cmp}.
Implicit Types (x c : Z) (rc rx : range) (nx : IxNode) (j : nat).

Context {h h' : IxFileHdr} {ns ns' : gmap Z IxNode} {G : gmap Z range} {H : nat}.
Context (Hs : shape h ns G H) (HK : keys_ok ns G).

(** The node [p], the [i]-th child of [g], is split at [mid]; [q] is the new page. *)
Context {p q g : Z} {r rg : range} {n gn : IxNode} {i mid : nat} {ek : key * Rid}.
Context (Hp : G !! p = Some r) (Hn : ns !! p = Some n) (Hg : G !! g = Some rg) (Hgn : ns !! g = Some gn).
Context (Hi : kids gn !! i = Some p) (Hhg : (0 < ht rg)%nat) (Hpr : p ≠ root_page_ h).
Context (Hmid : (0 < mid)%nat) (Hek : pairs n !! mid = Some ek) (Hq : G !! q = None) (Hq2 : 2 ≤ q < num_pages_ h').
Context (Hroot : root_page_ h' = root_page_ h) (Hnum : num_pages_ h ≤ num_pages_ h').

Abbreviation k := (ek.1).
Definition left_range : range := mk_range (lo r) (Some k) (ht r).
Definition right_range : range := mk_range (Some k) (hi r) (ht r).
Definition split_ranges : gmap Z range := <[q := right_range]> (<[p := left_range]> G).

(** The nodes after the split. *)
Definition moved c : Prop := (0 < ht r)%nat ∧ c ∈ drop mid (kids n).
#[local] Instance moved_dec c : Decision (moved c) := _.

Context {np nq gn' : IxNode}.
Context (Hq' : ns' !! q = Some nq) (Hqp : parent nq = g) (Hql : is_leaf nq = is_leaf n) (Hqe : pairs nq = drop mid (pairs n)).
Context (Hp' : ns' !! p = Some np) (Hpp : parent np = g) (Hpl : is_leaf np = is_leaf n) (Hpe : pairs np = take mid (pairs n)).
Context (Hg' : ns' !! g = Some gn') (Hgp : parent gn' = parent gn) (Hgl : is_leaf gn' = is_leaf gn)
  (Hge : pairs gn' = insert_pairs (i + 1) [(k, child_rid q)] (pairs gn)).
Context (Ho' : ∀ x nx, x ≠ p → x ≠ q → x ≠ g → ns !! x = Some nx → ∃ nx', ns' !! x = Some nx' ∧
  pairs nx' = pairs nx ∧ is_leaf nx' = is_leaf nx ∧ parent nx' = if decide (moved x) then q else parent nx).

(** ** Heights and pages *)

Lemma split_parent : parent n = g ∧ ht rg = S (ht r).
Proof. destruct (kid Hs Hg Hgn Hhg _ _ Hi) as (rc & cn & ? & ? & ? & ? & _). by agree. Qed.

Lemma split_ne : p ≠ q ∧ g ≠ p ∧ g ≠ q.
Proof. destruct split_parent as [_ E]. split_and!; intros E0.
  - congruence.
  - rewrite E0 in Hg. assert (rg = r) by congruence. subst rg. lia.
  - congruence.
Qed.

Lemma ranges_p : split_ranges !! p = Some left_range.
Proof. destruct split_ne as (? & _). unfold split_ranges. by rewrite lookup_insert_ne, lookup_insert_eq. Qed.
Lemma ranges_q : split_ranges !! q = Some right_range.
Proof. apply lookup_insert_eq. Qed.
Lemma ranges_other x : x ≠ p → x ≠ q → split_ranges !! x = G !! x.
Proof. intros. unfold split_ranges. by rewrite !lookup_insert_ne. Qed.

Lemma ranges_cases x rx : split_ranges !! x = Some rx →
  (x = q ∧ rx = right_range) ∨ (x = p ∧ rx = left_range) ∨ (x ≠ p ∧ x ≠ q ∧ G !! x = Some rx).
Proof.
  destruct (decide (x = q)) as [->|]; [rewrite ranges_q; intros [= <-]; by left|].
  destruct (decide (x = p)) as [->|]; [rewrite ranges_p; intros [= <-]; right; by left|].
  rewrite ranges_other by done. intros Hx. by right; right.
Qed.

(** Every page begins where it did. *)
Lemma ranges_lo x : x ≠ q → lo_of split_ranges x = lo_of G x.
Proof.
  intros Hx. unfold lo_of. destruct (decide (x = p)) as [->|]; [by rewrite ranges_p, Hp|by rewrite ranges_other].
Qed.

Lemma kids_np : kids np = take mid (kids n).
Proof. unfold kids. by rewrite Hpe, fmap_take. Qed.
Lemma kids_nq : kids nq = drop mid (kids n).
Proof. unfold kids. by rewrite Hqe, fmap_drop. Qed.
Lemma kids_gn : kids gn' = take (i + 1) (kids gn) ++ q :: drop (i + 1) (kids gn).
Proof. unfold kids. rewrite Hge. unfold insert_pairs. by rewrite !fmap_app, fmap_take, fmap_drop. Qed.

Lemma kids_gn_le j : (j ≤ i)%nat → kids gn' !! j = kids gn !! j.
Proof.
  intros. apply lookup_lt_Some in Hi as Hl. rewrite kids_gn, lookup_app_l by (rewrite length_take; lia). by apply lookup_take_lt; lia.
Qed.
Lemma kids_gn_q : kids gn' !! S i = Some q.
Proof.
  apply lookup_lt_Some in Hi as Hl. rewrite kids_gn, lookup_app_r by (rewrite length_take; lia).
  rewrite length_take. by replace (S i - (i + 1) `min` length (kids gn))%nat with 0%nat by lia.
Qed.
Lemma kids_gn_gt j : (i < j)%nat → kids gn' !! S j = kids gn !! j.
Proof.
  intros. apply lookup_lt_Some in Hi as Hl. rewrite kids_gn, lookup_app_r by (rewrite length_take; lia).
  rewrite length_take. replace (S j - (i + 1) `min` length (kids gn))%nat with (S (j - S i)) by lia. simpl.
  rewrite lookup_drop. f_equal. lia.
Qed.

(** A child that is [p] is the [i]-th one of [g]. *)
Lemma kid_is_p x rx nx j : G !! x = Some rx → ns !! x = Some nx → (0 < ht rx)%nat → kids nx !! j = Some p → x = g ∧ j = i.
Proof.
  intros Hx Hnx Hh (e' & Hj & He')%kids_lookup. apply kids_lookup in Hi as (e & Hie & He).
  by eapply (pair_unique Hs p r g rg gn i e x rx nx j e').
Qed.
Lemma kid_not_q x rx nx j c : G !! x = Some rx → ns !! x = Some nx → (0 < ht rx)%nat → kids nx !! j = Some c → c ≠ q.
Proof. intros Hx Hnx Hh Hj ->. destruct (kid Hs Hx Hnx Hh _ _ Hj) as (? & ? & ? & _). congruence. Qed.
Lemma kid_unmoved x rx nx j c : G !! x = Some rx → ns !! x = Some nx → (0 < ht rx)%nat → kids nx !! j = Some c →
  x ≠ p ∨ (j < mid)%nat → ¬ moved c.
Proof.
  intros Hx Hnx Hh Hj Hor [Hr [j' Hj']%list_elem_of_lookup]. rewrite lookup_drop in Hj'.
  apply kids_lookup in Hj as (e & Hje & He). apply kids_lookup in Hj' as (e' & Hje' & He').
  assert (kids nx !! j = Some c) as Hj by (apply kids_lookup; eauto). destruct (kid Hs Hx Hnx Hh _ _ Hj) as (rc & _ & Hc & _).
  destruct (pair_unique Hs c rc x rx nx j e p r n (mid + j') e') as [? ?]; try done. destruct Hor; [done|lia].
Qed.

(** ** The separator *)

Lemma sep_kid c rc : (0 < ht r)%nat → kids n !! mid = Some c → G !! c = Some rc → lo rc = Some k.
Proof.
  intros Hh Hc Hrc. destruct (kid Hs Hp Hn Hh _ _ Hc) as (? & ? & ? & _ & _ & _ & Hl & _). agree.
  rewrite decide_False in Hl by lia. destruct Hl as [b Hb]. apply kids_lookup in Hc as (e & He & Ec).
  assert (e = ek) as -> by congruence.
  rewrite Hb. f_equal. symmetry. apply (HK p r n mid ek rc Hp Hh Hn Hek); [by rewrite Ec|done].
Qed.

Lemma sep_ok : valid k ∧ upto (rank k) (hi r) ∧ ∀ b, lo r = Some b → rank b < rank k.
Proof.
  destruct (decide (ht r = 0%nat)) as [Hh|Hh].
  - destruct (sh_leaf _ _ _ _ Hs _ _ _ Hp Hn Hh) as [Hso Hin].
    destruct (Hin ek) as [Hv [_ Hu]]; [by eapply list_elem_of_lookup_2|]. split_and!; [done..|]. intros b Hb.
    destruct (lookup_lt_is_Some_2 (pairs n) 0) as [e0 He0]; [apply lookup_lt_Some in Hek; lia|].
    destruct (Hin e0) as [_ [Hf _]]; [by eapply list_elem_of_lookup_2|]. rewrite Hb in Hf. simpl in Hf.
    pose proof (Hso 0%nat mid e0 ek Hmid He0 Hek). lia.
  - assert (0 < ht r)%nat as Hh' by lia. assert (kids n !! mid = Some (page_no ek.2)) as Hc by (apply kids_lookup; eauto).
    destruct (kid Hs Hp Hn Hh' _ _ Hc) as (rc & _ & Hrc & _). pose proof (sep_kid _ _ Hh' Hc Hrc) as Hl.
    destruct (sh_range _ _ _ _ Hs _ _ Hrc) as [Hr _]. pose proof (range_ne _ _ Hr Hl) as Hw.
    destruct Hr as [Hr _]. destruct (Hr _ Hl) as [Hv _]. split_and!; [done| |].
    { by apply (kid_within Hs Hp Hn Hh' _ _ _ _ Hc Hrc Hw). }
    intros b Hb. destruct (lookup_lt_is_Some_2 (kids n) 0) as [c0 Hc0]; [apply lookup_lt_Some in Hc; lia|].
    destruct (kid Hs Hp Hn Hh' _ _ Hc0) as (r0 & _ & Hr0 & _ & _ & _ & Hl0 & _). simpl in Hl0.
    replace mid with (0 + S (mid - 1))%nat in Hc by lia.
    destruct (kids_order Hs Hp Hn Hh' _ _ _ _ _ _ Hc0 Hc Hr0 Hrc) as (u & u' & Hu & Hu' & Hle).
    destruct (sh_range _ _ _ _ Hs _ _ Hr0) as [Hr1 _]. destruct (range_ne _ b Hr1 ltac:(congruence)) as [_ Hub].
    rewrite Hu in Hub. simpl in Hub. assert (u' = k) by congruence. subst u'. lia.
Qed.

(** ** The shape after the split *)

Lemma split_range_ok x rx : split_ranges !! x = Some rx → range_ok rx ∧ (ht rx ≤ H)%nat.
Proof.
  destruct sep_ok as (Hv & Hu & Hl). destruct (sh_range _ _ _ _ Hs _ _ Hp) as [[R1 R2] Hle].
  intros [[-> ->]|[[-> ->]|(_ & _ & Hx)]]%ranges_cases; [| |by apply (sh_range _ _ _ _ Hs _ _ Hx)]; split; try done; split; simpl.
  - intros b [= <-]. by split.
  - done.
  - intros b Hb. split; [by apply R1|]. simpl. by apply Hl.
  - by intros b [= <-].
Qed.

Lemma split_nodes x rx : split_ranges !! x = Some rx → ∃ nx', ns' !! x = Some nx' ∧ is_leaf nx' = bool_decide (ht rx = 0%nat).
Proof.
  destruct (sh_node _ _ _ _ Hs _ _ Hp) as (n0 & Hn0 & Hl0). destruct (sh_node _ _ _ _ Hs _ _ Hg) as (g0 & Hg0 & Hlg).
  rewrite Hn in Hn0. injection Hn0 as <-. rewrite Hgn in Hg0. injection Hg0 as <-.
  intros [[-> ->]|[[-> ->]|(Hxp & Hxq & Hx)]]%ranges_cases; [exists nq; by rewrite Hql|exists np; by rewrite Hpl|].
  destruct (decide (x = g)) as [->|Hxg]; [rewrite Hg in Hx; injection Hx as <-; exists gn'; by rewrite Hgl|].
  destruct (sh_node _ _ _ _ Hs _ _ Hx) as (nx & Hnx & Hlx). destruct (Ho' _ _ Hxp Hxq Hxg Hnx) as (nx' & Hnx' & _ & Hl & _).
  exists nx'. by rewrite Hl.
Qed.

Lemma split_up x rx : split_ranges !! x = Some rx → x ≠ root_page_ h →
  ∃ g0 r0 gn0 j, split_ranges !! g0 = Some r0 ∧ ns' !! g0 = Some gn0 ∧ (0 < ht r0)%nat ∧ kids gn0 !! j = Some x.
Proof.
  destruct split_ne as (Hpq & Hgp' & Hgq). destruct split_parent as [_ Hht].
  intros [[-> ->]|[[-> ->]|(Hxp & Hxq & Hx)]]%ranges_cases Hxr.
  - exists g, rg, gn', (S i). rewrite ranges_other by done. split_and!; try done. apply kids_gn_q.
  - exists g, rg, gn', i. rewrite ranges_other by done. split_and!; try done. by rewrite kids_gn_le.
  - destruct (sh_up _ _ _ _ Hs _ _ Hx Hxr) as (g0 & r0 & gn0 & j & Hg0 & Hgn0 & Hh0 & Hj).
    destruct (decide (g0 = p)) as [->|Hgp0]; [|destruct (decide (g0 = g)) as [->|Hgg]].
    + agree. destruct (decide (j < mid)%nat).
      * exists p, left_range, np, j. rewrite ranges_p, kids_np. split_and!; try done. by rewrite lookup_take_lt.
      * exists q, right_range, nq, (j - mid)%nat. rewrite ranges_q, kids_nq, lookup_drop. split_and!; try done.
        by replace (mid + (j - mid))%nat with j by lia.
    + agree. destruct (decide (j ≤ i)%nat).
      * exists g, rg, gn', j. rewrite ranges_other, kids_gn_le by done. done.
      * exists g, rg, gn', (S j). rewrite ranges_other by done. rewrite kids_gn_gt by lia. done.
    + assert (g0 ≠ q) as Hgq0 by congruence. destruct (Ho' _ _ Hgp0 Hgq0 Hgg Hgn0) as (gn1 & Hgn1 & He1 & _).
      exists g0, r0, gn1, j. rewrite ranges_other by done. split_and!; try done. unfold kids. by rewrite He1.
Qed.

(** A child that stays with its parent. *)
Lemma kid_stays x rx nx j c : G !! x = Some rx → ns !! x = Some nx → (0 < ht rx)%nat → kids nx !! j = Some c →
  c ≠ p → x ≠ p ∨ (j < mid)%nat → ∃ rc cn, G !! c = Some rc ∧ split_ranges !! c = Some rc ∧ ns' !! c = Some cn ∧ parent cn = x ∧
    ht rx = S (ht rc) ∧ (if decide (j = 0%nat) then lo rc = lo rx else is_Some (lo rc)) ∧ hi rc = next_lo G nx j (hi rx).
Proof.
  intros Hx Hnx Hh Hj Hcp Hor. destruct (kid Hs Hx Hnx Hh _ _ Hj) as (rc & cn & Hc & Hcn & Hpar & Hht & Hl & Hhi).
  pose proof (kid_not_q _ _ _ _ _ Hx Hnx Hh Hj) as Hcq. pose proof (kid_unmoved _ _ _ _ _ Hx Hnx Hh Hj Hor) as Hm.
  exists rc. rewrite ranges_other by done. destruct (decide (c = g)) as [->|Hcg].
  - exists gn'. agree. split_and!; try done. by rewrite Hgp.
  - destruct (Ho' _ _ Hcp Hcq Hcg Hcn) as (cn' & Hcn' & _ & _ & Hpar'). rewrite decide_False in Hpar' by done.
    exists cn'. split_and!; try done. congruence.
Qed.

(** A child that moves to the new node. *)
Lemma kid_moves j c : (0 < ht r)%nat → kids n !! (mid + j)%nat = Some c →
  ∃ rc cn, G !! c = Some rc ∧ split_ranges !! c = Some rc ∧ ns' !! c = Some cn ∧ parent cn = q ∧
    ht r = S (ht rc) ∧ (if decide (j = 0%nat) then lo rc = Some k else is_Some (lo rc)) ∧ hi rc = next_lo G n (mid + j) (hi r).
Proof.
  intros Hh Hj. destruct split_parent as [_ Hht']. destruct (kid Hs Hp Hn Hh _ _ Hj) as (rc & cn & Hc & Hcn & Hpar & Hht & Hl & Hhi).
  assert (c ≠ p) as Hcp by (intros ->; agree; lia). assert (c ≠ g) as Hcg by (intros ->; agree; lia).
  pose proof (kid_not_q _ _ _ _ _ Hp Hn Hh Hj) as Hcq. exists rc. rewrite ranges_other by done.
  destruct (Ho' _ _ Hcp Hcq Hcg Hcn) as (cn' & Hcn' & _ & _ & Hpar'). rewrite decide_True in Hpar'.
  2:{ split; [done|]. apply list_elem_of_lookup. exists j. by rewrite lookup_drop. }
  exists cn'. split_and!; try done. destruct (decide (j = 0%nat)) as [Ej|Ej]; [|by rewrite decide_False in Hl by lia].
  subst j. rewrite Nat.add_0_r in Hj. by eapply sep_kid.
Qed.

Lemma next_lo_split x rx nx nx' j j' (u u' : option key) : G !! x = Some rx → ns !! x = Some nx → (0 < ht rx)%nat →
  kids nx' !! S j' = kids nx !! S j → (kids nx !! S j = None → u' = u) → next_lo split_ranges nx' j' u' = next_lo G nx j u.
Proof.
  intros Hx Hnx Hh Hj Hu. unfold next_lo. rewrite Hj. destruct (kids nx !! S j) as [c|] eqn:E; [|by apply Hu].
  apply ranges_lo. by eapply kid_not_q.
Qed.

Lemma split_kids_q : (0 < ht r)%nat → pairs nq ≠ [] ∧ ∀ j c, kids nq !! j = Some c → kid_ok ns' split_ranges q right_range nq j c.
Proof.
  intros Hh. split.
  { intros E. apply (f_equal length) in E. rewrite Hqe, length_drop in E. apply lookup_lt_Some in Hek. simpl in E. lia. }
  intros j c. rewrite kids_nq, lookup_drop. intros Hj. destruct (kid_moves _ _ Hh Hj) as (rc & cn & Hc & Hc' & Hcn & Hpar & Hht & Hl & Hhi).
  exists rc, cn. split_and!; try done. rewrite Hhi. symmetry. apply (next_lo_split p r n); try done.
  rewrite kids_nq, lookup_drop. f_equal. lia.
Qed.

Lemma split_kids_p : (0 < ht r)%nat → pairs np ≠ [] ∧ ∀ j c, kids np !! j = Some c → kid_ok ns' split_ranges p left_range np j c.
Proof.
  intros Hh. apply lookup_lt_Some in Hek as Hlen. split.
  { intros E. apply (f_equal length) in E. rewrite Hpe, length_take in E. simpl in E. lia. }
  intros j c. rewrite kids_np. intros [Hj Hlt]%lookup_take_Some.
  assert (c ≠ p) as Hcp. { intros ->. destruct (kid_is_p _ _ _ _ Hp Hn Hh Hj) as [E _]. by destruct split_ne as (_ & ? & _). }
  destruct (kid_stays _ _ _ _ _ Hp Hn Hh Hj Hcp ltac:(by right)) as (rc & cn & Hc & Hc' & Hcn & Hpar & Hht & Hl & Hhi).
  exists rc, cn. split_and!; try done. rewrite Hhi. destruct (decide (S j < mid)%nat) as [Hlt'|Hnlt].
  - symmetry. apply (next_lo_split p r n); [done..| |].
    + rewrite kids_np. by apply lookup_take_lt.
    + intros E. apply lookup_ge_None in E. rewrite length_kids in E. lia.
  - assert (mid = S j) as Em by lia. unfold next_lo. rewrite kids_np, lookup_take_ge by lia.
    assert (kids n !! S j = Some (page_no ek.2)) as Hm by (apply kids_lookup; rewrite <-Em; eauto). rewrite Hm.
    destruct (kid Hs Hp Hn Hh _ _ Hm) as (rm & _ & Hrm & _). unfold lo_of. rewrite Hrm. simpl.
    apply (sep_kid (page_no ek.2)); [done|by rewrite Em|done].
Qed.

(** A child of [g] other than [p], at its place in the changed node. *)
Lemma kid_of_g j j' c : kids gn !! j = Some c → j ≠ i → (j = 0%nat ↔ j' = 0%nat) → kids gn' !! S j' = kids gn !! S j →
  kid_ok ns' split_ranges g rg gn' j' c.
Proof.
  intros Hj Hji H0 HS. destruct split_ne as (_ & Hgp' & _).
  assert (c ≠ p) as Hcp. { intros ->. by destruct (kid_is_p _ _ _ _ Hg Hgn Hhg Hj) as [_ ?]. }
  destruct (kid_stays _ _ _ _ _ Hg Hgn Hhg Hj Hcp ltac:(by left)) as (rc & cn & Hc & Hc' & Hcn & Hpar & Hht & Hl & Hhi).
  exists rc, cn. split_and!; try done.
  - destruct (decide (j = 0%nat)), (decide (j' = 0%nat)); tauto.
  - rewrite Hhi. symmetry. by apply (next_lo_split g rg gn).
Qed.

Lemma split_kids_g : pairs gn' ≠ [] ∧ ∀ j c, kids gn' !! j = Some c → kid_ok ns' split_ranges g rg gn' j c.
Proof.
  destruct split_parent as [_ Hht]. destruct (kid Hs Hg Hgn Hhg _ _ Hi) as (r0 & n0 & Hr0 & Hn0 & _ & _ & Hl & Hhi).
  agree. split.
  { intros E. apply (f_equal length) in E. rewrite Hge in E. unfold insert_pairs in E. rewrite !length_app in E. simpl in E. lia. }
  intros j c Hj. destruct (Nat.lt_trichotomy j i) as [Hlt|[->|Hgt]].
  - rewrite kids_gn_le in Hj by lia. apply (kid_of_g j); [done|lia|lia|]. by apply kids_gn_le.
  - rewrite kids_gn_le, Hi in Hj by lia. injection Hj as <-. exists left_range, np. rewrite ranges_p. split_and!; try done.
    unfold next_lo. rewrite kids_gn_q. unfold lo_of. by rewrite ranges_q.
  - destruct j as [|j]; [lia|]. destruct (decide (j = i)) as [->|Hne].
    + rewrite kids_gn_q in Hj. injection Hj as <-. exists right_range, nq. rewrite ranges_q. split_and!; try done.
      * by rewrite decide_False.
      * simpl. rewrite Hhi. symmetry. apply (next_lo_split g rg gn); try done. apply kids_gn_gt. lia.
    + rewrite kids_gn_gt in Hj by lia. apply (kid_of_g j); [done|lia|lia|]. apply kids_gn_gt. lia.
Qed.

Lemma split_kids x rx nx' : split_ranges !! x = Some rx → ns' !! x = Some nx' → (0 < ht rx)%nat →
  pairs nx' ≠ [] ∧ ∀ j c, kids nx' !! j = Some c → kid_ok ns' split_ranges x rx nx' j c.
Proof.
  intros [[-> ->]|[[-> ->]|(Hxp & Hxq & Hx)]]%ranges_cases Hnx' Hh.
  - assert (nx' = nq) as -> by congruence. by apply split_kids_q.
  - assert (nx' = np) as -> by congruence. by apply split_kids_p.
  - destruct (decide (x = g)) as [->|Hxg].
    { assert (nx' = gn') as -> by congruence. assert (rx = rg) as -> by congruence. apply split_kids_g. }
    destruct (sh_node _ _ _ _ Hs _ _ Hx) as (nx & Hnx & _). destruct (Ho' _ _ Hxp Hxq Hxg Hnx) as (nx1 & Hnx1 & He & _).
    assert (nx1 = nx') as -> by congruence. destruct (sh_kids _ _ _ _ Hs _ _ _ Hx Hnx Hh) as [Hne _].
    split; [by rewrite He|]. assert (kids nx' = kids nx) as Ek by (unfold kids; by rewrite He). rewrite Ek.
    intros j c Hj. assert (c ≠ p) as Hcp. { intros ->. by destruct (kid_is_p _ _ _ _ Hx Hnx Hh Hj) as [? _]. }
    destruct (kid_stays _ _ _ _ _ Hx Hnx Hh Hj Hcp ltac:(by left)) as (rc & cn & Hc & Hc' & Hcn & Hpar & Hht & Hl & Hhi).
    exists rc, cn. split_and!; try done. rewrite Hhi. symmetry. apply (next_lo_split x rx nx); try done. by rewrite Ek.
Qed.

Lemma split_leaves x rx nx' : split_ranges !! x = Some rx → ns' !! x = Some nx' → ht rx = 0%nat → leaf_ok rx (pairs nx').
Proof.
  destruct split_parent as [_ Hht].
  assert (∀ e j, ht r = 0%nat → pairs n !! j = Some e → valid e.1 ∧ within (rank e.1) r ∧
    ((j < mid)%nat → rank e.1 < rank k) ∧ ((mid ≤ j)%nat → rank k ≤ rank e.1)) as Hent.
  { intros e j Hh Hj. destruct (sh_leaf _ _ _ _ Hs _ _ _ Hp Hn Hh) as [Hso Hin].
    destruct (Hin e) as [? ?]; [by eapply list_elem_of_lookup_2|]. split_and!; [done..| |]; intros Hjm.
    - by apply (Hso j mid).
    - destruct (decide (j = mid)) as [->|]; [assert (e = ek) as -> by congruence; done|].
      pose proof (Hso mid j ek e ltac:(lia) Hek Hj). lia. }
  intros [[-> ->]|[[-> ->]|(Hxp & Hxq & Hx)]]%ranges_cases Hnx' Hh.
  - assert (nx' = nq) as -> by congruence. rewrite Hqe. simpl in Hh. destruct (sh_leaf _ _ _ _ Hs _ _ _ Hp Hn Hh) as [Hso _]. split.
    + intros j j' e1 e2 Hlt. rewrite !lookup_drop. apply Hso. lia.
    + intros e [j Hj]%list_elem_of_lookup. rewrite lookup_drop in Hj. destruct (Hent _ _ Hh Hj) as (? & [? ?] & _ & Hk).
      split; [done|]. split; simpl; [apply Hk; lia|done].
  - assert (nx' = np) as -> by congruence. rewrite Hpe. simpl in Hh. destruct (sh_leaf _ _ _ _ Hs _ _ _ Hp Hn Hh) as [Hso _]. split.
    + intros j j' e1 e2 Hlt [Hj _]%lookup_take_Some [Hj' _]%lookup_take_Some. by eapply (Hso j j').
    + intros e [j Hj]%list_elem_of_lookup. apply lookup_take_Some in Hj as [Hj Hlt]. destruct (Hent _ _ Hh Hj) as (? & [? ?] & Hk & _).
      split; [done|]. split; simpl; [done|by apply Hk].
  - assert (x ≠ g) as Hxg. { intros ->. assert (rx = rg) by congruence. subst rx. lia. }
    destruct (sh_node _ _ _ _ Hs _ _ Hx) as (nx & Hnx & _). destruct (Ho' _ _ Hxp Hxq Hxg Hnx) as (nx1 & Hnx1 & He & _).
    assert (nx1 = nx') as -> by congruence. rewrite He. by apply (sh_leaf _ _ _ _ Hs _ _ _ Hx Hnx).
Qed.

Lemma split_shape : shape h' ns' split_ranges H.
Proof.
  destruct split_ne as (Hpq & Hgp' & Hgq). split; rewrite ?Hroot.
  - rewrite ranges_other; [apply (sh_root _ _ _ _ Hs)|done|]. intros E. pose proof (sh_root _ _ _ _ Hs). congruence.
  - intros nr Hnr. pose proof (sh_root _ _ _ _ Hs) as HR. destruct (decide (root_page_ h = g)) as [E|Hne].
    + rewrite E in Hnr. assert (nr = gn') as -> by congruence. rewrite Hgp. apply (sh_root_parent _ _ _ _ Hs). by rewrite E.
    + destruct (sh_node _ _ _ _ Hs _ _ HR) as (n0 & Hn0 & _).
      destruct (Ho' (root_page_ h) n0) as (n1 & Hn1 & _ & _ & Hpar); [done|congruence|done|done|]. assert (n1 = nr) as -> by congruence.
      rewrite Hpar, decide_False; [by apply (sh_root_parent _ _ _ _ Hs)|].
      intros [Hh [j Hj]%list_elem_of_lookup]. rewrite lookup_drop in Hj.
      destruct (kid Hs Hp Hn Hh _ _ Hj) as (rc & _ & Hc & _ & _ & Hht & _). assert (rc = mk_range None None H) as -> by congruence.
      simpl in Hht. pose proof (sh_range _ _ _ _ Hs _ _ Hp) as [_ ?]. lia.
  - intros x rx [[-> ->]|[[-> ->]|(Hxp & Hxq & Hx)]]%ranges_cases; [done|..].
    + pose proof (sh_page _ _ _ _ Hs _ _ Hp). lia.
    + pose proof (sh_page _ _ _ _ Hs _ _ Hx). lia.
  - apply split_nodes.
  - apply split_range_ok.
  - apply split_up.
  - apply split_kids.
  - apply split_leaves.
Qed.

(** ** Separators, entries and sizes *)

(** Where the pairs of the changed nodes come from. *)
Lemma split_pair x rx nx' j e : split_ranges !! x = Some rx → ns' !! x = Some nx' → pairs nx' !! j = Some e →
  (e = (k, child_rid q) ∧ x = g) ∨
  (∃ x0 r0 nx j0, G !! x0 = Some r0 ∧ ht r0 = ht rx ∧ ns !! x0 = Some nx ∧ pairs nx !! j0 = Some e).
Proof.
  intros [[-> ->]|[[-> ->]|(Hxp & Hxq & Hx)]]%ranges_cases Hnx' Hj.
  - assert (nx' = nq) as -> by congruence. rewrite Hqe, lookup_drop in Hj. right. by exists p, r, n, (mid + j)%nat.
  - assert (nx' = np) as -> by congruence. rewrite Hpe in Hj. apply lookup_take_Some in Hj as [Hj _]. right. by exists p, r, n, j.
  - destruct (decide (x = g)) as [->|Hxg].
    + assert (nx' = gn') as -> by congruence. assert (rx = rg) as -> by congruence. rewrite Hge in Hj. unfold insert_pairs in Hj.
      apply list_elem_of_lookup_2 in Hj. rewrite !elem_of_app, list_elem_of_singleton in Hj.
      destruct Hj as [[j0 [Hj _]%lookup_take_Some]%list_elem_of_lookup|[->|[j0 Hj]%list_elem_of_lookup]].
      * right. by exists g, rg, gn, j0.
      * by left.
      * rewrite lookup_drop in Hj. right. by exists g, rg, gn, (i + 1 + j0)%nat.
    + destruct (sh_node _ _ _ _ Hs _ _ Hx) as (nx & Hnx & _). destruct (Ho' _ _ Hxp Hxq Hxg Hnx) as (nx1 & Hnx1 & He & _).
      assert (nx1 = nx') as -> by congruence. rewrite He in Hj. right. by exists x, rx, nx, j.
Qed.

Lemma split_keys : keys_ok ns' split_ranges.
Proof.
  intros x rx nx' j e rc Hx Hh Hnx' Hj Hc b Hb.
  destruct (split_pair _ _ _ _ _ Hx Hnx' Hj) as [[-> ->]|(x0 & r0 & nx & j0 & Hx0 & Hh0 & Hnx & Hj0)].
  { simpl in Hc. rewrite ranges_q in Hc. injection Hc as <-. by injection Hb. }
  assert (kids nx !! j0 = Some (page_no e.2)) as Hk by (apply kids_lookup; eauto).
  pose proof (kid_not_q _ _ _ _ _ Hx0 Hnx ltac:(lia) Hk) as Hcq. pose proof (ranges_lo _ Hcq) as Hlo. unfold lo_of in Hlo.
  rewrite Hc in Hlo. simpl in Hlo. destruct (G !! page_no e.2) as [rc0|] eqn:Erc; [|simpl in Hlo; congruence].
  apply (HK x0 r0 nx j0 e rc0 Hx0 ltac:(lia) Hnx Hj0 Erc). simpl in Hlo. congruence.
Qed.

Lemma split_holds e : holds ns' split_ranges e ↔ holds ns G e.
Proof.
  destruct split_parent as [_ Hht]. split.
  - intros (x & rx & nx' & Hx & Hh & Hnx' & [j Hj]%list_elem_of_lookup).
    destruct (split_pair _ _ _ _ _ Hx Hnx' Hj) as [[-> ->]|(x0 & r0 & nx & j0 & Hx0 & Hh0 & Hnx & Hj0)].
    + destruct split_ne as (_ & ? & ?). rewrite ranges_other in Hx by done. assert (rx = rg) as -> by congruence. lia.
    + exists x0, r0, nx. split_and!; [done|congruence|done|]. by eapply list_elem_of_lookup_2.
  - intros (x & rx & nx & Hx & Hh & Hnx & He). assert (x ≠ q) as Hxq by congruence.
    assert (x ≠ g) as Hxg. { intros ->. assert (rx = rg) by congruence. subst rx. lia. }
    destruct (decide (x = p)) as [->|Hxp].
    + assert (rx = r) as -> by congruence. assert (nx = n) as -> by congruence.
      rewrite <-(take_drop mid (pairs n)), elem_of_app in He. destruct He as [He|He].
      * exists p, left_range, np. rewrite ranges_p, Hpe. done.
      * exists q, right_range, nq. rewrite ranges_q, Hqe. done.
    + destruct (Ho' _ _ Hxp Hxq Hxg Hnx) as (nx' & Hnx' & Hp0 & _). exists x, rx, nx'. rewrite ranges_other, Hp0 by done. done.
Qed.

Lemma split_sizes mx : 2 ≤ mx → sizes mx ns G (Some p) → Z.of_nat (length (pairs n)) = mx → mid = (length (pairs n) / 2)%nat →
  sizes mx ns' split_ranges (Some g).
Proof.
  intros Hmx HS Hlen Hm x rx nx'. assert (0 < length (pairs n) / 2 < length (pairs n))%nat as Hd.
  { rewrite <-Hm. apply lookup_lt_Some in Hek. lia. }
  intros [[-> ->]|[[-> ->]|(Hxp & Hxq & Hx)]]%ranges_cases Hnx'.
  - assert (nx' = nq) as -> by congruence. left. rewrite Hqe, length_drop. lia.
  - assert (nx' = np) as -> by congruence. left. rewrite Hpe, length_take. lia.
  - destruct (decide (x = g)) as [->|Hxg].
    + assert (nx' = gn') as -> by congruence. destruct (HS _ _ _ Hg Hgn) as [Hl|[[= ->] _]]; [|done].
      rewrite Hge. unfold insert_pairs. rewrite !length_app, length_take, length_drop. simpl.
      destruct (decide (Z.of_nat (length (pairs gn)) + 1 = mx)); [right|left]; [split; [done|lia]|lia].
    + destruct (sh_node _ _ _ _ Hs _ _ Hx) as (nx & Hnx & _). destruct (Ho' _ _ Hxp Hxq Hxg Hnx) as (nx1 & Hnx1 & He & _).
      assert (nx1 = nx') as -> by congruence. rewrite He. destruct (HS _ _ _ Hx Hnx) as [?|[[= ->] _]]; [by left|done].
Qed.

(** ** The list of leaves *)

Context (HL : links h ns G) (Hfirst : first_leaf_ h' = first_leaf_ h).
Context (Hol : ∀ x rx nx nx', x ≠ p → x ≠ q → G !! x = Some rx → ht rx = 0%nat → ns !! x = Some nx → ns' !! x = Some nx' →
  next_leaf nx' = next_leaf nx ∧ prev_leaf nx' = if decide (ht r = 0%nat ∧ x = next_leaf n) then q else prev_leaf nx).

(** Pages that are not split keep their place in the list. *)
Lemma find_lo x r' b : G !! x = Some r' → ht r' = 0%nat → lo r' = Some b →
  ∃ r1, split_ranges !! x = Some r1 ∧ ht r1 = 0%nat ∧ lo r1 = Some b.
Proof.
  intros Hx Hh Hl. destruct (decide (x = p)) as [->|].
  - exists left_range. rewrite ranges_p. assert (r' = r) as -> by congruence. done.
  - exists r'. rewrite ranges_other by congruence. done.
Qed.

Lemma leaf_other x rx nx' : x ≠ p → x ≠ q → G !! x = Some rx → ht rx = 0%nat → ns' !! x = Some nx' →
  ∃ nx, ns !! x = Some nx ∧ next_leaf nx' = next_leaf nx ∧
    prev_leaf nx' = if decide (ht r = 0%nat ∧ x = next_leaf n) then q else prev_leaf nx.
Proof.
  intros Hxp Hxq Hx Hh Hnx'. destruct (sh_node _ _ _ _ Hs _ _ Hx) as (nx & Hnx & _). exists nx. split; [done|]. by apply (Hol x rx).
Qed.

Lemma split_links_node : (0 < ht r)%nat → last_leaf_ h' = last_leaf_ h → links h' ns' split_ranges.
Proof.
  intros Hh Hlast x rx nx' [[-> ->]|[[-> ->]|(Hxp & Hxq & Hx)]]%ranges_cases Hnx' Hhx; [simpl in Hhx; lia|simpl in Hhx; lia|].
  destruct (leaf_other _ _ _ Hxp Hxq Hx Hhx Hnx') as (nx & Hnx & En & Ep). rewrite decide_False in Ep by lia.
  destruct (HL _ _ _ Hx Hnx Hhx) as [H1 H2]. unfold next_ok, prev_ok in *. rewrite En, Ep, Hlast, Hfirst. split.
  - destruct (hi rx) as [b|]; [|done]. destruct H1 as (? & r' & ? & ? & ?). split; [done|]. by eapply find_lo.
  - destruct (lo rx) as [b|]; [|done]. destruct H2 as (? & r' & Hr' & ? & ?). split; [done|]. exists r'.
    rewrite ranges_other; [done| |congruence]. intros E. rewrite E in Hr'. assert (r' = r) by congruence. subst r'. lia.
Qed.

Section leaf.
Context (Hh : ht r = 0%nat) (Hlast : last_leaf_ h' = if decide (last_leaf_ h = p) then q else last_leaf_ h).
Context (Hends : is_Some (G !! last_leaf_ h) ∧ is_Some (G !! first_leaf_ h)).
Context (Hnq : next_leaf nq = next_leaf n) (Hpq' : prev_leaf nq = p) (Hnp : next_leaf np = q) (Hpp' : prev_leaf np = prev_leaf n).

Lemma last_ne x : x ≠ q → last_leaf_ h ≠ x → last_leaf_ h' ≠ x.
Proof. intros ??. rewrite Hlast. by case_decide. Qed.
Lemma ends_ne : last_leaf_ h ≠ q ∧ first_leaf_ h ≠ q.
Proof. destruct Hends as [[? ?] [? ?]]. split; intros E; rewrite E in *; congruence. Qed.

Lemma split_link_q : next_ok h' split_ranges q right_range nq ∧ prev_ok h' split_ranges q right_range nq.
Proof.
  destruct (HL _ _ _ Hp Hn Hh) as [H1 _]. unfold next_ok, prev_ok in *. simpl. rewrite Hnq, Hpq', Hfirst. destruct ends_ne as [El Ef]. split.
  - destruct (hi r) as [b|].
    + destruct H1 as (Hne & r' & ? & ? & ?). rewrite Hlast, decide_False by done. split; [done|]. by eapply find_lo.
    + destruct H1 as [? Hl]. rewrite Hlast, decide_True by done. done.
  - split; [done|]. exists left_range. by rewrite ranges_p.
Qed.

Lemma split_link_p : next_ok h' split_ranges p left_range np ∧ prev_ok h' split_ranges p left_range np.
Proof.
  destruct (HL _ _ _ Hp Hn Hh) as [_ H2]. unfold next_ok, prev_ok in *. simpl. rewrite Hnp, Hpp', Hfirst.
  destruct split_ne as (Hne & _). split.
  - split; [rewrite Hlast; case_decide; congruence|]. exists right_range. by rewrite ranges_q.
  - destruct (lo r) as [b|] eqn:Elo; [|done]. destruct H2 as (Hf & r' & Hr' & Hhr & Hhi). split; [done|]. exists r'.
    rewrite ranges_other; [done| |congruence]. intros E. rewrite E in Hr'. assert (r' = r) by congruence. subst r'.
    destruct (sh_range _ _ _ _ Hs _ _ Hp) as [[R1 _] _]. destruct (R1 b Elo) as [_ Hu]. rewrite Hhi in Hu. simpl in Hu. lia.
Qed.

Lemma split_links_leaf : links h' ns' split_ranges.
Proof.
  intros x rx nx' [[-> ->]|[[-> ->]|(Hxp & Hxq & Hx)]]%ranges_cases Hnx' Hhx.
  - assert (nx' = nq) as -> by congruence. apply split_link_q.
  - assert (nx' = np) as -> by congruence. apply split_link_p.
  - destruct (leaf_other _ _ _ Hxp Hxq Hx Hhx Hnx') as (nx & Hnx & En & Ep).
    destruct (HL _ _ _ Hx Hnx Hhx) as [H1 H2]. destruct (HL _ _ _ Hp Hn Hh) as [HP _]. unfold next_ok, prev_ok in *. rewrite En, Ep, Hfirst. split.
    + destruct (hi rx) as [b|].
      * destruct H1 as (Hne & r' & ? & ? & ?). split; [by apply last_ne|]. by eapply find_lo.
      * destruct H1 as [? Hl]. split; [done|]. rewrite Hlast, decide_False by congruence. done.
    + case_decide as E.
      * destruct E as [_ E]. destruct (hi r) as [b|] eqn:Ehi.
        -- destruct HP as (_ & r' & Hr' & _ & Hl). rewrite <-E in Hr'. assert (r' = rx) as -> by congruence. rewrite Hl in *.
           destruct H2 as (? & _). split; [done|]. exists right_range. by rewrite ranges_q.
        -- destruct HP as [HP _]. pose proof (sh_page _ _ _ _ Hs _ _ Hx). rewrite HP in E. unfold IX_LEAF_HEADER_PAGE in E. lia.
      * destruct (lo rx) as [b|] eqn:Elo; [|done]. destruct H2 as (? & r' & Hr' & Hhr & Hhi). split; [done|]. exists r'.
        rewrite ranges_other; [done| |congruence]. intros Ex. rewrite Ex in Hr'. assert (r' = r) by congruence. subst r'.
        rewrite Hhi in HP. destruct HP as (_ & r1 & Hr1 & Hh1 & Hl1). apply E. split; [done|].
        eapply (same_lo Hs x (next_leaf n) rx r1 b); try done. congruence.
Qed.
End leaf.
End split.

(** ** A new root *)

Section grow.
Context {cmp : key → key → comparison} `{KO : !KeyOrder cmp}.
Context {h h' : IxFileHdr} {ns : gmap Z IxNode} {G : gmap Z range} {H : nat} (Hs : shape h ns G H) (HK : keys_ok ns G).
Context {y : Z} {n : IxNode} {k0 : key} (Hn : ns !! root_page_ h = Some n) (Hy : G !! y = None) (Hy2 : 2 ≤ y < num_pages_ h').
Context (Hroot : root_page_ h' = y) (Hnum : num_pages_ h ≤ num_pages_ h').

Abbreviation p := (root_page_ h).
Definition root_node : IxNode := mk_IxNode IX_NO_PAGE false IX_NO_PAGE IX_NO_PAGE [(k0, child_rid (root_page_ h))].
Definition grow_nodes : gmap Z IxNode := <[y := root_node]> (<[root_page_ h := set_parent y n]> ns).
Definition grow_ranges : gmap Z range := <[y := mk_range None None (S H)]> G.

Lemma grow_ne x rx : G !! x = Some rx → x ≠ y.
Proof. congruence. Qed.

Lemma grow_cases x rx : grow_ranges !! x = Some rx → (x = y ∧ rx = mk_range None None (S H)) ∨ (x ≠ y ∧ G !! x = Some rx).
Proof.
  unfold grow_ranges. destruct (decide (x = y)) as [->|]; [rewrite lookup_insert_eq; intros [= <-]; by left|].
  rewrite lookup_insert_ne by done. by right.
Qed.

Lemma grow_old x nx : x ≠ y → ns !! x = Some nx → ∃ nx', grow_nodes !! x = Some nx' ∧ pairs nx' = pairs nx ∧
  is_leaf nx' = is_leaf nx ∧ next_leaf nx' = next_leaf nx ∧ prev_leaf nx' = prev_leaf nx ∧
  parent nx' = (if decide (x = p) then y else parent nx).
Proof.
  intros Hx Hnx. unfold grow_nodes. rewrite lookup_insert_ne by done. destruct (decide (x = p)) as [->|].
  - rewrite lookup_insert_eq. exists (set_parent y n). assert (nx = n) as -> by congruence. done.
  - rewrite lookup_insert_ne by done. by exists nx.
Qed.

Lemma grow_back x nx' : x ≠ y → grow_nodes !! x = Some nx' → ∃ nx, ns !! x = Some nx ∧ pairs nx' = pairs nx ∧
  is_leaf nx' = is_leaf nx ∧ next_leaf nx' = next_leaf nx ∧ prev_leaf nx' = prev_leaf nx ∧
  parent nx' = (if decide (x = p) then y else parent nx).
Proof.
  intros Hx Hnx'. assert (is_Some (ns !! x)) as [nx Hnx].
  { unfold grow_nodes in Hnx'. rewrite lookup_insert_ne in Hnx' by done. destruct (decide (x = p)) as [->|]; [eauto|].
    rewrite lookup_insert_ne in Hnx' by done. eauto. }
  exists nx. destruct (grow_old _ _ Hx Hnx) as (n1 & Hn1 & Hrest). assert (n1 = nx') as -> by congruence. done.
Qed.

Lemma grow_new : grow_nodes !! y = Some root_node.
Proof. apply lookup_insert_eq. Qed.
Lemma grow_range x rx : G !! x = Some rx → grow_ranges !! x = Some rx.
Proof. intros Hx. unfold grow_ranges. rewrite lookup_insert_ne; [done|]. by intros <-; rewrite Hy in Hx. Qed.

Lemma grow_shape : shape h' grow_nodes grow_ranges (S H).
Proof.
  pose proof (sh_root _ _ _ _ Hs) as HR. split; rewrite ?Hroot.
  - apply lookup_insert_eq.
  - intros n1. rewrite grow_new. by intros [= <-].
  - intros x rx [[-> ->]|[Hx Hr]]%grow_cases; [done|]. pose proof (sh_page _ _ _ _ Hs _ _ Hr). lia.
  - intros x rx [[-> ->]|[Hx Hr]]%grow_cases; [exists root_node; by rewrite grow_new|].
    destruct (sh_node _ _ _ _ Hs _ _ Hr) as (nx & Hnx & Hl). destruct (grow_old _ _ Hx Hnx) as (nx' & ? & _ & Hl' & _).
    exists nx'. by rewrite Hl'.
  - intros x rx [[-> ->]|[Hx Hr]]%grow_cases; [|destruct (sh_range _ _ _ _ Hs _ _ Hr); split; [done|lia]].
    split; [|done]. by split.
  - intros x rx [[-> ->]|[Hx Hr]]%grow_cases Hxr; [done|]. destruct (decide (x = p)) as [->|Hxp].
    + exists y, (mk_range None None (S H)), root_node, 0%nat. rewrite grow_new. split_and!; [apply lookup_insert_eq|done|simpl; lia|done].
    + destruct (sh_up _ _ _ _ Hs _ _ Hr Hxp) as (g & rg & gn & i & Hg & Hgn & Hh & Hi).
      destruct (grow_old g gn (grow_ne _ _ Hg) Hgn) as (gn' & Hgn' & Hp' & _).
      exists g, rg, gn', i. split_and!; [by apply grow_range|done..|]. unfold kids. by rewrite Hp'.
  - intros x rx nx' [[-> ->]|[Hx Hr]]%grow_cases Hnx' Hh.
    + rewrite grow_new in Hnx'. injection Hnx' as <-. split; [done|]. intros i c Hi. destruct i as [|i]; [|done]. simpl in Hi. injection Hi as <-.
      destruct (grow_old p n (grow_ne _ _ HR) Hn) as (n1 & Hn1 & _ & _ & _ & _ & Hpar). rewrite decide_True in Hpar by done.
      exists (mk_range None None H), n1. split_and!; try done. by apply grow_range.
    + destruct (grow_back _ _ Hx Hnx') as (nx & Hnx & Hp' & _). destruct (sh_kids _ _ _ _ Hs _ _ _ Hr Hnx Hh) as [Hne Hk].
      split; [by rewrite Hp'|]. assert (kids nx' = kids nx) as Ek by (unfold kids; by rewrite Hp'). rewrite Ek.
      intros i c Hi. destruct (Hk _ _ Hi) as (rc & cn & Hc & Hcn & Hpar & Hht & Hl & Hhi).
      destruct (grow_old c cn (grow_ne _ _ Hc) Hcn) as (cn' & Hcn' & _ & _ & _ & _ & Hpar').
      rewrite decide_False in Hpar'. 2:{ intros ->. assert (rc = mk_range None None H) as -> by congruence.
        simpl in Hht. pose proof (sh_range _ _ _ _ Hs _ _ Hr) as [_ ?]. lia. }
      exists rc, cn'. split_and!; [by apply grow_range|done|congruence|done|done|].
      rewrite Hhi. unfold next_lo. rewrite Ek. destruct (kids nx !! S i) as [c'|] eqn:E; [|done].
      destruct (Hk _ _ E) as (rc' & _ & Hc' & _). unfold lo_of. by rewrite Hc', (grow_range _ _ Hc').
  - intros x rx nx' [[-> ->]|[Hx Hr]]%grow_cases Hnx' Hh; [done|].
    destruct (grow_back _ _ Hx Hnx') as (nx & Hnx & -> & _). by apply (sh_leaf _ _ _ _ Hs _ _ _ Hr Hnx).
Qed.

Lemma grow_keys : keys_ok grow_nodes grow_ranges.
Proof.
  intros x rx nx' i e rc [[-> ->]|[Hx Hr]]%grow_cases Hh Hnx' He Hc b Hb.
  - rewrite grow_new in Hnx'. injection Hnx' as <-. destruct i as [|i]; [|done]. simpl in He. injection He as <-.
    simpl in Hc. rewrite (grow_range _ _ (sh_root _ _ _ _ Hs)) in Hc. injection Hc as <-. done.
  - destruct (grow_back _ _ Hx Hnx') as (nx & Hnx & Hp' & _). rewrite Hp' in He.
    assert (kids nx !! i = Some (page_no e.2)) as Hk by (apply kids_lookup; eauto).
    destruct (kid Hs Hr Hnx Hh _ _ Hk) as (rc' & _ & Hc' & _). rewrite (grow_range _ _ Hc') in Hc. injection Hc as <-.
    by apply (HK x rx nx i e rc').
Qed.

Lemma grow_links : links h ns G → first_leaf_ h' = first_leaf_ h → last_leaf_ h' = last_leaf_ h → links h' grow_nodes grow_ranges.
Proof.
  intros HL Hf Hl x rx nx' [[-> ->]|[Hx Hr]]%grow_cases Hnx' Hh; [done|].
  destruct (grow_back _ _ Hx Hnx') as (nx & Hnx & _ & _ & En & Ep & _). destruct (HL _ _ _ Hr Hnx Hh) as [H1 H2].
  unfold next_ok, prev_ok in *. rewrite En, Ep, Hf, Hl. split.
  - destruct (hi rx); [|done]. destruct H1 as (? & r' & ? & ? & ?). split; [done|]. exists r'. split_and!; [by apply grow_range|done..].
  - destruct (lo rx); [|done]. destruct H2 as (? & r' & ? & ? & ?). split; [done|]. exists r'. split_and!; [by apply grow_range|done..].
Qed.

Lemma grow_sizes mx o : 2 ≤ mx → sizes mx ns G o → sizes mx grow_nodes grow_ranges o.
Proof.
  intros Hmx HS x rx nx' [[-> ->]|[Hx Hr]]%grow_cases Hnx'.
  - rewrite grow_new in Hnx'. injection Hnx' as <-. left. simpl. lia.
  - destruct (grow_back _ _ Hx Hnx') as (nx & Hnx & -> & _). by apply (HS x rx nx).
Qed.

Lemma grow_holds e : holds grow_nodes grow_ranges e ↔ holds ns G e.
Proof.
  split.
  - intros (x & rx & nx' & [[-> ->]|[Hx Hr]]%grow_cases & Hh & Hnx' & He); [done|].
    destruct (grow_back _ _ Hx Hnx') as (nx & Hnx & Hp' & _). exists x, rx, nx. by rewrite <-Hp'.
  - intros (x & rx & nx & Hr & Hh & Hnx & He). destruct (grow_old x nx (grow_ne _ _ Hr) Hnx) as (nx' & Hnx' & Hp' & _).
    exists x, rx, nx'. rewrite Hp'. split_and!; try done. by apply grow_range.
Qed.
End grow.
End IxSplit.
