(* ===== verification/IndexFacts.v ===== *)
(** * Correctness of the B+ tree operations

    Searching a node, and for each operation of [IxIndexHandle] that it ends without an
    error in a tree that satisfies the invariant again, with the entries it should have. *)

From stdpp Require Import gmultiset.
From S2P Require Import Prelude RecordFile Conditions Index IndexTree IndexSplit.

Module IxFacts.
Import RecFile Cond Ix IxTree IxSplit.

(** ** Binary search *)

Lemma bsearch_spec before (ps : list (key * Rid)) fuel : ∀ l r, (l ≤ r)%nat → (r - l < fuel)%nat →
  (∀ i j, (l ≤ i < j)%nat → (j < r)%nat → before (get_key ps j) = true → before (get_key ps i) = true) →
  (l ≤ bsearch before ps fuel l r ≤ r)%nat ∧
  (∀ i, (l ≤ i < bsearch before ps fuel l r)%nat → before (get_key ps i) = true) ∧
  (∀ i, (bsearch before ps fuel l r ≤ i < r)%nat → before (get_key ps i) = false).
Proof.
  induction fuel as [|fuel IH]; intros l r Hlr Hf Hm; [lia|]. cbn [bsearch]. case_decide as Hlt; [|split_and!; intros; lia].
  pose proof (Nat.div_lt_upper_bound (l + r) 2 r ltac:(lia) ltac:(lia)) as Hmr.
  pose proof (Nat.div_le_lower_bound (l + r) 2 l ltac:(lia) ltac:(lia)) as Hml. set (mid := ((l + r) / 2)%nat) in *.
  destruct (before (get_key ps mid)) eqn:Eb.
  - destruct (IH (mid + 1)%nat r) as (H1 & H2 & H3); [lia|lia| |].
    { intros i j Hi Hj. apply Hm; lia. }
    split_and!; [lia|lia| |done]. intros i Hi. destruct (decide (i = mid)) as [->|]; [done|].
    destruct (decide (i < mid)%nat); [apply (Hm i mid); [lia..|done]|apply H2; lia].
  - destruct (IH l mid) as (H1 & H2 & H3); [lia|lia| |].
    { intros i j Hi Hj. apply Hm; lia. }
    split_and!; [lia|lia|done|]. intros i Hi. destruct (decide (i < mid)%nat); [apply H3; lia|].
    destruct (before (get_key ps i)) eqn:Ei; [|done]. destruct (decide (i = mid)) as [->|]; [congruence|].
    rewrite (Hm mid i) in Eb; [done|lia|lia|done].
Qed.

Section facts.
Context {cmp : key → key → comparison} `{KO : !KeyOrder cmp}.
Implicit Types (p q g c : Z) (r rc rg : range) (n : IxNode) (es : list entry) (k : key) (e : entry).
Implicit Types (ns : gmap Z IxNode) (G : gmap Z range) (h : IxFileHdr).

(** The header has the column types and lengths of the comparison. *)
Definition ordered h : Prop := ∀ a b, compare h a b = cmp a b.

Lemma get_key_at es i e : es !! i = Some e → get_key es i = e.1.
Proof. unfold get_key. by intros ->. Qed.

(** ** Leaves *)

Section leaf.
Context {h n r k} (Ho : ordered h) (Hl : leaf_ok r (pairs n)) (Hv : valid k).

Lemma leaf_cmp i e : pairs n !! i = Some e → compare h e.1 k = (rank e.1 ?= rank k).
Proof. intros He. rewrite Ho. apply cmp_rank; [|done]. apply Hl. by eapply list_elem_of_lookup_2. Qed.

Lemma leaf_search before : (∀ a, before a = bool_decide (compare h a k = Lt)) ∨ (∀ a, before a = bool_decide (compare h a k ≠ Gt)) →
  let u := bsearch before (pairs n) (S (length (pairs n))) 0 (length (pairs n)) in
  (u ≤ length (pairs n))%nat ∧ ∀ i e, pairs n !! i = Some e → before e.1 = true ↔ (i < u)%nat.
Proof.
  intros Hb u. destruct (bsearch_spec before (pairs n) (S (length (pairs n))) 0 (length (pairs n))) as (H1 & H2 & H3); [lia|lia| |].
  - intros i j Hij Hj. destruct (lookup_lt_is_Some_2 (pairs n) j ltac:(lia)) as [ej Hej].
    destruct (lookup_lt_is_Some_2 (pairs n) i ltac:(lia)) as [ei Hei]. rewrite (get_key_at _ _ _ Hei), (get_key_at _ _ _ Hej).
    pose proof (proj1 Hl i j _ _ ltac:(lia) Hei Hej).
    destruct Hb as [Hb|Hb]; rewrite !Hb, (leaf_cmp _ _ Hei), (leaf_cmp _ _ Hej), !bool_decide_eq_true.
    + rewrite !Z.compare_lt_iff. lia.
    + rewrite !Z.compare_le_iff. lia.
  - fold u in H1, H2, H3. split; [lia|]. intros i e He. apply lookup_lt_Some in He as Hi. rewrite <-(get_key_at _ _ _ He).
    destruct (decide (i < u)%nat); [rewrite H2 by lia|rewrite H3 by lia]; split; done || lia.
Qed.

Lemma leaf_lower : (node_lower_bound h n k ≤ length (pairs n))%nat ∧
  ∀ i e, pairs n !! i = Some e → (i < node_lower_bound h n k)%nat ↔ rank e.1 < rank k.
Proof.
  destruct (leaf_search (λ a, bool_decide (compare h a k = Lt))) as [H1 H2]; [by left|]. split; [done|]. intros i e He.
  specialize (H2 i e He). rewrite (leaf_cmp _ _ He), bool_decide_eq_true in H2.
  unfold node_lower_bound. rewrite <-H2. by rewrite Z.compare_lt_iff.
Qed.

Lemma leaf_upper : is_leaf n = true → (node_upper_bound h n k ≤ length (pairs n))%nat ∧
  ∀ i e, pairs n !! i = Some e → (i < node_upper_bound h n k)%nat ↔ rank e.1 ≤ rank k.
Proof.
  intros El. unfold node_upper_bound. rewrite El.
  destruct (leaf_search (λ a, bool_decide (compare h a k ≠ Gt))) as [H1 H2]; [by right|]. split; [done|]. intros i e He.
  specialize (H2 i e He). rewrite (leaf_cmp _ _ He), bool_decide_eq_true in H2. rewrite <-H2. by rewrite Z.compare_le_iff.
Qed.

(** [find_key] finds the entry of the key, if there is one. *)
Lemma leaf_find_some pos : find_key h n k = Some pos → ∃ e, pairs n !! pos = Some e ∧ rank e.1 = rank k.
Proof.
  unfold find_key. case_decide as Hc; [|done]. intros [= <-]. destruct Hc as [Hlt Hc].
  destruct (lookup_lt_is_Some_2 _ _ Hlt) as [e He]. exists e. split; [done|].
  rewrite (get_key_at _ _ _ He), (leaf_cmp _ _ He) in Hc. by apply Z.compare_eq_iff.
Qed.

Lemma leaf_find_none e : find_key h n k = None → e ∈ pairs n → rank e.1 ≠ rank k.
Proof.
  unfold find_key. case_decide as Hc; [done|]. intros _ [i Hi]%list_elem_of_lookup E. destruct leaf_lower as [Hle Hlb].
  set (u := node_lower_bound h n k) in *. apply lookup_lt_Some in Hi as Hlt.
  assert (u ≤ i)%nat as Hui. { destruct (decide (i < u)%nat) as [Hx|]; [|lia]. apply (Hlb _ _ Hi) in Hx. lia. }
  destruct (lookup_lt_is_Some_2 (pairs n) u ltac:(lia)) as [eu Heu]. apply Hc. split; [lia|].
  rewrite (get_key_at _ _ _ Heu), (leaf_cmp _ _ Heu). apply Z.compare_eq_iff.
  pose proof (proj2 (Hlb _ _ Heu)). destruct (decide (u = i)) as [->|]; [congruence|].
  pose proof (proj1 Hl u i _ _ ltac:(lia) Heu Hi). lia.
Qed.

Lemma leaf_lookup_spec : match leaf_lookup h n k with
  | Some v => ∃ k', (k', v) ∈ pairs n ∧ rank k' = rank k
  | None => ∀ e, e ∈ pairs n → rank e.1 ≠ rank k
  end.
Proof.
  unfold leaf_lookup. destruct (find_key h n k) as [pos|] eqn:E; simpl.
  - destruct (leaf_find_some _ E) as ([k' v] & He & Hr). rewrite He. simpl. exists k'. split; [by eapply list_elem_of_lookup_2|done].
  - intros e. by apply leaf_find_none.
Qed.

Lemma insert_entries_ok v : within (rank k) r → find_key h n k = None →
  leaf_ok r (insert_pairs (node_lower_bound h n k) [(k, v)] (pairs n)).
Proof.
  intros Hw Hf. destruct leaf_lower as [Hle Hlb]. set (u := node_lower_bound h n k) in *.
  assert (∀ i e, insert_pairs u [(k, v)] (pairs n) !! i = Some e →
    ((i < u)%nat ∧ pairs n !! i = Some e) ∨ (i = u ∧ e = (k, v)) ∨ ((u < i)%nat ∧ pairs n !! (i - 1)%nat = Some e)) as Hat.
  { intros i e. unfold insert_pairs. destruct (decide (i < u)%nat).
    - rewrite lookup_app_l by (rewrite length_take; lia). rewrite lookup_take_lt by done. by left.
    - rewrite lookup_app_r by (rewrite length_take; lia). rewrite length_take, Nat.min_l by lia.
      destruct (decide (i = u)) as [->|]; [rewrite Nat.sub_diag; intros [= <-]; right; by left|].
      replace (i - u)%nat with (S (i - u - 1)) by lia. simpl. rewrite lookup_drop. replace (u + (i - u - 1))%nat with (i - 1)%nat by lia.
      intros. right; right. split; [lia|done]. }
  assert (∀ i e, pairs n !! i = Some e → (u ≤ i)%nat → rank k < rank e.1) as Hgt.
  { intros i e He Hi. pose proof (proj2 (Hlb _ _ He)). pose proof (leaf_find_none e Hf (list_elem_of_lookup_2 _ _ _ He)). lia. }
  split.
  - intros i j e1 e2 Hij H1 H2. destruct (Hat _ _ H1) as [[L1 E1]|[[L1 E1]|[L1 E1]]], (Hat _ _ H2) as [[L2 E2]|[[L2 E2]|[L2 E2]]]; try lia.
    + by apply (proj1 Hl i j).
    + subst e2. simpl. by apply (Hlb _ _ E1).
    + apply (proj1 Hl i (j - 1)%nat); [lia|done..].
    + subst e1. simpl. eapply Hgt; [done|lia].
    + apply (proj1 Hl (i - 1)%nat (j - 1)%nat); [lia|done..].
  - intros e [i Hi]%list_elem_of_lookup. destruct (Hat _ _ Hi) as [[L1 E1]|[[L1 ->]|[L1 E1]]]; [|done|];
      apply (proj2 Hl); by eapply list_elem_of_lookup_2.
Qed.

Lemma erase_entries_ok pos : leaf_ok r (erase_pair pos (pairs n)).
Proof.
  assert (∀ i e, erase_pair pos (pairs n) !! i = Some e → pairs n !! (if decide (i < pos)%nat then i else S i) = Some e) as Hat.
  { intros i e. unfold erase_pair. destruct (decide (pos ≤ length (pairs n))%nat) as [Hp|Hp].
    - case_decide; [rewrite lookup_app_l, lookup_take_lt by (rewrite ?length_take; lia); done|].
      rewrite lookup_app_r by (rewrite length_take; lia). rewrite length_take, Nat.min_l, lookup_drop by lia. intros <-. f_equal. lia.
    - rewrite take_ge, drop_ge, app_nil_r by lia. intros Hi. apply lookup_lt_Some in Hi as ?. by rewrite decide_True by lia. }
  split.
  - intros i j e1 e2 Hij H1%Hat H2%Hat. eapply (proj1 Hl); [|exact H1|exact H2]. repeat case_decide; lia.
  - intros e [i Hi%Hat]%list_elem_of_lookup. apply (proj2 Hl). by eapply list_elem_of_lookup_2.
Qed.

Lemma elem_of_erase pos e : find_key h n k = Some pos → e ∈ erase_pair pos (pairs n) ↔ e ∈ pairs n ∧ rank e.1 ≠ rank k.
Proof.
  intros Hf. destruct (leaf_find_some _ Hf) as (ep & Hp & Hr). unfold erase_pair. rewrite elem_of_app. split.
  - intros [[i [Hi Hlt]%lookup_take_Some]%list_elem_of_lookup|[i Hi]%list_elem_of_lookup].
    + split; [by eapply list_elem_of_lookup_2|]. pose proof (proj1 Hl i pos _ _ Hlt Hi Hp). lia.
    + rewrite lookup_drop in Hi. split; [by eapply list_elem_of_lookup_2|]. pose proof (proj1 Hl pos (S pos + i)%nat _ _ ltac:(lia) Hp Hi). lia.
  - intros [[i Hi]%list_elem_of_lookup Hne]. destruct (Nat.lt_trichotomy i pos) as [Hlt|[->|Hgt]].
    + left. apply list_elem_of_lookup. exists i. by rewrite lookup_take_lt.
    + simplify_eq.
    + right. apply list_elem_of_lookup. exists (i - S pos)%nat. rewrite lookup_drop. by replace (S pos + (i - S pos))%nat with i by lia.
Qed.
End leaf.

Lemma elem_of_insert_pairs u l es e : e ∈ insert_pairs u l es ↔ e ∈ l ∨ e ∈ es.
Proof. unfold insert_pairs. rewrite !elem_of_app. rewrite <-(take_drop u es) at 3. rewrite elem_of_app. tauto. Qed.

(** ** Inner nodes *)

Section inner.
Context {h ns G H} (Hs : shape h ns G H) (HK : keys_ok ns G) (Ho : ordered h).
Context {p r n} (Hp : G !! p = Some r) (Hn : ns !! p = Some n) (Hh : (0 < ht r)%nat).

(** From the second one on, the key of a child is where its range begins. *)
Lemma inner_key i e : pairs n !! S i = Some e → ∃ rc, G !! page_no e.2 = Some rc ∧ lo rc = Some e.1 ∧ valid e.1.
Proof.
  intros He. assert (kids n !! S i = Some (page_no e.2)) as Hk by (apply kids_lookup; eauto).
  destruct (kid Hs Hp Hn Hh _ _ Hk) as (rc & _ & Hc & _ & _ & _ & [b Hb] & _). exists rc.
  pose proof (HK p r n (S i) e rc Hp Hh Hn He Hc b Hb) as E. rewrite E. split_and!; [done..|]. destruct (sh_range _ _ _ _ Hs _ _ Hc) as [[R _] _]. by apply R.
Qed.

Lemma inner_sorted i j e1 e2 : (i < j)%nat → pairs n !! S i = Some e1 → pairs n !! S j = Some e2 → rank e1.1 < rank e2.1.
Proof.
  intros Hij H1 H2. destruct (inner_key _ _ H1) as (r1 & G1 & L1 & _). destruct (inner_key _ _ H2) as (r2 & G2 & L2 & _).
  assert (kids n !! S i = Some (page_no e1.2)) as K1 by (apply kids_lookup; eauto).
  assert (kids n !! (S i + S (j - i - 1))%nat = Some (page_no e2.2)) as K2.
  { replace (S i + S (j - i - 1))%nat with (S j) by lia. apply kids_lookup; eauto. }
  destruct (kids_order Hs Hp Hn Hh _ _ _ _ _ _ K1 K2 G1 G2) as (b & b' & Hb & Hb' & Hle). assert (b' = e2.1) as -> by congruence.
  destruct (range_ne r1 e1.1) as [_ Hu]; [by apply (sh_range _ _ _ _ Hs _ _ G1)|done|]. rewrite Hb in Hu. simpl in Hu. lia.
Qed.

Lemma inner_upper k : valid k → is_leaf n = false → let u := node_upper_bound h n k in
  (1 ≤ u ≤ length (pairs n))%nat ∧ ∀ i e, pairs n !! S i = Some e → (S i < u)%nat ↔ rank e.1 ≤ rank k.
Proof.
  intros Hv El. destruct (sh_kids _ _ _ _ Hs _ _ _ Hp Hn Hh) as [Hne _]. cbv zeta. unfold node_upper_bound. rewrite El.
  assert (0 < length (pairs n))%nat as Hlen by (destruct (pairs n); simpl; [done|lia]).
  assert (∀ i e, pairs n !! S i = Some e → bool_decide (compare h e.1 k ≠ Gt) = true ↔ rank e.1 ≤ rank k) as Hc.
  { intros i e He. destruct (inner_key _ _ He) as (_ & _ & _ & Hve). rewrite bool_decide_eq_true, Ho, cmp_rank by done. by rewrite Z.compare_le_iff. }
  destruct (bsearch_spec (λ a, bool_decide (compare h a k ≠ Gt)) (pairs n) (S (length (pairs n))) 1 (length (pairs n))) as (H1 & H2 & H3); [lia|lia| |].
  - intros i j Hij Hj. destruct i as [|i]; [lia|]. destruct j as [|j]; [lia|].
    destruct (lookup_lt_is_Some_2 (pairs n) (S j) ltac:(lia)) as [ej Hej]. destruct (lookup_lt_is_Some_2 (pairs n) (S i) ltac:(lia)) as [ei Hei].
    rewrite (get_key_at _ _ _ Hei), (get_key_at _ _ _ Hej), (Hc _ _ Hei), (Hc _ _ Hej). pose proof (inner_sorted i j _ _ ltac:(lia) Hei Hej). lia.
  - split; [lia|]. intros i e He. apply lookup_lt_Some in He as Hi. rewrite <-(Hc _ _ He), <-(get_key_at _ _ _ He).
    destruct (decide (S i < bsearch (λ a, bool_decide (compare h a k ≠ Gt)) (pairs n) (S (length (pairs n))) 1 (length (pairs n)))%nat);
      [rewrite H2 by lia|rewrite H3 by lia]; split; done || lia.
Qed.

(** [internal_lookup] goes to the child that is responsible for the key. *)
Lemma inner_lookup k : valid k → within (rank k) r →
  ∃ c rc, internal_lookup h n k = Some c ∧ G !! c = Some rc ∧ ht r = S (ht rc) ∧ within (rank k) rc.
Proof.
  intros Hv [Hf Hu]. destruct (sh_node _ _ _ _ Hs _ _ Hp) as (n0 & Hn0 & El). assert (n0 = n) as -> by congruence.
  rewrite bool_decide_eq_false_2 in El by lia. destruct (inner_upper k Hv El) as [Hlen Hub]. set (u := node_upper_bound h n k) in *.
  destruct (lookup_lt_is_Some_2 (pairs n) (u - 1) ltac:(lia)) as [e He].
  assert (kids n !! (u - 1)%nat = Some (page_no e.2)) as Hk by (apply kids_lookup; eauto).
  destruct (kid Hs Hp Hn Hh _ _ Hk) as (rc & _ & Hc & _ & _ & Hht & Hl & Hhi). exists (page_no e.2), rc. split_and!; [|done|done|].
  { unfold internal_lookup, value_at. rewrite decide_False by lia. fold u. by rewrite He. }
  split.
  - destruct (u - 1)%nat as [|i] eqn:Eu; [simpl in Hl; by rewrite Hl|].
    destruct (inner_key _ _ He) as (rc' & Hc' & Hl' & _). assert (rc' = rc) as -> by congruence. rewrite Hl'. simpl. apply (Hub _ _ He). lia.
  - rewrite Hhi. unfold next_lo. replace (S (u - 1)) with u by lia. destruct (kids n !! u) as [c'|] eqn:Ek; [|done].
    apply kids_lookup in Ek as (e' & He' & <-). destruct u as [|u0] eqn:Eu; [lia|].
    destruct (inner_key _ _ He') as (rc' & Hc' & Hl' & _). unfold lo_of. rewrite Hc'. simpl. rewrite Hl'. simpl.
    pose proof (proj2 (Hub _ _ He')). lia.
Qed.
End inner.

(** ** Pages of the pool *)

Section run.
Context (ndebug : bool).
Implicit Types (s : IxIndexHandle) (P : gmultiset Z).

(** The header, the nodes and the pinned pages of a handle. *)
Definition is_at h ns P s : Prop := file_hdr_ s = h ∧ nodes s = ns ∧ pinned s = P.

Lemma wp_node_at h ns P s p n (Q : IxNode → IxIndexHandle → Prop) : is_at h ns P s → ns !! p = Some n → Q n s → wp (node_at p) s Q.
Proof. intros (_ & <- & _) Hn HQ. unfold node_at, wp, deref. rewrite Hn. done. Qed.

Lemma wp_hdr h ns P s (Q : IxFileHdr → IxIndexHandle → Prop) : is_at h ns P s → Q h s → wp hdr s Q.
Proof. by intros (<- & _) HQ. Qed.

Lemma wp_update h ns P s p n f (Q : () → IxIndexHandle → Prop) : is_at h ns P s → ns !! p = Some n →
  (∀ s', is_at h (<[p := f n]> ns) P s' → Q () s') → wp (update_node p f) s Q.
Proof.
  intros (<- & <- & <-) Hn HQ. apply HQ. unfold is_at. split_and!; try done. simpl. apply map_eq. intros x.
  destruct (decide (x = p)) as [->|]; [by rewrite lookup_alter_eq, lookup_insert_eq, Hn|by rewrite lookup_alter_ne, lookup_insert_ne].
Qed.

Lemma wp_fetch h ns P s p n (Q : IxNode → IxIndexHandle → Prop) : is_at h ns P s → ns !! p = Some n →
  (∀ s', is_at h ns ({[+ p +]} ⊎ P) s' → Q n s') → wp (fetch_node p) s Q.
Proof.
  intros Hs Hn HQ. apply wp_bind. eapply wp_node_at; [done..|]. apply wp_bind. apply HQ. by destruct Hs as (<- & <- & <-).
Qed.

Lemma wp_unpin_page h ns P P0 s p d (Q : bool → IxIndexHandle → Prop) : is_at h ns P0 s → P0 = {[+ p +]} ⊎ P →
  (∀ s', is_at h ns P s' → Q true s') → wp (unpin_page p d) s Q.
Proof.
  intros (<- & <- & <-) HP HQ. unfold wp, unpin_page. rewrite decide_True by (rewrite HP; multiset_solver).
  apply HQ. split_and!; try done. simpl. rewrite HP. multiset_solver.
Qed.

Lemma wp_unpin h ns P P0 s p d (Q : () → IxIndexHandle → Prop) : is_at h ns P0 s → P0 = {[+ p +]} ⊎ P →
  (∀ s', is_at h ns P s' → Q () s') → wp (unpin p d) s Q.
Proof. intros Hs HP HQ. apply wp_bind. eapply wp_unpin_page; [done..|]. intros s' Hs'. by apply HQ. Qed.

(** What a run leaves pinned: nothing, unless asserts are not evaluated. *)
Definition leak P P' : Prop := ∃ L, P' = L ⊎ P ∧ (ndebug = false → L = ∅).

Lemma leak_refl P : leak P P.
Proof. exists ∅. split; [multiset_solver|done]. Qed.
Lemma leak_trans P1 P2 P3 : leak P1 P2 → leak P2 P3 → leak P1 P3.
Proof.
  intros (L1 & -> & H1) (L2 & -> & H2). exists (L2 ⊎ L1). split; [multiset_solver|]. intros E. rewrite H1, H2 by done. multiset_solver.
Qed.
Lemma leak_add p P1 P2 : leak P1 P2 → leak ({[+ p +]} ⊎ P1) ({[+ p +]} ⊎ P2).
Proof. intros (L & -> & H). exists L. split; [multiset_solver|done]. Qed.
Lemma leak_sub p P1 P2 : leak ({[+ p +]} ⊎ P1) P2 → ∃ P3, P2 = {[+ p +]} ⊎ P3 ∧ leak P1 P3.
Proof. intros (L & -> & H). exists (L ⊎ P1). split; [multiset_solver|]. by exists L. Qed.

Lemma wp_assert_unpin h ns P P0 s p d (Q : () → IxIndexHandle → Prop) : is_at h ns P0 s → P0 = {[+ p +]} ⊎ P →
  (∀ s' P', is_at h ns P' s' → leak P P' → Q () s') → wp (assert_unpin ndebug p d) s Q.
Proof.
  intros Hs HP HQ. unfold assert_unpin. destruct ndebug eqn:E.
  - apply wp_ret. eapply HQ; [done|]. exists {[+ p +]}. by rewrite E.
  - apply wp_bind. eapply wp_unpin_page; [done..|]. intros s' Hs'. apply wp_ret. eapply HQ; [done|]. apply leak_refl.
Qed.

Lemma wp_assert (b : bool) s (Q : () → IxIndexHandle → Prop) : b = true → Q () s → wp (assert_ ndebug b) s Q.
Proof. intros ->. unfold assert_. by destruct ndebug. Qed.

(** ** Descent *)

Section descent.
Context {h ns G H} (Hs : shape h ns G H) (HK : keys_ok ns G) (Ho : ordered h) {k} (Hv : valid k).

Lemma wp_descend fuel : ∀ p r P s (Q : Z → IxIndexHandle → Prop), G !! p = Some r → (ht r < fuel)%nat → within (rank k) r →
  is_at h ns ({[+ p +]} ⊎ P) s →
  (∀ l rl n s', G !! l = Some rl → ns !! l = Some n → ht rl = 0%nat → within (rank k) rl → is_at h ns ({[+ l +]} ⊎ P) s' → Q l s') →
  wp (descend fuel k false p) s Q.
Proof.
  induction fuel as [|fuel IH]; intros p r P s Q Hp Hf Hw Hat HQ; [lia|]. simpl.
  destruct (sh_node _ _ _ _ Hs _ _ Hp) as (n & Hn & El). apply wp_bind. eapply wp_node_at; [done..|].
  destruct (decide (ht r = 0%nat)) as [Hh|Hh].
  - rewrite El, bool_decide_eq_true_2 by done. apply wp_ret. by eapply HQ.
  - rewrite El, bool_decide_eq_false_2 by done. apply wp_bind. eapply wp_hdr; [done|].
    destruct (inner_lookup Hs HK Ho Hp Hn ltac:(lia) k Hv Hw) as (c & rc & Hl & Hc & Hht & Hwc).
    destruct (sh_node _ _ _ _ Hs _ _ Hc) as (cn & Hcn & _).
    apply wp_bind. eapply wp_deref; [done|]. apply wp_bind. eapply wp_unpin; [done..|]. intros s1 H1.
    apply wp_bind. eapply wp_fetch; [done..|]. intros s2 H2. eapply IH; [done|lia|done..].
Qed.

Lemma wp_find_leaf P s (Q : option Z → IxIndexHandle → Prop) : is_at h ns P s →
  (∀ l rl n s', G !! l = Some rl → ns !! l = Some n → ht rl = 0%nat → within (rank k) rl → is_at h ns ({[+ l +]} ⊎ P) s' → Q (Some l) s') →
  wp (find_leaf_page k false) s Q.
Proof.
  intros Hat HQ. pose proof (sh_root _ _ _ _ Hs) as HR. pose proof (sh_page _ _ _ _ Hs _ _ HR).
  destruct (sh_node _ _ _ _ Hs _ _ HR) as (rn & Hrn & _). apply wp_bind. eapply wp_hdr; [done|].
  rewrite decide_False by (unfold IX_NO_PAGE; lia). apply wp_bind. eapply wp_fetch; [done..|]. intros s1 H1.
  apply wp_bind. change (wp get s1 _) with (wp (descend (fuel_of s1) k false (root_page_ h) ≫= λ p, mret (Some p)) s1 Q).
  apply wp_bind. eapply wp_descend; [done| |by split|done|].
  - pose proof (height_pages Hs). destruct H1 as (E & _). unfold fuel_of. rewrite E. simpl. lia.
  - intros l rl n s' ?????. apply wp_ret. by eapply HQ.
Qed.

Lemma wp_get_value P s (Q : option Rid → IxIndexHandle → Prop) : is_at h ns P s →
  (∀ s' v, is_at h ns P s' →
    match v with Some x => ∃ k', holds ns G (k', x) ∧ rank k' = rank k | None => ∀ e, holds ns G e → rank e.1 ≠ rank k end → Q v s') →
  wp (get_value k) s Q.
Proof.
  intros Hat HQ. apply wp_bind. eapply wp_find_leaf; [done|]. intros l rl n s1 Hl Hn Hh Hw H1. simpl.
  apply wp_bind. eapply wp_hdr; [done|]. apply wp_bind. eapply wp_node_at; [done..|].
  apply wp_bind. eapply wp_unpin; [done..|]. intros s2 H2. apply wp_ret. apply HQ; [done|].
  pose proof (leaf_lookup_spec Ho (sh_leaf _ _ _ _ Hs _ _ _ Hl Hn Hh) Hv) as HL. destruct (leaf_lookup h n k) as [v|].
  - destruct HL as (k' & Hin & Hr). exists k'. split; [|done]. by exists l, rl, n.
  - intros e He E. rewrite (holds_leaf Hs l rl n e Hl Hh Hn) in He; [by apply (HL e He)|by rewrite E].
Qed.
End descent.
End run.
End facts.
End IxFacts.
