(* ===== verification/IndexOps.v ===== *)
(** * Insertion and deletion in the B+ tree

    The loops that change the tree: [maintain_parent] carries a raised separator upwards,
    [split] and [insert_into_parent] divide full nodes up to the root.  Each ends within the
    height of the tree and leaves the invariant. *)

From stdpp Require Import gmultiset.
From S2P Require Import Prelude RecordFile Conditions Index IndexTree IndexSplit IndexFacts.

Module IxOps.
Import RecFile Cond Ix IxTree IxSplit IxFacts.

Section ops.
Context {cmp : key → key → comparison} `{KO : !KeyOrder cmp} (ndebug : bool).
Implicit Types (p q g c : Z) (r rc rg : range) (n : IxNode) (es : list entry) (k : key) (e : entry).
Implicit Types (ns : gmap Z IxNode) (G : gmap Z range) (h : IxFileHdr) (s : IxIndexHandle) (P : gmultiset Z).

(** ** The invariant of a handle *)

Record tree_inv h ns G (H : nat) (x : option Z) : Prop := {
  ti_shape : shape h ns G H;
  ti_keys : keys_ok ns G;
  ti_links : links h ns G;
  ti_ends : is_Some (G !! last_leaf_ h) ∧ is_Some (G !! first_leaf_ h);
  ti_sizes : sizes (get_max_size h) ns G x;
  ti_max : 3 ≤ get_max_size h;
  ti_ordered : ordered (cmp:=cmp) h
}.

(** ** Changes of separators *)

(** The nodes keep their links, sizes and entries. *)
Definition kept ns ns' G : Prop :=
  ∀ p r n', G !! p = Some r → ns' !! p = Some n' → ∃ n, ns !! p = Some n ∧ next_leaf n' = next_leaf n ∧ prev_leaf n' = prev_leaf n ∧
    length (pairs n') = length (pairs n) ∧ (ht r = 0%nat → pairs n' = pairs n).

Lemma kept_refl ns G : kept ns ns G.
Proof. intros p r n Hp Hn. by exists n. Qed.
Lemma kept_trans ns1 ns2 ns3 G : kept ns1 ns2 G → kept ns2 ns3 G → kept ns1 ns3 G.
Proof.
  intros H1 H2 p r n3 Hp Hn3. destruct (H2 _ _ _ Hp Hn3) as (n2 & Hn2 & ? & ? & ? & E2).
  destruct (H1 _ _ _ Hp Hn2) as (n1 & Hn1 & ? & ? & ? & E1). exists n1. split_and!; try congruence. intros Hh. rewrite E2, E1; done.
Qed.

Lemma kept_set_key ns G g rg gn i e k : G !! g = Some rg → (0 < ht rg)%nat → ns !! g = Some gn → pairs gn !! i = Some e →
  kept ns (<[g := set_key i k e gn]> ns) G.
Proof.
  intros Hg Hh Hgn Hi x rx nx Hx. destruct (decide (x = g)) as [->|Hne].
  - rewrite lookup_insert_eq. intros [= <-]. exists gn. simplify_eq. split_and!; try done; [|lia]. unfold set_key. simpl. by rewrite length_insert.
  - rewrite lookup_insert_ne by done. intros Hnx. by exists nx.
Qed.

Lemma kept_links h ns ns' G : kept ns ns' G → links h ns G → links h ns' G.
Proof.
  intros Hk HL p r n' Hp Hn' Hh. destruct (Hk _ _ _ Hp Hn') as (n & Hn & En & Ep & _). unfold next_ok, prev_ok. rewrite En, Ep. by apply (HL p r n).
Qed.
Lemma kept_sizes mx ns ns' G x : kept ns ns' G → sizes mx ns G x → sizes mx ns' G x.
Proof. intros Hk HS p r n' Hp Hn'. destruct (Hk _ _ _ Hp Hn') as (n & Hn & _ & _ & -> & _). by apply (HS p r n). Qed.
Lemma kept_holds h ns ns' G H e : kept ns ns' G → shape h ns G H → shape h ns' G H → holds ns' G e ↔ holds ns G e.
Proof.
  intros Hk Hs Hs'. split; intros (p & r & n & Hp & Hh & Hn & He).
  - destruct (Hk _ _ _ Hp Hn) as (n0 & Hn0 & _ & _ & _ & E). exists p, r, n0. by rewrite <-E.
  - destruct (sh_node _ _ _ _ Hs' _ _ Hp) as (n' & Hn' & _). destruct (Hk _ _ _ Hp Hn') as (n0 & Hn0 & _ & _ & _ & E).
    exists p, r, n'. rewrite E by done. by simplify_eq.
Qed.

(** ** [maintain_parent] *)

Lemma find_child_spec n i p : kids n !! i = Some p → ∃ j e, find_child n p = Some j ∧ pairs n !! j = Some e ∧ page_no e.2 = p.
Proof.
  intros (e & He & Hp)%kids_lookup. unfold find_child.
  destruct (list_find (λ e : key * Rid, page_no e.2 = p) (pairs n)) as [[j e']|] eqn:E.
  - apply list_find_Some in E as (Hj & Hpe & _). by exists j, e'.
  - apply list_find_None in E. rewrite Forall_lookup in E. by destruct (E _ _ He).
Qed.

Lemma wp_maintain h G H fuel : ∀ p r n b f ns P s (Q : () → IxIndexHandle → Prop), shape h ns G H → G !! p = Some r → ns !! p = Some n →
  (H - ht r < fuel)%nat → keys_are (lag b r) ns G → pairs n !! 0%nat = Some f → (∀ x, lo r = Some x → f.1 = x) → is_at h ns P s →
  (∀ ns' P' s', is_at h ns' P' s' → leak ndebug P P' → shape h ns' G H → keys_ok ns' G → kept ns ns' G → Q () s') →
  wp (maintain_parent ndebug fuel p) s Q.
Proof.
  induction fuel as [|fuel IH]; intros p r n b f ns P s Q Hs Hp Hn Hf HK Hfst Hlo Hat HQ; [lia|]. simpl.
  apply wp_bind. eapply wp_node_at; [done..|]. destruct (decide (p = root_page_ h)) as [->|Hr].
  { rewrite (sh_root_parent _ _ _ _ Hs _ Hn), decide_True by done. apply wp_ret. eapply HQ; [done|apply leak_refl|done| |apply kept_refl].
    eapply lag_ok; [done|]. rewrite (sh_root _ _ _ _ Hs) in Hp. injection Hp as <-. done. }
  destruct (parent_of Hs _ _ _ Hp Hn Hr) as (rg & gn & i & Hg & Hgn & Hht & Hi & _). pose proof (sh_page _ _ _ _ Hs _ _ Hg).
  rewrite decide_False by (unfold IX_NO_PAGE; lia). set (g := parent n) in *.
  destruct (find_child_spec _ _ _ Hi) as (j & e & Hfc & Hj & He).
  apply wp_bind. eapply wp_fetch; [done..|]. intros s1 H1. apply wp_bind. eapply wp_deref; [done|].
  apply wp_bind. eapply wp_deref; [done|]. apply wp_bind. eapply wp_deref; [by rewrite Hfst|]. case_decide as Ek.
  { eapply wp_assert_unpin; [done..|]. intros s2 P2 H2 HL. eapply HQ; [done..| |apply kept_refl].
    by eapply (lag_stop Hp Hg Hgn Hht Hj He HK Hlo). }
  apply wp_bind. eapply wp_update; [done..|]. intros s2 H2. apply wp_bind. eapply wp_assert_unpin; [done..|]. intros s3 P3 H3 HL.
  assert (shape h (<[g := set_key j f.1 e gn]> ns) G H) as Hs'.
  { eapply shape_ext; [done| |done|lia]. eapply (set_key_same Hs); try done. lia. }
  destruct (lag_step Hs Hp Hg Hgn Hht Hj He HK Hlo) as [b' HK'].
  destruct (lookup_lt_is_Some_2 (pairs (set_key j f.1 e gn)) 0) as [f0 Hf0].
  { unfold set_key. simpl. rewrite length_insert. apply lookup_lt_Some in Hj. lia. }
  destruct (sh_range _ _ _ _ Hs _ _ Hg) as [_ Hle]. eapply (IH g rg (set_key j f.1 e gn) b' f0); [done|done|apply lookup_insert_eq|lia|done|done| |exact H3|].
  - intros x Hx. by eapply (first_step Hs Hp Hg Hgn Hht Hj He HK Hlo).
  - intros ns' P' s' ?????. eapply HQ; [done|by eapply leak_trans|done|done|]. eapply kept_trans; [|done]. by eapply kept_set_key; try done; lia.
Qed.

(** The leaf [p] has entries; where its range has a lower end, it is raised to the first one. *)
Lemma wp_maintain_leaf h G H fuel p r n f ns P s (Q : () → IxIndexHandle → Prop) : tree_inv h ns G H None → G !! p = Some r → ns !! p = Some n →
  ht r = 0%nat → (H < fuel)%nat → pairs n !! 0%nat = Some f → is_at h ns P s →
  (∀ ns' G' P' s', is_at h ns' P' s' → leak ndebug P P' → tree_inv h ns' G' H None → (∀ e, holds ns' G' e ↔ holds ns G e) → Q () s') →
  wp (maintain_parent ndebug fuel p) s Q.
Proof.
  intros [Hs HK HL HE HS HM HO] Hp Hn Hh Hf Hfst Hat HQ. destruct (sh_leaf _ _ _ _ Hs _ _ _ Hp Hn Hh) as [Hso Hin].
  destruct (Hin f) as [Hfv [Hff Hfu]]; [by eapply list_elem_of_lookup_2|].
  assert (∀ e, e ∈ pairs n → rank f.1 ≤ rank e.1) as Hmin.
  { intros e [i Hi]%list_elem_of_lookup. destruct i as [|i]; [by simplify_eq|]. pose proof (Hso 0%nat (S i) f e ltac:(lia) Hfst Hi). lia. }
  destruct (lo r) as [b|] eqn:El.
  - assert (shape h ns (subst_range b f.1 <$> G) H) as Hs' by by eapply (raise_shape Hs Hp Hn Hh El).
    eapply (wp_maintain h (subst_range b f.1 <$> G) H fuel p (subst_range b f.1 r) n b f); [done|apply subst_lookup; eauto|done|lia| |done| |done|].
    + by eapply (raise_lag Hs).
    + simpl. rewrite El, subst_eq. by intros x [= <-].
    + intros ns' P' s' Hat' Hlk Hs1 HK1 Hk. eapply HQ; [done..| |].
      * split; try done; [eapply kept_links; [done|]; by apply raise_links| |eapply kept_sizes; [done|]; by apply raise_sizes].
        rewrite !lookup_fmap. destruct HE as [[? ->] [? ->]]. by split.
      * intros e. rewrite (kept_holds h ns ns' _ H) by done. apply raise_holds.
  - destruct (ok_lag ns G r HK) as [b Hlag]. eapply (wp_maintain h G H fuel p r n b f); [done..|lia|done|done| |done|].
    + rewrite El. done.
    + intros ns' P' s' Hat' Hlk Hs1 HK1 Hk. eapply HQ; [done..| |].
      * split; try done; [by eapply kept_links|by eapply kept_sizes].
      * intros e. by rewrite (kept_holds h ns ns' _ H).
Qed.

(** ** [split] *)

Lemma value_at_kids n i : value_at n i = kids n !! i.
Proof. unfold value_at, kids. by rewrite list_lookup_fmap. Qed.

(** Children get their new parent. *)
Lemma wp_children h q nq idxs : ∀ ns P s (Q : () → IxIndexHandle → Prop), ns !! q = Some nq → is_leaf nq = false →
  (∀ i, i ∈ idxs → ∃ c, kids nq !! i = Some c ∧ c ≠ q ∧ is_Some (ns !! c)) → is_at h ns P s →
  (∀ ns' s', is_at h ns' P s' →
    (∀ x, ns' !! x = if decide (x ∈ omap (λ i, kids nq !! i) idxs) then set_parent q <$> ns !! x else ns !! x) → Q () s') →
  wp (maintain_children q idxs) s Q.
Proof.
  induction idxs as [|i idxs IH]; intros ns P s Q Hq Hl Hc Hat HQ; simpl.
  { apply wp_ret. by eapply HQ. }
  destruct (Hc i) as (c & Hi & Hcq & [cn Hcn]); [set_solver|].
  apply wp_bind. unfold maintain_child. apply wp_bind. eapply wp_node_at; [done..|]. rewrite Hl.
  apply wp_bind. eapply wp_deref; [by rewrite value_at_kids|]. apply wp_bind. eapply wp_fetch; [done..|]. intros s1 H1.
  apply wp_bind. eapply wp_update; [done..|]. intros s2 H2. eapply wp_unpin; [done..|]. intros s3 H3.
  eapply IH; [by rewrite lookup_insert_ne|done| |done|].
  - intros j Hj. destruct (Hc j) as (c' & Hj' & Hcq' & Hs'); [set_solver|]. exists c'. split_and!; try done.
    destruct (decide (c' = c)) as [->|]; [rewrite lookup_insert_eq; eauto|by rewrite lookup_insert_ne].
  - intros ns' s' Hat' Hx. eapply HQ; [done|]. intros x.
    assert (omap (λ i, kids nq !! i) (i :: idxs) = c :: omap (λ i, kids nq !! i) idxs) as -> by (simpl; by rewrite Hi).
    rewrite Hx. destruct (decide (x = c)) as [->|Hxc].
    + rewrite lookup_insert_eq, Hcn. rewrite (decide_True (P := c ∈ c :: _)) by set_solver. simpl. by case_decide.
    + rewrite lookup_insert_ne by done. destruct (decide (x ∈ omap (λ i, kids nq !! i) idxs)); [rewrite decide_True by set_solver|rewrite decide_False by set_solver]; done.
Qed.

Lemma omap_seq (l : list Z) : ∀ l0, omap (λ i, (l0 ++ l) !! i) (seq (length l0) (length l)) = l.
Proof.
  induction l as [|x l IH]; intros l0; [done|]. simpl. rewrite lookup_app_r, Nat.sub_diag by lia. simpl. f_equal.
  specialize (IH (l0 ++ [x])). rewrite <-app_assoc in IH. simpl in IH. rewrite length_app in IH. simpl in IH. by rewrite Nat.add_1_r in IH.
Qed.
Lemma omap_kids n : omap (λ i, kids n !! i) (seq 0 (length (pairs n))) = kids n.
Proof. rewrite <-length_kids. apply (omap_seq (kids n) []). Qed.

Record splitted h ns p n (mid : nat) q h1 ns1 : Prop := {
  sp_hdr : h1 = set_last_leaf (if decide (is_leaf n = true ∧ last_leaf_ h = p) then q else last_leaf_ h) (set_num_pages (q + 1) h);
  sp_new : ∃ nq, ns1 !! q = Some nq ∧ parent nq = parent n ∧ is_leaf nq = is_leaf n ∧ pairs nq = drop mid (pairs n) ∧
    (is_leaf n = true → prev_leaf nq = p ∧ next_leaf nq = next_leaf n);
  sp_old : ∃ np, ns1 !! p = Some np ∧ parent np = parent n ∧ is_leaf np = is_leaf n ∧ pairs np = take mid (pairs n) ∧
    (is_leaf n = true → next_leaf np = q ∧ prev_leaf np = prev_leaf n);
  sp_other x nx : x ≠ p → x ≠ q → ns !! x = Some nx → ∃ nx', ns1 !! x = Some nx' ∧ pairs nx' = pairs nx ∧ is_leaf nx' = is_leaf nx ∧
    next_leaf nx' = next_leaf nx ∧
    prev_leaf nx' = (if decide (is_leaf n = true ∧ next_leaf n ≠ IX_LEAF_HEADER_PAGE ∧ x = next_leaf n) then q else prev_leaf nx) ∧
    parent nx' = (if decide (is_leaf n = false ∧ x ∈ drop mid (kids n)) then q else parent nx)
}.

Lemma wp_create h ns P s (Q : Z → IxIndexHandle → Prop) : is_at h ns P s →
  (∀ s', is_at (set_num_pages (num_pages_ h + 1) h) (<[num_pages_ h := blank_node]> ns) ({[+ num_pages_ h +]} ⊎ P) s' → Q (num_pages_ h) s') →
  wp create_node s Q.
Proof. intros (<- & <- & <-) HQ. apply HQ. done. Qed.

Lemma set_last_same h : set_last_leaf (last_leaf_ h) h = h.
Proof. by destruct h. Qed.

Lemma wp_split_leaf h ns p n P s (Q : Z → IxIndexHandle → Prop) : let q := num_pages_ h in let mid := (length (pairs n) / 2)%nat in
  ns !! p = Some n → p ≠ q → is_leaf n = true → Z.of_nat (length (pairs n)) ≤ get_max_size h →
  (next_leaf n ≠ IX_LEAF_HEADER_PAGE → next_leaf n ≠ p ∧ next_leaf n ≠ q ∧ is_Some (ns !! next_leaf n)) → is_at h ns P s →
  (∀ h1 ns1 s', is_at h1 ns1 ({[+ q +]} ⊎ P) s' → splitted h ns p n mid q h1 ns1 → Q q s') →
  wp (split ndebug p) s Q.
Proof.
  intros q mid Hn Hpq Hl Hlen Hnext Hat HQ.
  apply wp_bind. eapply wp_create; [done|]. fold q. intros s1 H1.
  apply wp_bind. eapply wp_node_at; [done|by rewrite lookup_insert_ne|]. fold mid. apply wp_bind. eapply wp_hdr; [done|].
  apply wp_bind. apply wp_assert. { apply bool_decide_eq_true. rewrite length_drop. change (get_max_size (set_num_pages (q + 1) h)) with (get_max_size h). lia. }
  apply wp_bind. eapply wp_update; [done|apply lookup_insert_eq|]. intros s2 H2.
  apply wp_bind. eapply wp_update; [done|by rewrite !lookup_insert_ne|]. intros s3 H3. rewrite Hl in *.
  apply wp_bind. apply wp_bind. eapply wp_update; [done|by rewrite lookup_insert_ne, lookup_insert_eq|]. intros s4 H4.
  apply wp_bind. eapply wp_update; [done|apply lookup_insert_eq|]. intros s5 H5.
  set (nq := set_next (next_leaf n) (set_prev p (mk_IxNode (parent n) true IX_NO_PAGE IX_NO_PAGE (drop mid (pairs n))))) in *.
  set (np := set_pairs (take mid (pairs n)) n) in *.
  assert (is_at (set_num_pages (q + 1) h) (<[q := nq]> (<[p := np]> ns)) ({[+ q +]} ⊎ P) s5) as H5'.
  { destruct H5 as (E1 & E2 & E3). split_and!; try done. rewrite E2. apply map_eq. intros x.
    destruct (decide (x = q)) as [->|]; [by rewrite !lookup_insert_eq|]. rewrite !(lookup_insert_ne _ q x) by done.
    destruct (decide (x = p)) as [->|]; [by rewrite !lookup_insert_eq|]. by rewrite !lookup_insert_ne by done. }
  clear H5 H4 H3 H2 H1. set (h1 := set_num_pages (q + 1) h) in *.
  (* the previous link of the next leaf *)
  set (b := decide (next_leaf n ≠ IX_LEAF_HEADER_PAGE)).
  apply wp_bind. apply (wp_mono _ _ (λ _ s', ∃ ns2, is_at h1 ns2 ({[+ q +]} ⊎ P) s' ∧ ns2 !! q = Some nq ∧ ns2 !! p = Some np ∧
    ∀ x nx, x ≠ p → x ≠ q → ns !! x = Some nx → ns2 !! x = Some (if decide (next_leaf n ≠ IX_LEAF_HEADER_PAGE ∧ x = next_leaf n) then set_prev q nx else nx))).
  { destruct b as [Hne|Heq].
    - destruct (Hnext Hne) as (Hnp & Hnq & [nn Hnn]).
      apply wp_bind. eapply wp_fetch; [done|by rewrite !lookup_insert_ne|]. intros s6 H6.
      apply wp_bind. eapply wp_update; [done|by rewrite !lookup_insert_ne|]. intros s7 H7.
      eapply wp_unpin; [done..|]. intros s8 H8. eexists. split; [exact H8|]. split_and!.
      + by rewrite lookup_insert_ne, lookup_insert_eq.
      + rewrite lookup_insert_ne, lookup_insert_ne by done. apply lookup_insert_eq.
      + intros x nx Hxp Hxq Hx. destruct (decide (x = next_leaf n)) as [->|Hxn].
        * rewrite lookup_insert_eq, decide_True by done. congruence.
        * rewrite !lookup_insert_ne, decide_False by (intros ?; destruct_and?; done || congruence). done.
    - apply wp_ret. eexists. split; [exact H5'|]. rewrite lookup_insert_eq, lookup_insert_ne, lookup_insert_eq by done. split_and!; try done.
      intros x nx Hxp Hxq Hx. rewrite !lookup_insert_ne by done. rewrite decide_False by (intros ?; destruct_and?; done || congruence). done. }
  intros _ s6 (ns2 & H6 & Hq2 & Hp2 & Hx2).
  apply wp_bind. eapply wp_update; [done..|]. intros s7 H7. destruct H7 as (E1 & E2 & E3).
  unfold modify, wp, mret, M_ret. simpl. apply (HQ (if decide (last_leaf_ h = p) then set_last_leaf q h1 else h1) (<[p := set_next q np]> ns2)).
  { unfold is_at. rewrite E1. change (last_leaf_ h1) with (last_leaf_ h). destruct (decide (last_leaf_ h = p)); simpl; rewrite ?E1, ?E2, ?E3; by split_and!. }
  split.
  - rewrite Hl. destruct (decide (last_leaf_ h = p)) as [Ec|Ec]; [by rewrite decide_True|]. rewrite decide_False by (intros ?; destruct_and?; done || congruence). symmetry. apply (set_last_same (set_num_pages (q + 1) h)).
  - exists nq. rewrite lookup_insert_ne by done. by rewrite Hl.
  - exists (set_next q np). rewrite lookup_insert_eq. done.
  - intros x nx Hxp Hxq Hx. rewrite lookup_insert_ne by done. rewrite (Hx2 x nx Hxp Hxq Hx). eexists. split; [done|]. rewrite Hl.
    rewrite (decide_False (P := true = false ∧ _)) by (intros ?; destruct_and?; done || congruence).
    destruct (decide (next_leaf n ≠ IX_LEAF_HEADER_PAGE ∧ x = next_leaf n)); [rewrite decide_True by done|rewrite decide_False by tauto]; done.
Qed.

Lemma wp_split_inner h ns p n P s (Q : Z → IxIndexHandle → Prop) : let q := num_pages_ h in let mid := (length (pairs n) / 2)%nat in
  ns !! p = Some n → p ≠ q → is_leaf n = false → Z.of_nat (length (pairs n)) ≤ get_max_size h →
  (∀ c, c ∈ kids n → c ≠ p ∧ c ≠ q ∧ is_Some (ns !! c)) → is_at h ns P s →
  (∀ h1 ns1 s', is_at h1 ns1 ({[+ q +]} ⊎ P) s' → splitted h ns p n mid q h1 ns1 → Q q s') →
  wp (split ndebug p) s Q.
Proof.
  intros q mid Hn Hpq Hl Hlen Hkids Hat HQ.
  apply wp_bind. eapply wp_create; [done|]. fold q. intros s1 H1.
  apply wp_bind. eapply wp_node_at; [done|by rewrite lookup_insert_ne|]. fold mid. apply wp_bind. eapply wp_hdr; [done|].
  apply wp_bind. apply wp_assert. { apply bool_decide_eq_true. rewrite length_drop. change (get_max_size (set_num_pages (q + 1) h)) with (get_max_size h). lia. }
  apply wp_bind. eapply wp_update; [done|apply lookup_insert_eq|]. intros s2 H2.
  apply wp_bind. eapply wp_update; [done|by rewrite !lookup_insert_ne|]. intros s3 H3. rewrite Hl in *. clear H1 H2.
  set (nq := mk_IxNode (parent n) false IX_NO_PAGE IX_NO_PAGE (drop mid (pairs n))) in *. set (np := set_pairs (take mid (pairs n)) n) in *.
  assert (kids nq = drop mid (kids n)) as Ek by (unfold kids; simpl; by rewrite fmap_drop).
  apply wp_bind. change (drop mid (pairs n)) with (pairs nq).
  eapply (wp_children _ q nq); [by rewrite lookup_insert_ne, lookup_insert_eq|done| |exact H3|].
  - intros i Hi%elem_of_seq. rewrite <-length_kids in Hi. destruct (lookup_lt_is_Some_2 (kids nq) i ltac:(lia)) as [c Hc]. exists c.
    assert (c ∈ kids n) as Hin. { rewrite Ek, lookup_drop in Hc. by eapply list_elem_of_lookup_2. }
    destruct (Hkids _ Hin) as (Hcp & Hcq & Hcs).
    split_and!; [done..|]. by rewrite !lookup_insert_ne.
  - intros ns' s' Hat' Hx. apply wp_ret. eapply HQ; [done|]. rewrite omap_kids, Ek in Hx.
    assert (∀ x, x ∈ drop mid (kids n) → x ≠ p ∧ x ≠ q) as Hne.
    { intros x Hin. apply (subseteq_drop mid) in Hin. destruct (Hkids _ Hin) as (? & ? & _). done. }
    split.
    + rewrite decide_False by (intros ?; destruct_and?; done || congruence). symmetry. apply (set_last_same (set_num_pages (q + 1) h)).
    + exists nq. rewrite Hx, decide_False by (intros Hin; by destruct (Hne _ Hin)). rewrite lookup_insert_ne, lookup_insert_eq by done. split_and!; try done. by rewrite Hl.
    + exists np. rewrite Hx, decide_False by (intros Hin; by destruct (Hne _ Hin)). rewrite lookup_insert_eq. split_and!; try done. by rewrite Hl.
    + intros x nx Hxp Hxq Hnx. rewrite Hx, !lookup_insert_ne, Hnx by done. rewrite Hl.
      rewrite (decide_False (P := false = true ∧ _)) by (intros ?; destruct_and?; done || congruence).
      destruct (decide (x ∈ drop mid (kids n))); [rewrite decide_True by done|rewrite decide_False by (intros ?; destruct_and?; done || congruence)]; simpl; eexists; split; done.
Qed.

(** [split] in a tree. *)
Lemma wp_split h ns G H x p r n P s (Q : Z → IxIndexHandle → Prop) : let q := num_pages_ h in let mid := (length (pairs n) / 2)%nat in
  tree_inv h ns G H x → G !! p = Some r → ns !! p = Some n → is_at h ns P s →
  (∀ h1 ns1 s', is_at h1 ns1 ({[+ q +]} ⊎ P) s' → splitted h ns p n mid q h1 ns1 → Q q s') →
  wp (split ndebug p) s Q.
Proof.
  intros q mid [Hs HK HL HE HS HM HO] Hp Hn Hat HQ.
  assert (∀ y ry, G !! y = Some ry → y ≠ q ∧ is_Some (ns !! y)) as Hin.
  { intros y ry Hy. pose proof (sh_page _ _ _ _ Hs _ _ Hy). split; [unfold q; lia|].
    destruct (sh_node _ _ _ _ Hs _ _ Hy) as (ny & Hny & _). eauto. }
  destruct (Hin _ _ Hp) as [Hpq _]. destruct (sh_node _ _ _ _ Hs _ _ Hp) as (n0 & Hn0 & El). assert (n0 = n) as -> by congruence.
  assert (Z.of_nat (length (pairs n)) ≤ get_max_size h) as Hlen. { destruct (HS _ _ _ Hp Hn) as [?|[_ ?]]; lia. }
  destruct (decide (ht r = 0%nat)) as [Hh|Hh].
  - rewrite bool_decide_eq_true_2 in El by done. apply (wp_split_leaf h ns p n P); try done.
    intros Hne. destruct (HL _ _ _ Hp Hn Hh) as [Hnx _]. unfold next_ok in Hnx. destruct (hi r) as [u|] eqn:Eu; [|naive_solver].
    destruct Hnx as (_ & r' & Hr' & _ & Hl'). destruct (Hin _ _ Hr') as [? ?]. split_and!; try done. intros E. rewrite E in Hr'.
    assert (r' = r) as -> by congruence. destruct (sh_range _ _ _ _ Hs _ _ Hp) as [[R _] _]. destruct (R _ Hl') as [_ Hu].
    rewrite Eu in Hu. simpl in Hu. lia.
  - rewrite bool_decide_eq_false_2 in El by done. apply (wp_split_inner h ns p n P); try done.
    intros c [i Hi]%list_elem_of_lookup. destruct (kid Hs Hp Hn ltac:(lia) _ _ Hi) as (rc & _ & Hc & _ & _ & Hht & _).
    destruct (Hin _ _ Hc) as [? ?]. split_and!; try done. intros ->. assert (rc = r) as -> by congruence. lia.
Qed.

(** ** The pair of the new node *)

(** What [split] and the first part of [insert_into_parent] have done: the node [p], a child of
    [g], is split, and [g] has a pair for the new node [q]. *)
Record split_to h ns p n (mid : nat) k q g gn (j : nat) h' ns' : Prop := {
  st_root : root_page_ h' = root_page_ h;
  st_num : num_pages_ h ≤ num_pages_ h' ∧ q < num_pages_ h';
  st_first : first_leaf_ h' = first_leaf_ h;
  st_last : last_leaf_ h' = if decide (is_leaf n = true ∧ last_leaf_ h = p) then q else last_leaf_ h;
  st_cmp : (∀ a b, compare h' a b = compare h a b) ∧ get_max_size h' = get_max_size h;
  st_new : ∃ nq, ns' !! q = Some nq ∧ parent nq = g ∧ is_leaf nq = is_leaf n ∧ pairs nq = drop mid (pairs n) ∧
    (is_leaf n = true → prev_leaf nq = p ∧ next_leaf nq = next_leaf n);
  st_old : ∃ np, ns' !! p = Some np ∧ parent np = g ∧ is_leaf np = is_leaf n ∧ pairs np = take mid (pairs n) ∧
    (is_leaf n = true → next_leaf np = q ∧ prev_leaf np = prev_leaf n);
  st_parent : ∃ gn', ns' !! g = Some gn' ∧ parent gn' = parent gn ∧ is_leaf gn' = is_leaf gn ∧
    pairs gn' = insert_pairs (j + 1) [(k, child_rid q)] (pairs gn);
  st_other x nx : x ≠ p → x ≠ q → x ≠ g → ns !! x = Some nx → ∃ nx', ns' !! x = Some nx' ∧ pairs nx' = pairs nx ∧
    is_leaf nx' = is_leaf nx ∧ next_leaf nx' = next_leaf nx ∧
    prev_leaf nx' = (if decide (is_leaf n = true ∧ next_leaf n ≠ IX_LEAF_HEADER_PAGE ∧ x = next_leaf n) then q else prev_leaf nx) ∧
    parent nx' = (if decide (is_leaf n = false ∧ x ∈ drop mid (kids n)) then q else parent nx)
}.

Lemma split_inv h h' ns ns' G H p r n ek q g rg gn j : let mid := (length (pairs n) / 2)%nat in
  tree_inv h ns G H (Some p) → G !! p = Some r → ns !! p = Some n → p ≠ root_page_ h → Z.of_nat (length (pairs n)) = get_max_size h →
  G !! g = Some rg → ns !! g = Some gn → (0 < ht rg)%nat → kids gn !! j = Some p → pairs n !! mid = Some ek → G !! q = None → 2 ≤ q →
  split_to h ns p n mid ek.1 q g gn j h' ns' →
  ∃ G', tree_inv h' ns' G' H (Some g) ∧ G' !! g = Some rg ∧ ∀ e, holds ns' G' e ↔ holds ns G e.
Proof.
  intros mid [Hs HK HL HE HS HM HO] Hp Hn Hpr Hlen Hg Hgn Hhg Hj Hek Hq Hq2
    [Er [En1 En2] Ef El [Ec Em] (nq & Q1 & Q2 & Q3 & Q4 & Q5) (np & P1 & P2 & P3 & P4 & P5) (gn' & G1 & G2 & G3 & G4) Ho].
  destruct (sh_node _ _ _ _ Hs _ _ Hp) as (n0 & Hn0 & Hleaf). assert (n0 = n) as -> by congruence.
  assert (0 < mid)%nat as Hmid by (apply Nat.div_str_pos; lia).
  assert (is_leaf n = true ↔ ht r = 0%nat) as Hlt by (rewrite Hleaf, bool_decide_eq_true; done).
  assert (is_leaf n = false ↔ (0 < ht r)%nat) as Hlf by (rewrite Hleaf, bool_decide_eq_false; lia).
  assert (∀ x nx, x ≠ p → x ≠ q → x ≠ g → ns !! x = Some nx → ∃ nx', ns' !! x = Some nx' ∧ pairs nx' = pairs nx ∧
    is_leaf nx' = is_leaf nx ∧ parent nx' = if decide (moved (r:=r) (n:=n) (mid:=mid) x) then q else parent nx) as Ho'.
  { intros x nx X1 X2 X3 Hx. destruct (Ho x nx X1 X2 X3 Hx) as (nx' & A1 & A2 & A3 & _ & _ & A6). exists nx'. split_and!; try done. rewrite A6.
    apply decide_ext. unfold moved. by rewrite Hlf. }
  assert (∀ x rx nx nx', x ≠ p → x ≠ q → G !! x = Some rx → ht rx = 0%nat → ns !! x = Some nx → ns' !! x = Some nx' →
    next_leaf nx' = next_leaf nx ∧ prev_leaf nx' = if decide (ht r = 0%nat ∧ x = next_leaf n) then q else prev_leaf nx) as Hol.
  { intros x rx nx nx' X1 X2 Hx Hhx Hnx Hnx'. assert (x ≠ g) as X3. { intros ->. assert (rx = rg) as -> by congruence. lia. }
    destruct (Ho x nx X1 X2 X3 Hnx) as (n1 & A1 & _ & _ & A4 & A5 & _). assert (n1 = nx') as -> by congruence. split; [done|]. rewrite A5.
    apply decide_ext. pose proof (sh_page _ _ _ _ Hs _ _ Hx). rewrite Hlt. unfold IX_LEAF_HEADER_PAGE. split; [tauto|]. intros [? ->]. split_and!; [done|lia|done]. }
  exists (split_ranges (G:=G) (p:=p) (q:=q) (r:=r) (ek:=ek)). split_and!.
  - split.
    + eapply (split_shape (h:=h) Hs HK Hp Hn Hg Hgn Hj Hhg Hpr Hmid Hek Hq (conj Hq2 En2) Er En1 Q1 Q2 Q3 Q4 P1 P2 P3 P4 G1 G2 G3 G4 Ho').
    + exact (split_keys Hs HK Hp Hn Hg Hgn Hj Hhg Hmid Hq Q1 Q4 P1 P4 G1 G4 Ho').
    + destruct (decide (ht r = 0%nat)) as [Hh|Hh].
      * assert (is_leaf n = true) as Hl by tauto. destruct (P5 Hl) as [P6 P7]. destruct (Q5 Hl) as [Q6 Q7].
        eapply (split_links_leaf (h:=h) Hs Hp Hn Hg Hgn Hj Hhg Hmid Hq Q1 P1 HL Ef Hol Hh); try done.
        rewrite El. apply decide_ext. tauto.
      * eapply (split_links_node (h:=h) Hs Hp Hn Hg Hgn Hj Hhg Hmid Hq HL Ef Hol); [lia|].
        rewrite El, decide_False; [done|]. tauto.
    + assert (∀ x, is_Some (G !! x) → is_Some (split_ranges (G:=G) (p:=p) (q:=q) (r:=r) (ek:=ek) !! x)) as Hsub.
      { intros x Hx. unfold split_ranges. destruct (decide (x = q)) as [->|]; [rewrite lookup_insert_eq; eauto|].
        rewrite lookup_insert_ne by done. destruct (decide (x = p)) as [->|]; [rewrite lookup_insert_eq; eauto|]. by rewrite lookup_insert_ne. }
      destruct HE as [HE1 HE2]. rewrite El, Ef. split; [|by apply Hsub]. case_decide; [unfold split_ranges; rewrite lookup_insert_eq; eauto|by apply Hsub].
    + rewrite Em. eapply (split_sizes (h:=h) Hs Hp Hn Hg Hgn Hj Hhg Hpr Hmid Hek Hq Q1 Q4 P1 P4 G1 G4 Ho'); try done. lia.
    + by rewrite Em.
    + intros a b. rewrite Ec. apply HO.
  - assert (g ≠ p) as Hgp. { intros ->. assert (rg = r) as -> by congruence. destruct (kid Hs Hp Hn Hhg _ _ ltac:(rewrite Hn in Hgn; injection Hgn as ->; exact Hj)) as (rc & _ & Hc & _ & _ & Hht & _).
      assert (rc = r) as -> by congruence. lia. }
    unfold split_ranges. rewrite !lookup_insert_ne by congruence. done.
  - intros e. exact (split_holds Hs Hp Hn Hg Hgn Hj Hhg Hmid Hq Q1 Q4 P1 P4 G1 G4 Ho' e).
Qed.

(** The first part of [insert_into_parent] below a parent, after [split]. *)
Lemma splitted_parent h ns p n mid k q g gn j h1 ns1 : splitted h ns p n mid q h1 ns1 → q = num_pages_ h →
  parent n = g → ns !! g = Some gn → g ≠ p → g ≠ q → p ≠ q → ¬ (is_leaf n = false ∧ g ∈ drop mid (kids n)) →
  ∃ gn1 nq, ns1 !! g = Some gn1 ∧ pairs gn1 = pairs gn ∧ ns1 !! q = Some nq ∧ pairs nq = drop mid (pairs n) ∧
    split_to h ns p n mid k q g gn j h1
      (<[q := set_parent g nq]> (<[g := set_pairs (insert_pairs (j + 1) [(k, child_rid q)] (pairs gn1)) gn1]> ns1)).
Proof.
  intros [-> (nq & Q1 & Q2 & Q3 & Q4 & Q5) (np & P1 & P2 & P3 & P4 & P5) Ho] Hq Hpar Hgn Hgp Hgq Hpq Hnm.
  destruct (Ho g gn Hgp Hgq Hgn) as (gn1 & G1 & G2 & G3 & _ & _ & G6). rewrite decide_False in G6 by done.
  exists gn1, nq. split_and!; try done. split; try done; simpl.
  - lia.
  - exists (set_parent g nq). rewrite lookup_insert_eq. done.
  - exists np. rewrite !lookup_insert_ne by done. split_and!; try done. congruence.
  - exists (set_pairs (insert_pairs (j + 1) [(k, child_rid q)] (pairs gn1)) gn1). rewrite lookup_insert_ne, lookup_insert_eq by done.
    split_and!; try done. simpl. by rewrite G2.
  - intros x nx X1 X2 X3 Hx. rewrite !lookup_insert_ne by done. by apply Ho.
Qed.

(** The same at the root, against the tree that has grown by a level. *)
Lemma splitted_root h ns p n mid k k0 q h1 ns1 : splitted h ns p n mid q h1 ns1 → q = num_pages_ h → p = root_page_ h →
  p ≠ q → p ≠ q + 1 → let y := q + 1 in
  ∃ np nq, ns1 !! p = Some np ∧ parent np = parent n ∧ ns1 !! q = Some nq ∧ pairs nq = drop mid (pairs n) ∧
    split_to (set_root y (set_num_pages (y + 1) h)) (grow_nodes (h:=h) (ns:=ns) (y:=y) (n:=n) (k0:=k0)) p (set_parent y n) mid k q y
      (root_node (h:=h) (k0:=k0)) 0 (set_root y (set_num_pages (y + 1) h1))
      (<[q := set_parent y nq]> (<[p := set_parent y np]> (<[y := mk_IxNode IX_NO_PAGE false IX_NO_PAGE IX_NO_PAGE
        [(k0, child_rid p); (k, child_rid q)]]> ns1))).
Proof.
  intros [-> (nq & Q1 & Q2 & Q3 & Q4 & Q5) (np & P1 & P2 & P3 & P4 & P5) Ho] Hq Hp Hpq Hpy y. assert (q ≠ y) as Hqy by lia.
  exists np, nq. split_and!; try done. split; try done; simpl.
  - lia.
  - exists (set_parent y nq). rewrite lookup_insert_eq. done.
  - exists (set_parent y np). rewrite lookup_insert_ne, lookup_insert_eq by done. done.
  - eexists. rewrite lookup_insert_ne, lookup_insert_ne, lookup_insert_eq by (unfold y; lia). split; [done|]. split_and!; try done. by rewrite Hp.
  - intros x nx X1 X2 X3. rewrite !lookup_insert_ne by done. unfold grow_nodes. rewrite lookup_insert_ne, lookup_insert_ne by congruence. by apply Ho.
Qed.

Lemma length_insert_pairs u l es : length (insert_pairs u l es) = (length l + length es)%nat.
Proof. unfold insert_pairs. rewrite !length_app, length_take, length_drop. lia. Qed.

(** ** Splitting up to the root *)

(** What [insert_entry] and [insert_into_parent] do with a full node. *)
Definition split_up (fuel : nat) p : M IxIndexHandle unit :=
  q ← split ndebug p;
  nq ← node_at q;
  insert_into_parent ndebug fuel p (get_key (pairs nq) 0) q;;
  unpin q true.

Lemma mid_entry n : 2 ≤ Z.of_nat (length (pairs n)) → let mid := (length (pairs n) / 2)%nat in
  ∃ ek, pairs n !! mid = Some ek ∧ get_key (drop mid (pairs n)) 0 = ek.1.
Proof.
  intros Hlen mid. assert (mid < length (pairs n))%nat as Hlt by (apply Nat.div_lt; lia).
  destruct (lookup_lt_is_Some_2 (pairs n) mid Hlt) as [ek Hek]. exists ek. split; [done|]. unfold get_key. by rewrite lookup_drop, Nat.add_0_r, Hek.
Qed.

Lemma wp_set_root h ns P s y (Q : () → IxIndexHandle → Prop) : is_at h ns P s → (∀ s', is_at (set_root y h) ns P s' → Q () s') →
  wp (modify (λ s, set_hdr (set_root y (file_hdr_ s)) s)) s Q.
Proof. intros (<- & <- & <-) HQ. by apply HQ. Qed.

(** The root is split. *)
Lemma wp_new_root fuel h ns G H n P s (Q : () → IxIndexHandle → Prop) : tree_inv h ns G H (Some (root_page_ h)) →
  ns !! root_page_ h = Some n → Z.of_nat (length (pairs n)) = get_max_size h → (0 < fuel)%nat → is_at h ns P s →
  (∀ h' ns' G' s', is_at h' ns' P s' → tree_inv h' ns' G' (S H) None → (∀ e, holds ns' G' e ↔ holds ns G e) → Q () s') →
  wp (split_up fuel (root_page_ h)) s Q.
Proof.
  intros Hinv Hn Hlen Hfuel Hat HQ. pose proof (sh_root _ _ _ _ (ti_shape _ _ _ _ _ Hinv)) as HR.
  pose proof (ti_max _ _ _ _ _ Hinv) as HM. pose proof (sh_page _ _ _ _ (ti_shape _ _ _ _ _ Hinv) _ _ HR) as Hpg.
  destruct (mid_entry n ltac:(lia)) as (ek & Hek & Hkey). set (p := root_page_ h) in *. set (q := num_pages_ h) in *. set (mid := (length (pairs n) / 2)%nat) in *.
  apply wp_bind. eapply wp_split; [done..|]. fold mid q. intros h1 ns1 s1 H1 Hsp.
  set (y := q + 1). set (np := default blank_node (ns1 !! p)).
  destruct (splitted_root h ns p n mid ek.1 (get_key (pairs np) 0) q h1 ns1) as (np' & nq & Hp1 & Hpar & Hq1 & Hqe & Hto); [done..|lia|lia|].
  assert (np = np') as Enp by (unfold np; by rewrite Hp1). rewrite <-Enp in *. fold y in Hto.
  apply wp_bind. eapply wp_node_at; [done..|]. apply wp_bind. destruct fuel as [|fuel]; [lia|]. simpl.
  apply wp_bind. eapply wp_node_at; [done..|]. apply wp_bind. eapply wp_node_at; [done..|].
  rewrite Hpar, (sh_root_parent _ _ _ _ (ti_shape _ _ _ _ _ Hinv) _ Hn), decide_True by done. rewrite Hqe, Hkey.
  assert (num_pages_ h1 = y) as Ey by (rewrite (sp_hdr _ _ _ _ _ _ _ _ Hsp); done).
  apply wp_bind. eapply wp_create; [done|]. rewrite Ey. intros s2 H2.
  apply wp_bind. eapply wp_update; [done|apply lookup_insert_eq|]. intros s3 H3. rewrite insert_insert_eq in H3.
  apply wp_bind. eapply wp_update; [done|rewrite lookup_insert_ne by lia; done|]. intros s4 H4.
  apply wp_bind. eapply wp_update; [done|rewrite lookup_insert_ne, lookup_insert_ne by lia; done|]. intros s5 H5.
  apply wp_bind. eapply wp_set_root; [done|]. intros s6 H6. eapply wp_unpin; [done|done|]. intros s7 H7.
  eapply wp_unpin; [done|done|]. intros s8 H8.
  destruct Hinv as [Hs HK HL HE HS HM' HO].
  assert (G !! y = None) as Hy. { destruct (G !! y) as [ry|] eqn:E; [|done]. pose proof (sh_page _ _ _ _ Hs _ _ E). lia. }
  assert (G !! q = None) as Hq. { destruct (G !! q) as [rq|] eqn:E; [|done]. pose proof (sh_page _ _ _ _ Hs _ _ E). lia. }
  set (hg := set_root y (set_num_pages (y + 1) h)) in *.
  assert (tree_inv hg (grow_nodes (h:=h) (ns:=ns) (y:=y) (n:=n) (k0:=get_key (pairs np) 0)) (grow_ranges (G:=G) (H:=H) (y:=y)) (S H) (Some p)) as Hgrow.
  { split; try done.
    - apply grow_shape; try done; simpl; lia.
    - by eapply grow_keys.
    - eapply grow_links; done.
    - destruct HE as [[r1 E1] [r2 E2]]. simpl. by rewrite (grow_range Hy _ _ E1), (grow_range Hy _ _ E2).
    - eapply grow_sizes; try done. change (2 ≤ get_max_size h). lia. }
  assert (p ≠ y) as Hpy by lia. assert (q ≠ y) as Hqy by lia.
  edestruct (split_inv hg) as (G' & Hinv' & Hg' & Hh'); [exact Hgrow|by apply (grow_range Hy)
    |unfold grow_nodes; rewrite lookup_insert_ne, lookup_insert_eq by lia; done|done|done|apply lookup_insert_eq|apply lookup_insert_eq
    |simpl; lia| |exact Hek| | |exact Hto|]; [done| |lia|].
  { unfold grow_ranges. by rewrite lookup_insert_ne. }
  eapply HQ; [exact H8| |].
  - destruct Hinv' as [A1 A2 A3 A4 A5 A6 A7]. split; try done. eapply sizes_small; [done| |].
    + rewrite lookup_insert_ne, lookup_insert_ne, lookup_insert_eq by lia. done.
    + rewrite (sp_hdr _ _ _ _ _ _ _ _ Hsp). change (2 < get_max_size h). lia.
  - intros e. rewrite Hh'. by eapply grow_holds.
Qed.

Lemma wp_split_up fuel : ∀ h ns G H p r n P s (Q : () → IxIndexHandle → Prop), tree_inv h ns G H (Some p) → G !! p = Some r →
  ns !! p = Some n → Z.of_nat (length (pairs n)) = get_max_size h → (H - ht r < fuel)%nat → is_at h ns P s →
  (∀ h' ns' G' H' s', is_at h' ns' P s' → tree_inv h' ns' G' H' None → (∀ e, holds ns' G' e ↔ holds ns G e) → Q () s') →
  wp (split_up fuel p) s Q.
Proof.
  induction fuel as [|fuel IH]; intros h ns G H p r n P s Q Hinv Hp Hn Hlen Hfuel Hat HQ; [lia|].
  destruct (decide (p = root_page_ h)) as [->|Hpr].
  { eapply wp_new_root; [done..|lia|done|]. intros. by eapply HQ. }
  pose proof (ti_shape _ _ _ _ _ Hinv) as Hs. pose proof (ti_max _ _ _ _ _ Hinv) as HM.
  destruct (parent_of Hs _ _ _ Hp Hn Hpr) as (rg & gn & i & Hg & Hgn & Hht & Hi & _). set (g := parent n) in *.
  pose proof (sh_page _ _ _ _ Hs _ _ Hg) as Hgp. pose proof (sh_page _ _ _ _ Hs _ _ Hp) as Hpp. destruct (sh_range _ _ _ _ Hs _ _ Hg) as [_ Hle].
  destruct (find_child_spec _ _ _ Hi) as (j & ej & Hfc & Hj & Hej). assert (kids gn !! j = Some p) as Hkj by (apply kids_lookup; eauto).
  destruct (mid_entry n ltac:(lia)) as (ek & Hek & Hkey). set (q := num_pages_ h) in *. set (mid := (length (pairs n) / 2)%nat) in *.
  assert (G !! q = None) as Hq. { destruct (G !! q) as [rq|] eqn:E; [|done]. pose proof (sh_page _ _ _ _ Hs _ _ E). lia. }
  assert (g ≠ p) as Hne. { intros E. rewrite E in Hg. assert (rg = r) as -> by congruence. lia. }
  assert (Z.of_nat (length (pairs gn)) < get_max_size h) as Hgl.
  { destruct (ti_sizes _ _ _ _ _ Hinv _ _ _ Hg Hgn) as [?|[[= ?] _]]; [done|congruence]. }
  apply wp_bind. eapply wp_split; [done..|]. fold mid q. intros h1 ns1 s1 H1 Hsp.
  destruct (splitted_parent h ns p n mid ek.1 q g gn j h1 ns1) as (gn1 & nq & Hg1 & Hge & Hq1 & Hqe & Hto); [done..|lia|lia| |].
  { intros [El [x Hx]%list_elem_of_lookup]. rewrite lookup_drop in Hx. destruct (sh_node _ _ _ _ Hs _ _ Hp) as (n0 & Hn0 & El0).
    assert (n0 = n) as -> by congruence. rewrite El in El0. symmetry in El0. apply bool_decide_eq_false in El0.
    destruct (kid Hs Hp Hn ltac:(lia) _ _ Hx) as (rc & _ & Hc & _ & _ & Hhc & _). assert (rc = rg) as -> by congruence. lia. }
  destruct (split_inv h h1 ns _ G H p r n ek q g rg gn j Hinv Hp Hn Hpr Hlen Hg Hgn ltac:(lia) Hkj Hek Hq ltac:(lia) Hto) as (G' & Hinv' & Hg' & Hh').
  destruct (sp_old _ _ _ _ _ _ _ _ Hsp) as (np & Hp1 & Hpar & _).
  assert (get_max_size h1 = get_max_size h) as Em by (rewrite (sp_hdr _ _ _ _ _ _ _ _ Hsp); done).
  apply wp_bind. eapply wp_node_at; [done..|]. apply wp_bind. simpl. rewrite Hqe, Hkey.
  apply wp_bind. eapply wp_node_at; [done..|]. apply wp_bind. eapply wp_node_at; [done..|]. rewrite Hpar. fold g.
  rewrite decide_False by (unfold IX_NO_PAGE; lia). apply wp_bind. eapply wp_fetch; [done..|]. intros s2 H2.
  apply wp_bind. eapply wp_deref. { unfold find_child in *. by rewrite Hge. }
  apply wp_bind. eapply wp_hdr; [done|]. apply wp_bind. apply wp_assert. { apply bool_decide_eq_true. rewrite Hge, Em. lia. }
  apply wp_bind. eapply wp_update; [done..|]. intros s3 H3. apply wp_bind. eapply wp_update; [done|rewrite lookup_insert_ne by lia; done|]. intros s4 H4.
  set (ns2 := <[q := _]> _) in *. set (gn2 := set_pairs (insert_pairs (j + 1) [(ek.1, child_rid q)] (pairs gn1)) gn1) in *.
  assert (ns2 !! g = Some gn2) as Hg2 by (unfold ns2; rewrite lookup_insert_ne, lookup_insert_eq by lia; done).
  assert (length (pairs gn2) = S (length (pairs gn))) as Hl2.
  { unfold gn2. cbn [pairs set_pairs]. by rewrite length_insert_pairs, Hge. }
  apply wp_bind. rewrite Hge, Em. case_decide as Hfull.
  - fold (split_up fuel g). eapply (IH h1 ns2 G' H g rg gn2); [done|done|done|rewrite Em; lia|lia|done|].
    intros h' ns' G2 H2' s' Hat' Hinv2 Hh2. eapply wp_unpin; [done|done|]. intros s5 H5. eapply wp_unpin; [done|done|]. intros s6 H6.
    eapply HQ; [done..|]. intros e. by rewrite Hh2, Hh'.
  - apply wp_ret. eapply wp_unpin; [done|done|]. intros s5 H5. eapply wp_unpin; [done|done|]. intros s6 H6.
    eapply HQ; [done| |done]. destruct Hinv' as [A1 A2 A3 A4 A5 A6 A7]. split; try done. eapply sizes_small; [done..|]. rewrite Em. lia.
Qed.

(** ** [insert_entry] and [delete_entry] *)

Lemma tree_inv_leaf h ns G H p r n es : tree_inv h ns G H None → G !! p = Some r → ns !! p = Some n → ht r = 0%nat → leaf_ok r es →
  Z.of_nat (length es) ≤ get_max_size h → tree_inv h (<[p := set_pairs es n]> ns) G H (Some p).
Proof.
  intros [Hs HK HL HE HS HM HO] Hp Hn Hh Hes Hlen. split; try done.
  - eapply shape_ext; [done|by eapply same_kids_leaf|done|lia].
  - by eapply keys_leaf.
  - by eapply links_leaf.
  - by eapply sizes_leaf.
Qed.

Lemma tree_inv_small h ns G H p n : tree_inv h ns G H (Some p) → ns !! p = Some n → Z.of_nat (length (pairs n)) < get_max_size h →
  tree_inv h ns G H None.
Proof. intros [Hs HK HL HE HS HM HO] Hn Hlen. split; try done. by eapply sizes_small. Qed.

Lemma holds_update h ns G H p r n es e : shape h ns G H → G !! p = Some r → ns !! p = Some n → ht r = 0%nat → leaf_ok r es →
  holds (<[p := set_pairs es n]> ns) G e ↔ e ∈ es ∨ (holds ns G e ∧ (within (rank e.1) r → e ∈ es)).
Proof.
  intros Hs Hp Hn Hh Hes. split.
  - intros (q & rq & nq & Hq & Hhq & Hnq & He). destruct (decide (q = p)) as [->|Hne].
    + rewrite lookup_insert_eq in Hnq. injection Hnq as <-. by left.
    + rewrite lookup_insert_ne in Hnq by done. right. split; [by exists q, rq, nq|]. intros Hw. destruct Hne.
      destruct (sh_leaf _ _ _ _ Hs _ _ _ Hq Hnq Hhq) as [_ Hin]. destruct (Hin _ He) as [_ Hwq]. eapply (same_page Hs q p rq r); try done. congruence.
  - intros [He|[(q & rq & nq & Hq & Hhq & Hnq & He) Hw]].
    + exists p, r, (set_pairs es n). by rewrite lookup_insert_eq.
    + destruct (decide (q = p)) as [->|Hne].
      * exists p, r, (set_pairs es n). rewrite lookup_insert_eq. split_and!; try done. apply Hw.
        destruct (sh_leaf _ _ _ _ Hs _ _ _ Hq Hnq Hhq) as [_ Hin]. assert (rq = r) as -> by congruence. by apply Hin.
      * exists q, rq, nq. by rewrite lookup_insert_ne.
Qed.

Lemma wp_insert h ns G H k v P s (Q : Z → IxIndexHandle → Prop) : tree_inv h ns G H None → valid k → is_at h ns P s →
  (∀ s', is_at h ns P s' → (∃ e, holds ns G e ∧ rank e.1 = rank k) → Q IX_NO_PAGE s') →
  (∀ p h' ns' G' H' P' s', (∀ e, holds ns G e → rank e.1 ≠ rank k) → 2 ≤ p → is_at h' ns' P' s' → leak ndebug P P' → tree_inv h' ns' G' H' None →
    (∀ e, holds ns' G' e ↔ e = (k, v) ∨ holds ns G e) → Q p s') →
  wp (insert_entry ndebug k v) s Q.
Proof.
  intros Hinv Hv Hat HQ1 HQ2. pose proof Hinv as [Hs HK HL HE HS HM HO].
  apply wp_bind. eapply wp_find_leaf; [done..|]. intros p r n s1 Hp Hn Hh Hw H1.
  pose proof (sh_leaf _ _ _ _ Hs _ _ _ Hp Hn Hh) as Hleaf. pose proof (sh_page _ _ _ _ Hs _ _ Hp) as Hpg.
  apply wp_bind. eapply wp_hdr; [done|]. apply wp_bind. eapply wp_node_at; [done..|]. unfold node_insert.
  destruct (find_key h n k) as [pos|] eqn:Ef.
  { rewrite decide_True by done. apply wp_bind. eapply wp_unpin; [done|done|]. intros s2 H2. apply wp_ret. apply HQ1; [done|].
    destruct (leaf_find_some HO Hleaf Hv _ Ef) as (e & He & Hr). exists e. split; [|done]. exists p, r, n. split_and!; try done. by eapply list_elem_of_lookup_2. }
  set (es := insert_pairs (node_lower_bound h n k) [(k, v)] (pairs n)).
  assert (leaf_ok r es) as Hes by by eapply (insert_entries_ok HO Hleaf Hv).
  assert (length es = S (length (pairs n))) as Hlen by apply length_insert_pairs.
  assert (Z.of_nat (length (pairs n)) < get_max_size h) as Hsz by (destruct (HS _ _ _ Hp Hn) as [?|[? _]]; done).
  cbn [pairs set_pairs]. rewrite decide_False by lia. apply wp_bind. apply wp_assert; [apply bool_decide_eq_true; lia|].
  apply wp_bind. eapply wp_update; [done..|]. intros s2 H2. set (ns1 := <[p := set_pairs es n]> ns) in *.
  pose proof (tree_inv_leaf _ _ _ _ _ _ _ es Hinv Hp Hn Hh Hes ltac:(lia)) as Hinv1. fold ns1 in Hinv1.
  assert (ns1 !! p = Some (set_pairs es n)) as Hp1 by apply lookup_insert_eq.
  assert (∀ e, holds ns1 G e ↔ e = (k, v) ∨ holds ns G e) as Hh1.
  { intros e. unfold ns1. rewrite (holds_update h ns G H p r) by done. unfold es. rewrite elem_of_insert_pairs, list_elem_of_singleton.
    destruct (decide (within (rank e.1) r)) as [Hwe|Hwe]; [rewrite (holds_leaf Hs p r n e) by done; tauto|].
    assert (e ∉ pairs n). { intros He. by destruct (proj2 Hleaf _ He). } assert (e ≠ (k, v)) by (intros ->; done). tauto. }
  assert (∀ e, holds ns G e → rank e.1 ≠ rank k) as Hnew.
  { intros e He E. rewrite (holds_leaf Hs p r n e) in He by (done || by rewrite E). by apply (leaf_find_none HO Hleaf Hv e Ef He). }
  assert (H < fuel_of s2)%nat as Hfuel. { pose proof (height_pages Hs). destruct H2 as (E & _). unfold fuel_of. rewrite E. lia. }
  apply wp_bind. change (wp get s2 ?Q) with (Q s2 s2). cbv beta. apply wp_bind.
  case_decide as Hfull; [|case_decide as H0].
  - change (wp (split_up (fuel_of s2) p) s2 (λ _ s', wp (unpin p true;; mret p) s' Q)).
    eapply wp_split_up; [done|done|done|cbn [pairs set_pairs] in *; lia|lia|done|]. intros h' ns' G' H' s' Hat' Hinv' Hh'.
    apply wp_bind. eapply wp_unpin; [done|done|]. intros s3 H3. apply wp_ret.
    eapply HQ2; [done|lia|done|apply leak_refl|done|]. intros e. by rewrite Hh'.
  - destruct (lookup_lt_is_Some_2 es 0) as [f Hf]; [lia|].
    eapply (wp_maintain_leaf h G H _ p r (set_pairs es n) f ns1); [|done|done|done|done|done|done|].
    + eapply tree_inv_small; [done..|]. cbn [pairs set_pairs] in *. lia.
    + intros ns' G' P' s' Hat' Hlk Hinv' Hh'. destruct (leak_sub _ _ _ _ Hlk) as (P3 & -> & Hlk').
      apply wp_bind. eapply wp_unpin; [done|done|]. intros s3 H3. apply wp_ret.
      eapply HQ2; [done|lia|done..|]. intros e. by rewrite Hh'.
  - apply wp_ret. apply wp_bind. eapply wp_unpin; [done|done|]. intros s3 H3. apply wp_ret.
    eapply HQ2; [done|lia|done|apply leak_refl| |done]. eapply tree_inv_small; [done..|]. cbn [pairs set_pairs] in *. lia.
Qed.

Lemma length_erase_pair pos es : (pos < length es)%nat → S (length (erase_pair pos es)) = length es.
Proof. intros. unfold erase_pair. rewrite length_app, length_take, length_drop. lia. Qed.

Lemma wp_delete h ns G H k P s (Q : bool → IxIndexHandle → Prop) : tree_inv h ns G H None → valid k → is_at h ns P s →
  (∀ s', is_at h ns P s' → (∀ e, holds ns G e → rank e.1 ≠ rank k) → Q false s') →
  (∀ ns' G' P' s', (∃ e, holds ns G e ∧ rank e.1 = rank k) → is_at h ns' P' s' → leak ndebug P P' → tree_inv h ns' G' H None →
    (∀ e, holds ns' G' e ↔ holds ns G e ∧ rank e.1 ≠ rank k) → Q true s') →
  wp (delete_entry ndebug k) s Q.
Proof.
  intros Hinv Hv Hat HQ1 HQ2. pose proof Hinv as [Hs HK HL HE HS HM HO].
  apply wp_bind. eapply wp_find_leaf; [done..|]. intros p r n s1 Hp Hn Hh Hw H1.
  pose proof (sh_leaf _ _ _ _ Hs _ _ _ Hp Hn Hh) as Hleaf.
  apply wp_bind. eapply wp_hdr; [done|]. apply wp_bind. eapply wp_node_at; [done..|]. unfold node_remove.
  destruct (find_key h n k) as [pos|] eqn:Ef.
  2:{ rewrite bool_decide_eq_true_2 by done. simpl. apply wp_bind. eapply wp_update; [done..|]. intros s2 H2. rewrite insert_id in H2 by done.
      apply wp_bind. change (wp get s2 ?Q) with (Q s2 s2). cbv beta. apply wp_bind. apply wp_ret. apply wp_bind.
      eapply wp_unpin; [done|done|]. intros s3 H3. apply wp_ret. apply HQ1; [done|]. intros e He E.
      rewrite (holds_leaf Hs p r n e) in He by (done || by rewrite E). by apply (leaf_find_none HO Hleaf Hv e Ef He). }
  destruct (leaf_find_some HO Hleaf Hv _ Ef) as (ep & Hep & Hrp). set (es := erase_pair pos (pairs n)).
  assert (S (length es) = length (pairs n)) as Hlen by (apply length_erase_pair; by eapply lookup_lt_Some).
  assert (leaf_ok r es) as Hes by by eapply erase_entries_ok.
  assert (Z.of_nat (length (pairs n)) < get_max_size h) as Hsz by (destruct (HS _ _ _ Hp Hn) as [?|[? _]]; done).
  cbn [pairs set_pairs]. rewrite bool_decide_eq_false_2 by lia. cbn [negb andb].
  apply wp_bind. eapply wp_update; [done..|]. intros s2 H2. set (ns1 := <[p := set_pairs es n]> ns) in *.
  assert (tree_inv h ns1 G H None) as Hinv1.
  { eapply tree_inv_small; [eapply tree_inv_leaf; [done..|lia]|apply lookup_insert_eq|]. cbn [pairs set_pairs]. lia. }
  assert (∀ e, holds ns1 G e ↔ holds ns G e ∧ rank e.1 ≠ rank k) as Hh1.
  { intros e. unfold ns1. rewrite (holds_update h ns G H p r) by done. unfold es. rewrite (elem_of_erase HO Hleaf Hv _ e Ef).
    destruct (decide (within (rank e.1) r)) as [Hwe|Hwe]; [rewrite (holds_leaf Hs p r n e) by done; tauto|].
    assert (rank e.1 ≠ rank k) by (intros E; rewrite E in Hwe; done). assert (e ∉ pairs n) by (intros He; by destruct (proj2 Hleaf _ He)). tauto. }
  assert (∃ e, holds ns G e ∧ rank e.1 = rank k) as Hold.
  { exists ep. split; [|done]. exists p, r, n. split_and!; try done. by eapply list_elem_of_lookup_2. }
  assert (H < fuel_of s2)%nat as Hfuel. { pose proof (height_pages Hs). destruct H2 as (E & _). unfold fuel_of. rewrite E. lia. }
  apply wp_bind. change (wp get s2 ?Q) with (Q s2 s2). cbv beta. apply wp_bind. case_bool_decide as Hne.
  - destruct (lookup_lt_is_Some_2 es 0) as [f Hf]; [done|].
    eapply (wp_maintain_leaf h G H _ p r (set_pairs es n) f ns1); [done|done|apply lookup_insert_eq|done|done|done|done|].
    intros ns' G' P' s' Hat' Hlk Hinv' Hh'. destruct (leak_sub _ _ _ _ Hlk) as (P3 & -> & Hlk').
    apply wp_bind. eapply wp_unpin; [done|done|]. intros s3 H3. apply wp_ret. eapply HQ2; [done..|]. intros e. by rewrite Hh'.
  - apply wp_ret. apply wp_bind. eapply wp_unpin; [done|done|]. intros s3 H3. apply wp_ret.
    eapply HQ2; [done|done|apply leak_refl|done|done].
Qed.
End ops.
End IxOps.
