(* ===== verification/IndexKeys.v ===== *)
(** * The order of index keys

    [ix_compare] compares composite keys column by column.  On keys of the length of the
    index whose floats are not NaN it is the comparison of a rank, the number that has the
    columns as its digits: what the B+ tree needs of it. *)

From Stdlib Require Import SpecFloat.
From S2P Require Import Prelude Conditions Index IndexTree.

Module IxKeys.
Import Cond Ix IxTree.

(** ** Columns *)

(** Bytes as a number, the first byte first. *)
Fixpoint big_endian (bs : list byte) : Z :=
  match bs with [] => 0 | b :: bs => byte.unsigned b * 256 ^ Z.of_nat (length bs) + big_endian bs end.

Definition col_rank (type : ColType) (len : Z) (a : key) : Z :=
  match type with
  | TYPE_INT => int_of (take 4 a) + 2147483648
  | TYPE_FLOAT => fbits_key (dec_u32 (take 4 a)) + 2147483648
  | TYPE_STRING => big_endian (take (Z.to_nat len) a)
  end.

Definition col_bound (type : ColType) (len : Z) : Z :=
  match type with TYPE_STRING => 256 ^ len | _ => 4294967296 end.

Definition col_valid (type : ColType) (len : Z) (a : key) : Prop :=
  match type with
  | TYPE_INT => True
  | TYPE_FLOAT => not_nan (dec_u32 (take 4 a))
  | TYPE_STRING => 0 ≤ len ≤ Z.of_nat (length a)
  end.

Fixpoint key_bound (cols : list (ColType * Z)) : Z :=
  match cols with [] => 1 | (type, len) :: cols => col_bound type len * key_bound cols end.

Fixpoint key_rank (cols : list (ColType * Z)) (a : key) : Z :=
  match cols with
  | [] => 0
  | (type, len) :: cols => col_rank type len a * key_bound cols + key_rank cols (drop (Z.to_nat len) a)
  end.

Fixpoint key_valid (cols : list (ColType * Z)) (a : key) : Prop :=
  match cols with
  | [] => True
  | (type, len) :: cols => col_valid type len a ∧ 0 ≤ len ∧ key_valid cols (drop (Z.to_nat len) a)
  end.

(** ** Digits *)

(** A number compares by its first digit, then by the rest. *)
Lemma digit_compare W x y u v : 0 ≤ u < W → 0 ≤ v < W →
  (x * W + u ?= y * W + v) = match x ?= y with Eq => u ?= v | c => c end.
Proof.
  intros Hu Hv. destruct (Z.compare_spec x y) as [->|Hlt|Hgt].
  - destruct (Z.compare_spec u v); [apply Z.compare_eq_iff|apply Z.compare_lt_iff|apply Z.compare_gt_iff]; lia.
  - apply Z.compare_lt_iff. nia.
  - apply Z.compare_gt_iff. nia.
Qed.

Lemma big_endian_bound bs : 0 ≤ big_endian bs < 256 ^ Z.of_nat (length bs).
Proof.
  induction bs as [|b bs IH]; [simpl; lia|]. cbn [big_endian length]. rewrite Nat2Z.inj_succ, Z.pow_succ_r by lia.
  pose proof (byte.unsigned_range b) as Hb. change (2 ^ 8) with 256 in Hb. nia.
Qed.

Lemma byte_compare_rank a : ∀ b, length a = length b → byte_compare a b = (big_endian a ?= big_endian b).
Proof.
  induction a as [|x a IH]; intros [|y b]; try done. cbn [length]. intros [= Hl]. cbn [byte_compare big_endian]. rewrite Hl.
  rewrite digit_compare; [by rewrite (IH b)|rewrite <-Hl; apply big_endian_bound|apply big_endian_bound].
Qed.

Lemma col_rank_bound type len a : col_valid type len a → 0 ≤ len → 0 ≤ col_rank type len a < col_bound type len.
Proof.
  intros Hv Hlen. destruct type; simpl in *.
  - unfold int_of, dec_i32, wraps. change (2 ^ (32 - 1)) with 2147483648. change (2 ^ 32) with 4294967296.
    pose proof (Z.mod_pos_bound (le_combine (take 4 a) + 2147483648) 4294967296). lia.
  - unfold fbits_key. pose proof (Z.mod_pos_bound (dec_u32 (take 4 a)) 2147483648). unfold not_nan in Hv. case_match; lia.
  - pose proof (big_endian_bound (take (Z.to_nat len) a)) as Hb. rewrite length_take, Nat.min_l, Z2Nat.id in Hb by lia. lia.
Qed.

Lemma col_compare_rank type len a b : col_valid type len a → col_valid type len b →
  ix_compare_col a b type len = (col_rank type len a ?= col_rank type len b).
Proof.
  assert (∀ x y z : Z, (x + z ?= y + z) = (x ?= y)) as Hadd by (intros x y z; rewrite Z.add_comm, (Z.add_comm y); apply Zcompare_plus_compat).
  intros Ha Hb. destruct type; cbn [ix_compare_col col_rank col_valid] in *.
  - by rewrite Hadd.
  - unfold float_of. pose proof (le_combine_bound (take 4 a)). pose proof (le_combine_bound (take 4 b)).
    pose proof (float_compare_key (dec_u32 (take 4 a)) (dec_u32 (take 4 b)) ltac:(unfold dec_u32; lia) ltac:(unfold dec_u32; lia) Ha Hb) as H1.
    pose proof (float_compare_key (dec_u32 (take 4 b)) (dec_u32 (take 4 a)) ltac:(unfold dec_u32; lia) ltac:(unfold dec_u32; lia) Hb Ha) as H2.
    unfold SFltb. rewrite H1, H2, Hadd. rewrite (Z.compare_antisym (fbits_key (dec_u32 (take 4 a)))).
    by destruct (fbits_key (dec_u32 (take 4 a)) ?= fbits_key (dec_u32 (take 4 b))).
  - apply byte_compare_rank. rewrite !length_take. lia.
Qed.

(** ** Keys *)

Lemma key_rank_bound cols : ∀ a, key_valid cols a → 0 ≤ key_rank cols a < key_bound cols.
Proof.
  induction cols as [|[type len] cols IH]; intros a Hv; cbn [key_rank key_bound key_valid] in *; [lia|].
  destruct Hv as (H1 & H2 & H3). pose proof (IH _ H3). pose proof (col_rank_bound _ _ _ H1 H2). nia.
Qed.

Lemma ix_compare_rank cols : ∀ a b, key_valid cols a → key_valid cols b →
  ix_compare a b cols = (key_rank cols a ?= key_rank cols b).
Proof.
  induction cols as [|[type len] cols IH]; intros a b Ha Hb; [done|]. cbn [ix_compare key_rank key_valid] in *.
  destruct Ha as (A1 & A2 & A3), Hb as (B1 & B2 & B3).
  rewrite (digit_compare (key_bound cols)) by by apply key_rank_bound.
  rewrite (col_compare_rank _ _ _ _ A1 B1), (IH _ _ A3 B3). done.
Qed.

(** The comparison of an index is an order for its tree. *)
Definition key_cmp (cols : list (ColType * Z)) (a b : key) : comparison := ix_compare a b cols.

#[global] Instance ix_key_order cols : KeyOrder (key_cmp cols) := {|
  valid := key_valid cols;
  rank := key_rank cols;
  cmp_rank := ix_compare_rank cols
|}.
End IxKeys.
