(* ===== verification/IndexSpec.v ===== *)
(** * The B+ tree index against its specification

    An index is a finite map from the rank of a key to an entry, a key with its record id.
    Keys that compare equal have one rank, so a key has at most one entry.  The theorems
    state what the operations of [IxIndexHandle] do to that map, in every build. *)

From stdpp Require Import gmultiset.
From S2P Require Import Prelude RecordFile Conditions Index IndexTree IndexSplit IndexFacts IndexOps IndexKeys.

Module IxSpec.
Import RecFile Cond Ix IxTree IxFacts IxOps IxKeys.

(** ** The entries of an index *)

(** The nodes of [s] form a B+ tree, ordered by the columns [cols], with the entries of [m]. *)
Definition index_ok (cols : list (ColType * Z)) (s : IxIndexHandle) (m : gmap Z entry) : Prop :=
  ∃ G H, tree_inv (cmp:=key_cmp cols) (file_hdr_ s) (nodes s) G H None ∧
    ∀ z e, m !! z = Some e ↔ holds (nodes s) G e ∧ key_rank cols e.1 = z.

(** Two handles with the same pages, up to the pages in the pool that are dirty. *)
Definition same_index (s s' : IxIndexHandle) : Prop := is_at (file_hdr_ s) (nodes s) (pinned s) s'.

(** ** Runs of operations *)

Inductive op := OpInsert (k : key) (v : Rid) | OpDelete (k : key) | OpGet (k : key).
Inductive out := Inserted (b : bool) | Deleted (b : bool) | Found (v : option Rid).

Definition op_key (o : op) : key := match o with OpInsert k _ | OpDelete k | OpGet k => k end.

Definition run_op (ndebug : bool) (o : op) : M IxIndexHandle out :=
  match o with
  | OpInsert k v => p ← insert_entry ndebug k v; mret (Inserted (bool_decide (p ≠ IX_NO_PAGE)))
  | OpDelete k => b ← delete_entry ndebug k; mret (Deleted b)
  | OpGet k => v ← get_value k; mret (Found v)
  end.

Fixpoint run_ops (ndebug : bool) (os : list op) : M IxIndexHandle (list out) :=
  match os with [] => mret [] | o :: os => x ← run_op ndebug o; xs ← run_ops ndebug os; mret (x :: xs) end.

(** The specification: the first entry of a key stays. *)
Definition spec_op (cols : list (ColType * Z)) (o : op) (m : gmap Z entry) : out * gmap Z entry :=
  let z := key_rank cols (op_key o) in
  match o with
  | OpInsert k v => match m !! z with Some _ => (Inserted false, m) | None => (Inserted true, <[z := (k, v)]> m) end
  | OpDelete _ => match m !! z with Some _ => (Deleted true, delete z m) | None => (Deleted false, m) end
  | OpGet _ => (Found (snd <$> m !! z), m)
  end.

Fixpoint spec_ops (cols : list (ColType * Z)) (os : list op) (m : gmap Z entry) : list out * gmap Z entry :=
  match os with
  | [] => ([], m)
  | o :: os => let '(x, m1) := spec_op cols o m in let '(xs, m2) := spec_ops cols os m1 in (x :: xs, m2)
  end.

Section spec.
Context (cols : list (ColType * Z)) (ndebug : bool).
Implicit Types (k : key) (v : Rid) (e : entry) (s : IxIndexHandle) (m : gmap Z entry).

Lemma index_ok_at s m G H h ns P : is_at h ns P s → tree_inv (cmp:=key_cmp cols) h ns G H None →
  (∀ z e, m !! z = Some e ↔ holds ns G e ∧ key_rank cols e.1 = z) → index_ok cols s m.
Proof. intros (<- & <- & _) Hi Hh. by exists G, H. Qed.

Lemma index_ok_same s s' m : index_ok cols s m → same_index s s' → index_ok cols s' m.
Proof. intros (G & H & Hi & Hm) Hs. by eapply index_ok_at. Qed.

(** At most one entry of a tree has a rank. *)
Lemma map_none m (hs : entry → Prop) z : (∀ z e, m !! z = Some e ↔ hs e ∧ key_rank cols e.1 = z) →
  m !! z = None ↔ ∀ e, hs e → key_rank cols e.1 ≠ z.
Proof.
  intros Hm. split.
  - intros Hn e He E. assert (m !! z = Some e) by by apply Hm. congruence.
  - intros Hno. destruct (m !! z) as [e|] eqn:E; [|done]. apply Hm in E as [He Hz]. by destruct (Hno e He).
Qed.

Lemma get_value_ok k s m : index_ok cols s m → key_valid cols k →
  ∃ s', get_value k s = (Ok (snd <$> m !! key_rank cols k), s') ∧ same_index s s'.
Proof.
  intros (G & H & [Hs HK HL HE HS HM HO] & Hm) Hv.
  destruct (wp_run (get_value k) s (λ x s', x = (snd <$> m !! key_rank cols k) ∧ same_index s s')) as (x & s' & Hrun & -> & Hsame); [|by exists s'].
  eapply (wp_get_value Hs HK HO (k:=k) Hv (pinned s)); [done|]. intros s' v Hat Hval. split; [|done]. destruct v as [v|].
  - destruct Hval as (k' & Hh & Hr). assert (m !! key_rank cols k = Some (k', v)) as -> by by apply Hm. done.
  - assert (m !! key_rank cols k = None) as -> by (by apply (map_none m _ _ Hm)). done.
Qed.

Lemma index_insert_ok k v s m : index_ok cols s m → key_valid cols k →
  ∃ p s', insert_entry ndebug k v s = (Ok p, s') ∧ leak ndebug (pinned s) (pinned s') ∧
    match m !! key_rank cols k with
    | Some _ => p = IX_NO_PAGE ∧ same_index s s'
    | None => p ≠ IX_NO_PAGE ∧ index_ok cols s' (<[key_rank cols k := (k, v)]> m)
    end.
Proof.
  intros (G & H & Hi & Hm) Hv. apply (wp_run (insert_entry ndebug k v) s).
  eapply (wp_insert ndebug _ _ G H k v (pinned s)); [done|exact Hv|done|..].
  - intros s' Hat (e & He & Hr). assert (m !! key_rank cols k = Some e) as -> by by apply Hm.
    pose proof Hat as (_ & _ & ->). split; [apply leak_refl|done].
  - intros p h' ns' G' H' P' s' Hnew Hp Hat Hlk Hi' Hh. assert (m !! key_rank cols k = None) as -> by (by apply (map_none m _ _ Hm)).
    pose proof Hat as (_ & _ & ->). split_and!; [done|unfold IX_NO_PAGE; lia|]. eapply index_ok_at; [done..|].
    intros z e. rewrite Hh. destruct (decide (z = key_rank cols k)) as [->|Hne].
    + rewrite lookup_insert_eq. split; [intros [= <-]; by split; [left|]|]. intros [[->|He] Hz]; [done|]. by destruct (Hnew e He).
    + rewrite lookup_insert_ne, Hm by done. split; [tauto|]. intros [[->|He] <-]; [done|]. done.
Qed.

Lemma index_delete_ok k s m : index_ok cols s m → key_valid cols k →
  ∃ s', delete_entry ndebug k s = (Ok (bool_decide (is_Some (m !! key_rank cols k))), s') ∧ leak ndebug (pinned s) (pinned s') ∧
    index_ok cols s' (delete (key_rank cols k) m) ∧ (m !! key_rank cols k = None → same_index s s').
Proof.
  intros (G & H & Hi & Hm) Hv.
  destruct (wp_run (delete_entry ndebug k) s (λ b s', b = bool_decide (is_Some (m !! key_rank cols k)) ∧ leak ndebug (pinned s) (pinned s') ∧
    index_ok cols s' (delete (key_rank cols k) m) ∧ (m !! key_rank cols k = None → same_index s s'))) as (b & s' & Hrun & -> & Hrest); [|by exists s'].
  eapply (wp_delete ndebug _ _ G H k (pinned s)); [done|exact Hv|done|..].
  - intros s' Hat Hno. assert (m !! key_rank cols k = None) as Hn by (by apply (map_none m _ _ Hm)). rewrite Hn. pose proof Hat as (_ & _ & ->).
    split_and!; [done|apply leak_refl| |done]. rewrite delete_id by done. by eapply index_ok_at.
  - intros ns' G' P' s' (e & He & Hr) Hat Hlk Hi' Hh. assert (m !! key_rank cols k = Some e) as Hk by by apply Hm. rewrite Hk.
    pose proof Hat as (_ & _ & ->). split_and!; [by rewrite bool_decide_eq_true_2|done| |done]. eapply index_ok_at; [done..|].
    intros z e'. rewrite Hh, lookup_delete_Some, Hm. split; [intros (? & ? & <-)|intros ((? & ?) & <-)]; split_and!; try done; congruence.
Qed.

(** ** Refinement *)

Lemma run_op_ok o s m : index_ok cols s m → key_valid cols (op_key o) →
  ∃ s', run_op ndebug o s = (Ok (spec_op cols o m).1, s') ∧ index_ok cols s' (spec_op cols o m).2 ∧ leak ndebug (pinned s) (pinned s').
Proof.
  intros Hi Hv. destruct o as [k v|k|k]; cbn [run_op spec_op op_key] in *.
  - destruct (index_insert_ok k v s m Hi Hv) as (p & s' & Hrun & Hlk & Hres). exists s'. rewrite (bind_ok _ _ _ _ _ Hrun).
    destruct (m !! key_rank cols k) as [e|]; destruct Hres as [Hp Hres].
    + rewrite bool_decide_eq_false_2 by (intros Hn; by destruct (Hn Hp)). split_and!; [done| |done]. by eapply index_ok_same.
    + rewrite bool_decide_eq_true_2 by done. by split_and!.
  - destruct (index_delete_ok k s m Hi Hv) as (s' & Hrun & Hlk & Hd & Hsame). exists s'. rewrite (bind_ok _ _ _ _ _ Hrun).
    destruct (m !! key_rank cols k) as [e|] eqn:E; [by rewrite bool_decide_eq_true_2|].
    rewrite bool_decide_eq_false_2 by (by intros []). split_and!; [done| |done]. eapply index_ok_same; [done|]. by apply Hsame.
  - destruct (get_value_ok k s m Hi Hv) as (s' & Hrun & Hsame). exists s'. rewrite (bind_ok _ _ _ _ _ Hrun).
    split_and!; [done|by eapply index_ok_same|]. destruct Hsame as (_ & _ & ->). apply leak_refl.
Qed.

Lemma run_ops_ok os : ∀ s m, index_ok cols s m → Forall (λ o, key_valid cols (op_key o)) os →
  ∃ s', run_ops ndebug os s = (Ok (spec_ops cols os m).1, s') ∧ index_ok cols s' (spec_ops cols os m).2 ∧ leak ndebug (pinned s) (pinned s').
Proof.
  induction os as [|o os IH]; intros s m Hi Hv; [exists s; split_and!; [done..|apply leak_refl]|].
  apply Forall_cons in Hv as [Hv Hvs]. destruct (run_op_ok o s m Hi Hv) as (s1 & Hrun & Hi1 & Hlk).
  cbn [run_ops spec_ops]. rewrite (bind_ok _ _ _ _ _ Hrun). destruct (spec_op cols o m) as [x m1]. simpl in Hi1.
  destruct (IH s1 m1 Hi1 Hvs) as (s2 & Hruns & Hi2 & Hlk2). rewrite (bind_ok _ _ _ _ _ Hruns). destruct (spec_ops cols os m1) as [xs m2].
  exists s2. split_and!; [done..|]. by eapply leak_trans.
Qed.
End spec.
End IxSpec.
