(* ===== verification/IndexFile.v ===== *)
(** * Index files ([index/ix_defs.h], [index/ix_manager.h], the page layout of [IxNodeHandle])

    The bytes of an index file: the header in page 0, which grows with the number of columns,
    and the nodes, each a page header, an array of keys and an array of record ids.  Creating
    an index writes the header, the page of the list of leaves and an empty root; opening it
    reads the header back.

    The nodes of [Index] are lists of pairs; [insert_pairs_page] and [erase_pair_page] are the
    [memmove]s of the source on the bytes of a page, and are shown to be the operations on
    those lists. *)

From stdpp Require Import gmultiset.
From S2P Require Import Prelude Disk RecordFile Conditions Index IndexTree IndexSplit IndexFacts IndexOps IndexKeys IndexSpec.

Module IxFile.
Import RecFile Cond Ix IxKeys IxSpec.

(** ** The file header *)

Definition ColType_code (t : ColType) : Z := match t with TYPE_INT => 0 | TYPE_FLOAT => 1 | TYPE_STRING => 2 end.
Definition ColType_of_code (z : Z) : ColType :=
  if decide (z = 0) then TYPE_INT else if decide (z = 1) then TYPE_FLOAT else TYPE_STRING.

Definition col_num (h : IxFileHdr) : Z := Z.of_nat (length (col_types_ h)).

(** [update_tot_len] *)
Definition header_len (n : Z) : Z := 4 * 4 + 4 * 6 + (4 * n + 4 * n).

Definition serialize (h : IxFileHdr) : list byte :=
  enc_int 4 (tot_len_ h) ++ enc_int 4 (first_free_page_no_ h) ++ enc_int 4 (num_pages_ h) ++ enc_int 4 (root_page_ h) ++
  enc_int 4 (col_num h) ++ concat ((λ t, enc_int 4 (ColType_code t)) <$> col_types_ h) ++ concat (enc_int 4 <$> col_lens_ h) ++
  enc_int 4 (col_tot_len_ h) ++ enc_int 4 (btree_order_ h) ++ enc_int 4 (keys_size_ h) ++ enc_int 4 (first_leaf_ h) ++ enc_int 4 (last_leaf_ h).

Definition int_at (bs : list byte) (off : nat) : Z := dec_i32 (read_bytes bs off 4).
Definition ints_at (bs : list byte) (off n : nat) : list Z := (λ i, int_at bs (off + 4 * i)) <$> seq 0 n.

Definition deserialize (src : list byte) : IxFileHdr :=
  let n := Z.to_nat (int_at src 16) in
  let off := (20 + 8 * n)%nat in
  mk_IxFileHdr (int_at src 4) (int_at src 8) (int_at src 12) (ColType_of_code <$> ints_at src 20 n) (ints_at src (20 + 4 * n) n)
    (int_at src off) (int_at src (off + 4)) (int_at src (off + 8)) (int_at src (off + 12)) (int_at src (off + 16)) (int_at src 0).

(** ** The bytes of a node *)

Definition sizeof_IxPageHdr : nat := 24.
Definition sizeof_Rid : nat := 8.

Definition key_off (h : IxFileHdr) (i : nat) : nat := (sizeof_IxPageHdr + i * Z.to_nat (col_tot_len_ h))%nat.
Definition rid_off (h : IxFileHdr) (i : nat) : nat := (sizeof_IxPageHdr + Z.to_nat (keys_size_ h) + i * sizeof_Rid)%nat.

Definition page_key (h : IxFileHdr) (bs : list byte) (i : nat) : key := read_bytes bs (key_off h i) (Z.to_nat (col_tot_len_ h)).
Definition rid_of_bytes (bs : list byte) : Rid := mk_Rid (dec_i32 (read_bytes bs 0 4)) (dec_i32 (read_bytes bs 4 4)).
Definition rid_bytes (r : Rid) : list byte := enc_int 4 (page_no r) ++ enc_int 4 (slot_no r).
Definition page_rid (h : IxFileHdr) (bs : list byte) (i : nat) : Rid := rid_of_bytes (read_bytes bs (rid_off h i) sizeof_Rid).

Definition get_size (bs : list byte) : nat := Z.to_nat (int_at bs 8).
Definition set_size (n : nat) (bs : list byte) : list byte := write_bytes bs 8 (enc_int 4 (Z.of_nat n)).

Definition page_pairs (h : IxFileHdr) (bs : list byte) : list (key * Rid) :=
  (λ i, (page_key h bs i, page_rid h bs i)) <$> seq 0 (get_size bs).

(** The node in a page. *)
Definition node_of_bytes (h : IxFileHdr) (bs : list byte) : IxNode :=
  mk_IxNode (int_at bs 4) (negb (bool_decide (le_combine (read_bytes bs 12 1) = 0))) (int_at bs 16) (int_at bs 20) (page_pairs h bs).

Definition memmove (bs : list byte) (dst src n : nat) : list byte := write_bytes bs dst (read_bytes bs src n).

(** [IxNodeHandle::insert_pairs] on the bytes of the page: [ks] and [rs] are the bytes at the
    addresses that are given. *)
Definition insert_pairs_page (h : IxFileHdr) (pos : nat) (ks rs : list byte) (n : nat) (bs : list byte) : list byte :=
  let len := Z.to_nat (col_tot_len_ h) in
  let tail := (get_size bs - pos)%nat in
  let size := get_size bs in
  let bs := if decide (0 < tail)%nat then
              memmove (memmove bs (key_off h (pos + n)) (key_off h pos) (tail * len)) (rid_off h (pos + n)) (rid_off h pos) (tail * sizeof_Rid)
            else bs in
  let bs := write_bytes bs (key_off h pos) (take (n * len) ks) in
  let bs := write_bytes bs (rid_off h pos) (take (n * sizeof_Rid) rs) in
  set_size (size + n) bs.

(** [IxNodeHandle::erase_pair]. *)
Definition erase_pair_page (h : IxFileHdr) (pos : nat) (bs : list byte) : list byte :=
  let len := Z.to_nat (col_tot_len_ h) in
  let tail := (get_size bs - pos - 1)%nat in
  let size := get_size bs in
  let bs := if decide (0 < tail)%nat then
              memmove (memmove bs (key_off h pos) (key_off h (pos + 1)) (tail * len)) (rid_off h pos) (rid_off h (pos + 1)) (tail * sizeof_Rid)
            else bs in
  set_size (size - 1) bs.

(** ** [IxManager] *)

Definition get_index_name (filename : string) (index_cols : list ColMeta) : string :=
  (foldl (λ s c, s +:+ "_" +:+ String.string_of_list_byte (cm_name c)) filename index_cols +:+ ".idx")%string.

(** The header of a new index. *)
Definition make_ix_hdr (index_cols : list ColMeta) : IxFileHdr :=
  let col_tot_len := foldl Z.add 0 (cm_len <$> index_cols) in
  let btree_order := (PAGE_SIZE - 24) / (col_tot_len + 8) - 1 in
  mk_IxFileHdr IX_NO_PAGE IX_INIT_NUM_PAGES IX_INIT_ROOT_PAGE (cm_type <$> index_cols) (cm_len <$> index_cols) col_tot_len btree_order
    ((btree_order + 1) * col_tot_len) IX_INIT_ROOT_PAGE IX_INIT_ROOT_PAGE (header_len (Z.of_nat (length index_cols))).

(** A page with a header and zeros. *)
Definition blank_leaf_page (prev next : Z) : list byte :=
  enc_int 4 IX_NO_PAGE ++ enc_int 4 IX_NO_PAGE ++ enc_int 4 0 ++ enc_int 4 1 ++ enc_int 4 prev ++ enc_int 4 next ++
  replicate (Z.to_nat PAGE_SIZE - 24) Byte.x00.

Section manager.
Context (os_fd : gmap Z string → Z) (ndebug : bool).

Definition create_index (filename : string) (index_cols : list ColMeta) : M Disk.DiskManager unit :=
  let ix_name := get_index_name filename index_cols in
  Disk.create_file ix_name;;
  fd ← Disk.open_file os_fd ix_name;
  let h := make_ix_hdr index_cols in
  if decide (IX_MAX_COL_LEN < col_tot_len_ h) then throw (InvalidColLengthError (col_tot_len_ h))
  else
    assert_ ndebug (bool_decide (2 < btree_order_ h));;
    Disk.write_page fd IX_FILE_HDR_PAGE (serialize h);;
    Disk.write_page fd IX_LEAF_HEADER_PAGE (blank_leaf_page IX_INIT_ROOT_PAGE IX_INIT_ROOT_PAGE);;
    Disk.write_page fd IX_INIT_ROOT_PAGE (blank_leaf_page IX_LEAF_HEADER_PAGE IX_LEAF_HEADER_PAGE);;
    modify (Disk.set_fd2pageno fd (IX_INIT_NUM_PAGES - 1));;
    Disk.close_file fd.

(** The node of a page, as the pool reads it from the file. *)
Definition disk_node (fd : Z) (h : IxFileHdr) (d : Disk.DiskManager) (p : Z) : option IxNode :=
  match Disk.read_page fd p PAGE_SIZE d with Ok bs => Some (node_of_bytes h bs) | Err _ => None end.

Definition disk_nodes (fd : Z) (h : IxFileHdr) (d : Disk.DiskManager) : gmap Z IxNode :=
  list_to_map (omap (λ p, pair p <$> disk_node fd h d p) (seqZ 1 (num_pages_ h - 1))).

(** [open_index] with the constructor of [IxIndexHandle]. *)
Definition open_index (filename : string) (index_cols : list ColMeta) : M Disk.DiskManager (Z * IxIndexHandle) :=
  fd ← Disk.open_file os_fd (get_index_name filename index_cols);
  d ← get;
  match Disk.read_page fd IX_FILE_HDR_PAGE PAGE_SIZE d with
  | Err e => throw e
  | Ok bs =>
      let h := deserialize bs in
      modify (Disk.set_fd2pageno fd (num_pages_ h));;
      mret (fd, mk_IxIndexHandle h (disk_nodes fd h d) ∅ ∅)
  end.
End manager.

(** ** The header is read back *)

Lemma int_at_skip A B off : (length A ≤ off)%nat → int_at (A ++ B) off = int_at B (off - length A).
Proof. intros. unfold int_at. by rewrite read_app_skip. Qed.

Lemma read_app_prefix (A B : list byte) n : length A = n → read_bytes (A ++ B) 0 n = A.
Proof. intros <-. unfold read_bytes. by rewrite drop_0, take_app_length. Qed.

Lemma int_at_here z B : is_int32 z → int_at (enc_int 4 z ++ B) 0 = z.
Proof. intros. unfold int_at. rewrite read_app_prefix by apply length_enc_int. by apply dec_enc_i32. Qed.

Lemma ints_at_skip A B off n : (length A ≤ off)%nat → ints_at (A ++ B) off n = ints_at B (off - length A) n.
Proof. intros. unfold ints_at. apply list_fmap_ext. intros i x _. rewrite int_at_skip by lia. f_equal. lia. Qed.

Lemma ints_at_cons z n B : is_int32 z → ints_at (enc_int 4 z ++ B) 0 (S n) = z :: ints_at B 0 n.
Proof.
  intros Hz. unfold ints_at. rewrite <-cons_seq, fmap_cons. simpl (0 + 4 * 0)%nat. rewrite int_at_here by done. f_equal.
  rewrite <-fmap_S_seq, <-list_fmap_compose. apply list_fmap_ext. intros i x _. unfold compose.
  rewrite int_at_skip by (rewrite length_enc_int; lia). rewrite length_enc_int. f_equal. lia.
Qed.

Lemma ints_at_here l : ∀ B, Forall is_int32 l → ints_at (concat (enc_int 4 <$> l) ++ B) 0 (length l) = l.
Proof.
  induction l as [|z l IH]; intros B Hl; [done|]. apply Forall_cons in Hl as [Hz Hl]. rewrite fmap_cons. cbn [concat length].
  rewrite <-app_assoc, ints_at_cons by done. by rewrite IH.
Qed.

Lemma length_ints (l : list Z) : length (concat (enc_int 4 <$> l)) = (4 * length l)%nat.
Proof. induction l as [|z l IH]; [done|]. cbn [fmap list_fmap concat length]. rewrite length_app, length_enc_int. fold (enc_int 4 <$> l). rewrite IH. lia. Qed.

Lemma ColType_code_of (l : list ColType) : ColType_of_code <$> (ColType_code <$> l) = l.
Proof. induction l as [|t l IH]; [done|]. rewrite !fmap_cons, IH. by destruct t. Qed.

(** The fields of a header are 32-bit integers. *)
Record hdr_ok (h : IxFileHdr) : Prop := {
  ho_ints : Forall is_int32 [tot_len_ h; first_free_page_no_ h; num_pages_ h; root_page_ h; col_num h; col_tot_len_ h; btree_order_ h;
    keys_size_ h; first_leaf_ h; last_leaf_ h];
  ho_lens : Forall is_int32 (col_lens_ h);
  ho_num : length (col_lens_ h) = length (col_types_ h)
}.

Lemma concat_codes (l : list ColType) : concat ((λ t, enc_int 4 (ColType_code t)) <$> l) = concat (enc_int 4 <$> (ColType_code <$> l)).
Proof. by rewrite <-list_fmap_compose. Qed.

(** A field at its place among others. *)
Lemma chunk_at (cs : list (list byte)) rest i off z : cs !! i = Some (enc_int 4 z) → off = length (concat (take i cs)) → is_int32 z →
  int_at (concat cs ++ rest) off = z.
Proof.
  intros Hi -> Hz. rewrite <-(take_drop_middle cs i _ Hi) at 1. rewrite concat_app. cbn [concat]. rewrite <-!app_assoc.
  rewrite int_at_skip, Nat.sub_diag by lia. by apply int_at_here.
Qed.
Lemma chunks_at (cs : list (list byte)) rest i off l : cs !! i = Some (concat (enc_int 4 <$> l)) → off = length (concat (take i cs)) →
  Forall is_int32 l → ints_at (concat cs ++ rest) off (length l) = l.
Proof.
  intros Hi -> Hz. rewrite <-(take_drop_middle cs i _ Hi) at 1. rewrite concat_app. cbn [concat]. rewrite <-!app_assoc.
  rewrite ints_at_skip, Nat.sub_diag by lia. by apply ints_at_here.
Qed.

Definition header_chunks (h : IxFileHdr) : list (list byte) :=
  [enc_int 4 (tot_len_ h); enc_int 4 (first_free_page_no_ h); enc_int 4 (num_pages_ h); enc_int 4 (root_page_ h); enc_int 4 (col_num h);
   concat (enc_int 4 <$> (ColType_code <$> col_types_ h)); concat (enc_int 4 <$> col_lens_ h); enc_int 4 (col_tot_len_ h);
   enc_int 4 (btree_order_ h); enc_int 4 (keys_size_ h); enc_int 4 (first_leaf_ h); enc_int 4 (last_leaf_ h)].

Lemma serialize_chunks h : serialize h = concat (header_chunks h).
Proof. unfold serialize, header_chunks. rewrite concat_codes. cbn [concat]. by rewrite app_nil_r. Qed.

Lemma header_roundtrip_ok h rest : hdr_ok h → deserialize (serialize h ++ rest) = h.
Proof.
  intros [Hi Hl Hn]. rewrite !Forall_cons in Hi. destruct Hi as (I1 & I2 & I3 & I4 & I5 & I6 & I7 & I8 & I9 & I10 & _).
  assert (Forall is_int32 (ColType_code <$> col_types_ h)) as Hc.
  { apply Forall_fmap, Forall_true. intros []; unfold is_int32; simpl; lia. }
  assert (∀ i, length (concat (take i (header_chunks h))) = sum_list (length <$> take i (header_chunks h))) as Hlen.
  { intros i. generalize (take i (header_chunks h)). intros l. induction l as [|x l IH]; [done|]. cbn [concat]. rewrite length_app, IH. done. }
  rewrite serialize_chunks. unfold deserialize.
  assert (∀ i off z, header_chunks h !! i = Some (enc_int 4 z) → off = sum_list (length <$> take i (header_chunks h)) → is_int32 z →
    int_at (concat (header_chunks h) ++ rest) off = z) as HI.
  { intros i off z H1 -> H2. eapply chunk_at; [done|by rewrite Hlen|done]. }
  assert (∀ i off l n, header_chunks h !! i = Some (concat (enc_int 4 <$> l)) → off = sum_list (length <$> take i (header_chunks h)) → n = length l →
    Forall is_int32 l → ints_at (concat (header_chunks h) ++ rest) off n = l) as HS.
  { intros i off l n H1 -> -> H2. eapply chunks_at; [done|by rewrite Hlen|done]. }
  assert (∀ i, sum_list (length <$> take i (header_chunks h)) = sum_list (take i [4;4;4;4;4; 4 * length (col_types_ h); 4 * length (col_types_ h); 4;4;4;4;4]%nat)) as Hsum.
  { intros i. f_equal. rewrite fmap_take. f_equal. unfold header_chunks. rewrite !fmap_cons, !length_enc_int, !length_ints, length_fmap, Hn. done. }
  rewrite (HI 4%nat 16%nat (col_num h)) by (done || by rewrite Hsum). unfold col_num. rewrite Nat2Z.id.
  rewrite (HI 0%nat 0%nat (tot_len_ h)), (HI 1%nat 4%nat (first_free_page_no_ h)), (HI 2%nat 8%nat (num_pages_ h)), (HI 3%nat 12%nat (root_page_ h)) by (done || by rewrite Hsum).
  rewrite (HS 5%nat _ (ColType_code <$> col_types_ h)) by (done || (by rewrite Hsum) || by rewrite length_fmap).
  rewrite (HS 6%nat _ (col_lens_ h)) by (done || rewrite Hsum; simpl; lia).
  rewrite (HI 7%nat _ (col_tot_len_ h)), (HI 8%nat _ (btree_order_ h)), (HI 9%nat _ (keys_size_ h)), (HI 10%nat _ (first_leaf_ h)), (HI 11%nat _ (last_leaf_ h))
    by (done || rewrite Hsum; simpl; lia).
  rewrite ColType_code_of. by destruct h.
Qed.

(** ** The arrays of a page *)

Lemma read_write_within (buf src : list byte) off off' len : (off ≤ off')%nat → (off' + len ≤ off + length src)%nat →
  (off + length src ≤ length buf)%nat → read_bytes (write_bytes buf off src) off' len = read_bytes src (off' - off) len.
Proof.
  intros H1 H2 H3. unfold read_bytes, write_bytes. rewrite drop_app_ge by (rewrite length_take; lia). rewrite length_take, Nat.min_l by lia.
  rewrite drop_app_le by lia. rewrite take_app_le by (rewrite length_drop; lia). done.
Qed.

Lemma read_read (bs : list byte) o n o' n' : (o' + n' ≤ n)%nat → read_bytes (read_bytes bs o n) o' n' = read_bytes bs (o + o') n'.
Proof. intros. unfold read_bytes. rewrite skipn_firstn_comm, take_take, drop_drop. f_equal. lia. Qed.

Lemma length_read (bs : list byte) o n : (o + n ≤ length bs)%nat → length (read_bytes bs o n) = n.
Proof. intros. unfold read_bytes. rewrite length_take, length_drop. lia. Qed.

Lemma lookup_write (buf src : list byte) off i : (off + length src ≤ length buf)%nat →
  write_bytes buf off src !! i = if decide (off ≤ i < off + length src)%nat then src !! (i - off)%nat else buf !! i.
Proof.
  intros Hb. unfold write_bytes. case_decide as C.
  - rewrite lookup_app_r by (rewrite length_take; lia). rewrite length_take, Nat.min_l, lookup_app_l by lia. done.
  - destruct (decide (i < off)%nat).
    + rewrite lookup_app_l by (rewrite length_take; lia). by apply lookup_take_lt.
    + rewrite lookup_app_r by (rewrite length_take; lia). rewrite length_take, Nat.min_l, lookup_app_r, lookup_drop by lia. f_equal. lia.
Qed.

Lemma write_commute (b x y : list byte) o1 o2 : (o1 + length x ≤ o2 ∨ o2 + length y ≤ o1)%nat →
  (o1 + length x ≤ length b)%nat → (o2 + length y ≤ length b)%nat →
  write_bytes (write_bytes b o1 x) o2 y = write_bytes (write_bytes b o2 y) o1 x.
Proof.
  intros Hd H1 H2. apply list_eq. intros i. rewrite !lookup_write by (rewrite ?length_write_bytes; lia). repeat case_decide; try done; lia.
Qed.

Section memmove.
Context (bs : list byte) (dst src n : nat) (Hd : (dst + n ≤ length bs)%nat) (Hs : (src + n ≤ length bs)%nat).

Lemma length_memmove : length (memmove bs dst src n) = length bs.
Proof. unfold memmove. apply length_write_bytes. rewrite length_read; lia. Qed.
Lemma memmove_within off len : (dst ≤ off)%nat → (off + len ≤ dst + n)%nat → read_bytes (memmove bs dst src n) off len = read_bytes bs (src + (off - dst)) len.
Proof. intros. unfold memmove. rewrite read_write_within by (rewrite ?length_read; lia). rewrite read_read by lia. done. Qed.
Lemma memmove_other off len : (off + len ≤ dst ∨ dst + n ≤ off)%nat → read_bytes (memmove bs dst src n) off len = read_bytes bs off len.
Proof. intros. unfold memmove. apply read_write_other; rewrite length_read by lia; lia. Qed.
Lemma memmove_write off x : (off + length x ≤ length bs)%nat → (off + length x ≤ dst ∨ dst + n ≤ off)%nat → (off + length x ≤ src ∨ src + n ≤ off)%nat →
  memmove (write_bytes bs off x) dst src n = write_bytes (memmove bs dst src n) off x.
Proof.
  intros H1 H2 H3. unfold memmove. rewrite read_write_other by lia. apply write_commute; rewrite ?length_read by lia; lia.
Qed.
End memmove.

Lemma memmove_nothing (bs : list byte) dst src : memmove bs dst src 0 = bs.
Proof. unfold memmove, write_bytes, read_bytes. rewrite take_0. simpl. rewrite Nat.add_0_r. apply take_drop. Qed.

(** The page has room for the arrays. *)
Record page_geom (h : IxFileHdr) (bs : list byte) : Prop := {
  pg_len : 0 ≤ col_tot_len_ h;
  pg_keys : keys_size_ h = get_max_size h * col_tot_len_ h;
  pg_max : 0 ≤ get_max_size h < 4096;
  pg_fits : (rid_off h (Z.to_nat (get_max_size h)) ≤ length bs)%nat
}.

(** The key and the rid of a pair are apart from the rest of the page. *)
Lemma offsets h bs i : page_geom h bs → (i < Z.to_nat (get_max_size h))%nat → let w := Z.to_nat (col_tot_len_ h) in
  (24 ≤ key_off h i ∧ key_off h (S i) = key_off h i + w ∧ key_off h i + w ≤ rid_off h 0 ∧ rid_off h 0 ≤ rid_off h i ∧ rid_off h (S i) = rid_off h i + 8 ∧
   rid_off h i + 8 ≤ length bs)%nat.
Proof.
  intros [H1 H2 H3 H4] Hi. cbv zeta. unfold key_off, rid_off, sizeof_IxPageHdr, sizeof_Rid in *. rewrite H2, Z2Nat.inj_mul in * by lia.
  set (w := Z.to_nat (col_tot_len_ h)) in *.
  assert ((S i) * w ≤ Z.to_nat (get_max_size h) * w)%nat by (apply Nat.mul_le_mono_r; lia). lia.
Qed.

Lemma key_off_le h i j : (i ≤ j)%nat → (key_off h i ≤ key_off h j)%nat.
Proof. intros. unfold key_off. assert (i * Z.to_nat (col_tot_len_ h) ≤ j * Z.to_nat (col_tot_len_ h))%nat by (apply Nat.mul_le_mono_r; lia). lia. Qed.
Lemma rid_off_le h i j : (i ≤ j)%nat → (rid_off h i ≤ rid_off h j)%nat.
Proof. intros. unfold rid_off, sizeof_Rid. lia. Qed.
Lemma key_off_add h i j : key_off h (i + j) = (key_off h i + j * Z.to_nat (col_tot_len_ h))%nat.
Proof. unfold key_off. lia. Qed.
Lemma rid_off_add h i j : rid_off h (i + j) = (rid_off h i + j * 8)%nat.
Proof. unfold rid_off, sizeof_Rid. lia. Qed.

Lemma array_arith (w size pos n cap : nat) : (pos ≤ size)%nat → (size + n ≤ cap)%nat →
  ((pos + n) * w = pos * w + n * w ∧ (size - pos) * w + pos * w = size * w ∧ size * w + n * w ≤ cap * w)%nat.
Proof.
  intros. split_and!; [lia| |].
  - rewrite <-Nat.mul_add_distr_r. f_equal. lia.
  - rewrite <-Nat.mul_add_distr_r. apply Nat.mul_le_mono_r. lia.
Qed.

(** An array of elements of [w] bytes at [base], in which [n] elements are inserted at [pos]:
    the elements from [pos] on are moved up, and the new ones are written. *)
Section array_insert.
Context (base w size pos n cap : nat) (bs src : list byte).
Context (Hpos : (pos ≤ size)%nat) (Hcap : (size + n ≤ cap)%nat) (Hfit : (base + cap * w ≤ length bs)%nat) (Hsrc : (n * w ≤ length src)%nat).

Definition array_insert : list byte :=
  write_bytes (memmove bs (base + (pos + n) * w) (base + pos * w) ((size - pos) * w)) (base + pos * w) (take (n * w) src).

Lemma length_array_insert : length array_insert = length bs.
Proof.
  destruct (array_arith w size pos n cap Hpos Hcap) as (? & ? & ?). unfold array_insert. rewrite length_write_bytes, length_memmove by (rewrite ?length_memmove, ?length_take by lia; lia). done.
Qed.

Lemma array_insert_at i : (i < size + n)%nat → read_bytes array_insert (base + i * w) w =
  if decide (i < pos)%nat then read_bytes bs (base + i * w) w
  else if decide (i < pos + n)%nat then read_bytes src ((i - pos) * w) w else read_bytes bs (base + (i - n) * w) w.
Proof.
  intros Hi. destruct (array_arith w size pos n cap Hpos Hcap) as (E1 & E2 & E3). unfold array_insert.
  assert (∀ a b, (a < b → a * w + w ≤ b * w)%nat) as Hm by (intros a b Hab; rewrite <-Nat.mul_succ_l; apply Nat.mul_le_mono_r; lia).
  assert (length (take (n * w) src) = n * w)%nat as Hlt by (rewrite length_take; lia).
  case_decide as C1; [|case_decide as C2].
  - pose proof (Hm _ _ C1). rewrite read_write_other, memmove_other by (rewrite ?length_memmove, ?Hlt by lia; lia). done.
  - pose proof (Hm _ _ C2). assert (pos * w ≤ i * w)%nat by (apply Nat.mul_le_mono_r; lia).
    rewrite read_write_within by (rewrite ?length_memmove, ?Hlt by lia; lia).
    replace (base + i * w - (base + pos * w))%nat with ((i - pos) * w)%nat by (rewrite Nat.mul_sub_distr_r; lia).
    unfold read_bytes. rewrite skipn_firstn_comm, take_take. f_equal. rewrite Nat.min_l; [done|]. rewrite Nat.mul_sub_distr_r. lia.
  - pose proof (Hm _ _ Hi). assert ((pos + n) * w ≤ i * w)%nat by (apply Nat.mul_le_mono_r; lia).
    rewrite read_write_other by (rewrite ?length_memmove, ?Hlt by lia; lia).
    rewrite memmove_within by lia. f_equal. rewrite Nat.mul_sub_distr_r. lia.
Qed.

Lemma array_insert_other off len : (off + len ≤ base ∨ base + cap * w ≤ off)%nat → read_bytes array_insert off len = read_bytes bs off len.
Proof.
  intros Ho. destruct (array_arith w size pos n cap Hpos Hcap) as (E1 & E2 & E3). unfold array_insert. assert (length (take (n * w) src) = n * w)%nat as Hlt by (rewrite length_take; lia).
  rewrite read_write_other, memmove_other by (rewrite ?length_memmove, ?Hlt by lia; lia). done.
Qed.
End array_insert.

(** Every read outside of the size field sees through its change. *)
Lemma read_set_size bs m off len : (12 ≤ length bs)%nat → (12 ≤ off ∨ off + len ≤ 8)%nat → read_bytes (set_size m bs) off len = read_bytes bs off len.
Proof. intros. unfold set_size. apply read_write_other; rewrite length_enc_int; lia. Qed.
Lemma get_set_size bs m : (12 ≤ length bs)%nat → Z.of_nat m < 2147483648 → get_size (set_size m bs) = m.
Proof.
  intros Hb Hm. unfold get_size, set_size, int_at. pose proof (read_write_same bs 8 (enc_int 4 (Z.of_nat m))) as E.
  rewrite length_enc_int in E. rewrite E by lia. rewrite dec_enc_i32 by (unfold is_int32; lia). lia.
Qed.

Section page.
Context (h : IxFileHdr) (bs : list byte) (Hg : page_geom h bs).
Abbreviation w := (Z.to_nat (col_tot_len_ h)).
Abbreviation mx := (Z.to_nat (get_max_size h)).

Lemma geom_nat : (24 + mx * w + mx * 8 ≤ length bs)%nat ∧ rid_off h 0 = (24 + mx * w)%nat ∧ Z.of_nat mx < 4096.
Proof.
  destruct Hg as [H1 H2 H3 H4]. unfold rid_off, sizeof_IxPageHdr, sizeof_Rid in *. rewrite H2, Z2Nat.inj_mul in * by lia. lia.
Qed.

(** The pairs in a page. *)
Lemma page_pairs_at i : page_pairs h bs !! i = if decide (i < get_size bs)%nat then Some (page_key h bs i, page_rid h bs i) else None.
Proof.
  unfold page_pairs. rewrite list_lookup_fmap. case_decide as C.
  - by rewrite lookup_seq_lt by lia.
  - by rewrite lookup_seq_ge by lia.
Qed.

Section insert.
Context (pos n : nat) (ks rs : list byte).
Context (Hpos : (pos ≤ get_size bs)%nat) (Hmx : (get_size bs + n ≤ mx)%nat) (Hks : (n * w ≤ length ks)%nat) (Hrs : (n * 8 ≤ length rs)%nat).

(** The pairs at the addresses that are given. *)
Definition given_pairs : list (key * Rid) := (λ i, (read_bytes ks (i * w) w, rid_of_bytes (read_bytes rs (i * 8) 8))) <$> seq 0 n.

Lemma insert_page_arrays : insert_pairs_page h pos ks rs n bs =
  set_size (get_size bs + n) (array_insert (rid_off h 0) 8 (get_size bs) pos n (array_insert 24 w (get_size bs) pos n bs ks) rs).
Proof.
  destruct geom_nat as (F1 & F2 & F3). pose proof (array_arith w (get_size bs) pos n mx Hpos Hmx) as (E1 & E2 & E3).
  unfold insert_pairs_page. f_equal. unfold array_insert. unfold key_off, sizeof_IxPageHdr, sizeof_Rid. rewrite F2.
  assert (∀ i, rid_off h i = 24 + mx * w + i * 8)%nat as Er by (intros i; unfold rid_off, sizeof_Rid in *; lia). rewrite !Er.
  case_decide as C.
  - rewrite memmove_write; [done|rewrite ?length_memmove, ?length_take by lia; lia..].
  - replace (get_size bs - pos)%nat with 0%nat by lia. rewrite !Nat.mul_0_l, !memmove_nothing. done.
Qed.

Lemma insert_pairs_page_ok : node_of_bytes h (insert_pairs_page h pos ks rs n bs) =
  set_pairs (insert_pairs pos given_pairs (pairs (node_of_bytes h bs))) (node_of_bytes h bs).
Proof.
  destruct geom_nat as (F1 & F2 & F3). rewrite insert_page_arrays.
  set (b1 := array_insert 24 w (get_size bs) pos n bs ks). set (b2 := array_insert (rid_off h 0) 8 (get_size bs) pos n b1 rs).
  assert (length b1 = length bs) as L1 by (eapply (length_array_insert 24 w _ _ _ mx); lia).
  assert (length b2 = length bs) as L2 by (rewrite <-L1; eapply (length_array_insert _ 8 _ _ _ mx); rewrite ?F2, ?L1; lia).
  assert (∀ off len, (off + len ≤ 24)%nat → read_bytes b2 off len = read_bytes bs off len) as Hhdr.
  { intros off len Ho. unfold b2. rewrite (array_insert_other _ 8 _ _ _ mx) by (rewrite ?F2, ?L1; lia). apply (array_insert_other 24 w _ _ _ mx); lia. }
  unfold node_of_bytes, set_pairs. cbn [parent is_leaf prev_leaf next_leaf pairs].
  unfold int_at. rewrite !read_set_size by lia. rewrite !Hhdr by lia. f_equal.
  apply list_eq. intros i. unfold page_pairs at 1. rewrite list_lookup_fmap, get_set_size by lia.
  unfold insert_pairs. destruct (decide (i < get_size bs + n)%nat) as [Hi|Hi].
  - rewrite lookup_seq_lt by done. simpl fmap. unfold page_key, page_rid, key_off, sizeof_IxPageHdr, sizeof_Rid.
    assert (∀ i, rid_off h i = rid_off h 0 + i * 8)%nat as Er by (intros j; unfold rid_off, sizeof_Rid; lia).
    rewrite !read_set_size by (rewrite ?(Er i); lia). rewrite (Er i).
    assert (i * w + w ≤ mx * w)%nat by (rewrite <-Nat.mul_succ_l; apply Nat.mul_le_mono_r; lia).
    unfold b2 at 1. rewrite (array_insert_other _ 8 _ _ _ mx) by (rewrite ?F2, ?L1; lia). unfold b1 at 1.
    rewrite (array_insert_at 24 w _ _ _ mx) by lia. unfold b2. rewrite (array_insert_at _ 8 _ _ _ mx) by (rewrite ?F2, ?L1; lia).
    assert (length (page_pairs h bs) = get_size bs) as Lp by (unfold page_pairs; by rewrite length_fmap, length_seq).
    assert (length given_pairs = n) as Lg by (unfold given_pairs; by rewrite length_fmap, length_seq).
    assert (∀ j, read_bytes b1 (rid_off h 0 + j * 8) 8 = read_bytes bs (rid_off h 0 + j * 8) 8) as Hb1.
    { intros j. unfold b1. apply (array_insert_other 24 w _ _ _ mx); rewrite ?F2; lia. }
    case_decide as C1; [|case_decide as C2].
    + rewrite lookup_app_l by (rewrite length_take; lia). rewrite lookup_take_lt, page_pairs_at, decide_True by lia.
      unfold page_key, page_rid, key_off, sizeof_IxPageHdr, sizeof_Rid. by rewrite (Er i), Hb1.
    + rewrite lookup_app_r by (rewrite length_take; lia). rewrite length_take, Lp, Nat.min_l by lia. rewrite lookup_app_l by lia.
      unfold given_pairs. by rewrite list_lookup_fmap, lookup_seq_lt by lia.
    + rewrite lookup_app_r by (rewrite length_take; lia). rewrite length_take, Lp, Nat.min_l by lia. rewrite lookup_app_r by lia.
      rewrite Lg, lookup_drop. replace (pos + (i - pos - n))%nat with (i - n)%nat by lia. rewrite page_pairs_at, decide_True by lia.
      unfold page_key, page_rid, key_off, sizeof_IxPageHdr, sizeof_Rid. by rewrite (Er (i - n)%nat), Hb1.
  - rewrite lookup_seq_ge by lia. symmetry. apply lookup_ge_None. rewrite !length_app, length_take, length_drop.
    unfold page_pairs, given_pairs. rewrite !length_fmap, !length_seq. lia.
Qed.
End insert.

Section erase.
Context (pos : nat) (Hpos : (pos < get_size bs)%nat) (Hmx : (get_size bs ≤ mx)%nat).

(** The elements behind [pos] are moved down by one. *)
Lemma array_erase_at base v (b : list byte) i : (i < get_size bs - 1)%nat → (base + mx * v ≤ length b)%nat →
  read_bytes (memmove b (base + pos * v) (base + (pos + 1) * v) ((get_size bs - pos - 1) * v)) (base + i * v) v =
  read_bytes b (base + (if decide (i < pos)%nat then i else S i) * v) v.
Proof.
  intros Hi Hf. assert (∀ a c, (a < c → a * v + v ≤ c * v)%nat) as Hm by (intros a c Hac; rewrite <-Nat.mul_succ_l; apply Nat.mul_le_mono_r; lia).
  destruct (array_arith v (get_size bs) (pos + 1) 0 mx ltac:(lia) ltac:(lia)) as (E1 & E2 & E3).
  replace (get_size bs - (pos + 1))%nat with (get_size bs - pos - 1)%nat in E2 by lia.
  rewrite Nat.mul_add_distr_r, Nat.mul_1_l in *. case_decide as C.
  - pose proof (Hm _ _ C). apply memmove_other; lia.
  - assert (pos * v ≤ i * v)%nat by (apply Nat.mul_le_mono_r; lia). pose proof (Hm i (get_size bs - 1)%nat ltac:(lia)) as Hx.
    rewrite Nat.mul_sub_distr_r in Hx. rewrite memmove_within by lia. f_equal. lia.
Qed.

Lemma erase_page_moves : erase_pair_page h pos bs = set_size (get_size bs - 1)
  (memmove (memmove bs (24 + pos * w) (24 + (pos + 1) * w) ((get_size bs - pos - 1) * w))
     (rid_off h 0 + pos * 8) (rid_off h 0 + (pos + 1) * 8) ((get_size bs - pos - 1) * 8)).
Proof.
  unfold erase_pair_page, key_off, rid_off, sizeof_IxPageHdr, sizeof_Rid. f_equal. rewrite Nat.mul_0_l, Nat.add_0_r. case_decide as C; [done|].
  replace (get_size bs - pos - 1)%nat with 0%nat by lia. by rewrite !Nat.mul_0_l, !memmove_nothing.
Qed.

Lemma erase_pair_page_ok : node_of_bytes h (erase_pair_page h pos bs) =
  set_pairs (erase_pair pos (pairs (node_of_bytes h bs))) (node_of_bytes h bs).
Proof.
  destruct geom_nat as (F1 & F2 & F3). rewrite erase_page_moves.
  set (b1 := memmove bs (24 + pos * w) _ _). set (b2 := memmove b1 _ _ _).
  destruct (array_arith w (get_size bs) (pos + 1) 0 mx ltac:(lia) ltac:(lia)) as (E1 & E2 & E3).
  replace (get_size bs - (pos + 1))%nat with (get_size bs - pos - 1)%nat in E2 by lia. rewrite Nat.mul_add_distr_r, Nat.mul_1_l in E2.
  assert (length b1 = length bs) as L1 by (apply length_memmove; lia).
  assert (length b2 = length bs) as L2 by (rewrite <-L1; apply length_memmove; lia).
  assert (∀ off len, (off + len ≤ 24)%nat → read_bytes b2 off len = read_bytes bs off len) as Hhdr.
  { intros off len Ho. pose proof (Nat.le_0_l (pos * w)). unfold b2, b1. rewrite memmove_other by (rewrite ?length_memmove by lia; lia). by rewrite memmove_other by lia. }
  unfold node_of_bytes, set_pairs. cbn [parent is_leaf prev_leaf next_leaf pairs].
  unfold int_at. rewrite !read_set_size by lia. rewrite !Hhdr by lia. f_equal.
  assert (length (page_pairs h bs) = get_size bs) as Lp by (unfold page_pairs; by rewrite length_fmap, length_seq).
  apply list_eq. intros i. unfold page_pairs at 1. rewrite list_lookup_fmap, get_set_size by lia. unfold erase_pair.
  destruct (decide (i < get_size bs - 1)%nat) as [Hi|Hi].
  - assert (∀ i, rid_off h i = rid_off h 0 + i * 8)%nat as Er by (intros j; unfold rid_off, sizeof_Rid; lia).
    assert (i * w + w ≤ mx * w)%nat by (rewrite <-Nat.mul_succ_l; apply Nat.mul_le_mono_r; lia).
    rewrite lookup_seq_lt by done. simpl fmap. unfold page_key, page_rid, key_off, sizeof_IxPageHdr, sizeof_Rid. rewrite (Er i), !read_set_size by lia.
    unfold b2 at 1. rewrite memmove_other by lia. unfold b1 at 1. rewrite array_erase_at by lia.
    unfold b2. rewrite array_erase_at by (rewrite ?L1; lia). unfold b1. rewrite memmove_other by (repeat case_decide; lia).
    assert (∀ j, (j < get_size bs)%nat → Some (read_bytes bs (24 + j * w) w, rid_of_bytes (read_bytes bs (rid_off h 0 + j * 8) 8)) = page_pairs h bs !! j) as Hat.
    { intros j Hj. rewrite page_pairs_at, decide_True by done. unfold page_key, page_rid, key_off, sizeof_IxPageHdr, sizeof_Rid. by rewrite (Er j). }
    case_decide as C; rewrite Hat by lia.
    + rewrite lookup_app_l by (rewrite length_take; lia). by rewrite lookup_take_lt.
    + rewrite lookup_app_r by (rewrite length_take; lia). rewrite length_take, Lp, Nat.min_l, lookup_drop by lia. f_equal. lia.
  - rewrite lookup_seq_ge by lia. symmetry. apply lookup_ge_None. rewrite !length_app, length_take, length_drop, Lp. lia.
Qed.
End erase.
End page.

(** ** A new index *)

(** A tree of one empty leaf. *)
Lemma empty_index_ok cols st n : let h := file_hdr_ st in zip (col_types_ h) (col_lens_ h) = cols → 3 ≤ get_max_size h → 2 ≤ root_page_ h < num_pages_ h →
  first_leaf_ h = root_page_ h → last_leaf_ h = root_page_ h → nodes st !! root_page_ h = Some n → parent n = IX_NO_PAGE → is_leaf n = true →
  pairs n = [] → prev_leaf n = IX_LEAF_HEADER_PAGE → next_leaf n = IX_LEAF_HEADER_PAGE → index_ok cols st ∅.
Proof.
  intros h Hc Hm Hr Hf Hl Hn Hp Hlf Hps Hpv Hnx. exists {[root_page_ h := IxTree.mk_range None None 0]}, 0%nat. split.
  - assert (∀ p r, ({[root_page_ h := IxTree.mk_range None None 0]} : gmap Z IxTree.range) !! p = Some r → p = root_page_ h ∧ r = IxTree.mk_range None None 0) as Hone.
    { intros p r [<- <-]%lookup_singleton_Some. done. }
    split; try done.
    + split.
      * apply lookup_singleton_eq.
      * intros n' Hn'. assert (n' = n) as -> by (unfold h in *; congruence). done.
      * intros p r [-> ->]%Hone. done.
      * intros p r [-> ->]%Hone. exists n. by rewrite Hlf.
      * intros p r [-> ->]%Hone. split; [by split|simpl; lia].
      * intros p r [-> ->]%Hone. done.
      * intros p r n' [-> ->]%Hone. simpl. lia.
      * intros p r n' [-> ->]%Hone Hn' _. assert (n' = n) as -> by (unfold h in *; congruence). rewrite Hps. split; [by intros ?|]. intros e He. by apply elem_of_nil in He.
    + intros p r n' i e rc [-> ->]%Hone. simpl. lia.
    + intros p r n' [-> ->]%Hone Hn' _. assert (n' = n) as -> by (unfold h in *; congruence). by split.
    + fold h. rewrite Hf, Hl, lookup_singleton_eq. split; eauto.
    + intros p r n' [-> ->]%Hone Hn'. assert (n' = n) as -> by (unfold h in *; congruence). rewrite Hps. left. simpl. fold h. lia.
    + intros a b. unfold compare. fold h. by rewrite Hc.
  - intros z e. rewrite lookup_empty. split; [done|]. intros [(p & r & n' & [<- <-]%lookup_singleton_Some & _ & Hn' & He) _].
    assert (n' = n) as -> by (unfold h in *; congruence). rewrite Hps in He. by apply elem_of_nil in He.
Qed.

Lemma write_page_run fd p data d path c : 0 ≤ fd → 0 ≤ p → Disk.file_of fd d = Some (path, c) →
  Disk.write_page fd p data d = (Ok tt, Disk.set_files (<[path := Disk.file_write c (Z.to_nat (p * PAGE_SIZE)) data]> (Disk.os_files d)) d).
Proof.
  intros Hfd Hp Hf. unfold Disk.write_page. rewrite decide_False by lia. unfold Disk.pwrite, get, put, mbind, M_bind. rewrite Hf.
  by rewrite decide_True by (unfold PAGE_SIZE; lia).
Qed.

Lemma read_page_run fd p d path c : 0 ≤ fd → 0 ≤ p → Disk.file_of fd d = Some (path, c) → (Z.to_nat ((p + 1) * PAGE_SIZE) ≤ length c)%nat →
  Disk.read_page fd p PAGE_SIZE d = Ok (read_bytes c (Z.to_nat (p * PAGE_SIZE)) (Z.to_nat PAGE_SIZE)).
Proof.
  intros Hfd Hp Hf Hl. unfold Disk.read_page, Disk.pread, PAGE_SIZE in *. rewrite decide_False, decide_True, Hf by lia. simpl.
  rewrite decide_True; [done|]. rewrite length_read; lia.
Qed.

(** What [create_index] accepts. *)
Record cols_ok (index_cols : list ColMeta) : Prop := {
  co_len : Forall (λ c, 0 ≤ cm_len c) index_cols;
  co_tot : foldl Z.add 0 (cm_len <$> index_cols) ≤ IX_MAX_COL_LEN;
  co_num : (length index_cols ≤ 507)%nat
}.

Lemma foldl_add_ge (l : list Z) : ∀ a, Forall (λ x, 0 ≤ x) l → a ≤ foldl Z.add a l ∧ ∀ x, x ∈ l → a + x ≤ foldl Z.add a l.
Proof.
  induction l as [|y l IH]; intros a Hl; [split; [simpl; lia|by intros x ?%elem_of_nil]|]. apply Forall_cons in Hl as [Hy Hl]. simpl.
  destruct (IH (a + y) Hl) as [H1 H2]. split; [lia|]. intros x [->|Hx]%elem_of_cons; [done|]. pose proof (H2 x Hx). lia.
Qed.

Lemma make_ix_hdr_geom index_cols : cols_ok index_cols → let h := make_ix_hdr index_cols in
  0 ≤ col_tot_len_ h ≤ 512 ∧ 4 ≤ get_max_size h < 4096 ∧ 24 + get_max_size h * (col_tot_len_ h + 8) ≤ PAGE_SIZE ∧
  keys_size_ h = get_max_size h * col_tot_len_ h ∧ hdr_ok h.
Proof.
  intros [H1 H2 H3] h. unfold IX_MAX_COL_LEN in H2.
  assert (Forall (λ x, 0 ≤ x) (cm_len <$> index_cols)) as Hp by by apply Forall_fmap.
  destruct (foldl_add_ge (cm_len <$> index_cols) 0 Hp) as [Hge Hin]. set (t := foldl Z.add 0 (cm_len <$> index_cols)) in *.
  assert (get_max_size h = 4072 / (t + 8)) as Em by (unfold get_max_size, h, make_ix_hdr; cbn [btree_order_]; fold t; unfold PAGE_SIZE; change (4096 - 24) with 4072; lia).
  assert (4 ≤ 4072 / (t + 8)) as Hlo by (apply Z.div_le_lower_bound; lia). pose proof (Z.mul_div_le 4072 (t + 8) ltac:(lia)) as Hmul.
  assert (4072 / (t + 8) < 4096) as Hhi by (apply Z.div_lt_upper_bound; lia).
  assert (col_tot_len_ h = t ∧ keys_size_ h = (btree_order_ h + 1) * t) as [Et Ek] by done. rewrite Et, Ek.
  assert (btree_order_ h + 1 = get_max_size h) as Eb by done. rewrite Eb, Em. unfold PAGE_SIZE.
  split_and!; try lia. split.
  - repeat apply Forall_cons_2; [..|apply Forall_nil_2]; rewrite ?Ek, ?Eb, ?Et; unfold is_int32;
      try (unfold h, make_ix_hdr, col_num, header_len, IX_NO_PAGE, IX_INIT_NUM_PAGES, IX_INIT_ROOT_PAGE; cbn; rewrite ?length_fmap; lia); nia.
  - apply Forall_forall. intros x Hx. pose proof (Hin x Hx). rewrite Forall_forall in Hp. pose proof (Hp x Hx). unfold is_int32. lia.
  - unfold h, make_ix_hdr. cbn. by rewrite !length_fmap.
Qed.

Lemma length_serialize h : length (col_lens_ h) = length (col_types_ h) → Z.of_nat (length (serialize h)) = header_len (col_num h).
Proof.
  intros Hn. unfold serialize. rewrite concat_codes, !length_app, !length_enc_int, !length_ints, length_fmap, Hn. unfold header_len, col_num. lia.
Qed.

Lemma length_leaf_page prev next : length (blank_leaf_page prev next) = Z.to_nat PAGE_SIZE.
Proof. unfold blank_leaf_page. rewrite !length_app, !length_enc_int, length_replicate. unfold PAGE_SIZE. lia. Qed.

Lemma leaf_page_node h prev next : is_int32 prev → is_int32 next →
  node_of_bytes h (blank_leaf_page prev next) = mk_IxNode IX_NO_PAGE true prev next [].
Proof.
  intros Hp Hn. set (cs := [enc_int 4 IX_NO_PAGE; enc_int 4 IX_NO_PAGE; enc_int 4 0; enc_int 4 1; enc_int 4 prev; enc_int 4 next]).
  assert (blank_leaf_page prev next = concat cs ++ replicate (Z.to_nat PAGE_SIZE - 24) Byte.x00) as ->.
  { unfold blank_leaf_page, cs. cbn [concat]. by rewrite app_nil_r, <-!app_assoc. }
  assert (∀ i off z, cs !! i = Some (enc_int 4 z) → off = (4 * i)%nat → is_int32 z → int_at (concat cs ++ replicate (Z.to_nat PAGE_SIZE - 24) Byte.x00) off = z) as HI.
  { intros i off z Hi -> Hz. eapply (chunk_at _ _ i); [done| |done]. apply lookup_lt_Some in Hi.
    do 6 (destruct i as [|i]; [cbn [take concat cs]; rewrite ?length_app, ?length_enc_int; done|]). unfold cs in Hi. simpl in Hi. lia. }
  unfold node_of_bytes, page_pairs, get_size. rewrite (HI 2%nat 8%nat 0) by (done || unfold is_int32; lia). simpl fmap.
  rewrite (HI 1%nat 4%nat IX_NO_PAGE), (HI 4%nat 16%nat prev), (HI 5%nat 20%nat next) by (done || unfold is_int32, IX_NO_PAGE; lia).
  f_equal.
Qed.

(** The bytes of a new index file. *)
Definition new_file (h : IxFileHdr) : list byte :=
  Disk.file_write (Disk.file_write (Disk.file_write [] 0 (serialize h)) (Z.to_nat PAGE_SIZE) (blank_leaf_page IX_INIT_ROOT_PAGE IX_INIT_ROOT_PAGE))
    (Z.to_nat (2 * PAGE_SIZE)) (blank_leaf_page IX_LEAF_HEADER_PAGE IX_LEAF_HEADER_PAGE).

Lemma new_file_pages h : (length (serialize h) ≤ Z.to_nat PAGE_SIZE)%nat → length (new_file h) = Z.to_nat (3 * PAGE_SIZE) ∧
  (∃ rest, read_bytes (new_file h) 0 (Z.to_nat PAGE_SIZE) = serialize h ++ rest) ∧
  read_bytes (new_file h) (Z.to_nat PAGE_SIZE) (Z.to_nat PAGE_SIZE) = blank_leaf_page IX_INIT_ROOT_PAGE IX_INIT_ROOT_PAGE ∧
  read_bytes (new_file h) (Z.to_nat (2 * PAGE_SIZE)) (Z.to_nat PAGE_SIZE) = blank_leaf_page IX_LEAF_HEADER_PAGE IX_LEAF_HEADER_PAGE.
Proof.
  intros Hl. pose proof (length_leaf_page IX_INIT_ROOT_PAGE IX_INIT_ROOT_PAGE) as L1. pose proof (length_leaf_page IX_LEAF_HEADER_PAGE IX_LEAF_HEADER_PAGE) as L2.
  unfold new_file. set (p1 := blank_leaf_page IX_INIT_ROOT_PAGE IX_INIT_ROOT_PAGE) in *. set (p2 := blank_leaf_page IX_LEAF_HEADER_PAGE IX_LEAF_HEADER_PAGE) in *.
  clearbody p1 p2. set (f0 := Disk.file_write [] 0 (serialize h)).
  assert (f0 = serialize h) as E0 by (unfold f0, Disk.file_write, write_bytes; rewrite take_0; simpl; rewrite drop_ge by (rewrite length_replicate; lia); by rewrite app_nil_r).
  rewrite E0. set (f1 := Disk.file_write (serialize h) (Z.to_nat PAGE_SIZE) p1).
  assert (length f1 = Z.to_nat (2 * PAGE_SIZE)) as Lf1 by (unfold f1; rewrite Disk.length_file_write, L1; unfold PAGE_SIZE in *; lia).
  split_and!.
  - rewrite Disk.length_file_write, Lf1, L2. unfold PAGE_SIZE. lia.
  - rewrite Disk.file_write_other by (rewrite ?Lf1; unfold PAGE_SIZE in *; lia). unfold f1, Disk.file_write.
    rewrite read_write_other by (rewrite ?length_app, ?length_replicate, ?L1; unfold PAGE_SIZE in *; lia).
    unfold read_bytes. rewrite drop_0, take_app_ge by lia. by eexists.
  - rewrite Disk.file_write_other by (rewrite ?Lf1; unfold PAGE_SIZE in *; lia). pose proof (Disk.file_write_same (serialize h) (Z.to_nat PAGE_SIZE) p1) as E. by rewrite L1 in E.
  - pose proof (Disk.file_write_same f1 (Z.to_nat (2 * PAGE_SIZE)) p2) as E. by rewrite L2 in E.
Qed.

Section create.
Context (os_fd : gmap Z string → Z) (ndebug : bool) (filename : string) (index_cols : list ColMeta) (d : Disk.DiskManager).
Abbreviation name := (get_index_name filename index_cols).
Abbreviation fd := (os_fd (Disk.fd2path_ d)).
Context (Hwf : Disk.wf d) (Hno : Disk.os_files d !! name = None) (Hfd : 0 ≤ fd) (Hfresh : Disk.fd2path_ d !! fd = None).

Lemma name_not_open : Disk.path2fd_ d !! name = None.
Proof.
  destruct (Disk.path2fd_ d !! name) as [fd0|] eqn:E; [|done].
  apply (Disk.wf_p2f _ Hwf) in E. apply (Disk.wf_open _ Hwf) in E as [? ?]. congruence.
Qed.

(** The disk after the file was created and opened, with contents [c]. *)
Definition opened (c : list byte) : Disk.DiskManager :=
  Disk.set_tables (<[name := fd]> (Disk.path2fd_ d)) (<[fd := name]> (Disk.fd2path_ d)) (Disk.set_files (<[name := c]> (Disk.os_files d)) d).

Lemma file_of_opened c : Disk.file_of fd (opened c) = Some (name, c).
Proof. unfold Disk.file_of, opened. simpl. rewrite lookup_insert_eq. simpl. by rewrite lookup_insert_eq. Qed.

Lemma write_opened p c data : 0 ≤ p → Disk.write_page fd p data (opened c) = (Ok tt, opened (Disk.file_write c (Z.to_nat (p * PAGE_SIZE)) data)).
Proof.
  intros Hp. rewrite (write_page_run _ _ _ _ _ _ Hfd Hp (file_of_opened c)). unfold opened, Disk.set_tables, Disk.set_files. simpl. by rewrite insert_insert_eq.
Qed.

Lemma create_opens : ∀ (A : Type) (f : Z → M Disk.DiskManager A),
  (Disk.create_file name;; (Disk.open_file os_fd name ≫= f)) d = f fd (opened []).
Proof.
  intros A f. rewrite (bind_ok _ _ d tt (Disk.set_files (<[name := []]> (Disk.os_files d)) d)).
  2:{ unfold Disk.create_file, Disk.is_file, get, mbind, M_bind. by rewrite Hno. }
  rewrite (bind_ok _ _ _ fd (opened [])); [done|].
  unfold Disk.open_file, Disk.is_file, get, mbind, M_bind. simpl. rewrite name_not_open. by rewrite lookup_insert_eq.
Qed.

Lemma create_index_run : cols_ok index_cols →
  create_index os_fd ndebug filename index_cols d = (Ok tt, Disk.set_pageno (<[fd := 2]> (Disk.fd2pageno_ d))
    (Disk.set_files (<[name := new_file (make_ix_hdr index_cols)]> (Disk.os_files d)) d)).
Proof.
  intros Hc. destruct (make_ix_hdr_geom index_cols Hc) as (H1 & H2 & _). unfold create_index. rewrite create_opens.
  rewrite decide_False by (unfold IX_MAX_COL_LEN; lia).
  rewrite (bind_ok _ _ _ tt (opened [])).
  2:{ unfold assert_. destruct ndebug; [done|]. rewrite bool_decide_eq_true_2; [done|]. unfold get_max_size in H2. lia. }
  rewrite (bind_ok _ _ _ _ _ (write_opened IX_FILE_HDR_PAGE _ _ ltac:(done))).
  rewrite (bind_ok _ _ _ _ _ (write_opened IX_LEAF_HEADER_PAGE _ _ ltac:(done))).
  rewrite (bind_ok _ _ _ _ _ (write_opened IX_INIT_ROOT_PAGE _ _ ltac:(done))).
  unfold modify, mbind at 1, M_bind at 1. unfold Disk.close_file, get, put, mbind, M_bind. cbn [Disk.set_fd2pageno Disk.set_pageno Disk.fd2path_ opened Disk.set_tables].
  rewrite lookup_insert_eq. unfold Disk.set_fd2pageno, Disk.set_pageno, Disk.set_tables, Disk.set_files. cbn. rewrite !delete_insert_id by (done || apply name_not_open).
  done.
Qed.

(** A failed creation leaves the file behind, open. *)
Lemma create_index_fails : IX_MAX_COL_LEN < col_tot_len_ (make_ix_hdr index_cols) →
  create_index os_fd ndebug filename index_cols d = (Err (InvalidColLengthError (col_tot_len_ (make_ix_hdr index_cols))), opened []).
Proof. intros Hc. unfold create_index. rewrite create_opens. by rewrite decide_True. Qed.

(** Opening a new index gives an empty tree with the header that was written. *)
Lemma open_new_index d1 : cols_ok index_cols → Disk.os_files d1 !! name = Some (new_file (make_ix_hdr index_cols)) → Disk.path2fd_ d1 !! name = None →
  0 ≤ os_fd (Disk.fd2path_ d1) → ∃ st d2, open_index os_fd filename index_cols d1 = (Ok (os_fd (Disk.fd2path_ d1), st), d2) ∧
    file_hdr_ st = make_ix_hdr index_cols ∧ index_ok (zip (cm_type <$> index_cols) (cm_len <$> index_cols)) st ∅ ∧ pinned st = ∅.
Proof.
  intros Hc Hfile Hpath Hfd1. destruct (make_ix_hdr_geom index_cols Hc) as (H1 & H2 & _ & _ & Hok). set (h := make_ix_hdr index_cols) in *.
  set (fd1 := os_fd (Disk.fd2path_ d1)) in *.
  assert (length (serialize h) ≤ Z.to_nat PAGE_SIZE)%nat as Hlen.
  { destruct Hok as [_ _ Hnum]. pose proof (length_serialize h Hnum) as E. destruct Hc as [_ _ Hn].
    assert (col_num h = Z.of_nat (length index_cols)) as E2 by (unfold h, col_num, make_ix_hdr; cbn; by rewrite length_fmap).
    rewrite E2 in E. unfold header_len in E. unfold PAGE_SIZE. lia. }
  destruct (new_file_pages h Hlen) as (L & [rest R0] & R1 & R2).
  set (d2 := Disk.set_tables (<[name := fd1]> (Disk.path2fd_ d1)) (<[fd1 := name]> (Disk.fd2path_ d1)) d1).
  assert (Disk.file_of fd1 d2 = Some (name, new_file h)) as Hf.
  { unfold Disk.file_of, d2. simpl. rewrite lookup_insert_eq. simpl. by rewrite Hfile. }
  assert (∀ p, 0 ≤ p ≤ 2 → Disk.read_page fd1 p PAGE_SIZE d2 = Ok (read_bytes (new_file h) (Z.to_nat (p * PAGE_SIZE)) (Z.to_nat PAGE_SIZE))) as Hread.
  { intros p Hp. eapply read_page_run; [done|lia|done|]. rewrite L. unfold PAGE_SIZE. lia. }
  assert (Disk.open_file os_fd name d1 = (Ok fd1, d2)) as Hopen.
  { unfold Disk.open_file, Disk.is_file, get, mbind, M_bind. rewrite Hpath, Hfile. done. }
  assert (deserialize (read_bytes (new_file h) (Z.to_nat (IX_FILE_HDR_PAGE * PAGE_SIZE)) (Z.to_nat PAGE_SIZE)) = h) as Hh.
  { change (Z.to_nat (IX_FILE_HDR_PAGE * PAGE_SIZE)) with 0%nat. rewrite R0. by apply header_roundtrip_ok. }
  eexists (mk_IxIndexHandle h (disk_nodes fd1 h d2) ∅ ∅), _. split_and!.
  - unfold open_index. rewrite (bind_ok _ _ _ _ _ Hopen). unfold get, mbind, M_bind. rewrite (Hread IX_FILE_HDR_PAGE) by (unfold IX_FILE_HDR_PAGE; lia).
    rewrite Hh. done.
  - done.
  - assert (disk_nodes fd1 h d2 !! 2 = Some (mk_IxNode IX_NO_PAGE true IX_LEAF_HEADER_PAGE IX_LEAF_HEADER_PAGE [])) as Hn.
    { unfold disk_nodes. change (num_pages_ h - 1) with 2. change (seqZ 1 2) with [1; 2]. cbn [omap list_omap]. unfold disk_node.
      rewrite !Hread by lia. cbn [fmap option_fmap option_map]. cbn [list_to_map foldr]. cbn.
      rewrite lookup_insert_ne, lookup_insert_eq by done. f_equal. change (Z.to_nat (2 * PAGE_SIZE)) with (Z.to_nat (2 * PAGE_SIZE)).
      rewrite R2. apply leaf_page_node; unfold is_int32, IX_LEAF_HEADER_PAGE; lia. }
    eapply (empty_index_ok _ _ _); [done|simpl; lia|simpl; unfold IX_INIT_ROOT_PAGE, IX_INIT_NUM_PAGES; lia|done|done|exact Hn|done..].
  - done.
Qed.
End create.
End IxFile.
