(* ===== verification/IndexScan.v ===== *)
(** * Range scans of an index

    The leaves form a list from left to right.  A position, a leaf with a slot, stands for the
    entries from there on; [lower_bound] and [upper_bound] find the positions of the entries
    at or behind a key, and a scan from one position to another reads the entries between
    them, provided that only the last leaf can be empty. *)

From stdpp Require Import gmultiset.
From S2P Require Import Prelude RecordFile Conditions Index IndexTree IndexSplit IndexFacts IndexOps.

Module IxScan.
Import RecFile Cond Ix IxTree IxFacts IxOps.

(** ** Filters *)

Lemma filter_none {A} (P : A → Prop) `{!∀ x, Decision (P x)} (l : list A) : (∀ x, x ∈ l → ¬ P x) → filter P l = [].
Proof.
  induction l as [|x l IH]; intros Hl; [done|]. rewrite filter_cons_False by (apply Hl; set_solver). apply IH. set_solver.
Qed.
Lemma filter_every {A} (P : A → Prop) `{!∀ x, Decision (P x)} (l : list A) : (∀ x, x ∈ l → P x) → filter P l = l.
Proof.
  induction l as [|x l IH]; intros Hl; [done|]. rewrite filter_cons_True by (apply Hl; set_solver). f_equal. apply IH. set_solver.
Qed.

Section scan.
Context {cmp : key → key → comparison} `{KO : !KeyOrder cmp} (ndebug : bool).
Implicit Types (p q : Z) (r : range) (n : IxNode) (es : list entry) (k : key) (e : entry) (i : nat).

Context {h : IxFileHdr} {ns : gmap Z IxNode} {G : gmap Z range} {H : nat} (Hinv : tree_inv (cmp:=cmp) h ns G H None).
Lemma Hs : shape h ns G H.
Proof. apply Hinv. Qed.

(** ** The entries from a position on *)

Definition leaf_at p r n : Prop := G !! p = Some r ∧ ns !! p = Some n ∧ ht r = 0%nat.

(** [rest c p i es]: from slot [i] of the leaf [p] on, over [c] leaves, are the entries [es]. *)
Inductive rest : nat → Z → nat → list entry → Prop :=
  | rest_last p r n i : leaf_at p r n → hi r = None → rest 1 p i (drop i (pairs n))
  | rest_next p r n i b c es : leaf_at p r n → hi r = Some b → rest c (next_leaf n) 0 es → rest (S c) p i (drop i (pairs n) ++ es).

Lemma leaf_at_eq p r r' n n' : leaf_at p r n → leaf_at p r' n' → r = r' ∧ n = n'.
Proof. intros (? & ? & _) (? & ? & _). split; congruence. Qed.

Lemma rest_fun c p i es : rest c p i es → ∀ c' es', rest c' p i es' → es = es'.
Proof.
  induction 1 as [p r n i Hl Hh|p r n i b c es Hl Hh Hr IH]; intros c' es' Hr'; inversion Hr' as [? r' n' ? Hl' Hh'|? r' n' ? b' c0 es0 Hl' Hh' Hr0]; subst;
    destruct (leaf_at_eq _ _ _ _ _ Hl Hl') as [<- <-]; try congruence. f_equal. by eapply IH.
Qed.

Lemma rest_inv c p i es r n : rest c p i es → leaf_at p r n → (hi r = None ∧ es = drop i (pairs n)) ∨
  (∃ b c0 es0, hi r = Some b ∧ rest c0 (next_leaf n) 0 es0 ∧ es = drop i (pairs n) ++ es0).
Proof.
  intros Hr Hl. inversion Hr as [? r1 n1 ? Hl1 Hh1|? r1 n1 ? b c0 es0 Hl1 Hh1 Hr1]; subst; destruct (leaf_at_eq _ _ _ _ _ Hl Hl1) as [<- <-]; [by left|].
  right. by exists b, c0, es0.
Qed.

(** The leaf behind a leaf. *)
Lemma next_leaf_at p r n b : leaf_at p r n → hi r = Some b → ∃ r' n', leaf_at (next_leaf n) r' n' ∧ lo r' = Some b ∧ last_leaf_ h ≠ p.
Proof.
  intros (Hp & Hn & Hh) Hb. destruct (ti_links _ _ _ _ _ Hinv _ _ _ Hp Hn Hh) as [Hx _]. unfold next_ok in Hx. rewrite Hb in Hx.
  destruct Hx as (Hl & r' & Hr' & Hh' & Hlo). destruct (sh_node _ _ _ _ Hs _ _ Hr') as (n' & Hn' & _). by exists r', n'.
Qed.

Lemma last_at p r n : leaf_at p r n → hi r = None ↔ last_leaf_ h = p.
Proof.
  intros (Hp & Hn & Hh). destruct (ti_links _ _ _ _ _ Hinv _ _ _ Hp Hn Hh) as [Hx _]. unfold next_ok in Hx. destruct (hi r); [|naive_solver].
  destruct Hx as [? _]. split; [done|congruence].
Qed.

(** Pages whose range begins at [z] or later: a measure for walks along the leaves. *)
Definition begins_at (z : Z) (qr : Z * range) : Prop := match lo qr.2 with Some b => z ≤ rank b | None => False end.
#[local] Instance begins_at_dec z qr : Decision (begins_at z qr).
Proof. unfold begins_at. destruct (lo qr.2); apply _. Defined.
Definition behind (z : Z) : gset Z := dom (filter (begins_at z) G).

Lemma elem_of_behind z q : q ∈ behind z ↔ ∃ r b, G !! q = Some r ∧ lo r = Some b ∧ z ≤ rank b.
Proof.
  unfold behind. rewrite elem_of_dom. unfold is_Some. setoid_rewrite map_lookup_filter_Some. unfold begins_at. simpl. split.
  - intros (r & Hr & Hx). destruct (lo r) as [b|] eqn:E; [eauto 10|done].
  - intros (r & b & Hr & Hb & Hz). exists r. by rewrite Hb.
Qed.

Lemma rest_exists m : ∀ p r n i, leaf_at p r n → (∀ b, hi r = Some b → (size (behind (rank b)) < m)%nat) →
  ∃ c es, rest c p i es ∧ (c ≤ S m)%nat.
Proof.
  induction m as [|m IH]; intros p r n i Hl Hm.
  - destruct (hi r) as [b|] eqn:Eh; [pose proof (Hm b eq_refl); lia|]. exists 1%nat, (drop i (pairs n)). split; [by eapply rest_last|lia].
  - destruct (hi r) as [b|] eqn:Eh; [|exists 1%nat, (drop i (pairs n)); split; [by eapply rest_last|lia]].
    destruct (next_leaf_at _ _ _ _ Hl Eh) as (r' & n' & Hl' & Hlo & _).
    destruct (IH (next_leaf n) r' n' 0%nat Hl') as (c & es & Hr & Hc).
    + intros b' Hb'. pose proof (Hm b eq_refl) as Hlt. assert (behind (rank b') ⊂ behind (rank b)) as Hsub; [|apply subset_size in Hsub; lia].
      destruct Hl' as (Hp' & _ & _). destruct (range_ne r' b) as [_ Hu]; [by apply (sh_range _ _ _ _ Hs _ _ Hp')|done|]. rewrite Hb' in Hu. simpl in Hu. split.
      * intros q (rq & bq & ? & ? & ?)%elem_of_behind. apply elem_of_behind. exists rq, bq. split_and!; [done..|lia].
      * intros Hin. assert (next_leaf n ∈ behind (rank b)) as Hx%Hin by (apply elem_of_behind; exists r', b; split_and!; [done..|lia]).
        apply elem_of_behind in Hx as (rq & bq & ? & ? & ?). simplify_eq. lia.
    + exists (S c), (drop i (pairs n) ++ es). split; [by eapply rest_next|lia].
Qed.

Lemma behind_size z : Z.of_nat (size (behind z)) < num_pages_ h.
Proof.
  assert (behind z ⊆ list_to_set (seqZ 2 (num_pages_ h - 2))) as Hsub.
  { intros q (rq & bq & Hq & _)%elem_of_behind. pose proof (sh_page _ _ _ _ Hs _ _ Hq). apply elem_of_list_to_set, elem_of_seqZ. lia. }
  apply subseteq_size in Hsub. rewrite size_list_to_set in Hsub by apply NoDup_seqZ. rewrite length_seqZ in Hsub.
  pose proof (sh_page _ _ _ _ Hs _ _ (sh_root _ _ _ _ Hs)). lia.
Qed.

(** Every position has a rest, over no more leaves than there are pages. *)
Lemma rest_from p r n i : leaf_at p r n → ∃ c es, rest c p i es ∧ (c ≤ S (Z.to_nat (num_pages_ h)))%nat.
Proof.
  intros Hl. eapply rest_exists; [done|]. intros b _. pose proof (behind_size (rank b)). lia.
Qed.

(** The entries of a whole leaf and what follows: those from the lower end of its range on. *)
Lemma rest_elems c p i es : rest c p i es → i = 0%nat → ∀ r n, leaf_at p r n →
  sorted es ∧ ∀ e, e ∈ es ↔ holds ns G e ∧ from (lo r) (rank e.1).
Proof.
  induction 1 as [p r n i Hl Hh|p r n i b c es Hl Hh Hr IH]; intros -> r0 n0 Hl0; destruct (leaf_at_eq _ _ _ _ _ Hl Hl0) as [<- <-];
    destruct Hl as (Hp & Hn & Hz); pose proof (sh_leaf _ _ _ _ Hs _ _ _ Hp Hn Hz) as [Hso Hin]; rewrite drop_0.
  - split; [done|]. intros e. split.
    + intros He. split; [by exists p, r, n|by apply (Hin e He)].
    + intros [He Hf]. apply (holds_leaf Hs p r n e Hp Hz Hn); [|done]. split; [done|by rewrite Hh].
  - destruct (next_leaf_at p r n b) as (r' & n' & Hl' & Hlo & _); [done..|]. destruct (IH eq_refl r' n' Hl') as [Hso' Hel]. rewrite Hlo in Hel.
    assert (∀ e e', e ∈ pairs n → e' ∈ es → rank e.1 < rank e'.1) as Hlt.
    { intros e e' He [_ He']%Hel. destruct (Hin e He) as [_ [_ Hu]]. rewrite Hh in Hu. simpl in *. lia. }
    split.
    + intros i j e1 e2 Hij H1 H2. destruct (decide (j < length (pairs n))%nat).
      * rewrite lookup_app_l in H1, H2 by lia. by apply (Hso i j).
      * rewrite (lookup_app_r _ _ j) in H2 by lia. destruct (decide (i < length (pairs n))%nat).
        -- rewrite lookup_app_l in H1 by lia. apply Hlt; by eapply list_elem_of_lookup_2.
        -- rewrite lookup_app_r in H1 by lia. eapply (Hso' (i - length (pairs n))%nat (j - length (pairs n))%nat); [lia|done..].
    + intros e. rewrite elem_of_app, Hel. simpl. split.
      * intros [He|[He Hb]]; [split; [by exists p, r, n|by apply (Hin e He)]|]. split; [done|].
        destruct (lo r) as [l|] eqn:El; [|done]. simpl. destruct (range_ne r l) as [_ Hu]; [by apply (sh_range _ _ _ _ Hs _ _ Hp)|done|].
        rewrite Hh in Hu. simpl in Hu. lia.
      * intros [He Hf]. destruct (decide (rank b ≤ rank e.1)); [by right|]. left.
        apply (holds_leaf Hs p r n e Hp Hz Hn); [|done]. split; [done|]. rewrite Hh. simpl. lia.
Qed.

(** ** Sorted lists of entries *)

Lemma sorted_cons e es : sorted (e :: es) ↔ (∀ e', e' ∈ es → rank e.1 < rank e'.1) ∧ sorted es.
Proof.
  split.
  - intros Hso. split; [intros e' [i Hi]%list_elem_of_lookup; by apply (Hso 0%nat (S i)); [lia|..]|].
    intros i j e1 e2 Hij H1 H2. apply (Hso (S i) (S j)); [lia|done..].
  - intros [Hlt Hso] i j e1 e2 Hij H1 H2. destruct j as [|j]; [lia|]. destruct i as [|i]; simpl in *; [simplify_eq|eapply (Hso i j); [lia|done..]].
    apply Hlt. by eapply list_elem_of_lookup_2.
Qed.

Lemma sorted_filter (P : entry → Prop) `{!∀ e, Decision (P e)} es : sorted es → sorted (filter P es).
Proof.
  induction es as [|e es IH]; [done|]. intros [Hlt Hso]%sorted_cons. rewrite filter_cons. case_decide; [|by apply IH].
  apply sorted_cons. split; [|by apply IH]. intros e' [_ He']%list_elem_of_filter. by apply Hlt.
Qed.

(** A sorted list is determined by its elements. *)
Lemma sorted_unique es : ∀ es', sorted es → sorted es' → (∀ e, e ∈ es ↔ e ∈ es') → es = es'.
Proof.
  induction es as [|e es IH]; intros [|e' es'] H1 H2 Hin; [done| | |].
  - exfalso. by apply (not_elem_of_nil e'), Hin, list_elem_of_here.
  - exfalso. by apply (not_elem_of_nil e), Hin, list_elem_of_here.
  - apply sorted_cons in H1 as [L1 S1]. apply sorted_cons in H2 as [L2 S2].
    assert (e = e') as ->.
    { pose proof (proj1 (Hin e) (list_elem_of_here _ _)) as He. pose proof (proj2 (Hin e') (list_elem_of_here _ _)) as He'.
      apply elem_of_cons in He as [?|He]; [done|]. apply elem_of_cons in He' as [?|He']; [done|]. pose proof (L1 _ He'). pose proof (L2 _ He). lia. }
    f_equal. apply IH; try done. intros x. specialize (Hin x). rewrite !elem_of_cons in Hin. split; intros Hx.
    + destruct (proj1 Hin (or_intror Hx)) as [->|?]; [|done]. pose proof (L1 _ Hx). lia.
    + destruct (proj2 Hin (or_intror Hx)) as [->|?]; [|done]. pose proof (L2 _ Hx). lia.
Qed.

(** The entries up to a rank come before the others. *)
Lemma sorted_split es z : sorted es → es = filter (λ e, rank e.1 ≤ z) es ++ filter (λ e, z < rank e.1) es.
Proof.
  induction es as [|e es IH]; [done|]. intros [Hlt Hso]%sorted_cons. rewrite !filter_cons. destruct (decide (rank e.1 ≤ z)) as [C|C].
  - rewrite (decide_False (P := z < rank e.1)) by lia. simpl. f_equal. by apply IH.
  - rewrite (decide_True (P := z < rank e.1)) by lia. assert (filter (λ e, rank e.1 ≤ z) es = []) as ->.
    { apply filter_none. intros e' He'. specialize (Hlt _ He'). lia. }
    simpl. f_equal. rewrite IH at 1 by done. assert (filter (λ e, rank e.1 ≤ z) es = []) as ->; [|done].
    apply filter_none. intros e' He'. specialize (Hlt _ He'). lia.
Qed.

(** ** Positions *)

(** A position is at an entry, or behind the last one. *)
Definition normal (x : Iid) : Prop := ∃ r n, leaf_at (iid_page x) r n ∧
  ((iid_slot x < length (pairs n))%nat ∨ (iid_slot x = length (pairs n) ∧ last_leaf_ h = iid_page x)).

(** Only the last leaf may be empty. *)
Definition no_gaps : Prop := ∀ p r n, leaf_at p r n → pairs n = [] → last_leaf_ h = p.

Lemma rest_head c x es : rest c (iid_page x) (iid_slot x) es → normal x → ∀ r n, leaf_at (iid_page x) r n →
  match es with
  | [] => iid_slot x = length (pairs n) ∧ last_leaf_ h = iid_page x
  | e :: _ => pairs n !! iid_slot x = Some e
  end.
Proof.
  intros Hr (r0 & n0 & Hl0 & Hn) r n Hl. destruct (leaf_at_eq _ _ _ _ _ Hl Hl0) as [<- <-].
  destruct (rest_inv _ _ _ _ _ _ Hr Hl) as [[Hh1 ->]|(b & c0 & es0 & Hh1 & Hr1 & ->)].
  - destruct Hn as [Hlt|[E ?]]; [|rewrite drop_ge by lia; done]. destruct (lookup_lt_is_Some_2 _ _ Hlt) as [e He]. by rewrite (drop_S _ _ _ He).
  - destruct Hn as [Hlt|[E Hlast]]; [|apply (last_at _ _ _ Hl) in Hlast; congruence].
    destruct (lookup_lt_is_Some_2 _ _ Hlt) as [e He]. by rewrite (drop_S _ _ _ He).
Qed.

(** Two positions with the same entries ahead are equal. *)
Lemma rest_inj c c' x y es : rest c (iid_page x) (iid_slot x) es → rest c' (iid_page y) (iid_slot y) es → normal x → normal y → x = y.
Proof.
  intros Hx Hy Nx Ny. pose proof Nx as (r & n & Hl & _). pose proof Ny as (r' & n' & Hl' & _).
  pose proof (rest_head _ _ _ Hx Nx _ _ Hl) as Ex. pose proof (rest_head _ _ _ Hy Ny _ _ Hl') as Ey.
  assert (iid_page x = iid_page y → iid_slot x = iid_slot y → x = y) as Hxy by (destruct x, y; simpl; by intros -> ->).
  destruct es as [|e es].
  - destruct Ex as [E1 E2], Ey as [E3 E4]. assert (iid_page x = iid_page y) as Ep by congruence. apply Hxy; [done|].
    rewrite Ep in Hl. destruct (leaf_at_eq _ _ _ _ _ Hl Hl') as [<- <-]. congruence.
  - destruct Hl as (Hp & Hn & Hh), Hl' as (Hp' & Hn' & Hh'). pose proof (sh_leaf _ _ _ _ Hs _ _ _ Hp Hn Hh) as [Hso Hin].
    pose proof (sh_leaf _ _ _ _ Hs _ _ _ Hp' Hn' Hh') as [_ Hin'].
    assert (iid_page x = iid_page y) as Ep.
    { eapply (same_page Hs _ _ r r' (rank e.1)); [done|done|congruence|by apply Hin; eapply list_elem_of_lookup_2|by apply Hin'; eapply list_elem_of_lookup_2]. }
    apply Hxy; [done|]. rewrite Ep in *. simplify_eq.
    destruct (Nat.lt_trichotomy (iid_slot x) (iid_slot y)) as [Hc|[Hc|Hc]]; [|done|]; [pose proof (Hso _ _ _ _ Hc Ex Ey)|pose proof (Hso _ _ _ _ Hc Ey Ex)]; lia.
Qed.

(** ** Finding a position *)

Section skip.
(** [B] finds the first entry of a leaf that satisfies [T]; with an entry all later ones do. *)
Context (B : IxNode → nat) (T : entry → Prop) `{!∀ e, Decision (T e)}.
Context (HB : ∀ p r n, leaf_at p r n → (B n ≤ length (pairs n))%nat ∧ ∀ i e, pairs n !! i = Some e → (i < B n)%nat ↔ ¬ T e).
Context (HT : ∀ e e', T e → rank e.1 < rank e'.1 → T e').

Lemma filter_leaf p r n : leaf_at p r n → filter T (pairs n) = drop (B n) (pairs n).
Proof.
  intros Hl. destruct (HB _ _ _ Hl) as [Hle Hlt]. rewrite <-(take_drop (B n) (pairs n)) at 1. rewrite filter_app.
  assert (filter T (take (B n) (pairs n)) = []) as ->.
  { apply filter_none. intros e [i [Hi Hb]%lookup_take_Some]%list_elem_of_lookup. by apply (Hlt _ _ Hi). }
  simpl. apply filter_every. intros e [i Hi]%list_elem_of_lookup. rewrite lookup_drop in Hi.
  destruct (decide (T e)) as [|Hn]; [done|]. apply (Hlt _ _ Hi) in Hn. lia.
Qed.

Lemma wp_skip c p es : rest c p 0 es → ∀ fuel P s (Q : Iid → IxIndexHandle → Prop), (c ≤ fuel)%nat → is_at h ns ({[+ p +]} ⊎ P) s →
  (∀ x c' s', is_at h ns P s' → rest c' (iid_page x) (iid_slot x) (filter T es) → normal x → Q x s') →
  wp (skip_leaves B fuel p) s Q.
Proof.
  intros Hr. remember 0%nat as i eqn:Ei. induction Hr as [p r n i Hl Hh|p r n i b c es Hl Hh Hr IH]; intros [|fuel] P s Q Hc Hat HQ; try lia; subst i;
    destruct (HB _ _ _ Hl) as [Hle HBn]; pose proof Hl as (Hp & Hn & Hz); cbn [skip_leaves]; (apply wp_bind; eapply wp_hdr; [done|]);
    (apply wp_bind; eapply wp_node_at; [done..|]); rewrite drop_0 in *.
  - pose proof (proj1 (last_at _ _ _ Hl) Hh) as Hlast. rewrite decide_False by naive_solver. apply wp_bind. eapply wp_unpin; [done..|].
    intros s1 H1. apply wp_ret. eapply HQ; [done| |].
    + simpl. rewrite (filter_leaf _ _ _ Hl). by eapply rest_last.
    + exists r, n. split; [done|]. simpl. destruct (decide (B n = length (pairs n))); [by right|left; lia].
  - destruct (next_leaf_at _ _ _ _ Hl Hh) as (r' & n' & Hl' & Hlo & Hne). case_decide as Hd.
    + destruct Hd as [Hall _]. apply wp_bind. eapply wp_unpin; [done..|]. intros s1 H1. pose proof Hl' as (_ & Hn' & _).
      apply wp_bind. eapply wp_fetch; [done..|]. intros s2 H2. eapply (IH eq_refl fuel); [lia|done|]. intros x c' s' Hat' Hx Nx.
      eapply HQ; [done| |done]. rewrite filter_app, (filter_leaf _ _ _ Hl), Hall, drop_all. done.
    + apply wp_bind. eapply wp_unpin; [done..|]. intros s1 H1. apply wp_ret.
      assert (B n < length (pairs n))%nat as Hlt by (destruct (decide (B n = length (pairs n))); [naive_solver|lia]).
      eapply HQ; [done| |exists r, n; split; [done|by left]]. simpl. rewrite filter_app, (filter_leaf _ _ _ Hl).
      rewrite (filter_every T es); [by eapply rest_next|]. intros e He.
      destruct (lookup_lt_is_Some_2 _ _ Hlt) as [e0 He0]. apply (HT e0).
      * destruct (decide (T e0)) as [|Hnt]; [done|]. apply (HBn _ _ He0) in Hnt. lia.
      * destruct (rest_elems _ _ _ _ Hr eq_refl _ _ Hl') as [_ Hel]. rewrite Hlo in Hel. apply Hel in He as [_ He]. simpl in He.
        destruct (sh_leaf _ _ _ _ Hs _ _ _ Hp Hn Hz) as [_ Hin]. destruct (Hin e0) as [_ [_ Hu]]; [by eapply list_elem_of_lookup_2|].
        rewrite Hh in Hu. simpl in Hu. lia.
Qed.
End skip.

(** The entries that satisfy [T], in order. *)
Definition selects (T : entry → Prop) es : Prop := sorted es ∧ ∀ e, e ∈ es ↔ holds ns G e ∧ T e.

Lemma fuel_enough P s : is_at h ns P s → fuel_of s = S (Z.to_nat (num_pages_ h)).
Proof. intros (E & _). unfold fuel_of. by rewrite E. Qed.

Lemma wp_bound k bound (T : entry → Prop) `{!∀ e, Decision (T e)} P s (Q : Iid → IxIndexHandle → Prop) : valid k → is_at h ns P s →
  (∀ p r n, leaf_at p r n → (bound h n k ≤ length (pairs n))%nat ∧ ∀ i e, pairs n !! i = Some e → (i < bound h n k)%nat ↔ ¬ T e) →
  (∀ e e', T e → rank e.1 < rank e'.1 → T e') → (∀ e, T e → rank k ≤ rank e.1) →
  (∀ x c es s', is_at h ns P s' → rest c (iid_page x) (iid_slot x) es → normal x → selects T es → Q x s') →
  wp (bound_of bound k) s Q.
Proof.
  intros Hv Hat HB HT Hk HQ. apply wp_bind. eapply (wp_find_leaf Hs (ti_keys _ _ _ _ _ Hinv) (ti_ordered _ _ _ _ _ Hinv) Hv); [done|].
  intros p r n s1 Hp Hn Hh [Hlo _] H1. assert (leaf_at p r n) as Hl by done. destruct (rest_from p r n 0 Hl) as (c & es & Hr & Hc).
  apply wp_bind. eapply wp_hdr; [done|]. apply wp_bind. change (wp get s1 ?Q) with (Q s1 s1). cbv beta.
  eapply (wp_skip (λ n, bound h n k) T HB HT c p es Hr); [by rewrite (fuel_enough _ _ H1)|done|].
  intros x c' s' Hat' Hx Nx. eapply HQ; [done..|]. destruct (rest_elems _ _ _ _ Hr eq_refl _ _ Hl) as [Hso Hel]. split; [by apply sorted_filter|].
  intros e. rewrite list_elem_of_filter, Hel. split; [tauto|]. intros [He Ht]. split_and!; try done. pose proof (Hk e Ht).
  destruct (lo r); simpl in *; [lia|done].
Qed.

Lemma wp_lower_bound k P s (Q : Iid → IxIndexHandle → Prop) : valid k → is_at h ns P s →
  (∀ x c es s', is_at h ns P s' → rest c (iid_page x) (iid_slot x) es → normal x → selects (λ e, rank k ≤ rank e.1) es → Q x s') →
  wp (lower_bound k) s Q.
Proof.
  intros Hv Hat HQ. eapply (wp_bound k node_lower_bound (λ e, rank k ≤ rank e.1)); [done|done| | |done|done]; [|intros; lia].
  intros p r n (Hp & Hn & Hh). destruct (leaf_lower (ti_ordered _ _ _ _ _ Hinv) (sh_leaf _ _ _ _ Hs _ _ _ Hp Hn Hh) Hv) as [Hle Hlt].
  split; [done|]. intros i e He. rewrite (Hlt i e He). lia.
Qed.

Lemma wp_upper_bound k P s (Q : Iid → IxIndexHandle → Prop) : valid k → is_at h ns P s →
  (∀ x c es s', is_at h ns P s' → rest c (iid_page x) (iid_slot x) es → normal x → selects (λ e, rank k < rank e.1) es → Q x s') →
  wp (upper_bound k) s Q.
Proof.
  intros Hv Hat HQ. eapply (wp_bound k node_upper_bound (λ e, rank k < rank e.1)); [done|done| | |intros; lia|done]; [|intros; lia].
  intros p r n (Hp & Hn & Hh). destruct (sh_node _ _ _ _ Hs _ _ Hp) as (n0 & Hn0 & El). assert (n0 = n) as -> by congruence.
  rewrite bool_decide_eq_true_2 in El by done.
  destruct (leaf_upper (ti_ordered _ _ _ _ _ Hinv) (sh_leaf _ _ _ _ Hs _ _ _ Hp Hn Hh) Hv El) as [Hle Hlt].
  split; [done|]. intros i e He. rewrite (Hlt i e He). lia.
Qed.

(** The leaf at the left end of the tree, and the one at the right end. *)
Lemma lo_none_leaf d : (d ≤ H)%nat → ∃ p r, G !! p = Some r ∧ lo r = None ∧ ht r = (H - d)%nat.
Proof.
  induction d as [|d IH]; intros Hd; [eexists _, _; split; [apply (sh_root _ _ _ _ Hs)|simpl; split; [done|lia]]|].
  destruct (IH ltac:(lia)) as (p & r & Hp & Hlo & Hh). destruct (sh_node _ _ _ _ Hs _ _ Hp) as (n & Hn & _).
  destruct (sh_kids _ _ _ _ Hs _ _ _ Hp Hn ltac:(lia)) as [Hne Hk]. destruct (pairs n) as [|e l] eqn:E; [done|].
  destruct (Hk 0%nat (page_no e.2)) as (rc & cn & Hc & _ & _ & Hht & Hl & _); [apply kids_lookup; exists e; by rewrite E|].
  simpl in Hl. exists (page_no e.2), rc. split_and!; [done|congruence|lia].
Qed.

Lemma hi_none_leaf d : (d ≤ H)%nat → ∃ p r, G !! p = Some r ∧ hi r = None ∧ ht r = (H - d)%nat.
Proof.
  induction d as [|d IH]; intros Hd; [eexists _, _; split; [apply (sh_root _ _ _ _ Hs)|simpl; split; [done|lia]]|].
  destruct (IH ltac:(lia)) as (p & r & Hp & Hhi & Hh). destruct (sh_node _ _ _ _ Hs _ _ Hp) as (n & Hn & _).
  destruct (sh_kids _ _ _ _ Hs _ _ _ Hp Hn ltac:(lia)) as [Hne Hk].
  destruct (lookup_lt_is_Some_2 (kids n) (length (kids n) - 1)) as [c Hc].
  { rewrite length_kids. destruct (pairs n); simpl; [done|lia]. }
  destruct (Hk _ _ Hc) as (rc & cn & Hrc & _ & _ & Hht & _ & Hn'). unfold next_lo in Hn'.
  rewrite (proj2 (lookup_ge_None (kids n) _)) in Hn' by lia. exists c, rc. split_and!; [done|congruence|lia].
Qed.

(** The ends of the list. *)
Lemma first_at : ∃ r n, leaf_at (first_leaf_ h) r n ∧ lo r = None.
Proof.
  destruct (lo_none_leaf H ltac:(lia)) as (p & r & Hp & Hlo & Hh). rewrite Nat.sub_diag in Hh. destruct (sh_node _ _ _ _ Hs _ _ Hp) as (n & Hn & _).
  destruct (ti_links _ _ _ _ _ Hinv _ _ _ Hp Hn Hh) as [_ Hx]. unfold prev_ok in Hx. rewrite Hlo in Hx. destruct Hx as [_ ->]. by exists r, n.
Qed.

Lemma last_leaf_at : ∃ r n, leaf_at (last_leaf_ h) r n ∧ hi r = None.
Proof.
  destruct (hi_none_leaf H ltac:(lia)) as (p & r & Hp & Hhi & Hh). rewrite Nat.sub_diag in Hh. destruct (sh_node _ _ _ _ Hs _ _ Hp) as (n & Hn & _).
  destruct (ti_links _ _ _ _ _ Hinv _ _ _ Hp Hn Hh) as [Hx _]. unfold next_ok in Hx. rewrite Hhi in Hx. destruct Hx as [_ ->]. by exists r, n.
Qed.

Lemma wp_leaf_begin P s (Q : Iid → IxIndexHandle → Prop) : is_at h ns P s →
  (∀ x c es s', is_at h ns P s' → rest c (iid_page x) (iid_slot x) es → normal x → selects (λ _, True) es → Q x s') → wp leaf_begin s Q.
Proof.
  intros Hat HQ. destruct first_at as (r & n & Hl & Hlo). pose proof Hl as (Hp & Hn & Hh). destruct (rest_from _ r n 0 Hl) as (c & es & Hr & Hc).
  apply wp_bind. eapply wp_hdr; [done|]. apply wp_bind. eapply wp_fetch; [done..|]. intros s1 H1.
  apply wp_bind. change (wp get s1 ?Q) with (Q s1 s1). cbv beta.
  eapply (wp_skip (λ _, 0%nat) (λ _, True)); [|done|exact Hr|by rewrite (fuel_enough _ _ H1)|done|].
  - intros p0 r0 n0 _. split; [lia|]. intros i e _. split; [lia|tauto].
  - intros x c' s' Hat' Hx Nx. eapply HQ; [done..|]. rewrite filter_every by done.
    destruct (rest_elems _ _ _ _ Hr eq_refl _ _ Hl) as [Hso Hel]. split; [done|]. intros e. rewrite Hel, Hlo. simpl. tauto.
Qed.

Lemma wp_leaf_end P s (Q : Iid → IxIndexHandle → Prop) : is_at h ns P s →
  (∀ x c s', is_at h ns P s' → rest c (iid_page x) (iid_slot x) [] → normal x → Q x s') → wp leaf_end s Q.
Proof.
  intros Hat HQ. destruct last_leaf_at as (r & n & Hl & Hhi). pose proof Hl as (Hp & Hn & Hh).
  apply wp_bind. eapply wp_hdr; [done|]. apply wp_bind. eapply wp_fetch; [done..|]. intros s1 H1.
  apply wp_bind. eapply wp_unpin; [done..|]. intros s2 H2. apply wp_ret. eapply HQ; [done| |].
  - simpl. rewrite <-(drop_all (pairs n)). by eapply rest_last.
  - exists r, n. split; [done|]. by right.
Qed.

(** ** The loop of a scan *)

Lemma wp_get_rid x c e es P s (Q : Rid → IxIndexHandle → Prop) : rest c (iid_page x) (iid_slot x) (e :: es) → normal x → is_at h ns P s →
  (∀ s', is_at h ns P s' → Q e.2 s') → wp (get_rid x) s Q.
Proof.
  intros Hr Nx Hat HQ. pose proof Nx as (r & n & Hl & _). pose proof (rest_head _ _ _ Hr Nx _ _ Hl) as He. simpl in He. pose proof Hl as (_ & Hn & _).
  apply wp_bind. eapply wp_fetch; [done..|]. intros s1 H1. apply lookup_lt_Some in He as Hlt. rewrite decide_False by lia.
  apply wp_bind. eapply wp_unpin; [done..|]. intros s2 H2. eapply wp_deref; [by rewrite He|]. by apply HQ.
Qed.

Lemma wp_scan_next x y c e es P s (Q : Iid → IxIndexHandle → Prop) : no_gaps → x ≠ y → rest c (iid_page x) (iid_slot x) (e :: es) → normal x →
  is_at h ns P s → (∀ x' c' s', is_at h ns P s' → rest c' (iid_page x') (iid_slot x') es → normal x' → Q x' s') → wp (scan_next ndebug x y) s Q.
Proof.
  intros Hng Hxy Hr Nx Hat HQ. pose proof Nx as (r & n & Hl & _). pose proof (rest_head _ _ _ Hr Nx _ _ Hl) as He. simpl in He. pose proof Hl as (Hp & Hn & Hh).
  apply lookup_lt_Some in He as Hlt. destruct (sh_node _ _ _ _ Hs _ _ Hp) as (n0 & Hn0 & El). assert (n0 = n) as -> by congruence.
  apply wp_bind. apply wp_assert; [by rewrite bool_decide_eq_false_2|]. apply wp_bind. eapply wp_fetch; [done..|]. intros s1 H1.
  apply wp_bind. apply wp_assert; [by rewrite El, bool_decide_eq_true_2|]. apply wp_bind. apply wp_assert; [by rewrite bool_decide_eq_true_2|].
  apply wp_bind. eapply wp_hdr; [done|]. apply wp_bind. eapply wp_unpin; [done..|]. intros s2 H2. apply wp_ret.
  destruct (rest_inv _ _ _ _ _ _ Hr Hl) as [[Hh1 Ees]|(b & c0 & es0 & Hh1 & Hr1 & Ees)]; rewrite (drop_S _ _ _ He) in Ees.
  - injection Ees as Ees. subst es. rewrite decide_False by (intros [Hc _]; apply Hc; symmetry; by apply (last_at _ _ _ Hl)).
    eapply HQ; [done|simpl; by eapply rest_last|]. exists r, n. split; [done|]. simpl.
    destruct (decide (S (iid_slot x) = length (pairs n))); [right; split; [done|by apply (last_at _ _ _ Hl)]|left; lia].
  - simpl in Ees. injection Ees as Ees. subst es. destruct (next_leaf_at _ _ _ _ Hl Hh1) as (r' & n' & Hl' & _ & Hlast).
    destruct (decide (S (iid_slot x) = length (pairs n))) as [Eend|Hin].
    + rewrite decide_True by done. eapply HQ; [done| |].
      * simpl. rewrite drop_ge by lia. simpl. exact Hr1.
      * exists r', n'. split; [done|]. simpl. destruct (pairs n') eqn:Ep; [right; split; [done|by eapply Hng]|left; simpl; lia].
    + rewrite decide_False by tauto. eapply HQ; [done|simpl; by eapply rest_next|]. exists r, n. split; [done|]. left. simpl. lia.
Qed.

Lemma wp_scan mid : ∀ fuel x y c c' es P s (Q : list Rid → IxIndexHandle → Prop), no_gaps → (length mid < fuel)%nat →
  rest c (iid_page x) (iid_slot x) (mid ++ es) → rest c' (iid_page y) (iid_slot y) es → normal x → normal y → is_at h ns P s →
  (∀ s', is_at h ns P s' → Q (snd <$> mid) s') → wp (scan ndebug fuel x y) s Q.
Proof.
  induction mid as [|e mid IH]; intros [|fuel] x y c c' es P s Q Hng Hf Hx Hy Nx Ny Hat HQ; cbn [length] in Hf; try lia; cbn [scan].
  - rewrite decide_True by by eapply rest_inj. by apply wp_ret, HQ.
  - rewrite decide_False.
    2:{ intros ->. pose proof (rest_fun _ _ _ _ Hx _ _ Hy) as E. apply (f_equal length) in E. rewrite length_app in E. simpl in E. lia. }
    assert (x ≠ y) as Hne.
    { intros ->. pose proof (rest_fun _ _ _ _ Hx _ _ Hy) as E. apply (f_equal length) in E. rewrite length_app in E. simpl in E. lia. }
    simpl in Hx. apply wp_bind. eapply wp_get_rid; [done..|]. intros s1 H1. apply wp_bind. eapply wp_scan_next; [done..|]. intros x' c1 s2 H2 Hx' Nx'.
    apply wp_bind. eapply (IH fuel x' y); [done|lia|done..|]. intros s3 H3. apply wp_ret. by apply HQ.
Qed.
End scan.
End IxScan.
