(* ===== verification/IndexClaims.v ===== *)
(** * What the index guarantees

    The theorems on B+ tree indexes as a whole, with a concrete index of one [int] column and
    nodes of four entries to show that they apply, and the executions in which an index does
    less than its users rely on. *)

From stdpp Require Import gmultiset.
From S2P Require Import Prelude Disk RecordFile Conditions Index IndexTree IndexSplit IndexFacts IndexOps IndexKeys IndexSpec IndexFile IndexScan.

Module IxClaims.
Import RecFile Cond Ix IxTree IxFacts IxOps IxKeys IxSpec IxFile.

(** ** A concrete index *)

Definition int_cols : list (ColType * Z) := [(TYPE_INT, 4)].
Definition small_hdr : IxFileHdr := mk_IxFileHdr (-1) 3 2 [TYPE_INT] [4] 4 3 16 2 2 48.
Definition small_index : IxIndexHandle :=
  mk_IxIndexHandle small_hdr {[1 := mk_IxNode (-1) true 2 2 []; 2 := mk_IxNode (-1) true 1 1 []]} ∅ ∅.

Definition int_key (z : Z) : key := enc_int 4 z.
Definition ins (z : Z) : op := OpInsert (int_key z) (mk_Rid z 0).
Definition del (z : Z) : op := OpDelete (int_key z).

Lemma small_index_ok : index_ok int_cols small_index ∅.
Proof. eapply (empty_index_ok int_cols small_index (mk_IxNode (-1) true 1 1 [])); done. Qed.

Lemma int_key_valid z : key_valid int_cols (int_key z).
Proof. done. Qed.

(** The index after inserting the given numbers and deleting others. *)
Definition filled (build : bool) (os : list op) : IxIndexHandle := (run_ops build os small_index).2.

Lemma filled_ok build os : Forall (λ o, ∃ z, op_key o = int_key z) os → index_ok int_cols (filled build os) (spec_ops int_cols os ∅).2.
Proof.
  intros Ho. destruct (run_ops_ok int_cols build os small_index ∅ small_index_ok) as (s' & Hrun & Hi & _).
  - eapply Forall_impl; [done|]. intros o (z & ->). apply int_key_valid.
  - unfold filled. by rewrite Hrun.
Qed.

(** ** Correctness *)

(** C5: The index is a finite map.  Any sequence of insertions, deletions and lookups with valid
    keys runs to its end without an error, from any index that is a B+ tree, and answers as a
    map from keys to record ids does: an insertion succeeds exactly if no equal key is there
    and leaves the other entries, a deletion removes exactly the entry of its key, a lookup
    finds it.  The nodes form a B+ tree again, through all splits and lazy deletions, and in a
    build with asserts no page is left pinned. *)
Theorem index_refines (cols : list (ColType * Z)) (build : bool) (os : list op) (s : IxIndexHandle) (m : gmap Z entry) :
  index_ok cols s m → Forall (λ o, key_valid cols (op_key o)) os →
  ∃ s', run_ops build os s = (Ok (spec_ops cols os m).1, s') ∧ index_ok cols s' (spec_ops cols os m).2 ∧
    leak build (pinned s) (pinned s').
Proof. apply run_ops_ok. Qed.

Definition sample_ops : list op :=
  (ins <$> [50; 20; 80; 10; 30; 60; 70; 20; 40; 90]) ++ (del <$> [10; 55; 80]) ++ (ins <$> [5; 80]) ++ [OpGet (int_key 80); OpGet (int_key 10)].

Lemma index_refines_witness : ∃ s', run_ops false sample_ops small_index =
  (Ok ((Inserted <$> [true; true; true; true; true; true; true; false; true; true]) ++ (Deleted <$> [true; false; true]) ++
    (Inserted <$> [true; true]) ++ [Found (Some (mk_Rid 80 0)); Found None]), s') ∧ pinned s' = ∅.
Proof.
  destruct (index_refines int_cols false sample_ops small_index ∅) as (s' & Hrun & _ & L & HL & HE).
  - exact small_index_ok.
  - apply Forall_forall. intros o Ho. repeat (apply elem_of_cons in Ho as [->|Ho]; [apply int_key_valid|]). by apply elem_of_nil in Ho.
  - exists s'. split; [rewrite Hrun; f_equal; f_equal; vm_compute; reflexivity|]. rewrite HL, HE by done. vm_compute. reflexivity.
Defined.

(** ** Pages and files *)

(** C35: The bytes of a node follow its arrays.  For a page with room for the arrays of its header,
    [insert_pairs], with its two [memmove]s over overlapping ranges, turns the node of the page
    into the node with the given pairs inserted at the position, and [erase_pair] into the node
    without the pair there; the node's other fields stay.  The position is in the node, the
    page has room for the pairs, and the given keys and record ids are long enough. *)
Theorem node_arrays (h : IxFileHdr) (bs : list byte) (pos n : nat) (ks rs : list byte) :
  page_geom h bs → let w := Z.to_nat (col_tot_len_ h) in
  ((pos ≤ get_size bs)%nat → (get_size bs + n ≤ Z.to_nat (get_max_size h))%nat → (n * w ≤ length ks)%nat → (n * 8 ≤ length rs)%nat →
    node_of_bytes h (insert_pairs_page h pos ks rs n bs) =
      set_pairs (insert_pairs pos (given_pairs h n ks rs) (pairs (node_of_bytes h bs))) (node_of_bytes h bs)) ∧
  ((pos < get_size bs)%nat → (get_size bs ≤ Z.to_nat (get_max_size h))%nat →
    node_of_bytes h (erase_pair_page h pos bs) = set_pairs (erase_pair pos (pairs (node_of_bytes h bs))) (node_of_bytes h bs)).
Proof.
  intros Hg. split; intros; [by apply insert_pairs_page_ok|by apply erase_pair_page_ok].
Qed.

(** A leaf page of the small index with two pairs. *)
Definition leaf_page : list byte :=
  insert_pairs_page small_hdr 0 (int_key 5 ++ int_key 9) (rid_bytes (mk_Rid 1 2) ++ rid_bytes (mk_Rid 3 4)) 2 (blank_leaf_page 1 1).

Lemma node_arrays_witness :
  pairs (node_of_bytes small_hdr (insert_pairs_page small_hdr 1 (int_key 7) (rid_bytes (mk_Rid 8 8)) 1 leaf_page)) =
    [(int_key 5, mk_Rid 1 2); (int_key 7, mk_Rid 8 8); (int_key 9, mk_Rid 3 4)] ∧
  pairs (node_of_bytes small_hdr (erase_pair_page small_hdr 1 leaf_page)) = [(int_key 5, mk_Rid 1 2)].
Proof.
  assert (page_geom small_hdr leaf_page) as Hg by (split; [done..|apply Nat.leb_le; vm_compute; reflexivity]).
  assert (get_size leaf_page = 2%nat) as Hsz by (vm_compute; reflexivity).
  destruct (node_arrays small_hdr leaf_page 1 1 (int_key 7) (rid_bytes (mk_Rid 8 8)) Hg) as [Hi He].
  rewrite Hi, He by (rewrite ?Hsz; vm_compute; lia). split; vm_compute; reflexivity.
Defined.




(** ** What goes wrong *)

(** A release build leaks pins.  [maintain_parent] unpins the parent inside [assert], which
    [NDEBUG] removes: after six insertions and three deletions that keep their leaf non-empty
    the root is pinned three times, while the build with asserts leaves nothing pinned and both
    have the same nodes.  A pinned page is never evicted from the pool. *)
Theorem release_build_leaks_pins : let os := (ins <$> [10; 20; 30; 40; 50; 60; 25; 55]) ++ (del <$> [20; 30; 60]) in
  elements (pinned (filled true os)) = [4; 4; 4] ∧ pinned (filled false os) = ∅ ∧ nodes (filled true os) = nodes (filled false os).
Proof. vm_compute. by split_and!. Qed.

(** A refused index leaves its file.  When the columns of an index are too long, [create_index]
    throws [InvalidColLengthError] after it created and opened the file; the file stays, empty
    and open, and creating the index again throws [FileExistsError] instead. *)
Theorem failed_create_leaves_file (os_fd : gmap Z string → Z) (ndebug : bool) (filename : string) (index_cols : list ColMeta) (d : Disk.DiskManager) :
  Disk.wf d → Disk.os_files d !! get_index_name filename index_cols = None → 0 ≤ os_fd (Disk.fd2path_ d) →
  IX_MAX_COL_LEN < col_tot_len_ (make_ix_hdr index_cols) → let name := get_index_name filename index_cols in
  ∃ d', create_index os_fd ndebug filename index_cols d = (Err (InvalidColLengthError (col_tot_len_ (make_ix_hdr index_cols))), d') ∧
    Disk.os_files d' !! name = Some [] ∧ Disk.path2fd_ d' !! name = Some (os_fd (Disk.fd2path_ d)) ∧
    create_index os_fd ndebug filename index_cols d' = (Err (FileExistsError name), d').
Proof.
  intros Hwf Hno Hfd Hlong name. eexists. split_and!.
  - by apply create_index_fails.
  - apply lookup_insert_eq.
  - apply lookup_insert_eq.
  - unfold create_index, Disk.create_file, Disk.is_file, get, mbind, M_bind. simpl. by rewrite lookup_insert_eq.
Qed.

Lemma failed_create_leaves_file_witness : let cols := [mk_ColMeta [] [Byte.x61] TYPE_STRING 600 0] in
  ∃ d', (create_index (λ _, 5) true "t" cols Disk.sample_disk).1 = Err (InvalidColLengthError 600) ∧
    create_index (λ _, 5) true "t" cols d' = (Err (FileExistsError (get_index_name "t" cols)), d').
Proof.
  intros cols. destruct (failed_create_leaves_file (λ _, 5) true "t" cols Disk.sample_disk) as (d' & H1 & _ & _ & H2).
  - exact Disk.sample_disk_wf.
  - vm_compute; reflexivity.
  - lia.
  - vm_compute; reflexivity.
  - exists d'. rewrite H1. split; [reflexivity|exact H2].
Defined.
End IxClaims.
