(* ===== verification/Executor.v ===== *)
(** * Executors ([execution/executor_abstract.h] and the operators built on it)

    An executor is an object with a position in a stream of records: [beginTuple] moves it to
    the first record, [nextTuple] to the next one, [Next] returns a copy of the current one and
    [NextBatch] the next records at once.  Here it is a record of these methods over a state of
    its own, in the monad of the state [W] that the scans at the leaves read; an operator
    takes its children as executors and keeps their states inside its own.  [rows_] is the
    counter that EXPLAIN ANALYZE prints.

    Loops over a child take [fuel] iterations at most. *)

From Stdlib Require Import SpecFloat.
From S2P Require Import Prelude Conditions.

Module Exec.
Import Cond.

Abbreviation record := (list byte).

Record Exec (W : Type) := mk_Exec {
  ex_st : Type;
  ex_init : ex_st;
  cols : list ColMeta;
  tupleLen : Z;
  beginTuple : ex_st → M W ex_st;
  nextTuple : ex_st → M W ex_st;
  is_end : ex_st → bool;
  Next : ex_st → M W (option record * ex_st);
  NextBatch : nat → ex_st → M W (list record * ex_st);
  bind_join_key : record → list ColMeta → ex_st → M W (bool * ex_st);
  finish : ex_st → M W ex_st
}.
#[global] Arguments mk_Exec {W} _ _ _ _ _ _ _ _ _ _ _.
#[global] Arguments ex_st {W} _.
#[global] Arguments ex_init {W} _.
#[global] Arguments cols {W} _.
#[global] Arguments tupleLen {W} _.
#[global] Arguments beginTuple {W} _ _.
#[global] Arguments nextTuple {W} _ _.
#[global] Arguments is_end {W} _ _.
#[global] Arguments Next {W} _ _.
#[global] Arguments NextBatch {W} _ _ _.
#[global] Arguments bind_join_key {W} _ _ _ _.
#[global] Arguments finish {W} _ _.

(** ** Records *)

Definition col_label (c : TabCol) : string := String.string_of_list_byte (tc_tab_name c ++ [Byte.x2e] ++ tc_col_name c).

(** [get_col] as used by operators that run. *)
Definition get_col {W} (cs : list ColMeta) (c : TabCol) : M W ColMeta :=
  match find_col cs c with Some m => mret m | None => throw (ColumnNotFoundError (col_label c)) end.

Definition col_of (cs : list ColMeta) (c : TabCol) : res ColMeta := require (find_col cs c) (ColumnNotFoundError (col_label c)).

(** The current record of an executor that keeps its result in a vector. *)
Definition at_pos (tuples : list record) (pos : nat) : option record := tuples !! pos.

Section operators.
Context {W : Type} (fuel : nat).
Implicit Types (e prev : Exec W).

(** [AbstractExecutor::NextBatch]: records until the batch is full or the stream ends. *)
Section batch.
Context {St : Type} (is_end : St → bool) (Next : St → M W (option record * St)) (nextTuple : St → M W St).

Fixpoint batch_loop (fuel : nat) (max : nat) (batch : list record) (s : St) : M W (list record * St) :=
  match fuel with
  | O => throw Undefined
  | S fuel =>
      if decide (length batch < max)%nat then
        if is_end s then mret (batch, s)
        else
          '(rec, s) ← Next s;
          let batch := match rec with Some r => batch ++ [r] | None => batch end in
          s ← nextTuple s;
          batch_loop fuel max batch s
      else mret (batch, s)
  end.
End batch.

(** The loop [while (!prev_->is_end())] of the operators that read their child to the end. *)
Fixpoint drain (e : Exec W) (fuel : nat) (s : ex_st e) : M W (list record * ex_st e) :=
  match fuel with
  | O => throw Undefined
  | S fuel =>
      if is_end e s then mret ([], s)
      else
        '(rec, s) ← Next e s;
        s ← nextTuple e s;
        '(l, s) ← drain e fuel s;
        mret (match rec with Some r => r :: l | None => l end, s)
  end.

Definition no_bind {St : Type} (_ : record) (_ : list ColMeta) (s : St) : M W (bool * St) := mret (false, s).

(** ** FilterExecutor *)

Section filter.
Context (prev : Exec W) (conds : list Condition).

Record FilterState := mk_FilterState { fi_prev : ex_st prev; fi_cur : option record; fi_end : bool; fi_rows : nat }.

Fixpoint find_next_valid (fuel : nat) (rows : nat) (s : ex_st prev) : M W FilterState :=
  match fuel with
  | O => throw Undefined
  | S fuel =>
      if is_end prev s then mret (mk_FilterState s None true rows)
      else
        '(rec, s) ← Next prev s;
        match rec with
        | Some r =>
            if eval_conds r (cols prev) conds then mret (mk_FilterState s (Some r) false rows)
            else s ← nextTuple prev s; find_next_valid fuel rows s
        | None => s ← nextTuple prev s; find_next_valid fuel rows s
        end
  end.

Definition filter_begin (s : FilterState) : M W FilterState :=
  p ← beginTuple prev (fi_prev s); find_next_valid fuel (fi_rows s) p.
Definition filter_next (s : FilterState) : M W FilterState :=
  p ← nextTuple prev (fi_prev s); find_next_valid fuel (fi_rows s) p.
Definition filter_Next (s : FilterState) : M W (option record * FilterState) :=
  match fi_end s, fi_cur s with
  | false, Some r => mret (Some r, mk_FilterState (fi_prev s) (fi_cur s) (fi_end s) (S (fi_rows s)))
  | _, _ => mret (None, s)
  end.

Definition FilterExecutor : Exec W := {|
  ex_st := FilterState;
  ex_init := mk_FilterState (ex_init prev) None true 0;
  cols := cols prev;
  tupleLen := tupleLen prev;
  beginTuple := filter_begin;
  nextTuple := filter_next;
  is_end := fi_end;
  Next := filter_Next;
  NextBatch n := batch_loop fi_end filter_Next filter_next fuel n [];
  bind_join_key l lc s := '(b, p) ← bind_join_key prev l lc (fi_prev s); mret (b, mk_FilterState p (fi_cur s) (fi_end s) (fi_rows s));
  finish s := p ← finish prev (fi_prev s); mret (mk_FilterState p (fi_cur s) (fi_end s) (fi_rows s))
|}.
End filter.

(** ** RenameExecutor *)

Section rename.
Context (prev : Exec W) (new_cols : list ColMeta).

Definition rename_count {A} (n : A → nat) (x : A * ex_st prev) (rows : nat) : A * (ex_st prev * nat) := (x.1, (x.2, (rows + n x.1)%nat)).

Definition RenameExecutor : Exec W := {|
  ex_st := ex_st prev * nat;
  ex_init := (ex_init prev, 0%nat);
  cols := new_cols;
  tupleLen := tupleLen prev;
  beginTuple s := p ← beginTuple prev s.1; mret (p, s.2);
  nextTuple s := p ← nextTuple prev s.1; mret (p, s.2);
  is_end s := is_end prev s.1;
  Next s := x ← Next prev s.1; mret (rename_count (λ o : option record, if o then 1%nat else 0%nat) x s.2);
  NextBatch n s := x ← NextBatch prev n s.1; mret (rename_count length x s.2);
  bind_join_key l lc s := '(b, p) ← bind_join_key prev l lc s.1; mret (b, (p, s.2));
  finish s := p ← finish prev s.1; mret (p, s.2)
|}.
End rename.

(** ** ProjectionExecutor *)

(** The columns of the result, each with its place in the child's columns. *)
Fixpoint select_cols (cs : list ColMeta) (sel : list TabCol) (offset : Z) : res (list (ColMeta * ColMeta)) :=
  match sel with
  | [] => Ok []
  | c :: sel =>
      m ← col_of cs c;
      l ← select_cols cs sel (offset + cm_len m);
      mret ((m, mk_ColMeta (cm_tab_name m) (cm_name m) (cm_type m) (cm_len m) offset) :: l)
  end.

(** [memcpy] of every selected field into a new record. *)
Definition project (sel : list (ColMeta * ColMeta)) (len : Z) (rec : record) : record :=
  foldl (λ buf '(src, dst), write_bytes buf (Z.to_nat (cm_offset dst)) (field rec (cm_offset src) (cm_len dst)))
    (replicate (Z.to_nat len) Byte.x00) sel.

Definition sel_len (sel : list (ColMeta * ColMeta)) : Z := foldl (λ a x, a + cm_len x.2) 0 sel.

Section projection.
Context (prev : Exec W).

Definition projection_Next (sel : list (ColMeta * ColMeta)) (s : ex_st prev * nat) : M W (option record * (ex_st prev * nat)) :=
  if is_end prev s.1 then mret (None, s)
  else
    '(rec, p) ← Next prev s.1;
    match rec with
    | None => mret (None, (p, s.2))
    | Some r => mret (Some (project sel (sel_len sel) r), (p, S s.2))
    end.

Definition projection_with (sel : list (ColMeta * ColMeta)) : Exec W := {|
  ex_st := ex_st prev * nat;
  ex_init := (ex_init prev, 0%nat);
  cols := sel.*2;
  tupleLen := sel_len sel;
  beginTuple s := p ← beginTuple prev s.1; mret (p, s.2);
  nextTuple s := p ← nextTuple prev s.1; mret (p, s.2);
  is_end s := is_end prev s.1;
  Next := projection_Next sel;
  NextBatch n s :=
    '(input, p) ← NextBatch prev n s.1;
    mret (project sel (sel_len sel) <$> input, (p, (s.2 + length input)%nat));
  bind_join_key l lc s := '(b, p) ← bind_join_key prev l lc s.1; mret (b, (p, s.2));
  finish s := p ← finish prev s.1; mret (p, s.2)
|}.

(** The constructor throws when a column is missing. *)
Definition ProjectionExecutor (sel_cols : list TabCol) : res (Exec W) :=
  sel ← select_cols (cols prev) sel_cols 0; mret (projection_with sel).
End projection.

(** ** LimitExecutor *)

Section limit.
Context (prev : Exec W) (limit_ : Z).

Record LimitState := mk_LimitState { li_prev : ex_st prev; emitted_ : Z; li_rows : nat }.

Definition limit_is_end (s : LimitState) : bool := bool_decide (limit_ ≤ emitted_ s) || is_end prev (li_prev s).

Definition LimitExecutor : Exec W := {|
  ex_st := LimitState;
  ex_init := mk_LimitState (ex_init prev) 0 0;
  cols := cols prev;
  tupleLen := tupleLen prev;
  beginTuple s := p ← beginTuple prev (li_prev s); mret (mk_LimitState p 0 (li_rows s));
  nextTuple s :=
    if decide (emitted_ s < limit_) then p ← nextTuple prev (li_prev s); mret (mk_LimitState p (emitted_ s) (li_rows s))
    else mret s;
  is_end := limit_is_end;
  Next s :=
    if limit_is_end s then mret (None, s)
    else '(rec, p) ← Next prev (li_prev s); mret (rec, mk_LimitState p (emitted_ s + 1) (S (li_rows s)));
  NextBatch n s :=
    if limit_is_end s then mret ([], s)
    else
      '(batch, p) ← NextBatch prev (n `min` Z.to_nat (limit_ - emitted_ s)) (li_prev s);
      mret (batch, mk_LimitState p (emitted_ s + Z.of_nat (length batch)) (li_rows s + length batch));
  bind_join_key := no_bind;
  finish s := p ← finish prev (li_prev s); mret (mk_LimitState p (emitted_ s) (li_rows s))
|}.
End limit.

(** ** Operators that compute their whole result in [beginTuple] *)

Section buffered.
Context (St : Type) (init : St) (out_cols : list ColMeta) (len : Z).
Context (fill : St → M W (list record * St)) (finish_ : St → M W St).

Record BufState := mk_BufState { bu_st : St; bu_tuples : list record; bu_pos : nat; bu_rows : nat }.

Definition buf_is_end (s : BufState) : bool := bool_decide (length (bu_tuples s) ≤ bu_pos s)%nat.
Definition buf_next (s : BufState) : M W BufState :=
  mret (if decide (bu_pos s < length (bu_tuples s))%nat then mk_BufState (bu_st s) (bu_tuples s) (S (bu_pos s)) (bu_rows s) else s).
Definition buf_Next (s : BufState) : M W (option record * BufState) :=
  if buf_is_end s then mret (None, s)
  else mret (at_pos (bu_tuples s) (bu_pos s), mk_BufState (bu_st s) (bu_tuples s) (bu_pos s) (S (bu_rows s))).

Definition buffered : Exec W := {|
  ex_st := BufState;
  ex_init := mk_BufState init [] 0 0;
  cols := out_cols;
  tupleLen := len;
  beginTuple s := '(l, st) ← fill (bu_st s); mret (mk_BufState st l 0 (bu_rows s));
  nextTuple := buf_next;
  is_end := buf_is_end;
  Next := buf_Next;
  NextBatch n := batch_loop buf_is_end buf_Next buf_next fuel n [];
  bind_join_key := no_bind;
  finish s := st ← finish_ (bu_st s); mret (mk_BufState st (bu_tuples s) (bu_pos s) (bu_rows s))
|}.
End buffered.

(** *** SortExecutor *)

(** [compare_col]: the sign of [(lv > rv) - (lv < rv)]. *)
Definition compare_col (a b : record) (c : ColMeta) : comparison :=
  match cm_type c with
  | TYPE_INT => int_of (field a (cm_offset c) 4) ?= int_of (field b (cm_offset c) 4)
  | TYPE_FLOAT =>
      let lv := float_of (field a (cm_offset c) 4) in
      let rv := float_of (field b (cm_offset c) 4) in
      if SFltb rv lv then (if SFltb lv rv then Eq else Gt) else if SFltb lv rv then Lt else Eq
  | TYPE_STRING => byte_compare (c_str (field a (cm_offset c) (cm_len c))) (c_str (field b (cm_offset c) (cm_len c)))
  end.

Record OrderByTerm := mk_OrderByTerm { ob_col : TabCol; is_desc : bool }.

(** The comparison of the sort: the first column that differs decides. *)
Fixpoint order_compare (a b : record) (order : list (ColMeta * bool)) : comparison :=
  match order with
  | [] => Eq
  | (c, desc) :: order =>
      match compare_col a b c with
      | Eq => order_compare a b order
      | x => if (desc : bool) then CompOpp x else x
      end
  end.
Definition order_less (order : list (ColMeta * bool)) (a b : record) : bool := bool_decide (order_compare a b order = Lt).

(** [std::stable_sort] for a strict weak order: an element goes behind those not greater. *)
Fixpoint stable_insert (less : record → record → bool) (x : record) (l : list record) : list record :=
  match l with
  | [] => [x]
  | y :: l => if less y x then y :: stable_insert less x l else x :: y :: l
  end.
Definition stable_sort (less : record → record → bool) (l : list record) : list record := foldr (stable_insert less) [] l.

Fixpoint order_cols (cs : list ColMeta) (order_bys : list OrderByTerm) : M W (list (ColMeta * bool)) :=
  match order_bys with
  | [] => mret []
  | o :: order_bys => m ← get_col cs (ob_col o); l ← order_cols cs order_bys; mret ((m, is_desc o) :: l)
  end.

Definition sort_fill (prev : Exec W) (order_bys : list OrderByTerm) (s : ex_st prev) : M W (list record * ex_st prev) :=
  s ← beginTuple prev s;
  '(tuples, s) ← drain prev fuel s;
  order ← order_cols (cols prev) order_bys;
  mret (stable_sort (order_less order) tuples, s).

Definition SortExecutor (prev : Exec W) (order_bys : list OrderByTerm) : Exec W :=
  buffered (ex_st prev) (ex_init prev) (cols prev) (tupleLen prev) (sort_fill prev order_bys) (finish prev).

(** *** UnionExecutor *)

(** [(float)i], rounded to nearest. *)
Definition float_of_int (z : Z) : spec_float := binary_normalize 24 128 z 0 false.

(** The bits of a [float]. *)
Definition bits_of_float (f : spec_float) : Z :=
  let sign (s : bool) := if s then 2147483648 else 0 in
  match f with
  | S754_zero s => sign s
  | S754_infinity s => sign s + 2139095040
  | S754_nan => 2143289344
  | S754_finite s m e => sign s + (if decide (Zpos m < 8388608) then Zpos m else (e + 150) * 8388608 + (Zpos m - 8388608))
  end.

(** [write_value]: the bytes written at the place of [dst] for the field [src] of a record. *)
Definition union_value (dst src : ColMeta) (rec : record) : list byte :=
  match cm_type dst, cm_type src with
  | TYPE_FLOAT, TYPE_INT => enc_int 4 (bits_of_float (float_of_int (int_of (field rec (cm_offset src) 4))))
  | TYPE_STRING, TYPE_STRING =>
      let s := c_str (field rec (cm_offset src) (cm_len src)) in
      write_bytes (replicate (Z.to_nat (cm_len dst)) Byte.x00) 0 (take (Z.to_nat (cm_len dst)) s)
  | _, _ => field rec (cm_offset src) (cm_len dst)
  end.

Definition union_record (dst_cols src_cols : list ColMeta) (len : Z) (rec : record) : record :=
  foldl (λ buf '(dst, src), write_bytes buf (Z.to_nat (cm_offset dst)) (union_value dst src rec))
    (replicate (Z.to_nat len) Byte.x00) (zip dst_cols src_cols).

(** The records that are not among [seen], each once. *)
Fixpoint dedup (seen : gset record) (l : list record) : list record * gset record :=
  match l with
  | [] => ([], seen)
  | r :: l =>
      if decide (r ∈ seen) then dedup seen l
      else let '(l, seen) := dedup ({[r]} ∪ seen) l in (r :: l, seen)
  end.

Fixpoint states (children : list (Exec W)) : Type :=
  match children with [] => unit | c :: children => ex_st c * states children end.
Fixpoint init_states (children : list (Exec W)) : states children :=
  match children with [] => tt | c :: children => (ex_init c, init_states children) end.

Definition union_len (out_cols : list ColMeta) : Z := match last out_cols with Some c => cm_offset c + cm_len c | None => 0 end.

Fixpoint union_fill (out_cols : list ColMeta) (children : list (Exec W)) (seen : gset record) :
    states children → M W (list record * states children) :=
  match children return states children → M W (list record * states children) with
  | [] => λ s, mret ([], s)
  | c :: children => λ s,
      p ← beginTuple c s.1;
      '(l, p) ← drain c fuel p;
      (if decide (l = [] ∨ (length out_cols ≤ length (cols c))%nat) then mret tt else throw Undefined);;
      let '(new, seen) := dedup seen (union_record out_cols (cols c) (union_len out_cols) <$> l) in
      '(rest, ps) ← union_fill out_cols children seen s.2;
      mret (new ++ rest, (p, ps))
  end.

Fixpoint union_finish (children : list (Exec W)) : states children → M W (states children) :=
  match children return states children → M W (states children) with
  | [] => λ s, mret s
  | c :: children => λ s, p ← finish c s.1; ps ← union_finish children s.2; mret (p, ps)
  end.

Definition UnionExecutor (children : list (Exec W)) (out_cols : list ColMeta) : Exec W :=
  buffered (states children) (init_states children) out_cols (union_len out_cols)
    (union_fill out_cols children ∅) (union_finish children).

(** ** NestedLoopJoinExecutor *)

Section join.
Context (left right : Exec W) (conds : list Condition).

Definition shift_col (d : Z) (c : ColMeta) : ColMeta :=
  mk_ColMeta (cm_tab_name c) (cm_name c) (cm_type c) (cm_len c) (cm_offset c + d).
Definition join_cols : list ColMeta := cols left ++ (shift_col (tupleLen left) <$> cols right).

Definition joined (l r : record) : record := field l 0 (tupleLen left) ++ field r 0 (tupleLen right).

Record JoinState := mk_JoinState {
  jo_left : ex_st left;
  jo_right : ex_st right;
  left_rec_ : option record;
  right_rec_ : option record;
  isend : bool;
  jo_rows : nat
}.

(** The inner loop: the next record of the right child that matches [l]. *)
Fixpoint match_right (fuel : nat) (l : record) (s : ex_st right) : M W (option record * ex_st right) :=
  match fuel with
  | O => throw Undefined
  | S fuel =>
      if is_end right s then mret (None, s)
      else
        '(rec, s) ← Next right s;
        match rec with
        | None => mret (None, s)
        | Some r =>
            if eval_conds (joined l r) join_cols conds then mret (Some r, s)
            else s ← nextTuple right s; match_right fuel l s
        end
  end.

(** The current left record is given to the right child, which starts again. *)
Definition restart_right (l : record) (s : ex_st right) : M W (ex_st right) :=
  '(_, s) ← bind_join_key right l (cols left) s; beginTuple right s.

Fixpoint advance_to_next_match (fuel_left : nat) (rows : nat) (lrec : option record) (sl : ex_st left) (sr : ex_st right)
    : M W JoinState :=
  match fuel_left with
  | O => throw Undefined
  | S fuel_left =>
      if is_end left sl then mret (mk_JoinState sl sr lrec None true rows)
      else
        l ← deref lrec;
        '(found, sr) ← match_right fuel l sr;
        match found with
        | Some r => mret (mk_JoinState sl sr lrec (Some r) false rows)
        | None =>
            sl ← nextTuple left sl;
            if is_end left sl then advance_to_next_match fuel_left rows lrec sl sr
            else
              '(lrec, sl) ← Next left sl;
              l ← deref lrec;
              sr ← restart_right l sr;
              advance_to_next_match fuel_left rows lrec sl sr
        end
  end.

Definition join_begin (s : JoinState) : M W JoinState :=
  sl ← beginTuple left (jo_left s);
  if is_end left sl then mret (mk_JoinState sl (jo_right s) (left_rec_ s) None true (jo_rows s))
  else
    '(lrec, sl) ← Next left sl;
    l ← deref lrec;
    sr ← restart_right l (jo_right s);
    advance_to_next_match fuel (jo_rows s) lrec sl sr.

Definition join_next (s : JoinState) : M W JoinState :=
  if isend s then mret s
  else sr ← nextTuple right (jo_right s); advance_to_next_match fuel (jo_rows s) (left_rec_ s) (jo_left s) sr.

Definition join_Next (s : JoinState) : M W (option record * JoinState) :=
  match isend s, left_rec_ s, right_rec_ s with
  | false, Some l, Some r =>
      mret (Some (joined l r), mk_JoinState (jo_left s) (jo_right s) (left_rec_ s) (right_rec_ s) (isend s) (S (jo_rows s)))
  | _, _, _ => mret (None, s)
  end.

Definition NestedLoopJoinExecutor : Exec W := {|
  ex_st := JoinState;
  ex_init := mk_JoinState (ex_init left) (ex_init right) None None false 0;
  cols := join_cols;
  tupleLen := tupleLen left + tupleLen right;
  beginTuple := join_begin;
  nextTuple := join_next;
  is_end := isend;
  Next := join_Next;
  NextBatch n := batch_loop isend join_Next join_next fuel n [];
  bind_join_key := no_bind;
  finish s :=
    sl ← finish left (jo_left s);
    sr ← finish right (jo_right s);
    mret (mk_JoinState sl sr (left_rec_ s) (right_rec_ s) (isend s) (jo_rows s))
|}.
End join.

(** ** Running a query *)

(** [QlManager::select_from]: batches of [SELECT_BATCH_SIZE] records until one is empty. *)
Definition SELECT_BATCH_SIZE : nat := 256.

Fixpoint select_loop (e : Exec W) (fuel : nat) (s : ex_st e) : M W (list record * ex_st e) :=
  match fuel with
  | O => throw Undefined
  | S fuel =>
      if is_end e s then mret ([], s)
      else
        '(batch, s) ← NextBatch e SELECT_BATCH_SIZE s;
        if decide (length batch = 0%nat) then mret ([], s)
        else '(l, s) ← select_loop e fuel s; mret (batch ++ l, s)
  end.

Definition select_from (e : Exec W) : M W (list record) :=
  s ← beginTuple e (ex_init e);
  '(rows, s) ← select_loop e fuel s;
  finish e s;;
  mret rows.

(** [QlManager::run_explain] runs the tree record by record, for its counters. *)
Definition run_explain (e : Exec W) : M W (ex_st e) :=
  s ← beginTuple e (ex_init e);
  '(_, s) ← drain e fuel s;
  finish e s.
End operators.
End Exec.
