(* ===== verification/ExecutorFacts.v ===== *)
(** * What the operators deliver

    [delivers e steady rows s] says that the executor [e] in state [s] has exactly [rows] ahead,
    however it is read: record by record or in batches of any sizes.  Every operator is proved
    to deliver the result of its relational operation on the rows of its children.

    [steady] says that [Next] does not end the stream.  It fails for [LimitExecutor] alone,
    whose [is_end] turns true with the call of [Next] that returns the last record. *)

From S2P Require Import Prelude Conditions Executor.

Module ExecFacts.
Import Cond Exec.

Section facts.
Context {W : Type} (I : W → Prop).

(** ** Computations that succeed and keep the invariant of the state *)

Definition does {A} (m : M W A) (Q : A → Prop) : Prop := ∀ w, I w → ∃ a w', m w = (Ok a, w') ∧ I w' ∧ Q a.

Lemma does_ret {A} (a : A) (Q : A → Prop) : Q a → does (mret a) Q.
Proof. intros Hq w Hw. by exists a, w. Qed.

Lemma does_bind {A B} (m : M W A) (k : A → M W B) (Q : B → Prop) : does m (λ a, does (k a) Q) → does (mbind k m) Q.
Proof.
  intros Hm w Hw. destruct (Hm w Hw) as (a & w1 & H1 & Hw1 & Hk). destruct (Hk w1 Hw1) as (b & w2 & H2 & Hw2 & Hb).
  exists b, w2. by rewrite (bind_ok _ _ _ _ _ H1).
Qed.

Lemma does_mono {A} (m : M W A) (P Q : A → Prop) : does m P → (∀ a, P a → Q a) → does m Q.
Proof. intros Hm Hpq w Hw. destruct (Hm w Hw) as (a & w1 & H1 & Hw1 & Hk). exists a, w1. eauto. Qed.

Lemma does_seq {A B} (m : M W A) (k : A → M W B) (P : A → Prop) (Q : B → Prop) :
  does m P → (∀ a, P a → does (k a) Q) → does (mbind k m) Q.
Proof. intros Hm Hk. apply does_bind. by eapply does_mono. Qed.

Lemma does_and {A} (m : M W A) (P Q : A → Prop) : does m P → does m Q → does m (λ a, P a ∧ Q a).
Proof.
  intros HP HQ w Hw. destruct (HP w Hw) as (a & w1 & H1 & Hw1 & Ha), (HQ w Hw) as (b & w2 & H2 & Hw2 & Hb).
  rewrite H1 in H2. injection H2 as -> ->. by exists b, w2.
Qed.

Lemma does_all {A} (m : M W A) (P : nat → A → Prop) : (∀ j, does m (P j)) → does m (λ a, ∀ j, P j a).
Proof.
  intros HP w Hw. destruct (HP 0%nat w Hw) as (a & w1 & H1 & Hw1 & _). exists a, w1. split_and!; [done..|]. intros j.
  destruct (HP j w Hw) as (b & w2 & H2 & _ & Hb). congruence.
Qed.

Lemma does_deref {A} (o : option A) (a : A) (Q : A → Prop) : o = Some a → Q a → does (deref o) Q.
Proof. intros -> Hq. by apply does_ret. Qed.

(** ** Streams *)

Section streams.
Context {St : Type} (end_ : St → bool) (Next_ : St → M W (option record * St)) (next_ : St → M W St).
Context (batch_ : nat → St → M W (list record * St)).

Fixpoint ahead (steady : bool) (rows : list record) (s : St) : Prop :=
  match rows with
  | [] => end_ s = true
  | r :: rows => end_ s = false ∧
      does (Next_ s) (λ x, x.1 = Some r ∧ (steady = true → end_ x.2 = false) ∧ does (next_ x.2) (ahead steady rows))
  end.

(** [k] batches. *)
Fixpoint batches (k : nat) (rows : list record) (s : St) : Prop :=
  match k with
  | O => True
  | S k => end_ s = bool_decide (rows = []) ∧
      ∀ n, does (batch_ n s) (λ x, x.1 = take n rows ∧ batches k (drop n rows) x.2)
  end.

Lemma ahead_end steady rows s : ahead steady rows s → end_ s = bool_decide (rows = []).
Proof. destruct rows; [by intros ->|]. by intros [-> _]. Qed.

Lemma ahead_weaken steady rows : ∀ s, ahead true rows s → ahead steady rows s.
Proof.
  induction rows as [|r rows IH]; [done|]. intros s [He Hn]. split; [done|]. eapply does_mono; [done|]. intros x (Hx & Hs & Hk).
  split_and!; [done| |]; [intros _; by apply Hs|]. eapply does_mono; [done|]. intros y Hy. by apply IH.
Qed.

(** The loop of [NextBatch]. *)
Lemma batch_loop_ok steady rows : ∀ fuel max batch s, ahead steady rows s → (length rows < fuel)%nat →
  does (batch_loop end_ Next_ next_ fuel max batch s)
    (λ x, x.1 = batch ++ take (max - length batch) rows ∧ ahead steady (drop (max - length batch) rows) x.2).
Proof.
  induction rows as [|r rows IH]; intros fuel max batch s Ha Hf; (destruct fuel as [|fuel]; [simpl in Hf; lia|]); cbn [batch_loop]; case_decide as Hd.
  - rewrite (ahead_end _ _ _ Ha). apply does_ret. rewrite take_nil, drop_nil, app_nil_r. done.
  - apply does_ret. rewrite take_nil, drop_nil, app_nil_r. done.
  - pose proof Ha as [He Hn]. rewrite He. eapply does_seq; [exact Hn|]. intros [o s1] (Eo & _ & Hk); cbn [fst snd] in *; subst o. eapply does_seq; [exact Hk|]. intros s2 Ha2.
    eapply does_mono; [apply IH; [done|simpl in Hf; lia]|]. intros x [-> Hx]. rewrite length_app in *. simpl in *.
    destruct (max - length batch)%nat as [|k] eqn:E; [lia|]. replace (max - (length batch + 1))%nat with k in * by lia. simpl. by rewrite <-app_assoc.
  - replace (max - length batch)%nat with 0%nat by lia. apply does_ret. by rewrite app_nil_r.
Qed.

Lemma default_batches steady k : ∀ rows s fuel, (∀ n s, batch_ n s = batch_loop end_ Next_ next_ fuel n [] s) → ahead steady rows s →
  (length rows < fuel)%nat → batches k rows s.
Proof.
  induction k as [|k IH]; [done|]. intros rows s fuel Hb Ha Hf. split; [by eapply ahead_end|]. intros n. rewrite Hb.
  eapply does_mono; [by eapply batch_loop_ok|]. intros x. simpl. rewrite Nat.sub_0_r. intros [-> Hx]. split; [done|].
  eapply IH; [done|done|]. rewrite length_drop. lia.
Qed.
End streams.

Abbreviation is_ahead e := (ahead (is_end e) (Next e) (nextTuple e)).
Abbreviation in_batches e := (batches (is_end e) (NextBatch e)).

Definition delivers (e : Exec W) (steady : bool) (rows : list record) (s : ex_st e) : Prop :=
  is_ahead e steady rows s ∧ ∀ k, in_batches e k rows s.

(** The executor delivers [rows] from its beginning, whatever was done with it before, also
    when it is given the join key [l]. *)
Record implements (e : Exec W) (steady : bool) (rows : list record) : Prop := {
  im_begin s : does (beginTuple e s) (delivers e steady rows);
  im_finish s : does (finish e s) (λ _, True)
}.

(** An executor on the right of a join delivers rows that depend on the current left record. *)
Record implements_for (e : Exec W) (lcols : list ColMeta) (dom : record → Prop) (rows : record → list record) : Prop := {
  if_begin l s : dom l → does (bind_join_key e l lcols s) (λ x, does (beginTuple e x.2) (delivers e false (rows l)));
  if_finish s : does (finish e s) (λ _, True)
}.

(** An executor that ignores join keys. *)
Definition unbound (e : Exec W) : Prop := ∀ l lc s, does (bind_join_key e l lc s) (λ _, True).

Lemma delivers_weaken e steady rows s : delivers e steady rows s → delivers e false rows s.
Proof. intros [Ha Hb]. split; [|done]. destruct steady; [by apply ahead_weaken|done]. Qed.

Lemma implements_any e lcols dom steady rows : implements e steady rows → unbound e → implements_for e lcols dom (λ _, rows).
Proof.
  intros [Hb Hf] Hu. split; [|done]. intros l s _. eapply does_mono; [apply Hu|]. intros x _. eapply does_mono; [apply Hb|]. intros s'. apply delivers_weaken.
Qed.

Lemma implements_for_mono e lcols (dom dom' : record → Prop) rows rows' : (∀ l, dom' l → dom l ∧ rows l = rows' l) →
  implements_for e lcols dom rows → implements_for e lcols dom' rows'.
Proof. intros He [Hb Hf]. split; [|done]. intros l s [Hl <-]%He. by apply Hb. Qed.

(** Reading a child to its end. *)
Lemma drain_ok e steady rows : ∀ fuel s, is_ahead e steady rows s → (length rows < fuel)%nat → does (drain e fuel s) (λ x, x.1 = rows).
Proof.
  induction rows as [|r rows IH]; intros [|fuel] s Ha Hf; simpl in Hf; try lia; cbn [drain].
  - rewrite (ahead_end _ _ _ _ _ _ Ha). by apply does_ret.
  - destruct Ha as [-> Hn]. eapply does_seq; [exact Hn|]. intros [o s1] (Eo & _ & Hk); cbn [fst snd] in *; subst o. eapply does_seq; [exact Hk|]. intros s2 Ha2.
    eapply does_seq; [apply IH; [done|lia]|]. intros [l s3] E. simpl in E. subst l. by apply does_ret.
Qed.

Lemma drain_start e steady rows fuel s : implements e steady rows → (length rows < fuel)%nat →
  does (s ← beginTuple e s; drain e fuel s) (λ x, x.1 = rows).
Proof. intros Hi Hf. eapply does_seq; [apply (im_begin _ _ _ Hi)|]. intros s1 [Ha _]. by eapply drain_ok. Qed.

(** ** Filter *)

Section filter.
Context (fuel : nat) (prev : Exec W) (conds : list Condition).
Abbreviation passes := (λ r, eval_conds r (cols prev) conds = true).

(** A position of the filter: the child has returned the current record. *)
Lemma find_next_valid_ok steady rows : ∀ f n s, is_ahead prev steady rows s → (length rows < f)%nat → (length rows < fuel)%nat →
  does (find_next_valid prev conds f n s) (is_ahead (FilterExecutor fuel prev conds) true (filter passes rows)).
Proof.
  induction rows as [|r rows IH]; intros [|f] n s Ha Hf Hfu; simpl in Hf; try lia; cbn [find_next_valid].
  - rewrite (ahead_end _ _ _ _ _ _ Ha). by apply does_ret.
  - destruct Ha as [-> Hn]. eapply does_seq; [exact Hn|]. intros [o s1] (Eo & _ & Hk); cbn [fst snd] in *; subst o. rewrite filter_cons.
    assert (does (nextTuple prev s1) (λ s2, is_ahead prev steady rows s2)) as Hk' by exact Hk.
    destruct (eval_conds r (cols prev) conds) eqn:Ev.
    + rewrite decide_True by done. apply does_ret. split; [done|]. simpl. apply does_ret. split_and!; [done..|].
      simpl. unfold filter_next. eapply does_seq; [exact Hk'|]. intros s2 Ha2. apply IH; simpl in *; [done|lia|lia].
    + rewrite decide_False by done. eapply does_seq; [exact Hk'|]. intros s2 Ha2. apply IH; simpl in *; [done|lia|lia].
Qed.

Lemma filter_delivers steady rows n s : is_ahead prev steady rows s → (length rows < fuel)%nat →
  does (find_next_valid prev conds fuel n s) (delivers (FilterExecutor fuel prev conds) true (filter passes rows)).
Proof.
  intros Ha Hf. eapply does_mono; [by eapply find_next_valid_ok|]. intros s' Ha'. split; [done|]. intros k.
  eapply default_batches; [done|exact Ha'|]. pose proof (length_filter passes rows). lia.
Qed.

Lemma filter_implements steady rows : implements prev steady rows → (length rows < fuel)%nat →
  implements (FilterExecutor fuel prev conds) true (filter passes rows).
Proof.
  intros Hi Hf. split.
  - intros s. eapply does_seq; [apply (im_begin _ _ _ Hi)|]. intros p [Ha _]. by eapply filter_delivers.
  - intros s. eapply does_seq; [apply (im_finish _ _ _ Hi)|]. intros p _. by apply does_ret.
Qed.

Lemma filter_implements_for lcols dom (rows : record → list record) : implements_for prev lcols dom rows → (∀ l, dom l → (length (rows l) < fuel)%nat) →
  implements_for (FilterExecutor fuel prev conds) lcols dom (λ l, filter passes (rows l)).
Proof.
  intros [Hb Hfi] Hf. split.
  - intros l s Hl. eapply does_seq; [by apply Hb|]. intros [b p] Hp. apply does_ret. eapply does_seq; [exact Hp|].
    intros p' [Ha _]. eapply does_mono; [eapply filter_delivers; [exact Ha|by apply Hf]|]. intros s'. apply delivers_weaken.
  - intros s. eapply does_seq; [apply Hfi|]. intros p _. by apply does_ret.
Qed.
End filter.

(** ** Operators that map the records of their child *)

Record maps (prev e : Exec W) (f : record → record) (st : ex_st e → ex_st prev) : Prop := {
  mp_end s : is_end e s = is_end prev (st s);
  mp_Next s r P : is_end prev (st s) = false → does (Next prev (st s)) (λ x, x.1 = Some r ∧ P x.2) →
    does (Next e s) (λ x, x.1 = Some (f r) ∧ P (st x.2));
  mp_next s P : does (nextTuple prev (st s)) P → does (nextTuple e s) (λ s', P (st s'));
  mp_begin s P : does (beginTuple prev (st s)) P → does (beginTuple e s) (λ s', P (st s'));
  mp_batch n s l P : does (NextBatch prev n (st s)) (λ x, x.1 = l ∧ P x.2) → does (NextBatch e n s) (λ x, x.1 = f <$> l ∧ P (st x.2));
  mp_bind l lc s P : does (bind_join_key prev l lc (st s)) (λ x, P x.2) → does (bind_join_key e l lc s) (λ x, P (st x.2));
  mp_finish s : does (finish prev (st s)) (λ _, True) → does (finish e s) (λ _, True)
}.

Section mapped.
Context (prev e : Exec W) (f : record → record) (st : ex_st e → ex_st prev) (Hm : maps prev e f st).

Lemma maps_ahead steady rows : ∀ s, is_ahead prev steady rows (st s) → is_ahead e steady (f <$> rows) s.
Proof.
  induction rows as [|r rows IH]; intros s; simpl; [by rewrite (mp_end _ _ _ _ Hm)|]. intros [He Hn]. split; [by rewrite (mp_end _ _ _ _ Hm)|].
  eapply does_mono; [apply (mp_Next _ _ _ _ Hm s r (λ p, (steady = true → is_end prev p = false) ∧ does (nextTuple prev p) (is_ahead prev steady rows))); [done|exact Hn]|].
  intros x (Hx & Hs & Hk). split_and!; [done|by rewrite (mp_end _ _ _ _ Hm)|].
  eapply does_mono; [apply (mp_next _ _ _ _ Hm), Hk|]. intros s'. apply IH.
Qed.

Lemma maps_batches k : ∀ rows s, in_batches prev k rows (st s) → in_batches e k (f <$> rows) s.
Proof.
  induction k as [|k IH]; [done|]. intros rows s [He Hb]. split; [rewrite (mp_end _ _ _ _ Hm), He; by destruct rows|].
  intros n. eapply does_mono; [apply (mp_batch _ _ _ _ Hm n s (take n rows) (in_batches prev k (drop n rows))), Hb|].
  intros x [Hx Hk]. rewrite <-fmap_take, <-fmap_drop. split; [done|by apply IH].
Qed.

Lemma maps_delivers steady rows s : delivers prev steady rows (st s) → delivers e steady (f <$> rows) s.
Proof. intros [Ha Hb]. split; [by apply maps_ahead|]. intros k. apply maps_batches, Hb. Qed.

Lemma maps_implements steady rows : implements prev steady rows → implements e steady (f <$> rows).
Proof.
  intros Hi. split.
  - intros s. eapply does_mono; [apply (mp_begin _ _ _ _ Hm), (im_begin _ _ _ Hi)|]. intros s'. apply maps_delivers.
  - intros s. apply (mp_finish _ _ _ _ Hm), (im_finish _ _ _ Hi).
Qed.

Lemma maps_implements_for lcols dom (rows : record → list record) : implements_for prev lcols dom rows → implements_for e lcols dom (λ l, f <$> rows l).
Proof.
  intros [Hb Hf]. split.
  - intros l s Hl. eapply does_mono; [apply (mp_bind _ _ _ _ Hm l lcols s (λ p, does (beginTuple prev p) (delivers prev false (rows l)))); by apply Hb|].
    intros x Hx. simpl in Hx. eapply does_mono; [apply (mp_begin _ _ _ _ Hm), Hx|]. intros s'. apply maps_delivers.
  - intros s. apply (mp_finish _ _ _ _ Hm), Hf.
Qed.
End mapped.

(** A computation followed by a change of its result. *)
Lemma does_map {A B} (m : M W A) (g : A → B) (P : A → Prop) (Q : B → Prop) : does m P → (∀ a, P a → Q (g a)) → does (x ← m; mret (g x)) Q.
Proof. intros Hm Hq. eapply does_seq; [exact Hm|]. intros a Ha. by apply does_ret, Hq. Qed.

Lemma rename_maps prev new_cols : maps prev (RenameExecutor prev new_cols) id fst.
Proof.
  split; try done.
  - intros s r P _ Hn. eapply does_map; [exact Hn|]. intros [o p] [Ho Hp]; simpl in Ho; by subst o.
  - intros s P Hn. eapply does_map; [exact Hn|]. done.
  - intros s P Hn. eapply does_map; [exact Hn|]. done.
  - intros n s l P Hn. eapply does_map; [exact Hn|]. intros [o p] [Ho Hp]; simpl in Ho; subst o. by rewrite list_fmap_id.
  - intros l lc s P Hn. eapply does_seq; [exact Hn|]. intros [b p] Hp. by apply does_ret.
  - intros s Hn. eapply does_map; [exact Hn|]. done.
Qed.

Lemma projection_maps prev sel : maps prev (projection_with prev sel) (project sel (sel_len sel)) fst.
Proof.
  split; try done.
  - intros s r P He Hn. simpl. unfold projection_Next. rewrite He. eapply does_seq; [exact Hn|]. intros [o p] [Ho Hp]. simpl in Ho. subst o. by apply does_ret.
  - intros s P Hn. eapply does_map; [exact Hn|]. done.
  - intros s P Hn. eapply does_map; [exact Hn|]. done.
  - intros n s l P Hn. eapply does_seq; [exact Hn|]. intros [o p] [Ho Hp]. simpl in Ho. subst o. by apply does_ret.
  - intros l lc s P Hn. eapply does_seq; [exact Hn|]. intros [b p] Hp. by apply does_ret.
  - intros s Hn. eapply does_map; [exact Hn|]. done.
Qed.

(** ** Limit *)

Section limit.
Context (prev : Exec W) (n : Z).
Abbreviation lim := (LimitExecutor prev n).

(** The records that the limit leaves. *)
Definition remaining (s : LimitState prev) : nat := Z.to_nat (n - emitted_ prev s).

Lemma limit_ahead steady rows : ∀ s, is_ahead prev steady rows (li_prev prev s) → 0 ≤ emitted_ prev s →
  is_ahead lim false (take (remaining s) rows) s.
Proof.
  induction rows as [|r rows IH]; intros s Ha He; unfold remaining.
  - rewrite take_nil. simpl. unfold limit_is_end. by rewrite (ahead_end _ _ _ _ _ _ Ha), orb_true_r.
  - destruct (Z.to_nat (n - emitted_ prev s)) as [|k] eqn:Ek.
    + simpl. unfold limit_is_end. rewrite bool_decide_eq_true_2 by lia. done.
    + destruct Ha as [Hend Hn]. cbn [take ahead]. assert (limit_is_end prev n s = false) as Hl.
      { unfold limit_is_end. rewrite bool_decide_eq_false_2 by lia. done. }
      split; [done|]. cbn [Next lim LimitExecutor]. rewrite Hl. eapply does_seq; [exact Hn|]. intros [o p] (Ho & _ & Hk). cbn [fst snd] in *. subst o.
      apply does_ret. split_and!; [done..|]. cbn [nextTuple LimitExecutor fst snd emitted_ li_prev]. case_decide as Hd.
      * eapply does_map; [exact Hk|]. intros p' Ha'. replace k with (remaining (mk_LimitState prev p' (emitted_ prev s + 1) (S (li_rows prev s)))); [|unfold remaining; simpl; lia].
        apply IH; [done|simpl; lia].
      * assert (k = 0%nat) as -> by lia. apply does_ret. simpl. unfold limit_is_end. simpl. by rewrite bool_decide_eq_true_2 by lia.
Qed.

Lemma limit_batches k : ∀ rows s, (∀ j, in_batches prev j rows (li_prev prev s)) → 0 ≤ emitted_ prev s →
  in_batches lim k (take (remaining s) rows) s.
Proof.
  induction k as [|k IH]; [done|]. intros rows s Hb He. pose proof (Hb 1%nat) as [Hend _]. split.
  - simpl. unfold limit_is_end, remaining. rewrite Hend. destruct (Z.to_nat (n - emitted_ prev s)) as [|j] eqn:Ej.
    + rewrite bool_decide_eq_true_2 by lia. done.
    + rewrite (bool_decide_eq_false_2 (n ≤ _)) by lia. by destruct rows.
  - intros m. cbn [NextBatch lim LimitExecutor]. unfold limit_is_end. rewrite Hend. destruct (decide (n ≤ emitted_ prev s)) as [Hd|Hd].
    + rewrite bool_decide_eq_true_2 by done. simpl. apply does_ret. pose proof (IH rows s Hb He) as Hk. unfold remaining in *.
      replace (Z.to_nat (n - emitted_ prev s)) with 0%nat in * by lia. rewrite take_0 in *. by rewrite take_nil, drop_nil.
    + rewrite bool_decide_eq_false_2 by done. simpl. destruct (decide (rows = [])) as [->|Hr].
      * rewrite bool_decide_eq_true_2 by done. apply does_ret. pose proof (IH [] s Hb He) as Hk. rewrite take_nil in Hk. by rewrite !take_nil, drop_nil.
      * rewrite bool_decide_eq_false_2 by done. fold (remaining s). eapply does_seq.
        { apply (does_all _ (λ j x, x.1 = take (m `min` remaining s) rows ∧ in_batches prev j (drop (m `min` remaining s) rows) x.2)). intros j. apply (Hb (S j)). }
        intros [l p] Hx. simpl in Hx. pose proof (Hx 0%nat) as [-> _]. apply does_ret. split; [simpl; by rewrite take_take|]. cbn [fst snd].
        set (s' := mk_LimitState prev p _ _). pose proof (IH (drop (m `min` remaining s) rows) s' ltac:(intros j; apply Hx) ltac:(simpl; lia)) as Hk.
        assert (take (remaining s') (drop (m `min` remaining s) rows) = drop m (take (remaining s) rows)) as <-; [|done].
        unfold s', remaining at 1. simpl. rewrite length_take. unfold remaining. set (rem := Z.to_nat (n - emitted_ prev s)).
        rewrite skipn_firstn_comm. destruct (decide (length rows ≤ m `min` rem)%nat).
        -- rewrite (drop_ge rows (m `min` rem)) by lia. rewrite take_nil. symmetry. destruct (decide (m ≤ rem)%nat).
           ++ rewrite drop_ge by lia. apply take_nil.
           ++ replace (rem - m)%nat with 0%nat by lia. done.
        -- destruct (decide (m ≤ rem)%nat).
           ++ rewrite (Nat.min_l m rem) by lia. f_equal. lia.
           ++ rewrite (Nat.min_r m rem) by lia. replace (rem - m)%nat with 0%nat by lia. replace (Z.to_nat _) with 0%nat by lia. done.
Qed.

Lemma limit_implements steady rows : implements prev steady rows → implements lim false (take (Z.to_nat n) rows).
Proof.
  intros Hi. split.
  - intros s. eapply does_map; [apply (im_begin _ _ _ Hi)|]. intros p [Ha Hb]. replace (Z.to_nat n) with (remaining (mk_LimitState prev p 0 (li_rows prev s))) by (unfold remaining; simpl; lia).
    split; [by eapply limit_ahead|]. intros k. by apply limit_batches.
  - intros s. eapply does_map; [apply (im_finish _ _ _ Hi)|]. done.
Qed.
End limit.

(** ** Buffered operators *)

Section buffered.
Context (fuel : nat) (St : Type) (init : St) (out_cols : list ColMeta) (len : Z).
Context (fill : St → M W (list record * St)) (finish_ : St → M W St).
Abbreviation buf := (buffered fuel St init out_cols len fill finish_).

Lemma buffered_ahead rows : ∀ s, drop (bu_pos St s) (bu_tuples St s) = rows → is_ahead buf true rows s.
Proof.
  induction rows as [|r rows IH]; intros s Hd; simpl; unfold buf_is_end.
  - apply bool_decide_eq_true_2. apply (f_equal length) in Hd. rewrite length_drop in Hd. simpl in Hd. lia.
  - assert (bu_tuples St s !! bu_pos St s = Some r) as Hr by (rewrite <-(Nat.add_0_r (bu_pos St s)), <-lookup_drop, Hd; done).
    pose proof (lookup_lt_Some _ _ _ Hr) as Hlt. unfold buf_Next, buf_is_end. rewrite bool_decide_eq_false_2 by lia.
    split; [done|]. apply does_ret. cbn [fst snd bu_tuples bu_pos]. split_and!; [done|intros _; by rewrite bool_decide_eq_false_2 by lia|].
    unfold buf_next. cbn [bu_pos bu_tuples]. rewrite decide_True by done. apply does_ret. apply IH. cbn [bu_pos bu_tuples].
    rewrite (drop_S _ _ _ Hr) in Hd. by injection Hd.
Qed.

Lemma buffered_implements rows : (∀ st, does (fill st) (λ x, x.1 = rows)) → (∀ st, does (finish_ st) (λ _, True)) → (length rows < fuel)%nat →
  implements buf true rows.
Proof.
  intros Hfill Hfin Hf. split.
  - intros s. eapply does_seq; [apply Hfill|]. intros [l st] Hl. simpl in Hl. subst l. apply does_ret.
    assert (is_ahead buf true rows (mk_BufState St st rows 0 (bu_rows St s))) as Ha by by apply buffered_ahead.
    split; [exact Ha|]. intros k. by eapply default_batches.
  - intros s. eapply does_map; [apply Hfin|]. done.
Qed.
End buffered.

Lemma buffered_unbound fuel St init out_cols len fill finish_ : unbound (buffered fuel St init out_cols len fill finish_).
Proof. intros l lc s. by apply does_ret. Qed.

(** ** Sort *)

Definition order_found (cs : list ColMeta) (order_bys : list OrderByTerm) (order : list (ColMeta * bool)) : Prop :=
  Forall2 (λ o x, find_col cs (ob_col o) = Some x.1 ∧ is_desc o = x.2) order_bys order.

Lemma order_cols_ok cs order_bys order : order_found cs order_bys order → does (order_cols cs order_bys) (λ l, l = order).
Proof.
  induction 1 as [|o [m d] order_bys order [Hf Hd] Ho IH]; cbn [order_cols]; [by apply does_ret|].
  simpl in *. unfold get_col. rewrite Hf, Hd. apply does_bind, does_ret. eapply does_map; [exact IH|]. by intros ? ->.
Qed.

Lemma sort_implements fuel prev order_bys order steady rows : implements prev steady rows → (length rows < fuel)%nat →
  order_found (cols prev) order_bys order → length (stable_sort (order_less order) rows) = length rows →
  implements (SortExecutor fuel prev order_bys) true (stable_sort (order_less order) rows).
Proof.
  intros Hi Hf Ho Hlen. apply buffered_implements; [|apply (im_finish _ _ _ Hi)|by rewrite Hlen].
  intros s. unfold sort_fill. eapply does_seq; [apply (im_begin _ _ _ Hi)|]. intros p [Ha _]. eapply does_seq; [by eapply drain_ok|].
  intros [l p'] Hl. simpl in Hl. subst l. eapply does_map; [by apply order_cols_ok|]. by intros ? ->.
Qed.

(** ** Union *)

Lemma dedup_app seen l1 l2 : dedup seen (l1 ++ l2) =
  let '(d1, s1) := dedup seen l1 in let '(d2, s2) := dedup s1 l2 in (d1 ++ d2, s2).
Proof.
  revert seen. induction l1 as [|r l1 IH]; intros seen; simpl; [by destruct (dedup seen l2)|].
  case_decide; [by apply IH|]. rewrite IH. destruct (dedup ({[r]} ∪ seen) l1) as [d1 s1]. by destruct (dedup s1 l2).
Qed.

(** What a union sees of its children. *)
Definition union_rows (out_cols : list ColMeta) (children : list (Exec W)) (rows : list (list record)) : list record :=
  concat (zip_with (λ c l, union_record out_cols (cols c) (union_len out_cols) <$> l) children rows).

Definition child_ok (fuel : nat) (out_cols : list ColMeta) (c : Exec W) (rows : list record) : Prop :=
  (∃ steady, implements c steady rows) ∧ (length rows < fuel)%nat ∧ (length out_cols ≤ length (cols c))%nat.

Lemma union_fill_ok fuel out_cols children rows : Forall2 (child_ok fuel out_cols) children rows →
  ∀ seen s, does (union_fill fuel out_cols children seen s) (λ x, x.1 = (dedup seen (union_rows out_cols children rows)).1).
Proof.
  induction 1 as [|c l children rows ([st Hi] & Hf & Hc) Hall IH]; intros seen s; cbn [union_fill]; [by apply does_ret|].
  eapply does_seq; [apply (im_begin _ _ _ Hi)|]. intros p [Ha _]. eapply does_seq; [by eapply drain_ok|]. intros [l' p'] Hl. simpl in Hl. subst l'.
  rewrite decide_True by by right. apply does_bind, does_ret. unfold union_rows. cbn [zip_with concat]. rewrite dedup_app.
  destruct (dedup seen _) as [d1 s1] eqn:E1. eapply does_seq; [apply IH|]. intros [rest ps] Hr. simpl in Hr. apply does_ret. simpl.
  fold (union_rows out_cols children rows). destruct (dedup s1 _) as [d2 s2]. simpl in *. by subst.
Qed.

Lemma union_finish_ok fuel out_cols children rows : Forall2 (child_ok fuel out_cols) children rows → ∀ s, does (union_finish children s) (λ _, True).
Proof.
  induction 1 as [|c l children rows ([st Hi] & Hf & Hc) Hall IH]; intros s; cbn [union_finish]; [by apply does_ret|].
  eapply does_seq; [apply (im_finish _ _ _ Hi)|]. intros p _. eapply does_map; [apply IH|]. done.
Qed.

Lemma length_dedup seen l : (length (dedup seen l).1 ≤ length l)%nat.
Proof.
  revert seen. induction l as [|r l IH]; intros seen; simpl; [lia|]. case_decide; [pose proof (IH seen); lia|].
  pose proof (IH ({[r]} ∪ seen)). destruct (dedup ({[r]} ∪ seen) l). simpl in *. lia.
Qed.

Lemma union_implements fuel out_cols children rows : Forall2 (child_ok fuel out_cols) children rows →
  (length (union_rows out_cols children rows) < fuel)%nat →
  implements (UnionExecutor fuel children out_cols) true (dedup ∅ (union_rows out_cols children rows)).1.
Proof.
  intros Hall Hf. apply buffered_implements; [by apply union_fill_ok|by eapply union_finish_ok|].
  pose proof (length_dedup ∅ (union_rows out_cols children rows)). lia.
Qed.

(** ** Nested-loop join *)

Section join.
Context (fuel : nat) (left right : Exec W) (conds : list Condition).
Context (R : record → list record) (dom : record → Prop).
Context (Hright : implements_for right (cols left) dom R) (HR : ∀ l, dom l → (length (R l) < fuel)%nat).
Abbreviation join := (NestedLoopJoinExecutor fuel left right conds).
Abbreviation meets l := (λ r, eval_conds (joined left right l r) (join_cols left right) conds = true).

Definition join_with (l : record) (rows : list record) : list record := joined left right l <$> filter (meets l) rows.
Definition join_rows (L : list record) : list record := L ≫= λ l, join_with l (R l).

Lemma match_right_ok l rows : ∀ f s, is_ahead right false rows s → (length rows < f)%nat →
  does (match_right left right conds f l s) (λ x, match filter (meets l) rows with
    | [] => x.1 = None
    | r :: rest => x.1 = Some r ∧ ∃ rows', rest = filter (meets l) rows' ∧ (length rows' < length rows)%nat ∧
        does (nextTuple right x.2) (is_ahead right false rows')
    end).
Proof.
  induction rows as [|r rows IH]; intros [|f] s Ha Hf; simpl in Hf; try lia; cbn [match_right].
  - rewrite (ahead_end _ _ _ _ _ _ Ha). by apply does_ret.
  - destruct Ha as [-> Hn]. eapply does_seq; [exact Hn|]. intros [o s1] (Eo & _ & Hk). cbn [fst snd] in *. subst o. rewrite filter_cons.
    assert (does (nextTuple right s1) (is_ahead right false rows)) as Hk' by exact Hk. destruct (eval_conds _ _ _) eqn:Ev.
    + rewrite decide_True by done. apply does_ret. split; [done|]. exists rows. by split_and!; [|simpl; lia|].
    + rewrite decide_False by done. eapply does_seq; [exact Hk'|]. intros s2 Ha2. eapply does_mono; [apply IH; [done|lia]|].
      intros x Hx. case_match; [done|]. destruct Hx as (? & rows' & ? & ? & ?). split; [done|]. exists rows'. split_and!; [done|simpl; lia|done].
Qed.

Lemma restart_right_ok l s : dom l → does (restart_right left right l s) (is_ahead right false (R l)).
Proof.
  intros Hl. eapply does_seq; [by apply (if_begin _ _ _ _ Hright)|]. intros [b s1] Hb. eapply does_mono; [exact Hb|]. by intros s2 [Ha _].
Qed.

(** The records that a join takes from its left child: those after which the child is not at
    its end.  The child may have one more, whose [Next] ends it. *)
Fixpoint feeds (L : list record) (s : ex_st left) : Prop :=
  match L with
  | [] => is_end left s = true ∨
      (is_end left s = false ∧ does (Next left s) (λ x, (∃ l, x.1 = Some l ∧ dom l) ∧ is_end left x.2 = true))
  | l :: L => is_end left s = false ∧ does (Next left s) (λ x, x.1 = Some l ∧ is_end left x.2 = false ∧ does (nextTuple left x.2) (feeds L))
  end.

Lemma ahead_feeds L : ∀ s, is_ahead left true L s → feeds L s.
Proof.
  induction L as [|l L IH]; [by left|]. intros s [He Hn]. split; [done|]. eapply does_mono; [exact Hn|]. intros x (Hx & Hs & Hk).
  split_and!; [done|by apply Hs|]. by eapply does_mono.
Qed.

(** The left child has no more records for the join. *)
Lemma join_end_ok s : feeds [] s → ∀ f n sr lrec,
  does (if is_end left s then advance_to_next_match fuel left right conds (S f) n lrec s sr
        else '(lrec, sl) ← Next left s; l ← deref lrec; sr ← restart_right left right l sr;
          advance_to_next_match fuel left right conds (S f) n lrec sl sr) (is_ahead join true []).
Proof.
  intros [He|[He Hn]] f n sr lrec; rewrite He.
  - cbn [advance_to_next_match]. rewrite He. by apply does_ret.
  - eapply does_seq; [exact Hn|]. intros [o sl] [(l & Eo & Hl) Hend]. cbn [fst snd] in *. subst o. apply does_bind. eapply does_deref; [done|].
    eapply does_seq; [by apply restart_right_ok|]. intros sr1 _. cbn [advance_to_next_match]. rewrite Hend. by apply does_ret.
Qed.

(** The left child stands on [l], with [L] behind it; the right one has [rows] ahead. *)
Lemma join_advance_ok L : ∀ k rows f n sl sr l, (length rows ≤ k)%nat → (length rows < fuel)%nat → (S (length L) < f)%nat → (S (length L) < fuel)%nat →
  is_end left sl = false → does (nextTuple left sl) (feeds L) → is_ahead right false rows sr → Forall dom L →
  does (advance_to_next_match fuel left right conds f n (Some l) sl sr) (is_ahead join true (join_with l rows ++ join_rows L)).
Proof.
  induction L as [|l' L IHL]; intros k; induction k as [k IHk] using lt_wf_ind;
    intros rows [|f] n sl sr l Hk Hrf Hf Hfu Hend Hnext Hr Hdom; cbn [length] in Hf; try lia; cbn [advance_to_next_match];
    rewrite Hend; (apply does_bind; eapply does_deref; [done|]); (eapply does_seq; [by apply (match_right_ok l rows)|]); intros [found sr1] Hm;
    unfold join_with; cbn [fst snd] in Hm; destruct (filter (meets l) rows) as [|r rest] eqn:Efilter; cbn [fmap list_fmap app].
  2, 4: destruct Hm as [Hfound (rows' & -> & Hlt & Hstep)]; subst found; apply does_ret; split; [done|]; apply does_ret; split_and!; [done..|];
    cbn [fst snd nextTuple join NestedLoopJoinExecutor]; unfold join_next; cbn [isend jo_right jo_left left_rec_ jo_rows];
    (eapply does_seq; [exact Hstep|]); intros sr2 Hr2; apply (IHk (length rows')); try done; lia.
  - subst found. eapply does_seq; [exact Hnext|]. intros sl1 Hl1. destruct f as [|f]; [lia|]. by apply join_end_ok.
  - subst found. eapply does_seq; [exact Hnext|]. intros sl1 [He1 Hn1]. rewrite He1. eapply does_seq; [exact Hn1|]. intros [o sl2] (Eo & Hst & Hk2).
    cbn [fst snd] in *. subst o. apply Forall_cons in Hdom as [Hd Hdom]. apply does_bind. eapply does_deref; [done|].
    eapply does_seq; [by apply restart_right_ok|]. intros sr2 Hr2. unfold join_rows. cbn [mbind list_bind]. fold (join_rows L).
    eapply (IHL (length (R l'))); try done; [by apply HR|simpl in *; lia|simpl in *; lia].
Qed.

Lemma join_ahead L s : feeds L s → Forall dom L → (S (length L) < fuel)%nat → ∀ n sr lrec,
  does (if is_end left s then mret (mk_JoinState left right s sr lrec None true n)
        else '(lrec, sl) ← Next left s; l ← deref lrec; sr ← restart_right left right l sr;
          advance_to_next_match fuel left right conds fuel n lrec sl sr) (is_ahead join true (join_rows L)).
Proof.
  intros Ha Hdom Hf n sr lrec. destruct L as [|l L].
  - destruct fuel as [|f] eqn:Ef; [lia|]. pose proof (join_end_ok s Ha f n sr lrec) as Hj. rewrite Ef in Hj. destruct (is_end left s) eqn:He; [by apply does_ret|done].
  - destruct Ha as [-> Hn]. eapply does_seq; [exact Hn|]. intros [o sl] (Eo & Hst & Hk). cbn [fst snd] in *. subst o.
    apply Forall_cons in Hdom as [Hd Hdom]. apply does_bind. eapply does_deref; [done|]. eapply does_seq; [by apply restart_right_ok|]. intros sr1 Hr1.
    unfold join_rows. cbn [mbind list_bind]. fold (join_rows L). eapply (join_advance_ok L (length (R l))); try done; [by apply HR|simpl in *; lia|simpl in *; lia].
Qed.

Lemma join_feeds_implements L : (∀ s, does (beginTuple left s) (feeds L)) → (∀ s, does (finish left s) (λ _, True)) → Forall dom L →
  (S (length L) < fuel)%nat → (length (join_rows L) < fuel)%nat → implements join true (join_rows L).
Proof.
  intros Hb Hfin Hdom Hf Hj. split.
  - intros s. eapply does_seq; [apply Hb|]. intros sl Ha. eapply does_mono; [by apply join_ahead|].
    intros s' Ha'. split; [done|]. intros k. by eapply default_batches.
  - intros s. eapply does_seq; [apply Hfin|]. intros sl _. eapply does_map; [apply (if_finish _ _ _ _ Hright)|]. done.
Qed.

Lemma join_implements L : implements left true L → Forall dom L → (S (length L) < fuel)%nat → (length (join_rows L) < fuel)%nat →
  implements join true (join_rows L).
Proof.
  intros Hi. apply join_feeds_implements; [|apply (im_finish _ _ _ Hi)]. intros s. eapply does_mono; [apply (im_begin _ _ _ Hi)|]. intros sl [Ha _]. by apply ahead_feeds.
Qed.
End join.

(** A limit that is reached keeps its last record from a join. *)
Lemma limit_feeds prev n dom rows : ∀ s, is_ahead prev true rows (li_prev prev s) → Forall dom rows → 0 ≤ emitted_ prev s < n →
  n - emitted_ prev s ≤ Z.of_nat (length rows) → feeds (LimitExecutor prev n) dom (take (Z.to_nat (n - emitted_ prev s - 1)) rows) s.
Proof.
  induction rows as [|r rows IH]; intros s Ha Hd He Hn; [simpl in Hn; lia|]. destruct Ha as [Hend Hnx]. apply Forall_cons in Hd as [Hr Hd].
  assert (limit_is_end prev n s = false) as Hl by (unfold limit_is_end; rewrite bool_decide_eq_false_2 by lia; done).
  destruct (Z.to_nat (n - emitted_ prev s - 1)) as [|k] eqn:Ek; cbn [take feeds]; [right|]; (split; [done|]); cbn [Next LimitExecutor]; rewrite Hl;
    (eapply does_seq; [exact Hnx|]); intros [o p] (Ho & Hst & Hk); cbn [fst snd] in *; subst o; apply does_ret.
  - split; [by exists r|]. cbn [snd is_end LimitExecutor]. unfold limit_is_end. cbn [emitted_]. by rewrite bool_decide_eq_true_2 by lia.
  - split_and!; [done|..]; cbn [snd is_end nextTuple LimitExecutor emitted_ li_prev].
    + unfold limit_is_end. cbn [emitted_ li_prev]. rewrite bool_decide_eq_false_2 by lia. by apply Hst.
    + rewrite decide_True by lia. eapply does_map; [exact Hk|]. intros p' Ha'.
      set (s' := mk_LimitState prev p' _ _). replace k with (Z.to_nat (n - emitted_ prev s' - 1)) by (unfold s'; simpl; lia).
      apply IH; [done|done|unfold s'; simpl; lia|unfold s'; simpl in *; lia].
Qed.

(** ** Running a query *)

Lemma select_loop_ok e : ∀ fuel rows s, (∀ k, in_batches e k rows s) → (length rows < fuel)%nat → does (select_loop e fuel s) (λ x, x.1 = rows).
Proof.
  induction fuel as [|fuel IH]; intros rows s Hb Hf; [lia|]. cbn [select_loop]. pose proof (Hb 1%nat) as [-> _]. destruct rows as [|r rows].
  - by apply does_ret.
  - rewrite bool_decide_eq_false_2 by done. eapply does_seq.
    { apply (does_all _ (λ j x, x.1 = take SELECT_BATCH_SIZE (r :: rows) ∧ in_batches e j (drop SELECT_BATCH_SIZE (r :: rows)) x.2)). intros j. apply (Hb (S j)). }
    intros [l s1] Hx. pose proof (Hx 0%nat) as [Hl _]. simpl fst in Hl. subst l. rewrite decide_False by done. eapply does_seq.
    + apply (IH (drop SELECT_BATCH_SIZE (r :: rows))); [intros j; apply Hx|]. rewrite length_drop. unfold SELECT_BATCH_SIZE. simpl in *. lia.
    + intros [l s2] Hl. simpl fst in Hl. subst l. apply does_ret, take_drop.
Qed.

Lemma select_from_ok fuel e steady rows : implements e steady rows → (length rows < fuel)%nat → does (select_from fuel e) (λ l, l = rows).
Proof.
  intros Hi Hf. eapply does_seq; [apply (im_begin _ _ _ Hi)|]. intros s [_ Hb]. eapply does_seq; [by apply select_loop_ok|].
  intros [l s1] Hl. simpl in Hl. subst l. eapply does_seq; [apply (im_finish _ _ _ Hi)|]. intros s2 _. by apply does_ret.
Qed.

Lemma run_explain_ok fuel e steady rows : implements e steady rows → (length rows < fuel)%nat → does (run_explain fuel e) (λ _, True).
Proof.
  intros Hi Hf. eapply does_seq; [apply (im_begin _ _ _ Hi)|]. intros s [Ha _]. eapply does_seq; [by eapply drain_ok|].
  intros [l s1] _. apply (im_finish _ _ _ Hi).
Qed.
End facts.
End ExecFacts.
