(* ===== verification/ExecutorSort.v ===== *)
(** * Order of records, sorting and duplicates

    The comparison of [SortExecutor] is a total preorder on records without NaNs.  For such a
    comparison [stable_sort] is the sorted permutation that keeps the order of equal records,
    and the only one: what [std::stable_sort] promises.  [dedup] keeps the first of equal
    records, as [UnionExecutor] does. *)

From Stdlib Require Import SpecFloat Sorted.
From S2P Require Import Prelude Conditions Executor.

Module ExecSort.
Import Cond Exec.

(** ** Comparisons *)

Record lawful {A} (c : A → A → comparison) (P : A → Prop) : Prop := {
  la_opp x y : P x → P y → c y x = CompOpp (c x y);
  la_trans x y z : P x → P y → P z → c x y ≠ Gt → c y z ≠ Gt → c x z ≠ Gt
}.

Lemma lawful_refl {A} (c : A → A → comparison) P x : lawful c P → P x → c x x = Eq.
Proof. intros Hl Hx. pose proof (la_opp _ _ Hl x x Hx Hx) as E. by destruct (c x x). Qed.

Lemma lawful_rank {A} (f : A → Z) P : lawful (λ x y, f x ?= f y) P.
Proof.
  split; [intros x y _ _; apply Z.compare_antisym|]. intros x y z _ _ _.
  change (f x ≤ f y → f y ≤ f z → f x ≤ f z). lia.
Qed.

Lemma lawful_map {A B} (f : A → B) (c : B → B → comparison) (P : A → Prop) (Q : B → Prop) :
  lawful c Q → (∀ x, P x → Q (f x)) → lawful (λ x y, c (f x) (f y)) P.
Proof. intros [Ho Ht] Hf. split; [intros x y ? ?; apply Ho; auto|]. intros x y z ? ? ?. apply Ht; auto. Qed.

Lemma lawful_ext {A} (c c' : A → A → comparison) P : lawful c P → (∀ x y, P x → P y → c' x y = c x y) → lawful c' P.
Proof.
  intros [Ho Ht] He. split; [intros x y Hx Hy; rewrite !He by done; by apply Ho|].
  intros x y z Hx Hy Hz. rewrite !He by done. by apply Ht.
Qed.

Lemma lawful_flip {A} (c : A → A → comparison) P : lawful c P → lawful (λ x y, CompOpp (c x y)) P.
Proof.
  intros [Ho Ht]. split; [intros x y Hx Hy; f_equal; by apply Ho|]. intros x y z Hx Hy Hz. rewrite <-!Ho by done. intros H1 H2. by apply (Ht z y x).
Qed.

(** The second comparison decides where the first one does not. *)
Lemma lawful_lex {A} (c d : A → A → comparison) P : lawful c P → lawful d P → lawful (λ x y, match c x y with Eq => d x y | r => r end) P.
Proof.
  intros Hc Hd. split.
  - intros x y Hx Hy. rewrite (la_opp _ _ Hc x y) by done. destruct (c x y) eqn:E; [by apply Hd|done..].
  - intros x y z Hx Hy Hz. pose proof (la_trans _ _ Hc x y z Hx Hy Hz) as T1. pose proof (la_trans _ _ Hc z y x Hz Hy Hx) as T2.
    pose proof (la_trans _ _ Hc z x y Hz Hx Hy) as T3. pose proof (la_trans _ _ Hc y z x Hy Hz Hx) as T4. pose proof (la_trans _ _ Hd x y z Hx Hy Hz) as D.
    rewrite (la_opp _ _ Hc x y), (la_opp _ _ Hc y z), (la_opp _ _ Hc x z) in * by done.
    destruct (c x y) eqn:E1, (c y z) eqn:E2, (c x z) eqn:E3; simpl in *; intros; try done; try (by apply D); try (by exfalso; by apply T1);
      try (by exfalso; by apply T2); try (by exfalso; by apply T3); by exfalso; by apply T4.
Qed.

Lemma byte_compare_lawful : lawful byte_compare (λ _, True).
Proof.
  split.
  - intros x. induction x as [|a x IH]; intros [|b y] _ _; try done. simpl. rewrite (Z.compare_antisym (byte.unsigned a)).
    destruct (byte.unsigned a ?= byte.unsigned b); simpl; [by apply IH|done..].
  - intros x. induction x as [|a x IH]; intros [|b y] [|c z] _ _ _; try done. simpl.
    destruct (Z.compare_spec (byte.unsigned a) (byte.unsigned b)), (Z.compare_spec (byte.unsigned b) (byte.unsigned c)),
      (Z.compare_spec (byte.unsigned a) (byte.unsigned c)); try done; try lia. by apply IH.
Qed.

(** *** The columns of a sort *)

(** The floats of a record in these columns are not NaNs. *)
Definition comparable (cs : list ColMeta) (r : record) : Prop :=
  Forall (λ c, cm_type c = TYPE_FLOAT → not_nan (dec_u32 (field r (cm_offset c) 4))) cs.

Lemma compare_col_lawful c P : (∀ r, P r → cm_type c = TYPE_FLOAT → not_nan (dec_u32 (field r (cm_offset c) 4))) →
  lawful (λ a b, compare_col a b c) P.
Proof.
  intros Hp. unfold compare_col. destruct (cm_type c).
  - apply lawful_rank.
  - eapply lawful_ext; [apply (lawful_rank (λ r, fbits_key (dec_u32 (field r (cm_offset c) 4))))|]. intros x y Hx Hy.
    specialize (Hp _ Hx eq_refl) as Nx. specialize (Hp _ Hy eq_refl) as Ny. unfold float_of.
    set (u := dec_u32 (field x (cm_offset c) 4)) in *. set (v := dec_u32 (field y (cm_offset c) 4)) in *.
    assert (0 ≤ u ∧ 0 ≤ v) as [Hu Hv] by (unfold u, v, dec_u32; pose proof (le_combine_bound (field x (cm_offset c) 4)); pose proof (le_combine_bound (field y (cm_offset c) 4)); lia).
    unfold SFltb. rewrite (float_compare_key u v Hu Hv Nx Ny), (float_compare_key v u Hv Hu Ny Nx), (Z.compare_antisym (fbits_key u)).
    by destruct (fbits_key u ?= fbits_key v).
  - by eapply (lawful_map (λ r, c_str (field r (cm_offset c) (cm_len c)))); [apply byte_compare_lawful|].
Qed.

Lemma order_compare_lawful order : lawful (λ a b, order_compare a b order) (comparable (fst <$> order)).
Proof.
  induction order as [|[c d] order IH]; [by split|]. cbn [order_compare fmap list_fmap fst].
  assert (∀ (f : record → record → comparison), lawful f (comparable (fst <$> order)) → lawful f (comparable (c :: (fst <$> order)))) as Hw.
  { intros f Hf. apply (lawful_map id f _ _ Hf). intros x Hx. by apply Forall_cons in Hx as [_ ?]. }
  assert (lawful (λ a b, if d then CompOpp (compare_col a b c) else compare_col a b c) (comparable (c :: (fst <$> order)))) as Hc.
  { assert (lawful (λ a b, compare_col a b c) (comparable (c :: (fst <$> order)))) as Hl.
    { apply compare_col_lawful. intros r Hr. by apply Forall_cons in Hr as [? _]. }
    destruct d; [by apply lawful_flip|done]. }
  eapply lawful_ext; [exact (lawful_lex _ _ _ Hc (Hw _ IH))|]. intros x y _ _. simpl. destruct (compare_col x y c), d; done.
Qed.

(** ** Stable sorting *)

Section sorting.
Context (c : record → record → comparison) (P : record → Prop) (Hc : lawful c P).
Abbreviation less := (λ a b, bool_decide (c a b = Lt)).
Abbreviation le_ := (λ a b, c a b ≠ Gt).
Abbreviation same x := (λ y, c x y = Eq).

Record stably_sorted (l l' : list record) : Prop := {
  ss_perm : l' ≡ₚ l;
  ss_sorted : StronglySorted le_ l';
  ss_stable x : P x → filter (same x) l' = filter (same x) l
}.

Lemma sort_insert_perm x l : stable_insert less x l ≡ₚ x :: l.
Proof. induction l as [|y l IH]; simpl; [done|]. case_match; [|done]. rewrite IH. apply Permutation_swap. Qed.

Lemma sort_perm l : stable_sort less l ≡ₚ l.
Proof. induction l as [|x l IH]; simpl; [done|]. by rewrite sort_insert_perm, IH. Qed.

Lemma sort_insert_sorted x l : P x → Forall P l → StronglySorted le_ l → StronglySorted le_ (stable_insert less x l).
Proof.
  intros Hx Hl Hs. induction Hs as [|y l Hs IH Hy]; simpl; [by repeat constructor|]. apply Forall_cons in Hl as [Py Hl]. case_bool_decide as E.
  - constructor; [by apply IH|]. rewrite sort_insert_perm. constructor; [congruence|done].
  - assert (c x y ≠ Gt) as Hxy by (rewrite (la_opp _ _ Hc y x) by done; by destruct (c y x)).
    constructor; [by constructor|]. constructor; [done|]. rewrite Forall_forall in *. intros z Hz. eapply (la_trans _ _ Hc x y z); auto.
Qed.

Lemma sort_insert_stable x z l : P z → P x → Forall P l → StronglySorted le_ l → filter (same z) (stable_insert less x l) = filter (same z) (x :: l).
Proof.
  intros Pz Px Hl Hs. induction Hs as [|y l Hs IH Hy]; [done|]. cbn [stable_insert]. apply Forall_cons in Hl as [Py Hl]. case_bool_decide as E; [|done].
  rewrite filter_cons, IH, !filter_cons by done. destruct (decide (c z x = Eq)) as [Ex|]; [|done].
  assert (c z y ≠ Eq) as Hne; [|by repeat case_decide]. intros Ey. apply (la_trans _ _ Hc x z y Px Pz Py).
  - by rewrite (la_opp _ _ Hc z x), Ex by done.
  - by rewrite Ey.
  - by rewrite (la_opp _ _ Hc y x), E by done.
Qed.

Lemma stable_sort_ok l : Forall P l → stably_sorted l (stable_sort less l).
Proof.
  induction l as [|x l IH]; intros Hl; [by split; [|constructor|]|]. apply Forall_cons in Hl as [Hx Hl]. destruct (IH Hl) as [Hp Hs Hf].
  assert (Forall P (stable_sort less l)) as Hl' by by rewrite Hp. split.
  - apply sort_perm.
  - by apply sort_insert_sorted.
  - intros z Hz. cbn [stable_sort foldr]. fold (stable_sort less l). rewrite sort_insert_stable by done. by rewrite !filter_cons, Hf.
Qed.

(** The result is determined. *)
Lemma stably_sorted_unique l l1 : ∀ l2, Forall P l → stably_sorted l l1 → stably_sorted l l2 → l1 = l2.
Proof.
  revert l. induction l1 as [|x l1 IH]; intros l l2 Hl [P1 S1 F1] [P2 S2 F2].
  - rewrite <-P1 in P2. symmetry in P2. by apply Permutation_nil in P2 as ->.
  - destruct l2 as [|y l2]; [rewrite <-P2 in P1; symmetry in P1; by apply Permutation_nil in P1|].
    inversion_clear S1 as [|? ? S1' M1]. inversion_clear S2 as [|? ? S2' M2].
    assert (Forall P (x :: l1)) as [Px Pl1]%Forall_cons by by rewrite P1. assert (Forall P (y :: l2)) as [Py Pl2]%Forall_cons by by rewrite P2.
    assert (c x y = Eq) as Exy.
    { assert (x ∈ y :: l2) as Hx by (rewrite P2, <-P1; left). assert (y ∈ x :: l1) as Hy by (rewrite P1, <-P2; left).
      rewrite Forall_forall in M1, M2. apply elem_of_cons in Hx as [->|Hx]; [by eapply lawful_refl|]. apply elem_of_cons in Hy as [->|Hy]; [by eapply lawful_refl|].
      pose proof (M1 y Hy) as H1. pose proof (M2 x Hx) as H2. rewrite (la_opp _ _ Hc x y) in H2 by done. by destruct (c x y). }
    assert (filter (same x) (x :: l1) = filter (same x) (y :: l2)) as Ef by by rewrite F1, F2.
    rewrite !filter_cons, decide_True, decide_True in Ef by (done || by eapply lawful_refl). injection Ef as -> Ef. f_equal.
    apply (IH l1); [done|by split|]. split; [|done|].
    + apply (Permutation_cons_inv (a:=y)). by rewrite P1, P2.
    + intros z Hz. assert (filter (same z) (y :: l2) = filter (same z) (y :: l1)) as E by by rewrite F1, F2.
      rewrite !filter_cons in E. by case_decide; [injection E|].
Qed.
End sorting.

Lemma length_stable_sort c l : length (stable_sort (λ a b, bool_decide (c a b = Lt)) l) = length l.
Proof. apply Permutation_length, sort_perm. Qed.

(** ** Duplicates *)

Lemma dedup_spec l : ∀ seen, (∀ r, r ∈ (dedup seen l).1 ↔ r ∈ l ∧ r ∉ seen) ∧ NoDup (dedup seen l).1 ∧
  sublist (dedup seen l).1 l.
Proof.
  induction l as [|r l IH]; intros seen; simpl.
  - split_and!; [set_solver|constructor|constructor].
  - case_decide as Hr.
    + destruct (IH seen) as (H1 & H2 & H3). split_and!; [set_solver|done|by constructor].
    + destruct (IH ({[r]} ∪ seen)) as (H1 & H2 & H3). destruct (dedup ({[r]} ∪ seen) l) as [d s]. cbn [fst] in *.
      assert (∀ x, x ∈ d ↔ x ∈ l ∧ x ≠ r ∧ x ∉ seen) as Hd.
      { intros x. rewrite H1, not_elem_of_union, not_elem_of_singleton. done. }
      clear IH H1. split_and!; [|constructor; [|done]|by constructor].
      * intros x. rewrite !elem_of_cons, Hd. destruct (decide (x = r)) as [->|]; tauto.
      * rewrite Hd. tauto.
Qed.
End ExecSort.
