(* ===== verification/Aggregate.v ===== *)
(** * AggregateExecutor ([execution/executor_aggregate.h], [common/common.h])

    GROUP BY, HAVING and the aggregate functions.  [beginTuple] reads the child to its end and
    keeps a state per group and call; [long double] is the 80-bit format of x86 with 64 bits of
    precision.  A value of the C++ code whose conversion is undefined (the integer of a NaN, the
    number of a string value) ends the model with [Undefined]. *)

From Stdlib Require Import SpecFloat.
From S2P Require Import Prelude Conditions Executor.

Module Agg.
Import Cond Exec.

(** ** Long doubles *)

Definition ld_prec : Z := 64.
Definition ld_emax : Z := 16384.
Definition ld_of_Z (z : Z) : spec_float := binary_normalize ld_prec ld_emax z 0 false.
Definition ld_add : spec_float → spec_float → spec_float := SFadd ld_prec ld_emax.
Definition ld_div : spec_float → spec_float → spec_float := SFdiv ld_prec ld_emax.

(** [float] to [long double] and back. *)
Definition ld_of_float (f : spec_float) : spec_float :=
  match f with S754_finite s m e => binary_round ld_prec ld_emax s m e | f => f end.
Definition float_of_ld (f : spec_float) : spec_float :=
  match f with S754_finite s m e => binary_round 24 128 s m e | f => f end.

(** Truncation to an integer. *)
Definition trunc (f : spec_float) : option Z :=
  match f with
  | S754_zero _ => Some 0
  | S754_finite s m e => Some (cond_Zopp s (if decide (0 ≤ e) then Zpos m * 2 ^ e else Zpos m / 2 ^ (- e)))
  | _ => None
  end.

Definition INT_MAX : Z := 2147483647.
Definition INT_MIN : Z := -2147483648.

Definition clamp_to_int (value : spec_float) : option Z :=
  if SFltb (ld_of_Z INT_MAX) value then Some INT_MAX
  else if SFltb value (ld_of_Z INT_MIN) then Some INT_MIN
  else trunc value.

(** ** Calls, terms and states *)

Inductive AggFuncType := AGG_COUNT | AGG_MAX | AGG_MIN | AGG_SUM | AGG_AVG.
#[global] Instance AggFuncType_eq_dec : EqDecision AggFuncType.
Proof. solve_decision. Defined.

Record AggCall := mk_AggCall { ac_type : AggFuncType; ac_col : TabCol; ac_star : bool; result_type : ColType }.
Record SelectTerm := mk_SelectTerm { is_agg : bool; st_col : TabCol; st_idx : Z; output_name : list byte; st_type : ColType; st_len : Z }.

(** A [Value] with its type. *)
Record TValue := mk_TValue { tv_type : ColType; tv_val : Value }.
Definition set_int (z : Z) : TValue := mk_TValue TYPE_INT (mk_Value (enc_int 4 z) []).
Definition set_float (f : spec_float) : TValue := mk_TValue TYPE_FLOAT (mk_Value (enc_int 4 (bits_of_float f)) []).
Definition set_bits (type : ColType) (bs : list byte) : TValue := mk_TValue type (mk_Value bs []).
Definition set_str (s : list byte) : TValue := mk_TValue TYPE_STRING (mk_Value [] s).

Inductive AggTerm := AGG_TERM_COL (c : TabCol) | AGG_TERM_AGG (agg_idx : Z) | AGG_TERM_VALUE (v : TValue).
Record AggHavingCond := mk_AggHavingCond { hc_lhs : AggTerm; hc_op : CompOp; hc_rhs : AggTerm }.

Record AggState := mk_AggState {
  row_count : Z;
  value_count : Z;
  sum : spec_float;
  has_value : bool;
  int_val : Z;
  float_val : list byte;
  ag_str_val : list byte
}.
Definition new_agg : AggState := mk_AggState 0 0 (S754_zero false) false 0 (enc_int 4 0) [].

Record GroupState := mk_GroupState { first_rec : record; aggs : list AggState }.

(** [std::map<std::string, size_t> group_pos] with the vector it points into. *)
Record Groups := mk_Groups { groups : list GroupState; group_pos : gmap (list byte) nat }.

(** [int] members of a vector index; out of range is undefined. *)
Definition at_idx {A} (l : list A) (i : Z) : option A := if decide (0 ≤ i) then l !! Z.to_nat i else None.

Section aggregate.
(** The columns and the length of the child's records. *)
Context (prev_cols : list ColMeta) (prev_len : Z).
Context (select_terms : list SelectTerm) (agg_calls : list AggCall) (group_cols : list TabCol) (having_conds : list AggHavingCond).

(** ** Groups *)

Fixpoint group_key (gs : list TabCol) (rec : record) : res (list byte) :=
  match gs with
  | [] => mret []
  | g :: gs => m ← col_of prev_cols g; k ← group_key gs rec; mret (field rec (cm_offset m) (cm_len m) ++ [Byte.x00] ++ k)
  end.

(** Whether the new value replaces the kept one, by the sign of their comparison. *)
Definition replaces (type : AggFuncType) (has : bool) (gt lt : bool) : bool :=
  negb has || match type with AGG_MAX => gt | AGG_MIN => lt | _ => false end.

(** The value of the column [m] enters the state. *)
Definition add_value (type : AggFuncType) (m : ColMeta) (rec : record) (s : AggState) : AggState :=
  match cm_type m with
  | TYPE_INT =>
      let v := int_of (field rec (cm_offset m) 4) in
      mk_AggState (row_count s) (value_count s) (ld_add (sum s) (ld_of_Z v)) true
        (if replaces type (has_value s) (bool_decide (int_val s < v)) (bool_decide (v < int_val s)) then v else int_val s)
        (float_val s) (ag_str_val s)
  | TYPE_FLOAT =>
      let b := field rec (cm_offset m) 4 in let v := float_of b in
      mk_AggState (row_count s) (value_count s) (ld_add (sum s) (ld_of_float v)) true (int_val s)
        (if replaces type (has_value s) (SFltb (float_of (float_val s)) v) (SFltb v (float_of (float_val s))) then b else float_val s)
        (ag_str_val s)
  | TYPE_STRING =>
      let v := c_str (field rec (cm_offset m) (cm_len m)) in
      mk_AggState (row_count s) (value_count s) (sum s) true (int_val s) (float_val s)
        (if replaces type (has_value s) (bool_decide (byte_compare v (ag_str_val s) = Gt)) (bool_decide (byte_compare v (ag_str_val s) = Lt))
         then v else ag_str_val s)
  end.

Definition count_row (value : Z) (s : AggState) : AggState :=
  mk_AggState (row_count s + 1) (value_count s + value) (sum s) (has_value s) (int_val s) (float_val s) (ag_str_val s).

Definition update_agg (s : AggState) (call : AggCall) (rec : record) : res AggState :=
  match ac_type call, ac_star call with
  | AGG_COUNT, true => mret (count_row 1 s)
  | type, _ =>
      m ← col_of prev_cols (ac_col call);
      let s := count_row 1 s in
      match type with AGG_COUNT => mret s | _ => mret (add_value type m rec s) end
  end.

Fixpoint update_aggs (calls : list AggCall) (ss : list AggState) (rec : record) : res (list AggState) :=
  match calls, ss with
  | [], _ => mret ss
  | _ :: _, [] => Err Undefined
  | c :: calls, s :: ss => s ← update_agg s c rec; ss ← update_aggs calls ss rec; mret (s :: ss)
  end.

Definition add_record (g : Groups) (rec : record) : res Groups :=
  key ← group_key group_cols rec;
  let g := match group_pos g !! key with
    | Some _ => g
    | None => mk_Groups (groups g ++ [mk_GroupState rec (replicate (length agg_calls) new_agg)]) (<[key := length (groups g)]> (group_pos g))
    end in
  i ← require (group_pos g !! key) Undefined;
  group ← require (groups g !! i) Undefined;
  ss ← update_aggs agg_calls (aggs group) rec;
  mret (mk_Groups (<[i := mk_GroupState (first_rec group) ss]> (groups g)) (group_pos g)).

(** ** Values of a group *)

Definition agg_value (call : AggCall) (s : AggState) : option TValue :=
  match ac_type call with
  | AGG_COUNT => set_int <$> clamp_to_int (ld_of_Z (if ac_star call then row_count s else value_count s))
  | AGG_AVG => Some (set_float (if decide (value_count s = 0) then S754_zero false else float_of_ld (ld_div (sum s) (ld_of_Z (value_count s)))))
  | AGG_SUM =>
      match result_type call with
      | TYPE_INT => set_int <$> clamp_to_int (sum s)
      | _ => Some (set_float (float_of_ld (sum s)))
      end
  | _ =>
      Some match result_type call with
      | TYPE_INT => set_int (if has_value s then int_val s else 0)
      | TYPE_FLOAT => set_bits TYPE_FLOAT (if has_value s then float_val s else enc_int 4 0)
      | TYPE_STRING => set_str (if has_value s then ag_str_val s else [])
      end
  end.

Definition col_value (c : TabCol) (g : GroupState) : res TValue :=
  m ← col_of prev_cols c;
  mret match cm_type m with
  | TYPE_STRING => set_str (c_str (field (first_rec g) (cm_offset m) (cm_len m)))
  | type => set_bits type (field (first_rec g) (cm_offset m) 4)
  end.

Definition call_value (idx : Z) (g : GroupState) : res TValue :=
  call ← require (at_idx agg_calls idx) Undefined;
  s ← require (at_idx (aggs g) idx) Undefined;
  require (agg_value call s) Undefined.

Definition term_value (t : AggTerm) (g : GroupState) : res TValue :=
  match t with
  | AGG_TERM_AGG idx => call_value idx g
  | AGG_TERM_COL c => col_value c g
  | AGG_TERM_VALUE v => mret v
  end.

(** The type of [b ? int_val : float_val] is [float]: integers are rounded before they
    become doubles. *)
Definition as_number (v : TValue) : option spec_float :=
  match tv_type v with
  | TYPE_INT => Some (float_of_int (int_of (v_bits (tv_val v))))
  | TYPE_FLOAT => Some (float_of (v_bits (tv_val v)))
  | TYPE_STRING => None
  end.

Definition compare_values (lhs : TValue) (o : CompOp) (rhs : TValue) : bool :=
  compare_op o (Some match as_number lhs, as_number rhs with
  | Some lv, Some rv => if SFltb rv lv then (if SFltb lv rv then Eq else Gt) else if SFltb lv rv then Lt else Eq
  | _, _ => byte_compare (str_val (tv_val lhs)) (str_val (tv_val rhs))
  end).

Fixpoint pass_having (conds : list AggHavingCond) (g : GroupState) : res bool :=
  match conds with
  | [] => mret true
  | c :: conds =>
      l ← term_value (hc_lhs c) g;
      r ← term_value (hc_rhs c) g;
      if compare_values l (hc_op c) r then pass_having conds g else mret false
  end.

(** ** Results *)

(** The bytes [write_value] writes. *)
Definition value_bytes (type : ColType) (len : Z) (v : TValue) : option (list byte) :=
  match type, tv_type v with
  | TYPE_INT, TYPE_FLOAT => enc_int 4 <$> clamp_to_int (ld_of_float (float_of (v_bits (tv_val v))))
  | TYPE_FLOAT, TYPE_INT => Some (enc_int 4 (bits_of_float (float_of_int (int_of (v_bits (tv_val v))))))
  | TYPE_INT, TYPE_INT | TYPE_FLOAT, TYPE_FLOAT => Some (v_bits (tv_val v))
  | TYPE_INT, TYPE_STRING | TYPE_FLOAT, TYPE_STRING => None
  | TYPE_STRING, _ => Some (write_bytes (replicate (Z.to_nat len) Byte.x00) 0 (take (Z.to_nat len) (str_val (tv_val v))))
  end.

(** The columns of the result. *)
Fixpoint agg_cols (terms : list SelectTerm) (offset : Z) : list ColMeta :=
  match terms with
  | [] => []
  | t :: terms => mk_ColMeta (String.list_byte_of_string "__agg") (output_name t) (st_type t) (st_len t) offset :: agg_cols terms (offset + st_len t)
  end.
Definition agg_len : Z := foldl (λ a t, a + st_len t) 0 select_terms.

Definition select_value (t : SelectTerm) (g : GroupState) : res TValue :=
  if is_agg t then call_value (st_idx t) g else col_value (st_col t) g.

Fixpoint build_fields (terms : list SelectTerm) (offset : Z) (g : GroupState) (rec : record) : res record :=
  match terms with
  | [] => mret rec
  | t :: terms =>
      v ← select_value t g;
      bs ← require (value_bytes (st_type t) (st_len t) v) Undefined;
      build_fields terms (offset + st_len t) g (write_bytes rec (Z.to_nat offset) bs)
  end.
Definition build_record (g : GroupState) : res record := build_fields select_terms 0 g (replicate (Z.to_nat agg_len) Byte.x00).

Fixpoint results (gs : list GroupState) : res (list record) :=
  match gs with
  | [] => mret []
  | g :: gs =>
      pass ← pass_having having_conds g;
      l ← (if (pass : bool) then r ← build_record g; mret [r] else mret []);
      rest ← results gs;
      mret (l ++ rest)
  end.

(** The groups that the results are made of: without GROUP BY there is always one. *)
Definition final_groups (g : Groups) : list GroupState :=
  if decide (groups g = [] ∧ group_cols = []) then
    [mk_GroupState (replicate (Z.to_nat (prev_len)) Byte.x00) (replicate (length agg_calls) new_agg)]
  else groups g.

End aggregate.

(** ** The executor *)

Section executor.
Context {W : Type} (fuel : nat) (prev : Exec W).
Context (select_terms : list SelectTerm) (agg_calls : list AggCall) (group_cols : list TabCol) (having_conds : list AggHavingCond).

Fixpoint group_loop (fuel : nat) (g : Groups) (s : ex_st prev) : M W (Groups * ex_st prev) :=
  match fuel with
  | O => throw Undefined
  | S fuel =>
      if is_end prev s then mret (g, s)
      else
        '(rec, s) ← Next prev s;
        g ← (match rec with Some r => lift (add_record (cols prev) agg_calls group_cols g r) | None => mret g end);
        s ← nextTuple prev s;
        group_loop fuel g s
  end.

Definition agg_fill (s : ex_st prev) : M W (list record * ex_st prev) :=
  s ← beginTuple prev s;
  '(g, s) ← group_loop fuel (mk_Groups [] ∅) s;
  l ← lift (results (cols prev) select_terms agg_calls having_conds (final_groups (tupleLen prev) agg_calls group_cols g));
  mret (l, s).

Definition AggregateExecutor : Exec W :=
  buffered fuel (ex_st prev) (ex_init prev) (agg_cols select_terms 0) (agg_len select_terms) agg_fill (finish prev).
End executor.
End Agg.
