(* ===== verification/LongDouble.v ===== *)
(** * Integers in long doubles

    Integers of up to 64 bits are exact in the 80-bit format: conversion, addition, comparison
    and truncation agree with those of [Z].  The sums of [AggregateExecutor] over integer
    columns are such integers. *)

From Stdlib Require Import SpecFloat.
From S2P Require Import Prelude Conditions Executor Aggregate.

Module LongDouble.
Import Agg.

(** ** Digits and shifts of positives *)

Abbreviation dig p := (Zpos (digits2_pos p)).
Definition scale (p : positive) (k : nat) : positive := Nat.iter k xO p.

Lemma scale_S p k : scale p (S k) = xO (scale p k).
Proof. done. Qed.

Lemma scale_Z p k : Zpos (scale p k) = Zpos p * 2 ^ Z.of_nat k.
Proof.
  induction k as [|k IH]; [simpl; lia|]. rewrite scale_S, Nat2Z.inj_succ, Z.pow_succ_r by lia. change (Zpos (xO (scale p k))) with (2 * Zpos (scale p k)). lia.
Qed.

Lemma scale_scale p j k : scale (scale p j) k = scale p (j + k)%nat.
Proof. apply (inj Zpos). rewrite !scale_Z, Nat2Z.inj_add, Z.pow_add_r by lia. lia. Qed.

Lemma dig_scale p k : dig (scale p k) = dig p + Z.of_nat k.
Proof. induction k as [|k IH]; [simpl; lia|]. rewrite scale_S. cbn [digits2_pos]. lia. Qed.

Lemma dig_bounds p : 2 ^ (dig p - 1) ≤ Zpos p < 2 ^ dig p.
Proof.
  induction p as [p IH|p IH|]; cbn [digits2_pos]; [| |simpl; lia]; rewrite Pos2Z.inj_succ; replace (Z.succ (dig p) - 1) with (Z.succ (dig p - 1)) by lia;
    rewrite !Z.pow_succ_r by lia; lia.
Qed.

Lemma dig_le p n : 0 ≤ n → Zpos p < 2 ^ n → dig p ≤ n.
Proof. intros Hn Hp. pose proof (dig_bounds p) as [Hl _]. assert (dig p - 1 < n); [|lia]. apply (Z.pow_lt_mono_r_iff 2); lia. Qed.

Lemma iter_scale p n : Pos.iter xO p n = scale p (Pos.to_nat n).
Proof. apply Pos2Nat.inj_iter. Qed.

Lemma iter_pos_nat {A} (f : A → A) n : ∀ x, SpecFloat.iter_pos f n x = Nat.iter (Pos.to_nat n) f x.
Proof.
  assert (∀ k x, Nat.iter k f (f x) = f (Nat.iter k f x)) as Hs by (induction k as [|k IH]; intros x; [done|simpl; by rewrite IH]).
  assert (∀ j k x, Nat.iter (j + k) f x = Nat.iter j f (Nat.iter k f x)) as Ha by (induction j as [|j IH]; intros k x; [done|simpl; by rewrite IH]).
  induction n as [n IH|n IH|]; intros x; cbn [SpecFloat.iter_pos]; rewrite ?IH; [| |done].
  - rewrite Pos2Nat.inj_xI, <-Ha, Hs. simpl. f_equal. f_equal. lia.
  - rewrite Pos2Nat.inj_xO, <-Ha. f_equal. lia.
Qed.

(** ** Rounding of exact values *)

Abbreviation fexp64 := (fexp ld_prec ld_emax).

Lemma fexp64_eq e : -16000 ≤ e → fexp64 e = e - 64.
Proof. intros He. unfold fexp, emin, ld_prec, ld_emax. lia. Qed.

(** Bits that are zero are shifted out without a trace. *)
Lemma shr_exact p j : ∀ n, Nat.iter n shr_1 (Build_shr_record (Zpos (scale p (n + j))) false false) = Build_shr_record (Zpos (scale p j)) false false.
Proof.
  assert (∀ n x, Nat.iter n shr_1 (shr_1 x) = shr_1 (Nat.iter n shr_1 x)) as Hs by (induction n as [|n IH]; intros x; [done|simpl; by rewrite IH]).
  induction n as [|n IH]; [done|]. cbn [Nat.iter nat_rect]. change (nat_rect _ ?x _ ?n) with (Nat.iter n shr_1 x). rewrite <-Hs. rewrite Nat.add_succ_l, scale_S. exact IH.
Qed.

(** A mantissa of at least 64 digits whose lower digits are zero loses these. *)
Lemma shr_fexp_exact p j k e : dig p + Z.of_nat j = 64 → (j ≤ k)%nat → -8000 ≤ e →
  shr_fexp ld_prec ld_emax (Zpos (scale p k)) e loc_Exact = (Build_shr_record (Zpos (scale p j)) false false, e + Z.of_nat (k - j)).
Proof.
  intros Hd Hk He. unfold shr_fexp. cbn [Zdigits2 shr_record_of_loc]. rewrite dig_scale, fexp64_eq by lia.
  replace (dig p + Z.of_nat k + e - 64 - e) with (Z.of_nat (k - j)) by lia. destruct (k - j)%nat as [|n] eqn:En; simpl Z.of_nat; cbn [shr].
  - replace k with j by lia. by rewrite Z.add_0_r.
  - change (Z.of_nat (S n)) with (Zpos (Pos.of_succ_nat n)). cbn [shr]. rewrite iter_pos_nat, SuccNat2Pos.id_succ. replace k with (S n + j)%nat by lia.
    by rewrite shr_exact.
Qed.

Lemma round_aux_exact s p j k e : dig p + Z.of_nat j = 64 → (j ≤ k)%nat → -8000 ≤ e ≤ 0 → (k ≤ 4000)%nat →
  binary_round_aux ld_prec ld_emax s (Zpos (scale p k)) e loc_Exact = S754_finite s (scale p j) (e + Z.of_nat (k - j)).
Proof.
  intros Hd Hk He Hk2. unfold binary_round_aux. rewrite (shr_fexp_exact p j k e) by (done || lia). cbn [loc_of_shr_record round_nearest_even shr_m].
  rewrite (shr_fexp_exact p j j) by (done || lia). cbn [shr_m]. rewrite Nat.sub_diag. simpl Z.of_nat. rewrite Z.add_0_r.
  destruct (Z.leb_spec (e + Z.of_nat (k - j)) (ld_emax - ld_prec)) as [_|H]; [done|]. unfold ld_emax, ld_prec in H. lia.
Qed.

(** The normal form of an integer of up to 64 digits. *)
Definition norm (s : bool) (p : positive) : spec_float := S754_finite s (scale p (Z.to_nat (64 - dig p))) (dig p - 64).

Lemma round_exact s p k : dig p ≤ 64 → (k ≤ 200)%nat → binary_round ld_prec ld_emax s (scale p k) (- Z.of_nat k) = norm s p.
Proof.
  intros Hd Hk. unfold binary_round, norm. set (j := Z.to_nat (64 - dig p)). rewrite dig_scale, fexp64_eq by lia.
  replace (dig p + Z.of_nat k + - Z.of_nat k - 64) with (- Z.of_nat j) by lia. unfold shl_align.
  destruct (decide (k < j)%nat) as [Hlt|Hge].
  - replace (- Z.of_nat j - - Z.of_nat k) with (Zneg (Pos.of_nat (j - k))) by lia. rewrite iter_scale, Nat2Pos.id, scale_scale by lia.
    replace (k + (j - k))%nat with j by lia. rewrite (round_aux_exact s p j j) by lia. f_equal. lia.
  - replace (- Z.of_nat j - - Z.of_nat k) with (Z.of_nat (k - j)) by lia. assert (∀ n : nat, match Z.of_nat n with Zneg d => (Pos.iter xO (scale p k) d, - Z.of_nat j) | _ => (scale p k, - Z.of_nat k) end = (scale p k, - Z.of_nat k)) as -> by by intros [].
    rewrite (round_aux_exact s p j k) by lia. f_equal. lia.
Qed.

(** ** Integers *)

Definition ld_int (z : Z) : spec_float :=
  match z with Z0 => S754_zero false | Zpos p => norm false p | Zneg p => norm true p end.

Definition fits (z : Z) : Prop := Z.abs z < 2 ^ 64.

Lemma fits_dig s p : fits (cond_Zopp s (Zpos p)) → dig p ≤ 64.
Proof. unfold fits. intros H. apply dig_le; [lia|]. destruct s; simpl in H; lia. Qed.

Lemma normalize_scaled z k : fits z → (k ≤ 200)%nat → binary_normalize ld_prec ld_emax (z * 2 ^ Z.of_nat k) (- Z.of_nat k) false = ld_int z.
Proof.
  intros Hz Hk. destruct z as [|p|p]; [done|..]; simpl ld_int; rewrite <-(round_exact _ p k) by (done || eapply (fits_dig false), Hz || eapply (fits_dig true), Hz).
  - by rewrite <-scale_Z.
  - change (Zneg p) with (- Zpos p). by rewrite Z.mul_opp_l, <-scale_Z.
Qed.

Lemma ld_of_Z_int z : fits z → ld_of_Z z = ld_int z.
Proof. intros Hz. unfold ld_of_Z. rewrite <-(normalize_scaled z 0) by (done || lia). by rewrite Z.mul_1_r. Qed.

(** Aligning the mantissa of an integer to a smaller exponent. *)
Lemma align_norm s p k : dig p ≤ 64 → 64 - dig p ≤ Z.of_nat k →
  cond_Zopp s (Zpos (fst (shl_align (scale p (Z.to_nat (64 - dig p))) (dig p - 64) (- Z.of_nat k)))) = cond_Zopp s (Zpos p) * 2 ^ Z.of_nat k.
Proof.
  intros Hd Hk. assert (fst (shl_align (scale p (Z.to_nat (64 - dig p))) (dig p - 64) (- Z.of_nat k)) = scale p k) as ->.
  { unfold shl_align. set (j := Z.to_nat (64 - dig p)). replace (- Z.of_nat k - (dig p - 64)) with (- Z.of_nat (k - j)) by lia.
    destruct (k - j)%nat as [|n] eqn:En; [simpl; f_equal; lia|]. change (- Z.of_nat (S n)) with (Zneg (Pos.of_succ_nat n)). cbn [fst].
    rewrite iter_scale, SuccNat2Pos.id_succ, scale_scale. f_equal. lia. }
  rewrite scale_Z. destruct s; simpl; lia.
Qed.

Lemma add_norm s p s' p' : dig p ≤ 64 → dig p' ≤ 64 → fits (cond_Zopp s (Zpos p) + cond_Zopp s' (Zpos p')) →
  ld_add (norm s p) (norm s' p') = ld_int (cond_Zopp s (Zpos p) + cond_Zopp s' (Zpos p')).
Proof.
  intros Hd Hd' Hf. unfold ld_add, norm. cbn [SFadd]. set (k := Z.to_nat (64 - Z.min (dig p) (dig p'))).
  replace (Z.min (dig p - 64) (dig p' - 64)) with (- Z.of_nat k) by lia. rewrite !align_norm by lia. rewrite <-Z.mul_add_distr_r. apply normalize_scaled; [done|lia].
Qed.

Lemma ld_add_int a b : fits a → fits b → fits (a + b) → ld_add (ld_int a) (ld_int b) = ld_int (a + b).
Proof.
  intros Ha Hb Hab. destruct a as [|p|p], b as [|q|q]; try done; simpl ld_int.
  - apply (add_norm false p false q); [apply (fits_dig false), Ha|apply (fits_dig false), Hb|done].
  - apply (add_norm false p true q); [apply (fits_dig false), Ha|apply (fits_dig true), Hb|done].
  - apply (add_norm true p false q); [apply (fits_dig true), Ha|apply (fits_dig false), Hb|done].
  - apply (add_norm true p true q); [apply (fits_dig true), Ha|apply (fits_dig true), Hb|done].
Qed.

(** ** Comparison and truncation *)

Lemma norm_compare p q : dig p ≤ 64 → dig q ≤ 64 →
  match dig p - 64 ?= dig q - 64 with Eq => Pos.compare_cont Eq (scale p (Z.to_nat (64 - dig p))) (scale q (Z.to_nat (64 - dig q))) | c => c end =
  (Zpos p ?= Zpos q).
Proof.
  intros Hp Hq. pose proof (dig_bounds p) as Bp. pose proof (dig_bounds q) as Bq. symmetry. destruct (Z.compare_spec (dig p - 64) (dig q - 64)) as [E|E|E].
  - replace (dig q) with (dig p) by lia. change (Pos.compare_cont Eq ?x ?y) with (Zpos x ?= Zpos y). rewrite !scale_Z.
    rewrite (Z.mul_comm (Zpos p)), (Z.mul_comm (Zpos q)). apply Zmult_compare_compat_l. apply Z.lt_gt, Z.pow_pos_nonneg; lia.
  - apply Z.compare_lt_iff. pose proof (Z.pow_le_mono_r 2 (dig p) (dig q - 1)). lia.
  - apply Z.compare_gt_iff. pose proof (Z.pow_le_mono_r 2 (dig q) (dig p - 1)). lia.
Qed.

Lemma ld_compare a b : fits a → fits b → SFcompare (ld_int a) (ld_int b) = Some (a ?= b).
Proof.
  intros Ha Hb. destruct a as [|p|p], b as [|q|q]; try done; simpl ld_int; unfold norm, SFcompare; f_equal.
  - apply norm_compare; [apply (fits_dig false), Ha|apply (fits_dig false), Hb].
  - pose proof (norm_compare p q (fits_dig true p Ha) (fits_dig true q Hb)) as E. change (Zneg p ?= Zneg q) with (CompOpp (Zpos p ?= Zpos q)). rewrite <-E.
    by destruct (dig p - 64 ?= dig q - 64).
Qed.

Lemma trunc_int z : fits z → trunc (ld_int z) = Some z.
Proof.
  assert (∀ s p, dig p ≤ 64 → trunc (norm s p) = Some (cond_Zopp s (Zpos p))) as Hn.
  { intros s p Hd. unfold norm, trunc. f_equal. f_equal. rewrite scale_Z. case_decide.
    - assert (dig p = 64) as -> by lia. change (2 ^ Z.of_nat (Z.to_nat (64 - 64))) with 1. change (2 ^ (64 - 64)) with 1. lia.
    - rewrite Z2Nat.id by lia. replace (- (dig p - 64)) with (64 - dig p) by lia. apply Z.div_mul, Z.pow_nonzero; lia. }
  intros Hz. destruct z as [|p|p]; [done|..]; simpl ld_int.
  - rewrite Hn; [done|]. by apply (fits_dig false).
  - rewrite Hn; [done|]. by apply (fits_dig true).
Qed.

(** Clamping an integer to the range of [int]. *)
Lemma clamp_int z : fits z → clamp_to_int (ld_int z) = Some (Z.max INT_MIN (Z.min INT_MAX z)).
Proof.
  intros Hz. unfold clamp_to_int, SFltb. rewrite !ld_of_Z_int by (unfold fits, INT_MAX, INT_MIN; lia).
  rewrite !ld_compare by (done || unfold fits, INT_MAX, INT_MIN; lia). unfold INT_MAX, INT_MIN.
  destruct (Z.compare_spec 2147483647 z); try (f_equal; lia); destruct (Z.compare_spec z (-2147483648)); try (f_equal; lia);
    rewrite trunc_int by done; f_equal; lia.
Qed.
End LongDouble.
