(* ===== verification/AggregateFacts.v ===== *)
(** * What aggregation delivers

    The groups of [AggregateExecutor] are the classes of the child's records by their grouping
    fields, in the order of their first records, each with the aggregates folded over its
    records.  Over an integer column COUNT, SUM, MAX and MIN are those of the integers. *)

From Stdlib Require Import SpecFloat.
From S2P Require Import Prelude Conditions Executor ExecutorFacts ExecutorSort Aggregate LongDouble.

Module AggFacts.
Import Cond Exec ExecFacts Agg LongDouble.

(** ** The reference *)

Section spec.
Context (prev_cols : list ColMeta) (agg_calls : list AggCall) (group_metas : list ColMeta).

Definition row_key (r : record) : list byte := concat ((λ m, field r (cm_offset m) (cm_len m) ++ [Byte.x00]) <$> group_metas).

(** One record enters the state of a call whose column is [m]. *)
Definition step (call : AggCall) (m : option ColMeta) (s : AggState) (r : record) : AggState :=
  let s := count_row 1 s in
  match ac_type call, m with AGG_COUNT, _ | _, None => s | type, Some m => add_value type m r s end.
Definition call_meta (call : AggCall) : option ColMeta := find_col prev_cols (ac_col call).
Definition agg_over (call : AggCall) (rows : list record) : AggState := foldl (step call (call_meta call)) new_agg rows.

Definition class (rows : list record) (k : list byte) : list record := filter (λ r, row_key r = k) rows.
Definition keys (rows : list record) : list (list byte) := (dedup ∅ (row_key <$> rows)).1.
Definition group_of (rows : list record) : GroupState :=
  mk_GroupState (default [] (head rows)) ((λ c, agg_over c rows) <$> agg_calls).
Definition group_spec (rows : list record) : list GroupState := (λ k, group_of (class rows k)) <$> keys rows.

(** The groups are those of the records read so far. *)
Definition grouped (rows : list record) (g : Groups) : Prop :=
  groups g = group_spec rows ∧ ∀ k i, group_pos g !! k = Some i ↔ keys rows !! i = Some k.

Lemma keys_nodup rows : NoDup (keys rows).
Proof. apply ExecSort.dedup_spec. Qed.

Lemma elem_of_keys rows k : k ∈ keys rows ↔ ∃ r, r ∈ rows ∧ row_key r = k.
Proof.
  unfold keys. destruct (ExecSort.dedup_spec (row_key <$> rows) ∅) as [H _]. rewrite H, list_elem_of_fmap. split; [intros [(r & -> & ?) _]; by exists r|].
  intros (r & ? & <-). split; [by exists r|set_solver].
Qed.

Lemma dedup_seen l : ∀ seen, (dedup seen l).2 = list_to_set l ∪ seen.
Proof.
  induction l as [|x l IH]; intros seen; cbn [dedup list_to_set]; [simpl; set_solver|]. case_decide; [rewrite IH; simpl; set_solver|].
  specialize (IH ({[x]} ∪ seen)). destruct (dedup _ l) as [d s]. simpl in *. rewrite IH. set_solver.
Qed.

Lemma keys_snoc rows r : keys (rows ++ [r]) = if decide (row_key r ∈ keys rows) then keys rows else keys rows ++ [row_key r].
Proof.
  pose proof (elem_of_keys rows (row_key r)) as Hk. unfold keys in *. rewrite fmap_app, dedup_app. pose proof (dedup_seen (row_key <$> rows) ∅) as Hs.
  destruct (dedup ∅ (row_key <$> rows)) as [d s] eqn:E. cbn [fst snd] in *. subst s. cbn [fmap list_fmap dedup].
  assert (row_key r ∈ (list_to_set (row_key <$> rows) ∪ ∅ : gset (list byte)) ↔ row_key r ∈ d) as Hd.
  { rewrite Hk, elem_of_union, elem_of_list_to_set, list_elem_of_fmap. split; [intros [(x & E2 & ?)|?%elem_of_empty]; [|done]; by exists x|].
    intros (x & ? & E2). left. by exists x. }
  destruct (decide (row_key r ∈ (list_to_set (row_key <$> rows) ∪ ∅ : gset (list byte)))) as [H1|H1]; destruct (decide (row_key r ∈ d)) as [H2|H2]; try tauto; cbn [fst]; by rewrite ?app_nil_r.
Qed.

Lemma class_snoc rows r k : class (rows ++ [r]) k = if decide (row_key r = k) then class rows k ++ [r] else class rows k.
Proof. unfold class. rewrite filter_app, filter_cons. case_decide; [done|]. by rewrite app_nil_r. Qed.

Lemma class_nil rows k : k ∉ keys rows → class rows k = [].
Proof.
  intros Hk. destruct (class rows k) as [|r l] eqn:E; [done|]. destruct Hk. assert (r ∈ class rows k) as [Er Hr]%list_elem_of_filter by (rewrite E; left).
  apply elem_of_keys. by exists r.
Qed.

Lemma class_first rows k : k ∈ keys rows → is_Some (head (class rows k)).
Proof.
  intros (r & Hr & E)%elem_of_keys. assert (r ∈ class rows k) as Hin by (by apply list_elem_of_filter). destruct (class rows k) as [|x l]; [|by eexists].
  by apply elem_of_nil in Hin.
Qed.

(** Every record is in one class. *)
Lemma partition_by_keys rows ks : NoDup ks → (∀ r, r ∈ rows → row_key r ∈ ks) → concat ((λ k, class rows k) <$> ks) ≡ₚ rows.
Proof.
  revert rows. induction ks as [|k ks IH]; intros rows Hnd Hall.
  - destruct rows as [|r rows]; [done|]. specialize (Hall r (list_elem_of_here _ _)). by apply elem_of_nil in Hall.
  - apply NoDup_cons in Hnd as [Hk Hnd]. cbn [fmap list_fmap concat].
    assert (rows ≡ₚ class rows k ++ filter (λ r, row_key r ≠ k) rows) as Hsplit.
    { clear. unfold class. induction rows as [|r rows IH]; [done|]. rewrite !filter_cons. destruct (decide (row_key r = k)).
      - rewrite decide_False by (intros Hn; by apply Hn). simpl. by constructor.
      - rewrite decide_True by done. rewrite <-Permutation_middle. by constructor. }
    assert ((λ k', class rows k') <$> ks = (λ k', class (filter (λ r, row_key r ≠ k) rows) k') <$> ks) as ->.
    { apply list_fmap_ext. intros i k' Hi. unfold class. rewrite list_filter_filter. apply list_filter_iff. intros r. split; [|by intros []].
      intros E. split; [done|]. intros E2. apply Hk. rewrite <-E2, E. by eapply list_elem_of_lookup_2. }
    rewrite (IH (filter (λ r, row_key r ≠ k) rows)); [by symmetry|done|].
    intros r [Hr Hin]%list_elem_of_filter. specialize (Hall r Hin). by apply elem_of_cons in Hall as [?|].
Qed.

Lemma classes_partition rows : concat ((λ k, class rows k) <$> keys rows) ≡ₚ rows.
Proof. apply partition_by_keys; [apply keys_nodup|]. intros r Hr. apply elem_of_keys. by exists r. Qed.

(** A group that gets a record, in the list of the groups. *)
Lemma group_spec_snoc rows r i : keys (rows ++ [r]) !! i = Some (row_key r) →
  group_spec (rows ++ [r]) = <[i := group_of (class rows (row_key r) ++ [r])]> ((λ k, group_of (class rows k)) <$> keys (rows ++ [r])).
Proof.
  intros Hi. unfold group_spec. apply list_eq. intros j. destruct (decide (j = i)) as [->|Hne].
  - rewrite list_lookup_insert_eq by (rewrite length_fmap; by eapply lookup_lt_Some). rewrite list_lookup_fmap, Hi. simpl. by rewrite class_snoc, decide_True.
  - rewrite list_lookup_insert_ne by done. rewrite !list_lookup_fmap. destruct (keys (rows ++ [r]) !! j) as [k|] eqn:Hj; [|done]. simpl.
    rewrite class_snoc, decide_False; [done|]. intros <-. apply Hne. by eapply NoDup_lookup; [apply keys_nodup|..].
Qed.
End spec.

(** ** The groups of the executor *)

Section groups.
Context (prev_cols : list ColMeta) (prev_len : Z) (agg_calls : list AggCall) (group_cols : list TabCol) (group_metas : list ColMeta).

(** The columns that are named exist. *)
Record agg_found : Prop := {
  af_groups : Forall2 (λ g m, find_col prev_cols g = Some m) group_cols group_metas;
  af_calls : Forall (λ c, (ac_type c = AGG_COUNT ∧ ac_star c = true) ∨ is_Some (call_meta prev_cols c)) agg_calls
}.
Context (Hfound : agg_found).
Abbreviation spec := (group_spec prev_cols agg_calls group_metas).
Abbreviation is_grouped := (grouped prev_cols agg_calls group_metas).

Lemma col_of_ok c m : find_col prev_cols c = Some m → col_of prev_cols c = Ok m.
Proof. intros Hc. by apply require_ok. Qed.

Lemma group_key_ok r : group_key prev_cols group_cols r = Ok (row_key group_metas r).
Proof.
  destruct Hfound as [Hg _]. clear Hfound. induction Hg as [|g m gs ms Hm Hg IH]; cbn [group_key]; [done|].
  rewrite (col_of_ok _ _ Hm). simpl. rewrite IH. unfold row_key. cbn [mbind res_bind fmap list_fmap concat]. by rewrite <-app_assoc.
Qed.

Lemma update_agg_ok c s r : (ac_type c = AGG_COUNT ∧ ac_star c = true) ∨ is_Some (call_meta prev_cols c) →
  update_agg prev_cols s c r = Ok (step c (call_meta prev_cols c) s r).
Proof.
  intros Hc. unfold update_agg, step. destruct (decide (ac_type c = AGG_COUNT ∧ ac_star c = true)) as [[-> ->]|Hn]; [done|].
  destruct Hc as [Hc|[m Hm]]; [done|]. rewrite Hm, (col_of_ok _ _ Hm). destruct (ac_type c), (ac_star c); done || by destruct Hn.
Qed.

Lemma update_aggs_ok rows r : update_aggs prev_cols agg_calls ((λ c, agg_over prev_cols c rows) <$> agg_calls) r =
  Ok ((λ c, agg_over prev_cols c (rows ++ [r])) <$> agg_calls).
Proof.
  destruct Hfound as [_ Hc]. clear Hfound. induction Hc as [|c cs Hc Hcs IH]; cbn [update_aggs fmap list_fmap]; [done|].
  rewrite update_agg_ok by done. cbn [mbind res_bind]. rewrite IH. cbn [mbind res_bind]. unfold agg_over. by rewrite foldl_snoc.
Qed.

Lemma keys_pos rows r g i : is_grouped rows g → group_pos g !! row_key group_metas r = Some i →
  keys group_metas (rows ++ [r]) = keys group_metas rows ∧ keys group_metas rows !! i = Some (row_key group_metas r).
Proof. intros [_ Hp] Hi. apply Hp in Hi. split; [|done]. rewrite keys_snoc, decide_True; [done|]. by eapply list_elem_of_lookup_2. Qed.

(** The place of the group of a record, after a group was made if there was none. *)
Lemma place_ok rows g r : is_grouped rows g →
  let g' := match group_pos g !! row_key group_metas r with
    | Some _ => g
    | None => mk_Groups (groups g ++ [mk_GroupState r (replicate (length agg_calls) new_agg)]) (<[row_key group_metas r := length (groups g)]> (group_pos g))
    end in
  ∃ i, group_pos g' !! row_key group_metas r = Some i ∧ (∀ k i, group_pos g' !! k = Some i ↔ keys group_metas (rows ++ [r]) !! i = Some k) ∧
    (∃ f, groups g' !! i = Some (mk_GroupState f ((λ c, agg_over prev_cols c (class group_metas rows (row_key group_metas r))) <$> agg_calls)) ∧
      Some f = head (class group_metas rows (row_key group_metas r) ++ [r])) ∧
    ∀ x, <[i := x]> (groups g') = <[i := x]> ((λ k, group_of prev_cols agg_calls (class group_metas rows k)) <$> keys group_metas (rows ++ [r])).
Proof.
  intros Hg. pose proof Hg as [Hgs Hp]. cbn zeta. destruct (group_pos g !! row_key group_metas r) as [i|] eqn:Ei.
  - destruct (keys_pos _ _ _ _ Hg Ei) as [Ek Hi]. exists i. rewrite Ek. split_and!; [done..| |by rewrite Hgs].
    rewrite Hgs. unfold group_spec. rewrite list_lookup_fmap, Hi. simpl. unfold group_of. eexists. split; [done|].
    destruct (class_first group_metas rows (row_key group_metas r)) as [f Hf]; [by eapply list_elem_of_lookup_2|].
    destruct (class group_metas rows (row_key group_metas r)); by simpl in *.
  - assert (row_key group_metas r ∉ keys group_metas rows) as Hn.
    { intros [i Hi]%list_elem_of_lookup. apply Hp in Hi. congruence. }
    pose proof (keys_snoc group_metas rows r) as Ek. rewrite decide_False in Ek by done. rewrite Ek. pose proof (f_equal length Hgs) as Hl. unfold group_spec in Hl. rewrite length_fmap in Hl.
    exists (length (groups g)). cbn [group_pos groups]. split_and!; [by rewrite lookup_insert_eq| | |].
    + intros k i. destruct (decide (k = row_key group_metas r)) as [->|Hne].
      * rewrite lookup_insert_eq. split; [intros [= <-]; by rewrite Hl, lookup_app_r, Nat.sub_diag by lia|].
        intros [Hi|[Hi Hs]]%lookup_app_Some; [by apply list_elem_of_lookup_2 in Hi|]. apply list_lookup_singleton_Some in Hs as [Hs _]. f_equal. lia.
      * rewrite lookup_insert_ne, Hp by done. split; [by apply lookup_app_l_Some|]. intros [Hi|[_ Hs]]%lookup_app_Some; [done|]. by apply list_lookup_singleton_Some in Hs as [_ <-].
    + rewrite class_nil by done. exists r. rewrite lookup_app_r, Nat.sub_diag by lia. simpl. split; [|done]. do 2 f_equal. unfold agg_over. simpl.
      clear. induction agg_calls as [|c cs IH]; [done|]. simpl. by rewrite IH.
    + intros x. rewrite fmap_app, !insert_app_r_alt by (rewrite ?length_fmap; lia). f_equal; [exact Hgs|]. rewrite length_fmap, <-Hl. by rewrite Nat.sub_diag.
Qed.

Lemma add_record_ok rows g r : is_grouped rows g → ∃ g', add_record prev_cols agg_calls group_cols g r = Ok g' ∧ is_grouped (rows ++ [r]) g'.
Proof.
  intros Hg. unfold add_record. rewrite group_key_ok. cbn [mbind res_bind]. destruct (place_ok rows g r Hg) as (i & Hi & Hpos & (f & Hgi & Hf) & Hins).
  set (g' := match group_pos g !! row_key group_metas r with Some _ => g | None => _ end) in *.
  rewrite Hi. cbn [mbind res_bind require]. rewrite Hgi. cbn [mbind res_bind require aggs first_rec]. rewrite update_aggs_ok. cbn [mbind res_bind].
  eexists. split; [done|]. split; cbn [groups group_pos]; [|exact Hpos].
  rewrite Hins. rewrite (group_spec_snoc prev_cols agg_calls group_metas rows r i) by by apply Hpos. f_equal. unfold group_of. by rewrite <-Hf.
Qed.

(** The groups of the result: without GROUP BY there is one even for no records. *)
Definition final_spec (rows : list record) : list GroupState :=
  if decide (rows = [] ∧ group_cols = []) then
    [mk_GroupState (replicate (Z.to_nat prev_len) Byte.x00) (replicate (length agg_calls) new_agg)]
  else spec rows.

Lemma spec_nil rows : spec rows = [] ↔ rows = [].
Proof.
  split; [|by intros ->]. unfold group_spec. intros E%fmap_nil_inv. destruct rows as [|r rows]; [done|].
  assert (row_key group_metas r ∈ keys group_metas (r :: rows)) as Hin by (apply elem_of_keys; exists r; by split; [left|]). rewrite E in Hin. by apply elem_of_nil in Hin.
Qed.

Lemma final_groups_ok rows g : is_grouped rows g → final_groups prev_len agg_calls group_cols g = final_spec rows.
Proof.
  intros [Hg _]. unfold final_groups, final_spec. rewrite Hg. pose proof (spec_nil rows) as Hn.
  destruct (decide (spec rows = [] ∧ group_cols = [])); destruct (decide (rows = [] ∧ group_cols = [])); tauto.
Qed.

End groups.

(** ** The executor *)

Section executor.
Context {W : Type} (I : W → Prop) (fuel : nat) (prev : Exec W).
Context (select_terms : list SelectTerm) (agg_calls : list AggCall) (group_cols : list TabCol) (having_conds : list AggHavingCond) (group_metas : list ColMeta).
Context (Hfound : agg_found (cols prev) agg_calls group_cols group_metas).
Abbreviation is_grouped := (grouped (cols prev) agg_calls group_metas).

Lemma group_loop_ok steady rest : ∀ f rows g s, ahead I (is_end prev) (Next prev) (nextTuple prev) steady rest s → is_grouped rows g → (length rest < f)%nat →
  does I (group_loop prev agg_calls group_cols f g s) (λ x, is_grouped (rows ++ rest) x.1).
Proof.
  induction rest as [|r rest IH]; intros [|f] rows g s Ha Hg Hf; simpl in Hf; try lia; cbn [group_loop].
  - rewrite (ahead_end _ _ _ _ _ _ _ Ha). apply does_ret. by rewrite app_nil_r.
  - destruct Ha as [-> Hn]. eapply does_seq; [exact Hn|]. intros [o s1] (Eo & _ & Hk). cbn [fst snd] in *. subst o.
    destruct (add_record_ok _ _ _ _ Hfound rows g r Hg) as (g1 & Hadd & Hg1). eapply (does_seq _ _ _ (λ x, x = g1)); [rewrite Hadd; by apply does_ret|].
    intros ? ->. eapply does_seq; [exact Hk|]. intros s2 Ha2.
    eapply does_mono; [apply (IH f (rows ++ [r])); [done|done|lia]|]. intros x. by rewrite <-app_assoc.
Qed.

Lemma agg_implements steady rows out : implements I prev steady rows → (length rows < fuel)%nat → (length out < fuel)%nat →
  results (cols prev) select_terms agg_calls having_conds (final_spec (cols prev) (tupleLen prev) agg_calls group_cols group_metas rows) = Ok out →
  implements I (AggregateExecutor fuel prev select_terms agg_calls group_cols having_conds) true out.
Proof.
  intros Hi Hf Ho Hr. apply buffered_implements; [|apply (im_finish _ _ _ _ Hi)|done].
  intros s. unfold agg_fill. eapply does_seq; [apply (im_begin _ _ _ _ Hi)|]. intros p [Ha _]. eapply does_seq; [eapply (group_loop_ok _ _ _ []); [exact Ha|by split|done]|].
  intros [g p'] Hg. simpl in Hg. rewrite (final_groups_ok _ _ _ _ _ _ _ Hg), Hr. by apply does_bind, does_ret, does_ret.
Qed.
End executor.

(** ** Integer columns *)

Section ints.
Context (prev_cols : list ColMeta) (call : AggCall) (m : ColMeta).
Context (Hm : call_meta prev_cols call = Some m) (Ht : cm_type m = TYPE_INT).
Abbreviation a rows := (agg_over prev_cols call rows).

Definition int_at (r : record) : Z := int_of (field r (cm_offset m) 4).
Definition total (rows : list record) : Z := foldr Z.add 0 (int_at <$> rows).

Lemma agg_over_snoc rows r : a (rows ++ [r]) = step call (Some m) (a rows) r.
Proof. unfold agg_over. by rewrite foldl_snoc, Hm. Qed.

Lemma total_snoc rows r : total (rows ++ [r]) = total rows + int_at r.
Proof. unfold total. rewrite fmap_app, foldr_app. simpl. generalize (int_at <$> rows). intros l. induction l as [|x l IH]; simpl; lia. Qed.

Lemma agg_counts rows : row_count (a rows) = Z.of_nat (length rows) ∧ value_count (a rows) = Z.of_nat (length rows).
Proof.
  induction rows as [|r rows IH] using rev_ind; [done|]. rewrite agg_over_snoc, length_app. unfold step. destruct IH as [E1 E2].
  destruct (ac_type call); cbn [row_count value_count count_row add_value]; unfold add_value; rewrite ?Ht; cbn [row_count value_count count_row]; simpl; lia.
Qed.

Lemma int_at_range r : -2147483648 ≤ int_at r < 2147483648.
Proof.
  unfold int_at, int_of, dec_i32, wraps. change (2 ^ (32 - 1)) with 2147483648. change (2 ^ 32) with 4294967296.
  pose proof (Z.mod_pos_bound (le_combine (field r (cm_offset m) 4) + 2147483648) 4294967296). lia.
Qed.

Lemma total_bound rows : Z.abs (total rows) ≤ 2147483648 * Z.of_nat (length rows).
Proof. induction rows as [|r rows IH] using rev_ind; [done|]. rewrite total_snoc, length_app. pose proof (int_at_range r). simpl. lia. Qed.

Lemma agg_sum rows : ac_type call ≠ AGG_COUNT → Z.of_nat (length rows) ≤ 2 ^ 32 → sum (a rows) = ld_int (total rows).
Proof.
  intros Hc. induction rows as [|r rows IH] using rev_ind; [done|]. rewrite length_app, Nat2Z.inj_add. intros Hl. rewrite agg_over_snoc, total_snoc. simpl in Hl.
  assert (sum (step call (Some m) (a rows) r) = ld_add (sum (a rows)) (ld_of_Z (int_at r))) as ->.
  { unfold step. destruct (ac_type call); [done|..]; unfold add_value; by rewrite Ht. }
  pose proof (int_at_range r). pose proof (total_bound rows). rewrite IH, ld_of_Z_int, ld_add_int by (unfold fits; lia). done.
Qed.

(** The extreme value that a state keeps. *)
Lemma agg_extreme (le : Z → Z → Prop) rows : (∀ x y z, le x y → le y z → le x z) → (∀ x, le x x) →
  (∀ v w, replaces (ac_type call) true (bool_decide (w < v)) (bool_decide (v < w)) = true → le w v) →
  (∀ v w, replaces (ac_type call) true (bool_decide (w < v)) (bool_decide (v < w)) = false → le v w) → ac_type call ≠ AGG_COUNT → rows ≠ [] →
  has_value (a rows) = true ∧ int_val (a rows) ∈ int_at <$> rows ∧ Forall (λ z, le z (int_val (a rows))) (int_at <$> rows).
Proof.
  intros Htr Hrefl H1 H2 Hc. induction rows as [|r rows IH] using rev_ind; [done|]. intros _. rewrite agg_over_snoc, fmap_app.
  assert (has_value (step call (Some m) (a rows) r) = true ∧ int_val (step call (Some m) (a rows) r) =
    if replaces (ac_type call) (has_value (a rows)) (bool_decide (int_val (a rows) < int_at r)) (bool_decide (int_at r < int_val (a rows))) then int_at r else int_val (a rows)) as [-> ->].
  { unfold step. destruct (ac_type call); [done|..]; unfold add_value; by rewrite Ht. }
  split; [done|]. destruct rows as [|r0 rows].
  - simpl. split; [left|]. repeat constructor. done.
  - destruct IH as (Hv & Hin & Hall); [done|]. rewrite Hv. set (rs := r0 :: rows) in *. destruct (replaces _ _ _ _) eqn:Er.
    + split; [apply elem_of_app; right; left|]. apply Forall_app. split; [|by repeat constructor]. eapply Forall_impl; [exact Hall|]. intros z Hz. simpl in *.
      eapply Htr; [exact Hz|]. by apply H1.
    + split; [apply elem_of_app; by left|]. apply Forall_app. split; [done|]. constructor; [|constructor]. by apply H2.
Qed.
End ints.
End AggFacts.
