(* ===== verification/Mvcc.v ===== *)
(** * The transaction manager ([transaction/transaction_manager.{h,cpp}], [transaction/transaction.h])

    Multi-version concurrency control: the version directory that keeps the old versions of
    records for snapshot readers, the write conflict checks, the rw-dependency graph of the
    serializable transactions, garbage collection, and begin, commit and abort.

    The heap files and indexes are used at the level of [Recovery.Table].  The state and the
    lock set of a [Transaction] are in the lock manager's part of the state ([Lm.Txn]), which
    shares the transaction object with this one.  A range [for] over an [unordered_map] runs
    through [map_to_list], in an order that is not specified.

    The operations are those of one thread that is not interrupted.  Where they are steps of
    concurrent transactions each is atomic: a function that holds [mvcc_latch_] is, while
    [commit] and [abort] release it between their parts (the log record, the version
    directory, the undo of heap writes, the locks), which is not shown in the interleavings. *)

From stdpp Require Import pretty.
From S2P Require Import Prelude Disk RecordFile Log Recovery Conditions LockManager Watermark.

Module Mvcc.
Import RecFile Cond.

Inductive IsolationLevel := READ_UNCOMMITTED | REPEATABLE_READ | READ_COMMITTED | SNAPSHOT_ISOLATION | SERIALIZABLE.
#[global] Instance IsolationLevel_eq_dec : EqDecision IsolationLevel.
Proof. solve_decision. Defined.

Inductive WType := INSERT_TUPLE | DELETE_TUPLE | UPDATE_TUPLE.

Abbreviation bytes := (list byte).

Record WriteRecord := mk_WriteRecord {
  wtype_ : WType;
  wtab_name_ : bytes;
  wfd_ : Z;
  wrid_ : Rid;
  wrecord_ : bytes
}.

(** [MvccVersion]: an old version of a record. *)
Record MvccVersion := mk_MvccVersion {
  v_record : bytes;
  v_is_deleted : bool;
  v_commit_ts : Z;
  v_writer_txn : Z
}.

(** [MvccEntry].  The fields that describe versions come first; they are also what
    [restore_snapshot] keeps, a copy of the entry whose rollback fields are cleared. *)
Record VersionState := mk_VersionState {
  exists_ : bool;
  is_deleted : bool;
  commit_ts : Z;
  writer_txn : Z;
  last_writer_txn : Z;
  tab_name : bytes;
  rid : Rid;
  has_head_record : bool;
  head_record : bytes;
  undo_versions : list MvccVersion;
  rollback_record : bytes
}.

Record MvccEntry := mk_MvccEntry {
  vs : VersionState;
  rollback_delete_physical : bool;
  rollback_restore_physical : bool;
  had_entry_on_abort : bool;
  restore_snapshot : option VersionState
}.

Definition empty_versions (tab : bytes) (r : Rid) : VersionState :=
  mk_VersionState false false 0 INVALID_TXN_ID INVALID_TXN_ID tab r false [] [] [].
Definition plain_entry (v : VersionState) : MvccEntry := mk_MvccEntry v false false false None.

Record PredicateRead := mk_PredicateRead {
  pr_txn_id : Z;
  pr_tab_name : bytes;
  pr_cols : list ColMeta;
  pr_conds : list Condition;
  pr_record_keys : gset bytes
}.

(** [Transaction], without the state and lock set that the lock manager holds. *)
Record Transaction := mk_Transaction {
  isolation_level_ : IsolationLevel;
  mvcc_enabled_ : bool;
  prev_lsn_ : Z;
  start_ts_ : Z;
  read_ts_ : Z;
  txn_commit_ts_ : Z;
  write_set_ : list WriteRecord;
  mvcc_write_keys_ : gset bytes
}.

(** The version directory. *)
Record Versions := mk_Versions {
  mvcc_versions_ : gmap bytes MvccEntry;
  mvcc_table_keys_ : gmap bytes (gset bytes);
  mvcc_index_compensation_keys_ : gmap bytes (gset bytes);
  mvcc_entry_count_ : Z
}.

(** The state of the serializable transactions. *)
Record SerState := mk_SerState {
  serializable_reads_ : gmap Z (list PredicateRead);
  rw_edges_ : gset (Z * Z);
  rw_in_ : gmap Z (gset Z);
  rw_out_ : gmap Z (gset Z);
  ser_txn_start_ts_ : gmap Z Z;
  ser_txn_finish_ts_ : gmap Z Z
}.

(** The system the transaction manager works on: heap files with their descriptors, the
    catalogue, the lock manager and the log. *)
Record System := mk_System {
  fhs_ : gmap bytes Recovery.Table;
  fds_ : gmap bytes Z;
  tabs_ : gmap bytes TabMeta;
  locks : Lm.LockManager;
  log : Log.LogManager
}.

Record TransactionManager := mk_Tm {
  next_txn_id_ : Z;
  txns : gmap Z Transaction;
  last_commit_ts_ : Z;
  active_mvcc_txn_count_ : Z;
  gc_commit_counter_ : Z;
  running_txns_ : Wm.Watermark;
  physical_insert_owners_ : gmap (Z * Rid) Z;
  versions : Versions;
  ser : SerState;
  sys : System
}.

Definition set_txns x s := mk_Tm (next_txn_id_ s) x (last_commit_ts_ s) (active_mvcc_txn_count_ s)
  (gc_commit_counter_ s) (running_txns_ s) (physical_insert_owners_ s) (versions s) (ser s) (sys s).
Definition set_next_txn_id x s := mk_Tm x (txns s) (last_commit_ts_ s) (active_mvcc_txn_count_ s)
  (gc_commit_counter_ s) (running_txns_ s) (physical_insert_owners_ s) (versions s) (ser s) (sys s).
Definition set_last_commit_ts x s := mk_Tm (next_txn_id_ s) (txns s) x (active_mvcc_txn_count_ s)
  (gc_commit_counter_ s) (running_txns_ s) (physical_insert_owners_ s) (versions s) (ser s) (sys s).
Definition set_active x s := mk_Tm (next_txn_id_ s) (txns s) (last_commit_ts_ s) x
  (gc_commit_counter_ s) (running_txns_ s) (physical_insert_owners_ s) (versions s) (ser s) (sys s).
Definition set_gc_counter x s := mk_Tm (next_txn_id_ s) (txns s) (last_commit_ts_ s) (active_mvcc_txn_count_ s)
  x (running_txns_ s) (physical_insert_owners_ s) (versions s) (ser s) (sys s).
Definition set_running x s := mk_Tm (next_txn_id_ s) (txns s) (last_commit_ts_ s) (active_mvcc_txn_count_ s)
  (gc_commit_counter_ s) x (physical_insert_owners_ s) (versions s) (ser s) (sys s).
Definition set_owners x s := mk_Tm (next_txn_id_ s) (txns s) (last_commit_ts_ s) (active_mvcc_txn_count_ s)
  (gc_commit_counter_ s) (running_txns_ s) x (versions s) (ser s) (sys s).
Definition set_versions x s := mk_Tm (next_txn_id_ s) (txns s) (last_commit_ts_ s) (active_mvcc_txn_count_ s)
  (gc_commit_counter_ s) (running_txns_ s) (physical_insert_owners_ s) x (ser s) (sys s).
Definition set_ser x s := mk_Tm (next_txn_id_ s) (txns s) (last_commit_ts_ s) (active_mvcc_txn_count_ s)
  (gc_commit_counter_ s) (running_txns_ s) (physical_insert_owners_ s) (versions s) x (sys s).
Definition set_sys x s := mk_Tm (next_txn_id_ s) (txns s) (last_commit_ts_ s) (active_mvcc_txn_count_ s)
  (gc_commit_counter_ s) (running_txns_ s) (physical_insert_owners_ s) (versions s) (ser s) x.

(** A computation on a part of the state. *)
Definition on_versions {A} (m : M Versions A) : M TransactionManager A := λ s,
  let '(r, v) := m (versions s) in (r, set_versions v s).
Definition on_ser {A} (m : M SerState A) : M TransactionManager A := λ s,
  let '(r, v) := m (ser s) in (r, set_ser v s).
Definition on_locks {A} (m : M Lm.LockManager A) : M TransactionManager A := λ s,
  let '(r, l) := m (locks (sys s)) in
  (r, set_sys (mk_System (fhs_ (sys s)) (fds_ (sys s)) (tabs_ (sys s)) l (log (sys s))) s).
Definition on_log {A} (m : M Log.LogManager A) : M TransactionManager A := λ s,
  let '(r, l) := m (log (sys s)) in
  (r, set_sys (mk_System (fhs_ (sys s)) (fds_ (sys s)) (tabs_ (sys s)) (locks (sys s)) l) s).
Definition on_table {A} (tab : bytes) (m : M Recovery.Table A) : M TransactionManager A := λ s,
  let '(r, f) := Recovery.at_table tab m (fhs_ (sys s)) in
  (r, set_sys (mk_System f (fds_ (sys s)) (tabs_ (sys s)) (locks (sys s)) (log (sys s))) s).

Definition txn_of (t : Z) : M TransactionManager Transaction := λ s, deref (txns s !! t) s.
Definition put_txn (t : Z) (x : Transaction) : M TransactionManager unit := modify (λ s, set_txns (<[t := x]> (txns s)) s).

Definition set_prev_lsn (lsn : Z) (x : Transaction) : Transaction :=
  mk_Transaction (isolation_level_ x) (mvcc_enabled_ x) lsn (start_ts_ x) (read_ts_ x) (txn_commit_ts_ x)
    (write_set_ x) (mvcc_write_keys_ x).
Definition set_commit_ts (ts : Z) (x : Transaction) : Transaction :=
  mk_Transaction (isolation_level_ x) (mvcc_enabled_ x) (prev_lsn_ x) (start_ts_ x) (read_ts_ x) ts
    (write_set_ x) (mvcc_write_keys_ x).
Definition set_write_set (ws : list WriteRecord) (x : Transaction) : Transaction :=
  mk_Transaction (isolation_level_ x) (mvcc_enabled_ x) (prev_lsn_ x) (start_ts_ x) (read_ts_ x) (txn_commit_ts_ x)
    ws (mvcc_write_keys_ x).
Definition set_write_keys (ks : gset bytes) (x : Transaction) : Transaction :=
  mk_Transaction (isolation_level_ x) (mvcc_enabled_ x) (prev_lsn_ x) (start_ts_ x) (read_ts_ x) (txn_commit_ts_ x)
    (write_set_ x) ks.

(** [Transaction::append_write_record]. *)
Definition append_write_record (t : Z) (w : WriteRecord) : M TransactionManager unit :=
  x ← txn_of t; put_txn t (set_write_set (write_set_ x ++ [w]) x).

(** ** Keys *)

Definition to_string (z : Z) : bytes := String.list_byte_of_string (pretty z).
Definition hash_char : byte := Byte.x23.

Definition MvccKey (tab : bytes) (r : Rid) : bytes :=
  tab ++ [hash_char] ++ to_string (page_no r) ++ [hash_char] ++ to_string (slot_no r).

(** ** Visibility *)

Definition IsMvccTxn (x : Transaction) : bool := mvcc_enabled_ x.
Definition ShouldVersionWrites (x : Transaction) (s : TransactionManager) : bool :=
  mvcc_enabled_ x || bool_decide (0 < active_mvcc_txn_count_ s).
Definition HasMvccState (s : TransactionManager) : bool :=
  bool_decide (0 < active_mvcc_txn_count_ s) || bool_decide (0 < mvcc_entry_count_ (versions s)).

(** The loop over [undo_versions.rbegin() .. rend()]: the newest committed version with a
    commit timestamp up to [ts], as the record it has or [None] for a deleted one. *)
Fixpoint newest_committed (us : list MvccVersion) (ts : option Z) : option bytes :=
  match us with
  | [] => None
  | u :: us =>
      if bool_decide (v_writer_txn u = INVALID_TXN_ID) &&
         match ts with Some ts => bool_decide (v_commit_ts u ≤ ts) | None => true end
      then (if v_is_deleted u then None else Some (v_record u))
      else newest_committed us ts
  end.

Definition live (e : VersionState) (physical : bytes) : option bytes :=
  if negb (exists_ e) || is_deleted e then None else Some physical.

Definition VisibleRecordLocked (e : VersionState) (physical : bytes) (t : Z) (x : Transaction) : option bytes :=
  if negb (IsMvccTxn x) then
    if decide (writer_txn e = t) then live e physical
    else if decide (writer_txn e ≠ INVALID_TXN_ID) then newest_committed (reverse (undo_versions e)) None
    else live e physical
  else if decide (writer_txn e = t) then live e physical
  else if bool_decide (writer_txn e = INVALID_TXN_ID) && exists_ e && bool_decide (commit_ts e ≤ start_ts_ x) then
    (if is_deleted e then None else Some physical)
  else newest_committed (reverse (undo_versions e)) (Some (start_ts_ x)).

Definition GetVisibleRecord (tab : bytes) (r : Rid) (physical : bytes) (t : Z) : M TransactionManager (option bytes) :=
  x ← txn_of t;
  s ← get;
  if negb (IsMvccTxn x) && negb (HasMvccState s) then mret (Some physical)
  else match mvcc_versions_ (versions s) !! MvccKey tab r with
  | None => mret (Some physical)
  | Some e => mret (VisibleRecordLocked (vs e) physical t x)
  end.

Definition IsVisible (tab : bytes) (r : Rid) (physical : bytes) (t : Z) : M TransactionManager bool :=
  v ← GetVisibleRecord tab r physical t; mret (bool_decide (is_Some v)).

(** ** Owners of physical inserts *)

Definition MakePhysicalInsertKey (tab : bytes) (r : Rid) : M TransactionManager (Z * Rid) := λ s,
  match fds_ (sys s) !! tab with
  | Some fd => (Ok (fd, r), s)
  | None => (Err (TableNotFoundError (String.string_of_list_byte tab)), s)
  end.

Definition RegisterPhysicalInsert (fd : Z) (r : Rid) (t : Z) : M TransactionManager unit :=
  modify (λ s, set_owners (<[(fd, r) := t]> (physical_insert_owners_ s)) s).

Definition UnregisterPhysicalInsert_fd (fd : Z) (r : Rid) (t : Z) : M TransactionManager unit :=
  modify (λ s,
    if decide (physical_insert_owners_ s !! (fd, r) = Some t)
    then set_owners (delete (fd, r) (physical_insert_owners_ s)) s else s).
Definition UnregisterPhysicalInsert (tab : bytes) (r : Rid) (t : Z) : M TransactionManager unit :=
  k ← MakePhysicalInsertKey tab r; UnregisterPhysicalInsert_fd k.1 r t.

Definition OwnsPhysicalInsert (tab : bytes) (r : Rid) (t : Z) : M TransactionManager bool :=
  k ← MakePhysicalInsertKey tab r;
  s ← get; mret (bool_decide (physical_insert_owners_ s !! k = Some t)).

(** ** The version directory *)

Definition add_key (tab key : bytes) (m : gmap bytes (gset bytes)) : gmap bytes (gset bytes) :=
  <[tab := {[key]} ∪ default ∅ (m !! tab)]> m.
Definition erase_key (tab key : bytes) (m : gmap bytes (gset bytes)) : gmap bytes (gset bytes) :=
  match m !! tab with
  | None => m
  | Some ks => let ks' := ks ∖ {[key]} in if decide (ks' = ∅) then delete tab m else <[tab := ks']> m
  end.

Definition put_entry (key : bytes) (e : MvccEntry) (v : Versions) : Versions :=
  mk_Versions (<[key := e]> (mvcc_versions_ v)) (mvcc_table_keys_ v) (mvcc_index_compensation_keys_ v) (mvcc_entry_count_ v).

(** The end of an entry's life, in [GarbageCollection] and [abort]. *)
Definition erase_entry (tab key : bytes) (v : Versions) : Versions :=
  mk_Versions (delete key (mvcc_versions_ v)) (erase_key tab key (mvcc_table_keys_ v))
    (erase_key tab key (mvcc_index_compensation_keys_ v)) (mvcc_entry_count_ v - 1).

Definition EnsureMvccEntryLocked (tab : bytes) (r : Rid) (physical : option bytes) : M Versions MvccEntry := λ v,
  let key := MvccKey tab r in
  match mvcc_versions_ v !! key with
  | Some e => (Ok e, v)
  | None =>
      let e := plain_entry match physical with
        | Some p => mk_VersionState true false 0 INVALID_TXN_ID INVALID_TXN_ID tab r true p [] []
        | None => empty_versions tab r
        end in
      (Ok e, mk_Versions (<[key := e]> (mvcc_versions_ v)) (add_key tab key (mvcc_table_keys_ v))
               (mvcc_index_compensation_keys_ v) (mvcc_entry_count_ v + 1))
  end.

Definition add_compensation (tab : bytes) (r : Rid) (v : Versions) : Versions :=
  mk_Versions (mvcc_versions_ v) (mvcc_table_keys_ v)
    (add_key tab (MvccKey tab r) (mvcc_index_compensation_keys_ v)) (mvcc_entry_count_ v).

(** The conditions under which a snapshot transaction may not write. *)
Definition write_conflict (e : VersionState) (t : Z) (x : Transaction) : bool :=
  (bool_decide (writer_txn e ≠ INVALID_TXN_ID) && bool_decide (writer_txn e ≠ t)) ||
  (bool_decide (writer_txn e ≠ t) && bool_decide (start_ts_ x < commit_ts e)).

Definition CheckMvccWriteConflict (tab : bytes) (r : Rid) (t : Z) : M TransactionManager unit :=
  x ← txn_of t;
  s ← get;
  if negb (IsMvccTxn x) then mret tt
  else match mvcc_versions_ (versions s) !! MvccKey tab r with
  | None => mret tt
  | Some e => if write_conflict (vs e) t x then throw (TransactionAbortException t MVCC_CONFLICT) else mret tt
  end.

(** The entry after a transaction's first write to it. *)
Definition first_write (had_entry inserted_record : bool) (old : bytes) (e : MvccEntry) : MvccEntry :=
  let v := vs e in
  let v' := if inserted_record then v else
    mk_VersionState (exists_ v) (is_deleted v) (commit_ts v) (writer_txn v) (last_writer_txn v) (tab_name v) (rid v)
      (has_head_record v) (head_record v)
      (undo_versions v ++ [mk_MvccVersion old (is_deleted v) (commit_ts v) (writer_txn v)]) old in
  mk_MvccEntry v' inserted_record (negb inserted_record) had_entry (if had_entry then Some v else None).

Definition PrepareWriteLocked (tab : bytes) (r : Rid) (old : bytes) (t : Z) (inserted_record : bool) : M TransactionManager unit :=
  s ← get;
  let key := MvccKey tab r in
  let had_entry := bool_decide (is_Some (mvcc_versions_ (versions s) !! key)) in
  e ← on_versions (EnsureMvccEntryLocked tab r (if inserted_record then None else Some old));
  x ← txn_of t;
  if IsMvccTxn x && write_conflict (vs e) t x then throw (TransactionAbortException t MVCC_CONFLICT)
  else if decide (key ∈ mvcc_write_keys_ x) then mret tt
  else
    put_txn t (set_write_keys ({[key]} ∪ mvcc_write_keys_ x) x);;
    on_versions (modify (put_entry key (first_write had_entry inserted_record old e))).

(** The new head that [MvccInsert], [MvccUpdate] and [MvccDelete] set. *)
Definition new_head (deleted : bool) (rec : bytes) (t : Z) (e : MvccEntry) : MvccEntry :=
  let v := vs e in
  mk_MvccEntry
    (mk_VersionState true deleted INVALID_TS t t (tab_name v) (rid v) true rec (undo_versions v) (rollback_record v))
    (rollback_delete_physical e) (rollback_restore_physical e) (had_entry_on_abort e) (restore_snapshot e).

(** [auto &entry = mvcc_versions_[key]], which creates a missing entry. *)
Definition set_head (tab : bytes) (r : Rid) (deleted : bool) (rec : bytes) (t : Z) : M TransactionManager unit :=
  on_versions (modify (λ v,
    let key := MvccKey tab r in
    let e := default (plain_entry (empty_versions [] (mk_Rid RM_NO_PAGE RM_NO_PAGE))) (mvcc_versions_ v !! key) in
    put_entry key (new_head deleted rec t e) v)).

(** ** Serializable transactions *)

Fixpoint mfor {S A} (f : A → M S unit) (l : list A) : M S unit :=
  match l with [] => mret tt | a :: l => f a;; mfor f l end.

Definition HasDangerousStructureLocked (pivot : Z) (st : SerState) : bool :=
  match rw_in_ st !! pivot, rw_out_ st !! pivot with
  | Some ins, Some outs =>
      existsb (λ tin, existsb (λ tout,
        if decide (tin = tout) then true
        else match ser_txn_finish_ts_ st !! tout with
        | None => false
        | Some fout =>
            match ser_txn_finish_ts_ st !! tin with
            | None => true
            | Some fin => bool_decide (fout < fin)
            end
        end) (elements outs)) (elements ins)
  | _, _ => false
  end.

Definition add_to_set (k v : Z) (m : gmap Z (gset Z)) : gmap Z (gset Z) := <[k := {[v]} ∪ default ∅ (m !! k)]> m.

Definition AddRwEdgeLocked (reader writer current : Z) : M SerState unit := λ st,
  if decide (reader = INVALID_TXN_ID ∨ writer = INVALID_TXN_ID ∨ reader = writer) then (Ok tt, st)
  else if decide ((reader, writer) ∈ rw_edges_ st) then (Ok tt, st)
  else
    let st' := mk_SerState (serializable_reads_ st) ({[(reader, writer)]} ∪ rw_edges_ st)
      (add_to_set writer reader (rw_in_ st)) (add_to_set reader writer (rw_out_ st))
      (ser_txn_start_ts_ st) (ser_txn_finish_ts_ st) in
    if HasDangerousStructureLocked reader st' || HasDangerousStructureLocked writer st'
    then (Err (TransactionAbortException current SSI_CONFLICT), st')
    else (Ok tt, st').

Definition RememberSerializableTxnLocked (t : Z) (x : Transaction) : M SerState unit := modify (λ st,
  if decide (isolation_level_ x = SERIALIZABLE ∧ ser_txn_start_ts_ st !! t = None) then
    mk_SerState (serializable_reads_ st) (rw_edges_ st) (rw_in_ st) (rw_out_ st)
      (<[t := start_ts_ x]> (ser_txn_start_ts_ st)) (ser_txn_finish_ts_ st)
  else st).

(** Does a write from [old] to [new] change what [read] saw? *)
Definition read_affected (tab key : bytes) (old new : option bytes) (read : PredicateRead) : bool :=
  bool_decide (pr_tab_name read = tab) &&
  (bool_decide (key ∈ pr_record_keys read) ||
   match old with Some o => eval_txn_conds o (pr_cols read) (pr_conds read) | None => false end ||
   match new with Some n => eval_txn_conds n (pr_cols read) (pr_conds read) | None => false end).

Definition CheckSerializableWriteLocked (tab : bytes) (r : Rid) (old new : option bytes) (t : Z) : M TransactionManager unit :=
  x ← txn_of t;
  if negb (IsMvccTxn x) || negb (bool_decide (isolation_level_ x = SERIALIZABLE)) then mret tt
  else
    on_ser (
      RememberSerializableTxnLocked t x;;
      st ← get;
      mfor (λ '(reader, reads),
        st ← get;
        if decide (reader = t) then mret tt
        else if match ser_txn_finish_ts_ st !! reader with Some f => bool_decide (f ≤ start_ts_ x) | None => false end
        then mret tt
        else mfor (λ read,
          if read_affected tab (MvccKey tab r) old new read then AddRwEdgeLocked reader t t else mret tt) reads)
        (map_to_list (serializable_reads_ st))).

(** The dependency that a read has on the writer of an entry it does not see. *)
Definition reads_around (key : bytes) (e : VersionState) (read : PredicateRead) (t : Z) (x : Transaction) : option Z :=
  let writer := if decide (writer_txn e ≠ INVALID_TXN_ID) then writer_txn e else last_writer_txn e in
  let invisible_active := bool_decide (writer_txn e ≠ INVALID_TXN_ID) && bool_decide (writer_txn e ≠ t) in
  let invisible_committed := bool_decide (writer_txn e = INVALID_TXN_ID) && bool_decide (start_ts_ x < commit_ts e) in
  let key_returned := bool_decide (key ∈ pr_record_keys read) in
  let current_matches := exists_ e && negb (is_deleted e) && eval_txn_conds (head_record e) (pr_cols read) (pr_conds read) in
  let old_matches :=
    match newest_committed (reverse (undo_versions e)) (Some (start_ts_ x)) with
    | Some o => eval_txn_conds o (pr_cols read) (pr_conds read)
    | None => false
    end in
  if negb (bool_decide (tab_name e = pr_tab_name read)) || negb (has_head_record e) then None
  else if bool_decide (writer = INVALID_TXN_ID) || bool_decide (writer = t) then None
  else if negb invisible_active && negb invisible_committed then None
  else if key_returned || current_matches || old_matches then Some writer else None.

Definition RegisterSerializableRead (tab : bytes) (cols : list ColMeta) (conds : list Condition) (rids : list Rid) (t : Z)
    : M TransactionManager unit :=
  x ← txn_of t;
  if negb (IsMvccTxn x) || negb (bool_decide (isolation_level_ x = SERIALIZABLE)) then mret tt
  else
    s ← get;
    let read := mk_PredicateRead t tab cols conds (list_to_set (MvccKey tab <$> rids)) in
    on_ser (
      RememberSerializableTxnLocked t x;;
      mfor (λ '(key, e),
        match reads_around key (vs e) read t x with Some w => AddRwEdgeLocked t w t | None => mret tt end)
        (map_to_list (mvcc_versions_ (versions s)));;
      modify (λ st, mk_SerState (<[t := default [] (serializable_reads_ st !! t) ++ [read]]> (serializable_reads_ st))
        (rw_edges_ st) (rw_in_ st) (rw_out_ st) (ser_txn_start_ts_ st) (ser_txn_finish_ts_ st))).

(** A transaction leaves the graph. *)
Definition forget_txn (t : Z) (st : SerState) : SerState :=
  mk_SerState (delete t (serializable_reads_ st))
    (filter (λ e, e.1 ≠ t ∧ e.2 ≠ t) (rw_edges_ st))
    ((λ ts : gset Z, ts ∖ {[t]}) <$> delete t (rw_in_ st))
    ((λ ts : gset Z, ts ∖ {[t]}) <$> delete t (rw_out_ st))
    (delete t (ser_txn_start_ts_ st)) (delete t (ser_txn_finish_ts_ st)).

Definition CleanupSerializableStateLocked : M TransactionManager unit := λ s,
  let w := Wm.GetWatermark (running_txns_ s) in
  let removable := fst <$> filter (λ p, p.2 ≤ w) (map_to_list (ser_txn_finish_ts_ (ser s))) in
  (Ok tt, set_ser (foldl (λ st t, forget_txn t st) (ser s) removable) s).

Definition ClearTxnStateLocked (t : Z) : M TransactionManager unit := on_ser (modify (forget_txn t)).

(** ** Writes *)

Definition get_table (tab : bytes) : M TransactionManager TabMeta := λ s,
  match tabs_ (sys s) !! tab with
  | Some m => (Ok m, s)
  | None => (Err (TableNotFoundError (String.string_of_list_byte tab)), s)
  end.

Definition MvccInsertLocked (tab : bytes) (r : Rid) (new : bytes) (t : Z) : M TransactionManager unit :=
  CheckSerializableWriteLocked tab r None (Some new) t;;
  PrepareWriteLocked tab r new t true;;
  set_head tab r false new t.

Definition versioned (t : Z) (m : M TransactionManager unit) : M TransactionManager unit :=
  x ← txn_of t; s ← get; if ShouldVersionWrites x s then m else mret tt.

Definition MvccInsert (tab : bytes) (r : Rid) (new : bytes) (t : Z) : M TransactionManager unit :=
  versioned t (MvccInsertLocked tab r new t).

Definition MvccInsertWithPhysical (tab new : bytes) (t : Z) (insert_fn : M TransactionManager Rid)
    (rollback_fn : Rid → M TransactionManager unit) : M TransactionManager Rid :=
  x ← txn_of t;
  s ← get;
  if negb (ShouldVersionWrites x s) then insert_fn
  else
    r ← insert_fn;
    try_catch (MvccInsertLocked tab r new t) (λ e, rollback_fn r;; throw e);;
    mret r.

Definition MvccUpdate (tab : bytes) (r : Rid) (old new : bytes) (t : Z) : M TransactionManager unit :=
  versioned t (
    CheckSerializableWriteLocked tab r (Some old) (Some new) t;;
    PrepareWriteLocked tab r old t false;;
    set_head tab r false new t;;
    m ← get_table tab;
    if index_keys_changed m old new then on_versions (modify (add_compensation tab r)) else mret tt).

Definition MvccDelete (tab : bytes) (r : Rid) (old : bytes) (t : Z) : M TransactionManager unit :=
  versioned t (
    CheckSerializableWriteLocked tab r (Some old) None t;;
    PrepareWriteLocked tab r old t false;;
    set_head tab r true old t;;
    on_versions (modify (add_compensation tab r))).

(** ** Unique keys *)

Definition bytes_of_string (s : string) : bytes := String.list_byte_of_string s.

Definition BuildMvccConflictKeys (tab : TabMeta) (rec : bytes) (include_fallback : bool) : list bytes :=
  let keys := (λ ix, bytes_of_string "idx:" ++ concat ((λ c, cm_name c ++ bytes_of_string ",") <$> im_cols ix)
                     ++ [Byte.x00] ++ make_index_key rec ix) <$> tm_indexes tab in
  match keys, include_fallback, tm_cols tab with
  | [], true, c :: _ => [bytes_of_string "fallback:" ++ cm_name c ++ [Byte.x00] ++ field rec (cm_offset c) (cm_len c)]
  | _, _, _ => keys
  end.

Definition RecordsConflictByLogicalKey (tab : TabMeta) (l r : bytes) (include_fallback : bool) : bool :=
  existsb (λ lk, existsb (λ rk, bool_decide (lk = rk)) (BuildMvccConflictKeys tab r include_fallback))
    (BuildMvccConflictKeys tab l include_fallback).

Definition unique_conflict (tab : TabMeta) (new : bytes) (self : option Rid) (t : Z) (x : Transaction) (e : VersionState) : bool :=
  let fallback := bool_decide (self = None) in
  if bool_decide (self = Some (rid e)) then false
  else if negb (has_head_record e) || bool_decide (last_writer_txn e = t) then false
  else if negb (bool_decide (writer_txn e ≠ INVALID_TXN_ID) || bool_decide (start_ts_ x < commit_ts e)) then false
  else if negb (exists_ e && negb (is_deleted e) || existsb (λ u, negb (v_is_deleted u)) (undo_versions e)) then false
  else (exists_ e && negb (is_deleted e) && RecordsConflictByLogicalKey tab new (head_record e) fallback) ||
       existsb (λ u, negb (v_is_deleted u) && RecordsConflictByLogicalKey tab new (v_record u) fallback) (undo_versions e).

Definition CheckMvccUniqueConflict (tab new : bytes) (t : Z) (self : option Rid) : M TransactionManager unit :=
  x ← txn_of t;
  if negb (IsMvccTxn x) then mret tt
  else
    m ← get_table tab;
    s ← get;
    let v := versions s in
    if existsb (λ key, match mvcc_versions_ v !! key with
                       | Some e => unique_conflict m new self t x (vs e) | None => false end)
               (elements (default ∅ (mvcc_table_keys_ v !! tab)))
    then throw (TransactionAbortException t MVCC_CONFLICT) else mret tt.

Definition CheckMvccInsertConflict (tab new : bytes) (t : Z) : M TransactionManager unit :=
  CheckMvccUniqueConflict tab new t None.

(** Records that an index scan misses because their index entries changed. *)
Definition CollectVisibleVersionRecords (tab : bytes) (cols : list ColMeta) (conds : list Condition) (seen : gset Rid) (t : Z)
    : M TransactionManager (list (Rid * bytes)) :=
  x ← txn_of t;
  s ← get;
  let v := versions s in
  if negb (IsMvccTxn x) then mret []
  else mret (omap (λ key,
    match mvcc_versions_ v !! key with
    | None => None
    | Some e =>
        if negb (has_head_record (vs e)) || bool_decide (rid (vs e) ∈ seen) then None
        else match VisibleRecordLocked (vs e) (head_record (vs e)) t x with
        | Some o => if eval_txn_conds o cols conds then Some (rid (vs e), o) else None
        | None => None
        end
    end) (elements (default ∅ (mvcc_index_compensation_keys_ v !! tab)))).

(** ** Garbage collection *)

(** The last committed version with a timestamp up to the watermark. *)
Definition keep_idx (us : list MvccVersion) (w : Z) : option nat :=
  (λ p, (length us - 1 - p.1)%nat) <$>
    list_find (λ u, v_writer_txn u = INVALID_TXN_ID ∧ v_commit_ts u ≤ w) (reverse us).

Definition set_undo (us : list MvccVersion) (v : VersionState) : VersionState :=
  mk_VersionState (exists_ v) (is_deleted v) (commit_ts v) (writer_txn v) (last_writer_txn v) (tab_name v) (rid v)
    (has_head_record v) (head_record v) us (rollback_record v).

(** What collection leaves of an entry, and whether it removes it. *)
Definition gc_versions (w : Z) (v : VersionState) : VersionState * bool :=
  if decide (writer_txn v ≠ INVALID_TXN_ID) then (v, false)
  else
    let us := undo_versions v in
    let us1 := match keep_idx us w with Some i => drop i us | None => us end in
    let us2 := if decide (commit_ts v ≤ w) then [] else us1 in
    if exists_ v && is_deleted v && bool_decide (commit_ts v ≤ w) then (set_undo [] v, true)
    else (set_undo us2 v, exists_ v && negb (is_deleted v) && bool_decide (commit_ts v ≤ w) && bool_decide (us2 = [])).

Definition gc_entry (w : Z) (e : MvccEntry) : MvccEntry :=
  mk_MvccEntry (gc_versions w (vs e)).1 (rollback_delete_physical e) (rollback_restore_physical e)
    (had_entry_on_abort e) (restore_snapshot e).

(** The record of a deleted entry leaves its heap file; errors are ignored. *)
Definition remove_physical (v : VersionState) : M TransactionManager unit := λ s,
  if negb (exists_ v && is_deleted v) then (Ok tt, s)
  else match fhs_ (sys s) !! tab_name v with
  | None => (Ok tt, s)
  | Some tb =>
      if Recovery.is_record (rid v) tb
      then try_catch (on_table (tab_name v) (Recovery.delete_record (rid v))) (λ _, mret tt) s
      else (Ok tt, s)
  end.

Definition collect (key : bytes) : M TransactionManager unit :=
  s ← get;
  match mvcc_versions_ (versions s) !! key with
  | None => mret tt
  | Some e =>
      remove_physical (vs e);;
      on_versions (modify (erase_entry (tab_name (vs e)) key))
  end.

Definition GarbageCollection : M TransactionManager unit :=
  s ← get;
  let w := Wm.GetWatermark (running_txns_ s) in
  let vers := mvcc_versions_ (versions s) in
  let removable := fst <$> filter (λ p, (gc_versions w (vs p.2)).2 = true) (map_to_list vers) in
  on_versions (modify (λ v, mk_Versions (gc_entry w <$> vers) (mvcc_table_keys_ v) (mvcc_index_compensation_keys_ v) (mvcc_entry_count_ v)));;
  mfor collect removable;;
  CleanupSerializableStateLocked.

(** ** Begin, commit and abort *)

Definition is_mvcc_level (iso : IsolationLevel) : bool :=
  bool_decide (iso = SNAPSHOT_ISOLATION ∨ iso = SERIALIZABLE).

(** [begin], in two steps: the transaction takes its snapshot timestamp, and then registers
    with the watermark; nothing protects the time between them. *)
Definition begin_snapshot (iso : IsolationLevel) : M TransactionManager Z := λ s,
  let t := next_txn_id_ s in
  let ts := if is_mvcc_level iso then last_commit_ts_ s else 0 in
  let x := mk_Transaction iso (is_mvcc_level iso) INVALID_LSN ts ts INVALID_TS [] ∅ in
  let l := locks (sys s) in
  let l' := Lm.mk_LockManager (Lm.lock_table_shards_ l) (<[t := Lm.mk_Txn Lm.GROWING ∅]> (Lm.txns l)) in
  (Ok t, set_sys (mk_System (fhs_ (sys s)) (fds_ (sys s)) (tabs_ (sys s)) l' (log (sys s)))
           (set_txns (<[t := x]> (txns s)) (set_next_txn_id (t + 1) s))).

Definition begin_register (t : Z) : M TransactionManager unit :=
  x ← txn_of t;
  if mvcc_enabled_ x then
    modify (λ s, set_running (Wm.AddTxn (read_ts_ x) (running_txns_ s)) s);;
    modify (λ s, set_active (active_mvcc_txn_count_ s + 1) s)
  else mret tt.

Definition begin_txn (iso : IsolationLevel) : M TransactionManager Z :=
  t ← begin_snapshot iso; begin_register t;; mret t.

Section with_system.
Context (std_hash : Z → Z) (os_fd : gmap Z string → Z).

Definition set_txn_state (t : Z) (st : Lm.TransactionState) : M TransactionManager unit :=
  on_locks (x ← Lm.txn_of t; modify (Lm.put_txn t (Lm.mk_Txn st (Lm.lock_set_ x)))).

Definition release_locks (t : Z) : M TransactionManager unit :=
  on_locks (
    x ← Lm.txn_of t;
    mfor (λ lid, Lm.unlock std_hash t lid;; mret tt) (elements (Lm.lock_set_ x));;
    x ← Lm.txn_of t;
    modify (Lm.put_txn t (Lm.mk_Txn (Lm.state_ x) ∅))).

(** The log record that ends a transaction, written and flushed. *)
Definition log_end (t : Z) (r : Z → Log.LogRecord) : M TransactionManager unit :=
  x ← txn_of t;
  lsn ← on_log (Log.add_log_to_buffer os_fd (r (prev_lsn_ x)));
  put_txn t (set_prev_lsn lsn x);;
  on_log (Log.flush_log_to_disk os_fd lsn).

(** The versions a transaction wrote get its commit timestamp. *)
Definition commit_entry (t ts : Z) (e : MvccEntry) : MvccEntry :=
  let v := vs e in
  if decide (writer_txn v = t) then
    mk_MvccEntry (mk_VersionState (exists_ v) (is_deleted v) ts INVALID_TXN_ID (last_writer_txn v) (tab_name v) (rid v)
      (has_head_record v) (head_record v) (undo_versions v) (rollback_record v)) false false false None
  else e.

Definition commit_versions (t ts : Z) (keys : gset bytes) (v : Versions) : Versions :=
  mk_Versions (map_imap (λ k e, Some (if decide (k ∈ keys) then commit_entry t ts e else e)) (mvcc_versions_ v))
    (mvcc_table_keys_ v) (mvcc_index_compensation_keys_ v) (mvcc_entry_count_ v).

(** Under the MVCC latch: the commit timestamp, the versions that get it, and the clock. *)
Definition publish (t : Z) : M TransactionManager Z :=
  s ← get;
  let ts := last_commit_ts_ s + 1 in
  x ← txn_of t;
  put_txn t (set_commit_ts ts x);;
  on_versions (modify (commit_versions t ts (mvcc_write_keys_ x)));;
  on_ser (modify (λ st,
    if decide (isolation_level_ x = SERIALIZABLE) then
      mk_SerState (serializable_reads_ st) (rw_edges_ st) (rw_in_ st) (rw_out_ st)
        (ser_txn_start_ts_ st) (<[t := ts]> (ser_txn_finish_ts_ st))
    else st));;
  modify (set_last_commit_ts ts);;
  mret ts.

(** A snapshot transaction gives its place in the watermark back. *)
Definition leave_snapshots (x : Transaction) : M TransactionManager unit := modify (λ s,
  if mvcc_enabled_ x then
    set_active (active_mvcc_txn_count_ s - 1) (set_running (Wm.RemoveTxn (read_ts_ x) (running_txns_ s)) s)
  else s).

(** Every 1024th commit collects garbage. *)
Definition gc_tick : M TransactionManager unit :=
  s ← get;
  modify (set_gc_counter (gc_commit_counter_ s + 1));;
  if decide (Z.land (gc_commit_counter_ s) 1023 = 1023) then GarbageCollection else mret tt.

Definition commit_mvcc (t : Z) : M TransactionManager unit :=
  x ← txn_of t;
  ts ← publish t;
  modify (λ s, set_running (Wm.UpdateCommitTs ts (running_txns_ s)) s);;
  leave_snapshots x;;
  CleanupSerializableStateLocked;;
  gc_tick.

Definition unregister_write (t : Z) (w : WriteRecord) : M TransactionManager unit :=
  match wtype_ w with
  | INSERT_TUPLE =>
      if decide (0 ≤ wfd_ w) then UnregisterPhysicalInsert_fd (wfd_ w) (wrid_ w) t
      else UnregisterPhysicalInsert (wtab_name_ w) (wrid_ w) t
  | _ => mret tt
  end.

(** The code releases [mvcc_latch_] between the parts of [commit] and [abort]; here each is one
    step. *)
Definition commit (t : Z) : M TransactionManager unit :=
  x ← txn_of t;
  (if decide (write_set_ x ≠ [] ∨ mvcc_write_keys_ x ≠ ∅) then log_end t (Log.CommitLogRecord t) else mret tt);;
  (if decide (mvcc_enabled_ x = true ∨ mvcc_write_keys_ x ≠ ∅) then commit_mvcc t else mret tt);;
  mfor (unregister_write t) (reverse (write_set_ x));;
  x ← txn_of t;
  put_txn t (set_write_set [] x);;
  release_locks t;;
  set_txn_state t Lm.COMMITTED.

Definition fd_of (tab : bytes) : M TransactionManager Z := λ s, deref (fds_ (sys s) !! tab) s.

Definition table_is_record (tab : bytes) (r : Rid) : M TransactionManager bool :=
  on_table tab (tb ← get; mret (Recovery.is_record r tb)).

(** The heap and index changes that take an MVCC write back. *)
Definition rollback_physical (tab : bytes) (r : Rid) (e : MvccEntry) (t : Z) : M TransactionManager unit :=
  if rollback_delete_physical e then
    b ← table_is_record tab r;
    if (b : bool) then
      on_table tab (rec ← Recovery.get_record r; Recovery.delete_indexes rec;; Recovery.delete_record r);;
      fd ← fd_of tab;
      on_locks (Lm.unlock std_hash t (Lm.record_lock fd r));;
      mret tt
    else mret tt
  else if rollback_restore_physical e then
    let restore_deleted := match restore_snapshot e with Some v => is_deleted v | None => false end in
    b ← table_is_record tab r;
    (if (b : bool) then
       on_table tab (rec ← Recovery.get_record r; Recovery.delete_indexes rec;;
                     Recovery.update_record r (rollback_record (vs e)))
     else on_table tab (Recovery.insert_record_at r (rollback_record (vs e))));;
    (if restore_deleted then mret tt else on_table tab (Recovery.insert_indexes (rollback_record (vs e)) r))
  else mret tt.

(** The version entry as it was before the transaction's first write. *)
Definition restore_entry (tab key : bytes) (e : MvccEntry) (v : Versions) : Versions :=
  match had_entry_on_abort e, restore_snapshot e with
  | true, Some old => put_entry key (plain_entry old) v
  | _, _ => erase_entry tab key v
  end.

Definition unregister_insert (t : Z) (w : WriteRecord) : M TransactionManager unit :=
  match wtype_ w with INSERT_TUPLE => UnregisterPhysicalInsert (wtab_name_ w) (wrid_ w) t | _ => mret tt end.

Fixpoint rollback_writes (t : Z) (processed : gset bytes) (ws : list WriteRecord) : M TransactionManager unit :=
  match ws with
  | [] => mret tt
  | w :: ws =>
      let tab := wtab_name_ w in
      let key := MvccKey tab (wrid_ w) in
      get_table tab;;
      on_table tab (mret tt);;
      if decide (key ∈ processed) then unregister_insert t w;; rollback_writes t processed ws
      else
        s ← get;
        (match mvcc_versions_ (versions s) !! key with
         | Some e =>
             if decide (writer_txn (vs e) = t) then
               rollback_physical tab (wrid_ w) e t;;
               on_versions (modify (restore_entry tab key e))
             else mret tt
         | None => mret tt
         end);;
        unregister_insert t w;;
        rollback_writes t ({[key]} ∪ processed) ws
  end.

Definition abort_mvcc (t : Z) : M TransactionManager unit :=
  x ← txn_of t;
  put_txn t (set_write_set [] x);;
  rollback_writes t ∅ (reverse (write_set_ x));;
  ClearTxnStateLocked t;;
  leave_snapshots x;;
  CleanupSerializableStateLocked;;
  release_locks t;;
  set_txn_state t Lm.ABORTED;;
  if decide (write_set_ x ≠ [] ∨ mvcc_write_keys_ x ≠ ∅) then log_end t (Log.AbortLogRecord t) else mret tt.

(** The changes of a transaction without versions, taken back one by one. *)
Definition rollback_write (t : Z) (w : WriteRecord) : M TransactionManager unit :=
  let tab := wtab_name_ w in
  let r := wrid_ w in
  get_table tab;;
  on_table tab (mret tt);;
  match wtype_ w with
  | INSERT_TUPLE =>
      b ← OwnsPhysicalInsert tab r t;
      (if (b : bool) then
         on_table tab (rec ← Recovery.get_record r; Recovery.delete_indexes rec;; Recovery.delete_record r);;
         fd ← fd_of tab;
         on_locks (Lm.unlock std_hash t (Lm.record_lock fd r));;
         mret tt
       else mret tt);;
      UnregisterPhysicalInsert tab r t
  | DELETE_TUPLE =>
      on_table tab (Recovery.insert_record_at r (wrecord_ w);; Recovery.insert_indexes (wrecord_ w) r)
  | UPDATE_TUPLE =>
      on_table tab (rec ← Recovery.get_record r; Recovery.delete_indexes rec;;
                    Recovery.update_record r (wrecord_ w);; Recovery.insert_indexes (wrecord_ w) r)
  end.

Definition abort_plain (t : Z) : M TransactionManager unit :=
  x ← txn_of t;
  put_txn t (set_write_set [] x);;
  mfor (rollback_write t) (reverse (write_set_ x));;
  release_locks t;;
  set_txn_state t Lm.ABORTED;;
  if decide (write_set_ x ≠ []) then log_end t (Log.AbortLogRecord t) else mret tt.

Definition abort (t : Z) : M TransactionManager unit :=
  x ← txn_of t;
  if decide (mvcc_enabled_ x = true ∨ mvcc_write_keys_ x ≠ ∅) then abort_mvcc t else abort_plain t.
End with_system.
End Mvcc.
