(* ===== verification/MvccFacts.v ===== *)
(** * Versions and snapshots

    Lemmas on single version entries: what a snapshot transaction reads from an entry does
    not change when another transaction writes it, commits, or takes its write back, nor
    when garbage collection prunes it below the snapshot.  And the effect of the operations
    of the transaction manager on the version directory. *)

From stdpp Require Import pretty.
From S2P Require Import Prelude RecordFile Log Recovery Conditions LockManager Watermark Mvcc.

Module MvccFacts.
Import RecFile Cond Mvcc.

(** ** Keys of records *)

Lemma app_last_inj {A} (c : A) (a a' b b' : list A) :
  c ∉ b → c ∉ b' → a ++ c :: b = a' ++ c :: b' → a = a' ∧ b = b'.
Proof.
  intros Hb Hb' E. apply app_eq_inv in E as [(k & H1 & H2)|(k & H1 & H2)]; destruct k as [|x k]; simplify_eq/=;
    try (by rewrite ?app_nil_r; auto); exfalso; set_solver.
Qed.

Lemma pretty_N_go_digits n s : (∀ c, c ∈ String.list_byte_of_string s → c ≠ hash_char) →
  ∀ c, c ∈ String.list_byte_of_string (pretty_N_go n s) → c ≠ hash_char.
Proof.
  revert s. induction (N.lt_wf_0 n) as [n _ IH]. intros s Hs.
  destruct (decide (n = 0)%N) as [->|Hn]; [by rewrite pretty_N_go_0|].
  rewrite pretty_N_go_step by lia. apply IH; [apply N.div_lt; lia|].
  intros c. change (String.list_byte_of_string (String ?a s))
    with (Ascii.byte_of_ascii a :: String.list_byte_of_string s).
  rewrite elem_of_cons. intros [->|Hc]; [|by apply Hs].
  unfold pretty_N_char. destruct (n `mod` 10)%N as [|p]; [done|]. by repeat (destruct p as [p|p|]; try done).
Qed.

Lemma to_string_digits z : hash_char ∉ to_string z.
Proof.
  intros Hin. unfold to_string, pretty, pretty_Z in Hin.
  assert (∀ n c, c ∈ String.list_byte_of_string (pretty (A:=N) n) → c ≠ hash_char) as HN.
  { intros n c. unfold pretty, pretty_N. destruct (decide (n = 0)%N).
    - change (String.list_byte_of_string "0") with [Byte.x30]. rewrite list_elem_of_singleton. by intros ->.
    - apply pretty_N_go_digits. intros ? []%elem_of_nil. }
  destruct z as [|p|p].
  - change (String.list_byte_of_string "0") with [Byte.x30] in Hin. by apply list_elem_of_singleton in Hin.
  - by eapply (HN (Npos p)).
  - change (String.list_byte_of_string ("-" +:+ ?s)) with (Byte.x2d :: String.list_byte_of_string s) in Hin.
    apply elem_of_cons in Hin as [?|Hin]; [done|]. by eapply (HN (Npos p)).
Qed.

Lemma list_byte_inj s1 s2 : String.list_byte_of_string s1 = String.list_byte_of_string s2 → s1 = s2.
Proof.
  intros H. rewrite <- (String.string_of_list_byte_of_string s1), <- (String.string_of_list_byte_of_string s2).
  by rewrite H.
Qed.

Lemma to_string_inj : Inj (=) (=) to_string.
Proof. intros x y H. unfold to_string in H. by apply list_byte_inj, (inj pretty) in H. Qed.

(** Different records have different keys. *)
Lemma MvccKey_inj tab r tab' r' : MvccKey tab r = MvccKey tab' r' → tab = tab' ∧ r = r'.
Proof.
  unfold MvccKey. simpl. intros H.
  assert (∀ (a b c : bytes), a ++ hash_char :: b ++ hash_char :: c = (a ++ hash_char :: b) ++ hash_char :: c) as Hassoc.
  { intros a b c. by rewrite <- app_assoc. }
  rewrite !Hassoc in H.
  apply app_last_inj in H as [H1 H2]; [|apply to_string_digits..].
  apply app_last_inj in H1 as [H1 H3]; [|apply to_string_digits..].
  apply to_string_inj in H2, H3. destruct r, r'; simpl in *. by subst.
Qed.

(** ** Reading an entry *)

(** What a snapshot with timestamp [ts] finds among old versions. *)
Abbreviation snap us ts := (newest_committed (reverse us) (Some ts)).

Definition at_snapshot (u : MvccVersion) (ts : Z) : bool :=
  bool_decide (v_writer_txn u = INVALID_TXN_ID) && bool_decide (v_commit_ts u ≤ ts).
Definition version_value (u : MvccVersion) : option bytes := if v_is_deleted u then None else Some (v_record u).

Lemma snap_snoc us u ts : snap (us ++ [u]) ts = if at_snapshot u ts then version_value u else snap us ts.
Proof. rewrite reverse_app. simpl. done. Qed.

Lemma snap_drop us i u ts :
  us !! i = Some u → at_snapshot u ts = true → snap (drop i us) ts = snap us ts.
Proof.
  revert i u. induction us as [|v us IH] using rev_ind; intros i u Hi Hu; [done|].
  assert (i < length (us ++ [v]))%nat as Hlt by (by eapply lookup_lt_Some).
  rewrite length_app in Hlt. simpl in Hlt.
  destruct (decide (i = length us)) as [->|Hne].
  - rewrite lookup_app_r, Nat.sub_diag in Hi by lia. injection Hi as ->.
    rewrite drop_app_length, snap_snoc, (snap_snoc [] u). by rewrite Hu.
  - rewrite drop_app_le by lia. rewrite !snap_snoc. destruct (at_snapshot v ts); [done|].
    rewrite lookup_app_l in Hi by lia. by eapply IH.
Qed.

Section reader.
(** A snapshot transaction [t] that is not the writer of the entry. *)
Context (t : Z) (x : Transaction) (Hmv : mvcc_enabled_ x = true).
Implicit Types (v : VersionState) (e : MvccEntry) (p : bytes).

Abbreviation ts := (start_ts_ x).

Lemma read_other v p :
  writer_txn v ≠ t →
  VisibleRecordLocked v p t x =
    if bool_decide (writer_txn v = INVALID_TXN_ID) && exists_ v && bool_decide (commit_ts v ≤ ts)
    then (if is_deleted v then None else Some p) else snap (undo_versions v) ts.
Proof. intros Hw. unfold VisibleRecordLocked, IsMvccTxn. rewrite Hmv. simpl. by rewrite decide_False. Qed.

Lemma read_pending v p :
  writer_txn v ≠ t → writer_txn v ≠ INVALID_TXN_ID → VisibleRecordLocked v p t x = snap (undo_versions v) ts.
Proof. intros Hw Hi. rewrite read_other by done. by rewrite bool_decide_false. Qed.

(** An entry keeps, as its newest old version, what it was before the first write. *)
Lemma read_pushed v p :
  t ≠ INVALID_TXN_ID → writer_txn v = INVALID_TXN_ID → exists_ v = true →
  snap (undo_versions v ++ [mk_MvccVersion p (is_deleted v) (commit_ts v) INVALID_TXN_ID]) ts =
    VisibleRecordLocked v p t x.
Proof.
  intros Ht Hw He. rewrite snap_snoc, read_other by congruence. rewrite Hw, He.
  unfold at_snapshot, version_value. simpl. by destruct (bool_decide (commit_ts v ≤ ts)).
Qed.

Lemma keep_idx_spec us w i :
  keep_idx us w = Some i → ∃ u, us !! i = Some u ∧ at_snapshot u w = true.
Proof.
  unfold keep_idx. intros ([j u] & (Hj & [H1 H2] & _)%list_find_Some & ->)%fmap_Some. simpl.
  rewrite reverse_lookup_Some in Hj. destruct Hj as [Hj Hlt].
  exists u. replace (length us - 1 - j)%nat with (length us - S j)%nat by lia. split; [done|].
  unfold at_snapshot. by rewrite !bool_decide_true.
Qed.

Lemma at_snapshot_mono u w w' : w ≤ w' → at_snapshot u w = true → at_snapshot u w' = true.
Proof.
  unfold at_snapshot. intros Hw. rewrite !andb_true_iff, !bool_decide_eq_true. intuition lia.
Qed.

(** Collection at a watermark up to the snapshot does not change what the entry shows. *)
Lemma read_collected v p w :
  t ≠ INVALID_TXN_ID → w ≤ ts → exists_ v = true → writer_txn v ≠ t →
  VisibleRecordLocked (gc_versions w v).1 p t x = VisibleRecordLocked v p t x ∧
  ((gc_versions w v).2 = true → VisibleRecordLocked v p t x = if is_deleted v then None else Some p).
Proof.
  intros Ht Hw He Hne. unfold gc_versions. destruct (decide (writer_txn v ≠ INVALID_TXN_ID)) as [Hp|Hi]; [done|].
  apply dec_stable in Hi. rewrite He. simpl.
  assert (∀ us, VisibleRecordLocked (set_undo us v) p t x =
    if bool_decide (commit_ts v ≤ ts) then (if is_deleted v then None else Some p) else snap us ts) as Hset.
  { intros us. rewrite read_other by done. simpl. by rewrite Hi, He. }
  assert (VisibleRecordLocked v p t x =
    if bool_decide (commit_ts v ≤ ts) then (if is_deleted v then None else Some p) else snap (undo_versions v) ts) as Hv.
  { rewrite read_other by done. by rewrite Hi, He. }
  destruct (decide (commit_ts v ≤ w)) as [Hc|Hc].
  - rewrite (bool_decide_true (commit_ts v ≤ ts)) in * by lia.
    destruct (is_deleted v && bool_decide (commit_ts v ≤ w)); simpl; rewrite Hset, Hv; auto.
  - rewrite (bool_decide_false (commit_ts v ≤ w)) by done. rewrite !andb_false_r. simpl. split; [|done].
    rewrite Hset, Hv. destruct (bool_decide (commit_ts v ≤ ts)); [done|].
    destruct (keep_idx (undo_versions v) w) as [i|] eqn:Ek; [|done].
    destruct (keep_idx_spec _ _ _ Ek) as (u & Hu & Hs). eapply snap_drop; [done|]. by eapply at_snapshot_mono.
Qed.
End reader.

(** ** What a transaction sees *)

Implicit Types (s : TransactionManager) (tab : bytes) (r : Rid).

Definition entries s : gmap bytes MvccEntry := mvcc_versions_ (versions s).
Definition phys s tab r : option bytes := fhs_ (sys s) !! tab ≫= λ tb, Recovery.t_records tb !! r.

(** The record that [t] reads at [r]: the heap record, through the version directory. *)
Definition seen s tab r (t : Z) (x : Transaction) : option bytes :=
  phys s tab r ≫= λ p,
  match entries s !! MvccKey tab r with
  | None => Some p
  | Some e => VisibleRecordLocked (vs e) p t x
  end.

(** ** Effects of the operations *)

(** The parts of the state that reads depend on, except for the version directory and the
    transaction [t]. *)
Record frame (t : Z) s s' : Prop := mk_frame {
  fr_txns : ∀ t', t' ≠ t → txns s' !! t' = txns s !! t';
  fr_last : last_commit_ts_ s' = last_commit_ts_ s;
  fr_active : active_mvcc_txn_count_ s' = active_mvcc_txn_count_ s;
  fr_running : running_txns_ s' = running_txns_ s;
  fr_next : next_txn_id_ s' = next_txn_id_ s
}.

Lemma frame_refl t s : frame t s s.
Proof. done. Qed.
Lemma frame_trans t s1 s2 s3 : frame t s1 s2 → frame t s2 s3 → frame t s1 s3.
Proof. intros [A B C D E] [A' B' C' D' E']. split; [intros t' Ht; rewrite A', A by done; done|congruence..]. Qed.

(** The entry that [EnsureMvccEntryLocked] finds or creates. *)
Definition base_entry (ins : bool) (old : bytes) tab r s : MvccEntry :=
  default (plain_entry (if ins then empty_versions tab r
    else mk_VersionState true false 0 INVALID_TXN_ID INVALID_TXN_ID tab r true old [] []))
    (entries s !! MvccKey tab r).

Definition write_entry (ins : bool) (old : bytes) (del : bool) (rec : bytes) (t : Z) (x : Transaction) tab r s : MvccEntry :=
  let key := MvccKey tab r in
  let had := bool_decide (is_Some (entries s !! key)) in
  let e0 := base_entry ins old tab r s in
  new_head del rec t (if decide (key ∈ mvcc_write_keys_ x) then e0 else first_write had ins old e0).

Lemma ensure_ok (ins : bool) old tab r s :
  ∃ v', EnsureMvccEntryLocked tab r (if ins then None else Some old) (versions s) =
          (Ok (base_entry ins old tab r s), v') ∧
        mvcc_versions_ v' = <[MvccKey tab r := base_entry ins old tab r s]> (entries s).
Proof.
  unfold EnsureMvccEntryLocked, base_entry, entries.
  destruct (mvcc_versions_ (versions s) !! MvccKey tab r) as [e|] eqn:E; simpl.
  - eexists. split; [done|]. by rewrite insert_id.
  - destruct ins; eexists; (split; [reflexivity|done]).
Qed.

(** A versioned write that went through. *)
Record wrote (ins : bool) (old : bytes) (del : bool) (rec : bytes) (t : Z) (x : Transaction) tab r s s1 : Prop := mk_wrote {
  wt_free : mvcc_enabled_ x = true → write_conflict (vs (base_entry ins old tab r s)) t x = false;
  wt_entries : entries s1 = <[MvccKey tab r := write_entry ins old del rec t x tab r s]> (entries s);
  wt_heap : fhs_ (sys s1) = fhs_ (sys s);
  wt_frame : frame t s s1;
  wt_keys : txns s1 !! t = Some (set_write_keys ({[MvccKey tab r]} ∪ mvcc_write_keys_ x) x)
}.

Lemma prepare_head_ok (ins : bool) old del rec t x tab r s s1 :
  txns s !! t = Some x →
  (PrepareWriteLocked tab r old t ins;; set_head tab r del rec t) s = (Ok tt, s1) →
  wrote ins old del rec t x tab r s s1.
Proof.
  intros Hx. set (key := MvccKey tab r).
  destruct (ensure_ok ins old tab r s) as (v1 & Hv1 & Hm1). fold key in Hm1.
  unfold PrepareWriteLocked, mbind, M_bind, get, on_versions. rewrite Hv1. fold key.
  unfold txn_of, set_versions, deref. simpl. rewrite Hx. simpl.
  fold (entries s). set (e0 := base_entry ins old tab r s) in *.
  set (had := bool_decide (is_Some (entries s !! key))).
  destruct (IsMvccTxn x && write_conflict (vs e0) t x) eqn:Ec; [done|].
  assert (mvcc_enabled_ x = true → write_conflict (vs e0) t x = false) as Hc.
  { intros Hm. unfold IsMvccTxn in Ec. by rewrite Hm in Ec. }
  destruct (decide (key ∈ mvcc_write_keys_ x)) as [Hin|Hin].
  - intros [= <-]. fold key. split; try done.
    + unfold write_entry. fold key e0 had. rewrite (decide_True _ _ Hin). unfold entries. simpl. rewrite Hm1. fold key. rewrite lookup_insert_eq. simpl. by rewrite insert_insert_eq.
    + simpl. rewrite Hx. f_equal. fold key. assert ({[key]} ∪ mvcc_write_keys_ x = mvcc_write_keys_ x) as -> by set_solver.
      by destruct x.
  - intros [= <-]. fold key. split; try done.
    + unfold write_entry. fold key e0 had. rewrite (decide_False _ _ Hin). unfold entries. simpl. rewrite Hm1. fold key. rewrite lookup_insert_eq. simpl. by rewrite !insert_insert_eq.
    + split; try done. intros t' Ht. simpl. by rewrite lookup_insert_ne.
    + simpl. by rewrite lookup_insert_eq.
Qed.

Lemma wrote_ser ins old del rec t x tab r s s1 st :
  wrote ins old del rec t x tab r (set_ser st s) s1 → wrote ins old del rec t x tab r s s1.
Proof. intros [A B C [D1 D2 D3 D4 D5] E]. by split. Qed.

Lemma on_ser_ok {A} (m : M SerState A) s res s1 : on_ser m s = (res, s1) → ∃ st, s1 = set_ser st s.
Proof. unfold on_ser. destruct (m (ser s)) as [res' st]. intros [= <- <-]. eauto. Qed.

(** The dependency check works on the graph only. *)
Lemma check_ser_ok tab r old new t x s s1 :
  txns s !! t = Some x → CheckSerializableWriteLocked tab r old new t s = (Ok tt, s1) → ∃ st, s1 = set_ser st s.
Proof.
  intros Hx. unfold CheckSerializableWriteLocked, mbind at 1, M_bind at 1, txn_of, deref. rewrite Hx. simpl.
  destruct (negb (IsMvccTxn x) || _).
  - intros [= <-]. exists (ser s). by destruct s.
  - apply on_ser_ok.
Qed.

Lemma versioned_ok t x m s :
  txns s !! t = Some x → ShouldVersionWrites x s = true → versioned t m s = m s.
Proof. intros Hx Hv. unfold versioned, mbind, M_bind, txn_of, deref, get. rewrite Hx. simpl. by rewrite Hv. Qed.

(** A write after which only compensation keys change. *)
Lemma wrote_then ins old del rec t x tab r tab' r' s s1 :
  wrote ins old del rec t x tab r s s1 →
  wrote ins old del rec t x tab r s (set_versions (add_compensation tab' r' (versions s1)) s1).
Proof. intros [A B C [D1 D2 D3 D4 D5] E]. by split. Qed.

Lemma MvccUpdate_ok tab r old new t x s s1 :
  txns s !! t = Some x → ShouldVersionWrites x s = true →
  MvccUpdate tab r old new t s = (Ok tt, s1) → wrote false old false new t x tab r s s1.
Proof.
  intros Hx Hv. unfold MvccUpdate. rewrite (versioned_ok t x) by done.
  intros ([] & sa & Hc & Hrun)%bind_inv_ok. destruct (check_ser_ok _ _ _ _ _ _ _ _ Hx Hc) as [st ->].
  apply bind_inv_ok in Hrun as ([] & sb & Hp & Hrun). apply bind_inv_ok in Hrun as ([] & sc & Hh & Hrun).
  assert (wrote false old false new t x tab r s sc) as Hw.
  { eapply wrote_ser, prepare_head_ok; [done|]. by rewrite (bind_ok _ _ _ _ _ Hp). }
  apply bind_inv_ok in Hrun as (m & sd & Hg & Hrun). unfold get_table in Hg.
  destruct (tabs_ (sys sc) !! tab); [|done]. injection Hg as -> <-.
  destruct (index_keys_changed m old new); [|by injection Hrun as <-].
  injection Hrun as <-. by apply wrote_then.
Qed.

Lemma MvccDelete_ok tab r old t x s s1 :
  txns s !! t = Some x → ShouldVersionWrites x s = true →
  MvccDelete tab r old t s = (Ok tt, s1) → wrote false old true old t x tab r s s1.
Proof.
  intros Hx Hv. unfold MvccDelete. rewrite (versioned_ok t x) by done.
  intros ([] & sa & Hc & Hrun)%bind_inv_ok. destruct (check_ser_ok _ _ _ _ _ _ _ _ Hx Hc) as [st ->].
  apply bind_inv_ok in Hrun as ([] & sb & Hp & Hrun). apply bind_inv_ok in Hrun as ([] & sc & Hh & Hrun).
  injection Hrun as <-. apply wrote_then. eapply wrote_ser, prepare_head_ok; [done|]. by rewrite (bind_ok _ _ _ _ _ Hp).
Qed.

Lemma MvccInsertLocked_ok tab r new t x s s1 :
  txns s !! t = Some x →
  MvccInsertLocked tab r new t s = (Ok tt, s1) → wrote true new false new t x tab r s s1.
Proof.
  intros Hx. unfold MvccInsertLocked. intros ([] & sa & Hc & Hrun)%bind_inv_ok.
  destruct (check_ser_ok _ _ _ _ _ _ _ _ Hx Hc) as [st ->]. eapply wrote_ser, prepare_head_ok; done.
Qed.

(** ** The heap *)

(** An operation on the table [tab], as a change of its records. *)
Definition heap_changed tab (f : gmap Rid bytes → gmap Rid bytes) s s1 : Prop :=
  ∃ tb tb', fhs_ (sys s) !! tab = Some tb ∧ Recovery.t_records tb' = f (Recovery.t_records tb) ∧
            fhs_ (sys s1) = <[tab := tb']> (fhs_ (sys s)) ∧ Recovery.t_pages tb' = Recovery.t_pages tb.

Lemma on_table_ok {A} tab (m : M Recovery.Table A) s a s1 :
  on_table tab m s = (Ok a, s1) →
  ∃ tb tb', fhs_ (sys s) !! tab = Some tb ∧ m tb = (Ok a, tb') ∧ fhs_ (sys s1) = <[tab := tb']> (fhs_ (sys s)) ∧
            versions s1 = versions s ∧ txns s1 = txns s ∧ ∀ t, frame t s s1.
Proof.
  unfold on_table, Recovery.at_table. destruct (fhs_ (sys s) !! tab) as [tb|] eqn:E; [|done].
  destruct (m tb) as [res tb'] eqn:Em. intros [= -> <-]. exists tb, tb'. by split_and!.
Qed.

Lemma phys_changed tab f s s1 tab' r :
  heap_changed tab f s s1 →
  phys s1 tab' r = if decide (tab' = tab) then fhs_ (sys s) !! tab ≫= λ tb, f (Recovery.t_records tb) !! r else phys s tab' r.
Proof.
  intros (tb & tb' & H1 & H2 & H3 & _). unfold phys. rewrite H3. destruct (decide (tab' = tab)) as [->|Hne].
  - rewrite lookup_insert_eq, H1. simpl. by rewrite H2.
  - by rewrite lookup_insert_ne.
Qed.

Lemma phys_put tab r v s s1 :
  heap_changed tab (<[r := v]>) s s1 →
  ∀ tab' r', phys s1 tab' r' = if decide (tab' = tab ∧ r' = r) then Some v else phys s tab' r'.
Proof.
  intros Hh tab' r'. rewrite (phys_changed _ _ _ _ tab' r' Hh). destruct Hh as (tb & _ & E & _).
  destruct (decide (tab' = tab)) as [->|Hne]; [|by rewrite decide_False by naive_solver].
  rewrite E. simpl. unfold phys. rewrite E. simpl. destruct (decide (r' = r)) as [->|Hn].
  - by rewrite decide_True, lookup_insert_eq.
  - rewrite decide_False by naive_solver. by rewrite lookup_insert_ne.
Qed.

Lemma phys_del tab r s s1 :
  heap_changed tab (delete r) s s1 →
  ∀ tab' r', phys s1 tab' r' = if decide (tab' = tab ∧ r' = r) then None else phys s tab' r'.
Proof.
  intros Hh tab' r'. rewrite (phys_changed _ _ _ _ tab' r' Hh). destruct Hh as (tb & _ & E & _).
  destruct (decide (tab' = tab)) as [->|Hne]; [|by rewrite decide_False by naive_solver].
  rewrite E. simpl. unfold phys. rewrite E. simpl. destruct (decide (r' = r)) as [->|Hn].
  - by rewrite decide_True, lookup_delete_eq.
  - rewrite decide_False by naive_solver. by rewrite lookup_delete_ne.
Qed.

Section table_ops.
Implicit Types (tb : Recovery.Table).

Lemma heap_update_ok r v tb tb' :
  Recovery.update_record r v tb = (Ok tt, tb') →
  tb' = Recovery.with_records (<[r := v]> (Recovery.t_records tb)) tb ∧ Recovery.page_ok (page_no r) tb = true.
Proof.
  unfold Recovery.update_record, mbind, M_bind, get, throw, put. intros H.
  destruct (Recovery.page_ok _ _); [|done]. destruct (Recovery.is_record r tb); [|done]. by injection H as <-.
Qed.

Lemma insert_record_at_ok r v tb tb' :
  Recovery.insert_record_at r v tb = (Ok tt, tb') →
  tb' = Recovery.with_records (<[r := v]> (Recovery.t_records tb)) tb ∧ Recovery.page_ok (page_no r) tb = true ∧
  Recovery.t_records tb !! r = None.
Proof.
  unfold Recovery.insert_record_at, mbind, M_bind, get, throw, put. intros H.
  destruct (Recovery.page_ok _ _); [|done]. simpl in H. destruct (negb (Recovery.slot_ok _ _)); [done|].
  destruct (Recovery.is_record r tb) eqn:E; [done|]. injection H as <-. unfold Recovery.is_record in E.
  apply bool_decide_eq_false in E. split_and!; [done..|]. by apply eq_None_not_Some.
Qed.

Lemma heap_delete_ok r tb tb' :
  Recovery.delete_record r tb = (Ok tt, tb') → tb' = Recovery.with_records (delete r (Recovery.t_records tb)) tb.
Proof.
  unfold Recovery.delete_record, mbind, M_bind, get, throw, put. intros H.
  destruct (negb (Recovery.page_ok _ _)); [done|]. destruct (negb (Recovery.is_record r tb)); [done|]. by injection H as <-.
Qed.

Lemma get_record_ok r v tb tb' : Recovery.get_record r tb = (Ok v, tb') → tb' = tb.
Proof.
  unfold Recovery.get_record, mbind, M_bind, get, throw. destruct (Recovery.t_records tb !! r); [|done]. by intros [= _ <-].
Qed.

(** Records are on pages of their file. *)
Definition heap_wf s : Prop :=
  ∀ tab tb, fhs_ (sys s) !! tab = Some tb →
  ∀ r v, Recovery.t_records tb !! r = Some v → Recovery.page_ok (page_no r) tb = true.

Lemma heap_wf_put tab r v s s1 :
  heap_wf s → heap_changed tab (<[r := v]>) s s1 →
  (∀ tb, fhs_ (sys s) !! tab = Some tb → Recovery.page_ok (page_no r) tb = true) → heap_wf s1.
Proof.
  intros Hwf (tb & tb' & H1 & H2 & H3 & H4) Hp tab' tb0. rewrite H3, lookup_insert_Some.
  intros [[<- <-]|[_ Ht]]; [|by eapply Hwf]. intros r' v'. rewrite H2, lookup_insert_Some.
  unfold Recovery.page_ok. rewrite H4. intros [[<- _]|[_ Hv]]; [by apply (Hp tb)|by eapply (Hwf _ _ H1)].
Qed.

Lemma heap_wf_del tab r s s1 : heap_wf s → heap_changed tab (delete r) s s1 → heap_wf s1.
Proof.
  intros Hwf (tb & tb' & H1 & H2 & H3 & H4) tab' tb0. rewrite H3, lookup_insert_Some.
  intros [[<- <-]|[_ Ht]]; [|by eapply Hwf]. intros r' v'. rewrite H2, lookup_delete_Some.
  unfold Recovery.page_ok. rewrite H4. intros [_ Hv]. by eapply (Hwf _ _ H1).
Qed.
End table_ops.

(** ** Locks and the log *)

(** Steps of transaction [t] that change neither versions nor records, nor what decides
    about its versions. *)
Definition same_txn (x x' : Transaction) : Prop :=
  isolation_level_ x' = isolation_level_ x ∧ mvcc_enabled_ x' = mvcc_enabled_ x ∧ start_ts_ x' = start_ts_ x ∧
  read_ts_ x' = read_ts_ x ∧ mvcc_write_keys_ x' = mvcc_write_keys_ x.

Record silent (t : Z) s s' : Prop := mk_silent {
  sl_frame : frame t s s';
  sl_entries : entries s' = entries s;
  sl_heap : fhs_ (sys s') = fhs_ (sys s);
  sl_txn : ∀ x, txns s !! t = Some x → ∃ x', txns s' !! t = Some x' ∧ same_txn x x'
}.

Lemma silent_refl t s : silent t s s.
Proof. split; try done. intros x Hx. by exists x. Qed.
Lemma silent_trans t s1 s2 s3 : silent t s1 s2 → silent t s2 s3 → silent t s1 s3.
Proof.
  intros [A B C D] [A' B' C' D']. split; [by eapply frame_trans|congruence..|].
  intros x Hx. destruct (D x Hx) as (x2 & H2 & E2). destruct (D' x2 H2) as (x3 & H3 & E3).
  exists x3. split; [done|]. unfold same_txn in *. intuition congruence.
Qed.

(** A computation all of whose runs are silent. *)
Definition silently (t : Z) {A} (m : M TransactionManager A) : Prop := ∀ s, silent t s (m s).2.

Lemma silently_ret t {A} (a : A) : silently t (mret a).
Proof. intros s. apply silent_refl. Qed.
Lemma silently_bind t {A B} (m : M TransactionManager A) (k : A → M TransactionManager B) :
  silently t m → (∀ a, silently t (k a)) → silently t (mbind k m).
Proof.
  intros Hm Hk s. unfold mbind, M_bind. specialize (Hm s). destruct (m s) as [[a|e] s1]; [|done].
  eapply silent_trans; [exact Hm|apply Hk].
Qed.
Lemma silently_mfor t {A} (f : A → M TransactionManager unit) l : (∀ a, silently t (f a)) → silently t (mfor f l).
Proof. intros Hf. induction l; [apply silently_ret|]. apply silently_bind; auto. Qed.
Lemma silently_locks t {A} (m : M Lm.LockManager A) : silently t (on_locks m).
Proof. intros s. unfold on_locks. destruct (m (locks (sys s))). split; try done. intros x Hx. by exists x. Qed.
Lemma silently_log t {A} (m : M Log.LogManager A) : silently t (on_log m).
Proof. intros s. unfold on_log. destruct (m (log (sys s))). split; try done. intros x Hx. by exists x. Qed.
Lemma silently_ser t {A} (m : M SerState A) : silently t (on_ser m).
Proof. intros s. unfold on_ser. destruct (m (ser s)). split; try done. intros x Hx. by exists x. Qed.
Lemma silently_cleanup t : silently t CleanupSerializableStateLocked.
Proof. intros s. split; try done. intros x Hx. by exists x. Qed.

(** A transaction object replaced by one that agrees with it. *)
Lemma silently_modify_txn t (f : Transaction → Transaction) {A} (k : Transaction → M TransactionManager A) :
  (∀ x, same_txn x (f x)) → (∀ x, silently t (k x)) → silently t (x ← txn_of t; put_txn t (f x);; k x).
Proof.
  intros Hf Hk s. unfold mbind, M_bind, txn_of, deref. destruct (txns s !! t) as [x|] eqn:Hx; [|apply silent_refl]. simpl.
  eapply silent_trans; [|apply Hk]. split; try done.
  - split; try done. intros t' Ht. simpl. by rewrite lookup_insert_ne.
  - intros x0 Hx0. simpl. rewrite lookup_insert_eq. eexists. split; [done|]. rewrite Hx in Hx0. injection Hx0 as <-. apply Hf.
Qed.
End MvccFacts.
