(* ===== verification/MvccSpec.v ===== *)
(** * Snapshot isolation

    The invariant of the version directory, and that every operation of a transaction keeps
    it and leaves what the other running snapshot transactions read unchanged: a snapshot
    stays as it was when the transaction began, whatever the others write, commit or take
    back, and whatever garbage collection removes. *)

From S2P Require Import Prelude RecordFile Log Recovery Conditions LockManager Watermark Mvcc MvccFacts.

Module MvccSpec.
Import RecFile Cond Mvcc MvccFacts.

Implicit Types (s : TransactionManager) (tab key : bytes) (r : Rid) (t : Z) (x : Transaction) (R : gset Z).

(** ** The invariant *)

(** An entry with an uncommitted write knows how to take it back, and its newest old version
    is what it was before. *)
Definition pending (e : MvccEntry) : Prop :=
  if rollback_delete_physical e then
    had_entry_on_abort e = false ∧ restore_snapshot e = None ∧ undo_versions (vs e) = []
  else
    rollback_restore_physical e = true ∧
    match restore_snapshot e with
    | Some v0 =>
        had_entry_on_abort e = true ∧ exists_ v0 = true ∧ writer_txn v0 = INVALID_TXN_ID ∧
        tab_name v0 = tab_name (vs e) ∧ rid v0 = rid (vs e) ∧
        undo_versions (vs e) = undo_versions v0 ++
          [mk_MvccVersion (rollback_record (vs e)) (is_deleted v0) (commit_ts v0) INVALID_TXN_ID]
    | None =>
        had_entry_on_abort e = false ∧
        undo_versions (vs e) = [mk_MvccVersion (rollback_record (vs e)) false 0 INVALID_TXN_ID]
    end.

Record entry_ok s key (e : MvccEntry) : Prop := mk_entry_ok {
  eo_exists : exists_ (vs e) = true;
  eo_key : key = MvccKey (tab_name (vs e)) (rid (vs e));
  eo_phys : is_Some (phys s (tab_name (vs e)) (rid (vs e)));
  eo_pending : writer_txn (vs e) ≠ INVALID_TXN_ID →
    pending e ∧ ∃ x, txns s !! writer_txn (vs e) = Some x ∧ key ∈ mvcc_write_keys_ x
}.

(** [R] are the running transactions. *)
Record minv R s : Prop := mk_minv {
  mi_entry : ∀ key e, entries s !! key = Some e → entry_ok s key e;
  mi_keys : ∀ t x key, t ∈ R → txns s !! t = Some x → key ∈ mvcc_write_keys_ x →
    ∃ e, entries s !! key = Some e ∧ writer_txn (vs e) = t;
  mi_run : ∀ t, t ∈ R → t ≠ INVALID_TXN_ID ∧
    ∃ x, txns s !! t = Some x ∧ start_ts_ x = read_ts_ x ∧ 0 ≤ start_ts_ x ≤ last_commit_ts_ s;
  mi_heap : heap_wf s
}.

(** The last committed version of an entry is newer than [ts]: its head, or what its head was
    before an uncommitted write. *)
Definition newer (ts : Z) (e : MvccEntry) : Prop :=
  match (if decide (writer_txn (vs e) = INVALID_TXN_ID) then Some (vs e) else restore_snapshot e) with
  | Some v => ts < commit_ts v
  | None => False
  end.

(** Someone else committed a version of the record after the snapshot of [t], at [ts]. *)
Definition overwritten s key t (ts : Z) : Prop :=
  ∃ e, entries s !! key = Some e ∧ writer_txn (vs e) ≠ t ∧ newer ts e.

(** The snapshot transactions of [R] read the same in both states, and what was overwritten
    after their snapshot still is. *)
Definition stable R s s' : Prop :=
  ∀ t x, t ∈ R → txns s !! t = Some x → mvcc_enabled_ x = true →
  txns s' !! t = Some x ∧ (∀ tab r, seen s' tab r t x = seen s tab r t x) ∧
  ∀ key, overwritten s key t (start_ts_ x) → overwritten s' key t (start_ts_ x).

Lemma overwritten_ext s s' key t ts : entries s' = entries s → overwritten s key t ts → overwritten s' key t ts.
Proof. unfold overwritten. by intros ->. Qed.

Lemma overwritten_lookup s s' key t ts :
  entries s' !! key = entries s !! key → overwritten s key t ts → overwritten s' key t ts.
Proof. unfold overwritten. by intros ->. Qed.

Lemma stable_refl R s : stable R s s.
Proof. done. Qed.
Lemma stable_trans R s1 s2 s3 : stable R s1 s2 → stable R s2 s3 → stable R s1 s3.
Proof.
  intros H1 H2 t x Ht Hx Hm. destruct (H1 t x Ht Hx Hm) as (Hx2 & E1 & O1). destruct (H2 t x Ht Hx2 Hm) as (Hx3 & E2 & O2).
  split_and!; [done| |auto]. intros tab r. by rewrite E2, E1.
Qed.

Lemma stable_sub R R' s s' : R' ⊆ R → stable R s s' → stable R' s s'.
Proof. intros HR H t x Ht. apply H. set_solver. Qed.

(** The records [keys] are overwritten for all snapshot transactions of [R]. *)
Definition published R s s' (keys : gset bytes) : Prop :=
  ∀ t x, t ∈ R → txns s !! t = Some x → mvcc_enabled_ x = true →
  ∀ key, key ∈ keys → overwritten s' key t (start_ts_ x).

Lemma published_stable R s s1 s2 keys :
  published R s s1 keys → stable R s s1 → stable R s1 s2 → published R s s2 keys.
Proof.
  intros Hp H1 H2 t x Ht Hx Hm key Hk. destruct (H1 t x Ht Hx Hm) as (Hx1 & _).
  destruct (H2 t x Ht Hx1 Hm) as (_ & _ & Ho). by apply Ho, (Hp t).
Qed.

Lemma minv_weaken R R' s : R' ⊆ R → minv R s → minv R' s.
Proof. intros HR [A B C D]. split; try done; intros; eauto. Qed.

(** The invariant depends on the version directory, the heap, the transactions and the clock. *)
Lemma minv_ext R s s' :
  entries s' = entries s → fhs_ (sys s') = fhs_ (sys s) → txns s' = txns s → last_commit_ts_ s' = last_commit_ts_ s →
  minv R s → minv R s'.
Proof.
  intros He Hf Ht Hl [A B C D].
  assert (∀ tab r, phys s' tab r = phys s tab r) as Hph by (intros; unfold phys; by rewrite Hf). split.
  - intros k e. rewrite He. intros Hk. destruct (A k e Hk) as [E1 E2 E3 E4]. split; try done; [by rewrite Hph|by rewrite Ht].
  - rewrite Ht, He. exact B.
  - rewrite Ht, Hl. exact C.
  - unfold heap_wf. rewrite Hf. exact D.
Qed.

(** Reading at a record depends on the record and its entry. *)
Lemma seen_eq s s' tab r t x :
  phys s' tab r = phys s tab r → entries s' !! MvccKey tab r = entries s !! MvccKey tab r →
  seen s' tab r t x = seen s tab r t x.
Proof. unfold seen. by intros -> ->. Qed.

Lemma seen_none s tab r t x : phys s tab r = None → seen s tab r t x = None.
Proof. unfold seen. by intros ->. Qed.

Lemma seen_entry s tab r t x p e :
  phys s tab r = Some p → entries s !! MvccKey tab r = Some e →
  seen s tab r t x = VisibleRecordLocked (vs e) p t x.
Proof. unfold seen. intros -> ->. done. Qed.

Lemma seen_plain s tab r t x p :
  phys s tab r = Some p → entries s !! MvccKey tab r = None → seen s tab r t x = Some p.
Proof. unfold seen. intros -> ->. done. Qed.

(** ** Writes *)

(** The transaction whose write it is may write: for a transaction without a snapshot, its
    record lock excludes other writers. *)
Definition may_write s tab r t x : Prop :=
  mvcc_enabled_ x = false →
  ∀ e, entries s !! MvccKey tab r = Some e → writer_txn (vs e) = INVALID_TXN_ID ∨ writer_txn (vs e) = t.

(** The head of the entry that a transaction reads is the record of the heap. *)
Lemma reads_heap e p old t x :
  writer_txn (vs e) = INVALID_TXN_ID → t ≠ INVALID_TXN_ID →
  (mvcc_enabled_ x = true → write_conflict (vs e) t x = false) →
  VisibleRecordLocked (vs e) p t x = Some old → exists_ (vs e) = true → old = p.
Proof.
  intros Hw Ht Hc Hv He. unfold VisibleRecordLocked, IsMvccTxn in Hv. rewrite Hw in Hv.
  unfold live in Hv. rewrite He in Hv. simpl in Hv. destruct (mvcc_enabled_ x); simpl in Hv.
  - rewrite decide_False in Hv by done. specialize (Hc eq_refl). unfold write_conflict in Hc. rewrite Hw in Hc.
    rewrite (bool_decide_false (INVALID_TXN_ID ≠ INVALID_TXN_ID)) in Hc by (intros HH; by apply HH). simpl in Hc.
    rewrite (bool_decide_true (INVALID_TXN_ID ≠ t)) in Hc by congruence. simpl in Hc.
    apply bool_decide_eq_false in Hc. rewrite bool_decide_true in Hv by lia.
    destruct (is_deleted (vs e)); congruence.
  - rewrite decide_False in Hv by congruence. destruct (decide (INVALID_TXN_ID ≠ INVALID_TXN_ID)); [done|].
    destruct (is_deleted (vs e)); congruence.
Qed.

Section write.
Context R s s1 tab r t x (old : bytes) (del : bool) (rec p : bytes).
Context (Hinv : minv R s) (Ht : t ∈ R) (Hx : txns s !! t = Some x).
Context (Hp : phys s tab r = Some p) (Hseen : seen s tab r t x = Some old) (Hmay : may_write s tab r t x).
Context (Hw : wrote false old del rec t x tab r s s1).

Let key := MvccKey tab r.

(** The new entry of the record, and what it shows to others. *)
Lemma write_entry_ok :
  ∃ e1, entries s1 = <[key := e1]> (entries s) ∧ writer_txn (vs e1) = t ∧ exists_ (vs e1) = true ∧
        tab_name (vs e1) = tab ∧ rid (vs e1) = r ∧ pending e1 ∧
        (∀ e, entries s !! key = Some e →
           (writer_txn (vs e) = INVALID_TXN_ID ∨ writer_txn (vs e) = t) ∧ ∀ ts, newer ts e → newer ts e1) ∧
        ∀ t0 x0, t0 ≠ t → t0 ≠ INVALID_TXN_ID → mvcc_enabled_ x0 = true → 0 ≤ start_ts_ x0 →
          newest_committed (reverse (undo_versions (vs e1))) (Some (start_ts_ x0)) = seen s tab r t0 x0.
Proof.
  destruct (mi_run R s Hinv t Ht) as [Hti _]. destruct Hw as [Hfree Hent _ _ _].
  unfold write_entry, base_entry in *. fold key in Hfree, Hent |- *.
  destruct (entries s !! key) as [e|] eqn:Ee; simpl in Hfree, Hent.
  - rewrite (seen_entry s tab r t x p e Hp Ee) in Hseen.
    destruct (mi_entry R s Hinv key e Ee) as [E1 E2 E3 E4].
    assert (tab_name (vs e) = tab ∧ rid (vs e) = r) as [Etab Erid] by (symmetry in E2; apply MvccKey_inj in E2; done).
    destruct (decide (writer_txn (vs e) = INVALID_TXN_ID)) as [Ew|Ew].
    + assert (key ∉ mvcc_write_keys_ x) as Hnk.
      { intros Hin. destruct (mi_keys R s Hinv t x key Ht Hx Hin) as (e' & He' & Hwt). congruence. }
      rewrite decide_False in Hent by done.
      pose proof (reads_heap e p old t x Ew Hti Hfree Hseen E1) as ->.
      eexists. split; [exact Hent|]. simpl. split_and!; try done.
      * unfold pending. simpl. by rewrite Ew.
      * intros e' [= <-]. split; [by left|]. intros ts. unfold newer. simpl. by rewrite (decide_True _ _ Ew), decide_False.
      * intros t0 x0 H0 H0i Hm0 Hs0. rewrite Ew. rewrite (seen_entry s tab r t0 x0 p e Hp Ee). by apply read_pushed.
    + assert (writer_txn (vs e) = t) as Ewt.
      { destruct (mvcc_enabled_ x) eqn:Em.
        - specialize (Hfree eq_refl). unfold write_conflict in Hfree.
          rewrite (bool_decide_true (writer_txn (vs e) ≠ INVALID_TXN_ID)) in Hfree by done. simpl in Hfree.
          apply orb_false_iff in Hfree as [Hf _]. apply bool_decide_eq_false in Hf. by apply dec_stable.
        - destruct (Hmay Em e Ee); done. }
      destruct (E4 Ew) as [Hpend (x' & Hx' & Hk)]. rewrite Ewt, Hx in Hx'. injection Hx' as <-.
      rewrite decide_True in Hent by done. eexists. split; [exact Hent|]. simpl.
      split_and!; try done; [intros e' [= <-]; split; [by right|]; intros ts; unfold newer; simpl; rewrite Ewt; by rewrite !decide_False by done|]. intros t0 x0 H0 H0i Hm0 Hs0. rewrite (seen_entry s tab r t0 x0 p e Hp Ee). symmetry. apply read_pending; congruence.
  - rewrite (seen_plain s tab r t x p Hp Ee) in Hseen. injection Hseen as ->.
    assert (key ∉ mvcc_write_keys_ x) as Hnk.
    { intros Hin. destruct (mi_keys R s Hinv t x key Ht Hx Hin) as (e' & He' & _). congruence. }
    rewrite decide_False in Hent by done. eexists. split; [exact Hent|]. simpl. split_and!; try done.
    intros t0 x0 H0 H0i Hm0 Hs0. rewrite (seen_plain s tab r t0 x0 old Hp Ee).
    unfold newest_committed. simpl. rewrite bool_decide_true by lia. done.
Qed.
End write.

(** A state in which the record [r] of [tab] got a pending write of [t]. *)
Lemma pending_write_ok R s s2 tab r t x e1 :
  let key := MvccKey tab r in
  minv R s → t ∈ R → txns s !! t = Some x →
  entries s2 = <[key := e1]> (entries s) → writer_txn (vs e1) = t → exists_ (vs e1) = true →
  tab_name (vs e1) = tab → rid (vs e1) = r → pending e1 →
  (∀ t0 x0, t0 ≠ t → t0 ≠ INVALID_TXN_ID → mvcc_enabled_ x0 = true → 0 ≤ start_ts_ x0 →
     newest_committed (reverse (undo_versions (vs e1))) (Some (start_ts_ x0)) = seen s tab r t0 x0) →
  (∀ tab' r', ¬ (tab' = tab ∧ r' = r) → phys s2 tab' r' = phys s tab' r') → is_Some (phys s2 tab r) →
  frame t s s2 → txns s2 !! t = Some (set_write_keys ({[key]} ∪ mvcc_write_keys_ x) x) → heap_wf s2 →
  (∀ e, entries s !! key = Some e →
     (writer_txn (vs e) = INVALID_TXN_ID ∨ writer_txn (vs e) = t) ∧ ∀ ts, newer ts e → newer ts e1) →
  minv R s2 ∧ stable (R ∖ {[t]}) s s2.
Proof.
  intros key [A B C D] Ht Hx Hent Hwr Hex Htab Hrid Hpend Hread Hph [p Hp] [F1 F2 F3 F4 F5] Hx2 Hhw Hfree.
  destruct (C t Ht) as [Hti (x' & Hx' & Hst)]. rewrite Hx in Hx'. injection Hx' as <-.
  assert (∀ tab' r', MvccKey tab' r' = key → tab' = tab ∧ r' = r) as Hinj by (intros; by apply MvccKey_inj).
  split; [split|].
  - intros k e. rewrite Hent, lookup_insert_Some. intros [[<- <-]|[Hk He]].
    + split; try done; [by rewrite Htab, Hrid|by rewrite Htab, Hrid, Hp|].
      intros _. split; [done|]. rewrite Hwr. eexists. split; [exact Hx2|]. simpl. set_solver.
    + destruct (A k e He) as [E1 E2 E3 E4]. split; try done.
      * rewrite Hph; [done|]. intros [E5 E6]. apply Hk. rewrite E2, E5, E6. done.
      * intros Hw. destruct (E4 Hw) as [Hpe (x0 & Hx0 & Hin)]. split; [done|].
        destruct (decide (writer_txn (vs e) = t)) as [Ew|Ew].
        -- rewrite Ew in *. rewrite Hx in Hx0. injection Hx0 as <-. eexists. split; [exact Hx2|]. simpl. set_solver.
        -- exists x0. by rewrite F1.
  - intros t0 x0 k Ht0 Hx0 Hin. rewrite Hent. destruct (decide (k = key)) as [->|Hne].
    + rewrite lookup_insert_eq. exists e1. split; [done|]. destruct (decide (t0 = t)) as [->|Hn]; [done|].
      exfalso. rewrite F1 in Hx0 by done. destruct (B t0 x0 key Ht0 Hx0 Hin) as (e & He & Hwe).
      destruct (C t0 Ht0) as [Hi _]. destruct (Hfree e He) as [[]]; congruence.
    + rewrite lookup_insert_ne by done. destruct (decide (t0 = t)) as [->|Hn].
      * rewrite Hx2 in Hx0. injection Hx0 as <-. simpl in Hin. apply (B t x k Ht Hx). set_solver.
      * rewrite F1 in Hx0 by done. by eapply B.
  - intros t0 Ht0. destruct (C t0 Ht0) as [Hi (x0 & Hx0 & Hs0)]. split; [done|]. rewrite F2.
    destruct (decide (t0 = t)) as [->|Hn].
    + rewrite Hx in Hx0. injection Hx0 as <-. eexists. split; [exact Hx2|]. done.
    + exists x0. by rewrite F1.
  - done.
  - intros t0 x0 [Ht0 Hn%not_elem_of_singleton]%elem_of_difference Hx0 Hm. rewrite F1 by done. split; [done|].
    destruct (C t0 Ht0) as [Hi (x0' & Hx0' & Hs0)]. rewrite Hx0 in Hx0'. injection Hx0' as <-.
    split.
    2:{ intros k (e & He & Hwe & Hnew). destruct (decide (k = key)) as [->|Hk].
        - exists e1. rewrite Hent, lookup_insert_eq. split_and!; [done|congruence|]. by apply (Hfree e He).
        - exists e. by rewrite Hent, lookup_insert_ne. }
    intros tab' r'. destruct (decide (tab' = tab ∧ r' = r)) as [[-> ->]|Hne].
    + rewrite (seen_entry s2 tab r t0 x0 p e1 Hp) by (by rewrite Hent, lookup_insert_eq).
      rewrite read_pending by congruence. apply Hread; done || lia.
    + apply seen_eq; [by apply Hph|]. rewrite Hent, lookup_insert_ne; [done|].
      intros E. apply Hne, Hinj. done.
Qed.

Section steps.
Context R s t x (Hinv : minv R s) (Ht : t ∈ R) (Hx : txns s !! t = Some x) (Hact : ShouldVersionWrites x s = true).

(** An update: the executor reads the record, registers the version and updates the heap. *)
Lemma update_stable tab r old new s1 s2 :
  seen s tab r t x = Some old → may_write s tab r t x →
  MvccUpdate tab r old new t s = (Ok tt, s1) → on_table tab (Recovery.update_record r new) s1 = (Ok tt, s2) →
  minv R s2 ∧ stable (R ∖ {[t]}) s s2.
Proof.
  intros Hseen Hmay Hup Hheap. pose proof (MvccUpdate_ok _ _ _ _ _ _ _ _ Hx Hact Hup) as Hw.
  destruct (phys s tab r) as [p|] eqn:Hp; [|by rewrite seen_none in Hseen].
  destruct (write_entry_ok R s s1 tab r t x old false new p) as (e1 & W1 & W2 & W3 & W4 & W5 & W6 & W7 & W8); try done.
  destruct (on_table_ok _ _ _ _ _ Hheap) as (tb & tb' & H1 & H2 & H3 & H4 & H5 & H6).
  apply heap_update_ok in H2 as [-> Hpg]. destruct Hw as [_ _ Hfh Hfr Hk].
  assert (heap_changed tab (<[r := new]>) s s2) as Hch by (rewrite Hfh in H1, H3; by exists tb, (Recovery.with_records (<[r := new]> (Recovery.t_records tb)) tb)).
  pose proof (phys_put _ _ _ _ _ Hch) as Hph.
  eapply (pending_write_ok R s s2 tab r t x e1); try done.
  - unfold entries. by rewrite H4.
  - intros tab' r' Hne. by rewrite Hph, decide_False.
  - rewrite Hph, decide_True by done. eauto.
  - eapply frame_trans; [exact Hfr|apply H6].
  - by rewrite H5.
  - eapply heap_wf_put; [apply Hinv|exact Hch|]. rewrite Hfh in H1. intros tb0 E. rewrite H1 in E. by injection E as <-.
Qed.

(** A delete keeps the record in the heap. *)
Lemma delete_stable tab r old s1 :
  seen s tab r t x = Some old → may_write s tab r t x →
  MvccDelete tab r old t s = (Ok tt, s1) → minv R s1 ∧ stable (R ∖ {[t]}) s s1.
Proof.
  intros Hseen Hmay Hup. pose proof (MvccDelete_ok _ _ _ _ _ _ _ Hx Hact Hup) as Hw.
  destruct (phys s tab r) as [p|] eqn:Hp; [|by rewrite seen_none in Hseen].
  destruct (write_entry_ok R s s1 tab r t x old true old p) as (e1 & W1 & W2 & W3 & W4 & W5 & W6 & W7 & W8); try done.
  destruct Hw as [_ _ Hfh Hfr Hk].
  assert (∀ tab' r', phys s1 tab' r' = phys s tab' r') as Hph by (intros; unfold phys; by rewrite Hfh).
  eapply (pending_write_ok R s s1 tab r t x e1); try done.
  - rewrite Hph, Hp. eauto.
  - intros tab' tb. rewrite Hfh. apply Hinv.
Qed.

(** An insert: the record goes into a free slot of the heap first. *)
Lemma insert_stable tab r new s1 s2 :
  on_table tab (Recovery.insert_record_at r new) s = (Ok tt, s1) →
  MvccInsertLocked tab r new t s1 = (Ok tt, s2) → minv R s2 ∧ stable (R ∖ {[t]}) s s2.
Proof.
  intros Hheap Hins. destruct (on_table_ok _ _ _ _ _ Hheap) as (tb & tb' & H1 & H2 & H3 & H4 & H5 & H6).
  apply insert_record_at_ok in H2 as (-> & Hpg & Hnone).
  assert (heap_changed tab (<[r := new]>) s s1) as Hch by (by exists tb, (Recovery.with_records (<[r := new]> (Recovery.t_records tb)) tb)).
  pose proof (phys_put _ _ _ _ _ Hch) as Hph.
  assert (phys s tab r = None) as Hpn by (unfold phys; by rewrite H1).
  assert (entries s !! MvccKey tab r = None) as Hen.
  { destruct (entries s !! MvccKey tab r) as [e|] eqn:Ee; [|done].
    destruct (mi_entry R s Hinv _ e Ee) as [_ E2 [p E3] _]. apply MvccKey_inj in E2 as [E4 E5]. congruence. }
  assert (MvccKey tab r ∉ mvcc_write_keys_ x) as Hnk.
  { intros Hin. destruct (mi_keys R s Hinv t x _ Ht Hx Hin) as (e & He & _). congruence. }
  assert (txns s1 !! t = Some x) as Hx1 by (by rewrite H5).
  pose proof (MvccInsertLocked_ok _ _ _ _ _ _ _ Hx1 Hins) as [_ Hent Hfh Hfr Hk].
  assert (entries s1 = entries s) as He1 by (unfold entries; by rewrite H4).
  unfold write_entry, base_entry in Hent. rewrite He1, Hen in Hent. simpl in Hent. rewrite decide_False in Hent by done.
  assert (∀ tab' r', phys s2 tab' r' = phys s1 tab' r') as Hph2 by (intros; unfold phys; by rewrite Hfh).
  eapply (pending_write_ok R s s2 tab r t x); try done; simpl; try done.
  - intros t0 x0 _ _ _ _. by rewrite seen_none.
  - intros tab' r' Hne. by rewrite Hph2, Hph, decide_False.
  - rewrite Hph2, Hph, decide_True by done. eauto.
  - eapply frame_trans; [apply H6|exact Hfr].
  - intros tab' tb0. rewrite Hfh. revert tab' tb0. eapply heap_wf_put; [apply Hinv|exact Hch|].
    intros tb0 E. rewrite H1 in E. by injection E as <-.
  - intros e. by rewrite Hen.
Qed.
End steps.

(** ** The watermark *)

Definition rts s t : option Z := txns s !! t ≫= λ x, if mvcc_enabled_ x then Some (read_ts_ x) else None.
Definition readers s R (ts : Z) : gset Z := filter (λ t, rts s t = Some ts) R.
Definition snapshots s R : gset Z := filter (λ t, is_Some (rts s t)) R.

Lemma filter_add (P P' : Z → Prop) `{!∀ t, Decision (P t), !∀ t, Decision (P' t)} t R :
  t ∉ R → (∀ t', t' ∈ R → P' t' ↔ P t') →
  filter P' ({[t]} ∪ R) = if decide (P' t) then {[t]} ∪ filter P R else filter P R.
Proof.
  intros Ht HP. apply set_eq. intros t'. specialize (HP t').
  destruct (decide (t' = t)) as [->|Hne], (decide (P' t)); set_solver.
Qed.

Record winv R s : Prop := mk_winv {
  wi_wf : Wm.wwf (running_txns_ s);
  wi_reads : ∀ ts, Wm.count (running_txns_ s) ts = Z.of_nat (size (readers s R ts));
  wi_active : active_mvcc_txn_count_ s = Z.of_nat (size (snapshots s R))
}.

Lemma winv_reader R s t x :
  winv R s → t ∈ R → txns s !! t = Some x → mvcc_enabled_ x = true →
  0 < Wm.count (running_txns_ s) (read_ts_ x) ∧ Wm.GetWatermark (running_txns_ s) ≤ read_ts_ x ∧ 0 < active_mvcc_txn_count_ s.
Proof.
  intros [W1 W2 W3] Ht Hx Hm. assert (rts s t = Some (read_ts_ x)) as Hr by (unfold rts; rewrite Hx; simpl; by rewrite Hm).
  assert (0 < Wm.count (running_txns_ s) (read_ts_ x)) as Hc.
  { rewrite W2. assert (size (readers s R (read_ts_ x)) ≠ 0%nat); [|lia].
    apply size_non_empty_iff. unfold readers. set_solver. }
  split_and!; [done|by apply Wm.count_below|].
  rewrite W3. assert (size (snapshots s R) ≠ 0%nat); [|lia]. apply size_non_empty_iff.
  unfold snapshots. intros E. assert (t ∈ (∅ : gset Z)) as Hin; [|set_solver]. rewrite <- (leibniz_equiv _ _ E).
  apply elem_of_filter. split; [|done]. by rewrite Hr.
Qed.

(** A transaction leaves [R]. *)
Lemma winv_remove R s s' t x :
  winv R s → t ∈ R → txns s !! t = Some x → (∀ t', t' ∈ R → t' ≠ t → rts s' t' = rts s t') →
  Wm.wwf (running_txns_ s') →
  (∀ ts, Wm.count (running_txns_ s') ts =
     Wm.count (running_txns_ s) ts - if decide (mvcc_enabled_ x = true ∧ ts = read_ts_ x) then 1 else 0) →
  active_mvcc_txn_count_ s' = active_mvcc_txn_count_ s - (if mvcc_enabled_ x then 1 else 0) →
  winv (R ∖ {[t]}) s'.
Proof.
  intros [W1 W2 W3] Ht Hx Hrts Hwf Hc Ha.
  assert (rts s t = if mvcc_enabled_ x then Some (read_ts_ x) else None) as Hr by (unfold rts; by rewrite Hx).
  split; [done| |].
  - intros ts. rewrite Hc, W2.
    assert (readers s' (R ∖ {[t]}) ts = readers s R ts ∖ {[t]}) as ->.
    { unfold readers. apply set_eq. intros t'. rewrite elem_of_difference, !elem_of_filter, elem_of_difference.
      destruct (decide (t' = t)) as [->|Hne]; [set_solver|]. split; intros; destruct_and?; split_and?; try set_solver.
      - rewrite <- Hrts by set_solver. done. - rewrite Hrts by set_solver. done. }
    destruct (decide (mvcc_enabled_ x = true ∧ ts = read_ts_ x)) as [[Hm ->]|Hn].
    + rewrite size_difference by (unfold readers; rewrite Hm in Hr; set_solver). rewrite size_singleton.
      assert (size (readers s R (read_ts_ x)) ≠ 0%nat); [|lia].
      apply size_non_empty_iff. unfold readers. rewrite Hm in Hr. set_solver.
    + assert (readers s R ts ∖ {[t]} = readers s R ts) as ->; [|lia].
      unfold readers. apply set_eq. intros t'. rewrite elem_of_difference, elem_of_filter, elem_of_singleton.
      split; [naive_solver|]. intros [H1 H2]. split; [done|]. intros ->. apply Hn.
      rewrite Hr in H1. destruct (mvcc_enabled_ x); naive_solver.
  - rewrite Ha, W3.
    assert (snapshots s' (R ∖ {[t]}) = snapshots s R ∖ {[t]}) as ->.
    { unfold snapshots. apply set_eq. intros t'. rewrite elem_of_difference, !elem_of_filter, elem_of_difference.
      destruct (decide (t' = t)) as [->|Hne]; [set_solver|].
      split; intros; destruct_and?; split_and?; try set_solver.
      - rewrite <- Hrts by set_solver. done. - rewrite Hrts by set_solver. done. }
    destruct (mvcc_enabled_ x) eqn:Hm.
    + assert (t ∈ snapshots s R) as Hin by (unfold snapshots; apply elem_of_filter; split; [rewrite Hr; eauto|done]).
      rewrite size_difference by set_solver. rewrite size_singleton.
      assert (size (snapshots s R) ≠ 0%nat); [|lia]. apply size_non_empty_iff. set_solver.
    + assert (snapshots s R ∖ {[t]} = snapshots s R) as ->; [|lia].
      unfold snapshots. apply set_eq. intros t'. rewrite elem_of_difference, elem_of_filter, elem_of_singleton.
      split; [naive_solver|]. intros [H1 H2]. split; [done|]. intros ->. rewrite Hr in H1. by destruct H1.
Qed.

(** ** Garbage collection *)

(** The watermark [w] is below every running snapshot. *)
Definition below R s (w : Z) : Prop := ∀ t x, t ∈ R → txns s !! t = Some x → mvcc_enabled_ x = true → w ≤ start_ts_ x.

Lemma gc_versions_same w v :
  writer_txn v ≠ INVALID_TXN_ID → gc_versions w v = (v, false).
Proof. intros H. unfold gc_versions. by rewrite decide_True. Qed.

Lemma gc_versions_fields w v :
  let v' := (gc_versions w v).1 in
  exists_ v' = exists_ v ∧ is_deleted v' = is_deleted v ∧ commit_ts v' = commit_ts v ∧ writer_txn v' = writer_txn v ∧
  tab_name v' = tab_name v ∧ rid v' = rid v.
Proof.
  unfold gc_versions. destruct (decide (writer_txn v ≠ INVALID_TXN_ID)); [done|].
  by destruct (exists_ v && is_deleted v && bool_decide (commit_ts v ≤ w)).
Qed.

Lemma gc_removable w v :
  (gc_versions w v).2 = true → writer_txn v = INVALID_TXN_ID ∧ commit_ts v ≤ w.
Proof.
  unfold gc_versions. destruct (decide (writer_txn v ≠ INVALID_TXN_ID)) as [|Hi]; [done|]. apply dec_stable in Hi.
  destruct (bool_decide (commit_ts v ≤ w)) eqn:E; [by apply bool_decide_eq_true in E|].
  by rewrite !andb_false_r.
Qed.

Lemma gc_entry_same w e : writer_txn (vs e) ≠ INVALID_TXN_ID → gc_entry w e = e.
Proof. intros H. unfold gc_entry. rewrite gc_versions_same by done. by destruct e. Qed.

(** States that differ in the version directory only. *)
Definition same_but_entries s s' : Prop :=
  fhs_ (sys s') = fhs_ (sys s) ∧ txns s' = txns s ∧ last_commit_ts_ s' = last_commit_ts_ s ∧
  running_txns_ s' = running_txns_ s ∧ active_mvcc_txn_count_ s' = active_mvcc_txn_count_ s ∧ next_txn_id_ s' = next_txn_id_ s.

Lemma gc_map_ok R s s' w :
  minv R s → below R s w → same_but_entries s s' → entries s' = gc_entry w <$> entries s →
  minv R s' ∧ stable R s s'.
Proof.
  intros [A B C D] Hb (F1 & F2 & F3 & _) He.
  assert (∀ tab r, phys s' tab r = phys s tab r) as Hph by (intros; unfold phys; by rewrite F1).
  split; [split|].
  - intros key e'. rewrite He, lookup_fmap_Some. intros (e & <- & Hl). destruct (A key e Hl) as [E1 E2 E3 E4].
    pose proof (gc_versions_fields w (vs e)) as (G1 & G2 & G3 & G4 & G5 & G6).
    split; simpl; rewrite ?G1, ?G4, ?G5, ?G6; [done|done|by rewrite Hph|].
    intros Hw. rewrite gc_entry_same by done. rewrite F2. auto.
  - intros t x key Ht. rewrite F2. intros Hx Hk. destruct (B t x key Ht Hx Hk) as (e & Hl & Hw).
    exists (gc_entry w e). rewrite He, lookup_fmap, Hl. split; [done|].
    pose proof (gc_versions_fields w (vs e)) as (G1 & G2 & G3 & G4 & G5 & G6). simpl. congruence.
  - intros t Ht. rewrite F2, F3. auto.
  - intros tab tb. rewrite F1. apply D.
  - intros t x Ht Hx Hm. rewrite F2. split_and!; [done| |].
    2:{ intros k (e & Hl & Hw & Hn). exists (gc_entry w e). rewrite He, lookup_fmap, Hl.
        pose proof (gc_versions_fields w (vs e)) as (G1 & G2 & G3 & G4 & G5 & G6).
        split_and!; [done|by simpl; rewrite G4|]. unfold newer in *. simpl. rewrite G4. destruct (decide _); [by rewrite G3|done]. }
    intros tab r. unfold seen. rewrite Hph.
    destruct (phys s tab r) as [p|]; [|done]. simpl. rewrite He, lookup_fmap.
    destruct (entries s !! MvccKey tab r) as [e|] eqn:Hl; [|done]. simpl.
    destruct (decide (writer_txn (vs e) = t)) as [Ew|Ew].
    + destruct (C t Ht) as [Hi _]. rewrite gc_versions_same by congruence. done.
    + destruct (C t Ht) as [Hi _]. apply read_collected; try done; [by apply (Hb t)|apply (A _ _ Hl)].
Qed.

(** An entry whose head every running snapshot reads may go. *)
Lemma erase_ok R s s' w key e :
  minv R s → below R s w → entries s !! key = Some e → writer_txn (vs e) = INVALID_TXN_ID → commit_ts (vs e) ≤ w →
  entries s' = delete key (entries s) → txns s' = txns s → last_commit_ts_ s' = last_commit_ts_ s → heap_wf s' →
  (∀ tab r, phys s' tab r =
     if decide (is_deleted (vs e) = true ∧ tab = tab_name (vs e) ∧ r = rid (vs e)) then None else phys s tab r) →
  minv R s' ∧ stable R s s'.
Proof.
  intros [A B C D] Hb Hl Hw Hc He F2 F3 Hh Hph. destruct (A key e Hl) as [E1 E2 E3 E4].
  assert (∀ k e0, k ≠ key → entries s !! k = Some e0 → phys s' (tab_name (vs e0)) (rid (vs e0)) = phys s (tab_name (vs e0)) (rid (vs e0))) as Hoth.
  { intros k e0 Hne Hl0. rewrite Hph, decide_False; [done|]. intros (_ & E5 & E6). destruct (A k e0 Hl0) as [_ E7 _ _].
    apply Hne. by rewrite E7, E2, E5, E6. }
  split; [split|].
  - intros k e0. rewrite He, lookup_delete_Some. intros [Hne Hl0]. destruct (A k e0 Hl0) as [E5 E6 E7 E8].
    split; try done; [by rewrite (Hoth k e0)|]. by rewrite F2.
  - intros t x k Ht. rewrite F2. intros Hx Hk. destruct (B t x k Ht Hx Hk) as (e0 & Hl0 & Hw0). exists e0.
    rewrite He, lookup_delete_ne; [done|]. intros <-. destruct (C t Ht). congruence.
  - intros t Ht. rewrite F2, F3. auto.
  - done.
  - intros t x Ht Hx Hm. rewrite F2. destruct (C t Ht) as [Hi _]. split_and!; [done| |].
    2:{ intros k (e0 & Hl0 & Hw0 & Hn0). exists e0. rewrite He, lookup_delete_ne; [done|]. intros <-.
        rewrite Hl in Hl0. injection Hl0 as <-. unfold newer in Hn0. rewrite decide_True in Hn0 by done.
        specialize (Hb t x Ht Hx Hm). lia. }
    intros tab r. destruct (decide (MvccKey tab r = key)) as [Ek|Ek].
    + rewrite E2 in Ek. apply MvccKey_inj in Ek as [-> ->].
      destruct E3 as [p Hp]. rewrite (seen_entry s _ _ t x p e Hp) by (by rewrite <- E2).
      rewrite read_other by (done || congruence). rewrite Hw, E1, (bool_decide_true (commit_ts (vs e) ≤ start_ts_ x)).
      2:{ specialize (Hb t x Ht Hx Hm). lia. }
      simpl. destruct (is_deleted (vs e)).
      * apply seen_none. by rewrite Hph, decide_True.
      * apply seen_plain; [by rewrite Hph, decide_False by naive_solver|]. by rewrite He, <- E2, lookup_delete_eq.
    + apply seen_eq; [|by rewrite He, lookup_delete_ne]. rewrite Hph, decide_False; [done|].
      intros (_ & -> & ->). by apply Ek.
Qed.

Lemma collect_ok R s w key e :
  minv R s → below R s w → entries s !! key = Some e → writer_txn (vs e) = INVALID_TXN_ID → commit_ts (vs e) ≤ w →
  ∃ s', collect key s = (Ok tt, s') ∧ minv R s' ∧ stable R s s' ∧ txns s' = txns s ∧ (∀ t, frame t s s') ∧
        entries s' = delete key (entries s).
Proof.
  intros Hinv Hb Hl Hw Hc. destruct (mi_entry R s Hinv key e Hl) as [E1 E2 [p E3] E4].
  unfold collect. unfold mbind at 1, M_bind at 1, get. fold (entries s). rewrite Hl.
  assert (∃ s1, remove_physical (vs e) s = (Ok tt, s1) ∧ entries s1 = entries s ∧ txns s1 = txns s ∧ (∀ t, frame t s s1) ∧
    heap_wf s1 ∧ ∀ tab r, phys s1 tab r =
     if decide (is_deleted (vs e) = true ∧ tab = tab_name (vs e) ∧ r = rid (vs e)) then None else phys s tab r)
    as (s1 & Hrm & G1 & G2 & G3 & G4 & G5).
  { unfold remove_physical. rewrite E1. simpl. destruct (is_deleted (vs e)); simpl.
    2:{ exists s. split_and!; try done. apply Hinv. }
    unfold phys in E3. destruct (fhs_ (sys s) !! tab_name (vs e)) as [tb|] eqn:Etb; [|done]. simpl in E3.
    assert (Recovery.is_record (rid (vs e)) tb = true) as Hrec.
    { unfold Recovery.is_record. rewrite E3. by rewrite bool_decide_true. }
    rewrite Hrec. unfold try_catch, on_table, Recovery.at_table. rewrite Etb.
    unfold Recovery.delete_record, mbind, M_bind, get, put. rewrite (mi_heap R s Hinv _ _ Etb _ _ E3), Hrec. simpl.
    eexists. split; [reflexivity|]. split_and!; try done.
    all: set (s1 := set_sys _ _).
    all: assert (heap_changed (tab_name (vs e)) (delete (rid (vs e))) s s1) as Hch
      by (by exists tb, (Recovery.with_records (delete (rid (vs e)) (Recovery.t_records tb)) tb)).
    - eapply heap_wf_del; [apply Hinv|exact Hch].
    - intros tab r. rewrite (phys_del _ _ _ _ Hch). destruct (decide (tab = tab_name (vs e) ∧ r = rid (vs e))) as [H|H].
      + by rewrite decide_True by naive_solver.
      + by rewrite decide_False by naive_solver. }
  rewrite (bind_ok _ _ _ _ _ Hrm). unfold on_versions, modify. eexists. split; [reflexivity|].
  set (s2 := set_versions _ _).
  assert (entries s2 = delete key (entries s)) as He2 by (unfold entries at 1, s2; simpl; fold (entries s1); by rewrite G1).
  destruct (erase_ok R s s2 w key e) as [H1 H2]; try done.
  - apply (G3 0).
  - split_and!; try done. intros t. eapply frame_trans; [apply (G3 t)|done].
Qed.

Lemma mfor_collect_ok R w ks : ∀ s,
  NoDup ks → minv R s → below R s w →
  (∀ k, k ∈ ks → ∃ e, entries s !! k = Some e ∧ writer_txn (vs e) = INVALID_TXN_ID ∧ commit_ts (vs e) ≤ w) →
  ∃ s', mfor collect ks s = (Ok tt, s') ∧ minv R s' ∧ stable R s s' ∧ txns s' = txns s ∧ ∀ t, frame t s s'.
Proof.
  induction ks as [|k ks IH]; intros s Hnd Hinv Hb Hks; [by exists s|].
  apply NoDup_cons in Hnd as [Hk Hnd]. destruct (Hks k ltac:(set_solver)) as (e & He & Hw & Hc).
  destruct (collect_ok R s w k e Hinv Hb He Hw Hc) as (s1 & Hrun & Hinv1 & Hst1 & Htx1 & Hfr1 & Hen1).
  destruct (IH s1 Hnd Hinv1) as (s2 & Hrun2 & Hinv2 & Hst2 & Htx2 & Hfr2).
  - intros t x Ht. rewrite Htx1. by apply Hb.
  - intros k' Hk'. rewrite Hen1, lookup_delete_ne by set_solver. apply Hks. set_solver.
  - exists s2. simpl. rewrite (bind_ok _ _ _ _ _ Hrun), Hrun2. split_and!; try done; [by eapply stable_trans|congruence|].
    intros t. by eapply frame_trans.
Qed.

Lemma GarbageCollection_ok R s :
  minv R s → below R s (Wm.GetWatermark (running_txns_ s)) →
  ∃ s', GarbageCollection s = (Ok tt, s') ∧ minv R s' ∧ stable R s s' ∧ txns s' = txns s ∧ ∀ t, frame t s s'.
Proof.
  intros Hinv Hb. unfold GarbageCollection. unfold mbind at 1, M_bind at 1, get.
  set (w := Wm.GetWatermark (running_txns_ s)) in *. fold (entries s).
  unfold mbind at 1, M_bind at 1, on_versions, modify. set (s1 := set_versions _ s).
  destruct (gc_map_ok R s s1 w Hinv Hb) as [Hinv1 Hst1]; [done|done|].
  destruct (mfor_collect_ok R w (fst <$> filter (λ p, (gc_versions w (vs p.2)).2 = true) (map_to_list (entries s))) s1)
    as (s2 & Hrun & Hinv2 & Hst2 & Htx2 & Hfr2); try done.
  - apply (sublist_NoDup _ _ (NoDup_fst_map_to_list (entries s))). apply fmap_sublist, sublist_filter.
  - intros k ([k' e] & -> & [Hg Hin]%list_elem_of_filter)%list_elem_of_fmap. apply elem_of_map_to_list in Hin. simpl in *.
    exists (gc_entry w e). change (entries s1) with (gc_entry w <$> entries s). rewrite lookup_fmap, Hin. split; [done|].
    pose proof (gc_versions_fields w (vs e)) as (G1 & G2 & G3 & G4 & G5 & G6). simpl. rewrite G3, G4. by apply gc_removable.
  - rewrite (bind_ok _ _ _ _ _ Hrun). eexists. split; [reflexivity|]. split_and!; try done.
    + by eapply minv_ext; [..|exact Hinv2].
    + eapply stable_trans; [exact Hst1|]. exact Hst2.
    + intros t. destruct (Hfr2 t). by split.
Qed.

(** ** Silent steps *)

Lemma silent_rts t s s' t' : silent t s s' → is_Some (txns s !! t) → rts s' t' = rts s t'.
Proof.
  intros [[F1 _ _ _ _] _ _ Hx] [x Ht]. unfold rts. destruct (decide (t' = t)) as [->|Hne]; [|by rewrite F1].
  destruct (Hx x Ht) as (x' & Hx' & _ & E1 & _ & E2 & _). rewrite Ht, Hx'. simpl. by rewrite E1, E2.
Qed.

Lemma silent_ok R t s s' :
  silent t s s' → is_Some (txns s !! t) → minv R s → minv R s' ∧ stable (R ∖ {[t]}) s s'.
Proof.
  intros [[F1 F2 F3 F4 F5] Fe Fh Fx] [x Hx] [A B C D]. destruct (Fx x Hx) as (x' & Hx' & E1 & E2 & E3 & E4 & E5).
  assert (∀ tab r, phys s' tab r = phys s tab r) as Hph by (intros; unfold phys; by rewrite Fh).
  split; [split|].
  - intros k e. rewrite Fe. intros He. destruct (A k e He) as [G1 G2 G3 G4]. split; try done; [by rewrite Hph|].
    intros Hw. destruct (G4 Hw) as [Hp (x0 & Hx0 & Hin)]. split; [done|].
    destruct (decide (writer_txn (vs e) = t)) as [Ew|Ew].
    + rewrite Ew in *. exists x'. split; [done|]. rewrite E5. congruence.
    + exists x0. by rewrite F1.
  - intros t0 x0 k Ht0 Hx0 Hin. rewrite Fe. destruct (decide (t0 = t)) as [->|Hn].
    + rewrite Hx' in Hx0. injection Hx0 as <-. rewrite E5 in Hin. by eapply B.
    + rewrite F1 in Hx0 by done. by eapply B.
  - intros t0 Ht0. destruct (C t0 Ht0) as [Hi (x0 & Hx0 & Hs)]. split; [done|]. rewrite F2.
    destruct (decide (t0 = t)) as [->|Hn].
    + exists x'. split; [done|]. rewrite E3, E4. congruence.
    + exists x0. by rewrite F1.
  - intros tab tb. rewrite Fh. apply D.
  - intros t0 x0 [Ht0 Hn%not_elem_of_singleton]%elem_of_difference Hx0 Hm. rewrite F1 by done.
    split_and!; [done| |intros k; by apply overwritten_ext]. intros tab r. apply seen_eq; [done|by rewrite Fe].
Qed.

Lemma silent_winv R t s s' : silent t s s' → is_Some (txns s !! t) → winv R s → winv R s'.
Proof.
  intros Hs Ht [W1 W2 W3]. pose proof (λ t', silent_rts t s s' t' Hs Ht) as Hr. destruct Hs as [[F1 F2 F3 F4 F5] _ _ _].
  split.
  - by rewrite F4.
  - intros ts. rewrite F4, W2. do 2 f_equal. unfold readers. apply set_eq. intros t'. rewrite !elem_of_filter. by rewrite Hr.
  - rewrite F3, W3. do 2 f_equal. unfold snapshots. apply set_eq. intros t'. rewrite !elem_of_filter. by rewrite Hr.
Qed.

(** ** Commit *)

Lemma commit_entry_same t ts e : writer_txn (vs e) ≠ t → commit_entry t ts e = e.
Proof. intros H. unfold commit_entry. by rewrite decide_False. Qed.

(** The versions of [t] get the timestamp [ts], above all running snapshots. *)
Lemma commit_entries_ok R s s1 t x ts :
  minv R s → t ∈ R → txns s !! t = Some x → last_commit_ts_ s < ts → last_commit_ts_ s1 = ts →
  entries s1 = map_imap (λ k e, Some (if decide (k ∈ mvcc_write_keys_ x) then commit_entry t ts e else e)) (entries s) →
  fhs_ (sys s1) = fhs_ (sys s) → (∀ t', t' ≠ t → txns s1 !! t' = txns s !! t') →
  minv (R ∖ {[t]}) s1 ∧ stable (R ∖ {[t]}) s s1 ∧ published (R ∖ {[t]}) s s1 (mvcc_write_keys_ x).
Proof.
  intros [A B C D] Ht Hx Hts F2 He Fh F1. destruct (C t Ht) as [Hti _].
  assert (∀ tab r, phys s1 tab r = phys s tab r) as Hph by (intros; unfold phys; by rewrite Fh).
  assert (∀ k, entries s1 !! k = commit_entry t ts <$> entries s !! k) as Hl.
  { intros k. rewrite He, map_lookup_imap. destruct (entries s !! k) as [e|] eqn:Ee; [|done]. simpl. f_equal.
    destruct (decide (k ∈ mvcc_write_keys_ x)) as [|Hk]; [done|]. symmetry. apply commit_entry_same. intros Ew.
    destruct (A k e Ee) as [_ _ _ G4]. destruct G4 as [_ (x0 & Hx0 & Hin)]; [congruence|]. rewrite Ew, Hx in Hx0. congruence. }
  split_and!; [split| |].
  - intros k e1. rewrite Hl, fmap_Some. intros (e & Ee & ->). destruct (A k e Ee) as [G1 G2 G3 G4].
    unfold commit_entry. destruct (decide (writer_txn (vs e) = t)) as [Ew|Ew].
    + split; simpl; try done. by rewrite Hph.
    + split; try done; [by rewrite Hph|]. intros Hw. destruct (G4 Hw) as [Hp (x0 & Hx0 & Hin)]. split; [done|].
      exists x0. by rewrite F1.
  - intros t0 x0 k [Ht0 Hn%not_elem_of_singleton]%elem_of_difference Hx0 Hin. rewrite F1 in Hx0 by done.
    destruct (B t0 x0 k Ht0 Hx0 Hin) as (e & Ee & Hw). exists e. rewrite Hl, Ee. simpl.
    by rewrite commit_entry_same by congruence.
  - intros t0 [Ht0 Hn%not_elem_of_singleton]%elem_of_difference. destruct (C t0 Ht0) as [Hi (x0 & Hx0 & Hs)].
    split; [done|]. exists x0. rewrite F1 by done. split_and!; [done|apply Hs|lia|lia].
  - intros tab tb. rewrite Fh. apply D.
  - intros t0 x0 [Ht0 Hn%not_elem_of_singleton]%elem_of_difference Hx0 Hm. rewrite F1 by done. split; [done|].
    destruct (C t0 Ht0) as [Hi (x0' & Hx0' & Hs)]. rewrite Hx0 in Hx0'. injection Hx0' as <-. split.
    2:{ intros k (e & Ee & Hwe & Hne). exists (commit_entry t ts e). rewrite Hl, Ee. split; [done|]. unfold commit_entry.
        destruct (decide (writer_txn (vs e) = t)); [|done]. split; [simpl; congruence|]. unfold newer. simpl. lia. }
    intros tab r. unfold seen. rewrite Hph, Hl. destruct (phys s tab r) as [p|]; [|done]. simpl.
    destruct (entries s !! MvccKey tab r) as [e|]; [|done]. simpl. unfold commit_entry.
    destruct (decide (writer_txn (vs e) = t)) as [Ew|Ew]; [|done]. simpl.
    rewrite read_other by (done || (simpl; congruence)). simpl. rewrite (bool_decide_false (ts ≤ start_ts_ x0)) by lia.
    rewrite andb_false_r. symmetry. apply read_pending; congruence.
  - intros t0 x0 [Ht0 Hn%not_elem_of_singleton]%elem_of_difference Hx0 Hm key Hk.
    destruct (C t0 Ht0) as [Hi (x0' & Hx0' & Hs)]. rewrite Hx0 in Hx0'. injection Hx0' as <-.
    destruct (B t x key Ht Hx Hk) as (e & Ee & Ew). exists (commit_entry t ts e). rewrite Hl, Ee. split; [done|].
    unfold commit_entry. rewrite decide_True by done. split; [simpl; congruence|]. unfold newer. simpl. lia.
Qed.

(** Where transactions differ in timestamps and logs only, and the watermark is left. *)
Record left_by R s s' t x : Prop := mk_left {
  lf_entries : entries s' = entries s;
  lf_heap : fhs_ (sys s') = fhs_ (sys s);
  lf_txns : txns s' = txns s;
  lf_last : last_commit_ts_ s' = last_commit_ts_ s;
  lf_next : next_txn_id_ s' = next_txn_id_ s;
  lf_wwf : Wm.wwf (running_txns_ s');
  lf_count : ∀ ts, Wm.count (running_txns_ s') ts =
     Wm.count (running_txns_ s) ts - if decide (mvcc_enabled_ x = true ∧ ts = read_ts_ x) then 1 else 0;
  lf_active : active_mvcc_txn_count_ s' = active_mvcc_txn_count_ s - (if mvcc_enabled_ x then 1 else 0)
}.

(** After [UpdateCommitTs] (for a commit), [leave_snapshots] and the cleanup of the graph. *)
Lemma leave_ok R s s0 t x :
  winv R s → t ∈ R → txns s !! t = Some x →
  entries s0 = entries s → fhs_ (sys s0) = fhs_ (sys s) → txns s0 = txns s → last_commit_ts_ s0 = last_commit_ts_ s →
  next_txn_id_ s0 = next_txn_id_ s → active_mvcc_txn_count_ s0 = active_mvcc_txn_count_ s →
  Wm.wwf (running_txns_ s0) → (∀ ts, Wm.count (running_txns_ s0) ts = Wm.count (running_txns_ s) ts) →
  ∃ s', (leave_snapshots x;; CleanupSerializableStateLocked) s0 = (Ok tt, s') ∧ left_by R s s' t x.
Proof.
  intros Hw Ht Hx E1 E2 E3 E4 E5 E6 Hwf Hc. eexists. split; [reflexivity|].
  destruct (mvcc_enabled_ x) eqn:Hm; simpl; split; simpl; rewrite ?Hm; try done.
  - by apply Wm.RemoveTxn_wwf.
  - intros ts. destruct (winv_reader R s t x Hw Ht Hx Hm) as [Hpos _]. rewrite Wm.RemoveTxn_count by (by rewrite Hc).
    rewrite Hc. destruct (decide (ts = read_ts_ x)) as [->|Hn].
    + by rewrite decide_True.
    + by rewrite decide_False by naive_solver.
  - by rewrite E6.
  - intros ts. rewrite Hc, decide_False by naive_solver. lia.
  - rewrite E6. lia.
Qed.

Lemma left_winv R s s' t x :
  winv R s → t ∈ R → txns s !! t = Some x → left_by R s s' t x → winv (R ∖ {[t]}) s'.
Proof.
  intros Hw Ht Hx [L1 L2 L3 L4 L5 L6 L7 L8]. eapply winv_remove; try done. intros t' _ _. unfold rts. by rewrite L3.
Qed.

Lemma stable_ext R s s' :
  entries s' = entries s → fhs_ (sys s') = fhs_ (sys s) → txns s' = txns s → stable R s s'.
Proof.
  intros He Hf Ht t x _ Hx _. rewrite Ht. split_and!; [done| |intros k; by apply overwritten_ext]. intros tab r. apply seen_eq; [unfold phys; by rewrite Hf|by rewrite He].
Qed.

Lemma winv_ext R s s' :
  running_txns_ s' = running_txns_ s → active_mvcc_txn_count_ s' = active_mvcc_txn_count_ s →
  (∀ t, t ∈ R → rts s' t = rts s t) → winv R s → winv R s'.
Proof.
  intros Hr Ha Ht [W1 W2 W3]. split; [by rewrite Hr| |].
  - intros ts. rewrite Hr, W2. do 2 f_equal. unfold readers. apply set_eq. intros t. rewrite !elem_of_filter.
    split; intros [H1 H2]; (split; [|done]); [by rewrite Ht|by rewrite <- Ht].
  - rewrite Ha, W3. do 2 f_equal. unfold snapshots. apply set_eq. intros t. rewrite !elem_of_filter.
    split; intros [H1 H2]; (split; [|done]); [by rewrite Ht|by rewrite <- Ht].
Qed.

Lemma winv_below R s : minv R s → winv R s → below R s (Wm.GetWatermark (running_txns_ s)).
Proof.
  intros Hinv Hw t x Ht Hx Hm. destruct (winv_reader R s t x Hw Ht Hx Hm) as (_ & Hle & _).
  destruct (mi_run R s Hinv t Ht) as [_ (x' & Hx' & E & _)]. rewrite Hx in Hx'. injection Hx' as <-. by rewrite E.
Qed.

(** The invariants with what one step of [t] guarantees. *)
Record inv R s : Prop := mk_inv { inv_m : minv R s; inv_w : winv R s }.

Lemma gc_ok R s :
  inv R s → ∃ s', GarbageCollection s = (Ok tt, s') ∧ inv R s' ∧ stable R s s' ∧ txns s' = txns s.
Proof.
  intros [Hm Hw]. destruct (GarbageCollection_ok R s Hm (winv_below R s Hm Hw)) as (s' & Hrun & Hm' & Hst & Htx & Hfr).
  exists s'. split_and!; try done. split; [done|]. destruct (Hfr 0) as [_ _ F3 F4 _].
  eapply winv_ext; [..|exact Hw]; try done. intros t _. unfold rts. by rewrite Htx.
Qed.

Lemma commit_mvcc_ok R s t x :
  inv R s → t ∈ R → txns s !! t = Some x →
  ∃ s', commit_mvcc t s = (Ok tt, s') ∧ inv (R ∖ {[t]}) s' ∧ stable (R ∖ {[t]}) s s' ∧
        published (R ∖ {[t]}) s s' (mvcc_write_keys_ x) ∧ is_Some (txns s' !! t).
Proof.
  intros [Hm Hw] Ht Hx. set (ts := last_commit_ts_ s + 1).
  assert (∃ s1, publish t s = (Ok ts, s1) ∧ last_commit_ts_ s1 = ts ∧
    entries s1 = map_imap (λ k e, Some (if decide (k ∈ mvcc_write_keys_ x) then commit_entry t ts e else e)) (entries s) ∧
    fhs_ (sys s1) = fhs_ (sys s) ∧ txns s1 = <[t := set_commit_ts ts x]> (txns s) ∧
    running_txns_ s1 = running_txns_ s ∧ active_mvcc_txn_count_ s1 = active_mvcc_txn_count_ s)
    as (s1 & Hpub & P1 & P2 & P3 & P4 & P5 & P6).
  { eexists. split; [unfold publish, mbind, M_bind, get, txn_of, deref; rewrite Hx; reflexivity|]. by split_and!. }
  set (x1 := set_commit_ts ts x) in *. assert (txns s1 !! t = Some x1) as Hx1 by (by rewrite P4, lookup_insert_eq).
  destruct (commit_entries_ok R s s1 t x ts Hm Ht Hx) as (Hm1 & Hst1 & Hpb); try done; [lia|..].
  { intros t' Hn. by rewrite P4, lookup_insert_ne. }
  assert (winv R s1) as Hw1.
  { eapply winv_ext; [exact P5|exact P6| |exact Hw]. intros t' _. unfold rts. rewrite P4.
    destruct (decide (t' = t)) as [->|Hn]; [by rewrite lookup_insert_eq, Hx|by rewrite lookup_insert_ne]. }
  destruct (leave_ok R s1 (set_running (Wm.UpdateCommitTs ts (running_txns_ s1)) s1) t x1) as (s2 & Hrun2 & Hlf); try done.
  { apply Wm.UpdateCommitTs_wwf, Hw1. }
  pose proof (left_winv R s1 s2 t x1 Hw1 Ht Hx1 Hlf) as Hw2. destruct Hlf as [L1 L2 L3 L4 L5 L6 L7 L8].
  pose proof (minv_ext _ s1 s2 L1 L2 L3 L4 Hm1) as Hm2.
  set (s3 := set_gc_counter (gc_commit_counter_ s2 + 1) s2).
  assert (inv (R ∖ {[t]}) s3) as Hi3 by (split; [by eapply minv_ext; [..|exact Hm2]|by eapply winv_ext; [..|exact Hw2]]).
  assert (stable (R ∖ {[t]}) s1 s3) as Hst3 by (by apply stable_ext).
  assert (commit_mvcc t s = (if decide (Z.land (gc_commit_counter_ s2) 1023 = 1023) then GarbageCollection else mret tt) s3) as ->.
  { unfold commit_mvcc. rewrite (bind_ok (txn_of t) _ s x s) by (unfold txn_of, deref; by rewrite Hx).
    rewrite (bind_ok _ _ _ _ _ Hpub). apply bind_inv_ok in Hrun2 as ([] & sa & Ha & Hb).
    rewrite (bind_ok _ _ s1 tt (set_running (Wm.UpdateCommitTs ts (running_txns_ s1)) s1)) by done.
    rewrite (bind_ok _ _ _ _ _ Ha), (bind_ok _ _ _ _ _ Hb). reflexivity. }
  destruct (decide (Z.land (gc_commit_counter_ s2) 1023 = 1023)).
  - destruct (gc_ok _ s3 Hi3) as (s4 & Hrun4 & Hi4 & Hst4 & Htx4). exists s4. split_and!; try done.
    + eapply stable_trans; [exact Hst1|]. by eapply stable_trans.
    + eapply published_stable; [exact Hpb|done|]. by eapply stable_trans.
    + rewrite Htx4. simpl. rewrite L3, Hx1. eauto.
  - exists s3. split_and!; try done.
    + by eapply stable_trans.
    + by eapply published_stable.
    + simpl. rewrite L3, Hx1. eauto.
Qed.

(** ** The rest of commit and abort *)

Section with_system.
Context (std_hash : Z → Z) (os_fd : gmap Z string → Z).

Lemma silently_log_end t rc : silently t (log_end os_fd t rc).
Proof.
  intros s. unfold log_end. unfold mbind at 1, M_bind at 1, txn_of, deref.
  destruct (txns s !! t) as [x|] eqn:Hx; [|apply silent_refl]. simpl.
  unfold mbind at 1, M_bind at 1. pose proof (silently_log t (Log.add_log_to_buffer os_fd (rc (prev_lsn_ x))) s) as Hl.
  assert (txns (on_log (Log.add_log_to_buffer os_fd (rc (prev_lsn_ x))) s).2 = txns s) as Etx.
  { unfold on_log. by destruct (Log.add_log_to_buffer _ _ _). }
  destruct (on_log _ s) as [[lsn|e] s1]; [|done]. simpl in *.
  eapply silent_trans; [exact Hl|]. eapply silent_trans; [|apply silently_log].
  split; try done.
  - split; try done. intros t' Ht. simpl. by rewrite lookup_insert_ne.
  - intros x0 Hx0. simpl. rewrite lookup_insert_eq. eexists. split; [done|]. rewrite Etx, Hx in Hx0. by injection Hx0 as <-.
Qed.

Lemma silently_release t : silently t (release_locks std_hash t).
Proof. apply silently_locks. Qed.
Lemma silently_state t st : silently t (set_txn_state t st).
Proof. apply silently_locks. Qed.
Lemma silently_clear t : silently t (ClearTxnStateLocked t).
Proof. apply silently_ser. Qed.

Lemma silently_unregister_fd t fd r : silently t (UnregisterPhysicalInsert_fd fd r t).
Proof.
  intros s. unfold UnregisterPhysicalInsert_fd, modify. simpl. destruct (decide _); [|apply silent_refl].
  split; try done. intros x Hx. by exists x.
Qed.
Lemma silently_unregister t tab r : silently t (UnregisterPhysicalInsert tab r t).
Proof.
  apply silently_bind; [|intros; apply silently_unregister_fd]. intros s. unfold MakePhysicalInsertKey.
  destruct (fds_ (sys s) !! tab); apply silent_refl.
Qed.
Lemma silently_unregister_write t w : silently t (unregister_write t w).
Proof.
  unfold unregister_write. destruct (wtype_ w); [|apply silently_ret..].
  destruct (decide _); [apply silently_unregister_fd|apply silently_unregister].
Qed.
Lemma silently_unregister_insert t w : silently t (unregister_insert t w).
Proof. unfold unregister_insert. destruct (wtype_ w); [apply silently_unregister|apply silently_ret..]. Qed.

(** Running a silent computation. *)
Lemma run_silent {A} R t (m : M TransactionManager A) s a s' :
  silently t m → m s = (a, s') → is_Some (txns s !! t) → inv R s →
  inv R s' ∧ stable (R ∖ {[t]}) s s' ∧ silent t s s' ∧ is_Some (txns s' !! t).
Proof.
  intros Hm Hrun Ht [Hi Hw]. specialize (Hm s). rewrite Hrun in Hm. simpl in Hm.
  destruct (silent_ok R t s s' Hm Ht Hi) as [Hi' Hst].
  split_and!; try done; [split; [done|by eapply silent_winv]|].
  destruct Ht as [x Hx]. destruct (sl_txn _ _ _ Hm x Hx) as (x' & Hx' & _). eauto.
Qed.

(** A transaction with neither a snapshot nor versions leaves. *)
Lemma leave_plain R s t x :
  inv R s → t ∈ R → txns s !! t = Some x → mvcc_enabled_ x = false → inv (R ∖ {[t]}) s.
Proof.
  intros [Hm Hw] Ht Hx Hmv. split; [eapply minv_weaken; [|exact Hm]; set_solver|].
  eapply (winv_remove R s s t x); try done; [apply Hw| |].
  - intros ts. rewrite Hmv, decide_False by naive_solver. lia.
  - rewrite Hmv. lia.
Qed.

Lemma commit_ok R s t x s' :
  inv R s → t ∈ R → txns s !! t = Some x → commit std_hash os_fd t s = (Ok tt, s') →
  inv (R ∖ {[t]}) s' ∧ stable (R ∖ {[t]}) s s' ∧ published (R ∖ {[t]}) s s' (mvcc_write_keys_ x).
Proof.
  intros Hi Ht Hx Hrun. unfold commit in Hrun. set (R' := R ∖ {[t]}).
  rewrite (bind_ok (txn_of t) _ s x s) in Hrun by (unfold txn_of, deref; by rewrite Hx).
  apply bind_inv_ok in Hrun as ([] & s1 & H1 & Hrun).
  assert (silently t (if decide (write_set_ x ≠ [] ∨ mvcc_write_keys_ x ≠ ∅)
    then log_end os_fd t (Log.CommitLogRecord t) else mret tt)) as Hsl.
  { destruct (decide _); [apply silently_log_end|apply silently_ret]. }
  destruct (run_silent R t _ s _ s1 Hsl H1) as (Hi1 & Hst1 & Hs1 & Ht1); [by rewrite Hx|done|].
  destruct (sl_txn _ _ _ Hs1 x Hx) as (x1 & Hx1 & _ & Emv & _ & _ & Eks).
  apply bind_inv_ok in Hrun as ([] & s2 & H2 & Hrun).
  assert (inv R' s2 ∧ stable R' s s2 ∧ published R' s s2 (mvcc_write_keys_ x) ∧ is_Some (txns s2 !! t)) as (Hi2 & Hst2 & Hpb & Ht2).
  { destruct (decide (mvcc_enabled_ x = true ∨ mvcc_write_keys_ x ≠ ∅)) as [Hc|Hc].
    - destruct (commit_mvcc_ok R s1 t x1 Hi1 Ht Hx1) as (s2' & Hrun2 & Hi2 & Hst2 & Hpb & Ht2). rewrite H2 in Hrun2.
      injection Hrun2 as <-. split_and!; try done; [by eapply stable_trans|].
      intros t0 x0 Ht0 Hx0 Hm0 key Hk. destruct (Hst1 t0 x0 Ht0 Hx0 Hm0) as (Hx01 & _). apply (Hpb t0 x0 Ht0 Hx01 Hm0). congruence.
    - injection H2 as <-. split_and!; try done; [|intros t0 x0 _ _ _ key Hk; destruct Hc; right; intros E; rewrite E in Hk; set_solver]. eapply leave_plain; try done. rewrite Emv. by destruct (mvcc_enabled_ x); naive_solver. }
  assert (silently t (
    mfor (unregister_write t) (reverse (write_set_ x));;
    x ← txn_of t; put_txn t (set_write_set [] x);; release_locks std_hash t;; set_txn_state t Lm.COMMITTED)) as Hsil.
  { apply silently_bind; [apply silently_mfor; intros; apply silently_unregister_write|]. intros _.
    apply silently_modify_txn; [done|]. intros _. apply silently_bind; [apply silently_release|]. intros _. apply silently_state. }
  destruct (run_silent R' t _ s2 _ s' Hsil Hrun Ht2 Hi2) as (Hi3 & Hst3 & _ & _).
  assert (stable R' s2 s') as Hst3' by (eapply stable_sub; [|exact Hst3]; set_solver).
  split_and!; [done|by eapply stable_trans|by eapply published_stable].
Qed.

(** ** Abort *)

(** A change of the heap at one record. *)
Record heap_step s s1 : Prop := mk_heap_step {
  hs_entries : entries s1 = entries s;
  hs_txns : txns s1 = txns s;
  hs_frame : ∀ t, frame t s s1
}.

Lemma heap_step_trans s1 s2 s3 : heap_step s1 s2 → heap_step s2 s3 → heap_step s1 s3.
Proof. intros [A B C] [A' B' C']. split; [congruence..|]. intros t. by eapply frame_trans. Qed.

Lemma table_is_record_ok tab r s b s1 :
  table_is_record tab r s = (Ok b, s1) →
  heap_step s s1 ∧ fhs_ (sys s1) = fhs_ (sys s) ∧ b = bool_decide (is_Some (phys s tab r)).
Proof.
  unfold table_is_record. intros (tb & tb' & H1 & H2 & H3 & H4 & H5 & H6)%on_table_ok. injection H2 as <- <-.
  split_and!; [split; try done; unfold entries; by rewrite H4|by rewrite H3, insert_id|].
  unfold phys. rewrite H1. done.
Qed.

Lemma on_table_heap {A} tab (m : M Recovery.Table A) s a s1 f :
  on_table tab m s = (Ok a, s1) →
  (∀ tb tb', m tb = (Ok a, tb') → Recovery.t_records tb' = f (Recovery.t_records tb) ∧ Recovery.t_pages tb' = Recovery.t_pages tb) →
  heap_step s s1 ∧ heap_changed tab f s s1.
Proof.
  intros (tb & tb' & H1 & H2 & H3 & H4 & H5 & H6)%on_table_ok Hf. destruct (Hf tb tb' H2) as [E1 E2].
  split; [split; try done; unfold entries; by rewrite H4|]. by exists tb, tb'.
Qed.

Lemma heap_step_locks {A} (m : M Lm.LockManager A) s : heap_step s (on_locks m s).2 ∧ fhs_ (sys (on_locks m s).2) = fhs_ (sys s).
Proof. unfold on_locks. by destruct (m (locks (sys s))). Qed.

(** The record after a rollback: gone if the transaction inserted it, else as it was. *)
Definition rolled_back (e : MvccEntry) : option bytes :=
  if rollback_delete_physical e then None else Some (rollback_record (vs e)).

(** What the rollback of a record does to the heap. *)
Definition rolled s s1 tab r e : Prop :=
  heap_step s s1 ∧ heap_wf s1 ∧
  ∀ tab' r', phys s1 tab' r' = if decide (tab' = tab ∧ r' = r) then rolled_back e else phys s tab' r'.

Lemma rollback_insert_ok tab r e t s s1 :
  rollback_delete_physical e = true → is_Some (phys s tab r) → heap_wf s →
  rollback_physical std_hash tab r e t s = (Ok tt, s1) → rolled s s1 tab r e.
Proof.
  intros Hd [p Hp] Hwf. unfold rollback_physical, rolled, rolled_back. rewrite Hd.
  intros (b & sa & (Hs1 & Hf1 & ->)%table_is_record_ok & Hrun)%bind_inv_ok. rewrite Hp, bool_decide_true in Hrun by eauto.
  apply bind_inv_ok in Hrun as ([] & sb & H2 & Hrun).
  eapply (on_table_heap _ _ _ _ _ (delete r)) in H2 as [Hs2 Hch].
  2:{ intros tb tb' (rc & tb1 & ->%get_record_ok & H3)%bind_inv_ok.
      apply bind_inv_ok in H3 as (? & tb2 & [= _ <-] & H3). by apply heap_delete_ok in H3 as ->. }
  apply bind_inv_ok in Hrun as (fd & sc & H3 & Hrun). unfold fd_of, deref in H3.
  destruct (fds_ (sys sb) !! tab); [|done]. injection H3 as -> <-.
  apply bind_inv_ok in Hrun as (? & sd & H4 & [= <-]).
  pose proof (heap_step_locks (Lm.unlock std_hash t (Lm.record_lock fd r)) sb) as [Hs4 Hf4]. rewrite H4 in Hs4, Hf4. simpl in *.
  assert (∀ tab' r', phys sd tab' r' = phys sb tab' r') as Hph by (intros; unfold phys; by rewrite Hf4).
  assert (∀ tab' r', phys sa tab' r' = phys s tab' r') as Hpha by (intros; unfold phys; by rewrite Hf1).
  split_and!; [by eapply heap_step_trans; [eapply heap_step_trans|]| |].
  - unfold heap_wf. rewrite Hf4. eapply heap_wf_del; [|exact Hch]. unfold heap_wf. by rewrite Hf1.
  - intros tab' r'. by rewrite Hph, (phys_del _ _ _ _ Hch), Hpha.
Qed.

Lemma rollback_update_ok tab r e t s s1 :
  rollback_delete_physical e = false → rollback_restore_physical e = true → is_Some (phys s tab r) → heap_wf s →
  rollback_physical std_hash tab r e t s = (Ok tt, s1) → rolled s s1 tab r e.
Proof.
  intros Hd Hr [p Hp] Hwf. unfold rollback_physical, rolled, rolled_back. rewrite Hd, Hr.
  intros (b & sa & (Hs1 & Hf1 & ->)%table_is_record_ok & Hrun)%bind_inv_ok. rewrite Hp, bool_decide_true in Hrun by eauto.
  apply bind_inv_ok in Hrun as ([] & sb & H2 & Hrun).
  assert (∀ tb, fhs_ (sys sa) !! tab = Some tb → Recovery.page_ok (page_no r) tb = true) as Hpg.
  { intros tb. rewrite Hf1. intros Htb. unfold phys in Hp. rewrite Htb in Hp. by eapply Hwf. }
  eapply (on_table_heap _ _ _ _ _ (<[r := rollback_record (vs e)]>)) in H2 as [Hs2 Hch].
  2:{ intros tb tb' (rc & tb1 & ->%get_record_ok & H3)%bind_inv_ok.
      apply bind_inv_ok in H3 as (? & tb2 & [= _ <-] & H3). by apply heap_update_ok in H3 as [-> _]. }
  assert (heap_step sb s1 ∧ ∀ tab' r', phys s1 tab' r' = phys sb tab' r' ) as [Hs3 Hph].
  { destruct (match restore_snapshot e with Some v => is_deleted v | None => false end); [by injection Hrun as <-|].
    eapply (on_table_heap _ _ _ _ _ id) in Hrun as [Hs3 Hch3]; [|by intros tb tb' [= <-]].
    split; [done|]. intros tab' r'. rewrite (phys_changed _ _ _ _ tab' r' Hch3).
    destruct (decide (tab' = tab)) as [->|]; done. }
  assert (heap_wf s1) as Hwf1.
  { destruct (match restore_snapshot e with Some v => is_deleted v | None => false end).
    - injection Hrun as <-. eapply heap_wf_put; [|exact Hch|exact Hpg]. unfold heap_wf. by rewrite Hf1.
    - eapply (on_table_heap _ _ _ _ _ id) in Hrun as [_ (tb & tb' & G1 & G2 & G3 & G4)]; [|by intros tb tb' [= <-]].
      assert (heap_wf sb) as Hwb by (eapply heap_wf_put; [|exact Hch|exact Hpg]; unfold heap_wf; by rewrite Hf1).
      intros tab' tb0. rewrite G3, lookup_insert_Some. intros [[<- <-]|[_ Ht]]; [|by eapply Hwb].
      unfold Recovery.page_ok. rewrite G2, G4. apply (Hwb _ _ G1). }
  assert (∀ tab' r', phys sa tab' r' = phys s tab' r') as Hpha by (intros; unfold phys; by rewrite Hf1).
  split_and!; [by eapply heap_step_trans; [eapply heap_step_trans|]|done|].
  intros tab' r'. by rewrite Hph, (phys_put _ _ _ _ _ Hch), Hpha.
Qed.

(** The entry [e] of [t] replaced by what was before, with the record. *)
Lemma restored_ok R s s2 tab r t e :
  let key := MvccKey tab r in
  minv R s → t ∉ R → entries s !! key = Some e → writer_txn (vs e) = t → t ≠ INVALID_TXN_ID →
  entries s2 = (match restore_snapshot e with Some v0 => <[key := plain_entry v0]> (entries s) | None => delete key (entries s) end) →
  txns s2 = txns s → last_commit_ts_ s2 = last_commit_ts_ s → heap_wf s2 →
  (∀ tab' r', phys s2 tab' r' = if decide (tab' = tab ∧ r' = r) then rolled_back e else phys s tab' r') →
  minv R s2 ∧ stable R s s2.
Proof.
  intros key [A B C D] Ht He Hw Hti He2 Htx Hl Hwf Hph. destruct (A key e He) as [E1 E2 E3 E4].
  symmetry in E2. apply MvccKey_inj in E2 as [Etab Erid]. destruct E4 as [Hpend _]; [congruence|].
  assert (∀ k, k ≠ key → entries s2 !! k = entries s !! k) as Hother.
  { intros k Hk. rewrite He2. destruct (restore_snapshot e); [by rewrite lookup_insert_ne|by rewrite lookup_delete_ne]. }
  assert (∀ k e0, k ≠ key → entries s !! k = Some e0 → phys s2 (tab_name (vs e0)) (rid (vs e0)) = phys s (tab_name (vs e0)) (rid (vs e0))) as Hoph.
  { intros k e0 Hk Hl0. rewrite Hph, decide_False; [done|]. intros [E5 E6]. destruct (A k e0 Hl0) as [_ E7 _ _].
    apply Hk. by rewrite E7, E5, E6. }
  destruct E3 as [p Hp]. rewrite Etab, Erid in Hp.
  split; [split|].
  - intros k e0 Hk. destruct (decide (k = key)) as [->|Hne].
    + rewrite He2 in Hk. unfold pending in Hpend. unfold rolled_back in Hph.
      destruct (restore_snapshot e) as [v0|]; [|by rewrite lookup_delete_eq in Hk].
      rewrite lookup_insert_eq in Hk. injection Hk as <-. destruct (rollback_delete_physical e); [naive_solver|].
      destruct Hpend as (_ & _ & P1 & P2 & P3 & P4 & _). split; simpl; try done.
      * by rewrite P3, P4, Etab, Erid.
      * rewrite P3, P4, Etab, Erid, Hph, decide_True by done. eauto.
    + rewrite Hother in Hk by done. destruct (A k e0 Hk) as [G1 G2 G3 G4]. split; try done; [by rewrite (Hoph k e0)|by rewrite Htx].
  - intros t0 x0 k Ht0. rewrite Htx. intros Hx0 Hin. destruct (B t0 x0 k Ht0 Hx0 Hin) as (e0 & He0 & Hw0).
    exists e0. split; [|done]. rewrite Hother; [done|]. intros ->. congruence.
  - rewrite Htx, Hl. exact C.
  - done.
  - intros t0 x0 Ht0 Hx0 Hm. rewrite Htx. split; [done|].
    destruct (C t0 Ht0) as [Hi (x0' & Hx0' & Hs0)]. rewrite Hx0 in Hx0'. injection Hx0' as <-. split.
    2:{ intros k (e0 & Hl0 & Hw0 & Hn0). destruct (decide (k = key)) as [->|Hne]; [|exists e0; by rewrite Hother].
        rewrite He in Hl0. injection Hl0 as <-. unfold newer in Hn0. rewrite decide_False in Hn0 by congruence.
        unfold pending in Hpend. destruct (restore_snapshot e) as [v0|]; [|done].
        exists (plain_entry v0). rewrite He2, lookup_insert_eq. destruct (rollback_delete_physical e); [naive_solver|].
        destruct Hpend as (_ & _ & _ & P2 & _). split_and!; [done|simpl; congruence|]. unfold newer. simpl. by rewrite decide_True. }
    intros tab' r'.
    destruct (decide (tab' = tab ∧ r' = r)) as [[-> ->]|Hne].
    + rewrite (seen_entry s tab r t0 x0 p e Hp He). rewrite read_pending by congruence.
      specialize (Hph tab r). rewrite decide_True in Hph by done. unfold pending in Hpend. unfold rolled_back in Hph.
      destruct (rollback_delete_physical e).
      * destruct Hpend as (_ & _ & ->). simpl. by apply seen_none.
      * destruct Hpend as [_ Hpend]. destruct (restore_snapshot e) as [v0|].
        -- destruct Hpend as (_ & P1 & P2 & P3 & P4 & ->). rewrite (read_pushed t0 x0 Hm v0 _ Hi P2 P1).
           rewrite (seen_entry s2 tab r t0 x0 _ (plain_entry v0) Hph) by (by rewrite He2, lookup_insert_eq). done.
        -- destruct Hpend as (_ & ->). rewrite (seen_plain s2 tab r t0 x0 _ Hph) by (by rewrite He2, lookup_delete_eq).
           unfold newest_committed. simpl. by rewrite bool_decide_true by lia.
    + apply seen_eq; [by rewrite Hph, decide_False|]. rewrite Hother; [done|]. intros E. apply Hne. by apply MvccKey_inj in E.
Qed.

Lemma rollback_entry_ok R s s2 tab r t e :
  minv R s → t ∉ R → entries s !! MvccKey tab r = Some e → writer_txn (vs e) = t → t ≠ INVALID_TXN_ID →
  (rollback_physical std_hash tab r e t;; on_versions (modify (restore_entry tab (MvccKey tab r) e))) s = (Ok tt, s2) →
  minv R s2 ∧ stable R s s2 ∧ txns s2 = txns s ∧ ∀ t', frame t' s s2.
Proof.
  intros Hinv Ht He Hw Hti (? & s1 & Hp & Hrun)%bind_inv_ok. destruct x.
  destruct (mi_entry R s Hinv _ e He) as [E1 E2 E3 E4]. apply MvccKey_inj in E2 as [Etab Erid].
  rewrite <- Etab, <- Erid in E3. destruct E4 as [Hpend _]; [congruence|].
  assert (rolled s s1 tab r e) as ([S1 S2 S3] & Hwf & Hph).
  { unfold pending in Hpend. destruct (rollback_delete_physical e) eqn:Ed.
    - eapply rollback_insert_ok; try done. apply Hinv.
    - destruct Hpend as [Hr _]. eapply rollback_update_ok; try done. apply Hinv. }
  unfold on_versions, modify in Hrun. injection Hrun as <-.
  assert (entries (set_versions (restore_entry tab (MvccKey tab r) e (versions s1)) s1) =
    match restore_snapshot e with Some v0 => <[MvccKey tab r := plain_entry v0]> (entries s) | None => delete (MvccKey tab r) (entries s) end) as Hent.
  { rewrite <- S1. unfold entries, restore_entry, pending in *. simpl.
    destruct (rollback_delete_physical e); [by destruct Hpend as (-> & -> & _)|].
    destruct Hpend as [_ Hpend]. destruct (restore_snapshot e); [by destruct Hpend as (-> & _)|by destruct Hpend as (-> & _)]. }
  destruct (restored_ok R s (set_versions (restore_entry tab (MvccKey tab r) e (versions s1)) s1) tab r t e) as [H1 H2]; try done.
  - simpl. apply (S3 0).
  - split_and!; try done. intros t'. destruct (S3 t'). by split.
Qed.

(** What a part of an abort guarantees to the others, [R]. *)
Record undoing R t s s' : Prop := mk_undoing {
  un_minv : minv R s';
  un_stable : stable R s s';
  un_frame : frame t s s';
  un_txn : ∀ x, txns s !! t = Some x → ∃ x', txns s' !! t = Some x' ∧ same_txn x x'
}.

Lemma undoing_trans R t s1 s2 s3 : undoing R t s1 s2 → undoing R t s2 s3 → undoing R t s1 s3.
Proof.
  intros [A B C D] [A' B' C' D']. split; [done|by eapply stable_trans|by eapply frame_trans|].
  intros x Hx. destruct (D x Hx) as (x2 & H2 & E2). destruct (D' x2 H2) as (x3 & H3 & E3).
  exists x3. split; [done|]. unfold same_txn in *. intuition congruence.
Qed.

Lemma silent_undoing R t s s' : t ∉ R → minv R s → is_Some (txns s !! t) → silent t s s' → undoing R t s s'.
Proof.
  intros Ht Hm Hx Hs. destruct (silent_ok R t s s' Hs Hx Hm) as [Hm' Hst]. split; [done| |apply Hs|apply Hs].
  eapply stable_sub; [|exact Hst]. set_solver.
Qed.

Lemma run_undoing {A} R t (m : M TransactionManager A) s a s' :
  silently t m → m s = (a, s') → t ∉ R → minv R s → is_Some (txns s !! t) → undoing R t s s'.
Proof. intros Hm Hrun Ht Hi Hx. apply silent_undoing; try done. specialize (Hm s). by rewrite Hrun in Hm. Qed.

Lemma undoing_some R t s s' : undoing R t s s' → is_Some (txns s !! t) → is_Some (txns s' !! t).
Proof. intros [_ _ _ H] [x Hx]. destruct (H x Hx) as (x' & Hx' & _). eauto. Qed.

Lemma silently_get_table t tab : silently t (get_table tab).
Proof. intros s. unfold get_table. destruct (tabs_ (sys s) !! tab); apply silent_refl. Qed.

Lemma silently_touch t tab : silently t (on_table tab (mret tt)).
Proof.
  intros s. unfold on_table, Recovery.at_table. destruct (fhs_ (sys s) !! tab) as [tb|] eqn:E; simpl.
  - split; try done; [simpl; by apply insert_id|]. intros x Hx. by exists x.
  - split; try done. intros x Hx. by exists x.
Qed.

Lemma rollback_writes_ok R t ws : t ∉ R → t ≠ INVALID_TXN_ID → ∀ processed s s',
  minv R s → is_Some (txns s !! t) → rollback_writes std_hash t processed ws s = (Ok tt, s') → undoing R t s s'.
Proof.
  intros Ht Hti. induction ws as [|w ws IH]; intros processed s s' Hm Hx Hrun.
  { injection Hrun as <-. apply silent_undoing; try done. apply silent_refl. }
  simpl in Hrun. set (tab := wtab_name_ w) in *. set (key := MvccKey tab (wrid_ w)) in *.
  apply bind_inv_ok in Hrun as (md & s1 & H1 & Hrun).
  pose proof (run_undoing R t _ s _ s1 (silently_get_table t tab) H1 Ht Hm Hx) as U1.
  apply bind_inv_ok in Hrun as ([] & s2 & H2 & Hrun).
  pose proof (run_undoing R t _ s1 _ s2 (silently_touch t tab) H2 Ht (un_minv _ _ _ _ U1) (undoing_some _ _ _ _ U1 Hx)) as U2.
  pose proof (undoing_trans _ _ _ _ _ U1 U2) as U. pose proof (undoing_some _ _ _ _ U Hx) as Hx2.
  pose proof (un_minv _ _ _ _ U) as Hm2.
  assert (∀ sa, undoing R t s2 sa → ∀ pr, (unregister_insert t w;; rollback_writes std_hash t pr ws) sa = (Ok tt, s') →
    undoing R t s s') as Hrest.
  { intros sa Ua pr Hr. apply bind_inv_ok in Hr as ([] & sb & H3 & Hr).
    pose proof (run_undoing R t _ sa _ sb (silently_unregister_insert t w) H3 Ht (un_minv _ _ _ _ Ua) (undoing_some _ _ _ _ Ua Hx2)) as Ub.
    eapply undoing_trans; [exact U|]. eapply undoing_trans; [exact Ua|]. eapply undoing_trans; [exact Ub|].
    eapply IH; [apply Ub| |exact Hr]. eapply undoing_some; [exact Ub|]. by eapply undoing_some. }
  assert (undoing R t s2 s2) as Urefl by (apply silent_undoing; try done; apply silent_refl).
  destruct (decide (key ∈ processed)); [by eapply Hrest|].
  apply bind_inv_ok in Hrun as (sx & sy & [= <- <-] & Hrun). apply bind_inv_ok in Hrun as ([] & s3 & H3 & Hrun).
  eapply Hrest; [|exact Hrun]. fold (entries s2) in H3.
  destruct (entries s2 !! key) as [e|] eqn:Ee; [|by injection H3 as <-].
  destruct (decide (writer_txn (vs e) = t)) as [Ew|]; [|by injection H3 as <-].
  destruct (rollback_entry_ok R s2 s3 tab (wrid_ w) t e Hm2 Ht Ee Ew Hti H3) as (G1 & G2 & G3 & G4).
  split; try done. rewrite G3. intros x Hx0. by exists x.
Qed.

Lemma abort_mvcc_ok R s t x s' :
  inv R s → t ∈ R → txns s !! t = Some x → abort_mvcc std_hash os_fd t s = (Ok tt, s') →
  inv (R ∖ {[t]}) s' ∧ stable (R ∖ {[t]}) s s'.
Proof.
  intros [Hm Hw] Ht Hx Hrun. set (R' := R ∖ {[t]}). destruct (mi_run R s Hm t Ht) as [Hti _].
  assert (t ∉ R') as Hnt by set_solver. assert (minv R' s) as Hm' by (eapply minv_weaken; [|exact Hm]; set_solver).
  unfold abort_mvcc in Hrun. rewrite (bind_ok (txn_of t) _ s x s) in Hrun by (unfold txn_of, deref; by rewrite Hx).
  apply bind_inv_ok in Hrun as ([] & s1 & [= <-] & Hrun). set (s1 := set_txns _ s) in Hrun.
  assert (silent t s s1) as Hs1.
  { split; try done; [split; try done; intros t' Hn; simpl; by rewrite lookup_insert_ne|].
    intros x0 Hx0. simpl. rewrite lookup_insert_eq. eexists. split; [done|]. rewrite Hx in Hx0. by injection Hx0 as <-. }
  assert (undoing R' t s s1) as U1 by (apply silent_undoing; try done; by rewrite Hx).
  apply bind_inv_ok in Hrun as ([] & s2 & H2 & Hrun).
  pose proof (rollback_writes_ok R' t _ Hnt Hti _ _ _ (un_minv _ _ _ _ U1) (undoing_some _ _ _ _ U1 ltac:(by rewrite Hx)) H2) as U2.
  pose proof (undoing_trans _ _ _ _ _ U1 U2) as U.
  apply bind_inv_ok in Hrun as ([] & s3 & H3 & Hrun).
  pose proof (run_undoing R' t _ _ _ _ (silently_clear t) H3 Hnt (un_minv _ _ _ _ U) (undoing_some _ _ _ _ U ltac:(by rewrite Hx))) as U3.
  pose proof (undoing_trans _ _ _ _ _ U U3) as [M3 S3 F3 T3]. destruct (T3 x Hx) as (x3 & Hx3 & _ & Emv & _ & Erd & _).
  assert (winv R s3) as Hw3.
  { destruct F3 as [G1 G2 G3 G4 G5]. eapply winv_ext; [exact G4|exact G3| |exact Hw]. intros t' _. unfold rts.
    destruct (decide (t' = t)) as [->|Hn]; [rewrite Hx, Hx3; simpl; by rewrite Emv, Erd|by rewrite G1]. }
  destruct (leave_ok R s3 s3 t x3) as (s4 & Hrun4 & Hlf); try done; [apply Hw3|].
  apply bind_inv_ok in Hrun as ([] & s4a & H4 & Hrun). apply bind_inv_ok in Hrun as ([] & s4b & H5 & Hrun).
  assert (s4b = s4) as ->.
  { apply bind_inv_ok in Hrun4 as ([] & sz & Hz & Hz2). unfold leave_snapshots, modify in H4, Hz. rewrite Emv, Erd in Hz.
    rewrite H4 in Hz. injection Hz as <-. congruence. }
  pose proof (left_winv R s3 s4 t x3 Hw3 Ht Hx3 Hlf) as Hw4. destruct Hlf as [L1 L2 L3 L4 L5 L6 L7 L8].
  assert (inv R' s4) as Hi4 by (split; [by eapply minv_ext; [..|exact M3]|done]).
  assert (silently t (release_locks std_hash t;; set_txn_state t Lm.ABORTED;;
    if decide (write_set_ x ≠ [] ∨ mvcc_write_keys_ x ≠ ∅) then log_end os_fd t (Log.AbortLogRecord t) else mret tt)) as Hsil.
  { apply silently_bind; [apply silently_release|]. intros _. apply silently_bind; [apply silently_state|]. intros _.
    destruct (decide _); [apply silently_log_end|apply silently_ret]. }
  destruct (run_silent R' t _ s4 _ s' Hsil Hrun) as (Hi5 & Hst5 & _ & _); [by rewrite L3, Hx3|done|].
  split; [done|]. eapply stable_trans; [exact S3|]. eapply stable_trans; [by apply stable_ext|].
  eapply stable_sub; [|exact Hst5]. set_solver.
Qed.

(** The abort of a transaction that has a snapshot, or versioned writes, or no writes at all. *)
Lemma abort_ok R s t x s' :
  inv R s → t ∈ R → txns s !! t = Some x → mvcc_enabled_ x = true ∨ mvcc_write_keys_ x ≠ ∅ ∨ write_set_ x = [] →
  abort std_hash os_fd t s = (Ok tt, s') → inv (R ∖ {[t]}) s' ∧ stable (R ∖ {[t]}) s s'.
Proof.
  intros Hi Ht Hx Hor Hrun. unfold abort in Hrun. rewrite (bind_ok (txn_of t) _ s x s) in Hrun by (unfold txn_of, deref; by rewrite Hx).
  destruct (decide (mvcc_enabled_ x = true ∨ mvcc_write_keys_ x ≠ ∅)) as [Hc|Hc]; [by eapply abort_mvcc_ok|].
  assert (write_set_ x = []) as Hws by naive_solver. assert (mvcc_enabled_ x = false) as Hmv by (destruct (mvcc_enabled_ x); naive_solver).
  unfold abort_plain in Hrun. rewrite (bind_ok (txn_of t) _ s x s) in Hrun by (unfold txn_of, deref; by rewrite Hx).
  rewrite Hws in Hrun. rewrite decide_False in Hrun by naive_solver. apply bind_inv_ok in Hrun as ([] & s1 & [= <-] & Hrun). set (s1 := set_txns _ s) in Hrun.
  assert (silent t s s1) as Hs1.
  { split; try done; [split; try done; intros t' Hn; simpl; by rewrite lookup_insert_ne|].
    intros x0 Hx0. simpl. rewrite lookup_insert_eq. eexists. split; [done|]. rewrite Hx in Hx0. by injection Hx0 as <-. }
  assert (silently t (mfor (rollback_write std_hash t) (reverse []);; release_locks std_hash t;; set_txn_state t Lm.ABORTED;; mret tt)) as Hsil.
  { apply silently_bind; [apply silently_ret|]. intros _. apply silently_bind; [apply silently_release|]. intros _.
    apply silently_bind; [apply silently_state|]. intros _. apply silently_ret. }
  pose proof (silent_trans _ _ _ _ Hs1 (Hsil s1)) as Hs2. rewrite Hrun in Hs2. simpl in Hs2.
  destruct Hi as [Hm Hw]. assert (is_Some (txns s !! t)) as Hsome by (by rewrite Hx). destruct (silent_ok R t s s' Hs2 Hsome Hm) as [Hm' Hst]. split; [|done].
  destruct (sl_txn _ _ _ Hs2 x Hx) as (x2 & Hx2 & _ & Emv & _).
  eapply leave_plain; [split; [done|by eapply silent_winv]|done|exact Hx2|congruence].
Qed.

End with_system.

(** ** Begin *)

(** The next transaction id is new. *)
Definition fresh_id s : Prop := 0 ≤ next_txn_id_ s ∧ 0 ≤ last_commit_ts_ s ∧ txns s !! next_txn_id_ s = None.

Lemma begin_shape iso s :
  let t := next_txn_id_ s in
  let ts := if is_mvcc_level iso then last_commit_ts_ s else 0 in
  let x := mk_Transaction iso (is_mvcc_level iso) INVALID_LSN ts ts INVALID_TS [] ∅ in
  ∃ s', begin_txn iso s = (Ok t, s') ∧ txns s' = <[t := x]> (txns s) ∧ entries s' = entries s ∧
        fhs_ (sys s') = fhs_ (sys s) ∧ last_commit_ts_ s' = last_commit_ts_ s ∧
        running_txns_ s' = (if is_mvcc_level iso then Wm.AddTxn ts (running_txns_ s) else running_txns_ s) ∧
        active_mvcc_txn_count_ s' = active_mvcc_txn_count_ s + (if is_mvcc_level iso then 1 else 0).
Proof.
  intros t ts x. unfold begin_txn, begin_register, mbind, M_bind, begin_snapshot, txn_of, deref. simpl.
  rewrite lookup_insert_eq. simpl. destruct (is_mvcc_level iso); simpl;
    (eexists; split; [reflexivity|]; split_and!; try done; simpl; lia).
Qed.

Lemma begin_ok R s iso t s' :
  inv R s → fresh_id s → begin_txn iso s = (Ok t, s') → t ∉ R ∧ inv ({[t]} ∪ R) s' ∧ stable R s s'.
Proof.
  intros [[A B C D] [W1 W2 W3]] (Hn & Hl & Hfresh) Hrun.
  destruct (begin_shape iso s) as (s0 & Hrun0 & E1 & E2 & E3 & E4 & E5 & E6). rewrite Hrun in Hrun0. injection Hrun0 as -> <-.
  set (t := next_txn_id_ s) in *. set (x := mk_Transaction _ _ _ _ _ _ _ _) in E1.
  assert (t ∉ R) as HtR by (intros Ht; destruct (C t Ht) as [_ (x0 & Hx0 & _)]; congruence).
  assert (∀ tab r, phys s' tab r = phys s tab r) as Hph by (intros; unfold phys; by rewrite E3).
  assert (∀ t', t' ≠ t → txns s' !! t' = txns s !! t') as Hoth by (intros; by rewrite E1, lookup_insert_ne).
  assert (txns s' !! t = Some x) as Hxt by (by rewrite E1, lookup_insert_eq).
  assert (rts s' t = if is_mvcc_level iso then Some (if is_mvcc_level iso then last_commit_ts_ s else 0) else None) as Hrt
    by (unfold rts; by rewrite Hxt).
  assert (∀ t', t' ∈ R → rts s' t' = rts s t') as Hro.
  { intros t' Ht'. unfold rts. rewrite Hoth; [done|]. set_solver. }
  split; [done|]. split; [split; split|].
  - intros k e. rewrite E2. intros He. destruct (A k e He) as [G1 G2 G3 G4]. split; try done; [by rewrite Hph|].
    intros Hw. destruct (G4 Hw) as [Hp (x0 & Hx0 & Hin)]. split; [done|]. exists x0. rewrite Hoth; [done|]. congruence.
  - intros t0 x0 k [->%elem_of_singleton|Ht0]%elem_of_union Hx0 Hin.
    + rewrite Hxt in Hx0. injection Hx0 as <-. simpl in Hin. set_solver.
    + rewrite Hoth in Hx0 by set_solver. rewrite E2. by eapply B.
  - intros t0 [->%elem_of_singleton|Ht0]%elem_of_union.
    + split; [unfold INVALID_TXN_ID; lia|]. exists x. rewrite E4. split_and!; try done; simpl; destruct (is_mvcc_level iso); lia.
    + destruct (C t0 Ht0) as [Hi (x0 & Hx0 & Hs)]. split; [done|]. exists x0. rewrite Hoth by set_solver. by rewrite E4.
  - unfold heap_wf. rewrite E3. exact D.
  - rewrite E5. destruct (is_mvcc_level iso); [by apply Wm.AddTxn_wwf|done].
  - intros ts. unfold readers. rewrite (filter_add (λ t', rts s t' = Some ts) (λ t', rts s' t' = Some ts) t R HtR) by (intros t' Ht'; by rewrite (Hro t' Ht')).
    fold (readers s R ts).
    rewrite E5. rewrite Hrt. destruct (is_mvcc_level iso).
    + rewrite Wm.AddTxn_count, W2. destruct (decide (ts = last_commit_ts_ s)) as [->|Hne].
      * rewrite decide_True by done. rewrite size_union by (unfold readers; set_solver). rewrite size_singleton. lia.
      * rewrite decide_False by congruence. lia.
    + rewrite decide_False by done. apply W2.
  - unfold snapshots. rewrite (filter_add (λ t', is_Some (rts s t')) (λ t', is_Some (rts s' t')) t R HtR) by (intros t' Ht'; by rewrite (Hro t' Ht')).
    fold (snapshots s R). rewrite Hrt.
    rewrite E6, W3. destruct (is_mvcc_level iso).
    2:{ rewrite decide_False by (by intros []). lia. }
    rewrite decide_True by eauto. rewrite size_union by (unfold snapshots; set_solver). rewrite size_singleton. lia.
  - intros t0 x0 Ht0 Hx0 Hm. rewrite Hoth by set_solver.
    split_and!; [done| |intros k; by apply overwritten_ext]. intros tab r. apply seen_eq; [done|by rewrite E2].
Qed.
End MvccSpec.
