(* ===== verification/MvccClaims.v ===== *)
(** * What the transaction manager guarantees

    The steps of concurrent transactions, and the theorems on the transaction manager as a
    whole: snapshots are stable, a snapshot transaction never overwrites a version it does
    not see; and four executions in which the isolation levels give less than they promise. *)

From S2P Require Import Prelude Disk RecordFile Log Recovery Conditions LockManager Watermark Mvcc MvccFacts MvccSpec.

Module MvccClaims.
Import RecFile Cond Mvcc MvccFacts MvccSpec.

Implicit Types (s : TransactionManager) (tab key : bytes) (r : Rid) (t : Z) (x : Transaction) (R : gset Z).

(** ** Reads *)

(** What a scan gives transaction [t] at [r]: the heap record as [GetVisibleRecord] shows it. *)
Definition reads s tab r t : option bytes :=
  match phys s tab r with
  | None => None
  | Some p => match GetVisibleRecord tab r p t s with (Ok v, _) => v | (Err _, _) => None end
  end.

Lemma reads_seen s tab r t x :
  txns s !! t = Some x → mvcc_enabled_ x = true → reads s tab r t = seen s tab r t x.
Proof.
  intros Hx Hm. unfold reads, seen, GetVisibleRecord, mbind, M_bind, txn_of, deref, get, entries, IsMvccTxn.
  destruct (phys s tab r); simpl; [|done]. rewrite Hx. simpl. rewrite Hm. simpl. by destruct (mvcc_versions_ _ !! _).
Qed.

(** ** Steps *)

Section with_system.
Context (std_hash : Z → Z) (os_fd : gmap Z string → Z).

(** One step of transaction [t]; [R] are the running transactions before it and after it.
    Writes are versioned, as they are while a snapshot transaction runs.  Commit and abort are
    one step each, as if [mvcc_latch_] were held throughout. *)
Inductive mstep : Z → gset Z → TransactionManager → gset Z → TransactionManager → Prop :=
  | ms_begin iso t R s s' :
      fresh_id s → begin_txn iso s = (Ok t, s') → mstep t R s ({[t]} ∪ R) s'
  | ms_update t x tab r old new R s s1 s' :
      t ∈ R → txns s !! t = Some x → ShouldVersionWrites x s = true →
      seen s tab r t x = Some old → may_write s tab r t x →
      MvccUpdate tab r old new t s = (Ok tt, s1) → on_table tab (Recovery.update_record r new) s1 = (Ok tt, s') →
      mstep t R s R s'
  | ms_delete t x tab r old R s s' :
      t ∈ R → txns s !! t = Some x → ShouldVersionWrites x s = true →
      seen s tab r t x = Some old → may_write s tab r t x →
      MvccDelete tab r old t s = (Ok tt, s') → mstep t R s R s'
  | ms_insert t x tab r new R s s1 s' :
      t ∈ R → txns s !! t = Some x → ShouldVersionWrites x s = true →
      on_table tab (Recovery.insert_record_at r new) s = (Ok tt, s1) →
      MvccInsertLocked tab r new t s1 = (Ok tt, s') → mstep t R s R s'
  | ms_refused t x tab r old new e R s s' :
      t ∈ R → txns s !! t = Some x →
      MvccUpdate tab r old new t s = (Err (TransactionAbortException t e), s') ∨
      MvccDelete tab r old t s = (Err (TransactionAbortException t e), s') → mstep t R s R s'
  | ms_append t w R s s' : t ∈ R → append_write_record t w s = (Ok tt, s') → mstep t R s R s'
  | ms_read t tab cols conds rids res R s s' :
      t ∈ R → RegisterSerializableRead tab cols conds rids t s = (res, s') → mstep t R s R s'
  | ms_lock t {A} (m : M Lm.LockManager A) res R s s' : t ∈ R → on_locks m s = (res, s') → mstep t R s R s'
  | ms_log t {A} (m : M Log.LogManager A) res R s s' : t ∈ R → on_log m s = (res, s') → mstep t R s R s'
  | ms_commit t R s s' : t ∈ R → commit std_hash os_fd t s = (Ok tt, s') → mstep t R s (R ∖ {[t]}) s'
  | ms_abort t x R s s' :
      t ∈ R → txns s !! t = Some x → mvcc_enabled_ x = true ∨ mvcc_write_keys_ x ≠ ∅ ∨ write_set_ x = [] →
      abort std_hash os_fd t s = (Ok tt, s') → mstep t R s (R ∖ {[t]}) s'
  | ms_gc t R s s' : GarbageCollection s = (Ok tt, s') → mstep t R s R s'.

(** Steps of transactions other than [t0]. *)
Inductive others (t0 : Z) : gset Z → TransactionManager → gset Z → TransactionManager → Prop :=
  | others_done R s : others t0 R s R s
  | others_step t R1 s1 R2 s2 R3 s3 :
      t ≠ t0 → mstep t R1 s1 R2 s2 → others t0 R2 s2 R3 s3 → others t0 R1 s1 R3 s3.

(** A write keeps what the watermark counts. *)
Lemma winv_write R t x x' s s' :
  winv R s → frame t s s' → txns s !! t = Some x → txns s' !! t = Some x' →
  mvcc_enabled_ x' = mvcc_enabled_ x → read_ts_ x' = read_ts_ x → winv R s'.
Proof.
  intros Hw [F1 F2 F3 F4 F5] Hx Hx' E1 E2. eapply winv_ext; [exact F4|exact F3| |exact Hw].
  intros t' _. unfold rts. destruct (decide (t' = t)) as [->|Hn]; [|by rewrite F1].
  rewrite Hx, Hx'. simpl. by rewrite E1, E2.
Qed.

Lemma winv_wrote R ins old del rec t x tab r s s1 :
  winv R s → txns s !! t = Some x → wrote ins old del rec t x tab r s s1 → winv R s1.
Proof. intros Hw Hx [_ _ _ Hfr Hk]. by eapply winv_write. Qed.

Lemma winv_table {A} R tab (m : M Recovery.Table A) a s s1 :
  winv R s → on_table tab m s = (Ok a, s1) → winv R s1.
Proof.
  intros Hw Hm. destruct (on_table_ok _ _ _ _ _ Hm) as (tb & tb' & _ & _ & _ & _ & Htx & Hfr).
  destruct (Hfr 0) as [_ _ F3 F4 _]. eapply winv_ext; [exact F4|exact F3| |exact Hw]. intros t _. unfold rts. by rewrite Htx.
Qed.

(** A write that the manager refuses leaves records and versions alone: a new entry never
    conflicts, and an old one is not changed before the check. *)
Lemma prepare_refused R tab r old t x s s' e :
  minv R s → t ∈ R → txns s !! t = Some x →
  PrepareWriteLocked tab r old t false s = (Err e, s') → s' = s ∧ e = TransactionAbortException t MVCC_CONFLICT.
Proof.
  intros Hinv Ht Hx. destruct (mi_run R s Hinv t Ht) as [Hti (x' & Hx' & _ & H0 & _)]. rewrite Hx in Hx'. injection Hx' as <-.
  unfold PrepareWriteLocked, mbind, M_bind, get, on_versions, EnsureMvccEntryLocked, txn_of, deref.
  destruct (mvcc_versions_ (versions s) !! MvccKey tab r) as [e0|] eqn:E; simpl; rewrite Hx; simpl.
  - destruct (IsMvccTxn x && _); [intros [= <- <-]; by destruct s|]. by destruct (decide _).
  - assert (write_conflict (mk_VersionState true false 0 INVALID_TXN_ID INVALID_TXN_ID tab r true old [] []) t x = false) as ->.
    { unfold write_conflict. simpl. rewrite (bool_decide_false (start_ts_ x < 0)) by lia. by rewrite andb_false_r. }
    rewrite andb_false_r. by destruct (decide _).
Qed.

Lemma silently_check tab r old new t : silently t (CheckSerializableWriteLocked tab r old new t).
Proof.
  intros s. unfold CheckSerializableWriteLocked, mbind at 1, M_bind at 1, txn_of, deref.
  destruct (txns s !! t); simpl; [|apply silent_refl]. destruct (_ || _); [apply silent_refl|]. apply silently_ser.
Qed.

Lemma silently_read tab cols conds rids t : silently t (RegisterSerializableRead tab cols conds rids t).
Proof.
  intros s. unfold RegisterSerializableRead, mbind at 1, M_bind at 1, txn_of, deref.
  destruct (txns s !! t); simpl; [|apply silent_refl]. destruct (_ || _); [apply silent_refl|].
  unfold mbind at 1, M_bind at 1, get. apply silently_ser.
Qed.

Lemma silently_append t w : silently t (append_write_record t w).
Proof.
  intros s. unfold append_write_record, mbind, M_bind, txn_of, deref. destruct (txns s !! t) as [x|] eqn:Hx; [|apply silent_refl].
  simpl. split; try done; [split; try done; intros t' Hn; simpl; by rewrite lookup_insert_ne|].
  intros x0 Hx0. simpl. rewrite lookup_insert_eq. eexists. split; [done|]. rewrite Hx in Hx0. by injection Hx0 as <-.
Qed.

(** The part of [MvccUpdate] and [MvccDelete] that can refuse the write. *)
Lemma checked_refused {A} R tab r old new t x s s' e (k : M TransactionManager A) :
  minv R s → t ∈ R → txns s !! t = Some x →
  (CheckSerializableWriteLocked tab r (Some old) new t;; PrepareWriteLocked tab r old t false;; k) s =
    (Err (TransactionAbortException t e), s') →
  (∀ s1 s2 e', k s1 ≠ (Err (TransactionAbortException t e'), s2)) → silent t s s'.
Proof.
  intros Hinv Ht Hx. pose proof (silently_check tab r (Some old) new t s) as Hc.
  unfold mbind at 1, M_bind at 1. destruct (CheckSerializableWriteLocked tab r (Some old) new t s) as [[[]|e1] s1] eqn:E1.
  2:{ intros [= -> <-] _. exact Hc. }
  destruct (check_ser_ok _ _ _ _ _ _ _ _ Hx E1) as [st ->].
  unfold mbind at 1, M_bind at 1. destruct (PrepareWriteLocked tab r old t false (set_ser st s)) as [[[]|e2] s2] eqn:E2.
  - intros Hk Hn. by apply Hn in Hk.
  - intros [= -> <-] _. eapply (prepare_refused R) in E2 as [-> _]; try done. by eapply minv_ext; [..|exact Hinv].
Qed.

Lemma MvccUpdate_refused R tab r old new t x s s' e :
  minv R s → t ∈ R → txns s !! t = Some x →
  MvccUpdate tab r old new t s = (Err (TransactionAbortException t e), s') → silent t s s'.
Proof.
  intros Hinv Ht Hx. unfold MvccUpdate, versioned, mbind at 1, M_bind at 1, txn_of, deref. rewrite Hx. simpl.
  unfold mbind at 1, M_bind at 1, get. destruct (ShouldVersionWrites x s); [|done].
  intros Hrun. eapply checked_refused; try done. intros s1 s2 e'.
  unfold set_head, mbind, M_bind, on_versions, modify, get_table. simpl.
  destruct (tabs_ (sys s1) !! tab); [|done]. by destruct (index_keys_changed _ _ _).
Qed.

Lemma MvccDelete_refused R tab r old t x s s' e :
  minv R s → t ∈ R → txns s !! t = Some x →
  MvccDelete tab r old t s = (Err (TransactionAbortException t e), s') → silent t s s'.
Proof.
  intros Hinv Ht Hx. unfold MvccDelete, versioned, mbind at 1, M_bind at 1, txn_of, deref. rewrite Hx. simpl.
  unfold mbind at 1, M_bind at 1, get. destruct (ShouldVersionWrites x s); [|done].
  intros Hrun. by eapply checked_refused.
Qed.

Lemma running_some R s t : inv R s → t ∈ R → is_Some (txns s !! t).
Proof. intros [Hm _] Ht. destruct (mi_run R s Hm t Ht) as [_ (x & Hx & _)]. eauto. Qed.

Lemma silent_step {A} R s t (m : M TransactionManager A) a s' :
  inv R s → t ∈ R → silently t m → m s = (a, s') → inv R s' ∧ stable (R ∖ {[t]}) s s'.
Proof.
  intros Hi Ht Hm Hrun. destruct (run_silent R t m s a s' Hm Hrun (running_some R s t Hi Ht) Hi) as (H1 & H2 & _). done.
Qed.

Lemma refused_step R s t s' : inv R s → t ∈ R → silent t s s' → inv R s' ∧ stable (R ∖ {[t]}) s s'.
Proof.
  intros [Hm Hw] Ht Hs. pose proof (running_some R s t (mk_inv _ _ Hm Hw) Ht) as Hx.
  destruct (silent_ok R t s s' Hs Hx Hm) as [Hm' Hst]. split; [split; [done|by eapply silent_winv]|done].
Qed.

(** Every step keeps the invariant and the snapshots of the other transactions. *)
Lemma mstep_ok t R s R' s' :
  mstep t R s R' s' → inv R s →
  inv R' s' ∧ stable (R ∖ {[t]}) s s' ∧ ∀ t0, t0 ∈ R → t0 ≠ t → t0 ∈ R'.
Proof.
  intros Hstep Hi. destruct Hstep as
    [iso t R s s' Hf Hb|t x tab r old new R s s1 s' Ht Hx Hv Hs Hmw Hu Hh|t x tab r old R s s' Ht Hx Hv Hs Hmw Hd
    |t x tab r new R s s1 s' Ht Hx Hv Hh Hins|t x tab r old new e R s s' Ht Hx Hr|t w R s s' Ht Ha
    |t tab cols conds rids res R s s' Ht Hr|t A m res R s s' Ht Hl|t A m res R s s' Ht Hl
    |t R s s' Ht Hc|t x R s s' Ht Hx Hmv Ha|t R s s' Hg].
  - destruct (begin_ok R s iso t s' Hi Hf Hb) as (Hn & Hi' & Hst). split_and!; [done| |set_solver].
    eapply stable_sub; [|exact Hst]. set_solver.
  - destruct Hi as [Hm Hw]. destruct (update_stable R s t x Hm Ht Hx Hv tab r old new s1 s') as [Hm' Hst]; try done.
    split_and!; [|done|done]. split; [done|]. eapply winv_table; [|exact Hh]. eapply winv_wrote; [exact Hw|exact Hx|].
    by eapply MvccUpdate_ok.
  - destruct Hi as [Hm Hw]. destruct (delete_stable R s t x Hm Ht Hx Hv tab r old s') as [Hm' Hst]; try done.
    split_and!; [|done|done]. split; [done|]. eapply winv_wrote; [exact Hw|exact Hx|]. by eapply MvccDelete_ok.
  - destruct Hi as [Hm Hw]. destruct (insert_stable R s t x Hm Ht Hx tab r new s1 s') as [Hm' Hst]; try done.
    split_and!; [|done|done]. split; [done|].
    assert (txns s1 !! t = Some x) as Hx1 by (by destruct (on_table_ok _ _ _ _ _ Hh) as (? & ? & _ & _ & _ & _ & -> & _)).
    eapply winv_wrote; [by eapply winv_table|exact Hx1|]. by eapply MvccInsertLocked_ok.
  - assert (silent t s s') as Hsil by (destruct Hr; [eapply MvccUpdate_refused|eapply MvccDelete_refused]; try done; apply Hi).
    destruct (refused_step R s t s' Hi Ht Hsil). by split_and!.
  - destruct (silent_step R s t _ _ _ Hi Ht (silently_append _ _) Ha). by split_and!.
  - destruct (silent_step R s t _ _ _ Hi Ht (silently_read _ _ _ _ _) Hr). by split_and!.
  - destruct (silent_step R s t _ _ _ Hi Ht (silently_locks _ _) Hl). by split_and!.
  - destruct (silent_step R s t _ _ _ Hi Ht (silently_log _ _) Hl). by split_and!.
  - destruct (running_some R s t Hi Ht) as [x Hx].
    destruct (commit_ok std_hash os_fd R s t x s' Hi Ht Hx Hc) as (? & ? & _). split_and!; [done..|set_solver].
  - destruct (abort_ok std_hash os_fd R s t x s' Hi Ht Hx Hmv Ha). split_and!; [done..|set_solver].
  - destruct (gc_ok R s Hi) as (s1 & Hrun & Hi' & Hst & _). rewrite Hg in Hrun. injection Hrun as <-.
    split_and!; [done| |done]. eapply stable_sub; [|exact Hst]. set_solver.
Qed.

Lemma others_ok t0 R s R' s' :
  others t0 R s R' s' → inv R s → t0 ∈ R → inv R' s' ∧ t0 ∈ R' ∧ stable {[t0]} s s'.
Proof.
  induction 1 as [R s|t R1 s1 R2 s2 R3 s3 Hne Hstep _ IH]; intros Hi Ht; [split_and!; [done..|apply stable_refl]|].
  destruct (mstep_ok t R1 s1 R2 s2 Hstep Hi) as (Hi2 & Hst & Hin). destruct (IH Hi2 (Hin t0 Ht ltac:(done))) as (Hi3 & Ht3 & Hst3).
  split_and!; [done..|]. eapply stable_trans; [|exact Hst3]. eapply stable_sub; [|exact Hst]. set_solver.
Qed.

(** C1: Snapshot isolation, for versioned writes.  While a snapshot transaction [t0] runs, in any
    interleaving of the steps [mstep] of other transactions, every record of every table reads
    for [t0] as it did before: neither uncommitted nor later committed writes become visible,
    and no version it needs is collected; the invariant of the version directory is kept.  The
    steps are begins; updates, deletes and inserts that are versioned, as [ShouldVersionWrites]
    makes all that start while [t0] runs, of records their transaction sees and, if it has no
    snapshot, has locked; refused writes; reads; locks; log records; commits; garbage
    collections; and aborts of transactions that have a snapshot, versioned writes or no writes.
    Each is one atomic step.  Not covered are writes made without versions, by a transaction
    without snapshot while no snapshot transaction ran, and its abort afterwards: those [t0] can
    see ([snapshot_reads_uncommitted]). *)
Theorem snapshot_stable t0 x R s R' s' :
  inv R s → t0 ∈ R → txns s !! t0 = Some x → mvcc_enabled_ x = true →
  others t0 R s R' s' →
  inv R' s' ∧ t0 ∈ R' ∧ txns s' !! t0 = Some x ∧ ∀ tab r, reads s' tab r t0 = reads s tab r t0.
Proof.
  intros Hi Ht Hx Hm Hsteps. destruct (others_ok t0 R s R' s' Hsteps Hi Ht) as (Hi' & Ht' & Hst).
  destruct (Hst t0 x ltac:(set_solver) Hx Hm) as (Hx' & Hseen & _). split_and!; try done.
  intros tab r. by rewrite (reads_seen s' tab r t0 x), (reads_seen s tab r t0 x).
Qed.
(** *** Lost updates *)

Lemma overwritten_conflict s key t x e :
  entries s !! key = Some e → overwritten s key t (start_ts_ x) → write_conflict (vs e) t x = true.
Proof.
  intros He (e' & He' & Hw & Hn). rewrite He in He'. injection He' as <-. unfold newer in Hn. unfold write_conflict.
  rewrite (bool_decide_true (writer_txn (vs e) ≠ t)) by done.
  destruct (decide (writer_txn (vs e) = INVALID_TXN_ID)) as [Ew|Ew]; [|by rewrite bool_decide_true].
  rewrite (bool_decide_true (start_ts_ x < commit_ts (vs e))) by done. by rewrite orb_true_r.
Qed.

(** A write of [t] does not hit a record that was overwritten for it. *)
Lemma wrote_overwritten ins old del rec t x tab r s s1 key :
  wrote ins old del rec t x tab r s s1 → mvcc_enabled_ x = true →
  overwritten s key t (start_ts_ x) → overwritten s1 key t (start_ts_ x).
Proof.
  intros [Hfree Hent _ _ _] Hm Ho. eapply overwritten_lookup; [|exact Ho]. rewrite Hent.
  destruct (decide (key = MvccKey tab r)) as [->|Hn]; [|by rewrite lookup_insert_ne].
  destruct Ho as (e & He & Ho). specialize (Hfree Hm). unfold base_entry in Hfree. rewrite He in Hfree. simpl in Hfree.
  rewrite (overwritten_conflict s (MvccKey tab r) t x e) in Hfree; [done..|by exists e].
Qed.

(** What a step of [t0] itself keeps while it runs. *)
Definition same_snapshot (x x' : Transaction) : Prop :=
  mvcc_enabled_ x' = mvcc_enabled_ x ∧ start_ts_ x' = start_ts_ x ∧ isolation_level_ x' = isolation_level_ x.

Definition kept s s' t x : Prop :=
  ∃ x', txns s' !! t = Some x' ∧ same_snapshot x x' ∧
        ∀ key, overwritten s key t (start_ts_ x) → overwritten s' key t (start_ts_ x).

Lemma silent_kept s s' t x : silent t s s' → txns s !! t = Some x → kept s s' t x.
Proof.
  intros [_ Fe _ Fx] Hx. destruct (Fx x Hx) as (x' & Hx' & E1 & E2 & E3 & _). exists x'. split_and!; [done| |].
  - by split_and!.
  - intros key. by apply overwritten_ext.
Qed.

Lemma silently_kept {A} (m : M TransactionManager A) s a s' t x :
  silently t m → m s = (a, s') → txns s !! t = Some x → kept s s' t x.
Proof. intros Hm Hrun. apply silent_kept. specialize (Hm s). by rewrite Hrun in Hm. Qed.

Lemma wrote_kept ins old del rec t x tab r s s1 :
  wrote ins old del rec t x tab r s s1 → mvcc_enabled_ x = true → kept s s1 t x.
Proof.
  intros Hw Hm. exists (set_write_keys ({[MvccKey tab r]} ∪ mvcc_write_keys_ x) x).
  split_and!; [apply Hw|by split_and!|]. intros key. by eapply wrote_overwritten.
Qed.

Lemma kept_table {A} tab (m : M Recovery.Table A) a s s1 s2 t x :
  kept s s1 t x → on_table tab m s1 = (Ok a, s2) → kept s s2 t x.
Proof.
  intros (x' & Hx' & E & Ho) Hm. destruct (on_table_ok _ _ _ _ _ Hm) as (tb & tb' & _ & _ & _ & Hv & Htx & _).
  exists x'. rewrite Htx. split_and!; [done..|]. intros key Hk. eapply overwritten_ext; [|by apply Ho]. unfold entries. by rewrite Hv.
Qed.

Lemma own_step t0 x R s R' s' :
  mstep t0 R s R' s' → inv R s → t0 ∈ R → t0 ∈ R' → txns s !! t0 = Some x → mvcc_enabled_ x = true → kept s s' t0 x.
Proof.
  intros Hstep Hi Ht0 Ht0' Hx0 Hm. destruct Hstep as
    [iso t R s s' Hf Hb|t x1 tab r old new R s s1 s' Ht Hx Hv Hs Hmw Hu Hh|t x1 tab r old R s s' Ht Hx Hv Hs Hmw Hd
    |t x1 tab r new R s s1 s' Ht Hx Hv Hh Hins|t x1 tab r old new e R s s' Ht Hx Hr|t w R s s' Ht Ha
    |t tab cols conds rids res R s s' Ht Hr|t A m res R s s' Ht Hl|t A m res R s s' Ht Hl
    |t R s s' Ht Hc|t x1 R s s' Ht Hx Hmv Ha|t R s s' Hg]; try (rewrite Hx in Hx0; injection Hx0 as ->).
  - by destruct (begin_ok R s iso t s' Hi Hf Hb) as (Hn & _).
  - eapply kept_table; [|exact Hh]. eapply wrote_kept; [|done]. by eapply MvccUpdate_ok.
  - eapply wrote_kept; [|done]. by eapply MvccDelete_ok.
  - destruct (on_table_ok _ _ _ _ _ Hh) as (tb & tb' & _ & _ & _ & Hvs & Htx & _). rewrite <- Htx in Hx.
    destruct (wrote_kept _ _ _ _ _ _ _ _ _ _ (MvccInsertLocked_ok _ _ _ _ _ _ _ Hx Hins) Hm) as (x' & Hx' & E & Ho).
    exists x'. split_and!; [done..|]. intros key Hk. apply Ho. eapply overwritten_ext; [|exact Hk]. unfold entries. by rewrite Hvs.
  - apply silent_kept; [|done]. destruct Hr; [eapply MvccUpdate_refused|eapply MvccDelete_refused]; try done; apply Hi.
  - eapply silently_kept; [apply silently_append|done|done].
  - eapply silently_kept; [apply silently_read|done|done].
  - eapply silently_kept; [apply silently_locks|done|done].
  - eapply silently_kept; [apply silently_log|done|done].
  - set_solver.
  - set_solver.
  - destruct (gc_ok R s Hi) as (s1 & Hrun & _ & Hst & _). rewrite Hg in Hrun. injection Hrun as <-.
    destruct (Hst t x Ht0 Hx0 Hm) as (Hx' & _ & Ho). by exists x.
Qed.

(** Steps of any transaction during which [t0] runs. *)
Inductive runs (t0 : Z) : gset Z → TransactionManager → gset Z → TransactionManager → Prop :=
  | runs_done R s : runs t0 R s R s
  | runs_step t R1 s1 R2 s2 R3 s3 :
      mstep t R1 s1 R2 s2 → t0 ∈ R2 → runs t0 R2 s2 R3 s3 → runs t0 R1 s1 R3 s3.

Lemma step_kept t t0 x R s R' s' :
  mstep t R s R' s' → inv R s → t0 ∈ R → t0 ∈ R' → txns s !! t0 = Some x → mvcc_enabled_ x = true →
  inv R' s' ∧ kept s s' t0 x.
Proof.
  intros Hstep Hi Ht Ht' Hx Hm. destruct (mstep_ok t R s R' s' Hstep Hi) as (Hi' & Hst & _). split; [done|].
  destruct (decide (t = t0)) as [->|Hn]; [by eapply own_step|].
  destruct (Hst t0 x ltac:(set_solver) Hx Hm) as (Hx' & _ & Ho). by exists x.
Qed.

Lemma runs_kept t0 R s R' s' : runs t0 R s R' s' → ∀ x,
  inv R s → t0 ∈ R → txns s !! t0 = Some x → mvcc_enabled_ x = true → inv R' s' ∧ t0 ∈ R' ∧ kept s s' t0 x.
Proof.
  induction 1 as [R s|t R1 s1 R2 s2 R3 s3 Hstep Hin _ IH]; intros x Hi Ht Hx Hm.
  { split_and!; [done..|]. by exists x. }
  destruct (step_kept t t0 x R1 s1 R2 s2 Hstep Hi Ht Hin Hx Hm) as (Hi2 & x2 & Hx2 & (E1 & E2 & E3) & Ho2).
  destruct (IH x2 Hi2 Hin Hx2 ltac:(congruence)) as (Hi3 & Ht3 & x3 & Hx3 & (E4 & E5 & E6) & Ho3).
  split_and!; [done..|]. exists x3. split_and!; [done|unfold same_snapshot; intuition congruence|].
  intros key Hk. rewrite <- E2. apply Ho3. rewrite E2. by apply Ho2.
Qed.

(** A write of a record that was overwritten is refused. *)
Lemma overwritten_refused ins old t x tab r s :
  txns s !! t = Some x → mvcc_enabled_ x = true → overwritten s (MvccKey tab r) t (start_ts_ x) →
  PrepareWriteLocked tab r old t ins s = (Err (TransactionAbortException t MVCC_CONFLICT), s).
Proof.
  intros Hx Hm Ho. destruct Ho as (e & He & Ho). unfold entries in He.
  unfold PrepareWriteLocked, mbind, M_bind, get, on_versions, EnsureMvccEntryLocked, txn_of, deref.
  rewrite He. simpl. rewrite Hx. simpl.
  rewrite (overwritten_conflict s (MvccKey tab r) t x e) by (done || by exists e). unfold IsMvccTxn. rewrite Hm. simpl. by destruct s.
Qed.

Lemma check_snapshot tab r old new t x s :
  txns s !! t = Some x → isolation_level_ x = SNAPSHOT_ISOLATION →
  CheckSerializableWriteLocked tab r old new t s = (Ok tt, s).
Proof.
  intros Hx Hiso. unfold CheckSerializableWriteLocked, mbind, M_bind, txn_of, deref. rewrite Hx. simpl.
  rewrite Hiso. by rewrite orb_true_r.
Qed.

Lemma check_then_refused {A} ins old old' new t x tab r s (k : M TransactionManager A) :
  txns s !! t = Some x → mvcc_enabled_ x = true → overwritten s (MvccKey tab r) t (start_ts_ x) →
  ∃ e s', (CheckSerializableWriteLocked tab r old' new t;; PrepareWriteLocked tab r old t ins;; k) s = (Err e, s') ∧
    (isolation_level_ x = SNAPSHOT_ISOLATION → e = TransactionAbortException t MVCC_CONFLICT ∧ s' = s).
Proof.
  intros Hx Hm Ho. destruct (CheckSerializableWriteLocked tab r old' new t s) as [[[]|e1] s1] eqn:E1.
  - rewrite (bind_ok _ _ _ _ _ E1). destruct (check_ser_ok _ _ _ _ _ _ _ _ Hx E1) as [st ->].
    assert (PrepareWriteLocked tab r old t ins (set_ser st s) =
      (Err (TransactionAbortException t MVCC_CONFLICT), set_ser st s)) as Hp.
    { by apply (overwritten_refused _ _ _ x). }
    rewrite (bind_err _ _ _ _ _ Hp). do 2 eexists. split; [reflexivity|]. intros Hiso. split; [done|].
    rewrite (check_snapshot _ _ _ _ _ x) in E1 by done. by injection E1 as <-.
  - rewrite (bind_err _ _ _ _ _ E1). do 2 eexists. split; [reflexivity|]. intros Hiso.
    by rewrite (check_snapshot _ _ _ _ _ x) in E1.
Qed.

(** C17: No lost update (first committer wins), for versioned writes.  A transaction [t1] has
    made a versioned write to a record (its key is in [mvcc_write_keys_]) and commits while the
    snapshot transaction [t0] runs.  However long [t0] goes on running, and whatever versioned
    writes and other steps [mstep] it and the others make in the meantime (as in
    [snapshot_stable], so without aborts of transactions with only unversioned writes), its
    update or delete of that record does not go through: it throws, and at snapshot isolation it
    throws [MVCC_CONFLICT] and leaves the state as it was.  Commits and aborts are atomic steps. *)
Theorem no_lost_update t0 x t1 x1 tab r R s s1 R' s' :
  inv R s → t0 ∈ R → txns s !! t0 = Some x → mvcc_enabled_ x = true →
  t1 ∈ R → t1 ≠ t0 → txns s !! t1 = Some x1 → MvccKey tab r ∈ mvcc_write_keys_ x1 →
  commit std_hash os_fd t1 s = (Ok tt, s1) → runs t0 (R ∖ {[t1]}) s1 R' s' →
  ∀ old new, ∃ eu su ed sd,
    MvccUpdate tab r old new t0 s' = (Err eu, su) ∧ MvccDelete tab r old t0 s' = (Err ed, sd) ∧
    (isolation_level_ x = SNAPSHOT_ISOLATION →
     (eu, su) = (TransactionAbortException t0 MVCC_CONFLICT, s') ∧ (ed, sd) = (TransactionAbortException t0 MVCC_CONFLICT, s')).
Proof.
  intros Hi Ht0 Hx Hm Ht1 Hne Hx1 Hk Hc Hruns old new.
  destruct (commit_ok std_hash os_fd R s t1 x1 s1 Hi Ht1 Hx1 Hc) as (Hi1 & Hst & Hpb).
  assert (t0 ∈ R ∖ {[t1]}) as Ht0' by set_solver. destruct (Hst t0 x Ht0' Hx Hm) as (Hx' & _).
  destruct (runs_kept t0 _ _ _ _ Hruns x Hi1 Ht0' Hx' Hm) as (_ & _ & x2 & Hx2 & (E1 & E2 & E3) & Ho).
  specialize (Ho _ (Hpb t0 x Ht0' Hx Hm _ Hk)). rewrite <- E2 in Ho. rewrite <- E1 in Hm.
  assert (ShouldVersionWrites x2 s' = true) as Hv by (unfold ShouldVersionWrites; by rewrite Hm).
  unfold MvccUpdate, MvccDelete. rewrite !(versioned_ok t0 x2) by done. rewrite <- E3.
  destruct (check_then_refused false old (Some old) (Some new) t0 x2 tab r s' (set_head tab r false new t0;; m ← get_table tab;
    if index_keys_changed m old new then on_versions (modify (add_compensation tab r)) else mret tt) Hx2 Hm Ho) as (eu & su & Hu & Hu').
  destruct (check_then_refused false old (Some old) None t0 x2 tab r s' (set_head tab r true old t0;;
    on_versions (modify (add_compensation tab r))) Hx2 Hm Ho) as (ed & sd & Hd & Hd').
  exists eu, su, ed, sd. split_and!; [done..|]. intros Hiso. destruct (Hu' Hiso) as [-> ->]. by destruct (Hd' Hiso) as [-> ->].
Qed.

End with_system.

(** ** A small database *)

(** A table [t(id int, v int)] with the rows (1,0), (2,0), (3,0). *)
Definition tab_t : bytes := [Byte.x74].
Definition id_col : ColMeta := mk_ColMeta tab_t [Byte.x69] TYPE_INT 4 0.
Definition v_col : ColMeta := mk_ColMeta tab_t [Byte.x76] TYPE_INT 4 4.
Definition row (i v : Z) : bytes := le_split 4 i ++ le_split 4 v.
Definition at_row (i : Z) : Rid := mk_Rid 1 i.
Definition table_t : Recovery.Table :=
  Recovery.mk_Table {[at_row 1 := row 1 0; at_row 2 := row 2 0; at_row 3 := row 3 0]} {[1 := 0]} 2 8 [].
Definition system0 : System :=
  mk_System {[tab_t := table_t]} {[tab_t := 3]} {[tab_t := mk_TabMeta [id_col; v_col] []]}
    (Lm.mk_LockManager ∅ ∅) (Log.make_log_manager (Disk.init {["db.log"%string := []]})).
Definition tm0 : TransactionManager :=
  mk_Tm 0 ∅ 0 0 0 (Wm.make_watermark 0) ∅ (mk_Versions ∅ ∅ ∅ 0) (mk_SerState ∅ ∅ ∅ ∅ ∅ ∅) system0.

Abbreviation commit0 := (commit (λ h, h) (λ _, 7)).
Abbreviation abort0 := (abort (λ h, h) (λ _, 7)).

(** The update statement on row [i], for a row that [t] sees as [old]. *)
Definition update_row (t i : Z) (old new : bytes) : M TransactionManager unit :=
  MvccUpdate tab_t (at_row i) old new t;;
  append_write_record t (mk_WriteRecord UPDATE_TUPLE tab_t 3 (at_row i) old);;
  on_table tab_t (Recovery.update_record (at_row i) new).

Lemma inv_tm0 : inv ∅ tm0.
Proof.
  split; split.
  - intros key e He. change (entries tm0) with (∅ : gmap bytes MvccEntry) in He. by rewrite lookup_empty in He.
  - intros t x key Ht. set_solver.
  - intros t Ht. set_solver.
  - intros tab tb. change (fhs_ (sys tm0)) with ({[tab_t := table_t]} : gmap bytes Recovery.Table).
    rewrite lookup_singleton_Some. intros [_ <-] r v Hr. change (Recovery.t_records table_t) with
      ({[at_row 1 := row 1 0; at_row 2 := row 2 0; at_row 3 := row 3 0]} : gmap Rid bytes) in Hr.
    repeat (apply lookup_insert_Some in Hr as [[<- _]|[_ Hr]]; [reflexivity|]).
    apply lookup_singleton_Some in Hr as [<- _]. reflexivity.
  - apply Wm.wwf_make.
  - intros ts. vm_compute. reflexivity.
  - vm_compute. reflexivity.
Qed.

(** Transaction 0 takes a snapshot; transaction 1 begins, updates row 1 and commits, and
    garbage is collected. *)
Definition w1 : TransactionManager := (begin_txn SNAPSHOT_ISOLATION tm0).2.
Definition w2 : TransactionManager := (begin_txn SNAPSHOT_ISOLATION w1).2.
Definition w3 : TransactionManager :=
  (on_table tab_t (Recovery.update_record (at_row 1) (row 1 7)) (MvccUpdate tab_t (at_row 1) (row 1 0) (row 1 7) 1 w2).2).2.
Definition w4 : TransactionManager := (commit0 1 w3).2.
Definition w5 : TransactionManager := (GarbageCollection w4).2.
Definition snapshot_txn : Transaction := mk_Transaction SNAPSHOT_ISOLATION true INVALID_LSN 0 0 INVALID_TS [] ∅.

Lemma inv_w1 : inv {[0]} w1.
Proof.
  destruct (begin_ok ∅ tm0 SNAPSHOT_ISOLATION 0 w1) as (_ & H & _); [apply inv_tm0|split_and!; done|refine (ran (begin_txn SNAPSHOT_ISOLATION) tm0 _ _); by vm_compute|].
  by rewrite right_id_L in H by apply _.
Qed.

Abbreviation step0 := (mstep (λ h, h) (λ _, 7)).

Lemma begin_w2 : step0 1 {[0]} w1 ({[1]} ∪ {[0]}) w2.
Proof.
  apply (ms_begin _ _ SNAPSHOT_ISOLATION); [by split_and!; vm_compute|].
  refine (ran (begin_txn SNAPSHOT_ISOLATION) w1 _ _). by vm_compute.
Qed.

Lemma update_w3 : step0 1 ({[1]} ∪ {[0]}) w2 ({[1]} ∪ {[0]}) w3.
Proof.
  eapply (ms_update _ _ 1 snapshot_txn tab_t (at_row 1) (row 1 0) (row 1 7)); [set_solver|by vm_compute..|done| |].
  - refine (ran (MvccUpdate tab_t (at_row 1) (row 1 0) (row 1 7) 1) w2 _ _). by vm_compute.
  - refine (ran (on_table tab_t (Recovery.update_record (at_row 1) (row 1 7))) _ _ _). by vm_compute.
Qed.

Lemma commit_w4 : commit0 1 w3 = (Ok tt, w4).
Proof. refine (ran (commit0 1) w3 _ _). by vm_compute. Qed.
Lemma gc_w5 : GarbageCollection w4 = (Ok tt, w5).
Proof. refine (ran GarbageCollection w4 _ _). by vm_compute. Qed.

Lemma others_w : others (λ h, h) (λ _, 7) 0 {[0]} w1 (({[1]} ∪ {[0]}) ∖ {[1]}) w5.
Proof.
  apply (others_step _ _ 0 1 _ _ ({[1]} ∪ {[0]}) w2); [done|apply begin_w2|].
  apply (others_step _ _ 0 1 _ _ ({[1]} ∪ {[0]}) w3); [done|apply update_w3|].
  apply (others_step _ _ 0 1 _ _ (({[1]} ∪ {[0]}) ∖ {[1]}) w4); [done|apply ms_commit; [set_solver|apply commit_w4]|].
  apply (others_step _ _ 0 1 _ _ (({[1]} ∪ {[0]}) ∖ {[1]}) w5); [done|apply ms_gc, gc_w5|].
  apply others_done.
Qed.

(** The state after transaction 1's commit, with transaction 0 running. *)
Lemma inv_w3 : inv ({[1]} ∪ {[0]}) w3.
Proof.
  destruct (mstep_ok (λ h, h) (λ _, 7) 1 {[0]} w1 ({[1]} ∪ {[0]}) w2) as (H2 & _); [apply begin_w2|apply inv_w1|].
  destruct (mstep_ok (λ h, h) (λ _, 7) 1 ({[1]} ∪ {[0]}) w2 ({[1]} ∪ {[0]}) w3) as (H3 & _); [apply update_w3|exact H2|exact H3].
Qed.

Lemma no_lost_update_witness :
  MvccUpdate tab_t (at_row 1) (row 1 0) (row 1 9) 0 w5 = (Err (TransactionAbortException 0 MVCC_CONFLICT), w5).
Proof.
  destruct (no_lost_update (λ h, h) (λ _, 7) 0 snapshot_txn 1
    (mk_Transaction SNAPSHOT_ISOLATION true INVALID_LSN 0 0 INVALID_TS [] {[MvccKey tab_t (at_row 1)]}) tab_t (at_row 1)
    ({[1]} ∪ {[0]}) w3 w4 (({[1]} ∪ {[0]}) ∖ {[1]}) w5 inv_w3) with (old := row 1 0) (new := row 1 9)
    as (eu & su & ed & sd & -> & _ & H).
  - set_solver.
  - by vm_compute.
  - done.
  - set_solver.
  - done.
  - by vm_compute.
  - set_solver.
  - apply commit_w4.
  - eapply (runs_step _ _ 0 1); [apply ms_gc, gc_w5|set_solver|apply runs_done].
  - destruct (H eq_refl) as [[E1 E2]%pair_equal_spec _]. rewrite E1, E2. reflexivity.
Defined.

(** The heap has the committed row, transaction 0 reads the old one. *)
Lemma snapshot_stable_witness :
  phys w5 tab_t (at_row 1) = Some (row 1 7) ∧ reads w5 tab_t (at_row 1) 0 = reads w1 tab_t (at_row 1) 0 ∧
  reads w1 tab_t (at_row 1) 0 = Some (row 1 0).
Proof.
  split; [by vm_compute|]. split; [|by vm_compute].
  destruct (snapshot_stable (λ h, h) (λ _, 7) 0 snapshot_txn {[0]} w1 (({[1]} ∪ {[0]}) ∖ {[1]}) w5 inv_w1) as (_ & _ & _ & H);
    [set_solver|by vm_compute|done|apply others_w|]. apply H.
Defined.

(** ** Where isolation gives way *)

(** The read of row [i] by the serializable transaction [t], as a scan with [id = i] registers it. *)
Definition read_row (t i : Z) : M TransactionManager unit :=
  RegisterSerializableRead tab_t [id_col; v_col]
    [mk_Condition (mk_TabCol tab_t [Byte.x69]) OP_EQ true (mk_TabCol [] []) (mk_Value (le_split 4 i) [])] [at_row i] t.

(** Three serializable transactions, each of which reads the row that the next one writes. *)
Definition three_cycle : M TransactionManager unit :=
  begin_txn SERIALIZABLE;; begin_txn SERIALIZABLE;; begin_txn SERIALIZABLE;;
  read_row 0 1;; read_row 1 2;; read_row 2 3;;
  update_row 1 1 (row 1 0) (row 1 5);; update_row 2 2 (row 2 0) (row 2 5);; update_row 0 3 (row 3 0) (row 3 5).

(** A serializable transaction is not checked when it commits, and an rw-dependency
    counts as dangerous only once its target has committed: three concurrent transactions
    whose dependencies form the cycle 0 -> 1 -> 2 -> 0 all commit, which no serial order allows. *)
Theorem three_cycle_commits :
  (three_cycle tm0).1 = Ok tt ∧
  {[(0, 1); (1, 2); (2, 0)]} ⊆ rw_edges_ (ser (three_cycle tm0).2) ∧
  ((three_cycle;; commit0 0;; commit0 1;; commit0 2) tm0).1 = Ok tt.
Proof.
  split_and!; [by vm_compute| |by vm_compute].
  assert (bool_decide ({[(0, 1); (1, 2); (2, 0)]} ⊆ rw_edges_ (ser (three_cycle tm0).2)) = true) as H by (by vm_compute).
  by apply bool_decide_eq_true in H.
Qed.

(** Transaction 0 has taken its snapshot timestamp when transaction 1 begins, updates row 1
    and commits; that commit collects garbage. *)
Definition begin_race : M TransactionManager unit :=
  t0 ← begin_snapshot SNAPSHOT_ISOLATION;
  t1 ← begin_txn SNAPSHOT_ISOLATION;
  update_row t1 1 (row 1 0) (row 1 7);;
  commit0 t1;;
  begin_register t0.

(** A snapshot transaction registers with the watermark after it took its timestamp.  A
    commit and a garbage collection in between remove the versions that it should read: with
    snapshot timestamp 0 it reads a row that was committed at timestamp 1. *)
Theorem begin_race_reads_future :
  let s := (begin_race (set_gc_counter 1023 tm0)).2 in
  (begin_race (set_gc_counter 1023 tm0)).1 = Ok tt ∧
  (start_ts_ <$> txns s !! 0) = Some 0 ∧ (txn_commit_ts_ <$> txns s !! 1) = Some 1 ∧
  reads s tab_t (at_row 1) 0 = Some (row 1 7).
Proof. split_and!; by vm_compute. Qed.

(** A read-committed transaction updates row 1, and then a snapshot transaction begins. *)
Definition early_write : M TransactionManager unit :=
  t0 ← begin_txn READ_COMMITTED;
  update_row t0 1 (row 1 0) (row 1 7);;
  begin_txn SNAPSHOT_ISOLATION;;
  mret tt.

(** A write of a transaction without a snapshot is versioned only while snapshot
    transactions run.  One that begins after such a write reads it although it is not
    committed, and reads another value after the writer's abort. *)
Theorem snapshot_reads_uncommitted :
  let s := (early_write tm0).2 in
  (early_write tm0).1 = Ok tt ∧ reads s tab_t (at_row 1) 1 = Some (row 1 7) ∧
  (abort0 0 s).1 = Ok tt ∧ reads (abort0 0 s).2 tab_t (at_row 1) 1 = Some (row 1 0).
Proof. split_and!; by vm_compute. Qed.

(** The same transaction goes on to update row 2, which is versioned. *)
Definition mixed_writes : M TransactionManager unit :=
  early_write;; update_row 0 2 (row 2 0) (row 2 7).

(** The abort of a transaction with versioned writes takes back the versioned writes
    only: the earlier update of row 1, made before any snapshot transaction ran, stays in the
    heap after the abort, for every reader. *)
Theorem abort_keeps_unversioned_write :
  let s := (abort0 0 (mixed_writes tm0).2).2 in
  (mixed_writes tm0).1 = Ok tt ∧ (abort0 0 (mixed_writes tm0).2).1 = Ok tt ∧
  phys s tab_t (at_row 1) = Some (row 1 7) ∧ phys s tab_t (at_row 2) = Some (row 2 0) ∧
  reads s tab_t (at_row 1) 1 = Some (row 1 7).
Proof. split_and!; by vm_compute. Qed.
End MvccClaims.
