(* ===== verification/Scans.v ===== *)
(** * Scans ([execution/executor_seq_scan.h], [execution/executor_index_scan.h])

    The leaves of an executor tree.  They read the world of a running transaction: the state of
    the transaction manager, which holds the heap files, versions, locks and the catalogue, and
    the open indexes.  A context with a transaction, a lock manager and a transaction manager
    is assumed, as the server always gives one. *)

From Stdlib Require Import SpecFloat.
From S2P Require Import Prelude RecordFile Recovery Conditions LockManager Mvcc Index Executor.

Module Scans.
Import RecFile Cond Mvcc Exec.

Record World := mk_World { w_tm : TransactionManager; w_ihs : gmap string Ix.IxIndexHandle }.

Definition on_tm {A} (m : M TransactionManager A) : M World A := λ w,
  let '(r, s) := m (w_tm w) in (r, mk_World s (w_ihs w)).

Definition on_index {A} (name : string) (m : M Ix.IxIndexHandle A) : M World A := λ w,
  match w_ihs w !! name with
  | None => (Err Undefined, w)
  | Some ih => let '(r, ih') := m ih in (r, mk_World (w_tm w) (<[name := ih']> (w_ihs w)))
  end.

(** [RmFileHandle::snapshot_rids] on a table. *)
Definition table_rids : M Recovery.Table (list Rid) := λ t, (Ok (merge_sort rid_le (elements (dom (Recovery.t_records t)))), t).

Section scans.
Context (std_hash : Z → Z) (ndebug : bool) (fuel : nat).

(** ** Reading a record *)

Section reads.
Context (tab : bytes) (t : Z) (use_2pl_locks : bool).

(** The record that the transaction sees at [rid], if any, after the shared lock of a
    transaction without snapshot.  A record that is gone is not an error. *)
Definition read_visible (rid : Rid) : M World (option record) :=
  (if use_2pl_locks then
     fd ← on_tm (fd_of tab);
     on_tm (on_locks (Lm.lock_shared_on_record std_hash t rid fd));;
     mret tt
   else mret tt);;
  try_catch
    (w ← get;
     physical ← on_tm (on_table tab (Recovery.get_record rid));
     if HasMvccState (w_tm w) then on_tm (GetVisibleRecord tab rid physical t) else mret (Some physical))
    (λ e, match e with RecordNotFoundError _ _ => mret None | e => throw e end).
End reads.

(** ** SeqScanExecutor *)

Section seq_scan.
Context (tab : bytes) (t : Z) (use_2pl_locks : bool) (cols_ : list ColMeta) (conds : list Condition).

Record SeqState := mk_SeqState {
  ss_scan : option RmScan;
  ss_rid : Rid;
  ss_cur : option record;
  ss_returned : list Rid;
  ss_registered : bool;
  ss_rows : nat
}.

Definition seq_is_end (s : SeqState) : bool := match ss_scan s with None => true | Some sc => scan_is_end sc end.

Definition seq_register (s : SeqState) : M World SeqState :=
  if ss_registered s then mret s
  else
    on_tm (RegisterSerializableRead tab cols_ conds (ss_returned s) t);;
    mret (mk_SeqState (ss_scan s) (ss_rid s) (ss_cur s) (ss_returned s) true (ss_rows s)).

(** [load_visible_current] of a scan at [rid]. *)
Definition seq_load (rid : Rid) : M World (option record) :=
  rec ← read_visible tab t use_2pl_locks rid;
  mret (match rec with Some r => if eval_conds r cols_ conds then Some r else None | None => None end).

(** The loop of [beginTuple] and [nextTuple]. *)
Fixpoint seq_advance (fuel : nat) (sc : RmScan) (s : SeqState) : M World SeqState :=
  match fuel with
  | O => throw Undefined
  | S fuel =>
      if scan_is_end sc then seq_register (mk_SeqState (Some sc) (ss_rid s) None (ss_returned s) (ss_registered s) (ss_rows s))
      else
        rec ← seq_load (rid_ sc);
        match rec with
        | Some r => mret (mk_SeqState (Some sc) (rid_ sc) (Some r) (ss_returned s ++ [rid_ sc]) (ss_registered s) (ss_rows s))
        | None => seq_advance fuel (scan_next sc) s
        end
  end.

Definition seq_begin (s : SeqState) : M World SeqState :=
  rids ← on_tm (on_table tab table_rids);
  seq_advance fuel (RmScan_init rids) (mk_SeqState None (ss_rid s) None [] false (ss_rows s)).

Definition seq_next (s : SeqState) : M World SeqState :=
  match ss_scan s with None => mret s | Some sc => seq_advance fuel (scan_next sc) s end.

Definition seq_Next (s : SeqState) : M World (option record * SeqState) :=
  if seq_is_end s then mret (None, s)
  else
    r ← deref (ss_cur s);
    mret (Some r, mk_SeqState (ss_scan s) (ss_rid s) (ss_cur s) (ss_returned s) (ss_registered s) (S (ss_rows s))).

(** [NextBatch] takes the current record if there is one. *)
Definition seq_take (s : SeqState) : M World (option record * SeqState) :=
  mret (ss_cur s, mk_SeqState (ss_scan s) (ss_rid s) (ss_cur s) (ss_returned s) (ss_registered s)
    (match ss_cur s with Some _ => S (ss_rows s) | None => ss_rows s end)).

Definition table_len (cs : list ColMeta) : Z := match last cs with Some c => cm_offset c + cm_len c | None => 0 end.

Definition SeqScanExecutor : Exec World := {|
  ex_st := SeqState;
  ex_init := mk_SeqState None no_rid None [] false 0;
  cols := cols_;
  tupleLen := table_len cols_;
  beginTuple := seq_begin;
  nextTuple := seq_next;
  is_end := seq_is_end;
  Next := seq_Next;
  NextBatch n := batch_loop seq_is_end seq_take seq_next fuel n [];
  bind_join_key := no_bind;
  finish := seq_register
|}.
End seq_scan.

(** ** The bounds of an index scan *)

(** [Value::init_raw] of a value of the type of its column. *)
Definition value_raw (type : ColType) (len : Z) (v : Value) : list byte :=
  match type with
  | TYPE_STRING => str_val v ++ replicate (Z.to_nat len - length (str_val v)) Byte.x00
  | _ => v_bits v
  end.

(** [fill_min_key] and [fill_max_key]. *)
Definition fill_min_key (c : ColMeta) : list byte :=
  match cm_type c with
  | TYPE_INT => enc_int 4 (-2147483648)
  | TYPE_FLOAT => enc_int 4 4286578687
  | TYPE_STRING => replicate (Z.to_nat (cm_len c)) Byte.x00
  end.
Definition fill_max_key (c : ColMeta) : list byte :=
  match cm_type c with
  | TYPE_INT => enc_int 4 2147483647
  | TYPE_FLOAT => enc_int 4 2139095039
  | TYPE_STRING => replicate (Z.to_nat (cm_len c)) Byte.xff
  end.

(** The last equality, lower and upper condition on a column. *)
Record ColConds := mk_ColConds { cc_eq : option Condition; cc_lower : option Condition; cc_upper : option Condition }.

Definition pick_cond (tab : bytes) (c : ColMeta) (p : ColConds) (cond : Condition) : ColConds :=
  if negb (is_rhs_val cond) || negb (bool_decide (tc_tab_name (lhs_col cond) = tab)) || negb (bool_decide (tc_col_name (lhs_col cond) = cm_name c)) then p
  else match op cond with
  | OP_EQ => mk_ColConds (Some cond) (cc_lower p) (cc_upper p)
  | OP_GT | OP_GE => mk_ColConds (cc_eq p) (Some cond) (cc_upper p)
  | OP_LT | OP_LE => mk_ColConds (cc_eq p) (cc_lower p) (Some cond)
  | OP_NE => p
  end.
Definition col_conds (tab : bytes) (conds : list Condition) (c : ColMeta) : ColConds := foldl (pick_cond tab c) (mk_ColConds None None None) conds.

Record Bounds := mk_Bounds {
  lower_key : list byte;
  upper_key : list byte;
  has_lower : bool;
  has_upper : bool;
  lower_open : bool;
  upper_open : bool
}.

Definition cond_raw (c : ColMeta) (cond : Condition) : list byte := take (Z.to_nat (cm_len c)) (value_raw (cm_type c) (cm_len c) (rhs_val cond)).
Definition is_op (o : CompOp) (cond : Condition) : bool := match o, op cond with OP_GT, OP_GT | OP_LT, OP_LT => true | _, _ => false end.

(** The loop over the columns of the index: equalities extend both keys; the first column
    without one gets its range, and the columns behind it the whole range. *)
Fixpoint build_bounds (tab : bytes) (conds : list Condition) (index_cols : list ColMeta) (stop_prefix : bool) (b : Bounds) : Bounds :=
  match index_cols with
  | [] => b
  | c :: index_cols =>
      let p := if stop_prefix then mk_ColConds None None None else col_conds tab conds c in
      match cc_eq p with
      | Some eq =>
          build_bounds tab conds index_cols stop_prefix
            (mk_Bounds (lower_key b ++ cond_raw c eq) (upper_key b ++ cond_raw c eq) true true (lower_open b) (upper_open b))
      | None =>
          let b := match cc_lower p with
            | Some l => mk_Bounds (lower_key b ++ cond_raw c l) (upper_key b) true (has_upper b) (is_op OP_GT l) (upper_open b)
            | None => mk_Bounds (lower_key b ++ fill_min_key c) (upper_key b) (has_lower b) (has_upper b) (lower_open b) (upper_open b)
            end in
          let b := match cc_upper p with
            | Some u => mk_Bounds (lower_key b) (upper_key b ++ cond_raw c u) (has_lower b) true (lower_open b) (is_op OP_LT u)
            | None => mk_Bounds (lower_key b) (upper_key b ++ fill_max_key c) (has_lower b) (has_upper b) (lower_open b) (upper_open b)
            end in
          build_bounds tab conds index_cols true b
      end
  end.
Definition no_bounds : Bounds := mk_Bounds [] [] false false false false.

(** The positions the scan starts and ends at. *)
Definition start_pos (b : Bounds) : M Ix.IxIndexHandle Ix.Iid :=
  if has_lower b then (if lower_open b then Ix.upper_bound (lower_key b) else Ix.lower_bound (lower_key b)) else Ix.leaf_begin.
Definition end_pos (b : Bounds) : M Ix.IxIndexHandle Ix.Iid :=
  if has_upper b then (if upper_open b then Ix.lower_bound (upper_key b) else Ix.upper_bound (upper_key b)) else Ix.leaf_end.

(** ** IndexScanExecutor *)

(** The constructor turns conditions around whose left column is of another table. *)
Definition swap_op (o : CompOp) : CompOp :=
  match o with OP_LT => OP_GT | OP_GT => OP_LT | OP_LE => OP_GE | OP_GE => OP_LE | o => o end.
Definition orient (tab : bytes) (cond : Condition) : Condition :=
  if bool_decide (tc_tab_name (lhs_col cond) = tab) then cond
  else mk_Condition (rhs_col cond) (swap_op (op cond)) (is_rhs_val cond) (lhs_col cond) (rhs_val cond).

Section index_scan.
Context (tab : bytes) (t : Z) (use_2pl_locks : bool) (cols_ : list ColMeta) (conds_ : list Condition).
Context (index_name : string) (index_cols : list ColMeta).
(** The outer column and the name of the inner column, on the inside of a join. *)
Context (join_inner : option (TabCol * bytes)).

Record IxState := mk_IxState {
  xs_scan : option (Ix.Iid * Ix.Iid);
  xs_rid : Rid;
  xs_cur : option record;
  xs_extra : list (Rid * record);
  xs_extra_pos : nat;
  xs_seen : gset Rid;
  xs_returned : list Rid;
  xs_registered : bool;
  xs_end : bool;
  xs_conds : list Condition;    (* [fed_conds_] *)
  xs_join_key : option Value;   (* [join_key_val_] if [join_key_bound_] *)
  xs_rows : nat
}.

Definition conds0 : list Condition := orient tab <$> conds_.
Definition ix_init : IxState := mk_IxState None no_rid None [] 0 ∅ [] false true conds0 None 0.

Definition ix_register (s : IxState) : M World IxState :=
  if xs_registered s then mret s
  else
    on_tm (RegisterSerializableRead tab cols_ (xs_conds s) (xs_returned s) t);;
    mret (mk_IxState (xs_scan s) (xs_rid s) (xs_cur s) (xs_extra s) (xs_extra_pos s) (xs_seen s) (xs_returned s) true (xs_end s)
      (xs_conds s) (xs_join_key s) (xs_rows s)).

(** [load_mvcc_extra_records]; transactions without snapshot get none. *)
Definition load_mvcc_extra_records (s : IxState) : M World IxState :=
  extra ← (if use_2pl_locks then mret [] else on_tm (CollectVisibleVersionRecords tab cols_ (xs_conds s) (xs_seen s) t));
  mret (mk_IxState (xs_scan s) (xs_rid s) (xs_cur s) extra 0 (xs_seen s) (xs_returned s) (xs_registered s) (xs_end s)
    (xs_conds s) (xs_join_key s) (xs_rows s)).

(** [load_next_extra]. *)
Definition load_next_extra (s : IxState) : option IxState :=
  '(rid, rec) ← xs_extra s !! xs_extra_pos s;
  Some (mk_IxState (xs_scan s) rid (Some rec) (xs_extra s) (xs_extra_pos s) (xs_seen s) (xs_returned s ++ [rid]) (xs_registered s) false
    (xs_conds s) (xs_join_key s) (xs_rows s)).

(** [load_visible_index_current] of a scan at the entry of [rid]. *)
Definition load_visible_index_current (rid : Rid) (s : IxState) : M World (bool * IxState) :=
  rec ← read_visible tab t use_2pl_locks rid;
  let seen := {[rid]} ∪ xs_seen s in
  mret (match rec with
  | Some r =>
      if eval_conds r cols_ (xs_conds s) then
        (true, mk_IxState (xs_scan s) rid (Some r) (xs_extra s) (xs_extra_pos s) seen (xs_returned s ++ [rid]) (xs_registered s) false
          (xs_conds s) (xs_join_key s) (xs_rows s))
      else (false, mk_IxState (xs_scan s) (xs_rid s) (xs_cur s) (xs_extra s) (xs_extra_pos s) seen (xs_returned s) (xs_registered s) (xs_end s)
          (xs_conds s) (xs_join_key s) (xs_rows s))
  | None => (false, mk_IxState (xs_scan s) (xs_rid s) (xs_cur s) (xs_extra s) (xs_extra_pos s) seen (xs_returned s) (xs_registered s) (xs_end s)
          (xs_conds s) (xs_join_key s) (xs_rows s))
  end).

Definition with_scan (sc : option (Ix.Iid * Ix.Iid)) (s : IxState) : IxState :=
  mk_IxState sc (xs_rid s) (xs_cur s) (xs_extra s) (xs_extra_pos s) (xs_seen s) (xs_returned s) (xs_registered s) (xs_end s)
    (xs_conds s) (xs_join_key s) (xs_rows s).
Definition with_cur (cur : option record) (e : bool) (s : IxState) : IxState :=
  mk_IxState (xs_scan s) (xs_rid s) cur (xs_extra s) (xs_extra_pos s) (xs_seen s) (xs_returned s) (xs_registered s) e
    (xs_conds s) (xs_join_key s) (xs_rows s).

(** The end of [advance_to_next_match], behind the last entry. *)
Definition ix_extra (s : IxState) : M World IxState :=
  s ← load_mvcc_extra_records s;
  match load_next_extra s with
  | Some s => mret s
  | None => ix_register (with_cur (xs_cur s) true s)
  end.

Fixpoint ix_advance_loop (fuel : nat) (s : IxState) : M World IxState :=
  match fuel with
  | O => throw Undefined
  | S fuel =>
      match xs_scan s with
      | None => ix_extra s
      | Some (i, e) =>
          if decide (i = e) then ix_extra s
          else
            rid ← on_index index_name (Ix.get_rid i);
            '(found, s) ← load_visible_index_current rid s;
            if (found : bool) then mret s
            else
              i' ← on_index index_name (Ix.scan_next ndebug i e);
              ix_advance_loop fuel (with_scan (Some (i', e)) s)
      end
  end.
Definition ix_advance (s : IxState) : M World IxState := ix_advance_loop fuel (with_cur None (xs_end s) s).

(** [beginTuple] with the conditions [fed]. *)
Definition ix_start (fed : list Condition) (s : IxState) : M World IxState :=
  let b := build_bounds tab fed index_cols false no_bounds in
  i ← on_index index_name (start_pos b);
  e ← on_index index_name (end_pos b);
  ix_advance (mk_IxState (Some (i, e)) (xs_rid s) None [] 0 ∅ [] false true fed (xs_join_key s) (xs_rows s)).

Definition join_cond (inner_col : bytes) (v : Value) : Condition := mk_Condition (mk_TabCol tab inner_col) OP_EQ true (mk_TabCol [] []) v.

Definition ix_begin (s : IxState) : M World IxState :=
  match join_inner with
  | None => ix_start conds0 s
  | Some (_, inner_col) =>
      match xs_join_key s with
      | None => mret (mk_IxState None (xs_rid s) None [] 0 ∅ [] false true conds0 None (xs_rows s))
      | Some v => ix_start (conds0 ++ [join_cond inner_col v]) s
      end
  end.

Definition ix_next (s : IxState) : M World IxState :=
  if xs_end s then mret s
  else match xs_scan s with
  | Some (i, e) =>
      if decide (i = e) then
        let s1 := mk_IxState (xs_scan s) (xs_rid s) (xs_cur s) (xs_extra s) (S (xs_extra_pos s)) (xs_seen s) (xs_returned s)
          (xs_registered s) (xs_end s) (xs_conds s) (xs_join_key s) (xs_rows s) in
        if decide (xs_extra_pos s < length (xs_extra s))%nat then
          match load_next_extra s1 with
          | Some s2 => mret s2
          | None => ix_register (with_cur None true s1)
          end
        else ix_register (with_cur None true s)
      else
        i' ← on_index index_name (Ix.scan_next ndebug i e);
        ix_advance (with_scan (Some (i', e)) s)
  | None => ix_register (with_cur None true s)
  end.

Definition ix_Next (s : IxState) : M World (option record * IxState) :=
  match xs_end s, xs_cur s with
  | false, Some r => mret (Some r, mk_IxState (xs_scan s) (xs_rid s) (xs_cur s) (xs_extra s) (xs_extra_pos s) (xs_seen s) (xs_returned s)
      (xs_registered s) (xs_end s) (xs_conds s) (xs_join_key s) (S (xs_rows s)))
  | _, _ => mret (None, s)
  end.

(** The value that a join key has in the inner column. *)
Definition join_value (inner outer : ColMeta) (rec : record) : M World Value :=
  match cm_type inner with
  | TYPE_STRING =>
      let v := c_str (field rec (cm_offset outer) (cm_len outer)) in
      if decide (cm_len inner < Z.of_nat (length v)) then throw StringOverflowError else mret (mk_Value [] v)
  | _ => mret (mk_Value (field rec (cm_offset outer) 4) [])
  end.

Definition ix_bind (left_rec : record) (left_cols : list ColMeta) (s : IxState) : M World (bool * IxState) :=
  match join_inner with
  | None => mret (false, s)
  | Some (outer, inner) =>
      oc ← get_col left_cols outer;
      ic ← get_col cols_ (mk_TabCol tab inner);
      v ← join_value ic oc left_rec;
      mret (true, mk_IxState (xs_scan s) (xs_rid s) (xs_cur s) (xs_extra s) (xs_extra_pos s) (xs_seen s) (xs_returned s)
        (xs_registered s) (xs_end s) (xs_conds s) (Some v) (xs_rows s))
  end.

Definition IndexScanExecutor : Exec World := {|
  ex_st := IxState;
  ex_init := ix_init;
  cols := cols_;
  tupleLen := table_len cols_;
  beginTuple := ix_begin;
  nextTuple := ix_next;
  is_end := xs_end;
  Next := ix_Next;
  NextBatch n := batch_loop xs_end ix_Next ix_next fuel n [];
  bind_join_key := ix_bind;
  finish := ix_register
|}.
End index_scan.
End scans.
End Scans.
