(* ===== verification/Dml.v ===== *)
(** * INSERT, DELETE and UPDATE ([execution/executor_{insert,delete,update}.h], [portal.h])

    The executors that change tables.  They work on the transaction manager's state: heap files
    and indexes at the level of [Recovery.Table], versions, locks and log.  A context with a
    transaction, a lock manager, a log manager and a transaction manager is assumed, as the
    server always gives one.

    An index of a table is the map from keys to record ids that [IxSpec] shows it to be, so that
    [insert_entry] fails exactly for a key that is there; keys are equal when their bytes are.
    (In the B+ tree keys are equal when [ix_compare] says so: the same for integers and padded
    strings, while the floats 0.0 and -0.0 are one key there and two here.)
    The slot that [insert_record] takes depends on the free list of the file, which a
    [Recovery.Table] does not have: it is the parameter [free_slot], and [FreeSlots] is what
    [RecSpec.insert_record_correct] promises of it. *)

From Stdlib Require Import SpecFloat.
From S2P Require Import Prelude RecordFile Log Recovery Conditions LockManager Mvcc Executor Aggregate Scans.

Module Dml.
Import RecFile Cond Mvcc Exec Agg Scans.

(** ** Heap files and indexes *)

(** The slot for the next record: free, on a page of the file or on the next one. *)
Class FreeSlots (free_slot : Recovery.Table → Rid) : Prop := {
  free_slot_unused tb : map_Forall (λ r _, Recovery.page_ok (page_no r) tb = true) (Recovery.t_records tb) → Recovery.t_records tb !! free_slot tb = None;
  free_slot_page tb : RM_FIRST_RECORD_PAGE ≤ Recovery.t_pages tb → RM_FIRST_RECORD_PAGE ≤ page_no (free_slot tb) ≤ Recovery.t_pages tb;
  free_slot_slot tb : 0 < Recovery.t_slots tb → Recovery.slot_ok (slot_no (free_slot tb)) tb = true
}.

(** [IxIndexHandle::insert_entry] and [delete_entry] on index [i]: whether there was a change. *)
Definition insert_entry (i : nat) (key : bytes) (r : Rid) : M Recovery.Table bool :=
  tb ← get;
  ix ← deref (Recovery.t_indexes tb !! i);
  match Recovery.entries ix !! key with
  | Some _ => mret false
  | None =>
      put (Recovery.with_indexes (<[i := Recovery.mk_Index (Recovery.cols ix) (<[key := r]> (Recovery.entries ix))]> (Recovery.t_indexes tb)) tb);;
      mret true
  end.

Definition delete_entry (i : nat) (key : bytes) : M Recovery.Table bool :=
  tb ← get;
  ix ← deref (Recovery.t_indexes tb !! i);
  match Recovery.entries ix !! key with
  | None => mret false
  | Some _ =>
      put (Recovery.with_indexes (<[i := Recovery.mk_Index (Recovery.cols ix) (delete key (Recovery.entries ix))]> (Recovery.t_indexes tb)) tb);;
      mret true
  end.

(** Entries enter the indexes one by one until a key is there: those that are in, and the error. *)
Fixpoint insert_entries (r : Rid) (todo done : list (nat * bytes)) : M Recovery.Table (list (nat * bytes) * option exn) :=
  match todo with
  | [] => mret (done, None)
  | (i, key) :: todo =>
      b ← insert_entry i key r;
      if (b : bool) then insert_entries r todo (done ++ [(i, key)]) else mret (done, Some RMDBError)
  end.

(** The entries that were there and left. *)
Fixpoint delete_entries (todo done : list (nat * bytes)) : M Recovery.Table (list (nat * bytes)) :=
  match todo with
  | [] => mret done
  | (i, key) :: todo =>
      b ← delete_entry i key;
      delete_entries todo (if (b : bool) then done ++ [(i, key)] else done)
  end.

Definition remove_entries : list (nat * bytes) → M Recovery.Table unit := mfor (λ '(i, key), delete_entry i key;; mret tt).
Definition restore_entries (r : Rid) : list (nat * bytes) → M Recovery.Table unit := mfor (λ '(i, key), insert_entry i key r;; mret tt).

(** The keys of a record in the indexes of its table. *)
Definition index_keys (rec : record) (ixs : list Recovery.Index) : list (nat * bytes) :=
  imap (λ i ix, (i, Recovery.make_index_key rec ix)) ixs.

(** [OwnsPhysicalInsert] for a file descriptor. *)
Definition OwnsPhysicalInsert_fd (fd : Z) (r : Rid) (t : Z) : M TransactionManager bool :=
  s ← get; mret (bool_decide (physical_insert_owners_ s !! (fd, r) = Some t)).

(** ** Values *)

(** [(int)f]; a value that no [int] has is undefined. *)
Definition int_of_float (f : spec_float) : option Z :=
  z ← trunc f; if decide (INT_MIN ≤ z ≤ INT_MAX) then Some z else None.

(** [Value::init_raw]: the buffer of [len] bytes.  The [assert]s on the length are not compiled;
    the bytes behind the four of a number stay undefined. *)
Definition init_raw (len : Z) (v : TValue) : res bytes :=
  match tv_type v with
  | TYPE_STRING =>
      if decide (len < Z.of_nat (length (str_val (tv_val v)))) then Err StringOverflowError
      else Ok (value_raw TYPE_STRING len (tv_val v))
  | _ => if decide (len = 4) then Ok (v_bits (tv_val v)) else Err Undefined
  end.

(** The conversion between [int] and [float] for a column of type [type]. *)
Definition convert_number (type : ColType) (v : TValue) : res TValue :=
  match type, tv_type v with
  | TYPE_FLOAT, TYPE_INT => Ok (set_float (float_of_int (int_of (v_bits (tv_val v)))))
  | TYPE_INT, TYPE_FLOAT => z ← require (int_of_float (float_of (v_bits (tv_val v)))) Undefined; Ok (set_int z)
  | _, _ => Ok v
  end.

(** The bytes of a value in a column of an inserted record. *)
Definition field_bytes (c : ColMeta) (v : TValue) : res bytes :=
  match cm_type c, tv_type v with
  | TYPE_INT, TYPE_STRING | TYPE_FLOAT, TYPE_STRING | TYPE_STRING, TYPE_INT | TYPE_STRING, TYPE_FLOAT => Err IncompatibleTypeError
  | _, _ => v ← convert_number (cm_type c) v; init_raw (cm_len c) v
  end.

(** The record buffer; the columns cover it, so that its initial bytes do not matter. *)
Fixpoint fill_record (cs : list ColMeta) (vs : list TValue) (rec : record) : res record :=
  match cs, vs with
  | c :: cs, v :: vs => raw ← field_bytes c v; fill_record cs vs (write_bytes rec (Z.to_nat (cm_offset c)) raw)
  | _, _ => Ok rec
  end.
Definition make_record (cs : list ColMeta) (vs : list TValue) : res record :=
  fill_record cs vs (replicate (Z.to_nat (table_len cs)) Byte.x00).

(** *** SET clauses *)

(** [SetClause]: [rhs] is a value with its raw buffer, or the operand of [rhs_col op rhs]. *)
Record SetClause := mk_SetClause {
  sc_lhs : bytes;
  sc_rhs : TValue;
  sc_raw : option bytes;
  is_rhs_expr : bool;
  sc_rhs_col : bytes;
  sc_minus : bool
}.

(** The right side of an assignment as it is parsed. *)
Inductive SetExpr := SetValue (v : TValue) | SetArith (tab col : bytes) (minus : bool) (v : TValue).

Definition is_number (type : ColType) : bool := match type with TYPE_STRING => false | _ => true end.

(** The SET clause of [Analyze::do_analyze]. *)
Definition analyze_set (tab : bytes) (m : TabMeta) (col : bytes) (e : SetExpr) : res SetClause :=
  let not_found c := ColumnNotFoundError (String.string_of_list_byte c) in
  let get_col c := require (snd <$> list_find (λ m, cm_name m = c) (tm_cols m)) (not_found c) in
  c ← get_col col;
  match e with
  | SetValue v =>
      v ← convert_number (cm_type c) v;
      raw ← init_raw (cm_len c) v;
      Ok (mk_SetClause col v (Some raw) false [] false)
  | SetArith etab ecol minus v =>
      rc ← get_col ecol;
      if negb (bool_decide (etab = [])) && negb (bool_decide (etab = tab)) then Err (not_found (etab ++ bytes_of_string "." ++ ecol))
      else if negb (is_number (cm_type c)) || negb (is_number (cm_type rc)) then Err IncompatibleTypeError
      else if negb (is_number (tv_type v)) then Err IncompatibleTypeError
      else Ok (mk_SetClause col v None true ecol minus)
  end.

(** The column that the constructor of [UpdateExecutor] finds: the last of that name. *)
Definition col_named (cs : list ColMeta) (name : bytes) : option ColMeta := last (filter (λ c, cm_name c = name) cs).

(** The operands as [int] or as [float]. *)
Definition int_field (rec : record) (c : ColMeta) : option Z :=
  match cm_type c with
  | TYPE_INT => Some (int_of (field rec (cm_offset c) 4))
  | _ => int_of_float (float_of (field rec (cm_offset c) 4))
  end.
Definition int_value (v : TValue) : option Z :=
  match tv_type v with TYPE_INT => Some (int_of (v_bits (tv_val v))) | _ => int_of_float (float_of (v_bits (tv_val v))) end.
Definition float_field (rec : record) (c : ColMeta) : spec_float :=
  match cm_type c with
  | TYPE_INT => float_of_int (int_of (field rec (cm_offset c) 4))
  | _ => float_of (field rec (cm_offset c) 4)
  end.
Definition float_value (v : TValue) : spec_float :=
  match tv_type v with TYPE_INT => float_of_int (int_of (v_bits (tv_val v))) | _ => float_of (v_bits (tv_val v)) end.

(** [int] arithmetic, undefined when it overflows. *)
Definition int_result (z : Z) : option Z := if decide (INT_MIN ≤ z ≤ INT_MAX) then Some z else None.

Definition arith_bytes (c rc : ColMeta) (old : record) (minus : bool) (v : TValue) : option (res bytes) :=
  match cm_type c with
  | TYPE_INT => Some (
      l ← require (int_field old rc) Undefined;
      r ← require (int_value v) Undefined;
      z ← require (int_result (if minus then l - r else l + r)) Undefined;
      Ok (enc_int 4 z))
  | TYPE_FLOAT =>
      let l := float_field old rc in
      let r := float_value v in
      Some (Ok (enc_int 4 (bits_of_float (if minus then SFsub 24 128 l r else SFadd 24 128 l r))))
  | TYPE_STRING => None
  end.

(** One SET clause: right sides read the old record, left sides write the new one. *)
Definition apply_set (cs : list ColMeta) (old : record) (sc : SetClause) (new : record) : res record :=
  match col_named cs (sc_lhs sc) with
  | None => Ok new
  | Some c =>
      if negb (is_rhs_expr sc) then
        raw ← require (sc_raw sc) Undefined;
        if decide (Z.of_nat (length raw) < cm_len c) then Err Undefined
        else Ok (write_bytes new (Z.to_nat (cm_offset c)) (take (Z.to_nat (cm_len c)) raw))
      else
        match col_named cs (sc_rhs_col sc) with
        | None => Ok new
        | Some rc =>
            match arith_bytes c rc old (sc_minus sc) (sc_rhs sc) with
            | None => Ok new
            | Some bs => bs ← bs; Ok (write_bytes new (Z.to_nat (cm_offset c)) bs)
            end
        end
  end.

Fixpoint apply_sets (cs : list ColMeta) (old : record) (scs : list SetClause) (new : record) : res record :=
  match scs with
  | [] => Ok new
  | sc :: scs => new ← apply_set cs old sc new; apply_sets cs old scs new
  end.
Definition updated_record (cs : list ColMeta) (scs : list SetClause) (old : record) : res record := apply_sets cs old scs old.

(** ** The executors *)

Section executors.
Context (std_hash : Z → Z) (os_fd : gmap Z string → Z) (free_slot : Recovery.Table → Rid).

(** [RmFileHandle::insert_record]. *)
Definition insert_record (rec : record) : M Recovery.Table Rid :=
  tb ← get;
  let r := free_slot tb in
  (if decide (page_no r = Recovery.t_pages tb) then Recovery.create_new_page else mret tt);;
  Recovery.insert_record_at r rec;;
  mret r.

Section statement.
Context (tab : bytes) (t : Z).

(** The log record of a change, after the one before it, and the LSN of the page. *)
Definition log_change (r : Rid) (mk : Z → Log.LogRecord) : M TransactionManager unit :=
  x ← txn_of t;
  lsn ← on_log (Log.add_log_to_buffer os_fd (mk (prev_lsn_ x)));
  put_txn t (set_prev_lsn lsn x);;
  on_table tab (Recovery.set_page_lsn r lsn).

Definition insert_log (rec : record) (r : Rid) (prev : Z) : Log.LogRecord :=
  let l := Log.InsertLogRecord t rec r tab in
  Log.mk_LogRecord (Log.lsn_ l) (Log.log_tot_len_ l) (Log.log_tid_ l) prev (Log.body l).

(** An exclusive lock for a transaction without snapshot. *)
Definition lock_row (use_2pl_locks : bool) (r : Rid) : M TransactionManager unit :=
  if use_2pl_locks then
    fd ← fd_of tab;
    on_locks (Lm.lock_exclusive_on_record std_hash t r fd);;
    mret tt
  else mret tt.

(** The transaction is not finished. *)
Definition unfinished : M TransactionManager bool :=
  on_locks (x ← Lm.txn_of t; mret (negb (bool_decide (Lm.state_ x = Lm.COMMITTED)) && negb (bool_decide (Lm.state_ x = Lm.ABORTED)))).

(** [abort_mvcc_statement]. *)
Definition abort_mvcc_statement : M TransactionManager unit :=
  x ← txn_of t;
  b ← unfinished;
  (if IsMvccTxn x && b then abort std_hash os_fd t else mret tt);;
  throw (TransactionAbortException t MVCC_CONFLICT).

(** A part of a [try] block: the exception it throws. *)
Definition attempt (m : M TransactionManager unit) : M TransactionManager (option exn) :=
  try_catch (m;; mret None) (λ e, mret (Some e)).

(** *** InsertExecutor *)

(** The [catch] of [Next]. *)
Definition insert_failed (version_writes : bool) (fd : Z) (r : Rid) (inserted : list (nat * bytes)) (e : exn) : M TransactionManager unit :=
  on_table tab (remove_entries inserted);;
  owns ← OwnsPhysicalInsert_fd fd r t;
  found ← table_is_record tab r;
  (if (owns : bool) && found then on_table tab (Recovery.delete_record r) else mret tt);;
  UnregisterPhysicalInsert_fd fd r t;;
  b ← unfinished;
  (if version_writes && b then abort std_hash os_fd t else mret tt);;
  throw e.

Definition insert_Next (m : TabMeta) (values : list TValue) : M TransactionManager unit :=
  rec ← lift (make_record (tm_cols m) values);
  x ← txn_of t;
  s ← get;
  let mvcc := IsMvccTxn x in
  let version_writes := ShouldVersionWrites x s in
  fd ← fd_of tab;
  (if negb mvcc then on_locks (Lm.lock_IX_on_table std_hash t fd);; mret tt else mret tt);;
  (if mvcc then CheckMvccInsertConflict tab rec t else mret tt);;
  r ← (if version_writes then
         MvccInsertWithPhysical tab rec t (on_table tab (insert_record rec)) (λ r, on_table tab (Recovery.delete_record r))
       else on_table tab (insert_record rec));
  RegisterPhysicalInsert fd r t;;
  append_write_record t (mk_WriteRecord INSERT_TUPLE tab fd r rec);;
  keys ← on_table tab (tb ← get; mret (index_keys rec (Recovery.t_indexes tb)));
  locked ← attempt (lock_row (negb mvcc) r);
  p ← (match locked with Some e => mret ([], Some e) | None => on_table tab (insert_entries r keys []) end);
  match p.2 with
  | Some e => insert_failed version_writes fd r p.1 e
  | None => log_change r (insert_log rec r)
  end.

(** The constructor and [Next]. *)
Definition InsertExecutor (values : list TValue) : M TransactionManager unit :=
  m ← get_table tab;
  if decide (length values ≠ length (tm_cols m)) then throw InvalidValueCountError
  else
    on_table tab (mret tt);;
    insert_Next m values.

(** *** DeleteExecutor and UpdateExecutor *)

(** The record that the transaction sees; one that is gone is not an error. *)
Definition current_record (r : Rid) : M TransactionManager (option record) :=
  try_catch
    (s ← get;
     physical ← on_table tab (Recovery.get_record r);
     if HasMvccState s then GetVisibleRecord tab r physical t else mret (Some physical))
    (λ e, match e with RecordNotFoundError _ _ => mret None | e => throw e end).

(** The end of a [catch (...)] behind one for [TransactionAbortException]. *)
Definition rethrow (mvcc : bool) (undo : M TransactionManager unit) (e : exn) : M TransactionManager unit :=
  match e with
  | TransactionAbortException _ _ => throw e
  | _ => undo;; (if mvcc then abort_mvcc_statement else mret tt);; throw e
  end.

Definition delete_row (m : TabMeta) (conds : list Condition) (r : Rid) : M TransactionManager unit :=
  x ← txn_of t;
  s ← get;
  let mvcc := IsMvccTxn x in
  let version_writes := ShouldVersionWrites x s in
  lock_row (negb mvcc) r;;
  o ← current_record r;
  match o with
  | None => mret tt
  | Some rec =>
      if negb (eval_conds rec (tm_cols m) conds) then mret tt
      else
        (if mvcc then CheckMvccWriteConflict tab r t else mret tt);;
        fd ← fd_of tab;
        let append := append_write_record t (mk_WriteRecord DELETE_TUPLE tab fd r rec) in
        (if version_writes then MvccDelete tab r rec t;; append else mret tt);;
        log_change r (λ prev, Log.DeleteLogRecord t prev rec r tab);;
        keys ← on_table tab (tb ← get; mret (index_keys rec (Recovery.t_indexes tb)));
        deleted ← on_table tab (delete_entries keys []);
        e ← attempt (if version_writes then mret tt else on_table tab (Recovery.delete_record r));
        match e with
        | None => if version_writes then mret tt else append
        | Some e => rethrow mvcc (on_table tab (restore_entries r deleted)) e
        end
  end.

Definition DeleteExecutor (conds : list Condition) (rids : list Rid) : M TransactionManager unit :=
  m ← get_table tab;
  on_table tab (mret tt);;
  mfor (delete_row m conds) rids.

(** [index_key_changed] and the keys of the indexes for which it holds. *)
Definition index_key_changed (ix : Recovery.Index) (old new : record) : bool :=
  existsb (λ c, negb (bool_decide (read_bytes old (Z.to_nat (Recovery.ic_offset c)) (Z.to_nat (Recovery.ic_len c)) =
                                   read_bytes new (Z.to_nat (Recovery.ic_offset c)) (Z.to_nat (Recovery.ic_len c))))) (Recovery.cols ix).
Definition changed_keys (old new : record) (ixs : list Recovery.Index) : list (nat * bytes * bytes) :=
  (λ p, (p.1, Recovery.make_index_key old p.2, Recovery.make_index_key new p.2)) <$>
    filter (λ p : nat * Recovery.Index, index_key_changed p.2 old new = true) (imap pair ixs).

Definition update_row (m : TabMeta) (scs : list SetClause) (conds : list Condition) (r : Rid) : M TransactionManager unit :=
  x ← txn_of t;
  s ← get;
  let mvcc := IsMvccTxn x in
  let version_writes := ShouldVersionWrites x s in
  lock_row (negb mvcc) r;;
  o ← current_record r;
  match o with
  | None => mret tt
  | Some old =>
      if negb (eval_conds old (tm_cols m) conds) then mret tt
      else
        new ← lift (updated_record (tm_cols m) scs old);
        (if mvcc then CheckMvccWriteConflict tab r t;; CheckMvccUniqueConflict tab new t (Some r) else mret tt);;
        fd ← fd_of tab;
        let append := append_write_record t (mk_WriteRecord UPDATE_TUPLE tab fd r old) in
        (if version_writes then MvccUpdate tab r old new t;; append else mret tt);;
        log_change r (λ prev, Log.UpdateLogRecord t prev old new r tab);;
        changed ← on_table tab (tb ← get; mret (changed_keys old new (Recovery.t_indexes tb)));
        let old_keys := (λ p : nat * bytes * bytes, p.1) <$> changed in
        let new_keys := (λ p : nat * bytes * bytes, (p.1.1, p.2)) <$> changed in
        on_table tab (remove_entries old_keys);;
        written ← attempt (on_table tab (Recovery.update_record r new));
        p ← (match written with Some e => mret ([], Some e) | None => on_table tab (insert_entries r new_keys []) end);
        match p.2 with
        | None => if version_writes then mret tt else append
        | Some e =>
            rethrow mvcc
              (on_table tab (remove_entries p.1);; on_table tab (Recovery.update_record r old);; on_table tab (restore_entries r old_keys)) e
        end
  end.

Definition UpdateExecutor (scs : list SetClause) (conds : list Condition) (rids : list Rid) : M TransactionManager unit :=
  m ← get_table tab;
  on_table tab (mret tt);;
  mfor (update_row m scs conds) rids.
End statement.

(** ** Statements *)

Inductive Stmt :=
  | Insert (tab : bytes) (values : list TValue)
  | Delete (tab : bytes) (conds : list Condition) (rids : list Rid)
  | Update (tab : bytes) (scs : list SetClause) (conds : list Condition) (rids : list Rid).

Definition exec_stmt (t : Z) (st : Stmt) : M TransactionManager unit :=
  match st with
  | Insert tab values => InsertExecutor tab t values
  | Delete tab conds rids => DeleteExecutor tab t conds rids
  | Update tab scs conds rids => UpdateExecutor tab t scs conds rids
  end.
End executors.
End Dml.
