(* ===== verification/DmlIndexes.v ===== *)
(** * Index maintenance of statements

    The loops over the indexes of a table in the executors of INSERT, DELETE and UPDATE, and the
    consistency of a table with its indexes: every index maps the keys of the records to the
    records, and nothing else. *)

From S2P Require Import Prelude RecordFile Recovery Mvcc Dml.

Module DmlIndexes.
Import RecFile Recovery Mvcc Dml.

Implicit Types (ixs : list Index) (ix : Index) (ks : list (nat * bytes)) (tb : Table) (rec : list byte).

(** ** Changes of single indexes *)

Definition ix_add (r : Rid) (k : bytes) ix : Index := mk_Index (cols ix) (<[k := r]> (entries ix)).
Definition ix_del (k : bytes) ix : Index := mk_Index (cols ix) (delete k (entries ix)).

(** A change of the indexes that [ks] names, each at its key. *)
Fixpoint at_keys (f : bytes → Index → Index) ks ixs : list Index :=
  match ks with [] => ixs | (i, k) :: ks => at_keys f ks (alter (f k) i ixs) end.

(** A property of the entry that each of [ks] names. *)
Definition entry_is (P : option Rid → Prop) ks ixs : Prop := ∀ i k, (i, k) ∈ ks → ∃ ix, ixs !! i = Some ix ∧ P (entries ix !! k).
Abbreviation absent := (entry_is (λ o, o = None)).
Abbreviation points_to r := (entry_is (λ o, o = Some r)).
Abbreviation valid := (entry_is (λ _, True)).

Lemma entry_weaken (P Q : option Rid → Prop) ks ixs : (∀ o, P o → Q o) → entry_is P ks ixs → entry_is Q ks ixs.
Proof. intros HPQ H i k Hin. destruct (H i k Hin) as (ix & ? & ?). eauto. Qed.

Lemma at_keys_out f ks : ∀ ixs j, j ∉ ks.*1 → at_keys f ks ixs !! j = ixs !! j.
Proof.
  induction ks as [|[i k] ks IH]; intros ixs j Hj; [done|]. cbn in Hj. apply not_elem_of_cons in Hj as [Hne Hj].
  simpl. rewrite IH by done. by apply list_lookup_alter_ne.
Qed.

Lemma at_keys_in f ks : ∀ ixs j k, NoDup ks.*1 → (j, k) ∈ ks → at_keys f ks ixs !! j = f k <$> ixs !! j.
Proof.
  induction ks as [|[i k'] ks IH]; intros ixs j k Hnd Hin; [by apply elem_of_nil in Hin|]. cbn in Hnd. apply NoDup_cons in Hnd as [Hi Hnd].
  simpl. apply elem_of_cons in Hin as [[= -> ->]|Hin].
  - rewrite at_keys_out by done. apply list_lookup_alter_eq.
  - rewrite (IH _ _ _ Hnd Hin). rewrite list_lookup_alter_ne; [done|]. intros ->. apply Hi. apply list_elem_of_fmap. by exists (j, k).
Qed.

(** [ks] with one key per index: a list of indexes is known from what it has at [ks] and elsewhere. *)
Lemma at_keys_eq ks ixs ixs' :
  (∀ j k, (j, k) ∈ ks → ixs !! j = ixs' !! j) → (∀ j, j ∉ ks.*1 → ixs !! j = ixs' !! j) → ixs = ixs'.
Proof.
  intros Hin Hout. apply list_eq. intros j. destruct (decide (j ∈ ks.*1)) as [Hj|Hj]; [|by apply Hout].
  apply list_elem_of_fmap in Hj as ([j' k] & -> & Hj). by eapply Hin.
Qed.

Lemma ix_add_del r k ix : entries ix !! k = Some r → ix_add r k (ix_del k ix) = ix.
Proof. destruct ix. unfold ix_add, ix_del. simpl. intros. by rewrite insert_delete_id. Qed.
Lemma ix_del_add r k ix : entries ix !! k = None → ix_del k (ix_add r k ix) = ix.
Proof. destruct ix. unfold ix_add, ix_del. simpl. intros. by rewrite delete_insert_id. Qed.
Lemma ix_del_absent k ix : entries ix !! k = None → ix_del k ix = ix.
Proof. destruct ix. unfold ix_del. simpl. intros. by rewrite delete_id. Qed.

Lemma at_keys_inverse f g (P : option Rid → Prop) ks ixs :
  NoDup ks.*1 → (∀ k ix, P (entries ix !! k) → g k (f k ix) = ix) → entry_is P ks ixs → at_keys g ks (at_keys f ks ixs) = ixs.
Proof.
  intros Hnd Hfg HP. apply (at_keys_eq ks).
  - intros j k Hin. destruct (HP j k Hin) as (ix & Hix & Hk). rewrite (at_keys_in g _ _ _ _ Hnd Hin), (at_keys_in f _ _ _ _ Hnd Hin), Hix. simpl. by rewrite Hfg.
  - intros j Hj. by rewrite !at_keys_out.
Qed.

Lemma entry_at_keys f (P Q : option Rid → Prop) ks ixs :
  NoDup ks.*1 → (∀ k ix, P (entries ix !! k) → Q (entries (f k ix) !! k)) → entry_is P ks ixs → entry_is Q ks (at_keys f ks ixs).
Proof.
  intros Hnd Hf HP i k Hin. destruct (HP i k Hin) as (ix & Hix & Hk). rewrite (at_keys_in f _ _ _ _ Hnd Hin), Hix. eexists. split; [done|]. by apply Hf.
Qed.

(** ** The loops *)

Lemma insert_alter (f : Index → Index) i ixs ix : ixs !! i = Some ix → <[i := f ix]> ixs = alter f i ixs.
Proof.
  intros Hi. apply list_eq. intros j. destruct (decide (j = i)) as [->|Hne].
  - rewrite list_lookup_insert_eq by by eapply lookup_lt_Some. by rewrite list_lookup_alter_eq, Hi.
  - by rewrite list_lookup_insert_ne, list_lookup_alter_ne.
Qed.

Lemma run_insert_entry i k r tb ix : t_indexes tb !! i = Some ix →
  insert_entry i k r tb = match entries ix !! k with
    | Some _ => (Ok false, tb) | None => (Ok true, with_indexes (alter (ix_add r k) i (t_indexes tb)) tb) end.
Proof.
  intros Hix. unfold insert_entry, get, mbind, M_bind. rewrite Hix. simpl. destruct (entries ix !! k); [done|].
  unfold put. simpl. by rewrite <-(insert_alter (ix_add r k) i _ ix Hix).
Qed.

Lemma run_delete_entry i k tb ix : t_indexes tb !! i = Some ix →
  ∃ b, delete_entry i k tb = (Ok b, with_indexes (alter (ix_del k) i (t_indexes tb)) tb) ∧ (b = true ↔ is_Some (entries ix !! k)).
Proof.
  intros Hix. unfold delete_entry, get, mbind, M_bind. rewrite Hix. simpl. destruct (entries ix !! k) eqn:Ek.
  - exists true. unfold put. simpl. rewrite <-(insert_alter (ix_del k) i _ ix Hix). done.
  - exists false. rewrite <-(insert_alter (ix_del k) i _ ix Hix), ix_del_absent, list_insert_id by done. split; [by destruct tb|]. split; [done|by intros []].
Qed.

(** Entries of other indexes are not affected. *)
Lemma entry_alter f (P : option Rid → Prop) i ks ixs : i ∉ ks.*1 → entry_is P ks ixs → entry_is P ks (alter f i ixs).
Proof.
  intros Hi HP j k Hin. destruct (HP j k Hin) as (ix & Hix & Hk). exists ix. split; [|done]. rewrite list_lookup_alter_ne; [done|].
  intros ->. apply Hi, list_elem_of_fmap. by exists (j, k).
Qed.
Lemma entry_cons (P : option Rid → Prop) i k ks ixs : entry_is P ((i, k) :: ks) ixs ↔ (∃ ix, ixs !! i = Some ix ∧ P (entries ix !! k)) ∧ entry_is P ks ixs.
Proof.
  split; [intros H; split; [by apply H; left|intros j k' Hin; apply H; by right]|]. intros [H1 H2] j k' Hin. apply elem_of_cons in Hin as [[= -> ->]|Hin]; [done|by apply H2].
Qed.
Lemma entry_app (P : option Rid → Prop) ks ks' ixs : entry_is P (ks ++ ks') ixs ↔ entry_is P ks ixs ∧ entry_is P ks' ixs.
Proof.
  split; [intros H; split; intros j k Hin; apply H, elem_of_app; auto|]. intros [H1 H2] j k [Hin|Hin]%elem_of_app; [by apply H1|by apply H2].
Qed.

(** Insertion stops in front of the first key that is there. *)
Lemma index_insert_loop r todo : ∀ done tb, NoDup todo.*1 → valid todo (t_indexes tb) →
  ∃ ins e, insert_entries r todo done tb = (Ok (done ++ ins, e), with_indexes (at_keys (ix_add r) ins (t_indexes tb)) tb) ∧ absent ins (t_indexes tb) ∧
    (e = None ∧ ins = todo ∨ e = Some RMDBError ∧ ∃ i k rest, todo = ins ++ (i, k) :: rest ∧ ¬ absent [(i, k)] (t_indexes tb)).
Proof.
  induction todo as [|[i k] todo IH]; intros done tb Hnd Hv.
  - exists [], None. rewrite app_nil_r. split_and!; [by destruct tb|by intros ? ? ?%elem_of_nil|by left].
  - apply NoDup_cons in Hnd as [Hi Hnd]. apply entry_cons in Hv as [(ix & Hix & _) Hv]. simpl. unfold mbind, M_bind. rewrite (run_insert_entry _ _ _ _ _ Hix).
    destruct (entries ix !! k) eqn:Ek.
    + exists [], (Some RMDBError). rewrite app_nil_r. split_and!; [by destruct tb|by intros ? ? ?%elem_of_nil|]. right. split; [done|]. exists i, k, todo. split; [done|].
      intros [(ix' & Hix' & ?) _]%entry_cons. congruence.
    + destruct (IH (done ++ [(i, k)]) (with_indexes (alter (ix_add r k) i (t_indexes tb)) tb) Hnd) as (ins & e & Hrun & Ha & He); [by apply entry_alter|].
      exists ((i, k) :: ins), e. split_and!.
      * rewrite Hrun. rewrite <-app_assoc. done.
      * apply entry_cons. split; [by exists ix|]. simpl in Ha. destruct He as [[-> ->]|(-> & i' & k' & rest & -> & _)].
        -- intros j k' Hin. destruct (Ha j k' Hin) as (ix' & Hix' & Hk'). exists ix'. split; [|done]. rewrite list_lookup_alter_ne in Hix'; [done|].
           intros ->. apply Hi, list_elem_of_fmap. by exists (j, k').
        -- intros j k'' Hin. destruct (Ha j k'' Hin) as (ix' & Hix' & Hk'). exists ix'. split; [|done]. rewrite list_lookup_alter_ne in Hix'; [done|].
           intros ->. apply Hi, list_elem_of_fmap. exists (j, k''). split; [done|]. apply elem_of_app. by left.
      * destruct He as [[-> ->]|(-> & i' & k' & rest & Htodo & Hn)]; [by left|]. right. split; [done|]. exists i', k', rest. rewrite Htodo. split; [done|].
        intros H. apply Hn. apply entry_alter; [|done]. cbn. intros [->|[]%elem_of_nil]%elem_of_cons. apply Hi. change (i' ∈ todo.*1). rewrite Htodo, fmap_app. apply elem_of_app. right. by left.
Qed.

Lemma remove_entries_ok ks : ∀ tb, NoDup ks.*1 → valid ks (t_indexes tb) → remove_entries ks tb = (Ok tt, with_indexes (at_keys ix_del ks (t_indexes tb)) tb).
Proof.
  induction ks as [|[i k] ks IH]; intros tb Hnd Hv; [by destruct tb|]. apply NoDup_cons in Hnd as [Hi Hnd]. apply entry_cons in Hv as [(ix & Hix & _) Hv].
  destruct (run_delete_entry i k tb ix Hix) as (b & Hrun & _). unfold remove_entries. simpl.
  rewrite (bind_ok (delete_entry i k;; mret tt) _ tb tt (with_indexes (alter (ix_del k) i (t_indexes tb)) tb)) by by rewrite (bind_ok _ _ _ _ _ Hrun).
  etransitivity; [apply (IH (with_indexes (alter (ix_del k) i (t_indexes tb)) tb)); [done|by apply entry_alter]|done].
Qed.

Lemma delete_entries_ok todo : ∀ done tb, NoDup todo.*1 → valid todo (t_indexes tb) →
  ∃ del, delete_entries todo done tb = (Ok del, with_indexes (at_keys ix_del todo (t_indexes tb)) tb) ∧
    (∀ r, points_to r todo (t_indexes tb) → del = done ++ todo).
Proof.
  induction todo as [|[i k] todo IH]; intros done tb Hnd Hv; [exists done; rewrite app_nil_r; by destruct tb|].
  apply NoDup_cons in Hnd as [Hi Hnd]. apply entry_cons in Hv as [(ix & Hix & _) Hv]. destruct (run_delete_entry i k tb ix Hix) as (b & Hrun & Hb).
  simpl. unfold mbind, M_bind. rewrite Hrun. destruct (IH (if b then done ++ [(i, k)] else done) (with_indexes (alter (ix_del k) i (t_indexes tb)) tb) Hnd) as (del & Hd & Hp); [by apply entry_alter|].
  exists del. split; [done|]. intros r [(ix' & Hix' & Hk) Hr]%entry_cons. rewrite (Hp r) by by apply entry_alter. assert (b = true) as ->; [|by rewrite <-app_assoc].
  apply Hb. rewrite Hix in Hix'. injection Hix' as <-. by rewrite Hk.
Qed.

Lemma restore_entries_ok r ks : ∀ tb, NoDup ks.*1 → absent ks (t_indexes tb) → restore_entries r ks tb = (Ok tt, with_indexes (at_keys (ix_add r) ks (t_indexes tb)) tb).
Proof.
  induction ks as [|[i k] ks IH]; intros tb Hnd Ha; [by destruct tb|]. apply NoDup_cons in Hnd as [Hi Hnd]. apply entry_cons in Ha as [(ix & Hix & Hk) Ha].
  unfold restore_entries. simpl. pose proof (run_insert_entry i k r _ _ Hix) as Hrun. rewrite Hk in Hrun.
  rewrite (bind_ok (insert_entry i k r;; mret tt) _ tb tt (with_indexes (alter (ix_add r k) i (t_indexes tb)) tb)) by by rewrite (bind_ok _ _ _ _ _ Hrun).
  etransitivity; [apply (IH (with_indexes (alter (ix_add r k) i (t_indexes tb)) tb)); [done|by apply entry_alter]|done].
Qed.

(** ** All indexes of a table *)

Abbreviation key := make_index_key.

Definition all_add rec (r : Rid) ixs : list Index := (λ ix, ix_add r (key rec ix) ix) <$> ixs.
Definition all_del rec ixs : list Index := (λ ix, ix_del (key rec ix) ix) <$> ixs.

Lemma index_keys_elem rec ixs i k : (i, k) ∈ index_keys rec ixs ↔ ∃ ix, ixs !! i = Some ix ∧ k = key rec ix.
Proof.
  unfold index_keys. rewrite elem_of_lookup_imap. split.
  - intros (j & ix & [= -> ->] & Hix). eauto.
  - intros (ix & Hix & ->). eauto.
Qed.

Lemma imap_fst {A B} (f : nat → A → B) (l : list A) : (imap (λ i x, (i, f i x)) l).*1 = seq 0 (length l).
Proof.
  rewrite fmap_imap. apply list_eq. intros i. rewrite list_lookup_imap. destruct (decide (i < length l)%nat) as [Hi|Hi].
  - destruct (lookup_lt_is_Some_2 l i Hi) as [x Hx]. rewrite Hx. symmetry. by apply lookup_seq_lt.
  - rewrite (lookup_ge_None_2 l) by lia. symmetry. apply lookup_seq_ge. lia.
Qed.

Lemma index_keys_nodup rec ixs : NoDup (index_keys rec ixs).*1.
Proof. unfold index_keys. rewrite imap_fst. apply NoDup_seq. Qed.

Lemma index_keys_is (P : option Rid → Prop) rec ixs : (∀ ix, ix ∈ ixs → P (entries ix !! key rec ix)) ↔ entry_is P (index_keys rec ixs) ixs.
Proof.
  split.
  - intros H i k (ix & Hix & ->)%index_keys_elem. exists ix. split; [done|]. apply H. by eapply list_elem_of_lookup_2.
  - intros H ix (i & Hi)%list_elem_of_lookup_1. destruct (H i (key rec ix)) as (ix' & Hix' & ?); [apply index_keys_elem; eauto|]. congruence.
Qed.

Lemma at_index_keys f rec ixs : at_keys f (index_keys rec ixs) ixs = (λ ix, f (key rec ix) ix) <$> ixs.
Proof.
  apply (at_keys_eq (index_keys rec ixs)).
  - intros j k Hin. rewrite (at_keys_in _ _ _ _ _ (index_keys_nodup _ _) Hin). apply index_keys_elem in Hin as (ix & Hix & ->). by rewrite list_lookup_fmap, Hix.
  - intros j Hj. rewrite at_keys_out, list_lookup_fmap by done. destruct (ixs !! j) as [ix|] eqn:Hix; [|done]. exfalso. apply Hj, list_elem_of_fmap.
    exists (j, key rec ix). split; [done|]. apply index_keys_elem. eauto.
Qed.

(** *** The keys that an update changes *)

Abbreviation old_keys old new ixs := ((λ p : nat * bytes * bytes, p.1) <$> changed_keys old new ixs).
Abbreviation new_keys old new ixs := ((λ p : nat * bytes * bytes, (p.1.1, p.2)) <$> changed_keys old new ixs).

Lemma changed_keys_elem old new ixs p :
  p ∈ changed_keys old new ixs ↔ ∃ i ix, ixs !! i = Some ix ∧ index_key_changed ix old new = true ∧ p = (i, key old ix, key new ix).
Proof.
  unfold changed_keys. rewrite list_elem_of_fmap. split.
  - intros ([i ix] & -> & [Hc Hin]%list_elem_of_filter). apply elem_of_lookup_imap in Hin as (j & x & [= -> ->] & Hx). eauto.
  - intros (i & ix & Hix & Hc & ->). exists (i, ix). split; [done|]. apply list_elem_of_filter. split; [done|]. apply elem_of_lookup_imap. eauto.
Qed.

Lemma changed_keys_nodup old new ixs : NoDup (changed_keys old new ixs).*1.*1.
Proof.
  unfold changed_keys. rewrite <-!list_fmap_compose. eapply (sublist_NoDup _ (imap (λ i (x : Index), (i, x)) ixs).*1).
  - rewrite imap_fst. apply NoDup_seq.
  - apply (fmap_sublist fst). apply sublist_filter.
Qed.

Lemma old_keys_nodup old new ixs : NoDup (old_keys old new ixs).*1.
Proof. apply changed_keys_nodup. Qed.
Lemma new_keys_nodup old new ixs : NoDup (new_keys old new ixs).*1.
Proof. rewrite <-list_fmap_compose. pose proof (changed_keys_nodup old new ixs) as H. by rewrite <-list_fmap_compose in H. Qed.

Lemma key_unchanged ix old new : index_key_changed ix old new = false → key old ix = key new ix.
Proof.
  unfold index_key_changed, make_index_key. intros H. f_equal. apply list_fmap_ext. intros i c Hc.
  apply not_true_iff_false in H. destruct (decide (read_bytes old (Z.to_nat (ic_offset c)) (Z.to_nat (ic_len c)) = read_bytes new (Z.to_nat (ic_offset c)) (Z.to_nat (ic_len c)))) as [E|E]; [done|].
  destruct H. apply existsb_exists. exists c. split; [by eapply list_elem_of_In, list_elem_of_lookup_2|]. by rewrite bool_decide_eq_false_2.
Qed.

(** The indexes after an update, and what it needs. *)
Definition all_upd old new (r : Rid) ixs : list Index := (λ ix, ix_add r (key new ix) (ix_del (key old ix) ix)) <$> ixs.

Definition keys_point rec (r : Rid) ixs : Prop := ∀ ix, ix ∈ ixs → entries ix !! key rec ix = Some r.
Definition keys_free rec ixs : Prop := ∀ ix, ix ∈ ixs → entries ix !! key rec ix = None.

Lemma old_keys_point old new r ixs : keys_point old r ixs → points_to r (old_keys old new ixs) ixs.
Proof.
  intros H i k ([[i' k'] k''] & [= -> ->] & (j & ix & Hix & Hc & [= -> -> ->])%changed_keys_elem)%list_elem_of_fmap. exists ix. split; [done|].
  apply H. by eapply list_elem_of_lookup_2.
Qed.

Lemma new_keys_valid old new ixs : valid (new_keys old new ixs) (at_keys ix_del (old_keys old new ixs) ixs).
Proof.
  intros i k ([[i' k'] k''] & [= -> ->] & Hp)%list_elem_of_fmap. pose proof Hp as (j & ix & Hix & Hc & [= -> -> ->])%changed_keys_elem. simpl.
  rewrite (at_keys_in _ _ _ _ (key old ix)), Hix; [eauto|apply old_keys_nodup|]. apply list_elem_of_fmap. by exists (j, key old ix, key new ix).
Qed.

(** An index that the update leaves alone has the same key for both records. *)
Lemma unchanged_index old new ixs j ix : ixs !! j = Some ix → j ∉ (old_keys old new ixs).*1 → key old ix = key new ix.
Proof.
  intros Hix Hj. apply key_unchanged. apply not_true_iff_false. intros Hc. apply Hj. rewrite <-list_fmap_compose. apply list_elem_of_fmap.
  exists (j, key old ix, key new ix). split; [done|]. apply changed_keys_elem. eauto.
Qed.

Lemma new_old_fst old new ixs : (new_keys old new ixs).*1 = (old_keys old new ixs).*1.
Proof. by rewrite <-!list_fmap_compose. Qed.

Lemma update_keys old new r ixs : keys_point old r ixs → absent (new_keys old new ixs) (at_keys ix_del (old_keys old new ixs) ixs) →
  at_keys (ix_add r) (new_keys old new ixs) (at_keys ix_del (old_keys old new ixs) ixs) = all_upd old new r ixs ∧ keys_free new (all_del old ixs).
Proof.
  intros Hp Ha. assert (∀ j ix, ixs !! j = Some ix → j ∉ (old_keys old new ixs).*1 ∨
      (j, key old ix) ∈ old_keys old new ixs ∧ (j, key new ix) ∈ new_keys old new ixs) as Hsplit.
  { intros j ix Hix. destruct (decide (j ∈ (old_keys old new ixs).*1)) as [Hj|Hj]; [right|by left]. rewrite <-list_fmap_compose in Hj.
    apply list_elem_of_fmap in Hj as (p & -> & Hp1). pose proof Hp1 as (j' & ix' & Hix' & _ & ->)%changed_keys_elem. simpl in Hix. rewrite Hix in Hix'. injection Hix' as <-.
    split; apply list_elem_of_fmap; by exists (j', key old ix, key new ix). }
  split.
  - apply list_eq. intros j. unfold all_upd. rewrite list_lookup_fmap. destruct (ixs !! j) as [ix|] eqn:Hix.
    + destruct (Hsplit j ix Hix) as [Hj|[Ho Hn]].
      * rewrite at_keys_out by by rewrite new_old_fst. rewrite at_keys_out, Hix by done. simpl. f_equal.
        rewrite <-(unchanged_index _ _ _ _ _ Hix Hj). symmetry. apply ix_add_del. apply Hp. by eapply list_elem_of_lookup_2.
      * by rewrite (at_keys_in _ _ _ _ _ (new_keys_nodup _ _ _) Hn), (at_keys_in _ _ _ _ _ (old_keys_nodup _ _ _) Ho), Hix.
    + simpl. destruct (decide (j ∈ (old_keys old new ixs).*1)) as [Hj|Hj].
      * rewrite <-list_fmap_compose in Hj. apply list_elem_of_fmap in Hj as (p & -> & (j' & ix' & Hix' & _ & ->)%changed_keys_elem). simpl in Hix. congruence.
      * rewrite at_keys_out by by rewrite new_old_fst. by rewrite at_keys_out.
  - intros ix' (ix & -> & [j Hix]%list_elem_of_lookup_1)%list_elem_of_fmap. destruct (Hsplit j ix Hix) as [Hj|[Ho Hn]].
    + simpl. change (key new (ix_del (key old ix) ix)) with (key new ix). rewrite <-(unchanged_index _ _ _ _ _ Hix Hj). apply lookup_delete_eq.
    + destruct (Ha _ _ Hn) as (ix' & Hix' & Hk). rewrite (at_keys_in _ _ _ _ _ (old_keys_nodup _ _ _) Ho), Hix in Hix'. by injection Hix' as <-.
Qed.

(** The new keys are free if no key is left in their way. *)
Lemma new_keys_free old new ixs i k : keys_free new (all_del old ixs) → (i, k) ∈ new_keys old new ixs → absent [(i, k)] (at_keys ix_del (old_keys old new ixs) ixs).
Proof.
  intros Hf ([[i' k'] k''] & [= -> ->] & Hp)%list_elem_of_fmap. pose proof Hp as (j & ix & Hix & _ & [= -> -> ->])%changed_keys_elem. apply entry_cons. split; [|by intros ? ? ?%elem_of_nil].
  simpl. rewrite (at_keys_in _ _ _ _ (key old ix)), Hix; [|apply old_keys_nodup|].
  - eexists. split; [done|]. apply (Hf (ix_del (key old ix) ix)). apply list_elem_of_fmap. exists ix. split; [done|]. by eapply list_elem_of_lookup_2.
  - apply list_elem_of_fmap. by exists (j, key old ix, key new ix).
Qed.

(** *** What rolling back does *)

Definition all_ins rec (r : Rid) ixs : list Index :=
  (λ ix, match entries ix !! key rec ix with Some _ => ix | None => ix_add r (key rec ix) ix end) <$> ixs.

Lemma fmap_inverse (f g : Index → Index) ixs : (∀ ix, ix ∈ ixs → g (f ix) = ix) → g <$> (f <$> ixs) = ixs.
Proof. intros H. rewrite <-list_fmap_compose. transitivity (id <$> ixs); [|apply list_fmap_id]. apply list_fmap_ext. intros i ix Hi. apply H. by eapply list_elem_of_lookup_2. Qed.

Lemma undo_add rec r ixs : keys_free rec ixs → all_del rec (all_add rec r ixs) = ixs.
Proof. intros H. apply fmap_inverse. intros ix Hix. apply ix_del_add. by apply H. Qed.
Lemma undo_del rec r ixs : keys_point rec r ixs → all_ins rec r (all_del rec ixs) = ixs.
Proof.
  intros H. apply fmap_inverse. intros ix Hix. change (key rec (ix_del (key rec ix) ix)) with (key rec ix). simpl. rewrite lookup_delete_eq. by apply ix_add_del, H.
Qed.
Lemma all_upd_alt old new r ixs : all_upd old new r ixs = all_add new r (all_del old ixs).
Proof. unfold all_upd, all_add, all_del. by rewrite <-list_fmap_compose. Qed.
Lemma undo_upd old new r ixs : keys_point old r ixs → keys_free new (all_del old ixs) → all_ins old r (all_del new (all_upd old new r ixs)) = ixs.
Proof. intros H1 H2. rewrite all_upd_alt, undo_add by done. by apply undo_del. Qed.

(** ** Consistency *)

(** The index maps the keys of the records to the records. *)
Definition keyed (recs : gmap Rid (list byte)) ix : Prop := ∀ k r, entries ix !! k = Some r ↔ ∃ rec, recs !! r = Some rec ∧ key rec ix = k.

Lemma keyed_del recs ix r rec : keyed recs ix → recs !! r = Some rec → keyed (delete r recs) (ix_del (key rec ix) ix).
Proof.
  intros H Hr k r'. change (∃ rec0, delete r recs !! r' = Some rec0 ∧ key rec0 (ix_del (key rec ix) ix) = k) with (∃ rec0, delete r recs !! r' = Some rec0 ∧ key rec0 ix = k). simpl.
  rewrite lookup_delete_Some. assert (entries ix !! key rec ix = Some r) as Hk by (apply H; eauto). split.
  - intros (Hne & (rec0 & Hr0 & E)%H). exists rec0. split; [|done]. rewrite lookup_delete_ne; [done|]. intros <-. congruence.
  - intros (rec0 & [Hne Hr0]%lookup_delete_Some & E). split; [|apply H; eauto]. intros <-. assert (entries ix !! key rec ix = Some r') by (apply H; eauto). congruence.
Qed.

Lemma keyed_add recs ix r rec : keyed recs ix → recs !! r = None → entries ix !! key rec ix = None → keyed (<[r := rec]> recs) (ix_add r (key rec ix) ix).
Proof.
  intros H Hr Hn k r'. change (∃ rec0, <[r := rec]> recs !! r' = Some rec0 ∧ key rec0 (ix_add r (key rec ix) ix) = k) with (∃ rec0, <[r := rec]> recs !! r' = Some rec0 ∧ key rec0 ix = k). simpl.
  rewrite lookup_insert_Some. split.
  - intros [[<- <-]|[Hne (rec0 & Hr0 & E)%H]]; [exists rec; by rewrite lookup_insert_eq|]. exists rec0. rewrite lookup_insert_ne; [done|]. intros <-. congruence.
  - intros (rec0 & [[<- <-]|[Hne Hr0]]%lookup_insert_Some & E); [by left|]. right. assert (entries ix !! k = Some r') as Hk by (apply H; eauto). split; [|done]. intros <-. congruence.
Qed.

Lemma keyed_point recs r rec ixs : Forall (keyed recs) ixs → recs !! r = Some rec → keys_point rec r ixs.
Proof. intros H Hr ix Hix. rewrite Forall_forall in H. apply (H ix Hix). eauto. Qed.

(** A table with its indexes. *)
Record tidy tb : Prop := mk_tidy {
  td_keyed : Forall (keyed (t_records tb)) (t_indexes tb);
  td_place r v : t_records tb !! r = Some v → page_ok (page_no r) tb = true ∧ slot_ok (slot_no r) tb = true;
  td_pages : RM_FIRST_RECORD_PAGE ≤ t_pages tb;
  td_slots : 0 < t_slots tb
}.

Lemma all_keyed_del recs ixs r rec : Forall (keyed recs) ixs → recs !! r = Some rec → Forall (keyed (delete r recs)) (all_del rec ixs).
Proof. intros H Hr. apply Forall_fmap. eapply Forall_impl; [done|]. intros ix Hix. by apply keyed_del. Qed.
Lemma all_keyed_add recs ixs r rec : Forall (keyed recs) ixs → recs !! r = None → keys_free rec ixs → Forall (keyed (<[r := rec]> recs)) (all_add rec r ixs).
Proof.
  intros H Hr Hf. apply Forall_fmap. rewrite Forall_forall in H |- *. intros ix Hix. apply keyed_add; [by apply H|done|by apply Hf].
Qed.
Lemma all_keyed_upd recs ixs r old new : Forall (keyed recs) ixs → recs !! r = Some old → keys_free new (all_del old ixs) →
  Forall (keyed (<[r := new]> recs)) (all_upd old new r ixs).
Proof.
  intros H Hr Hf. rewrite all_upd_alt, <-insert_delete_eq. apply all_keyed_add; [by apply all_keyed_del|apply lookup_delete_eq|done].
Qed.
End DmlIndexes.
