(* ===== verification/DmlFacts.v ===== *)
(** * Statements and their rollback

    The changes of a transaction without snapshot, while no versions exist, are taken back by
    [abort] one by one.  [undo_write] is what taking one write back means for the data of the
    tables; the invariant [undoable] says that taking back the write set, last write first,
    leads to the data the transaction started from.  Every statement keeps it, also one that
    throws, provided that it inserts into slots that have no owner. *)

From S2P Require Import Prelude Disk RecordFile Log Recovery Conditions LockManager Mvcc Executor Aggregate Scans Dml DmlIndexes.

Module DmlFacts.
Import RecFile Cond Mvcc Exec Agg Scans Dml DmlIndexes.

Create HintDb quiet discriminated.

Implicit Types (s : TransactionManager) (tab : bytes) (r : Rid) (t : Z) (tb : Recovery.Table) (w : WriteRecord).

(** ** The data of the tables *)

Abbreviation Data := (gmap Rid record * list Recovery.Index)%type.

Abbreviation with_data recs ixs tb := (Recovery.with_records recs (Recovery.with_indexes ixs tb)).

Definition data tb : Data := (Recovery.t_records tb, Recovery.t_indexes tb).
Definition data_of s : gmap bytes Data := data <$> fhs_ (sys s).
Definition owners_of s : gmap (Z * Rid) Z := physical_insert_owners_ s.

(** The write set of a transaction, and what statements do not change. *)
Definition writes_of t s : option (list WriteRecord) := write_set_ <$> txns s !! t.
Definition rest t s := (versions s, active_mvcc_txn_count_ s, fds_ (sys s), tabs_ (sys s), (λ x, (mvcc_enabled_ x, mvcc_write_keys_ x)) <$> txns s !! t).
Definition known t s : Prop := is_Some (Lm.txns (locks (sys s)) !! t).

(** Tables keep their pages and slots. *)
Definition grows s s' : Prop := ∀ tab tb, fhs_ (sys s) !! tab = Some tb →
  ∃ tb', fhs_ (sys s') !! tab = Some tb' ∧ Recovery.t_pages tb ≤ Recovery.t_pages tb' ∧ Recovery.t_slots tb' = Recovery.t_slots tb.

Lemma grows_refl s : grows s s.
Proof. intros tab tb H. exists tb. done. Qed.
Lemma grows_trans s1 s2 s3 : grows s1 s2 → grows s2 s3 → grows s1 s3.
Proof.
  intros H1 H2 tab tb Htb. destruct (H1 tab tb Htb) as (tb2 & Htb2 & Hp2 & Hs2). destruct (H2 tab tb2 Htb2) as (tb3 & Htb3 & Hp3 & Hs3).
  exists tb3. split; [done|]. split; [lia|congruence].
Qed.

(** A step that changes neither the data nor the write set. *)
Record quiet t s s' : Prop := mk_quiet {
  qt_data : data_of s' = data_of s;
  qt_owners : owners_of s' = owners_of s;
  qt_writes : writes_of t s' = writes_of t s;
  qt_rest : rest t s' = rest t s;
  qt_known : known t s → known t s';
  qt_grows : grows s s'
}.

Lemma quiet_refl t s : quiet t s s.
Proof. split; try done. apply grows_refl. Qed.
Lemma quiet_trans t s1 s2 s3 : quiet t s1 s2 → quiet t s2 s3 → quiet t s1 s3.
Proof. intros [] []. split; try congruence; [auto|by eapply grows_trans]. Qed.

(** *** Computations that are quiet *)

Definition quietly t {A} (m : M TransactionManager A) : Prop := ∀ s, quiet t s (m s).2.

Lemma quietly_ret t {A} (a : A) : quietly t (mret a).
Proof. intros s. apply quiet_refl. Qed.
Lemma quietly_throw t {A} e : quietly t (throw (A:=A) e).
Proof. intros s. apply quiet_refl. Qed.
Lemma quietly_get t : quietly t get.
Proof. intros s. apply quiet_refl. Qed.
Lemma quietly_bind t {A B} (m : M TransactionManager A) (k : A → M TransactionManager B) : quietly t m → (∀ a, quietly t (k a)) → quietly t (mbind k m).
Proof.
  intros Hm Hk s. specialize (Hm s). unfold mbind, M_bind. destruct (m s) as [[a|e] s1]; simpl in *; [|done]. eapply quiet_trans; [done|apply Hk].
Qed.
Lemma quietly_try t {A} (m : M TransactionManager A) h : quietly t m → (∀ e, quietly t (h e)) → quietly t (try_catch m h).
Proof.
  intros Hm Hh s. specialize (Hm s). unfold try_catch. destruct (m s) as [[a|e] s1]; simpl in *; [done|]. eapply quiet_trans; [done|apply Hh].
Qed.
Lemma quietly_lift t {A} (x : res A) : quietly t (lift x).
Proof. intros s. apply quiet_refl. Qed.
Lemma quietly_fd t tab : quietly t (fd_of tab).
Proof. intros s. unfold fd_of. destruct (fds_ (sys s) !! tab); apply quiet_refl. Qed.
Lemma quietly_txn t t' : quietly t (txn_of t').
Proof. intros s. unfold txn_of. destruct (txns s !! t'); apply quiet_refl. Qed.
Lemma quietly_meta t tab : quietly t (get_table tab).
Proof. intros s. unfold get_table. destruct (tabs_ (sys s) !! tab); apply quiet_refl. Qed.
Lemma quietly_log t {A} (m : M Log.LogManager A) : quietly t (on_log m).
Proof. intros s. unfold on_log. destruct (m (log (sys s))) as [x l]. split; try done. intros tab tb H. exists tb. done. Qed.
Lemma quietly_locks t {A} (m : M Lm.LockManager A) : preserves (λ l, is_Some (Lm.txns l !! t)) m → quietly t (on_locks m).
Proof.
  intros Hm s. unfold on_locks. specialize (Hm (locks (sys s))). destruct (m (locks (sys s))) as [x l]. split; try done. intros tab tb H. exists tb. done.
Qed.

Lemma lock_known std_hash t t' lid mode : preserves (λ l, is_Some (Lm.txns l !! t)) (Lm.lock std_hash t' lid mode).
Proof.
  intros l Hl. unfold Lm.lock, Lm.remember_lock, Lm.txn_of, deref, get, modify, mbind, M_bind. destruct (Lm.txns l !! t') as [x|] eqn:Ex; [|done]. simpl.
  assert (∀ q, Lm.txns (Lm.put_queue std_hash lid q l) = Lm.txns l) as Hq by done.
  assert (∀ l' y, Lm.txns l' = Lm.txns l → is_Some (Lm.txns (Lm.put_txn t' y l') !! t)) as Hp.
  { intros l' y E. simpl. rewrite E. destruct (decide (t = t')) as [->|Hne]; [by rewrite lookup_insert_eq|by rewrite lookup_insert_ne]. }
  case_decide; [done|]. case_decide; [rewrite ?Hq, Ex; by apply Hp|].
  destruct (list_find _ _) as [[i q]|].
  - destruct (Lm.covers _ _); [done|]. by destruct (existsb _ _).
  - destruct (existsb _ _); [done|]. simpl. rewrite ?Hq, Ex. by apply Hp.
Qed.

Lemma unlock_known std_hash t t' lid : preserves (λ l, is_Some (Lm.txns l !! t)) (Lm.unlock std_hash t' lid).
Proof.
  assert (∀ l q, is_Some (Lm.txns l !! t) → is_Some (Lm.txns (Lm.put_queue std_hash lid q l) !! t)) as Hq by done.
  assert (preserves (λ l, is_Some (Lm.txns l !! t)) (Lm.release t' lid)) as Hr.
  { intros l Hl. unfold Lm.release, Lm.txn_of, deref, modify, mbind, M_bind. destruct (Lm.txns l !! t') as [x|]; [|done]. simpl.
    destruct (decide (t = t')) as [->|Hne]; [by rewrite lookup_insert_eq|by rewrite lookup_insert_ne]. }
  intros l Hl. unfold Lm.unlock, get. unfold mbind at 1, M_bind at 1. destruct (Lm.queue_of std_hash lid l) as [q|]; [|done].
  assert (∀ q', preserves (λ l, is_Some (Lm.txns l !! t)) (modify (Lm.put_queue std_hash lid q'))) as Hm by (intros ? ? ?; by apply Hq).
  assert (∀ (b : bool) q', preserves (λ l, is_Some (Lm.txns l !! t)) ((if b then modify (Lm.put_queue std_hash lid q') else mret tt);; mret true)) as Hi.
  { intros b q'. apply preserves_bind; [destruct b; [apply Hm|apply preserves_ret]|intros; apply preserves_ret]. }
  destruct (Lm.request_queue_ q) as [|r [|r2 rs]]; [| |].
  2:{ case_decide; (eapply preserves_bind; [apply Hr| |done]); intros ?; [apply preserves_bind; [apply Hm|]; intros ?|]; apply preserves_ret. }
  all: apply (preserves_bind _ _ _ (Hm _)); [intros ?; apply (preserves_bind _ _ _ Hr); intros ?|done]; apply preserves_bind; try (intros ?; apply preserves_ret); case_decide; [apply Hm|apply preserves_ret].
Qed.

Lemma txn_of_known t t' : preserves (λ l, is_Some (Lm.txns l !! t)) (Lm.txn_of t').
Proof. intros l Hl. unfold Lm.txn_of. by destruct (Lm.txns l !! t'). Qed.

(** ** Changes of tables *)

Definition upd_table tab tb s : TransactionManager :=
  set_sys (mk_System (<[tab := tb]> (fhs_ (sys s))) (fds_ (sys s)) (tabs_ (sys s)) (locks (sys s)) (log (sys s))) s.

Lemma on_table_run {A} tab (m : M Recovery.Table A) s tb x tb' :
  fhs_ (sys s) !! tab = Some tb → m tb = (x, tb') → on_table tab m s = (x, upd_table tab tb' s).
Proof. intros Htb Hm. unfold on_table, Recovery.at_table. by rewrite Htb, Hm. Qed.

Lemma on_table_none {A} tab (m : M Recovery.Table A) s : fhs_ (sys s) !! tab = None → on_table tab m s = (Err InternalError, s).
Proof. intros Htb. unfold on_table, Recovery.at_table. rewrite Htb. by destruct s as [? ? ? ? ? ? ? ? ? []]. Qed.

Lemma data_upd tab tb s : data_of (upd_table tab tb s) = <[tab := data tb]> (data_of s).
Proof. apply fmap_insert. Qed.

(** The table of the new state grows. *)
Definition same_size tb tb' : Prop := Recovery.t_pages tb ≤ Recovery.t_pages tb' ∧ Recovery.t_slots tb' = Recovery.t_slots tb.

Lemma grows_upd tab tb tb' s : fhs_ (sys s) !! tab = Some tb → same_size tb tb' → grows s (upd_table tab tb' s).
Proof.
  intros Htb [Hp Hs] tab0 tb0 Htb0. simpl. destruct (decide (tab = tab0)) as [->|Hne].
  - rewrite lookup_insert_eq. exists tb'. rewrite Htb in Htb0. by injection Htb0 as <-.
  - rewrite lookup_insert_ne by done. by exists tb0.
Qed.

(** An operation on a table that leaves its data. *)
Lemma quietly_table t tab {A} (m : M Recovery.Table A) : (∀ tb, data (m tb).2 = data tb ∧ same_size tb (m tb).2) → quietly t (on_table tab m).
Proof.
  intros Hm s. destruct (fhs_ (sys s) !! tab) as [tb|] eqn:Htb; [|rewrite on_table_none by done; apply quiet_refl].
  destruct (m tb) as [x tb'] eqn:Em. rewrite (on_table_run _ _ _ _ _ _ Htb Em). destruct (Hm tb) as [Hd Hs]. rewrite Em in Hd, Hs. simpl in *.
  split; try done; [|by eapply grows_upd]. rewrite data_upd, Hd. apply insert_id. unfold data_of. by rewrite lookup_fmap, Htb.
Qed.

Lemma quietly_table_get t tab {A} (f : Recovery.Table → A) : quietly t (on_table tab (tb ← get; mret (f tb))).
Proof. apply quietly_table. done. Qed.
Lemma quietly_touch t tab : quietly t (on_table tab (mret tt)).
Proof. apply quietly_table. done. Qed.
Lemma quietly_get_record t tab r : quietly t (on_table tab (Recovery.get_record r)).
Proof. apply quietly_table. intros tb. unfold Recovery.get_record, get, mbind, M_bind. by destruct (Recovery.t_records tb !! r). Qed.
Lemma quietly_set_lsn t tab r lsn : quietly t (on_table tab (Recovery.set_page_lsn r lsn)).
Proof.
  apply quietly_table. intros tb. unfold Recovery.set_page_lsn. case_decide; [done|]. unfold get, mbind, M_bind. by destruct (Recovery.page_ok _ _).
Qed.

Lemma quietly_prev_lsn t lsn s : ∀ x, txns s !! t = Some x → quiet t s (put_txn t (set_prev_lsn lsn x) s).2.
Proof.
  intros x Hx. split; try done; [unfold writes_of|unfold rest|intros tab tb Htb; by exists tb]; simpl; by rewrite lookup_insert_eq, Hx.
Qed.

#[export] Hint Resolve quietly_ret quietly_throw quietly_get quietly_bind quietly_try quietly_lift quietly_fd quietly_txn quietly_meta quietly_log
  quietly_locks lock_known unlock_known quietly_table_get quietly_touch quietly_get_record quietly_set_lsn : quiet.

(** ** Taking a write back *)

Abbreviation State := (gmap bytes Data * gmap (Z * Rid) Z)%type.
Definition state_of s : State := (data_of s, owners_of s).

(** What rolling a write of [t] back means; [None] when it fails. *)
Definition undo_write t (fds : gmap bytes Z) w (a : State) : option State :=
  let r := wrid_ w in
  let set d := <[wtab_name_ w := d]> a.1 in
  d ← a.1 !! wtab_name_ w;
  match wtype_ w with
  | INSERT_TUPLE =>
      fd ← fds !! wtab_name_ w;
      if decide (a.2 !! (fd, r) = Some t) then
        rec ← d.1 !! r; Some (set (delete r d.1, all_del rec d.2), delete (fd, r) a.2)
      else Some a
  | DELETE_TUPLE =>
      match d.1 !! r with Some _ => None | None => Some (set (<[r := wrecord_ w]> d.1, all_ins (wrecord_ w) r d.2), a.2) end
  | UPDATE_TUPLE => cur ← d.1 !! r; Some (set (<[r := wrecord_ w]> d.1, all_ins (wrecord_ w) r (all_del cur d.2)), a.2)
  end.

Fixpoint undo_writes t (fds : gmap bytes Z) (ws : list WriteRecord) (a : State) : option State :=
  match ws with [] => Some a | w :: ws => a ← undo_write t fds w a; undo_writes t fds ws a end.

(** A transaction without snapshot and without versioned writes, while there are no versions. *)
Record plain t s : Prop := mk_plain {
  pl_txn : ∃ x, txns s !! t = Some x ∧ mvcc_enabled_ x = false ∧ mvcc_write_keys_ x = ∅;
  pl_mode : HasMvccState s = false;
  pl_known : known t s
}.

(** The place of a write exists in its table. *)
Definition placed s w : Prop := ∃ tb, fhs_ (sys s) !! wtab_name_ w = Some tb ∧ Recovery.page_ok (page_no (wrid_ w)) tb = true ∧
  Recovery.slot_ok (slot_no (wrid_ w)) tb = true ∧ is_Some (fds_ (sys s) !! wtab_name_ w) ∧ is_Some (tabs_ (sys s) !! wtab_name_ w).

Lemma plain_rest t s s' : rest t s' = rest t s → (known t s → known t s') → plain t s → plain t s'.
Proof.
  unfold rest. intros [= Hv Ha Hf Ht Hx] Hk [(x & Ex & Hm & Hw) Hmode Hkn]. split; [|unfold HasMvccState in *; by rewrite Hv, Ha|auto].
  rewrite Ex in Hx. destruct (txns s' !! t) as [x'|]; [|done]. injection Hx as E1 E2. exists x'. by rewrite E1, E2.
Qed.

Lemma page_ok_mono p tb tb' : same_size tb tb' → Recovery.page_ok p tb = true → Recovery.page_ok p tb' = true.
Proof. intros [Hp _]. unfold Recovery.page_ok. rewrite !bool_decide_eq_true. lia. Qed.
Lemma slot_ok_mono q tb tb' : same_size tb tb' → Recovery.slot_ok q tb = true → Recovery.slot_ok q tb' = true.
Proof. intros [_ Hs]. unfold Recovery.slot_ok. by rewrite Hs. Qed.

Lemma placed_grows t s s' w : grows s s' → rest t s' = rest t s → placed s w → placed s' w.
Proof.
  unfold rest. intros Hg [= _ _ Hf Ht _] (tb & Htb & Hp & Hs & Hfd & Hm). destruct (Hg _ _ Htb) as (tb' & Htb' & Hz). exists tb'.
  rewrite Hf, Ht. split_and!; [done|by eapply page_ok_mono|by eapply slot_ok_mono|done..].
Qed.

Lemma upd_same tab tb s : fhs_ (sys s) !! tab = Some tb → upd_table tab tb s = s.
Proof. intros H. unfold upd_table. rewrite insert_id by done. by destruct s as [? ? ? ? ? ? ? ? ? []]. Qed.

Lemma upd_grows tab tb recs ixs s : fhs_ (sys s) !! tab = Some tb → grows s (upd_table tab (Recovery.with_records recs (Recovery.with_indexes ixs tb)) s).
Proof. intros H. by eapply grows_upd. Qed.

Lemma touch_run tab tb s : fhs_ (sys s) !! tab = Some tb → on_table tab (mret tt) s = (Ok tt, s).
Proof. intros H. rewrite (on_table_run tab _ _ _ (Ok tt) tb H) by done. by rewrite upd_same. Qed.

Lemma unlock_runs std_hash t lid l : is_Some (Lm.txns l !! t) → ∃ b l', Lm.unlock std_hash t lid l = (Ok b, l').
Proof.
  intros [x Hx]. unfold Lm.unlock, Lm.release, Lm.txn_of, deref, get, modify, mbind, M_bind. destruct (Lm.queue_of std_hash lid l) as [q|]; [|by eauto].
  destruct (Lm.request_queue_ q) as [|r0 [|r2 rs]].
  2:{ case_decide; rewrite Hx; simpl; eauto. }
  all: simpl; rewrite Hx; simpl; case_decide; eauto.
Qed.

Section rollback.
Context (std_hash : Z → Z) (os_fd : gmap Z string → Z).

(** *** The changes of tables in [rollback_write] *)

Lemma run_undo_insert r rec tb : Recovery.t_records tb !! r = Some rec → Recovery.page_ok (page_no r) tb = true →
  (rec ← Recovery.get_record r; Recovery.delete_indexes rec;; Recovery.delete_record r) tb =
  (Ok tt, Recovery.with_records (delete r (Recovery.t_records tb)) (Recovery.with_indexes (all_del rec (Recovery.t_indexes tb)) tb)).
Proof.
  intros Hr Hp. unfold Recovery.get_record, Recovery.delete_indexes, Recovery.delete_record, get, modify, mbind, M_bind. rewrite Hr. simpl.
  change (Recovery.page_ok (page_no r) (Recovery.with_indexes _ tb)) with (Recovery.page_ok (page_no r) tb). rewrite Hp. simpl.
  unfold Recovery.is_record. simpl. by rewrite bool_decide_eq_true_2 by by eexists.
Qed.

Lemma run_undo_delete r rec tb : Recovery.t_records tb !! r = None → Recovery.page_ok (page_no r) tb = true → Recovery.slot_ok (slot_no r) tb = true →
  (Recovery.insert_record_at r rec;; Recovery.insert_indexes rec r) tb =
  (Ok tt, Recovery.with_records (<[r := rec]> (Recovery.t_records tb)) (Recovery.with_indexes (all_ins rec r (Recovery.t_indexes tb)) tb)).
Proof.
  intros Hr Hp Hs. unfold Recovery.insert_record_at, Recovery.insert_indexes, get, modify, mbind, M_bind. rewrite Hp, Hs. simpl.
  unfold Recovery.is_record. rewrite Hr. simpl. unfold put. done.
Qed.

Lemma run_undo_update r old cur tb : Recovery.t_records tb !! r = Some cur → Recovery.page_ok (page_no r) tb = true →
  (rec ← Recovery.get_record r; Recovery.delete_indexes rec;; Recovery.update_record r old;; Recovery.insert_indexes old r) tb =
  (Ok tt, Recovery.with_records (<[r := old]> (Recovery.t_records tb)) (Recovery.with_indexes (all_ins old r (all_del cur (Recovery.t_indexes tb))) tb)).
Proof.
  intros Hr Hp. unfold Recovery.get_record, Recovery.delete_indexes, Recovery.update_record, Recovery.insert_indexes, get, modify, mbind, M_bind. rewrite Hr. simpl.
  change (Recovery.page_ok (page_no r) (Recovery.with_indexes _ tb)) with (Recovery.page_ok (page_no r) tb). rewrite Hp. simpl.
  unfold Recovery.is_record. simpl. rewrite bool_decide_eq_true_2 by by eexists. done.
Qed.

(** The effect of taking a write back. *)
Definition undone t s s' (a : State) : Prop := state_of s' = a ∧ rest t s' = rest t s ∧ (known t s → known t s') ∧ grows s s'.

Lemma undone_upd t tab tb recs ixs s : fhs_ (sys s) !! tab = Some tb →
  undone t s (upd_table tab (Recovery.with_records recs (Recovery.with_indexes ixs tb)) s) (<[tab := (recs, ixs)]> (data_of s), owners_of s).
Proof. intros Htb. split; [unfold state_of; by rewrite data_upd|]. split_and!; [done|done|by apply upd_grows]. Qed.

(** The end of an insert that is taken back: the lock and the owner go. *)
Lemma undo_insert_end t tab fd r s : known t s → fds_ (sys s) !! tab = Some fd → owners_of s !! (fd, r) = Some t →
  ∃ s', ((fd ← fd_of tab; on_locks (Lm.unlock std_hash t (Lm.record_lock fd r));; mret tt);; UnregisterPhysicalInsert tab r t) s = (Ok tt, s') ∧
    undone t s s' (data_of s, delete (fd, r) (owners_of s)).
Proof.
  intros Hk Hfd Ho. destruct (unlock_runs std_hash t (Lm.record_lock fd r) _ Hk) as (b & l & Hl).
  pose proof (unlock_known std_hash t t (Lm.record_lock fd r) _ Hk) as Hk'. rewrite Hl in Hk'.
  unfold fd_of, on_locks, UnregisterPhysicalInsert, MakePhysicalInsertKey, UnregisterPhysicalInsert_fd, modify, mbind, M_bind. rewrite Hfd. simpl. rewrite Hl. simpl. rewrite Hfd. simpl.
  eexists. split; [done|]. rewrite decide_True by exact Ho. split_and!; try done. intros tab0 tb0 H0. by exists tb0.
Qed.

Lemma rollback_write_ok t w s a : known t s → placed s w → undo_write t (fds_ (sys s)) w (state_of s) = Some a →
  ∃ s', rollback_write std_hash t w s = (Ok tt, s') ∧ undone t s s' a.
Proof.
  intros Hk (tb & Htb & Hp & Hs & [fd Hfd] & [m Hm]) Hu. set (tab := wtab_name_ w) in *. set (r := wrid_ w) in *.
  unfold rollback_write. fold tab r. rewrite (bind_ok _ _ s m s) by (unfold get_table; by rewrite Hm). rewrite (bind_ok _ _ s tt s) by by eapply touch_run.
  unfold undo_write in Hu. fold tab r in Hu. change ((state_of s).1 !! tab) with (data_of s !! tab) in Hu. unfold data_of in Hu at 1. rewrite lookup_fmap, Htb in Hu. unfold data in Hu. simpl in Hu.
  destruct (wtype_ w).
  - rewrite Hfd in Hu. simpl in Hu. rewrite (bind_ok (OwnsPhysicalInsert tab r t) _ s (bool_decide (owners_of s !! (fd, r) = Some t)) s).
    2:{ unfold OwnsPhysicalInsert, MakePhysicalInsertKey, mbind, M_bind. by rewrite Hfd. }
    destruct (decide (owners_of s !! (fd, r) = Some t)) as [Ho|Ho].
    + rewrite bool_decide_eq_true_2 by done. destruct (Recovery.t_records tb !! r) as [rec|] eqn:Er; [|done]. injection Hu as <-.
      pose proof (on_table_run _ _ _ _ _ _ Htb (run_undo_insert r rec tb Er Hp)) as Hrun. set (s1 := upd_table _ _ _) in Hrun.
      destruct (undone_upd t tab tb (delete r (Recovery.t_records tb)) (all_del rec (Recovery.t_indexes tb)) s Htb) as (E1 & E2 & E3 & E4). fold s1 in E1, E2, E3, E4.
      destruct (undo_insert_end t tab fd r s1 (E3 Hk) Hfd Ho) as (s2 & Hend & F1 & F2 & F3 & F4). exists s2. split.
      * rewrite <-Hend. unfold mbind at 1 2 3, M_bind at 1 2 3. by rewrite Hrun.
      * split_and!; [rewrite F1; by injection E1 as <-|by rewrite F2|auto|by eapply grows_trans].
    + rewrite bool_decide_eq_false_2 by done. injection Hu as <-. exists s. split; [|split_and!; try done; apply grows_refl].
      rewrite (bind_ok _ _ s tt s) by done. unfold UnregisterPhysicalInsert, MakePhysicalInsertKey, UnregisterPhysicalInsert_fd, modify, mbind, M_bind. rewrite Hfd. simpl.
      by rewrite decide_False.
  - destruct (Recovery.t_records tb !! r) eqn:Er; [done|]. injection Hu as <-. eexists. split; [|by apply undone_upd].
    by apply (on_table_run _ _ _ _ _ _ Htb), run_undo_delete.
  - destruct (Recovery.t_records tb !! r) as [cur|] eqn:Er; [|done]. injection Hu as <-. eexists. split; [|by apply undone_upd].
    by apply (on_table_run _ _ _ _ _ _ Htb), run_undo_update.
Qed.

Lemma rollback_all t ws : ∀ s a, known t s → Forall (placed s) ws → undo_writes t (fds_ (sys s)) ws (state_of s) = Some a →
  ∃ s', mfor (rollback_write std_hash t) ws s = (Ok tt, s') ∧ undone t s s' a.
Proof.
  induction ws as [|w ws IH]; intros s a Hk Hp Hu.
  - injection Hu as <-. exists s. split; [done|]. split_and!; try done. apply grows_refl.
  - apply Forall_cons in Hp as [Hw Hp]. simpl in Hu. destruct (undo_write t (fds_ (sys s)) w (state_of s)) as [a1|] eqn:E1; [|done]. simpl in Hu.
    destruct (rollback_write_ok t w s a1 Hk Hw E1) as (s1 & Hrun & <- & F2 & F3 & F4). assert (fds_ (sys s1) = fds_ (sys s)) as Hf by (unfold rest in F2; congruence).
    destruct (IH s1 a (F3 Hk)) as (s2 & Hrun2 & G1 & G2 & G3 & G4); [|by rewrite Hf|].
    + eapply Forall_impl; [done|]. intros w'. by eapply placed_grows.
    + exists s2. simpl. rewrite (bind_ok _ _ _ _ _ Hrun). split; [done|]. split_and!; [done|congruence|auto|by eapply grows_trans].
Qed.
End rollback.
End DmlFacts.
