(* ===== verification/DmlUndo.v ===== *)
(** * Every statement can be taken back

    The statements of a transaction without snapshot keep the invariant [undoable], whether they
    succeed or throw; [abort] then restores the data. *)

From S2P Require Import Prelude Disk RecordFile Log Recovery Conditions LockManager Mvcc Executor Aggregate Scans Dml DmlIndexes DmlFacts.

Module DmlUndo.
Import RecFile Cond Mvcc Exec Agg Scans Dml DmlIndexes DmlFacts.

Implicit Types (s : TransactionManager) (tab : bytes) (r : Rid) (t : Z) (tb : Recovery.Table) (w : WriteRecord).

(** The tables of the catalogue do not change. *)
Section catalogue.
Context (cat : gmap bytes TabMeta).

Record undoable t (base : State) s : Prop := mk_undoable {
  ud_plain : plain t s;
  ud_cat : tabs_ (sys s) = cat;
  ud_tidy : map_Forall (λ _, tidy) (fhs_ (sys s));
  ud_writes : ∃ ws, writes_of t s = Some ws ∧ Forall (placed s) ws ∧ undo_writes t (fds_ (sys s)) (reverse ws) (state_of s) = Some base
}.

Lemma tidy_mono tb tb' : same_size tb tb' → data tb' = data tb → tidy tb → tidy tb'.
Proof.
  intros Hz Hd [H1 H2 H3 H4]. injection Hd as E1 E2. split; [by rewrite E1, E2| | |].
  - intros r v Hr. rewrite E1 in Hr. destruct (H2 r v Hr). split; [by eapply page_ok_mono|by eapply slot_ok_mono].
  - destruct Hz. lia.
  - destruct Hz as [_ ->]. done.
Qed.

Lemma data_lookup s tab tb : fhs_ (sys s) !! tab = Some tb → data_of s !! tab = Some (data tb).
Proof. intros H. unfold data_of. by rewrite lookup_fmap, H. Qed.

(** Tables other than [tab] stay tidy. *)
Lemma tidy_step s s' tab d tb' : grows s s' → data_of s' = <[tab := d]> (data_of s) → fhs_ (sys s') !! tab = Some tb' → tidy tb' →
  map_Forall (λ _, tidy) (fhs_ (sys s)) → map_Forall (λ _, tidy) (fhs_ (sys s')).
Proof.
  intros Hg Hd Htb' Ht' Ht tab0 tb0 Htb0. destruct (decide (tab = tab0)) as [->|Hne]; [congruence|].
  pose proof (data_lookup _ _ _ Htb0) as Hd0. rewrite Hd, lookup_insert_ne in Hd0 by done. unfold data_of in Hd0. rewrite lookup_fmap in Hd0.
  destruct (fhs_ (sys s) !! tab0) as [tb|] eqn:Htb; [|done]. simpl in Hd0. apply (inj Some) in Hd0. destruct (Hg _ _ Htb) as (tb2 & Htb2 & Hz). assert (tb2 = tb0) as -> by congruence.
  eapply (tidy_mono tb); [done|congruence|by eapply Ht].
Qed.

Lemma quiet_table t s s' tab tb : quiet t s s' → fhs_ (sys s) !! tab = Some tb → ∃ tb', fhs_ (sys s') !! tab = Some tb' ∧ data tb' = data tb ∧ same_size tb tb'.
Proof.
  intros Hq Htb. destruct (qt_grows _ _ _ Hq _ _ Htb) as (tb' & Htb' & Hz). exists tb'. split_and!; [done| |done].
  pose proof (data_lookup _ _ _ Htb') as H. rewrite (qt_data _ _ _ Hq), (data_lookup _ _ _ Htb) in H. congruence.
Qed.

Lemma quiet_catalogue t s s' : quiet t s s' → fds_ (sys s') = fds_ (sys s) ∧ tabs_ (sys s') = tabs_ (sys s).
Proof. intros Hq. pose proof (qt_rest _ _ _ Hq) as H. unfold rest in H. split; congruence. Qed.

Lemma quiet_undoable t base s s' : quiet t s s' → undoable t base s → undoable t base s'.
Proof.
  intros Hq [Hp Hc Ht (ws & Hw & Hpl & Hu)]. pose proof Hq as [Q1 Q2 Q3 Q4 Q5 Q6]. destruct (quiet_catalogue _ _ _ Hq) as [Hf Hc']. split.
  - by eapply plain_rest.
  - congruence.
  - intros tab tb' Htb'. pose proof (data_lookup _ _ _ Htb') as Hd. rewrite Q1 in Hd. unfold data_of in Hd. rewrite lookup_fmap in Hd.
    destruct (fhs_ (sys s) !! tab) as [tb|] eqn:Htb; [|done]. destruct (quiet_table _ _ _ _ _ Hq Htb) as (tb2 & Htb2 & Hd2 & Hz). assert (tb2 = tb') as -> by congruence.
    eapply tidy_mono; [done..|by eapply Ht].
  - exists ws. unfold state_of. rewrite Q1, Q2, Q3, Hf. split_and!; [done| |done]. eapply Forall_impl; [done|]. intros w. by eapply placed_grows.
Qed.

(** A quiet step in front of a computation. *)
Lemma quiet_then {A B} t base (m : M TransactionManager A) (k : A → M TransactionManager B) s :
  quietly t m → undoable t base s → (∀ a s1, m s = (Ok a, s1) → quiet t s s1 → undoable t base s1 → undoable t base (k a s1).2) → undoable t base (mbind k m s).2.
Proof.
  intros Hm Hs Hk. specialize (Hm s). unfold mbind, M_bind. destruct (m s) as [[a|e] s1]; simpl in *; [|by eapply quiet_undoable].
  apply Hk; [done..|by eapply quiet_undoable].
Qed.

(** ** A write that can be taken back *)

Lemma undo_writes_snoc t fds ws w a : undo_writes t fds (reverse (ws ++ [w])) a = undo_write t fds w a ≫= undo_writes t fds (reverse ws).
Proof. by rewrite reverse_app. Qed.

Lemma undoable_write t base s s' tab tb' w ws :
  undoable t base s → writes_of t s = Some ws → rest t s' = rest t s → (known t s → known t s') → grows s s' →
  data_of s' = <[tab := data tb']> (data_of s) → fhs_ (sys s') !! tab = Some tb' → tidy tb' →
  writes_of t s' = Some (ws ++ [w]) → placed s' w → undo_write t (fds_ (sys s')) w (state_of s') = Some (state_of s) → undoable t base s'.
Proof.
  intros [Hp Hc Ht (ws' & Hw & Hpl & Hu)] Hws Hr Hk Hg Hd Htb' Htd Hw' Hplw Huw. assert (ws' = ws) as -> by congruence. split.
  - by eapply plain_rest.
  - unfold rest in Hr. congruence.
  - by eapply tidy_step.
  - exists (ws ++ [w]). assert (fds_ (sys s') = fds_ (sys s)) as Hf by (unfold rest in Hr; congruence). split_and!; [done| |].
    + apply Forall_app. split; [|by apply Forall_singleton]. eapply Forall_impl; [done|]. intros w'. by eapply placed_grows.
    + by rewrite undo_writes_snoc, Huw, Hf.
Qed.

(** [append_write_record]. *)
Definition add_write t w s : TransactionManager := (append_write_record t w s).2.

Lemma append_run t w s ws : writes_of t s = Some ws → append_write_record t w s = (Ok tt, add_write t w s).
Proof. unfold writes_of, add_write, append_write_record, txn_of, put_txn, modify, deref, mbind, M_bind. by destruct (txns s !! t). Qed.

Lemma add_write_facts t w s ws : writes_of t s = Some ws → data_of (add_write t w s) = data_of s ∧ owners_of (add_write t w s) = owners_of s ∧
  sys (add_write t w s) = sys s ∧ writes_of t (add_write t w s) = Some (ws ++ [w]) ∧ rest t (add_write t w s) = rest t s.
Proof.
  unfold writes_of, add_write, append_write_record, txn_of, put_txn, modify, deref, mbind, M_bind. destruct (txns s !! t) as [x|] eqn:Ex; [|done]. intros [= <-]. simpl.
  unfold rest. simpl. rewrite lookup_insert_eq, Ex. done.
Qed.

Lemma upd_upd tab tb tb' s : upd_table tab tb' (upd_table tab tb s) = upd_table tab tb' s.
Proof. unfold upd_table. simpl. by rewrite insert_insert_eq. Qed.
Lemma upd_lookup tab tb s : fhs_ (sys (upd_table tab tb s)) !! tab = Some tb.
Proof. apply lookup_insert_eq. Qed.

(** The next operation on a table that was changed. *)
Lemma upd_run {A} tab (m : M Recovery.Table A) s tb x tb' : m tb = (x, tb') → on_table tab m (upd_table tab tb s) = (x, upd_table tab tb' s).
Proof. intros Hm. rewrite (on_table_run _ _ _ _ _ _ (upd_lookup tab tb s) Hm). by rewrite upd_upd. Qed.

Lemma get_keys_run tab tb s {A} (f : Recovery.Table → A) : fhs_ (sys s) !! tab = Some tb → on_table tab (tb ← get; mret (f tb)) s = (Ok (f tb), s).
Proof. intros Htb. rewrite (on_table_run tab _ _ _ (Ok (f tb)) tb Htb) by done. by rewrite upd_same. Qed.

Lemma attempt_ok (m : M TransactionManager unit) s s' : m s = (Ok tt, s') → attempt m s = (Ok None, s').
Proof. intros H. unfold attempt, try_catch, mbind, M_bind. by rewrite H. Qed.

Lemma undoable_writes t base s : undoable t base s → ∃ ws, writes_of t s = Some ws.
Proof. intros [_ _ _ (ws & H & _)]. eauto. Qed.

Lemma write_placed t w s tab tb tb' : wtab_name_ w = tab → fhs_ (sys s) !! tab = Some tb → Recovery.page_ok (page_no (wrid_ w)) tb' = true →
  Recovery.slot_ok (slot_no (wrid_ w)) tb' = true → is_Some (fds_ (sys s) !! tab) → is_Some (tabs_ (sys s) !! tab) → is_Some (writes_of t s) →
  placed (add_write t w (upd_table tab tb' s)) w.
Proof.
  intros <- Htb Hp Hsl Hf Hm [ws Hw]. exists tb'. destruct (add_write_facts t w (upd_table (wtab_name_ w) tb' s) ws Hw) as (_ & _ & E & _). rewrite E.
  split_and!; [by rewrite upd_lookup|done..].
Qed.

(** The state behind a change of one table and its write record. *)
Lemma undoable_change t base s tab tb recs ixs w :
  undoable t base s → fhs_ (sys s) !! tab = Some tb → wtab_name_ w = tab →
  Recovery.page_ok (page_no (wrid_ w)) tb = true → Recovery.slot_ok (slot_no (wrid_ w)) tb = true → is_Some (fds_ (sys s) !! tab) → is_Some (tabs_ (sys s) !! tab) →
  tidy (with_data recs ixs tb) →
  undo_write t (fds_ (sys s)) w (<[tab := (recs, ixs)]> (data_of s), owners_of s) = Some (state_of s) →
  undoable t base (add_write t w (upd_table tab (with_data recs ixs tb) s)).
Proof.
  intros Hu Htb Hwt Hp Hs Hf Hm Htd Hun. destruct (undoable_writes _ _ _ Hu) as [ws Hws]. set (tb' := with_data recs ixs tb) in *.
  destruct (add_write_facts t w (upd_table tab tb' s) ws Hws) as (E1 & E2 & E3 & E4 & E5).
  eapply (undoable_write t base s _ tab tb' w ws); try done.
  - intros Hk. unfold known. by rewrite E3.
  - intros tab0 tb0 H0. rewrite E3. by apply (upd_grows tab tb recs ixs s Htb).
  - by rewrite E1, data_upd.
  - by rewrite E3, upd_lookup.
  - by eapply write_placed.
  - unfold state_of. rewrite E1, E2, E3, data_upd. exact Hun.
Qed.

(** *** Deleting *)

Section statements.
Context (std_hash : Z → Z) (os_fd : gmap Z string → Z) (free_slot : Recovery.Table → Rid).

Definition delete_tail tab t r rec w : M TransactionManager unit :=
  keys ← on_table tab (tb ← get; mret (index_keys rec (Recovery.t_indexes tb)));
  deleted ← on_table tab (delete_entries keys []);
  e ← attempt (on_table tab (Recovery.delete_record r));
  match e with
  | None => append_write_record t w
  | Some e => rethrow std_hash os_fd t false (on_table tab (restore_entries r deleted)) e
  end.

Lemma run_delete tab t r rec w tb s : fhs_ (sys s) !! tab = Some tb → tidy tb → Recovery.t_records tb !! r = Some rec → is_Some (writes_of t s) →
  delete_tail tab t r rec w s = (Ok tt, add_write t w (upd_table tab (with_data (delete r (Recovery.t_records tb)) (all_del rec (Recovery.t_indexes tb)) tb) s)).
Proof.
  intros Htb Htd Hr [ws Hw]. unfold delete_tail. rewrite (bind_ok _ _ _ _ _ (get_keys_run tab tb s _ Htb)).
  destruct (delete_entries_ok (index_keys rec (Recovery.t_indexes tb)) [] tb (index_keys_nodup _ _)) as (del & Hdel & _); [by apply index_keys_is|].
  rewrite (bind_ok _ _ _ _ _ (on_table_run _ _ _ _ _ _ Htb Hdel)). rewrite at_index_keys. fold (all_del rec (Recovery.t_indexes tb)).
  set (tb1 := Recovery.with_indexes (all_del rec (Recovery.t_indexes tb)) tb).
  assert (Recovery.delete_record r tb1 = (Ok tt, Recovery.with_records (delete r (Recovery.t_records tb)) tb1)) as Hrun.
  { unfold Recovery.delete_record, get, mbind, M_bind. destruct (td_place _ Htd _ _ Hr) as [Hp _]. change (Recovery.page_ok (page_no r) tb1) with (Recovery.page_ok (page_no r) tb). rewrite Hp.
    unfold Recovery.is_record. simpl. by rewrite bool_decide_eq_true_2 by by eexists. }
  rewrite (bind_ok _ _ _ _ _ (attempt_ok _ _ _ (upd_run _ _ s _ _ _ Hrun))). by eapply append_run.
Qed.

Lemma quietly_lock_row tab t b r : quietly t (lock_row std_hash tab t b r).
Proof. unfold lock_row, Lm.lock_exclusive_on_record. destruct b; eauto 10 with quiet. Qed.

Lemma quietly_log_change tab t r mk : quietly t (log_change os_fd tab t r mk).
Proof.
  intros s. unfold log_change. unfold mbind at 1, M_bind at 1, txn_of. destruct (txns s !! t) as [x|] eqn:Ex; [|apply quiet_refl]. simpl.
  unfold mbind at 1, M_bind at 1. pose proof (quietly_log t (Log.add_log_to_buffer os_fd (mk (prev_lsn_ x))) s) as Hq.
  destruct (on_log _ s) as [[lsn|e] s1] eqn:El; simpl in Hq; [|done].
  assert (txns s1 !! t = Some x) as Hx1. { unfold on_log in El. destruct (Log.add_log_to_buffer _ _ _). by injection El as _ <-. }
  eapply quiet_trans; [done|]. eapply quiet_trans; [by eapply (quietly_prev_lsn t lsn)|]. apply quietly_set_lsn.
Qed.

Lemma quietly_visible t tab r phys : quietly t (GetVisibleRecord tab r phys t).
Proof. unfold GetVisibleRecord. apply quietly_bind; [apply quietly_txn|]. intros x. apply quietly_bind; [apply quietly_get|]. intros s0. destruct (_ && _); [apply quietly_ret|]. destruct (_ !! _); apply quietly_ret. Qed.

Lemma quietly_current tab t r : quietly t (current_record tab t r).
Proof.
  unfold current_record. apply quietly_try.
  - apply quietly_bind; [apply quietly_get|]. intros s0. apply quietly_bind; [apply quietly_get_record|]. intros p. destruct (HasMvccState s0); [apply quietly_visible|apply quietly_ret].
  - intros []; eauto with quiet.
Qed.

(** Without versions a transaction sees the record of the heap. *)
Lemma current_record_plain tab t r s o s1 : HasMvccState s = false → current_record tab t r s = (Ok o, s1) →
  ∃ tb, fhs_ (sys s) !! tab = Some tb ∧ o = Recovery.t_records tb !! r ∧ s1 = s.
Proof.
  intros Hm. unfold current_record, try_catch, get. unfold mbind at 1, M_bind at 1. destruct (fhs_ (sys s) !! tab) as [tb|] eqn:Htb.
  - destruct (Recovery.t_records tb !! r) as [rec|] eqn:Er.
    + rewrite (bind_ok _ _ s rec s); [|rewrite (on_table_run tab _ _ _ (Ok rec) tb Htb); [by rewrite upd_same|]; unfold Recovery.get_record, get, mbind, M_bind; by rewrite Er].
      rewrite Hm. intros [= <- <-]. eauto.
    + rewrite (bind_err _ _ s (RecordNotFoundError (page_no r) (slot_no r)) s);
        [|rewrite (on_table_run tab _ _ _ (Err (RecordNotFoundError (page_no r) (slot_no r))) tb Htb); [by rewrite upd_same|]; unfold Recovery.get_record, get, mbind, M_bind; by rewrite Er].
      intros [= <- <-]. eauto.
  - by rewrite (bind_err _ _ _ _ _ (on_table_none _ _ _ Htb)).
Qed.

Lemma plain_flags t s x : plain t s → txns s !! t = Some x → IsMvccTxn x = false ∧ ShouldVersionWrites x s = false.
Proof.
  intros [(x' & Hx' & Hm & _) Hmode _] Hx. assert (x' = x) as -> by congruence. unfold IsMvccTxn, ShouldVersionWrites. rewrite Hm. split; [done|]. simpl.
  unfold HasMvccState in Hmode. by apply orb_false_elim in Hmode as [-> _].
Qed.

Abbreviation meta tab s := (is_Some (tabs_ (sys s) !! tab)).

(** The first steps of deleting or updating a row. *)
Lemma row_prefix t base tab r s (f : record → M TransactionManager unit) :
  undoable t base s → meta tab s →
  (∀ s1 tb rec, undoable t base s1 → meta tab s1 → fhs_ (sys s1) !! tab = Some tb → Recovery.t_records tb !! r = Some rec → undoable t base (f rec s1).2) →
  undoable t base ((lock_row std_hash tab t true r;; o ← current_record tab t r; match o with None => mret tt | Some rec => f rec end) s).2.
Proof.
  intros Hu Hm Hf. apply (quiet_then t base); [apply quietly_lock_row|done|]. intros [] s1 _ Q1 Hu1. destruct (quiet_catalogue _ _ _ Q1) as [_ Ht1].
  apply (quiet_then t base); [apply quietly_current|done|]. intros o s2 Hrun Q2 Hu2.
  destruct (current_record_plain _ _ _ _ _ _ (pl_mode _ _ (ud_plain _ _ _ Hu1)) Hrun) as (tb & Htb & -> & ->).
  destruct (Recovery.t_records tb !! r) as [rec|] eqn:Er; [|done]. by eapply Hf; [done|rewrite Ht1|..].
Qed.

(** Then the descriptor and the log record. *)
Lemma row_logged t base tab r rec s tb mk (f : Z → M TransactionManager unit) :
  undoable t base s → meta tab s → fhs_ (sys s) !! tab = Some tb → Recovery.t_records tb !! r = Some rec →
  (∀ s1 tb fd, undoable t base s1 → meta tab s1 → fhs_ (sys s1) !! tab = Some tb → tidy tb → Recovery.t_records tb !! r = Some rec → fds_ (sys s1) !! tab = Some fd → undoable t base (f fd s1).2) →
  undoable t base ((fd ← fd_of tab; log_change os_fd tab t r mk;; f fd) s).2.
Proof.
  intros Hu Hm Htb Hr Hf. apply (quiet_then t base); [apply quietly_fd|done|]. intros fd s1 Hfd _ Hu1. unfold fd_of in Hfd. destruct (fds_ (sys s) !! tab) eqn:Efd; [|done].
  injection Hfd as -> <-. apply (quiet_then t base); [apply quietly_log_change|done|]. intros [] s2 _ Q2 Hu2. destruct (quiet_table _ _ _ _ _ Q2 Htb) as (tb2 & Htb2 & Hd2 & _).
  destruct (quiet_catalogue _ _ _ Q2) as [Hf2 Ht2]. injection Hd2 as E1 E2. eapply (Hf s2 tb2); [done|by rewrite Ht2|done| |by rewrite E1|by rewrite Hf2].
  by eapply (ud_tidy _ _ _ Hu2).
Qed.

Lemma delete_row_undoable tab t base m conds r s : undoable t base s → meta tab s → undoable t base (delete_row std_hash os_fd tab t m conds r s).2.
Proof.
  intros Hu Hm. destruct (pl_txn _ _ (ud_plain _ _ _ Hu)) as (x & Hx & _). destruct (plain_flags _ _ _ (ud_plain _ _ _ Hu) Hx) as [F1 F2].
  unfold delete_row. rewrite (bind_ok _ _ s x s) by (unfold txn_of; by rewrite Hx). rewrite (bind_ok _ _ s s s) by done. cbv zeta. rewrite F1, F2. simpl negb.
  apply row_prefix; [done..|]. clear s Hu Hm x Hx F1 F2. intros s tb rec Hu Hm Htb Hr. destruct (eval_conds rec (tm_cols m) conds); simpl; [|done].
  rewrite (bind_ok _ _ s tt s) by done.
  apply (row_logged t base tab r rec s tb _ (λ fd, delete_tail tab t r rec (mk_WriteRecord DELETE_TUPLE tab fd r rec))); [done..|]. clear s tb Hu Hm Htb Hr. intros s tb fd Hu Hm Htb Htd Hr Hfd.
  destruct (undoable_writes _ _ _ Hu) as [ws Hws]. rewrite (run_delete tab t r rec _ tb s); [|done..]. simpl.
  destruct (td_place _ Htd _ _ Hr) as [Hp Hsl]. apply undoable_change; try done.
  - destruct Htd as [T1 T2 T3 T4]. split; [by apply all_keyed_del| |done|done]. simpl. intros r' v Hr'. apply lookup_delete_Some in Hr' as [_ Hr']. by eapply T2.
  - unfold undo_write. simpl. rewrite lookup_insert_eq. simpl. rewrite lookup_delete_eq. rewrite insert_insert_eq, insert_delete_id by done.
    rewrite undo_del by (by eapply keyed_point; [apply (td_keyed _ Htd)|]). rewrite insert_id; [done|]. by apply data_lookup.
Qed.

(** *** Updating *)

Lemma run_update_record r new old tb : tidy tb → Recovery.t_records tb !! r = Some old → ∀ recs ixs, is_Some (recs !! r) →
  Recovery.update_record r new (with_data recs ixs tb) = (Ok tt, with_data (<[r := new]> recs) ixs tb).
Proof.
  intros Htd Hr recs ixs Hin. unfold Recovery.update_record, get, mbind, M_bind. destruct (td_place _ Htd _ _ Hr) as [Hp _].
  change (Recovery.page_ok (page_no r) (with_data recs ixs tb)) with (Recovery.page_ok (page_no r) tb). rewrite Hp. unfold Recovery.is_record. simpl.
  by rewrite bool_decide_eq_true_2.
Qed.

Lemma with_data_same tb : with_data (Recovery.t_records tb) (Recovery.t_indexes tb) tb = tb.
Proof. by destruct tb. Qed.

Definition update_tail tab t r old new w : M TransactionManager unit :=
  changed ← on_table tab (tb ← get; mret (changed_keys old new (Recovery.t_indexes tb)));
  let old_keys := (λ p : nat * bytes * bytes, p.1) <$> changed in
  let new_keys := (λ p : nat * bytes * bytes, (p.1.1, p.2)) <$> changed in
  on_table tab (remove_entries old_keys);;
  written ← attempt (on_table tab (Recovery.update_record r new));
  p ← (match written with Some e => mret ([], Some e) | None => on_table tab (insert_entries r new_keys []) end);
  match p.2 with
  | None => append_write_record t w
  | Some e =>
      rethrow std_hash os_fd t false
        (on_table tab (remove_entries p.1);; on_table tab (Recovery.update_record r old);; on_table tab (restore_entries r old_keys)) e
  end.

(** The update succeeds, or meets a key that is there and takes everything back. *)
Lemma run_update tab t r old new w tb s : fhs_ (sys s) !! tab = Some tb → tidy tb → Recovery.t_records tb !! r = Some old → is_Some (writes_of t s) →
  update_tail tab t r old new w s =
    (Ok tt, add_write t w (upd_table tab (with_data (<[r := new]> (Recovery.t_records tb)) (all_upd old new r (Recovery.t_indexes tb)) tb) s)) ∧
    keys_free new (all_del old (Recovery.t_indexes tb)) ∨
  update_tail tab t r old new w s = (Err RMDBError, s) ∧ ¬ keys_free new (all_del old (Recovery.t_indexes tb)).
Proof.
  intros Htb Htd Hr [ws Hw]. unfold update_tail. rewrite (bind_ok _ _ _ _ _ (get_keys_run tab tb s _ Htb)). cbv zeta.
  set (ixs := Recovery.t_indexes tb). set (recs := Recovery.t_records tb). pose proof (keyed_point _ _ _ _ (td_keyed _ Htd) Hr) as Hpt. fold ixs in Hpt.
  set (ixs1 := at_keys ix_del (old_keys old new ixs) ixs).
  assert (remove_entries (old_keys old new ixs) tb = (Ok tt, with_data recs ixs1 tb)) as Hrem.
  { apply remove_entries_ok; [apply old_keys_nodup|]. eapply entry_weaken; [|by apply old_keys_point]. done. }
  rewrite (bind_ok _ _ _ _ _ (on_table_run _ _ _ _ _ _ Htb Hrem)).
  rewrite (bind_ok _ _ _ _ _ (attempt_ok _ _ _ (upd_run _ _ s _ _ _ (run_update_record r new old tb Htd Hr recs ixs1 ltac:(by eexists))))).
  destruct (index_insert_loop r (new_keys old new ixs) [] (with_data (<[r := new]> recs) ixs1 tb) (new_keys_nodup _ _ _) (new_keys_valid _ _ _)) as (ins & e & Hins & Ha & He).
  simpl in Hins, Ha. rewrite (bind_ok _ _ _ _ _ (upd_run tab _ s _ _ _ Hins)). simpl. destruct He as [[-> ->]|(-> & i & k & rest' & Hsplit & Hn)].
  - left. destruct (update_keys old new r ixs Hpt Ha) as [Hupd Hfree]. split; [|done]. erewrite append_run by done. do 2 f_equal. f_equal. rewrite <-Hupd. done.
  - right. split; [|intros Hfree; apply Hn, (new_keys_free _ _ _ _ _ Hfree); rewrite Hsplit; apply elem_of_app; right; by left]. cbn [rethrow]. assert (NoDup ins.*1) as Hnd.
    { pose proof (new_keys_nodup old new ixs) as H. rewrite Hsplit, fmap_app in H. by apply NoDup_app in H as [? _]. }
    assert (remove_entries ins (Recovery.with_indexes (at_keys (ix_add r) ins ixs1) (with_data (<[r := new]> recs) ixs1 tb)) = (Ok tt, with_data (<[r := new]> recs) ixs1 tb)) as Hback.
    { transitivity (Ok tt, with_data (<[r := new]> recs) (at_keys ix_del ins (at_keys (ix_add r) ins ixs1)) tb); [apply remove_entries_ok; [done|]; by eapply (entry_at_keys _ (λ o, o = None))|].
      rewrite (at_keys_inverse _ _ (λ o, o = None)); try done. intros k' ix Hk'. by apply ix_del_add. }
    rewrite (bind_ok _ _ _ tt (upd_table tab tb s)).
    + rewrite upd_same by done. by rewrite (bind_ok _ _ _ tt s).
    + rewrite (bind_ok _ _ _ _ _ (upd_run tab _ s _ _ _ Hback)).
      rewrite (bind_ok _ _ _ _ _ (upd_run tab _ s _ _ _ (run_update_record r old old tb Htd Hr (<[r := new]> recs) ixs1 ltac:(rewrite lookup_insert_eq; by eexists)))).
      rewrite insert_insert_eq, insert_id by done. erewrite upd_run; [done|]. etransitivity; [apply restore_entries_ok; [apply old_keys_nodup|]|].
      * eapply (entry_at_keys _ (λ o, o = Some r)); [apply old_keys_nodup| |by apply old_keys_point]. intros k' ix _. simpl. apply lookup_delete_eq.
      * simpl. unfold ixs1. rewrite (at_keys_inverse _ _ (λ o, o = Some r)); [by destruct tb|apply old_keys_nodup| |by apply old_keys_point]. intros k' ix Hk'. by apply ix_add_del.
Qed.

Lemma update_row_undoable tab t base m scs conds r s : undoable t base s → meta tab s → undoable t base (update_row std_hash os_fd tab t m scs conds r s).2.
Proof.
  intros Hu Hm. destruct (pl_txn _ _ (ud_plain _ _ _ Hu)) as (x & Hx & _). destruct (plain_flags _ _ _ (ud_plain _ _ _ Hu) Hx) as [F1 F2].
  unfold update_row. rewrite (bind_ok _ _ s x s) by (unfold txn_of; by rewrite Hx). rewrite (bind_ok _ _ s s s) by done. cbv zeta. rewrite F1, F2. simpl negb.
  apply row_prefix; [done..|]. clear s Hu Hm x Hx F1 F2. intros s tb old Hu Hm Htb Hr. destruct (eval_conds old (tm_cols m) conds); simpl; [|done].
  apply (quiet_then t base); [apply quietly_lift|done|]. intros new s1 Hnew _ _. unfold lift in Hnew. injection Hnew as _ <-. rewrite (bind_ok _ _ s tt s) by done.
  apply (row_logged t base tab r old s tb _ (λ fd, update_tail tab t r old new (mk_WriteRecord UPDATE_TUPLE tab fd r old))); [done..|]. clear s tb Hu Hm Htb Hr.
  intros s tb fd Hu Hm Htb Htd Hr Hfd. destruct (undoable_writes _ _ _ Hu) as [ws Hws].
  destruct (run_update tab t r old new (mk_WriteRecord UPDATE_TUPLE tab fd r old) tb s) as [[-> Hfree]|[-> _]]; try done. simpl.
  destruct (td_place _ Htd _ _ Hr) as [Hp Hsl]. pose proof (keyed_point _ _ _ _ (td_keyed _ Htd) Hr) as Hpt. apply undoable_change; try done.
  - destruct Htd as [T1 T2 T3 T4]. split; [by apply all_keyed_upd| |done|done]. simpl. intros r' v [[<- <-]|[_ Hr']]%lookup_insert_Some; [done|by eapply T2].
  - unfold undo_write. simpl. rewrite lookup_insert_eq. simpl. rewrite lookup_insert_eq. simpl. rewrite !insert_insert_eq, (insert_id (Recovery.t_records tb) r old) by done.
    rewrite undo_upd by done. rewrite insert_id; [done|]. by apply data_lookup.
Qed.

(** *** Inserting *)

(** The states between the physical insert and its end. *)
Record inserting t tab (d : Data) (o : gmap (Z * Rid) Z) (ws : list WriteRecord) s s' : Prop := mk_inserting {
  in_rest : rest t s' = rest t s;
  in_known : known t s → known t s';
  in_grows : grows s s';
  in_data : data_of s' = <[tab := d]> (data_of s);
  in_owners : owners_of s' = o;
  in_writes : writes_of t s' = Some ws
}.

Lemma inserting_quiet t tab d o ws s s1 s2 : inserting t tab d o ws s s1 → quiet t s1 s2 → inserting t tab d o ws s s2.
Proof. intros [] []. split; try congruence; [auto|by eapply grows_trans]. Qed.

Lemma inserting_table t tab d o ws s s1 : inserting t tab d o ws s s1 → ∃ tb, fhs_ (sys s1) !! tab = Some tb ∧ data tb = d.
Proof.
  intros [_ _ _ Hd _ _]. assert (data_of s1 !! tab = Some d) as H by (rewrite Hd; apply lookup_insert_eq). unfold data_of in H. rewrite lookup_fmap in H.
  destruct (fhs_ (sys s1) !! tab) as [tb|]; [|done]. exists tb. split; [done|]. simpl in H. congruence.
Qed.

Lemma inserting_upd t tab d o ws s s1 tb1 tb2 : inserting t tab d o ws s s1 → fhs_ (sys s1) !! tab = Some tb1 → same_size tb1 tb2 →
  inserting t tab (data tb2) o ws s (upd_table tab tb2 s1).
Proof.
  intros [H1 H2 H3 H4 H5 H6] Htb Hz. split; try done.
  - eapply grows_trans; [done|]. by eapply grows_upd.
  - by rewrite data_upd, H4, insert_insert_eq.
Qed.

Lemma inserting_owners t tab d o o' ws s s1 : inserting t tab d o ws s s1 → inserting t tab d o' ws s (set_owners o' s1).
Proof. intros [H1 H2 H3 H4 H5 H6]. by split. Qed.

Context `{!FreeSlots free_slot}.

Lemma tidy_unused tb : tidy tb → Recovery.t_records tb !! free_slot tb = None.
Proof. intros [_ Hp _ _]. apply free_slot_unused. intros r v Hr. by apply (Hp r v). Qed.

Lemma run_insert_record rec tb : tidy tb → ∃ tb', insert_record free_slot rec tb = (Ok (free_slot tb), tb') ∧ same_size tb tb' ∧
  data tb' = (<[free_slot tb := rec]> (Recovery.t_records tb), Recovery.t_indexes tb) ∧
  Recovery.page_ok (page_no (free_slot tb)) tb' = true ∧ Recovery.slot_ok (slot_no (free_slot tb)) tb' = true.
Proof.
  intros Htd. pose proof (tidy_unused tb Htd) as Hn. destruct Htd as [_ _ Hpg Hsl]. pose proof (free_slot_page tb Hpg) as Hp. pose proof (free_slot_slot tb Hsl) as Hs.
  unfold insert_record, get. unfold mbind at 1, M_bind at 1. set (r := free_slot tb) in *. cbv zeta.
  set (tb1 := if decide (page_no r = Recovery.t_pages tb) then (Recovery.create_new_page tb).2 else tb).
  assert (same_size tb tb1 ∧ data tb1 = data tb ∧ Recovery.page_ok (page_no r) tb1 = true) as (Hz & Hd & Hpok).
  { unfold tb1. case_decide as E; simpl; (split_and!; [split; simpl; lia|done|]); unfold Recovery.page_ok; apply bool_decide_eq_true; simpl; lia. }
  rewrite (bind_ok _ _ _ tt tb1) by (unfold tb1; by case_decide). injection Hd as E1 E2. pose proof (slot_ok_mono _ _ _ Hz Hs) as Hs1.
  exists (Recovery.with_records (<[r := rec]> (Recovery.t_records tb1)) tb1). split_and!; [|done|unfold data; simpl; by rewrite E1, E2|done|done].
  unfold Recovery.insert_record_at, get, mbind, M_bind. rewrite Hpok, Hs1. simpl. unfold Recovery.is_record. by rewrite E1, Hn.
Qed.

Lemma unfinished_run t s : known t s → ∃ b, unfinished t s = (Ok b, s).
Proof.
  intros [y Hy]. unfold unfinished, on_locks, Lm.txn_of, deref, mbind, M_bind. rewrite Hy. simpl. eexists. f_equal. by destruct s as [? ? ? ? ? ? ? ? ? []].
Qed.

(** The [catch] of an insert takes the entries, the record and its owner back. *)
Lemma insert_failed_ok t tab fd r rec recs ixs ins o ws s s1 w e :
  inserting t tab (<[r := rec]> recs, at_keys (ix_add r) ins ixs) (<[(fd, r) := t]> o) ws s s1 → known t s → placed s1 w → wtab_name_ w = tab → wrid_ w = r →
  NoDup ins.*1 → absent ins ixs → recs !! r = None →
  ∃ s2, insert_failed std_hash os_fd tab t false fd r ins e s1 = (Err e, s2) ∧ inserting t tab (recs, ixs) (delete (fd, r) o) ws s s2 ∧ grows s1 s2 ∧
    locks (sys s2) = locks (sys s1) ∧ log (sys s2) = log (sys s1).
Proof.
  intros Hin Hk (tb & Htb & Hp & _) Hwt Hwr Hnd Ha Hr. rewrite Hwt in Htb. rewrite Hwr in Hp.
  destruct (inserting_table _ _ _ _ _ _ _ Hin) as (tb' & Htb' & Hd). assert (tb' = tb) as -> by congruence. injection Hd as E1 E2.
  assert (remove_entries ins tb = (Ok tt, Recovery.with_indexes ixs tb)) as Hrem.
  { rewrite remove_entries_ok; [|done|rewrite E2; by eapply (entry_at_keys _ (λ o, o = None))]. rewrite E2, (at_keys_inverse _ _ (λ o, o = None)); try done.
    intros k ix. apply ix_del_add. }
  unfold insert_failed. rewrite (bind_ok _ _ _ _ _ (on_table_run _ _ _ _ _ _ Htb Hrem)). set (tb1 := Recovery.with_indexes ixs tb). set (s2 := upd_table tab tb1 s1).
  assert (inserting t tab (<[r := rec]> recs, ixs) (<[(fd, r) := t]> o) ws s s2) as Hin2.
  { pose proof (inserting_upd _ _ _ _ _ _ _ tb tb1 Hin Htb) as H. unfold data in H. simpl in H. rewrite E1 in H. by apply H. }
  rewrite (bind_ok _ _ s2 true s2).
  2:{ unfold OwnsPhysicalInsert_fd, get, mbind, M_bind. change (physical_insert_owners_ s2) with (owners_of s2). rewrite (in_owners _ _ _ _ _ _ _ Hin2), lookup_insert_eq. by rewrite bool_decide_eq_true_2. }
  rewrite (bind_ok _ _ s2 true s2).
  2:{ unfold table_is_record. rewrite (get_keys_run tab tb1 s2) by apply upd_lookup. do 2 f_equal. unfold Recovery.is_record. simpl. rewrite E1, lookup_insert_eq. by apply bool_decide_eq_true_2. }
  simpl andb. cbv iota. assert (Recovery.delete_record r tb1 = (Ok tt, Recovery.with_records recs tb1)) as Hdel.
  { unfold Recovery.delete_record, get, mbind, M_bind. change (Recovery.page_ok (page_no r) tb1) with (Recovery.page_ok (page_no r) tb). rewrite Hp. unfold Recovery.is_record. simpl.
    rewrite E1, lookup_insert_eq, bool_decide_eq_true_2 by by eexists. simpl. by rewrite delete_insert_id. }
  rewrite (bind_ok _ _ _ _ _ (on_table_run _ _ _ _ _ _ (upd_lookup tab tb1 s1) Hdel)). set (s3 := upd_table tab _ _).
  assert (inserting t tab (recs, ixs) (<[(fd, r) := t]> o) ws s s3) as Hin3 by exact (inserting_upd _ _ _ _ _ _ _ tb1 (Recovery.with_records recs tb1) Hin2 (upd_lookup tab tb1 s1) ltac:(done)).
  rewrite (bind_ok _ _ s3 tt (set_owners (delete (fd, r) o) s3)).
  2:{ unfold UnregisterPhysicalInsert_fd, modify. change (physical_insert_owners_ s3) with (owners_of s3). rewrite (in_owners _ _ _ _ _ _ _ Hin3), lookup_insert_eq, decide_True by done.
      by rewrite delete_insert_eq. }
  set (s4 := set_owners (delete (fd, r) o) s3). assert (inserting t tab (recs, ixs) (delete (fd, r) o) ws s s4) as Hin4 by by eapply inserting_owners.
  destruct (unfinished_run t s4 (in_known _ _ _ _ _ _ _ Hin4 Hk)) as [b Hb]. rewrite (bind_ok _ _ _ _ _ Hb). simpl. rewrite (bind_ok _ _ s4 tt s4) by done. exists s4. split_and!; [done|done| |done|done].
  assert (grows s1 s2) as G1 by by eapply grows_upd. assert (grows s2 s3) as G2 by (eapply grows_upd; [apply upd_lookup|done]). by eapply grows_trans.
Qed.

Lemma quietly_attempt t m : quietly t m → quietly t (attempt m).
Proof. intros Hm. apply quietly_try; [apply quietly_bind; [done|intros; apply quietly_ret]|intros; apply quietly_ret]. Qed.

Lemma attempt_total m s : ∃ e, attempt m s = (Ok e, (attempt m s).2).
Proof. unfold attempt, try_catch. destruct ((m;; mret None) s) as [[?|?] ?]; by eexists. Qed.

(** An insert that is complete, and one that is taken back. *)
Lemma inserted_undoable t base tab tb fd r rec w ws s s' :
  undoable t base s → writes_of t s = Some ws → fhs_ (sys s) !! tab = Some tb → fds_ (sys s) !! tab = Some fd → Recovery.t_records tb !! r = None → owners_of s !! (fd, r) = None →
  w = mk_WriteRecord INSERT_TUPLE tab fd r rec → placed s' w → keys_free rec (Recovery.t_indexes tb) →
  inserting t tab (<[r := rec]> (Recovery.t_records tb), all_add rec r (Recovery.t_indexes tb)) (<[(fd, r) := t]> (owners_of s)) (ws ++ [w]) s s' → undoable t base s'.
Proof.
  intros Hu Hws Htb Hfd Hr Ho -> Hpl Hfree Hin. destruct (inserting_table _ _ _ _ _ _ _ Hin) as (tb' & Htb' & Hd). destruct Hin as [I1 I2 I3 I4 I5 I6].
  pose proof (ud_tidy _ _ _ Hu _ _ Htb) as [T1 T2 T3 T4]. destruct (I3 _ _ Htb) as (tb2 & Htb2 & Hz). assert (tb2 = tb') as -> by congruence.
  destruct Hpl as (tb3 & Htb3 & Hp & Hs & Hf & Hm). simpl in Htb3, Hp, Hs. assert (tb3 = tb') as -> by congruence. pose proof Hd as [= E1 E2].
  eapply (undoable_write t base s s' tab tb'); try done; [by rewrite Hd| | |].
  - split; [rewrite E1, E2; by apply all_keyed_add| |destruct Hz; lia|destruct Hz as [_ ->]; done]. rewrite E1. intros r' v [[<- <-]|[_ Hr']]%lookup_insert_Some; [done|].
    destruct (T2 _ _ Hr'). split; [by eapply page_ok_mono|by eapply slot_ok_mono].
  - by exists tb'.
  - assert (fds_ (sys s') !! tab = Some fd) as Hfd' by (unfold rest in I1; congruence). unfold undo_write, state_of. simpl. rewrite I4, I5, lookup_insert_eq. simpl. rewrite Hfd'. simpl.
    rewrite lookup_insert_eq, decide_True, lookup_insert_eq by done. simpl. rewrite insert_insert_eq, undo_add, !delete_insert_id by done. rewrite insert_id; [done|]. by apply data_lookup.
Qed.

Lemma not_inserted_undoable t base tab tb fd r rec w ws s s' :
  undoable t base s → writes_of t s = Some ws → fhs_ (sys s) !! tab = Some tb → fds_ (sys s) !! tab = Some fd → owners_of s !! (fd, r) = None →
  w = mk_WriteRecord INSERT_TUPLE tab fd r rec → placed s' w →
  inserting t tab (data tb) (owners_of s) (ws ++ [w]) s s' → undoable t base s'.
Proof.
  intros Hu Hws Htb Hfd Ho -> Hpl Hin. destruct (inserting_table _ _ _ _ _ _ _ Hin) as (tb' & Htb' & Hd). destruct Hin as [I1 I2 I3 I4 I5 I6].
  destruct (I3 _ _ Htb) as (tb2 & Htb2 & Hz). assert (tb2 = tb') as -> by congruence.
  eapply (undoable_write t base s s' tab tb'); try done; [by rewrite Hd| |].
  - by eapply (tidy_mono tb), (ud_tidy _ _ _ Hu).
  - assert (fds_ (sys s') !! tab = Some fd) as Hfd' by (unfold rest in I1; congruence). unfold undo_write, state_of. simpl. rewrite I4, I5, lookup_insert_eq. simpl. rewrite Hfd'. simpl.
    rewrite decide_False by (rewrite Ho; done). rewrite insert_id; [done|]. by apply data_lookup.
Qed.

Definition insert_tail tab t fd r rec : M TransactionManager unit :=
  keys ← on_table tab (tb ← get; mret (index_keys rec (Recovery.t_indexes tb)));
  locked ← attempt (lock_row std_hash tab t true r);
  p ← (match locked with Some e => mret ([], Some e) | None => on_table tab (insert_entries r keys []) end);
  match p.2 with
  | Some e => insert_failed std_hash os_fd tab t false fd r p.1 e
  | None => log_change os_fd tab t r (insert_log tab t rec r)
  end.

Lemma insert_tail_undoable t base tab tb fd r rec w ws s s1 :
  undoable t base s → writes_of t s = Some ws → fhs_ (sys s) !! tab = Some tb → fds_ (sys s) !! tab = Some fd → Recovery.t_records tb !! r = None → owners_of s !! (fd, r) = None →
  w = mk_WriteRecord INSERT_TUPLE tab fd r rec → placed s1 w →
  inserting t tab (<[r := rec]> (Recovery.t_records tb), Recovery.t_indexes tb) (<[(fd, r) := t]> (owners_of s)) (ws ++ [w]) s s1 →
  undoable t base (insert_tail tab t fd r rec s1).2.
Proof.
  intros Hu Hws Htb Hfd Hr Ho Ew Hpl Hin. pose proof (pl_known _ _ (ud_plain _ _ _ Hu)) as Hk. set (ixs := Recovery.t_indexes tb) in *. set (recs := Recovery.t_records tb) in *.
  destruct (inserting_table _ _ _ _ _ _ _ Hin) as (tb1 & Htb1 & Hd1). unfold insert_tail. rewrite (bind_ok _ _ _ _ _ (get_keys_run tab tb1 s1 _ Htb1)). injection Hd1 as _ ->.
  pose proof (quietly_attempt t _ (quietly_lock_row tab t true r) s1) as Q. destruct (attempt_total (lock_row std_hash tab t true r) s1) as [e He]. rewrite (bind_ok _ _ _ _ _ He). set (s2 := (attempt _ s1).2) in *. pose proof (inserting_quiet _ _ _ _ _ _ _ _ Hin Q) as Hin2.
  assert (placed s2 w) as Hpl2 by (eapply placed_grows; [apply Q|apply Q|done]). destruct (inserting_table _ _ _ _ _ _ _ Hin2) as (tb2 & Htb2 & [= E1 E2]).
  assert (∀ ins e s3, inserting t tab (<[r := rec]> recs, at_keys (ix_add r) ins ixs) (<[(fd, r) := t]> (owners_of s)) (ws ++ [w]) s s3 → placed s3 w → NoDup ins.*1 → absent ins ixs →
    undoable t base (insert_failed std_hash os_fd tab t false fd r ins e s3).2) as Hfail.
  { intros ins e' s3 Hin3 Hpl3 Hnd Ha. edestruct (insert_failed_ok t tab fd r rec recs ixs ins) as (s4 & -> & Hin4 & Hg4 & _); [done|done|exact Hpl3|by rewrite Ew|by rewrite Ew|done..|]. simpl. rewrite delete_id in Hin4 by done.
    eapply not_inserted_undoable; [done..| |done]. eapply (placed_grows t s3); [done| |done]. by rewrite (in_rest _ _ _ _ _ _ _ Hin4), (in_rest _ _ _ _ _ _ _ Hin3). }
  destruct e as [e|].
  - rewrite (bind_ok _ _ s2 ([], Some e) s2) by done. simpl. apply Hfail; [done|done|constructor|by intros ? ? ?%elem_of_nil].
  - destruct (index_insert_loop r (index_keys rec ixs) [] tb2 (index_keys_nodup _ _)) as (ins & e & Hins & Ha & He'); [rewrite E2; by apply index_keys_is|]. rewrite E2 in Hins, Ha.
    rewrite (bind_ok _ _ _ _ _ (on_table_run _ _ _ _ _ _ Htb2 Hins)). simpl. set (s3 := upd_table tab _ s2).
    assert (inserting t tab (<[r := rec]> recs, at_keys (ix_add r) ins ixs) (<[(fd, r) := t]> (owners_of s)) (ws ++ [w]) s s3) as Hin3.
    { pose proof (inserting_upd _ _ _ _ _ _ _ tb2 (Recovery.with_indexes (at_keys (ix_add r) ins ixs) tb2) Hin2 Htb2) as H. unfold data in H. simpl in H. rewrite E1 in H. by apply H. }
    assert (placed s3 w) as Hpl3. { eapply (placed_grows t s2); [by eapply grows_upd|done|done]. }
    destruct He' as [[-> ->]|(-> & i & k & rest' & Hsplit & _)].
    + eapply quiet_undoable; [apply quietly_log_change|]. rewrite at_index_keys in Hin3. eapply inserted_undoable; [done..| |done]. exact (proj2 (index_keys_is (λ o, o = None) rec ixs) Ha).
    + apply Hfail; [done..| |done]. pose proof (index_keys_nodup rec ixs) as H. rewrite Hsplit, fmap_app in H. by apply NoDup_app in H as [? _].
Qed.

Lemma insert_Next_undoable tab t base m values s : undoable t base s → meta tab s →
  (∀ fd tb, fds_ (sys s) !! tab = Some fd → fhs_ (sys s) !! tab = Some tb → owners_of s !! (fd, free_slot tb) = None) →
  undoable t base (insert_Next std_hash os_fd free_slot tab t m values s).2.
Proof.
  intros Hu Hm Hfree. unfold insert_Next. destruct (make_record (tm_cols m) values) as [rec|e] eqn:Erec; [|done]. rewrite (bind_ok _ _ s rec s) by done.
  destruct (pl_txn _ _ (ud_plain _ _ _ Hu)) as (x & Hx & _). destruct (plain_flags _ _ _ (ud_plain _ _ _ Hu) Hx) as [F1 F2].
  rewrite (bind_ok _ _ s x s) by (unfold txn_of; by rewrite Hx). rewrite (bind_ok _ _ s s s) by done. cbv zeta. rewrite F1, F2. simpl negb. cbv iota.
  destruct (fds_ (sys s) !! tab) as [fd|] eqn:Hfd; [|unfold fd_of, mbind, M_bind; by rewrite Hfd]. rewrite (bind_ok _ _ s fd s) by (unfold fd_of; by rewrite Hfd).
  apply (quiet_then t base); [unfold Lm.lock_IX_on_table; eauto with quiet|done|]. intros [] s1 Hrun1 Q1 Hu1. destruct (quiet_catalogue _ _ _ Q1) as [Hf1 Ht1].
  assert (fhs_ (sys s1) = fhs_ (sys s)) as Hfh. { apply (f_equal snd) in Hrun1. simpl in Hrun1. rewrite <-Hrun1. unfold on_locks, mbind, M_bind. by destruct (Lm.lock_IX_on_table _ _ _ _) as [[?|?] ?]. }
  rewrite (bind_ok _ _ s1 tt s1) by done. destruct (fhs_ (sys s1) !! tab) as [tb|] eqn:Htb; [|by rewrite (bind_err _ _ _ _ _ (on_table_none _ _ _ Htb))].
  pose proof (ud_tidy _ _ _ Hu1 _ _ Htb) as Htd. destruct (run_insert_record rec tb Htd) as (tb2 & Hins & Hz & Hd & Hp & Hs). set (r := free_slot tb) in *.
  rewrite (bind_ok _ _ _ _ _ (on_table_run _ _ _ _ _ _ Htb Hins)). destruct (undoable_writes _ _ _ Hu1) as [ws Hws].
  set (s2 := set_owners (<[(fd, r) := t]> (owners_of s1)) (upd_table tab tb2 s1)). rewrite (bind_ok _ _ _ tt s2) by done.
  set (w := mk_WriteRecord INSERT_TUPLE tab fd r rec). rewrite (bind_ok _ _ _ _ _ (append_run t w s2 ws Hws)). destruct (add_write_facts t w s2 ws Hws) as (A1 & A2 & A3 & A4 & A5).
  assert (grows s1 (add_write t w s2)) as Hg. { intros tab0 tb0 H0. rewrite A3. by apply (grows_upd tab tb tb2 s1 Htb Hz). }
  apply (insert_tail_undoable t base tab tb fd r rec w ws s1); try done.
  - by rewrite Hf1.
  - by apply tidy_unused.
  - rewrite (qt_owners _ _ _ Q1). apply Hfree; [done|by rewrite <-Hfh].
  - exists tb2. rewrite A3. split_and!; [apply lookup_insert_eq|done|done| |]; simpl; [by rewrite Hf1, Hfd|by rewrite Ht1].
  - split; try done; [unfold known; by rewrite A3|rewrite A1]. etransitivity; [apply data_upd|]. by rewrite Hd.
Qed.

(** ** Statements *)

Lemma rows_undoable t base tab (f : Rid → M TransactionManager unit) : (∀ r s, undoable t base s → meta tab s → undoable t base (f r s).2) →
  ∀ rids s, undoable t base s → meta tab s → undoable t base (mfor f rids s).2.
Proof.
  intros Hf. induction rids as [|r rids IH]; intros s Hu Hm; [done|]. simpl. unfold mbind, M_bind. pose proof (Hf r s Hu Hm) as Hu1.
  destruct (f r s) as [[[]|e] s1]; simpl in *; [|done]. apply IH; [done|]. by rewrite (ud_cat _ _ _ Hu1), <-(ud_cat _ _ _ Hu).
Qed.

(** The constructors look up the table. *)
Lemma constructor_undoable {A} t base tab (f : TabMeta → M TransactionManager A) s : undoable t base s →
  (∀ m, meta tab s → undoable t base (f m s).2) → undoable t base ((m ← get_table tab; f m) s).2.
Proof.
  intros Hu Hf. unfold mbind, M_bind, get_table. destruct (tabs_ (sys s) !! tab) as [m|] eqn:Em; [|done]. by apply Hf.
Qed.
Lemma touch_undoable {A} t base tab (k : M TransactionManager A) s : undoable t base s → undoable t base (k s).2 → undoable t base ((on_table tab (mret tt);; k) s).2.
Proof.
  intros Hu Hk. destruct (fhs_ (sys s) !! tab) as [tb|] eqn:Htb.
  - by rewrite (bind_ok _ _ _ _ _ (touch_run _ _ _ Htb)).
  - by rewrite (bind_err _ _ _ _ _ (on_table_none _ _ _ Htb)).
Qed.

(** The slot of the next insert into a table has no owner. *)
Definition fresh_insert (st : Stmt) s : Prop :=
  match st with
  | Insert tab _ =>
      match fds_ (sys s) !! tab, fhs_ (sys s) !! tab with
      | Some fd, Some tb => owners_of s !! (fd, free_slot tb) = None
      | _, _ => True
      end
  | _ => True
  end.

Lemma stmt_undoable t base st s : undoable t base s → fresh_insert st s → undoable t base (exec_stmt std_hash os_fd free_slot t st s).2.
Proof.
  intros Hu Hf. destruct st as [tab values|tab conds rids|tab scs conds rids]; simpl; (apply constructor_undoable; [done|]); intros m Hm.
  - case_decide; [done|]. apply touch_undoable; [done|]. apply insert_Next_undoable; [done..|]. intros fd tb Hfd Htb. unfold fresh_insert in Hf. by rewrite Hfd, Htb in Hf.
  - apply touch_undoable; [done|]. eapply rows_undoable; [|done..]. intros r s'. apply delete_row_undoable.
  - apply touch_undoable; [done|]. eapply rows_undoable; [|done..]. intros r s'. apply update_row_undoable.
Qed.

(** The statements of a transaction, up to the first that throws. *)
Definition run_stmts (t : Z) : list Stmt → M TransactionManager unit := mfor (exec_stmt std_hash os_fd free_slot t).

Fixpoint fresh_inserts (t : Z) (sts : list Stmt) s : Prop :=
  match sts with
  | [] => True
  | st :: sts => fresh_insert st s ∧
      match exec_stmt std_hash os_fd free_slot t st s with (Ok _, s') => fresh_inserts t sts s' | (Err _, _) => True end
  end.

Lemma stmts_undoable t base sts : ∀ s, undoable t base s → fresh_inserts t sts s → undoable t base (run_stmts t sts s).2.
Proof.
  induction sts as [|st sts IH]; intros s Hu Hf; [done|]. unfold run_stmts. simpl in *. destruct Hf as [H1 H2]. pose proof (stmt_undoable t base st s Hu H1) as Hu1.
  unfold mbind, M_bind. destruct (exec_stmt _ _ _ t st s) as [[a|e] s1]; simpl in *; [by apply IH|done].
Qed.

(** *** Abort *)

Lemma data_quiet {A} (m : M TransactionManager A) (Q : State → Prop) : (∀ s, state_of (m s).2 = state_of s) → ∀ s {B} (k : A → M TransactionManager B),
  Q (state_of s) → (∀ a s', Q (state_of s') → Q (state_of (k a s').2)) → Q (state_of (mbind k m s).2).
Proof.
  intros Hm s B k Hs Hk. specialize (Hm s). unfold mbind, M_bind. destruct (m s) as [[a|e] s']; simpl in *; [apply Hk|]; by rewrite Hm.
Qed.

Lemma locks_state {A} (m : M Lm.LockManager A) s : state_of (on_locks m s).2 = state_of s.
Proof. unfold on_locks. by destruct (m _). Qed.

Lemma log_end_state t mk s : state_of (log_end os_fd t mk s).2 = state_of s.
Proof.
  unfold log_end, txn_of, put_txn, modify, on_log. unfold mbind at 1, M_bind at 1. destruct (txns s !! t) as [x|]; [|done]. simpl.
  unfold mbind at 1, M_bind at 1. destruct (Log.add_log_to_buffer _ _ _) as [[lsn|e] l]; [|done]. simpl. unfold mbind, M_bind. by destruct (Log.flush_log_to_disk _ _ _).
Qed.

Lemma abort_restores t base s : undoable t base s → state_of (abort std_hash os_fd t s).2 = base.
Proof.
  intros [[(x & Hx & Hm & Hk) _ Hkn] _ _ (ws & Hws & Hpl & Hu)]. unfold abort. rewrite (bind_ok _ _ s x s) by (unfold txn_of; by rewrite Hx).
  rewrite decide_False by (rewrite Hm, Hk; naive_solver). unfold abort_plain. rewrite (bind_ok _ _ s x s) by (unfold txn_of; by rewrite Hx).
  assert (write_set_ x = ws) as Ews. { unfold writes_of in Hws. rewrite Hx in Hws. by injection Hws. }
  set (s1 := (put_txn t (set_write_set [] x) s).2). rewrite (bind_ok _ _ s tt s1) by done. rewrite Ews.
  destruct (rollback_all std_hash t (reverse ws) s1 base) as (s2 & Hrun & E2 & _); [done| |done|].
  { apply Forall_forall. intros w Hw. rewrite elem_of_reverse in Hw. rewrite Forall_forall in Hpl. by apply (Hpl w). }
  rewrite (bind_ok _ _ _ _ _ Hrun). apply (data_quiet _ (λ a, a = base)); [apply locks_state|done|]. intros _ s3 E3.
  apply (data_quiet _ (λ a, a = base)); [apply locks_state|done|]. intros _ s4 E4. case_decide; [|done]. by rewrite log_end_state.
Qed.

Lemma undoable_start t s : plain t s → tabs_ (sys s) = cat → map_Forall (λ _, tidy) (fhs_ (sys s)) → writes_of t s = Some [] → undoable t (state_of s) s.
Proof. intros H1 H2 H3 H4. split; [done..|]. exists []. by split_and!. Qed.
End statements.
End catalogue.
End DmlUndo.
