(* ===== verification/DmlRun.v ===== *)
(** * What statements do

    The meaning of INSERT, DELETE and UPDATE on the records of a table, and that the executors
    have exactly this effect, for a transaction without snapshot that no lock of another one is
    in the way of and whose log records fit the log buffer. *)

From S2P Require Import Prelude Disk RecordFile Log LogFacts Recovery Conditions LockManager LockFacts Mvcc Executor Aggregate Scans Dml DmlIndexes DmlFacts DmlUndo.

Module DmlRun.
Import RecFile Cond Mvcc Exec Agg Scans Dml DmlIndexes DmlFacts DmlUndo.

Implicit Types (s : TransactionManager) (tab : bytes) (r : Rid) (t : Z) (tb : Recovery.Table) (w : WriteRecord) (recs : gmap Rid record) (ixs : list Recovery.Index).

(** ** The meaning of statements *)

(** The columns of indexes, and the key of a record for them. *)
Abbreviation Shape := (list (list Recovery.IndexCol)).
Definition shape ixs : Shape := Recovery.cols <$> ixs.
Definition key_of (rec : record) (c : list Recovery.IndexCol) : bytes := key rec (Recovery.mk_Index c ∅).

(** No record other than the one at [r] has a key of [new]. *)
Definition unique (ics : Shape) recs r (new : record) : Prop := map_Forall (λ r' rec', r' = r ∨ Forall (λ c, key_of rec' c ≠ key_of new c) ics) recs.
#[global] Instance unique_dec ics recs r new : Decision (unique ics recs r new).
Proof. unfold unique. apply _. Defined.

Section meaning.
Context (ics : Shape) (cs : list ColMeta).

Definition put_record (r : Rid) (new : record) (recs : gmap Rid record) : res unit * gmap Rid record :=
  if decide (unique ics recs r new) then (Ok tt, <[r := new]> recs) else (Err RMDBError, recs).

(** INSERT, where the record is stored at [r]. *)
Definition mean_insert (values : list TValue) (r : Rid) : M (gmap Rid record) unit :=
  if decide (length values ≠ length cs) then throw InvalidValueCountError
  else rec ← lift (make_record cs values); put_record r rec.

Definition mean_delete_row (conds : list Condition) (r : Rid) : M (gmap Rid record) unit := λ recs,
  (Ok tt, match recs !! r with Some rec => if eval_conds rec cs conds then delete r recs else recs | None => recs end).

Definition mean_update_row (scs : list SetClause) (conds : list Condition) (r : Rid) : M (gmap Rid record) unit := λ recs,
  match recs !! r with
  | Some old => if eval_conds old cs conds then (new ← lift (updated_record cs scs old); put_record r new) recs else (Ok tt, recs)
  | None => (Ok tt, recs)
  end.

(** A statement on its table, with the slot of an inserted record. *)
Definition mean_stmt (slot : Rid) (st : Stmt) : M (gmap Rid record) unit :=
  match st with
  | Insert _ values => mean_insert values slot
  | Delete _ conds rids => mfor (mean_delete_row conds) rids
  | Update _ scs conds rids => mfor (mean_update_row scs conds) rids
  end.
End meaning.

Definition stmt_tab (st : Stmt) : bytes := match st with Insert tab _ | Delete tab _ _ | Update tab _ _ _ => tab end.

(** ** Locks *)

Section locks.
Context (std_hash : Z → Z) (t : Z).

(** Nobody else holds a lock. *)
Definition sole (l : Lm.LockManager) : Prop :=
  (∃ x, Lm.txns l !! t = Some x ∧ Lm.state_ x ≠ Lm.SHRINKING) ∧
  ∀ lid q req, Lm.queue_of std_hash lid l = Some q → req ∈ Lm.request_queue_ q → Lm.granted_ req = true → Lm.txn_id_ req = t.

Lemma sole_put lid q l : sole l → (∀ req, req ∈ Lm.request_queue_ q → Lm.granted_ req = true → Lm.txn_id_ req = t) → sole (Lm.put_queue std_hash lid (Some q) l).
Proof.
  intros [Hx Hl] Hq. split; [done|]. intros lid' q' req. rewrite LmFacts.queue_of_put. case_decide; [intros [= <-]; apply Hq|apply Hl].
Qed.

Lemma sole_remember lid l : sole l → ∃ l', (Lm.remember_lock t lid;; mret true) l = (Ok true, l') ∧ sole l'.
Proof.
  intros [(x & Hx & Hst) Hl]. unfold Lm.remember_lock, Lm.txn_of, modify, deref, mbind, M_bind. rewrite Hx. simpl. eexists. split; [done|]. split; [|exact Hl].
  eexists. simpl. by rewrite lookup_insert_eq.
Qed.

Lemma sole_lock lid mode l : sole l → ∃ l', Lm.lock std_hash t lid mode l = (Ok true, l') ∧ sole l'.
Proof.
  intros Hs. pose proof Hs as [(x & Hx & Hst) Hl]. unfold Lm.lock. rewrite (bind_ok _ _ l x l) by (unfold Lm.txn_of; by rewrite Hx). rewrite decide_False by done.
  rewrite (bind_ok _ _ l l l) by done. cbv zeta. set (q := default (Lm.mk_Queue [] Lm.NON_LOCK) (Lm.queue_of std_hash lid l)).
  assert (∀ req, req ∈ Lm.request_queue_ q → Lm.granted_ req = true → Lm.txn_id_ req = t) as Hq.
  { intros req. unfold q. destruct (Lm.queue_of std_hash lid l) as [q'|] eqn:Eq; [by apply (Hl lid)|by intros ?%elem_of_nil]. }
  assert (∀ f (k : unit → M Lm.LockManager bool), (modify f ≫= k) l = k tt (f l)) as Hmod by done.
  case_decide as En.
  - rewrite Hmod. apply sole_remember, sole_put; [done|]. by intros req [->|[]%elem_of_nil]%elem_of_cons.
  - assert (∀ m, existsb (Lm.blocks t m) (Lm.request_queue_ q) = false) as Hb.
    { intros m. apply not_true_iff_false. intros (req & Hin & Hb)%existsb_exists. apply list_elem_of_In in Hin. unfold Lm.blocks in Hb.
      apply andb_prop in Hb as [[Hg Hne]%andb_prop _]. apply bool_decide_eq_true_1 in Hne. by apply Hne, Hq. }
    destruct (list_find (Lm.owned t) (Lm.request_queue_ q)) as [[i req]|] eqn:Ef.
    + destruct (Lm.covers _ _); [by exists l|]. rewrite Hb, Hmod. eexists. split; [done|]. apply sole_put; [done|]. simpl.
      apply list_find_Some in Ef as (Hi & [Ht _] & _). intros req' (j & Hj)%list_elem_of_lookup_1 Hg. apply list_lookup_insert_Some in Hj as [(<- & <- & _)|[_ Hj]]; [done|].
      eapply Hq; [|done]. by eapply list_elem_of_lookup_2.
    + rewrite Hb, Hmod. apply sole_remember, sole_put; [done|]. simpl. intros req [Hin|[->|[]%elem_of_nil]%elem_of_cons]%elem_of_app Hg; [by apply Hq|done].
Qed.
End locks.

(** ** Log records *)

Definition room (n : Z) (m : Log.LogManager) : Prop := Log.size (Log.log_buffer_ m) + n ≤ LOG_BUFFER_SIZE.

Lemma add_log_ok os_fd rc m n : Log.log_tot_len_ rc = uint32 (24 + Log.size (Log.serialize_body (Log.body rc))) → 0 ≤ n →
  room (24 + Log.size (Log.serialize_body (Log.body rc)) + n) m → ∃ lsn m', Log.add_log_to_buffer os_fd rc m = (Ok lsn, m') ∧ room n m'.
Proof.
  intros Hlen Hn Hroom. pose proof (LogFacts.size_nonneg (Log.serialize_body (Log.body rc))) as Hb. pose proof (LogFacts.size_nonneg (Log.log_buffer_ m)) as Hm.
  unfold room in *. change LOG_BUFFER_SIZE with 4194304 in *. unfold wrapu in Hlen. change (2 ^ 32) with 4294967296 in Hlen. rewrite Z.mod_small in Hlen by lia.
  unfold Log.add_log_to_buffer. change LOG_BUFFER_SIZE with 4194304. rewrite decide_False by lia. rewrite (bind_ok _ _ m m m) by done. unfold Log.is_full. change LOG_BUFFER_SIZE with 4194304.
  rewrite bool_decide_eq_false_2 by lia. rewrite (bind_ok _ _ m tt m) by done. eexists _, _. split; [done|]. simpl. unfold Log.serialize.
  rewrite !LogFacts.size_app, LogFacts.size_header. simpl. lia.
Qed.

Section runs.
Context (std_hash : Z → Z) (os_fd : gmap Z string → Z) (free_slot : Recovery.Table → Rid).

Lemma log_change_run tab t r mk n s tb x : fhs_ (sys s) !! tab = Some tb → Recovery.page_ok (page_no r) tb = true → txns s !! t = Some x →
  (∀ prev, Log.log_tot_len_ (mk prev) = uint32 (24 + Log.size (Log.serialize_body (Log.body (mk prev))))) → 0 ≤ n →
  (∀ prev, room (24 + Log.size (Log.serialize_body (Log.body (mk prev))) + n) (log (sys s))) →
  ∃ s', log_change os_fd tab t r mk s = (Ok tt, s') ∧ room n (log (sys s')) ∧ locks (sys s') = locks (sys s).
Proof.
  intros Htb Hp Hx Hlen Hn Hroom. unfold log_change. rewrite (bind_ok _ _ s x s) by (unfold txn_of; by rewrite Hx).
  destruct (add_log_ok os_fd (mk (prev_lsn_ x)) (log (sys s)) n (Hlen _) Hn (Hroom _)) as (lsn & m & Hadd & Hm).
  unfold on_log, put_txn, modify. unfold mbind at 1, M_bind at 1. rewrite Hadd. unfold mbind at 1, M_bind at 1.
  unfold on_table, Recovery.at_table. simpl. rewrite Htb. unfold Recovery.set_page_lsn. case_decide; [by eexists|]. unfold get, mbind, M_bind. rewrite Hp. simpl. by eexists.
Qed.

(** ** Rows *)

(** The transaction can run: nothing is in its way, the log has room for [n] bytes. *)
Record ready t tab n s : Prop := mk_ready {
  rd_plain : plain t s;
  rd_tidy : map_Forall (λ _, tidy) (fhs_ (sys s));
  rd_sole : sole std_hash t (locks (sys s));
  rd_room : room n (log (sys s));
  rd_fd : is_Some (fds_ (sys s) !! tab)
}.

(** The table has these records, none longer than [L], and indexes on these columns. *)
Definition holds_records t tab (L n : Z) (ics : Shape) recs s : Prop :=
  ready t tab n s ∧ ∃ tb, fhs_ (sys s) !! tab = Some tb ∧ Recovery.t_records tb = recs ∧ shape (Recovery.t_indexes tb) = ics ∧ map_Forall (λ _ rec, Log.size rec ≤ L) recs.

(** Nothing else changes. *)
Definition others_same tab s s' : Prop := delete tab (data_of s') = delete tab (data_of s) ∧ fds_ (sys s') = fds_ (sys s) ∧ tabs_ (sys s') = tabs_ (sys s).

Lemma others_same_refl tab s : others_same tab s s.
Proof. done. Qed.
Lemma others_same_trans tab s1 s2 s3 : others_same tab s1 s2 → others_same tab s2 s3 → others_same tab s1 s3.
Proof. intros (? & ? & ?) (? & ? & ?). split_and!; congruence. Qed.

Lemma sole_known t s : sole std_hash t (locks (sys s)) → known t s.
Proof. intros [(x & Hx & _) _]. by exists x. Qed.

Lemma holds_mono t tab L n n' ics recs s : n' ≤ n → holds_records t tab L n ics recs s → holds_records t tab L n' ics recs s.
Proof. intros Hn [[H1 H2 H3 H4 H5] Htb]. split; [|done]. split; try done. unfold room in *. lia. Qed.

Lemma holds_quiet t tab L m n ics recs s s' : holds_records t tab L m ics recs s → quiet t s s' → sole std_hash t (locks (sys s')) → room n (log (sys s')) →
  holds_records t tab L n ics recs s' ∧ others_same tab s s'.
Proof.
  intros [[H1 H2 H3 H4 H5] (tb & Htb & Hr & Hs & HL)] Q Hsole Hroom. destruct (quiet_catalogue _ _ _ Q) as [Qf Qt]. destruct (quiet_table _ _ _ _ _ Q Htb) as (tb' & Htb' & [= E1 E2] & Hz).
  split; [|split_and!; [by rewrite (qt_data _ _ _ Q)|done|done]]. split.
  - split; [eapply plain_rest; [apply Q|apply Q|done]| |done|done|by rewrite Qf].
    eapply (tidy_step s s' tab (data tb)); [apply Q| |done| |done].
    + rewrite (qt_data _ _ _ Q). symmetry. apply insert_id. by apply data_lookup.
    + eapply (tidy_mono tb); [done|unfold data; congruence|by eapply H2].
  - exists tb'. split_and!; [done|congruence|congruence|done].
Qed.

Lemma lock_run t tab L n ics recs r s : holds_records t tab L n ics recs s →
  ∃ s1, lock_row std_hash tab t true r s = (Ok tt, s1) ∧ holds_records t tab L n ics recs s1 ∧ others_same tab s s1.
Proof.
  intros H. pose proof H as [[H1 H2 H3 H4 [fd Hfd]] _]. destruct (sole_lock std_hash t (Lm.record_lock fd r) Lm.EXLUCSIVE _ H3) as (l & Hl & Hs).
  assert (lock_row std_hash tab t true r s = (Ok tt, set_sys (mk_System (fhs_ (sys s)) (fds_ (sys s)) (tabs_ (sys s)) l (log (sys s))) s)) as Hrun.
  { unfold lock_row. rewrite (bind_ok _ _ s fd s) by (unfold fd_of; by rewrite Hfd). unfold on_locks, Lm.lock_exclusive_on_record, mbind, M_bind. by rewrite Hl. }
  eexists. split; [exact Hrun|]. eapply holds_quiet; [done| |done|done]. pose proof (quietly_lock_row std_hash tab t true r s) as Q. by rewrite Hrun in Q.
Qed.

Lemma current_run t tab L n ics recs r s : holds_records t tab L n ics recs s → current_record tab t r s = (Ok (recs !! r), s).
Proof.
  intros [[H1 _ _ _ _] (tb & Htb & <- & _)]. unfold current_record, try_catch, get. unfold mbind at 1, M_bind at 1. destruct (Recovery.t_records tb !! r) as [rec|] eqn:Er.
  - rewrite (bind_ok _ _ s rec s); [by rewrite (pl_mode _ _ H1)|]. rewrite (on_table_run tab _ _ _ (Ok rec) tb Htb); [by rewrite upd_same|].
    unfold Recovery.get_record, get, mbind, M_bind; by rewrite Er.
  - rewrite (bind_err _ _ s (RecordNotFoundError (page_no r) (slot_no r)) s); [done|].
    rewrite (on_table_run tab _ _ _ (Err (RecordNotFoundError (page_no r) (slot_no r))) tb Htb); [by rewrite upd_same|]. unfold Recovery.get_record, get, mbind, M_bind; by rewrite Er.
Qed.

(** A change of the table with its write record. *)
Lemma holds_change t tab L n ics recs recs' ixs' tb w s : holds_records t tab L n ics recs s → fhs_ (sys s) !! tab = Some tb → shape ixs' = shape (Recovery.t_indexes tb) →
  tidy (with_data recs' ixs' tb) → map_Forall (λ _ rec, Log.size rec ≤ L) recs' →
  let s' := add_write t w (upd_table tab (with_data recs' ixs' tb) s) in holds_records t tab L n ics recs' s' ∧ others_same tab s s'.
Proof.
  intros [[H1 H2 H3 H4 H5] (tb0 & Htb0 & Hr & Hs & HL)] Htb Hsh Htd HL'. assert (tb0 = tb) as -> by congruence. destruct (pl_txn _ _ H1) as (x & Hx & _).
  assert (writes_of t s = Some (write_set_ x)) as Hws by (unfold writes_of; by rewrite Hx).
  destruct (add_write_facts t w (upd_table tab (with_data recs' ixs' tb) s) _ Hws) as (A1 & A2 & A3 & A4 & A5). cbv zeta. set (s' := add_write _ _ _) in *. split.
  - split; [|exists (with_data recs' ixs' tb); rewrite A3; split_and!; [apply upd_lookup|done|by rewrite <-Hs|done]].
    split; [apply (plain_rest t s s' A5); [unfold known; by rewrite A3|done]| |by rewrite A3|by rewrite A3|by rewrite A3].
    eapply (tidy_step s s' tab); [|by rewrite A1, data_upd|by rewrite A3, upd_lookup|done|done]. intros tab0 tb0 H0. rewrite A3. by apply (upd_grows tab tb recs' ixs' s Htb).
  - split_and!; [|by rewrite A3|by rewrite A3]. rewrite A1, data_upd. apply delete_insert_eq.
Qed.

(** The room that the log record of a row needs at most. *)
Definition row_cost (L : Z) tab : Z := 48 + 2 * L + Log.size tab.

Lemma log_run t tab L n ics recs r mk tb s : holds_records t tab L (row_cost L tab + n) ics recs s → fhs_ (sys s) !! tab = Some tb → Recovery.page_ok (page_no r) tb = true → 0 ≤ n →
  (∀ prev, Log.log_tot_len_ (mk prev) = uint32 (24 + Log.size (Log.serialize_body (Log.body (mk prev)))) ∧ 24 + Log.size (Log.serialize_body (Log.body (mk prev))) ≤ row_cost L tab) →
  ∃ s1, log_change os_fd tab t r mk s = (Ok tt, s1) ∧ holds_records t tab L n ics recs s1 ∧ others_same tab s s1.
Proof.
  intros H Htb Hp Hn Hmk. pose proof H as [[H1 _ H3 H4 _] _]. destruct (pl_txn _ _ H1) as (x & Hx & _).
  destruct (log_change_run tab t r mk n s tb x Htb Hp Hx) as (s1 & Hrun & Hroom & Hlk); [apply Hmk|done| |].
  { intros prev. destruct (Hmk prev) as [_ Hle]. unfold room in *. lia. }
  exists s1. split; [done|]. eapply holds_quiet; [done| |by rewrite Hlk|done]. pose proof (quietly_log_change os_fd tab t r mk s) as Q. by rewrite Hrun in Q.
Qed.

Lemma one_value_size tab v r prev : Log.size (Log.serialize_body (Log.PDelete v r tab)) = 20 + Log.size v + Log.size tab ∧ Log.size (Log.serialize_body (Log.PInsert v r tab)) = 20 + Log.size v + Log.size tab ∧
  Log.size (Log.serialize_body (Log.PUpdate v prev r tab)) = 24 + Log.size v + Log.size prev + Log.size tab.
Proof.
  unfold Log.serialize_body. rewrite !LogFacts.size_app, !LogFacts.size_value, !LogFacts.size_rid, !LogFacts.size_name. lia.
Qed.

(** *** Deleting *)

Lemma plain_reads t s : plain t s → ∃ x, txns s !! t = Some x ∧ IsMvccTxn x = false ∧ ShouldVersionWrites x s = false.
Proof. intros H. destruct (pl_txn _ _ H) as (x & Hx & _). exists x. split; [done|]. by apply plain_flags with t. Qed.

Lemma shape_map (f : Recovery.Index → Recovery.Index) ixs : (∀ ix, Recovery.cols (f ix) = Recovery.cols ix) → shape (f <$> ixs) = shape ixs.
Proof. intros Hf. unfold shape. rewrite <-list_fmap_compose. apply list_fmap_ext. intros. apply Hf. Qed.

(** The lock and the read of a row; its log record. *)
Lemma row_start t tab L n ics recs r (f : record → M TransactionManager unit) s : holds_records t tab L n ics recs s →
  ∃ s1, (lock_row std_hash tab t true r;; o ← current_record tab t r; match o with None => mret tt | Some rec => f rec end) s =
      match recs !! r with None => (Ok tt, s1) | Some rec => f rec s1 end ∧ holds_records t tab L n ics recs s1 ∧ others_same tab s s1.
Proof.
  intros H. destruct (lock_run _ _ _ _ _ _ r _ H) as (s1 & Hlock & Hh1 & O1). exists s1. split; [|done].
  rewrite (bind_ok _ _ _ _ _ Hlock), (bind_ok _ _ _ _ _ (current_run _ _ _ _ _ _ r _ Hh1)). by destruct (recs !! r).
Qed.

Lemma row_log t tab L n ics recs r rec mk (f : Z → M TransactionManager unit) s : holds_records t tab L (row_cost L tab + n) ics recs s → recs !! r = Some rec → 0 ≤ n →
  (∀ prev, Log.log_tot_len_ (mk prev) = uint32 (24 + Log.size (Log.serialize_body (Log.body (mk prev)))) ∧ 24 + Log.size (Log.serialize_body (Log.body (mk prev))) ≤ row_cost L tab) →
  ∃ fd tb s1, (fd ← fd_of tab; log_change os_fd tab t r mk;; f fd) s = f fd s1 ∧ holds_records t tab L n ics recs s1 ∧ others_same tab s s1 ∧
    fhs_ (sys s1) !! tab = Some tb ∧ tidy tb ∧ Recovery.t_records tb = recs ∧ is_Some (writes_of t s1).
Proof.
  intros H Hr Hn Hmk. pose proof H as [[P1 P2 _ _ [fd Hfd]] (tb & Htb & Hrec & Hsh & Hlen)]. rewrite <-Hrec in Hr. destruct (td_place _ (P2 _ _ Htb) _ _ Hr) as [Hp _].
  destruct (log_run t tab L n ics recs r mk tb s H Htb Hp Hn Hmk) as (s2 & Hlog & Hh2 & O2). pose proof Hh2 as [[R1 R2 _ _ _] (tb2 & Htb2 & Hrec2 & _)].
  destruct (pl_txn _ _ R1) as (x2 & Hx2 & _). exists fd, tb2, s2. split_and!; try done; [|by eapply R2|unfold writes_of; by rewrite Hx2].
  rewrite (bind_ok _ _ s fd s) by (unfold fd_of; by rewrite Hfd). by rewrite (bind_ok _ _ _ _ _ Hlog).
Qed.

Lemma delete_row_run t tab L n ics recs m conds r s : holds_records t tab L (row_cost L tab + n) ics recs s → 0 ≤ n → 0 ≤ L →
  ∃ s', delete_row std_hash os_fd tab t m conds r s = ((mean_delete_row (tm_cols m) conds r recs).1, s') ∧
    holds_records t tab L n ics (mean_delete_row (tm_cols m) conds r recs).2 s' ∧ others_same tab s s'.
Proof.
  intros H Hn HL. pose proof H as [[H1 _ _ _ _] _]. destruct (plain_reads _ _ H1) as (x & Hx & F1 & F2). pose proof (LogFacts.size_nonneg tab) as Htn.
  unfold delete_row. rewrite (bind_ok _ _ s x s) by (unfold txn_of; by rewrite Hx). rewrite (bind_ok _ _ s s s) by done. cbv zeta. rewrite F1, F2. simpl negb.
  edestruct (row_start t tab L) as (s1 & Hrun & Hh1 & O1); [done|]. rewrite Hrun. clear Hrun. unfold mean_delete_row. simpl.
  assert (holds_records t tab L n ics recs s1) as Hdone by (eapply holds_mono; [|done]; unfold row_cost; lia).
  destruct (recs !! r) as [rec|] eqn:Er; [|by exists s1]. destruct (eval_conds rec (tm_cols m) conds); simpl; [|by exists s1]. rewrite (bind_ok _ _ s1 tt s1) by done.
  pose proof Hh1 as [_ (_ & _ & _ & _ & Hlen)]. pose proof (Hlen _ _ Er) as Hsz. simpl in Hsz.
  edestruct (row_log t tab L n ics recs r rec (λ prev, Log.DeleteLogRecord t prev rec r tab) (λ fd, delete_tail std_hash os_fd tab t r rec (mk_WriteRecord DELETE_TUPLE tab fd r rec)) s1 Hh1 Er Hn) as (fd & tb & s2 & Hrun & Hh2 & O2 & Htb & Htd & Hrec & Hw).
  { intros prev. unfold Log.DeleteLogRecord. cbn [Log.body Log.log_tot_len_]. destruct (one_value_size tab rec r rec) as (-> & _). unfold row_cost, Log.LOG_HEADER_SIZE.
    pose proof (LogFacts.size_nonneg rec). split; [f_equal; lia|lia]. }
  rewrite <-Hrec in Er. pose proof (run_delete std_hash os_fd tab t r rec (mk_WriteRecord DELETE_TUPLE tab fd r rec) tb s2 Htb Htd Er Hw) as Hend. rewrite Hrec in Er, Hend.
  eexists. split; [exact (eq_trans Hrun Hend)|]. edestruct (holds_change t tab L n ics recs (delete r recs)) as [Hh3 O3]; [exact Hh2|exact Htb| | | |split; [exact Hh3|]].
  - by apply shape_map.
  - rewrite <-Hrec in *. destruct Htd as [T1 T2 T3 T4]. split; [by apply all_keyed_del| |done|done]. simpl. intros r' v [_ Hr']%lookup_delete_Some. by eapply T2.
  - by apply map_Forall_delete.
  - eapply others_same_trans; [done|]. by eapply others_same_trans.
Qed.

(** *** Updating *)

Lemma unique_update ixs recs r old new : Forall (keyed recs) ixs → recs !! r = Some old → unique (shape ixs) recs r new ↔ keys_free new (all_del old ixs).
Proof.
  intros Hk Hr. rewrite Forall_forall in Hk. split.
  - intros Hu ix' (ix & -> & Hix)%list_elem_of_fmap. apply eq_None_not_Some. intros [r' Hr']. simpl in Hr'. apply lookup_delete_Some in Hr' as [Hne Hr'].
    apply (Hk _ Hix) in Hr' as (rec' & Hrec' & E). destruct (Hu _ _ Hrec') as [->|Hf].
    + rewrite Hr in Hrec'. injection Hrec' as <-. by apply Hne.
    + rewrite Forall_forall in Hf. apply (Hf (Recovery.cols ix)); [|done]. apply list_elem_of_fmap. by exists ix.
  - intros Hf r' rec' Hrec'. destruct (decide (r' = r)) as [->|Hne]; [by left|right]. apply Forall_forall. intros c (ix & -> & Hix)%list_elem_of_fmap E.
    change (key rec' ix = key new ix) in E. assert (Recovery.entries ix !! key new ix = Some r') as H1 by (apply (Hk _ Hix); eauto).
    assert (Recovery.entries ix !! key old ix = Some r) as H2 by (apply (Hk _ Hix); eauto).
    specialize (Hf (ix_del (key old ix) ix) ltac:(apply list_elem_of_fmap; eauto)). change (delete (key old ix) (Recovery.entries ix) !! key new ix = None) in Hf.
    destruct (decide (key old ix = key new ix)) as [E2|E2]; [congruence|]. rewrite lookup_delete_ne in Hf by done. congruence.
Qed.

Lemma unique_insert ixs recs r new : Forall (keyed recs) ixs → recs !! r = None → unique (shape ixs) recs r new ↔ keys_free new ixs.
Proof.
  intros Hk Hr. rewrite Forall_forall in Hk. split.
  - intros Hu ix Hix. apply eq_None_not_Some. intros [r' Hr']. apply (Hk _ Hix) in Hr' as (rec' & Hrec' & E). destruct (Hu _ _ Hrec') as [->|Hf]; [congruence|].
    rewrite Forall_forall in Hf. apply (Hf (Recovery.cols ix)); [|done]. apply list_elem_of_fmap. by exists ix.
  - intros Hf r' rec' Hrec'. right. apply Forall_forall. intros c (ix & -> & Hix)%list_elem_of_fmap E. change (key rec' ix = key new ix) in E.
    assert (Recovery.entries ix !! key new ix = Some r') as H1 by (apply (Hk _ Hix); eauto). specialize (Hf _ Hix). congruence.
Qed.

(** SET clauses that do not make records longer than [L]. *)
Definition keeps_size (cs : list ColMeta) (scs : list SetClause) (L : Z) : Prop := ∀ old new, Log.size old ≤ L → updated_record cs scs old = Ok new → Log.size new ≤ L.

Lemma update_row_run t tab L n ics recs m scs conds r s : holds_records t tab L (row_cost L tab + n) ics recs s → 0 ≤ n → 0 ≤ L → keeps_size (tm_cols m) scs L →
  ∃ s', update_row std_hash os_fd tab t m scs conds r s = ((mean_update_row ics (tm_cols m) scs conds r recs).1, s') ∧
    holds_records t tab L n ics (mean_update_row ics (tm_cols m) scs conds r recs).2 s' ∧ others_same tab s s'.
Proof.
  intros H Hn HL Hks. pose proof H as [[H1 _ _ _ _] _]. destruct (plain_reads _ _ H1) as (x & Hx & F1 & F2). pose proof (LogFacts.size_nonneg tab) as Htn.
  unfold update_row. rewrite (bind_ok _ _ s x s) by (unfold txn_of; by rewrite Hx). rewrite (bind_ok _ _ s s s) by done. cbv zeta. rewrite F1, F2. simpl negb.
  edestruct (row_start t tab L) as (s1 & Hrun & Hh1 & O1); [done|]. rewrite Hrun. clear Hrun. unfold mean_update_row. simpl.
  assert (holds_records t tab L n ics recs s1) as Hdone by (eapply holds_mono; [|done]; unfold row_cost; lia).
  destruct (recs !! r) as [old|] eqn:Er; [|by exists s1]. destruct (eval_conds old (tm_cols m) conds); simpl; [|by exists s1].
  pose proof Hh1 as [_ (_ & _ & _ & _ & Hlen)]. pose proof (Hlen _ _ Er) as Hsz. simpl in Hsz.
  destruct (updated_record (tm_cols m) scs old) as [new|e] eqn:Enew; [|by exists s1]. pose proof (Hks _ _ Hsz Enew) as Hnz.
  rewrite (bind_ok _ _ s1 new s1) by done. rewrite (bind_ok _ _ recs new recs) by done. rewrite (bind_ok _ _ s1 tt s1) by done.
  edestruct (row_log t tab L n ics recs r old (λ prev, Log.UpdateLogRecord t prev old new r tab) (λ fd, update_tail std_hash os_fd tab t r old new (mk_WriteRecord UPDATE_TUPLE tab fd r old)) s1 Hh1 Er Hn)
    as (fd & tb & s2 & Hrun & Hh2 & O2 & Htb & Htd & Hrec & Hw).
  { intros prev. unfold Log.UpdateLogRecord. cbn [Log.body Log.log_tot_len_]. destruct (one_value_size tab old r new) as (_ & _ & ->). unfold row_cost, Log.LOG_HEADER_SIZE.
    pose proof (LogFacts.size_nonneg old). pose proof (LogFacts.size_nonneg new). split; [f_equal; lia|lia]. }
  pose proof Hh2 as [_ (tb' & Htb' & _ & Hsh & _)]. assert (tb' = tb) as -> by congruence. clear Htb'. pose proof (td_keyed _ Htd) as Hkeyed. rewrite Hrec in Hkeyed.
  pose proof (unique_update _ _ _ _ new Hkeyed Er) as Hun. rewrite Hsh in Hun. unfold put_record. rewrite <-Hrec in Er.
  destruct (run_update std_hash os_fd tab t r old new (mk_WriteRecord UPDATE_TUPLE tab fd r old) tb s2 Htb Htd Er Hw) as [[Hend Hfree]|[Hend Hfree]]; rewrite Hrec in Er.
  - rewrite decide_True by by apply Hun. simpl. rewrite Hrec in Hend. eexists. split; [exact (eq_trans Hrun Hend)|].
    edestruct (holds_change t tab L n ics recs (<[r := new]> recs)) as [Hh3 O3]; [exact Hh2|exact Htb| | | |split; [exact Hh3|]].
    + by apply shape_map.
    + destruct Htd as [T1 T2 T3 T4]. rewrite Hrec in T1, T2. split; [by apply all_keyed_upd| |done|done]. simpl. intros r' v [[<- <-]|[_ Hr']]%lookup_insert_Some; by eapply T2.
    + by apply map_Forall_insert_2.
    + eapply others_same_trans; [done|]. by eapply others_same_trans.
  - rewrite decide_False by by rewrite Hun. simpl. exists s2. split; [exact (eq_trans Hrun Hend)|]. split; [done|]. by eapply others_same_trans.
Qed.

(** *** Inserting *)

Lemma holds_inserting t tab L m n ics recs recs' ixs' o ws s s' : holds_records t tab L m ics recs s → inserting t tab (recs', ixs') o ws s s' →
  sole std_hash t (locks (sys s')) → room n (log (sys s')) → shape ixs' = ics → map_Forall (λ _ rec, Log.size rec ≤ L) recs' → Forall (keyed recs') ixs' →
  (∀ tb r v, fhs_ (sys s') !! tab = Some tb → recs' !! r = Some v → recs !! r = None → Recovery.page_ok (page_no r) tb = true ∧ Recovery.slot_ok (slot_no r) tb = true) →
  holds_records t tab L n ics recs' s' ∧ others_same tab s s'.
Proof.
  intros [[H1 H2 H3 H4 H5] (tb & Htb & Hr & Hs & HL)] Hin Hsole Hroom Hsh HL' Hkeyed Hplace. destruct (inserting_table _ _ _ _ _ _ _ Hin) as (tb' & Htb' & Hd). destruct Hin as [I1 I2 I3 I4 I5 I6].
  pose proof Hd as [= E1 E2]. destruct (I3 _ _ Htb) as (tb2 & Htb2 & Hz). assert (tb2 = tb') as -> by congruence. pose proof (H2 _ _ Htb) as [T1 T2 T3 T4].
  assert (fds_ (sys s') = fds_ (sys s) ∧ tabs_ (sys s') = tabs_ (sys s)) as [Ef Et] by (unfold rest in I1; split; congruence).
  split; [|split_and!; [rewrite I4; apply delete_insert_eq|done|done]]. split.
  - split; [by eapply plain_rest| |done|done|by rewrite Ef]. eapply (tidy_step s s' tab); [done|by rewrite I4|done| |done]. split; [by rewrite E1, E2| |destruct Hz; lia|destruct Hz as [_ ->]; done].
    intros r v Hv. rewrite E1 in Hv. destruct (recs !! r) as [v0|] eqn:Er; [|by eapply Hplace]. rewrite <-Hr in Er. destruct (T2 _ _ Er). split; [by eapply page_ok_mono|by eapply slot_ok_mono].
  - exists tb'. by rewrite E1, E2.
Qed.

Context `{!FreeSlots free_slot}.

Lemma insert_tail_run t tab L n ics recs fd r rec w o ws s s3 : holds_records t tab L (row_cost L tab + n) ics recs s → 0 ≤ n → 0 ≤ L → Log.size rec ≤ L → recs !! r = None →
  (∃ ixs, shape ixs = ics ∧ Forall (keyed recs) ixs ∧ inserting t tab (<[r := rec]> recs, ixs) (<[(fd, r) := t]> o) ws s s3) →
  sole std_hash t (locks (sys s3)) → room (row_cost L tab + n) (log (sys s3)) → placed s3 w → wtab_name_ w = tab → wrid_ w = r →
  ∃ s', insert_tail std_hash os_fd tab t fd r rec s3 = ((put_record ics r rec recs).1, s') ∧ holds_records t tab L n ics (put_record ics r rec recs).2 s' ∧ others_same tab s s'.
Proof.
  intros H Hn HL Hsz Hr (ixs & Hsh & Hkeyed & Hin) Hsole Hroom Hpl Hwt Hwr. pose proof H as [[H1 _ _ _ Hfd] (tb0 & _ & _ & _ & HL0)]. pose proof (pl_known _ _ H1) as Hk. pose proof (LogFacts.size_nonneg tab) as Htn.
  destruct (inserting_table _ _ _ _ _ _ _ Hin) as (tb3 & Htb3 & [= _ E3]). unfold insert_tail. rewrite (bind_ok _ _ _ _ _ (get_keys_run tab tb3 s3 _ Htb3)). rewrite E3.
  assert (fds_ (sys s3) !! tab = fds_ (sys s) !! tab) as Hfd3 by (pose proof (in_rest _ _ _ _ _ _ _ Hin) as I; unfold rest in I; congruence). destruct Hfd as [fd' Hfd]. rewrite Hfd in Hfd3.
  destruct (sole_lock std_hash t (Lm.record_lock fd' r) Lm.EXLUCSIVE _ Hsole) as (l & Hl & Hsole4). set (s4 := set_sys (mk_System (fhs_ (sys s3)) (fds_ (sys s3)) (tabs_ (sys s3)) l (log (sys s3))) s3).
  assert (lock_row std_hash tab t true r s3 = (Ok tt, s4)) as Hlock.
  { unfold lock_row. rewrite (bind_ok _ _ s3 fd' s3) by (unfold fd_of; by rewrite Hfd3). unfold on_locks, Lm.lock_exclusive_on_record, mbind, M_bind. by rewrite Hl. }
  rewrite (bind_ok _ _ _ _ _ (attempt_ok _ _ _ Hlock)). pose proof (quietly_lock_row std_hash tab t true r s3) as Q. rewrite Hlock in Q. simpl in Q.
  pose proof (inserting_quiet _ _ _ _ _ _ _ _ Hin Q) as Hin4. assert (placed s4 w) as Hpl4 by (eapply placed_grows; [apply Q|apply Q|done]).
  destruct (inserting_table _ _ _ _ _ _ _ Hin4) as (tb4 & Htb4 & [= E1 E2]).
  destruct (index_insert_loop r (index_keys rec ixs) [] tb4 (index_keys_nodup _ _)) as (ins & e & Hins & Ha & He); [rewrite E2; by apply index_keys_is|]. rewrite E2 in Hins, Ha, He.
  rewrite (bind_ok _ _ _ _ _ (on_table_run _ _ _ _ _ _ Htb4 Hins)). simpl. set (s5 := upd_table tab _ s4).
  assert (inserting t tab (<[r := rec]> recs, at_keys (ix_add r) ins ixs) (<[(fd, r) := t]> o) ws s s5) as Hin5.
  { pose proof (inserting_upd _ _ _ _ _ _ _ tb4 (Recovery.with_indexes (at_keys (ix_add r) ins ixs) tb4) Hin4 Htb4) as I. unfold data in I. simpl in I. rewrite E1 in I. by apply I. }
  assert (placed s5 w) as Hpl5 by (eapply (placed_grows t s4); [by eapply grows_upd|done|done]).
  assert (unique ics recs r rec ↔ keys_free rec ixs) as Hun by (rewrite <-Hsh; by apply unique_insert). unfold put_record.
  destruct He as [[-> ->]|(-> & i & k & rest' & Hsplit & Hnot)].
  - assert (keys_free rec ixs) as Hfree by exact (proj2 (index_keys_is (λ o, o = None) rec ixs) Ha). rewrite decide_True by by apply Hun. simpl. rewrite at_index_keys in Hin5.
    destruct (holds_inserting t tab L _ (row_cost L tab + n) ics recs (<[r := rec]> recs) (all_add rec r ixs) _ _ s s5 H Hin5 Hsole4 Hroom) as [Hh5 O5].
    + rewrite <-Hsh. by apply shape_map.
    + by apply map_Forall_insert_2.
    + by apply all_keyed_add.
    + intros tb r' v Htb' [[<- <-]|[_ Hv]]%lookup_insert_Some Hnone; [|congruence]. destruct Hpl5 as (tb5 & Htb5 & Hp & Hs & _). rewrite Hwt in Htb5. rewrite Hwr in Hp, Hs.
      assert (tb5 = tb) as -> by congruence. done.
    + destruct Hpl5 as (tb5 & Htb5 & Hp & _). rewrite Hwt in Htb5. rewrite Hwr in Hp.
      destruct (log_run t tab L n ics (<[r := rec]> recs) r (insert_log tab t rec r) tb5 s5 Hh5 Htb5 Hp Hn) as (s6 & Hlog & Hh6 & O6).
      { intros prev. unfold insert_log, Log.InsertLogRecord. cbn [Log.body Log.log_tot_len_]. destruct (one_value_size tab rec r rec) as (_ & -> & _). unfold row_cost, Log.LOG_HEADER_SIZE.
        pose proof (LogFacts.size_nonneg rec). split; [f_equal; lia|lia]. }
      exists s6. split_and!; [done|done|]. by eapply others_same_trans.
  - rewrite decide_False.
    2:{ intros Hu%Hun. apply Hnot. apply entry_cons. split; [|by intros ? ? ?%elem_of_nil]. assert ((i, k) ∈ index_keys rec ixs) as Hik by (rewrite Hsplit; apply elem_of_app; right; by left).
        apply index_keys_elem in Hik as (ix & Hix & ->). exists ix. split; [done|]. apply Hu. by eapply list_elem_of_lookup_2. }
    simpl. edestruct (insert_failed_ok std_hash os_fd t tab fd r rec recs ixs ins) as (s6 & Hfail & Hin6 & _ & Hlk & Hlg); [exact Hin5|done|exact Hpl5|done|done| |done|done|].
    { pose proof (index_keys_nodup rec ixs) as Hnd. rewrite Hsplit, fmap_app in Hnd. by apply NoDup_app in Hnd as [? _]. }
    exists s6. split; [exact Hfail|]. eapply holds_inserting; [exact H|exact Hin6|by rewrite Hlk| |done|done|done|intros; congruence]. rewrite Hlg. unfold room, row_cost in *. simpl. lia.
Qed.

Lemma insert_Next_run t tab L n ics recs m values tb s : holds_records t tab L (row_cost L tab + n) ics recs s → 0 ≤ n → 0 ≤ L → fhs_ (sys s) !! tab = Some tb →
  tabs_ (sys s) !! tab = Some m → length values = length (tm_cols m) → (∀ rec, make_record (tm_cols m) values = Ok rec → Log.size rec ≤ L) →
  ∃ s', insert_Next std_hash os_fd free_slot tab t m values s = ((mean_insert ics (tm_cols m) values (free_slot tb) recs).1, s') ∧
    holds_records t tab L n ics (mean_insert ics (tm_cols m) values (free_slot tb) recs).2 s' ∧ others_same tab s s'.
Proof.
  intros H Hn HL Htb Hmeta Hlen Hsz. unfold mean_insert. rewrite decide_False by (intros F; by apply F). unfold insert_Next. pose proof (LogFacts.size_nonneg tab) as Htn.
  destruct (make_record (tm_cols m) values) as [rec|e] eqn:Erec.
  2:{ exists s. simpl. split_and!; [done| |done]. eapply holds_mono; [|done]. unfold row_cost. lia. }
  specialize (Hsz _ eq_refl). rewrite (bind_ok _ _ s rec s) by done. rewrite (bind_ok _ _ recs rec recs) by done. pose proof H as [[H1 H2 H3 H4 [fd Hfd]] (tb0 & Htb0 & Hrec & Hsh & HL0)].
  assert (tb0 = tb) as -> by congruence. clear Htb0. destruct (plain_reads _ _ H1) as (x & Hx & F1 & F2).
  rewrite (bind_ok _ _ s x s) by (unfold txn_of; by rewrite Hx). rewrite (bind_ok _ _ s s s) by done. cbv zeta. rewrite F1, F2. simpl negb. cbv iota.
  rewrite (bind_ok _ _ s fd s) by (unfold fd_of; by rewrite Hfd). destruct (sole_lock std_hash t (Lm.table_lock fd) Lm.INTENTION_EXCLUSIVE _ H3) as (l & Hl & Hsole).
  set (s1 := set_sys (mk_System (fhs_ (sys s)) (fds_ (sys s)) (tabs_ (sys s)) l (log (sys s))) s).
  rewrite (bind_ok _ _ s tt s1) by (unfold on_locks, Lm.lock_IX_on_table, mbind, M_bind; by rewrite Hl). rewrite (bind_ok _ _ s1 tt s1) by done.
  destruct (run_insert_record free_slot rec tb (H2 _ _ Htb)) as (tb2 & Hins & Hz & Hd & Hp & Hs). set (r := free_slot tb) in *. pose proof (tidy_unused free_slot tb (H2 _ _ Htb)) as Hfree. fold r in Hfree.
  rewrite (bind_ok _ _ _ _ _ (on_table_run tab _ s1 _ _ _ Htb Hins)). set (s2 := set_owners (<[(fd, r) := t]> (owners_of s)) (upd_table tab tb2 s1)). rewrite (bind_ok _ _ _ tt s2) by done.
  assert (writes_of t s2 = Some (write_set_ x)) as Hws by (unfold writes_of; simpl; by rewrite Hx). set (w := mk_WriteRecord INSERT_TUPLE tab fd r rec).
  rewrite (bind_ok _ _ _ _ _ (append_run t w s2 _ Hws)). destruct (add_write_facts t w s2 _ Hws) as (A1 & A2 & A3 & A4 & A5). set (s3 := add_write t w s2) in *.
  assert (locks (sys s3) = l ∧ log (sys s3) = log (sys s)) as [Hl3 Hg3] by (by rewrite A3).
  apply (insert_tail_run t tab L n ics recs fd r rec w (owners_of s) (write_set_ x ++ [w]) s s3); try done; [congruence| |by rewrite Hl3|by rewrite Hg3|].
  - exists (Recovery.t_indexes tb). split_and!; [done|rewrite <-Hrec; apply (td_keyed _ (H2 _ _ Htb))|]. split; try done.
    + intros _. unfold known. rewrite Hl3. by destruct Hsole as [(y & Hy & _) _].
    + intros tab0 tb0 H0. rewrite A3. by apply (grows_upd tab tb tb2 s1 Htb Hz).
    + rewrite A1. etransitivity; [apply data_upd|]. by rewrite Hd, Hrec.
  - exists tb2. rewrite A3. split_and!; [apply lookup_insert_eq|done|done| |]; simpl; [by rewrite Hfd|by rewrite Hmeta].
Qed.

(** ** Statements *)

Lemma rows_run t tab L n ics (f : Rid → M TransactionManager unit) (g : Rid → M (gmap Rid record) unit) : 0 ≤ n → 0 ≤ L →
  (∀ k r recs s, 0 ≤ k → holds_records t tab L (row_cost L tab + k) ics recs s → ∃ s', f r s = ((g r recs).1, s') ∧ holds_records t tab L k ics (g r recs).2 s' ∧ others_same tab s s') →
  ∀ rids recs s, holds_records t tab L (Z.of_nat (length rids) * row_cost L tab + n) ics recs s →
  ∃ s', mfor f rids s = ((mfor g rids recs).1, s') ∧ holds_records t tab L n ics (mfor g rids recs).2 s' ∧ others_same tab s s'.
Proof.
  intros Hn HL Hf. assert (0 ≤ row_cost L tab) as Hc by (unfold row_cost; pose proof (LogFacts.size_nonneg tab); lia).
  induction rids as [|r rids IH]; intros recs s H; simpl length in H; [by exists s|].
  replace (Z.of_nat (S (length rids)) * row_cost L tab + n) with (row_cost L tab + (Z.of_nat (length rids) * row_cost L tab + n)) in H by lia.
  destruct (Hf (Z.of_nat (length rids) * row_cost L tab + n) r recs s) as (s1 & Hrun & Hh1 & O1); [lia|done|]. simpl. unfold mbind, M_bind. rewrite Hrun.
  destruct (g r recs) as [[[]|e] recs1]; simpl in *.
  - destruct (IH _ _ Hh1) as (s2 & Hrun2 & Hh2 & O2). exists s2. split_and!; [done|done|]. by eapply others_same_trans.
  - exists s1. split_and!; [done| |done]. eapply holds_mono; [|done]. lia.
Qed.

Definition stmt_rows (st : Stmt) : Z := match st with Insert _ _ => 1 | Delete _ _ rids | Update _ _ _ rids => Z.of_nat (length rids) end.

(** The records that the statement makes are not longer than [L]. *)
Definition stmt_sized (cs : list ColMeta) (L : Z) (st : Stmt) : Prop :=
  match st with
  | Insert _ values => ∀ rec, make_record cs values = Ok rec → Log.size rec ≤ L
  | Delete _ _ _ => True
  | Update _ scs _ _ => keeps_size cs scs L
  end.

Lemma stmt_run t L n ics recs m tb st s : holds_records t (stmt_tab st) L (stmt_rows st * row_cost L (stmt_tab st) + n) ics recs s → 0 ≤ n → 0 ≤ L →
  fhs_ (sys s) !! stmt_tab st = Some tb → tabs_ (sys s) !! stmt_tab st = Some m → stmt_sized (tm_cols m) L st →
  ∃ s', exec_stmt std_hash os_fd free_slot t st s = ((mean_stmt ics (tm_cols m) (free_slot tb) st recs).1, s') ∧
    holds_records t (stmt_tab st) L n ics (mean_stmt ics (tm_cols m) (free_slot tb) st recs).2 s' ∧ others_same (stmt_tab st) s s'.
Proof.
  intros H Hn HL Htb Hm Hsz. assert (∀ {A} (f : TabMeta → M TransactionManager A), (m ← get_table (stmt_tab st); f m) s = f m s) as Hget.
  { intros A f. unfold mbind, M_bind, get_table. by rewrite Hm. }
  assert (0 ≤ row_cost L (stmt_tab st)) as Hc by (unfold row_cost; pose proof (LogFacts.size_nonneg (stmt_tab st)); lia).
  destruct st as [tab values|tab conds rids|tab scs conds rids]; simpl in *.
  - unfold InsertExecutor. rewrite Hget. replace (1 * row_cost L tab + n) with (row_cost L tab + n) in H by lia. case_decide as Hv.
    + exists s. unfold mean_insert. rewrite decide_True by done. simpl. split_and!; [done| |done]. eapply holds_mono; [|done]. lia.
    + rewrite (bind_ok _ _ _ _ _ (touch_run _ _ _ Htb)). by apply insert_Next_run; try lia.
  - unfold DeleteExecutor. rewrite Hget, (bind_ok _ _ _ _ _ (touch_run _ _ _ Htb)). apply rows_run; try done. intros k r recs0 s0 Hk H0. by apply delete_row_run.
  - unfold UpdateExecutor. rewrite Hget, (bind_ok _ _ _ _ _ (touch_run _ _ _ Htb)). apply rows_run; try done. intros k r recs0 s0 Hk H0. by apply update_row_run.
Qed.
End runs.
End DmlRun.
