(* ===== verification/Portal.v ===== *)
(** * Query plans and their executors ([optimizer/plan.h], [portal.h])

    The plan of a query is a tree that [Portal::convert_plan_executor] turns into a tree of
    executors.  [eval_plan] is the reference: what a plan means in terms of lists of records,
    without executors, positions, batches or locks. *)

From S2P Require Import Prelude RecordFile Recovery Conditions LockManager Mvcc Index IndexFile Executor Aggregate AggregateFacts Scans.

Module Portal.
Import Cond Mvcc Exec Agg Scans.

(** ** Plans *)

(** [ScanPlan]: a sequential scan, or an index scan on the columns [sp_index].  [sp_join] is the
    outer column and the inner column of a scan on the inside of a join. *)
Record ScanPlan := mk_ScanPlan {
  sp_tab : bytes;
  sp_conds : list Condition;
  sp_index : option (list bytes);
  sp_join : option (TabCol * bytes)
}.

Inductive Plan :=
  | PScan (s : ScanPlan)
  | PFilter (p : Plan) (conds : list Condition)
  | PRename (p : Plan) (new_cols : list ColMeta)
  | PProjection (p : Plan) (sel_cols : list TabCol)
  | PLimit (p : Plan) (limit : Z)
  | PSort (p : Plan) (order_bys : list OrderByTerm)
  | PUnion (children : list Plan) (output_cols : list ColMeta)
  | PJoin (left right : Plan) (conds : list Condition)
  | PAggregate (p : Plan) (select_terms : list SelectTerm) (agg_calls : list AggCall) (group_cols : list TabCol) (having_conds : list AggHavingCond).

(** ** Conversion *)

(** [TabMeta::get_index_meta]. *)
Definition get_index_meta (tab : bytes) (m : TabMeta) (col_names : list bytes) : res IndexMeta :=
  require (snd <$> list_find (λ i, (cm_name <$> im_cols i) = col_names) (tm_indexes m))
    (IndexNotFoundError (String.string_of_list_byte tab) (String.string_of_list_byte <$> col_names)).

Definition index_file (tab : bytes) (index_cols : list ColMeta) : string := IxFile.get_index_name (String.string_of_list_byte tab) index_cols.

Section convert.
Context (std_hash : Z → Z) (ndebug : bool) (fuel : nat) (t : Z).

(** The constructors of the scans look up the table, the index and the transaction; [at] throws
    for a file or an index that is not open. *)
Definition scan_executor (s : ScanPlan) (w : World) : res (Exec World) :=
  let tm := w_tm w in
  m ← require (tabs_ (sys tm) !! sp_tab s) (TableNotFoundError (String.string_of_list_byte (sp_tab s)));
  x ← require (txns tm !! t) Undefined;
  _ ← require (fhs_ (sys tm) !! sp_tab s) Undefined;
  match sp_index s with
  | None => Ok (SeqScanExecutor std_hash fuel (sp_tab s) t (negb (IsMvccTxn x)) (tm_cols m) (sp_conds s))
  | Some col_names =>
      im ← get_index_meta (sp_tab s) m col_names;
      let name := index_file (sp_tab s) (im_cols im) in
      _ ← require (w_ihs w !! name) Undefined;
      Ok (IndexScanExecutor std_hash ndebug fuel (sp_tab s) t (negb (IsMvccTxn x)) (tm_cols m) (sp_conds s) name (im_cols im) (sp_join s))
  end.

Fixpoint convert_plan_executor (w : World) (p : Plan) : res (Exec World) :=
  match p with
  | PScan s => scan_executor s w
  | PFilter p conds => e ← convert_plan_executor w p; Ok (FilterExecutor fuel e conds)
  | PRename p new_cols => e ← convert_plan_executor w p; Ok (RenameExecutor e new_cols)
  | PProjection p sel_cols => e ← convert_plan_executor w p; ProjectionExecutor e sel_cols
  | PLimit p limit => e ← convert_plan_executor w p; Ok (LimitExecutor e limit)
  | PSort p order_bys => e ← convert_plan_executor w p; Ok (SortExecutor fuel e order_bys)
  | PUnion children output_cols =>
      es ← (fix go (l : list Plan) : res (list (Exec World)) := match l with
        | [] => Ok []
        | c :: l => e ← convert_plan_executor w c; es ← go l; Ok (e :: es)
        end) children;
      Ok (UnionExecutor fuel es output_cols)
  | PJoin p1 p2 conds =>
      l ← convert_plan_executor w p1;
      r ← convert_plan_executor w p2;
      Ok (NestedLoopJoinExecutor fuel l r conds)
  | PAggregate p terms calls groups having => e ← convert_plan_executor w p; Ok (AggregateExecutor fuel e terms calls groups having)
  end.

(** [Portal::start] and [Portal::run] of a query. *)
Definition run_select (p : Plan) : M World (list record) := λ w,
  match convert_plan_executor w p with
  | Ok e => select_from fuel e w
  | Err x => (Err x, w)
  end.
End convert.

(** ** The meaning of plans *)

Section eval.
(** The columns of a table; the records of a scan, for the outer record of a join. *)
Context (fuel : nat) (table_cols : bytes → option (list ColMeta)) (scan : ScanPlan → option (record * list ColMeta) → option (list record)).

(** The columns of the result and the length of its records. *)
Fixpoint plan_cols (p : Plan) : option (list ColMeta * Z) :=
  match p with
  | PScan s => cs ← table_cols (sp_tab s); Some (cs, table_len cs)
  | PFilter p _ | PLimit p _ | PSort p _ => plan_cols p
  | PRename p new_cols => x ← plan_cols p; Some (new_cols, x.2)
  | PProjection p sel_cols =>
      x ← plan_cols p;
      match select_cols x.1 sel_cols 0 with Ok sel => Some (sel.*2, sel_len sel) | Err _ => None end
  | PUnion _ output_cols => Some (output_cols, union_len output_cols)
  | PJoin l r _ =>
      x ← plan_cols l;
      y ← plan_cols r;
      Some (x.1 ++ (shift_col x.2 <$> y.1), x.2 + y.2)
  | PAggregate _ terms _ _ _ => Some (agg_cols terms 0, agg_len terms)
  end.

(** Whether the stream ends behind its last record, not with it. *)
Fixpoint steady (p : Plan) : bool :=
  match p with
  | PLimit _ _ => false
  | PRename p _ | PProjection p _ => steady p
  | _ => true
  end.

(** The model's loops are long enough for the records. *)
Definition bounded (l : list record) : option (list record) := if decide (length l < fuel)%nat then Some l else None.

Definition find_order (cs : list ColMeta) (o : OrderByTerm) : option (ColMeta * bool) := c ← find_col cs (ob_col o); Some (c, is_desc o).

(** The result of aggregation over [l]. *)
Definition aggregate (x : list ColMeta * Z) terms calls groups having (l : list record) : option (list record) :=
  ms ← mapM (find_col x.1) groups;
  if forallb (λ c, (bool_decide (ac_type c = AGG_COUNT) && ac_star c) || bool_decide (is_Some (AggFacts.call_meta x.1 c))) calls then
    match results x.1 terms calls having (AggFacts.final_spec x.1 x.2 calls groups ms l) with Ok out => Some out | Err _ => None end
  else None.

(** The record [l] joined with those of [R] that satisfy the conditions. *)
Definition join_list (x y : list ColMeta * Z) (conds : list Condition) (l : record) (R : list record) : list record :=
  (λ r : record, field l 0 x.2 ++ field r 0 y.2) <$>
    filter (λ r : record, eval_conds (field l 0 x.2 ++ field r 0 y.2) (x.1 ++ (shift_col x.2 <$> y.1)) conds = true) R.

Fixpoint eval_plan (b : option (record * list ColMeta)) (p : Plan) : option (list record) :=
  match p with
  | PScan s => scan s b ≫= bounded
  | PFilter p conds => x ← plan_cols p; l ← eval_plan b p; Some (filter (λ r, eval_conds r x.1 conds = true) l)
  | PRename p _ => eval_plan b p
  | PProjection p sel_cols =>
      x ← plan_cols p;
      l ← eval_plan b p;
      match select_cols x.1 sel_cols 0 with Ok sel => Some (project sel (sel_len sel) <$> (l : list record)) | Err _ => None end
  | PLimit p limit => l ← eval_plan None p; Some (take (Z.to_nat limit) l)
  | PSort p order_bys =>
      x ← plan_cols p;
      order ← mapM (find_order x.1) order_bys;
      l ← eval_plan None p;
      Some (stable_sort (order_less order) l)
  | PUnion children output_cols =>
      ls ← (fix go (l : list Plan) : option (list (list record)) := match l with
        | [] => Some []
        | c :: l =>
            x ← plan_cols c;
            rows ← eval_plan None c;
            if decide (length output_cols ≤ length x.1)%nat then
              ls ← go l; Some ((union_record output_cols x.1 (union_len output_cols) <$> (rows : list record)) :: ls)
            else None
        end) children;
      l ← bounded (concat ls);
      Some (dedup ∅ l).1
  | PJoin p1 p2 conds =>
      if steady p1 then
        x ← plan_cols p1;
        y ← plan_cols p2;
        L ← eval_plan None p1;
        ls ← mapM (λ l, R ← eval_plan (Some (l, x.1)) p2;
          Some (join_list x y conds l R)) L;
        if decide (S (length L) < fuel)%nat then bounded (concat ls) else None
      else None
  | PAggregate p terms calls groups having =>
      x ← plan_cols p;
      l ← eval_plan None p;
      aggregate x terms calls groups having l ≫= bounded
  end.
End eval.
End Portal.
