(* ===== verification/Planner.v ===== *)
(** * The planner ([optimizer/planner.cpp])

    From an analysed query to its plan: conditions on one table move into the scan of that
    table, where an index is chosen for them; conditions between tables move into the join of
    the later one, which may look its records up in an index; what is left is pushed into the
    plan.  [Query] and [QuerySource] are those of [analyze/analyze.h], without the parts that
    are only displayed.

    The plans are those of [Portal].  A missing plan ([nullptr]) is undefined behaviour of its
    users. *)

From S2P Require Import Prelude RecordFile Recovery Conditions LockManager Mvcc Executor Aggregate Scans Portal.

Module Planner.
Import Cond Mvcc Exec Agg Scans Portal.

(** ** Queries ([analyze/analyze.h]) *)

(** A table or, with a query, a derived table; [qs_cols] are its columns. *)
Record QuerySource (Q : Type) := mk_QuerySource { qs_name : bytes; qs_derived : option Q; qs_cols : list ColMeta }.
Arguments mk_QuerySource {Q} _ _ _.
Arguments qs_name {Q} _.
Arguments qs_derived {Q} _.
Arguments qs_cols {Q} _.

Inductive Query := mk_Query {
  q_conds : list Condition;
  q_cols : list TabCol;
  q_terms : list SelectTerm;
  q_calls : list AggCall;
  q_groups : list TabCol;
  q_having : list AggHavingCond;
  q_order : list OrderByTerm;
  q_output : list ColMeta;
  q_sources : list (QuerySource Query);
  q_union : list Query;
  q_aggregate : bool;
  q_limit : Z;
  q_tables : list bytes
}.

(** ** Conditions *)

Definition swap_comp_op (o : CompOp) : CompOp :=
  match o with OP_LT => OP_GT | OP_GT => OP_LT | OP_LE => OP_GE | OP_GE => OP_LE | o => o end.

Definition table_in_list (tabs : list bytes) (tab : bytes) : bool := bool_decide (tab ∈ tabs).

Definition is_single_table_cond (cond : Condition) (tab : bytes) : bool :=
  bool_decide (tc_tab_name (lhs_col cond) = tab) && (is_rhs_val cond || bool_decide (tc_tab_name (rhs_col cond) = tab)).

(** The conditions that are taken and those that are left, in their order. *)
Definition take_single_table_conds (conds : list Condition) (tab : bytes) : list Condition * list Condition :=
  (filter (λ c, is_single_table_cond c tab = true) conds, filter (λ c, is_single_table_cond c tab = false) conds).

Definition is_join_cond (joined : list bytes) (right_tab : bytes) (c : Condition) : bool :=
  negb (is_rhs_val c) &&
  ((table_in_list joined (tc_tab_name (lhs_col c)) && bool_decide (tc_tab_name (rhs_col c) = right_tab)) ||
   (table_in_list joined (tc_tab_name (rhs_col c)) && bool_decide (tc_tab_name (lhs_col c) = right_tab))).
Definition take_join_conds (conds : list Condition) (joined : list bytes) (right_tab : bytes) : list Condition * list Condition :=
  (filter (λ c, is_join_cond joined right_tab c = true) conds, filter (λ c, is_join_cond joined right_tab c = false) conds).

(** ** Choice of an index *)

Definition on_column (tab : bytes) (c : ColMeta) (cond : Condition) : bool :=
  is_rhs_val cond && bool_decide (tc_tab_name (lhs_col cond) = tab) && bool_decide (tc_col_name (lhs_col cond) = cm_name c).
Definition bounds_column (cond : Condition) : bool := match op cond with OP_NE => false | _ => true end.
Definition is_equality (cond : Condition) : bool := match op cond with OP_EQ => true | _ => false end.
Definition is_range (cond : Condition) : bool := match op cond with OP_EQ | OP_NE => false | _ => true end.

(** The columns of an index, from the first, that the conditions bound; a range ends them. *)
Fixpoint matched (tab : bytes) (conds : list Condition) (cols : list ColMeta) : nat :=
  match cols with
  | [] => 0
  | c :: cols =>
      let cs := filter (λ cond, on_column tab c cond = true) conds in
      if negb (existsb bounds_column cs) then 0
      else if existsb is_range cs then 1
      else S (matched tab conds cols)
  end.

(** The first index with the most columns. *)
Definition best_index (tab : bytes) (conds : list Condition) (indexes : list IndexMeta) : nat * list bytes :=
  foldl (λ best ix, let n := matched tab conds (im_cols ix) in if decide (best.1 < n)%nat then (n, cm_name <$> im_cols ix) else best) (0%nat, []) indexes.

Section planner.
(** The catalogue. *)
Context (db : gmap bytes TabMeta).

Definition get_table (tab : bytes) : res TabMeta := require (db !! tab) (TableNotFoundError (String.string_of_list_byte tab)).

Definition get_index_cols (tab : bytes) (conds : list Condition) : res (option (list bytes)) :=
  m ← get_table tab;
  let best := best_index tab conds (tm_indexes m) in
  Ok (if decide (0 < best.1)%nat then Some best.2 else None).

(** [TabMeta::is_index]. *)
Definition is_index (m : TabMeta) (col_names : list bytes) : bool := existsb (λ ix, bool_decide ((cm_name <$> im_cols ix) = col_names)) (tm_indexes m).

(** The outer column and the inner column of an index join. *)
Definition inlj_key (m : TabMeta) (right_tab : bytes) (joined : list bytes) (c : Condition) : option (TabCol * bytes) :=
  if negb (is_equality c) || is_rhs_val c then None
  else if bool_decide (tc_tab_name (lhs_col c) = right_tab) && table_in_list joined (tc_tab_name (rhs_col c)) && is_index m [tc_col_name (lhs_col c)]
  then Some (rhs_col c, tc_col_name (lhs_col c))
  else if bool_decide (tc_tab_name (rhs_col c) = right_tab) && table_in_list joined (tc_tab_name (lhs_col c)) && is_index m [tc_col_name (rhs_col c)]
  then Some (lhs_col c, tc_col_name (rhs_col c))
  else None.
Definition choose_inlj_key (right_tab : bytes) (joined : list bytes) (join_conds : list Condition) : res (option (TabCol * bytes)) :=
  m ← get_table right_tab;
  Ok (head (omap (inlj_key m right_tab joined) join_conds)).

(** ** Pushing conditions *)

Fixpoint plan_has_source (p : Plan) (source : bytes) : bool :=
  match p with
  | PScan s => bool_decide (sp_tab s = source)
  | PRename _ cs => match cs with [] => false | c :: _ => bool_decide (cm_tab_name c = source) end
  | PFilter p _ | PProjection p _ => plan_has_source p source
  | PJoin l r _ => plan_has_source l source || plan_has_source r source
  | _ => false
  end.

(** The result is 1 or 2 when the plan has the table of the left or of the right column, 3 when
    a join took the condition, and 0 otherwise. *)
Definition swap_cond (c : Condition) : Condition := mk_Condition (rhs_col c) (swap_comp_op (op c)) (is_rhs_val c) (lhs_col c) (rhs_val c).

Fixpoint push_conds (cond : Condition) (p : Plan) : Z * Plan :=
  match p with
  | PScan s =>
      (if bool_decide (sp_tab s = tc_tab_name (lhs_col cond)) then 1 else if bool_decide (sp_tab s = tc_tab_name (rhs_col cond)) then 2 else 0, p)
  | PJoin l r conds =>
      let '(left_res, l) := push_conds cond l in
      if decide (left_res = 3) then (3, PJoin l r conds)
      else
        let '(right_res, r) := push_conds cond r in
        if decide (right_res = 3) then (3, PJoin l r conds)
        else if decide (left_res = 0 ∨ right_res = 0) then (left_res + right_res, PJoin l r conds)
        else (3, PJoin l r (conds ++ [if decide (left_res = 2) then swap_cond cond else cond]))
  | PFilter p cs => let '(n, p) := push_conds cond p in (n, PFilter p cs)
  | PRename _ _ =>
      (if plan_has_source p (tc_tab_name (lhs_col cond)) then 1
       else if negb (is_rhs_val cond) && plan_has_source p (tc_tab_name (rhs_col cond)) then 2 else 0, p)
  | PProjection p cs => let '(n, p) := push_conds cond p in (n, PProjection p cs)
  | _ => (0, p)
  end.

(** ** Plans of sources and joins

    A source comes with the plan of its query, if it has one. *)

Abbreviation Source := (QuerySource (res Plan)).

Definition build_source_plan (s : Source) : option (res Plan) :=
  match qs_derived s with Some p => Some (p ← p; Ok (PRename p (qs_cols s))) | None => None end.

Definition build_source_scan_plan (source : option Source) (table : bytes) (conds : list Condition) (join_inner : option (TabCol * bytes)) : res Plan :=
  match source ≫= build_source_plan with
  | Some p => p ← p; Ok (match conds with [] => p | _ => PFilter p conds end)
  | None =>
      index ← match join_inner with Some (_, inner) => Ok (Some [inner]) | None => get_index_cols table conds end;
      _ ← get_table table;
      Ok (PScan (mk_ScanPlan table conds index join_inner))
  end.

(** The conditions of every table by itself, and the others. *)
Fixpoint take_singles (tables : list bytes) (conds : list Condition) : list (list Condition) * list Condition :=
  match tables with
  | [] => ([], conds)
  | tab :: tables =>
      let '(own, conds) := take_single_table_conds conds tab in
      let '(owns, conds) := take_singles tables conds in
      (own :: owns, conds)
  end.

(** The loop over the tables behind the first. *)
Fixpoint join_tables (root : Plan) (joined : list bytes) (todo : list (bytes * option Source * list Condition)) (conds : list Condition) : res (Plan * list Condition) :=
  match todo with
  | [] => Ok (root, conds)
  | (table, source, single) :: todo =>
      let '(join_conds, conds) := take_join_conds conds joined table in
      key ← match source with
            | Some s => match qs_derived s with Some _ => Ok None | None => choose_inlj_key table joined join_conds end
            | None => Ok None
            end;
      right ← build_source_scan_plan source table single key;
      join_tables (PJoin root right join_conds) (joined ++ [table]) todo conds
  end.

Definition push_all (conds : list Condition) (root : Plan) : Plan := foldl (λ p c, (push_conds c p).2) root conds.

(** The source of each table, if there is one. *)
Definition sources_at (tables : list bytes) (sources : list Source) : list (option Source) :=
  (λ i, sources !! i) <$> seq 0 (length tables).

Definition make_one_rel (tables : list bytes) (sources : list Source) (conds : list Condition) : res Plan :=
  let '(singles, conds) := take_singles tables conds in
  match zip (zip tables (sources_at tables sources)) singles with
  | [] => Err Undefined
  | (table, source, single) :: todo =>
      root ← build_source_scan_plan source table single None;
      '(root, conds) ← join_tables root [table] todo conds;
      Ok (push_all conds root)
  end.

(** ** Plans of queries *)

Definition generate_sort_plan (order_bys : list OrderByTerm) (p : Plan) : Plan := match order_bys with [] => p | _ => PSort p order_bys end.

(** [physical_optimization] behind the join of the sources, and the projection of
    [generate_select_plan]. *)
Definition finish_plan (q : Query) (p : Plan) : Plan :=
  let p := if q_aggregate q then PAggregate p (q_terms q) (q_calls q) (q_groups q) (q_having q) else p in
  let p := generate_sort_plan (q_order q) p in
  let p := if decide (0 ≤ q_limit q) then PLimit p (q_limit q) else p in
  PProjection p (q_cols q).

(** [make_query_plan] of a query, from [generate_select_plan]. *)
Definition make_query_plan_with (gen : Query → res Plan) (q : Query) : res Plan :=
  match q_union q with
  | [] => gen q
  | children => ps ← mapM gen children; Ok (PUnion ps (q_output q))
  end.

Definition plan_source {Q} (plan : Q → res Plan) (s : QuerySource Q) : Source :=
  match s with mk_QuerySource name d cs => mk_QuerySource name (match d with Some q => Some (plan q) | None => None end) cs end.

Fixpoint generate_select_plan (q : Query) : res Plan :=
  match q with
  | mk_Query conds cols terms calls groups having order output sources union aggregate limit tables =>
      p ← match union with
          | [] => make_one_rel tables (map (plan_source (make_query_plan_with generate_select_plan)) sources) conds
          | _ => ps ← mapM generate_select_plan union; Ok (PUnion ps output)
          end;
      Ok (finish_plan (mk_Query conds cols terms calls groups having order output sources union aggregate limit tables) p)
  end.
Definition make_query_plan : Query → res Plan := make_query_plan_with generate_select_plan.

(** The scan of a DELETE or UPDATE statement in [do_planner]. *)
Definition scan_plan (tab : bytes) (conds : list Condition) : res ScanPlan :=
  index ← get_index_cols tab conds;
  _ ← get_table tab;
  Ok (mk_ScanPlan tab conds index None).
End planner.
End Planner.
