(* ===== verification/Analyze.v ===== *)
(** * The analyzer ([analyze/analyze.cpp], [parser/ast.h])

    From a parsed statement to a query: names are resolved against the catalogue, literals
    become values of the types of their columns, aggregate calls are collected, and the columns
    of the result are computed.  Names and texts are byte strings; what is only displayed (the
    aliases of tables in columns, the raw text of literals) is left out.  The catalogue is an
    argument. *)

From S2P Require Import Prelude RecordFile Recovery Conditions LockManager Mvcc Executor Aggregate Scans Portal Dml Planner.

Module Analyze.
Import Cond Mvcc Exec Agg Scans Portal Dml Planner.

(** ** Parsed statements ([parser/ast.h]) *)

Inductive SvCompOp := SV_OP_EQ | SV_OP_NE | SV_OP_LT | SV_OP_GT | SV_OP_LE | SV_OP_GE.
Inductive OrderByDir := OrderBy_DEFAULT | OrderBy_ASC | OrderBy_DESC.
Inductive AstAggFuncType := Agg_COUNT | Agg_MAX | Agg_MIN | Agg_SUM | Agg_AVG.

(** Literals; a float by its four bytes. *)
Inductive Lit := IntLit (val : Z) | FloatLit (val : bytes) | StringLit (val : bytes) | BoolLit (val : bool).

(** [ast::Col] has a table, perhaps empty, and a column. *)
Abbreviation Col := TabCol.

(** The column of [COUNT( * )] is a null pointer. *)
Record AggExpr := mk_AggExpr { ae_func : AstAggFuncType; ae_col : option Col; ae_star : bool }.

Inductive Expr :=
  | ELit (l : Lit)
  | ECol (c : Col)
  | EAgg (a : AggExpr)
  | EArith (lhs : Col) (minus : bool) (rhs : Lit).

Record SelectItem := mk_SelectItem { si_expr : Expr; si_alias : bytes }.
Record BinaryExpr := mk_BinaryExpr { be_lhs : Col; be_op : SvCompOp; be_rhs : Expr }.
Record HavingExpr := mk_HavingExpr { he_lhs : Expr; he_op : SvCompOp; he_rhs : Expr }.

(** A derived table has a query of type [T]. *)
Record TableRef (T : Type) := mk_TableRef { tr_tab_name : bytes; tr_alias : bytes; tr_derived : option T }.
Arguments mk_TableRef {T} _ _ _.
Arguments tr_tab_name {T} _.
Arguments tr_alias {T} _.
Arguments tr_derived {T} _.

(** The parts of a SELECT statement besides FROM. *)
Record SelectBody := mk_SelectBody {
  sl_items : list SelectItem;
  sl_conds : list BinaryExpr;
  sl_groups : list Col;
  sl_having : list HavingExpr;
  sl_order : option (list (Col * OrderByDir));
  sl_limit : Z
}.

(** [tabs] with their aliases is used when [refs] is empty. *)
Inductive QueryExpr :=
  | SelectStmt (body : SelectBody) (tabs : list (bytes * bytes)) (refs : list (TableRef QueryExpr))
  | UnionStmt (branches : list QueryExpr).

Inductive TreeNode :=
  | QueryNode (e : QueryExpr)
  | ExplainStmt (body : SelectBody) (tabs : list (bytes * bytes)) (refs : list (TableRef QueryExpr))
  | UpdateStmt (tab : bytes) (set_clauses : list (bytes * Expr)) (conds : list BinaryExpr)
  | DeleteStmt (tab : bytes) (conds : list BinaryExpr)
  | InsertStmt (tab : bytes) (vals : list Lit)
  | OtherNode.

(** ** Values and operators *)

Definition convert_sv_value (l : Lit) : res TValue :=
  match l with
  | IntLit z => Ok (set_int z)
  | FloatLit b => Ok (set_bits TYPE_FLOAT b)
  | StringLit s => Ok (set_str s)
  | BoolLit _ => Err InternalError
  end.

Definition convert_sv_comp_op (o : SvCompOp) : CompOp :=
  match o with
  | SV_OP_EQ => OP_EQ | SV_OP_NE => OP_NE | SV_OP_LT => OP_LT
  | SV_OP_GT => OP_GT | SV_OP_LE => OP_LE | SV_OP_GE => OP_GE
  end.

Definition ast_agg_type (f : AstAggFuncType) : AggFuncType :=
  match f with
  | Agg_COUNT => AGG_COUNT | Agg_MAX => AGG_MAX | Agg_MIN => AGG_MIN
  | Agg_SUM => AGG_SUM | Agg_AVG => AGG_AVG
  end.

Definition agg_func_name (f : AggFuncType) : bytes :=
  bytes_of_string match f with
  | AGG_COUNT => "COUNT" | AGG_MAX => "MAX" | AGG_MIN => "MIN" | AGG_SUM => "SUM" | AGG_AVG => "AVG"
  end.

Definition agg_tab : bytes := bytes_of_string "__agg".
Definition union_tab : bytes := bytes_of_string "__union".

(** [Value::init_raw] where the buffer is not used: a number is written into a buffer of [len]
    bytes. *)
Definition check_raw (len : Z) (v : TValue) : res unit :=
  match tv_type v with
  | TYPE_STRING => if decide (len < Z.of_nat (length (str_val (tv_val v)))) then Err StringOverflowError else Ok tt
  | _ => if decide (len < 4) then Err Undefined else Ok tt
  end.

(** ** Name resolution *)

(** What FROM makes visible: the sources, the real names of visible names, and all columns. *)
Record Scope := mk_Scope {
  sources : list (QuerySource Query);
  name2real : gmap bytes bytes;
  all_cols : list ColMeta
}.

(** Columns of a derived table get its name and new offsets. *)
Fixpoint derived_cols (tab : bytes) (offset : Z) (cs : list ColMeta) : list ColMeta :=
  match cs with
  | [] => []
  | c :: cs => mk_ColMeta tab (cm_name c) (cm_type c) (cm_len c) offset :: derived_cols tab (offset + cm_len c) cs
  end.

Section analyze.
Context (db : gmap bytes TabMeta).

Definition add_ref (sc : Scope) (ref : TableRef (res Query)) : res Scope :=
  match tr_derived ref with
  | Some q =>
      if decide (tr_alias ref = []) then Err RMDBError
      else
        q ← q;
        let name := tr_alias ref in
        let cs := derived_cols name 0 (q_output q) in
        Ok (mk_Scope (sources sc ++ [mk_QuerySource name (Some q) cs]) (<[name := name]> (name2real sc)) (all_cols sc ++ cs))
  | None =>
      let name := tr_tab_name ref in
      m ← get_table db name;
      let names := <[name := name]> (name2real sc) in
      let names := if decide (tr_alias ref = []) then names else <[tr_alias ref := name]> names in
      Ok (mk_Scope (sources sc ++ [mk_QuerySource name None (tm_cols m)]) names (all_cols sc ++ tm_cols m))
  end.

Fixpoint add_refs (sc : Scope) (refs : list (TableRef (res Query))) : res Scope :=
  match refs with
  | [] => Ok sc
  | ref :: refs => sc ← add_ref sc ref; add_refs sc refs
  end.

(** The loop over the columns for a column without table. *)
Fixpoint infer_table (cs : list ColMeta) (col : bytes) (real : bytes) : res bytes :=
  match cs with
  | [] => if decide (real = []) then Err RMDBError else Ok real
  | c :: cs =>
      if decide (cm_name c = col) then
        if decide (real ≠ [] ∧ real ≠ cm_tab_name c) then Err RMDBError else infer_table cs col (cm_tab_name c)
      else infer_table cs col real
  end.

Section scope.
Context (sc : Scope).

Definition resolve_col (c : Col) : res TabCol :=
  real ← (if decide (tc_tab_name c ≠ []) then require (name2real sc !! tc_tab_name c) RMDBError
          else infer_table (all_cols sc) (tc_col_name c) []);
  let tc := mk_TabCol real (tc_col_name c) in
  if decide (is_Some (find_col (all_cols sc) tc)) then Ok tc else Err RMDBError.

Definition get_col_meta (c : TabCol) : res ColMeta := require (find_col (all_cols sc) c) RMDBError.

(** ** Aggregate calls *)

(** An [AggCall] with its [result_len]. *)
Record CallMeta := mk_CallMeta { cl_call : AggCall; cl_len : Z }.

(** [AggCall::key]. *)
Definition call_key (c : AggCall) : bytes :=
  agg_func_name (ac_type c) ++ [Byte.x28] ++
    (if ac_star c then [Byte.x2a] else tc_tab_name (ac_col c) ++ [Byte.x2e] ++ tc_col_name (ac_col c)) ++ [Byte.x29].

Definition no_col : TabCol := mk_TabCol [] [].

(** The call that an expression stands for, with its types. *)
Definition make_call (a : AggExpr) : res CallMeta :=
  let type := ast_agg_type (ae_func a) in
  '(col, arg_type, len) ← (if ae_star a then Ok (no_col, TYPE_INT, 4)
     else c ← require (ae_col a) Undefined; tc ← resolve_col c; m ← get_col_meta tc; Ok (tc, cm_type m, cm_len m));
  match type with
  | AGG_COUNT => Ok (mk_CallMeta (mk_AggCall type col (ae_star a) TYPE_INT) 4)
  | _ =>
      if ae_star a then Err RMDBError
      else if bool_decide (arg_type = TYPE_STRING) && negb (bool_decide (type = AGG_MAX)) && negb (bool_decide (type = AGG_MIN)) then Err RMDBError
      else match type with
        | AGG_AVG => Ok (mk_CallMeta (mk_AggCall type col false TYPE_FLOAT) 4)
        | _ => Ok (mk_CallMeta (mk_AggCall type col false arg_type) (match arg_type with TYPE_STRING => len | _ => 4 end))
        end
  end.

(** A call with the key of an earlier one is that one. *)
Definition add_agg_call (calls : list CallMeta) (a : AggExpr) : res (nat * list CallMeta) :=
  call ← make_call a;
  match list_find (λ c, call_key (cl_call c) = call_key (cl_call call)) calls with
  | Some (i, _) => Ok (i, calls)
  | None => Ok (length calls, calls ++ [call])
  end.

Definition default_agg_name (c : AggCall) : bytes :=
  agg_func_name (ac_type c) ++ [Byte.x28] ++ (if ac_star c then [Byte.x2a] else tc_col_name (ac_col c)) ++ [Byte.x29].

Definition group_contains (groups : list TabCol) (c : TabCol) : bool :=
  existsb (λ g, bool_decide (tc_tab_name g = tc_tab_name c) && bool_decide (tc_col_name g = tc_col_name c)) groups.

(** ** The select list *)

Record SelectState := mk_SelectState {
  calls : list CallMeta;
  terms : list SelectTerm;
  out_cols : list TabCol;
  has_aggregate : bool
}.

Definition add_item (groups : list TabCol) (st : SelectState) (item : SelectItem) : res SelectState :=
  '(term, calls', agg) ← match si_expr item with
    | ECol c =>
        tc ← resolve_col c;
        m ← get_col_meta tc;
        Ok (mk_SelectTerm false tc (-1) (if decide (si_alias item = []) then tc_col_name tc else si_alias item) (cm_type m) (cm_len m), calls st, has_aggregate st)
    | EAgg a =>
        '(i, calls') ← add_agg_call (calls st) a;
        call ← require (calls' !! i) Undefined;
        Ok (mk_SelectTerm true no_col (Z.of_nat i) (if decide (si_alias item = []) then default_agg_name (cl_call call) else si_alias item)
              (result_type (cl_call call)) (cl_len call), calls', true)
    | _ => Err RMDBError
    end;
  let tab := if agg || negb (bool_decide (groups = [])) then agg_tab else tc_tab_name (st_col term) in
  Ok (mk_SelectState calls' (terms st ++ [term]) (out_cols st ++ [mk_TabCol tab (output_name term)]) agg).

Fixpoint add_items (groups : list TabCol) (st : SelectState) (items : list SelectItem) : res SelectState :=
  match items with
  | [] => Ok st
  | item :: items => st ← add_item groups st item; add_items groups st items
  end.

(** [SELECT *] has all columns. *)
Definition select_list (groups : list TabCol) (items : list SelectItem) (having : list HavingExpr) : res SelectState :=
  match items with
  | [] =>
      if negb (bool_decide (groups = [])) || negb (bool_decide (length having = 0%nat)) then Err RMDBError
      else Ok (mk_SelectState [] [] ((λ c, mk_TabCol (cm_tab_name c) (cm_name c)) <$> all_cols sc) false)
  | _ => add_items groups (mk_SelectState [] [] [] false) items
  end.

(** With aggregation, plain columns are grouped and the result has the columns of a table. *)
Definition check_aggregate (groups : list TabCol) (st : SelectState) : res SelectState :=
  if has_aggregate st then
    if forallb (λ t, is_agg t || group_contains groups (st_col t)) (terms st)
    then Ok (mk_SelectState (calls st) (terms st) ((λ c, mk_TabCol agg_tab (tc_col_name c)) <$> out_cols st) true)
    else Err RMDBError
  else Ok st.

(** ** Conditions *)

(** The right side of a condition before its type is checked. *)
Inductive Rhs := RVal (v : TValue) | RCol (c : TabCol).

Definition resolve_cond (e : BinaryExpr) : res (TabCol * CompOp * Rhs) :=
  if decide (tc_col_name (be_lhs e) = bytes_of_string "__agg_in_where__") then Err RMDBError
  else
    lhs ← resolve_col (be_lhs e);
    rhs ← match be_rhs e with
          | ELit l => v ← convert_sv_value l; Ok (RVal v)
          | ECol c => tc ← resolve_col c; Ok (RCol tc)
          | _ => Err Undefined
          end;
    Ok (lhs, convert_sv_comp_op (be_op e), rhs).

(** Literals get the type of their column and have to fit it. *)
Definition check_types (lm : ColMeta) (lhs : TabCol) (o : CompOp) (rhs : TValue + (TabCol * ColMeta)) : res Condition :=
  match rhs with
  | inl v =>
      v ← convert_number (cm_type lm) v;
      _ ← check_raw (cm_len lm) v;
      if decide (cm_type lm = tv_type v) then Ok (mk_Condition lhs o true no_col (tv_val v)) else Err IncompatibleTypeError
  | inr (rc, rm) =>
      if decide (cm_type lm = cm_type rm) then Ok (mk_Condition lhs o false rc (mk_Value [] [])) else Err IncompatibleTypeError
  end.

Definition check_cond (c : TabCol * CompOp * Rhs) : res Condition :=
  let '(lhs, o, rhs) := c in
  lm ← get_col_meta lhs;
  rhs ← match rhs with RVal v => Ok (inl v) | RCol rc => rm ← get_col_meta rc; Ok (inr (rc, rm)) end;
  check_types lm lhs o rhs.

(** ** HAVING *)

(** A term with its type and the calls seen so far. *)
Definition convert_having_term (groups : list TabCol) (cs : list CallMeta) (e : Expr) : res (AggTerm * ColType * list CallMeta) :=
  match e with
  | EAgg a =>
      '(i, cs) ← add_agg_call cs a;
      call ← require (cs !! i) Undefined;
      Ok (AGG_TERM_AGG (Z.of_nat i), result_type (cl_call call), cs)
  | ECol c =>
      tc ← resolve_col c;
      if group_contains groups tc then m ← get_col_meta tc; Ok (AGG_TERM_COL tc, cm_type m, cs) else Err RMDBError
  | ELit l => v ← convert_sv_value l; Ok (AGG_TERM_VALUE v, tv_type v, cs)
  | EArith _ _ _ => Err RMDBError
  end.

Fixpoint convert_having (groups : list TabCol) (cs : list CallMeta) (l : list HavingExpr) : res (list AggHavingCond * list CallMeta) :=
  match l with
  | [] => Ok ([], cs)
  | h :: l =>
      '(lt, lty, cs) ← convert_having_term groups cs (he_lhs h);
      '(rt, rty, cs) ← convert_having_term groups cs (he_rhs h);
      if negb (is_number lty && is_number rty) && negb (bool_decide (lty = rty)) then Err RMDBError
      else
        '(hs, cs) ← convert_having groups cs l;
        Ok (mk_AggHavingCond lt (convert_sv_comp_op (he_op h)) rt :: hs, cs)
  end.

(** ** ORDER BY *)

(** With aggregation a column of the result is meant, by its name; else a grouped column. *)
Definition order_col (groups : list TabCol) (st : SelectState) (c : Col) : res TabCol :=
  if has_aggregate st then
    match list_find (λ o, tc_col_name o = tc_col_name c) (out_cols st) with
    | Some (_, out) => Ok out
    | None => raw ← resolve_col c; if group_contains groups raw then Ok (mk_TabCol agg_tab (tc_col_name raw)) else Err RMDBError
    end
  else resolve_col c.

Definition is_desc_dir (d : OrderByDir) : bool := match d with OrderBy_DESC => true | _ => false end.

Definition order_term (groups : list TabCol) (st : SelectState) (o : Col * OrderByDir) : res OrderByTerm :=
  c ← order_col groups st o.1; Ok (mk_OrderByTerm c (is_desc_dir o.2)).

(** ** The columns of the result *)

Fixpoint star_output (offset : Z) (cs : list TabCol) : res (list ColMeta) :=
  match cs with
  | [] => Ok []
  | c :: cs =>
      m ← get_col_meta c;
      rest ← star_output (offset + cm_len m) cs;
      Ok (mk_ColMeta (cm_tab_name m) (tc_col_name c) (cm_type m) (cm_len m) offset :: rest)
  end.

Fixpoint terms_output (offset : Z) (ts : list SelectTerm) : res (list ColMeta) :=
  match ts with
  | [] => Ok []
  | t :: ts =>
      m ← (if is_agg t then Ok (mk_ColMeta agg_tab (output_name t) (st_type t) (st_len t) offset)
           else m ← get_col_meta (st_col t); Ok (mk_ColMeta (cm_tab_name m) (output_name t) (cm_type m) (cm_len m) offset));
      rest ← terms_output (offset + cm_len m) ts;
      Ok (m :: rest)
  end.

(** ** SELECT *)

Definition analyze_body (x : SelectBody) : res Query :=
  groups ← mapM resolve_col (sl_groups x);
  st ← select_list groups (sl_items x) (sl_having x);
  let agg := has_aggregate st || negb (bool_decide (groups = [])) || negb (bool_decide (length (sl_having x) = 0%nat)) in
  st ← check_aggregate groups (mk_SelectState (calls st) (terms st) (out_cols st) agg);
  conds ← mapM resolve_cond (sl_conds x);
  conds ← mapM check_cond conds;
  '(having, cs) ← convert_having groups (calls st) (sl_having x);
  st ← check_aggregate groups (mk_SelectState cs (terms st) (out_cols st) (has_aggregate st));
  order ← match sl_order x with None => Ok [] | Some l => mapM (order_term groups st) l end;
  output ← match sl_items x with [] => star_output 0 (out_cols st) | _ => terms_output 0 (terms st) end;
  Ok (mk_Query conds (out_cols st) (terms st) (cl_call <$> calls st) groups having order output
        (sources sc) [] (has_aggregate st) (sl_limit x) (qs_name <$> sources sc)).
End scope.

(** The table references of a FROM clause. *)
Definition refs_of {T} (tabs : list (bytes * bytes)) (refs : list (TableRef T)) : list (TableRef T) :=
  match refs with [] => (λ '(tab, alias), mk_TableRef tab alias None) <$> tabs | _ => refs end.

Definition analyze_select (x : SelectBody) (tabs : list (bytes * bytes)) (refs : list (TableRef (res Query))) : res Query :=
  sc ← add_refs (mk_Scope [] ∅ []) (refs_of tabs refs);
  analyze_body sc x.

(** ** UNION *)

Definition union_common_type (l r : ColMeta) : res (ColType * Z) :=
  if decide (cm_type l = cm_type r) then Ok (cm_type l, match cm_type l with TYPE_STRING => Z.max (cm_len l) (cm_len r) | _ => cm_len l end)
  else match cm_type l, cm_type r with
    | TYPE_INT, TYPE_FLOAT | TYPE_FLOAT, TYPE_INT => Ok (TYPE_FLOAT, 4)
    | _, _ => Err RMDBError
    end.

Fixpoint union_children (branches : list (res Query)) : res (list Query) :=
  match branches with
  | [] => Ok []
  | b :: branches => q ← b; if decide (length (q_output q) = 0%nat) then Err RMDBError else qs ← union_children branches; Ok (q :: qs)
  end.

(** The common type of a column of the first branch with those of the others. *)
Fixpoint union_column (c : ColMeta) (others : list ColMeta) : res ColMeta :=
  match others with
  | [] => Ok c
  | r :: others => '(type, len) ← union_common_type c r; union_column (mk_ColMeta (cm_tab_name c) (cm_name c) type len (cm_offset c)) others
  end.

(** The columns from position [i]. *)
Fixpoint union_output (offset : Z) (i : nat) (first : list ColMeta) (others : list Query) : res (list ColMeta) :=
  match first with
  | [] => Ok []
  | c :: first =>
      cs ← mapM (λ q, require (q_output q !! i) Undefined) others;
      c' ← union_column c cs;
      rest ← union_output (offset + cm_len c') (S i) first others;
      Ok (mk_ColMeta union_tab (cm_name c) (cm_type c') (cm_len c') offset :: rest)
  end.

Definition analyze_union (branches : list (res Query)) : res Query :=
  if decide (length branches < 2)%nat then Err RMDBError
  else
    children ← union_children branches;
    match children with
    | [] => Err Undefined
    | first :: others =>
        if forallb (λ q, bool_decide (length (q_output q) = length (q_output first))) children then
          output ← union_output 0 0 (q_output first) others;
          Ok (mk_Query [] ((λ c, mk_TabCol (cm_tab_name c) (cm_name c)) <$> output) [] [] [] [] [] output [] children false (-1) [])
        else Err RMDBError
    end.

Fixpoint analyze_query_expr (e : QueryExpr) : res Query :=
  match e with
  | SelectStmt body tabs refs =>
      analyze_select body tabs (map (λ r, match r with mk_TableRef tab alias d => mk_TableRef tab alias (match d with Some e => Some (analyze_query_expr e) | None => None end) end) refs)
  | UnionStmt branches => analyze_union (map analyze_query_expr branches)
  end.

(** ** INSERT, DELETE and UPDATE *)

Fixpoint check_column_loop (cs : list ColMeta) (col : bytes) (tab : bytes) : res bytes :=
  match cs with
  | [] => if decide (tab = []) then Err (ColumnNotFoundError (String.string_of_list_byte col)) else Ok tab
  | c :: cs =>
      if decide (cm_name c = col) then
        if decide (tab ≠ []) then Err (AmbiguousColumnError (String.string_of_list_byte col)) else check_column_loop cs col (cm_tab_name c)
      else check_column_loop cs col tab
  end.
Definition check_column (cs : list ColMeta) (c : TabCol) : res TabCol :=
  if decide (tc_tab_name c = []) then tab ← check_column_loop cs (tc_col_name c) []; Ok (mk_TabCol tab (tc_col_name c)) else Ok c.

Definition get_all_cols (tabs : list bytes) : res (list ColMeta) :=
  ms ← mapM (get_table db) tabs; Ok (concat (tm_cols <$> ms)).

Definition get_clause (e : BinaryExpr) : res (TabCol * CompOp * Rhs) :=
  rhs ← match be_rhs e with
        | ELit l => v ← convert_sv_value l; Ok (RVal v)
        | ECol c => Ok (RCol c)
        | _ => Err Undefined
        end;
  Ok (be_lhs e, convert_sv_comp_op (be_op e), rhs).

(** The column in the table that it names. *)
Definition table_col (c : TabCol) : res ColMeta :=
  m ← get_table db (tc_tab_name c);
  require (snd <$> list_find (λ cm, cm_name cm = tc_col_name c) (tm_cols m)) (ColumnNotFoundError (String.string_of_list_byte (tc_col_name c))).

Definition check_clause (cs : list ColMeta) (c : TabCol * CompOp * Rhs) : res Condition :=
  let '(lhs, o, rhs) := c in
  lhs ← check_column cs lhs;
  rhs ← match rhs with RVal v => Ok (RVal v) | RCol rc => rc ← check_column cs rc; Ok (RCol rc) end;
  lm ← table_col lhs;
  rhs ← match rhs with RVal v => Ok (inl v) | RCol rc => rm ← table_col rc; Ok (inr (rc, rm)) end;
  check_types lm lhs o rhs.

Definition analyze_where (tabs : list bytes) (es : list BinaryExpr) : res (list Condition) :=
  conds ← mapM get_clause es;
  cs ← get_all_cols tabs;
  mapM (check_clause cs) conds.

(** One assignment; the literal is converted behind the checks of the columns. *)
Definition analyze_set_clause (tab : bytes) (m : TabMeta) (s : bytes * Expr) : res SetClause :=
  let '(col, e) := s in
  match e with
  | ELit l =>
      _ ← require (snd <$> list_find (λ cm, cm_name cm = col) (tm_cols m)) (ColumnNotFoundError (String.string_of_list_byte col));
      v ← convert_sv_value l;
      analyze_set tab m col (SetValue v)
  | EArith c minus l =>
      let set v := analyze_set tab m col (SetArith (tc_tab_name c) (tc_col_name c) minus v) in
      _ ← set (set_int 0);
      v ← convert_sv_value l;
      set v
  | _ =>
      _ ← require (snd <$> list_find (λ cm, cm_name cm = col) (tm_cols m)) (ColumnNotFoundError (String.string_of_list_byte col));
      Err RMDBError
  end.

(** What the analysis of a statement fills in. *)
Inductive Analyzed :=
  | AQuery (explain : bool) (q : Query)
  | AUpdate (set_clauses : list SetClause) (conds : list Condition)
  | ADelete (conds : list Condition)
  | AInsert (values : list TValue)
  | AOther.

Definition do_analyze (parse : TreeNode) : res Analyzed :=
  match parse with
  | ExplainStmt body tabs refs => q ← analyze_query_expr (SelectStmt body tabs refs); Ok (AQuery true q)
  | QueryNode e => q ← analyze_query_expr e; Ok (AQuery false q)
  | UpdateStmt tab sets es =>
      m ← get_table db tab;
      scs ← mapM (analyze_set_clause tab m) sets;
      conds ← analyze_where [tab] es;
      Ok (AUpdate scs conds)
  | DeleteStmt tab es => conds ← analyze_where [tab] es; Ok (ADelete conds)
  | InsertStmt _ vals => vs ← mapM convert_sv_value vals; Ok (AInsert vs)
  | OtherNode => Ok AOther
  end.
End analyze.
End Analyze.
