(* ===== verification/PortalFacts.v ===== *)
(** * Plans run as they mean

    The executors that [convert_plan_executor] makes of a plan deliver the records of
    [eval_plan], if the scans at the leaves deliver theirs. *)

From S2P Require Import Prelude Conditions Executor ExecutorFacts ExecutorSort Aggregate AggregateFacts Scans Portal.

Module PortalFacts.
Import Cond Exec ExecFacts Agg Scans Portal.

(** ** Induction on plans *)

Section plan_ind.
Context (P : Plan → Prop).
Context (Hscan : ∀ s, P (PScan s)) (Hfilter : ∀ p c, P p → P (PFilter p c)) (Hrename : ∀ p c, P p → P (PRename p c)).
Context (Hproj : ∀ p c, P p → P (PProjection p c)) (Hlimit : ∀ p n, P p → P (PLimit p n)) (Hsort : ∀ p o, P p → P (PSort p o)).
Context (Hunion : ∀ ps c, Forall P ps → P (PUnion ps c)) (Hjoin : ∀ p1 p2 c, P p1 → P p2 → P (PJoin p1 p2 c)).
Context (Hagg : ∀ p a b c d, P p → P (PAggregate p a b c d)).

Fixpoint plan_tree_ind (p : Plan) : P p :=
  match p with
  | PScan s => Hscan s
  | PFilter p c => Hfilter p c (plan_tree_ind p)
  | PRename p c => Hrename p c (plan_tree_ind p)
  | PProjection p c => Hproj p c (plan_tree_ind p)
  | PLimit p n => Hlimit p n (plan_tree_ind p)
  | PSort p o => Hsort p o (plan_tree_ind p)
  | PUnion ps c => Hunion ps c ((fix go l : Forall P l := match l with [] => Forall_nil_2 _ | p :: l => Forall_cons_2 _ _ _ (plan_tree_ind p) (go l) end) ps)
  | PJoin p1 p2 c => Hjoin p1 p2 c (plan_tree_ind p1) (plan_tree_ind p2)
  | PAggregate p a b c d => Hagg p a b c d (plan_tree_ind p)
  end.
End plan_ind.

(** The scans of a plan. *)
Fixpoint scans (p : Plan) : list ScanPlan :=
  match p with
  | PScan s => [s]
  | PFilter p _ | PRename p _ | PProjection p _ | PLimit p _ | PSort p _ | PAggregate p _ _ _ _ => scans p
  | PUnion ps _ => concat (map scans ps)
  | PJoin p1 p2 _ => scans p1 ++ scans p2
  end.

Section facts.
Context (std_hash : Z → Z) (ndebug : bool) (fuel : nat) (t : Z) (I : World → Prop) (w : World).
Context (table_cols : list byte → option (list ColMeta)) (scan : ScanPlan → option (record * list ColMeta) → option (list record)).
Abbreviation conv := (convert_plan_executor std_hash ndebug fuel t w).
Abbreviation hdr := (plan_cols table_cols).
Abbreviation eval := (eval_plan fuel table_cols scan).

Definition finishes (e : Exec World) : Prop := ∀ s, does I (finish e s) (λ _, True).

(** An executor that delivers what [ev] says, alone and on the inside of a join. *)
Record meets (e : Exec World) (st : bool) (ev : option (record * list ColMeta) → option (list record)) : Prop := {
  me_finish : finishes e;
  me_alone rows : ev None = Some rows → implements I e st rows;
  me_inner lcols : implements_for I e lcols (λ l, is_Some (ev (Some (l, lcols)))) (λ l, default [] (ev (Some (l, lcols))))
}.

Record scan_ok (s : ScanPlan) : Prop := {
  so_cols e : scan_executor std_hash ndebug fuel t s w = Ok e → table_cols (sp_tab s) = Some (cols e) ∧ tupleLen e = table_len (cols e);
  so_meets e : scan_executor std_hash ndebug fuel t s w = Ok e → meets e true (λ b, scan s b ≫= bounded fuel)
}.

(** The lists of [UnionPlan] by name. *)
Fixpoint conv_all (l : list Plan) : res (list (Exec World)) :=
  match l with [] => Ok [] | c :: l => e ← conv c; es ← conv_all l; Ok (e :: es) end.
Definition eval_all (out : list ColMeta) : list Plan → option (list (list record)) := fix go l :=
  match l with
  | [] => Some []
  | c :: l =>
      x ← hdr c;
      rows ← eval None c;
      if decide (length out ≤ length x.1)%nat then ls ← go l; Some ((union_record out x.1 (union_len out) <$> (rows : list record)) :: ls)
      else None
  end.

Lemma conv_union ps out : conv (PUnion ps out) = es ← conv_all ps; Ok (UnionExecutor fuel es out).
Proof. reflexivity. Qed.
Lemma eval_union b ps out : eval b (PUnion ps out) = ls ← eval_all out ps; l ← bounded fuel (concat ls); Some (dedup ∅ l).1.
Proof. reflexivity. Qed.

(** ** Lengths *)

Lemma bounded_Some l l' : bounded fuel l = Some l' → l' = l ∧ (length l < fuel)%nat.
Proof. unfold bounded. case_decide; [by intros [= <-]|done]. Qed.

Lemma sort_length order l : length (stable_sort (order_less order) l) = length l.
Proof. exact (ExecSort.length_stable_sort (λ a b, order_compare a b order) l). Qed.

Lemma eval_bounded p : ∀ b l, eval b p = Some l → (length l < fuel)%nat.
Proof.
  induction p as [s|p c IH|p c IH|p c IH|p n IH|p o IH|ps out IH|p1 p2 c IH1 IH2|p a1 a2 a3 a4 IH] using plan_tree_ind; intros b l He.
  - apply bind_Some in He as (l' & _ & [-> ?]%bounded_Some). done.
  - apply bind_Some in He as (x & _ & (l' & Hl & [= <-])%bind_Some). eapply Nat.le_lt_trans; [apply length_filter|by eapply IH].
  - by eapply IH.
  - apply bind_Some in He as (x & _ & (l' & Hl & Hs)%bind_Some). destruct (select_cols _ _ _); [|done]. injection Hs as <-. rewrite length_fmap. by eapply IH.
  - apply bind_Some in He as (l' & Hl & [= <-]). rewrite length_take. apply IH in Hl. lia.
  - apply bind_Some in He as (x & _ & (order & _ & (l' & Hl & [= <-])%bind_Some)%bind_Some). rewrite sort_length. by eapply IH.
  - rewrite eval_union in He. apply bind_Some in He as (ls & _ & (l' & [-> Hb]%bounded_Some & [= <-])%bind_Some). eapply Nat.le_lt_trans; [apply length_dedup|done].
  - cbn [eval_plan] in He. destruct (steady p1); [|done]. apply bind_Some in He as (x & _ & (y & _ & (L & _ & (ls & _ & He)%bind_Some)%bind_Some)%bind_Some).
    case_decide; [|done]. apply bounded_Some in He as [-> ?]. done.
  - apply bind_Some in He as (x & _ & (l' & _ & (l2 & _ & [-> ?]%bounded_Some)%bind_Some)%bind_Some). done.
Qed.

(** ** Operators *)

Lemma meets_const e st o : finishes e → unbound I e → (∀ rows, o = Some rows → implements I e st rows) → meets e st (λ _, o).
Proof.
  intros Hf Hu Ha. split; [done|done|]. intros lcols. destruct o as [rows|].
  - eapply implements_for_mono; [|eapply (implements_any _ _ lcols (λ _, True)); [by apply Ha|done]]. done.
  - split; [|done]. by intros l s [? ?].
Qed.

Lemma finishes_buffered St init out len fill fin : (∀ s, does I (fin s) (λ _, True)) → finishes (buffered fuel St init out len fill fin).
Proof. intros Hf s. eapply does_map; [apply Hf|]. done. Qed.

Lemma finishes_union es : Forall finishes es → ∀ s, does I (union_finish es s) (λ _, True).
Proof.
  induction 1 as [|e es He Hes IH]; intros s; cbn [union_finish]; [by apply does_ret|]. eapply does_seq; [apply He|]. intros p _.
  eapply does_map; [apply IH|]. done.
Qed.

(** What is known of the executor of a plan. *)
Definition good (p : Plan) : Prop := ∀ e, conv p = Ok e → Forall scan_ok (scans p) →
  (∀ x, hdr p = Some x → x = (cols e, tupleLen e)) ∧ meets e (steady p) (λ b, eval b p).

Lemma good_scan s : good (PScan s).
Proof.
  intros e He [Hs _]%Forall_cons. split; [|by apply (so_meets _ Hs)]. destruct (so_cols _ Hs e He) as [E1 E2].
  intros x (cs & Hcs & [= <-])%bind_Some. rewrite E1 in Hcs. injection Hcs as <-. by rewrite E2.
Qed.

Lemma good_filter p c : good p → good (PFilter p c).
Proof.
  intros Hp e He Hs. apply res_bind_ok in He as (e' & He & [= <-]). destruct (Hp e' He Hs) as [Hh [Hf Ha Hi]]. split; [exact Hh|].
  assert (∀ b rows, eval b (PFilter p c) = Some rows → ∃ l, eval b p = Some l ∧ rows = filter (λ r, eval_conds r (cols e') c = true) l) as Hev.
  { intros b rows (x & Hx & (l & Hl & [= <-])%bind_Some)%bind_Some. exists l. by rewrite (Hh x Hx). }
  split.
  - intros s. eapply does_seq; [apply Hf|]. intros s' _. by apply does_ret.
  - intros rows (l & Hl & ->)%Hev. eapply filter_implements; [by apply Ha|by eapply eval_bounded].
  - intros lcols. eapply implements_for_mono; [|apply filter_implements_for; [apply (Hi lcols)|]].
    + intros l [rows Hr]. destruct (Hev _ _ Hr) as (l' & Hl & E). rewrite Hr, Hl. by split; [|].
    + intros l [rows Hr]. rewrite Hr. simpl. by eapply eval_bounded.
Qed.

Lemma good_maps (f : record → record) (st : bool) e e' sel (ev ev' : option (record * list ColMeta) → option (list record)) : maps I e' e f sel →
  (∀ b rows, ev b = Some rows → ∃ l, ev' b = Some l ∧ rows = f <$> l) → meets e' st ev' → meets e st ev.
Proof.
  intros Hm Hev [Hf Ha Hi]. split.
  - intros s. apply (mp_finish _ _ _ _ _ Hm), Hf.
  - intros rows (l & Hl & ->)%Hev. eapply maps_implements; [done|by apply Ha].
  - intros lcols. eapply implements_for_mono; [|eapply maps_implements_for; [exact Hm|apply (Hi lcols)]].
    intros l [rows Hr]. destruct (Hev _ _ Hr) as (l' & Hl & E). rewrite Hr, Hl. by split; [|].
Qed.

Lemma good_rename p c : good p → good (PRename p c).
Proof.
  intros Hp e He Hs. apply res_bind_ok in He as (e' & He & [= <-]). destruct (Hp e' He Hs) as [Hh Hm]. split.
  - intros x (y & Hy & [= <-])%bind_Some. by rewrite (Hh y Hy).
  - eapply good_maps; [apply rename_maps| |exact Hm]. intros b rows Hr. exists rows. by rewrite list_fmap_id.
Qed.

Lemma good_projection p c : good p → good (PProjection p c).
Proof.
  intros Hp e He Hs. apply res_bind_ok in He as (e' & He & (sel & Hsel & [= <-])%res_bind_ok). destruct (Hp e' He Hs) as [Hh Hm]. split.
  - intros x (y & Hy & Hx)%bind_Some. rewrite (Hh y Hy) in Hx. cbn [fst] in Hx. rewrite Hsel in Hx. by injection Hx as <-.
  - eapply good_maps; [apply projection_maps| |exact Hm]. intros b rows (y & Hy & (l & Hl & Hx)%bind_Some)%bind_Some.
    rewrite (Hh y Hy) in Hx. cbn [fst] in Hx. rewrite Hsel in Hx. injection Hx as <-. by exists l.
Qed.

Lemma good_limit p n : good p → good (PLimit p n).
Proof.
  intros Hp e He Hs. apply res_bind_ok in He as (e' & He & [= <-]). destruct (Hp e' He Hs) as [Hh [Hf Ha Hi]]. split; [exact Hh|].
  apply (meets_const _ _ (eval None (PLimit p n))).
  - intros s. eapply does_map; [apply Hf|]. done.
  - intros l lc s. by apply does_ret.
  - intros rows (l & Hl & [= <-])%bind_Some. by eapply limit_implements, Ha.
Qed.

Lemma find_orders cs obs order : mapM (find_order cs) obs = Some order → order_found cs obs order.
Proof.
  intros Hm. apply mapM_Some_1 in Hm. eapply Forall2_impl; [exact Hm|]. intros o [m d] (c & Hc & [= <- <-])%bind_Some. done.
Qed.

Lemma good_sort p o : good p → good (PSort p o).
Proof.
  intros Hp e He Hs. apply res_bind_ok in He as (e' & He & [= <-]). destruct (Hp e' He Hs) as [Hh [Hf Ha Hi]]. split; [exact Hh|].
  apply (meets_const _ _ (eval None (PSort p o))); [by apply finishes_buffered|by apply buffered_unbound|].
  intros rows (x & Hx & (order & Ho & (l & Hl & [= <-])%bind_Some)%bind_Some)%bind_Some. eapply sort_implements; [by apply Ha|by eapply eval_bounded| |apply sort_length].
  rewrite (Hh x Hx) in Ho. by apply find_orders.
Qed.

Lemma good_union ps out : Forall good ps → good (PUnion ps out).
Proof.
  intros Hps e He Hs. rewrite conv_union in He. apply res_bind_ok in He as (es & He & [= <-]). cbn [scans] in Hs.
  assert (Forall finishes es ∧ ∀ ls, eval_all out ps = Some ls → ∃ rows, Forall2 (child_ok I fuel out) es rows ∧ union_rows out es rows = concat ls) as [Hf Hall].
  { revert es He Hs. induction Hps as [|p ps Hp Hps IH]; intros es He Hs.
    - injection He as <-. split; [constructor|]. intros ls [= <-]. exists []. split; [constructor|done].
    - apply res_bind_ok in He as (e & He & (es' & Hes & [= <-])%res_bind_ok). cbn [map concat] in Hs. apply Forall_app in Hs as [Hs1 Hs2].
      destruct (Hp e He Hs1) as [Hh [Hf Ha _]]. destruct (IH es' Hes Hs2) as [Hfs Hls]. split; [by constructor|].
      intros ls (x & Hx & (l & Hl & Hd)%bind_Some)%bind_Some. case_decide; [|done]. apply bind_Some in Hd as (ls' & Hls' & [= <-]).
      destruct (Hls ls' Hls') as (rows & Hrows & E). rewrite (Hh x Hx) in *. exists (l :: rows). split.
      + constructor; [|done]. split_and!; [eexists; by apply Ha|by eapply eval_bounded|done].
      + unfold union_rows in *. cbn [zip_with concat]. by rewrite E. }
  split; [by intros x [= <-]|].
  apply (meets_const _ _ (eval None (PUnion ps out))); [by apply finishes_buffered, finishes_union|by apply buffered_unbound|].
  intros rows. rewrite eval_union. intros (ls & Hls & (l & [-> Hb]%bounded_Some & [= <-])%bind_Some)%bind_Some.
  destruct (Hall ls Hls) as (rs & Hrs & E). rewrite <-E in *. by apply union_implements.
Qed.

Lemma good_join p1 p2 c : good p1 → good p2 → good (PJoin p1 p2 c).
Proof.
  intros Hp1 Hp2 e He Hs. apply res_bind_ok in He as (e1 & He1 & (e2 & He2 & [= <-])%res_bind_ok). apply Forall_app in Hs as [Hs1 Hs2].
  destruct (Hp1 e1 He1 Hs1) as [Hh1 [Hf1 Ha1 _]], (Hp2 e2 He2 Hs2) as [Hh2 [Hf2 _ Hi2]]. split.
  { intros x (y & Hy & (z & Hz & [= <-])%bind_Some)%bind_Some. by rewrite (Hh1 y Hy), (Hh2 z Hz). }
  apply (meets_const _ _ (eval None (PJoin p1 p2 c))).
  - intros s. eapply does_seq; [apply Hf1|]. intros s1 _. eapply does_map; [apply Hf2|]. done.
  - intros l lc s. by apply does_ret.
  - intros rows Hr. cbn [eval_plan] in Hr. destruct (steady p1) eqn:Est; [|done].
    apply bind_Some in Hr as (x & Hx & (y & Hy & (L & HL & (ls & Hls & Hr)%bind_Some)%bind_Some)%bind_Some). case_decide as Hf; [|done].
    apply bounded_Some in Hr as [-> Hb]. rewrite (Hh1 x Hx), (Hh2 y Hy) in Hls. cbn [fst] in Hls.
    set (R := λ l, default [] (eval (Some (l, cols e1)) p2)).
    assert (concat ls = join_rows e1 e2 c R L ∧ Forall (λ l, is_Some (eval (Some (l, cols e1)) p2)) L) as [E Hdom].
    { apply mapM_Some_1 in Hls. clear -Hls. unfold join_rows, R. induction Hls as [|l x L ls (rs & Hrs & [= <-])%bind_Some Hm [IH1 IH2]]; [done|].
      cbn [concat mbind list_bind]. rewrite Hrs, IH1. split; [done|]. constructor; [by eexists|done]. }
    rewrite E in *. apply (join_implements _ _ _ _ _ R _ (Hi2 (cols e1))); try done.
    + intros l [rs Hrs]. unfold R. rewrite Hrs. simpl. by eapply eval_bounded.
    + by apply Ha1.
Qed.

Lemma good_aggregate p terms calls groups having : good p → good (PAggregate p terms calls groups having).
Proof.
  intros Hp e He Hs. apply res_bind_ok in He as (e' & He & [= <-]). destruct (Hp e' He Hs) as [Hh [Hf Ha _]]. split; [by intros x [= <-]|].
  apply (meets_const _ _ (eval None (PAggregate p terms calls groups having))); [by apply finishes_buffered|by apply buffered_unbound|].
  intros rows (x & Hx & (l & Hl & (out & Ho & [-> Hb]%bounded_Some)%bind_Some)%bind_Some)%bind_Some. rewrite (Hh x Hx) in Ho.
  unfold aggregate in Ho. apply bind_Some in Ho as (ms & Hms & Ho). cbn [fst snd] in *. destruct (forallb _ _) eqn:Hc; [|done].
  destruct (results _ _ _ _ _) as [out'|] eqn:Hr; [|done]. injection Ho as ->.
  eapply (AggFacts.agg_implements _ _ _ _ _ _ _ ms); [|by apply Ha|by eapply eval_bounded|done|exact Hr].
  split; [by apply mapM_Some_1|]. apply Forall_forall. intros call Hin. rewrite forallb_forall in Hc. specialize (Hc call (proj1 (list_elem_of_In _ _) Hin)).
  apply orb_prop in Hc as [[H1 H2]%andb_prop|H1]; [left|right]; by apply bool_decide_eq_true_1 in H1.
Qed.

Lemma plan_good p : good p.
Proof.
  induction p using plan_tree_ind; [apply good_scan|by apply good_filter|by apply good_rename|by apply good_projection|by apply good_limit|
    by apply good_sort|by apply good_union|by apply good_join|by apply good_aggregate].
Qed.

(** A query returns the records of its plan. *)
Lemma run_select_ok p e rows : I w → conv p = Ok e → Forall scan_ok (scans p) → eval None p = Some rows →
  ∃ w', run_select std_hash ndebug fuel t p w = (Ok rows, w') ∧ I w'.
Proof.
  intros Hw He Hs Hr. destruct (plan_good p e He Hs) as [_ [_ Ha _]]. unfold run_select. rewrite He.
  destruct (select_from_ok _ fuel e _ rows (Ha rows Hr) (eval_bounded p None rows Hr) w Hw) as (l & w' & Hrun & Hw' & ->). by exists w'.
Qed.
End facts.
End PortalFacts.
