(* ===== verification/ScanBounds.v ===== *)
(** * The bounds of an index scan

    Every record that satisfies the conditions of an index scan has its key between the bounds
    that [build_bounds] computes, strictly where a bound is open.  The records are those the
    server stores: strings padded with zeros, floats finite. *)

From Stdlib Require Import SpecFloat.
From S2P Require Import Prelude RecordFile Conditions Index IndexTree IndexKeys Executor Scans.

Module ScanBounds.
Import RecFile Cond IxKeys Exec Scans.

(** ** Fields and values of a column *)

Definition nonzero (bs : list byte) : Prop := Byte.x00 ∉ bs.
Definition pad (len : Z) (s : list byte) : list byte := s ++ replicate (Z.to_nat len - length s) Byte.x00.

(** Finite floats. *)
Definition finite_bits (b : Z) : Prop := b mod 2147483648 ≤ 2139095039.

Definition field_ok (type : ColType) (len : Z) (bs : list byte) : Prop :=
  Z.of_nat (length bs) = len ∧
  match type with
  | TYPE_INT => len = 4
  | TYPE_FLOAT => len = 4 ∧ finite_bits (dec_u32 bs)
  | TYPE_STRING => bs = pad len (c_str bs)
  end.

Definition value_ok (type : ColType) (len : Z) (v : Value) : Prop :=
  match type with
  | TYPE_INT => length (v_bits v) = 4%nat
  | TYPE_FLOAT => length (v_bits v) = 4%nat ∧ not_nan (dec_u32 (v_bits v))
  | TYPE_STRING => nonzero (str_val v) ∧ Z.of_nat (length (str_val v)) ≤ len
  end.

(** The comparison of a field with a value that [eval_conds] makes. *)
Definition value_compare (type : ColType) (bs : list byte) (v : Value) : option comparison :=
  match type with
  | TYPE_INT => Some (int_of (take 4 bs) ?= int_of (v_bits v))
  | TYPE_FLOAT => SFcompare (float_of (take 4 bs)) (float_of (v_bits v))
  | TYPE_STRING => Some (byte_compare (c_str bs) (str_val v))
  end.

Lemma c_str_nonzero bs : nonzero (c_str bs).
Proof.
  unfold nonzero. induction bs as [|b bs IH]; simpl; [apply not_elem_of_nil|]. case_decide; [apply not_elem_of_nil|].
  apply not_elem_of_cons. by split; [congruence|].
Qed.

(** Padded strings compare as the strings do. *)
Lemma pad_compare x : ∀ y n m, nonzero x → nonzero y → (length x + n = length y + m)%nat →
  byte_compare (x ++ replicate n Byte.x00) (y ++ replicate m Byte.x00) = byte_compare x y.
Proof.
  assert (∀ n, byte_compare (replicate n Byte.x00) (replicate n Byte.x00) = Eq) as Hz by (induction n as [|n IH]; simpl; [done|exact IH]).
  assert (∀ b, b ≠ Byte.x00 → 0 < byte.unsigned b) as Hpos.
  { intros b Hb. pose proof (byte.unsigned_range b). assert (byte.unsigned b ≠ 0); [|lia]. intros E. apply Hb.
    rewrite <-(byte.of_Z_unsigned b), E. done. }
  induction x as [|a x IH]; intros [|b y] n m Hx Hy Hl; cbn [length app] in *.
  - assert (n = m) as -> by lia. apply Hz.
  - destruct n as [|n]; [lia|]. cbn [replicate app byte_compare]. apply not_elem_of_cons in Hy as [Hb _]. pose proof (Hpos b ltac:(congruence)). change (byte.unsigned Byte.x00) with 0.
    by rewrite (proj2 (Z.compare_lt_iff _ _)) by lia.
  - destruct m as [|m]; [lia|]. cbn [replicate app byte_compare]. apply not_elem_of_cons in Hx as [Ha _]. pose proof (Hpos a ltac:(congruence)). change (byte.unsigned Byte.x00) with 0.
    by rewrite (proj2 (Z.compare_gt_iff _ _)) by lia.
  - apply not_elem_of_cons in Hx as [_ Hx]. apply not_elem_of_cons in Hy as [_ Hy]. cbn [byte_compare]. rewrite IH; [done..|lia].
Qed.

Section column.
Context (type : ColType) (len : Z) (bs : list byte) (Hbs : field_ok type len bs).

Lemma field_valid : col_valid type len bs.
Proof.
  destruct Hbs as [Hl Ht]. destruct type; simpl; [done| |lia]. destruct Ht as [-> Hf]. unfold finite_bits, not_nan in *.
  rewrite take_ge by lia. lia.
Qed.

Lemma raw_length v : value_ok type len v → length (value_raw type len v) = length bs.
Proof.
  destruct Hbs as [Hl Ht]. destruct type; simpl; [lia|intuition lia|]. intros [_ Hv]. rewrite length_app, length_replicate. lia.
Qed.

Lemma raw_valid v : value_ok type len v → col_valid type len (value_raw type len v).
Proof.
  intros Hv. pose proof (raw_length v Hv) as Hr. destruct Hbs as [Hl Ht]. destruct type; simpl in *; [done| |lia]. destruct Hv as [Hv Hn]. by rewrite take_ge by lia.
Qed.

Lemma value_compare_rank v : value_ok type len v →
  value_compare type bs v = Some (col_rank type len bs ?= col_rank type len (value_raw type len v)).
Proof.
  intros Hv. pose proof (raw_valid v Hv) as Hrv. pose proof (raw_length v Hv) as Hrl. pose proof field_valid as Hfv.
  rewrite <-(col_compare_rank type len bs (value_raw type len v) Hfv Hrv). destruct Hbs as [Hl Ht]. destruct type; cbn [value_compare ix_compare_col value_raw] in *.
  - by rewrite (take_ge (v_bits v)) by (simpl in *; lia).
  - destruct Hv as [Hv Hn]. simpl in Hfv, Hrv. rewrite (take_ge (v_bits v)) in * by lia. unfold float_of, SFltb.
    set (x := dec_u32 (take 4 bs)) in *. set (y := dec_u32 (v_bits v)) in *.
    assert (0 ≤ x ∧ 0 ≤ y) as [Hx Hy] by (unfold x, y, dec_u32; pose proof (le_combine_bound (take 4 bs)); pose proof (le_combine_bound (v_bits v)); lia).
    rewrite (float_compare_key x y Hx Hy Hfv Hrv), (float_compare_key y x Hy Hx Hrv Hfv), (Z.compare_antisym (fbits_key x)).
    by destruct (fbits_key x ?= fbits_key y).
  - rewrite !take_ge by lia. destruct Hv as [Hz Hv]. rewrite Ht at 2. unfold pad. rewrite pad_compare; [done|apply c_str_nonzero|done|].
    apply (f_equal length) in Ht. unfold pad in Ht. rewrite length_app, length_replicate in Ht. lia.
Qed.

(** The whole range of a column. *)
Lemma min_max_rank c : cm_type c = type → cm_len c = len →
  (col_rank type len (fill_min_key c) ≤ col_rank type len bs ≤ col_rank type len (fill_max_key c)) ∧
  col_valid type len (fill_min_key c) ∧ col_valid type len (fill_max_key c) ∧
  Z.of_nat (length (fill_min_key c)) = len ∧ Z.of_nat (length (fill_max_key c)) = len.
Proof.
  intros Hty Hle. pose proof Hbs as [Hl Ht]. unfold fill_min_key, fill_max_key. rewrite Hty, Hle. destruct type; simpl in *.
  - change (int_of (take 4 (enc_int 4 (-2147483648)))) with (-2147483648). change (int_of (take 4 (enc_int 4 2147483647))) with 2147483647.
    pose proof (col_rank_bound TYPE_INT len bs I ltac:(lia)) as Hb. simpl in Hb. split_and!; try done; lia.
  - destruct Ht as [-> Hf]. unfold finite_bits in Hf. rewrite (take_ge bs) by lia.
    assert (fbits_key (dec_u32 (take 4 (enc_int 4 4286578687))) = -2139095039 ∧ fbits_key (dec_u32 (take 4 (enc_int 4 2139095039))) = 2139095039) as [E1 E2] by by vm_compute.
    rewrite E1, E2. pose proof (Z.mod_pos_bound (dec_u32 bs) 2147483648). split_and!; try (unfold fbits_key; case_match; lia); try (by vm_compute); done.
  - assert (∀ n, big_endian (replicate n Byte.x00) = 0) as Hz by (induction n as [|n IH]; [done|]; cbn [replicate big_endian]; rewrite IH; change (byte.unsigned Byte.x00) with 0; lia).
    assert (∀ n, big_endian (replicate n Byte.xff) = 256 ^ Z.of_nat n - 1) as Hm.
    { induction n as [|n IH]; [done|]. cbn [replicate big_endian]. rewrite IH, length_replicate, Nat2Z.inj_succ, Z.pow_succ_r by lia. change (byte.unsigned Byte.xff) with 255. lia. }
    rewrite !take_ge by (rewrite ?length_replicate; lia). rewrite Hz, Hm, !length_replicate. pose proof (big_endian_bound bs) as Hb.
    replace (Z.of_nat (length bs)) with (Z.of_nat (Z.to_nat len)) in Hb by lia. split_and!; lia.
Qed.
End column.

(** ** Keys of several columns *)

Definition col_pair (c : ColMeta) : ColType * Z := (cm_type c, cm_len c).

(** A column in front of a key. *)
Section front.
Context (type : ColType) (len : Z) (cols : list (ColType * Z)) (a b : list byte).
Context (Ha : Z.of_nat (length a) = len) (H4 : type ≠ TYPE_STRING → len = 4).

Lemma key_rank_front : key_rank ((type, len) :: cols) (a ++ b) = col_rank type len a * key_bound cols + key_rank cols b.
Proof.
  cbn [key_rank]. rewrite drop_app_length' by lia. do 2 f_equal. unfold col_rank. destruct type; rewrite !take_app_length' by (try rewrite H4 in * by done; lia);
    try done; by rewrite take_ge by (try rewrite H4 in * by done; lia).
Qed.

Lemma key_valid_front : col_valid type len a → key_valid cols b → key_valid ((type, len) :: cols) (a ++ b).
Proof.
  intros Hv Hb. cbn [key_valid]. rewrite drop_app_length' by lia. split_and!; [|lia|done]. destruct type; simpl in *; [done| |rewrite length_app; lia].
  rewrite take_app_length' by (rewrite H4 in * by done; lia). by rewrite take_ge in Hv by (rewrite H4 in * by done; lia).
Qed.
End front.

Section bounds.
Context (tab : list byte) (cols_ : list ColMeta) (conds : list Condition) (r : record).

(** A condition that compares the column [c] with a value. *)
Definition on_col (c : ColMeta) (cond : Condition) : Prop :=
  is_rhs_val cond = true ∧ lhs_col cond = mk_TabCol tab (cm_name c).

Record col_ok (c : ColMeta) : Prop := {
  co_find : find_col cols_ (mk_TabCol tab (cm_name c)) = Some c;
  co_field : field_ok (cm_type c) (cm_len c) (field r (cm_offset c) (cm_len c));
  co_values cond : cond ∈ conds → on_col c cond → value_ok (cm_type c) (cm_len c) (rhs_val cond)
}.

Lemma field_prefix c : col_ok c → cm_type c ≠ TYPE_STRING → cm_len c = 4 ∧ take 4 (field r (cm_offset c) (cm_len c)) = field r (cm_offset c) 4.
Proof.
  intros [_ [Hl Ht] _] Hne. assert (cm_len c = 4) as E by (destruct (cm_type c); intuition). rewrite E in *. split; [done|]. by rewrite take_ge by lia.
Qed.

(** A condition that holds, in terms of ranks. *)
Lemma cond_rank c cond : eval_conds r cols_ conds = true → col_ok c → cond ∈ conds → on_col c cond →
  let z := col_rank (cm_type c) (cm_len c) (field r (cm_offset c) (cm_len c)) in
  let v := col_rank (cm_type c) (cm_len c) (cond_raw c cond) in
  compare_op (op cond) (Some (z ?= v)) = true ∧ col_valid (cm_type c) (cm_len c) (cond_raw c cond) ∧ Z.of_nat (length (cond_raw c cond)) = cm_len c.
Proof.
  intros He Hc Hin [Hval Hlhs]. pose proof (co_values _ Hc _ Hin (conj Hval Hlhs)) as Hv. pose proof (co_field _ Hc) as Hf.
  assert (cond_raw c cond = value_raw (cm_type c) (cm_len c) (rhs_val cond)) as ->.
  { unfold cond_raw. apply take_ge. rewrite (raw_length _ _ _ Hf _ Hv). destruct Hf as [Hl _]. lia. }
  cbn zeta. split_and!.
  - rewrite <-(value_compare_rank _ _ _ Hf _ Hv). clear Hv.
    induction conds as [|x conds' IH]; [by apply elem_of_nil in Hin|]. cbn [eval_conds] in He. apply elem_of_cons in Hin as [<-|Hin].
    + rewrite Hlhs, (co_find _ Hc), Hval in He. unfold value_compare. pose proof (field_prefix c Hc) as Hp.
      destruct (cm_type c); try (destruct (Hp ltac:(done)) as [_ ->]); unfold compare_int, compare_float, compare_string in He;
        destruct (compare_op (op cond) _); done.
    + destruct (find_col cols_ (lhs_col x)) as [l|]; [|done]. case_match; [|done]. by apply IH.
  - by eapply raw_valid.
  - rewrite (raw_length _ _ _ Hf _ Hv). by destruct Hf.
Qed.

(** The conditions that are picked for a column. *)
Lemma col_conds_spec c : let p := col_conds tab conds c in
  (∀ e, cc_eq p = Some e → e ∈ conds ∧ on_col c e ∧ op e = OP_EQ) ∧
  (∀ e, cc_lower p = Some e → e ∈ conds ∧ on_col c e ∧ (op e = OP_GT ∨ op e = OP_GE)) ∧
  (∀ e, cc_upper p = Some e → e ∈ conds ∧ on_col c e ∧ (op e = OP_LT ∨ op e = OP_LE)).
Proof.
  unfold col_conds. induction conds as [|x l IH] using rev_ind; [by split_and!|]. rewrite foldl_app. cbn [foldl].
  set (p := foldl (pick_cond tab c) _ l) in *. cbn zeta in *. destruct IH as (H1 & H2 & H3).
  assert (∀ e (Q : Prop), e ∈ l ∧ Q → e ∈ l ++ [x] ∧ Q) as Hw by (intros e Q [? ?]; split; [|done]; set_solver).
  unfold pick_cond. destruct (is_rhs_val x) eqn:Ev; simpl; [|split_and!; intros e He; by auto].
  case_bool_decide as Et; simpl; [|split_and!; intros e He; by auto]. case_bool_decide as En; simpl; [|split_and!; intros e He; by auto].
  assert (on_col c x) as Hon by (split; [done|]; destruct (lhs_col x); simpl in *; by subst).
  assert (x ∈ l ++ [x]) as Hx by set_solver.
  destruct (op x) eqn:Eo; simpl; split_and!; intros e He; try (by auto); injection He as <-; split_and!; auto.
Qed.

(** The key of the record in the columns [cs]. *)
Definition key_of (cs : list ColMeta) : list byte := concat ((λ c, field r (cm_offset c) (cm_len c)) <$> cs).

(** What the loop over the columns [cs] adds to the bounds. *)
Record extends (cs : list ColMeta) (b b' : Bounds) (L U : list byte) : Prop := {
  et_lower : lower_key b' = lower_key b ++ L;
  et_upper : upper_key b' = upper_key b ++ U;
  et_valid_L : key_valid (col_pair <$> cs) L;
  et_valid_U : key_valid (col_pair <$> cs) U;
  et_L : key_rank (col_pair <$> cs) L ≤ key_rank (col_pair <$> cs) (key_of cs);
  et_U : key_rank (col_pair <$> cs) (key_of cs) ≤ key_rank (col_pair <$> cs) U;
  et_open_L : lower_open b' = true → lower_open b = true ∨ key_rank (col_pair <$> cs) L < key_rank (col_pair <$> cs) (key_of cs);
  et_open_U : upper_open b' = true → upper_open b = true ∨ key_rank (col_pair <$> cs) (key_of cs) < key_rank (col_pair <$> cs) U
}.

Lemma key_of_valid cs : Forall col_ok cs → key_valid (col_pair <$> cs) (key_of cs).
Proof.
  induction 1 as [|c cs Hc Hcs IH]; [done|]. pose proof (co_field _ Hc) as Hf. unfold key_of. cbn [fmap list_fmap concat].
  apply key_valid_front; [by destruct Hf|by apply field_prefix|by apply field_valid|done].
Qed.

(** One column: pieces [x] and [y] for the two keys, then the rest. *)
Lemma extends_col c cs b b1 b' x y L U : col_ok c → Forall col_ok cs → let z := col_rank (cm_type c) (cm_len c) (field r (cm_offset c) (cm_len c)) in
  let rk := col_rank (cm_type c) (cm_len c) in
  lower_key b1 = lower_key b ++ x → upper_key b1 = upper_key b ++ y →
  col_valid (cm_type c) (cm_len c) x → col_valid (cm_type c) (cm_len c) y → Z.of_nat (length x) = cm_len c → Z.of_nat (length y) = cm_len c →
  rk x ≤ z ≤ rk y → (lower_open b1 = true → lower_open b = true ∨ rk x < z) → (upper_open b1 = true → upper_open b = true ∨ z < rk y) →
  extends cs b1 b' L U → extends (c :: cs) b b' (x ++ L) (y ++ U).
Proof.
  intros Hc Hcs z rk Hl Hu Vx Vy Lx Ly Hz HoL HoU [E1 E2 V1 V2 R1 R2 O1 O2]. pose proof (co_field _ Hc) as Hf.
  assert (cm_type c ≠ TYPE_STRING → cm_len c = 4) as H4 by (intros; by apply field_prefix).
  set (cs' := col_pair <$> cs) in *. pose proof (key_rank_bound cs' _ V1) as B1. pose proof (key_rank_bound cs' _ V2) as B2.
  pose proof (key_rank_bound cs' _ (key_of_valid cs Hcs)) as B3.
  assert (key_rank (col_pair <$> c :: cs) (key_of (c :: cs)) = z * key_bound cs' + key_rank cs' (key_of cs)) as K0.
  { unfold key_of. cbn [fmap list_fmap concat]. apply key_rank_front; [by destruct Hf|done]. }
  assert (key_rank (col_pair <$> c :: cs) (x ++ L) = rk x * key_bound cs' + key_rank cs' L) as K1 by by apply key_rank_front.
  assert (key_rank (col_pair <$> c :: cs) (y ++ U) = rk y * key_bound cs' + key_rank cs' U) as K2 by by apply key_rank_front.
  split; rewrite ?K0, ?K1, ?K2.
  - by rewrite E1, Hl, app_assoc.
  - by rewrite E2, Hu, app_assoc.
  - by apply key_valid_front.
  - by apply key_valid_front.
  - nia.
  - nia.
  - intros [H|H]%O1; [apply HoL in H as [H|H]; [by left|right; nia]|right; nia].
  - intros [H|H]%O2; [apply HoU in H as [H|H]; [by left|right; nia]|right; nia].
Qed.

Lemma build_bounds_ok cs : Forall col_ok cs → eval_conds r cols_ conds = true →
  ∀ stop b, ∃ L U, extends cs b (build_bounds tab conds cs stop b) L U.
Proof.
  intros Hcs He. induction Hcs as [|c cs Hc Hcs IH]; intros stop b.
  - exists [], []. split; simpl; rewrite ?app_nil_r; try done; auto.
  - cbn [build_bounds]. set (p := if stop then mk_ColConds None None None else col_conds tab conds c).
    assert ((∀ e, cc_eq p = Some e → e ∈ conds ∧ on_col c e ∧ op e = OP_EQ) ∧
      (∀ e, cc_lower p = Some e → e ∈ conds ∧ on_col c e ∧ (op e = OP_GT ∨ op e = OP_GE)) ∧
      (∀ e, cc_upper p = Some e → e ∈ conds ∧ on_col c e ∧ (op e = OP_LT ∨ op e = OP_LE))) as (Heq & Hlow & Hup).
    { unfold p. destruct stop; [by split_and!|apply col_conds_spec]. }
    pose proof (co_field _ Hc) as Hf. destruct (min_max_rank _ _ _ Hf c eq_refl eq_refl) as ([Hmin Hmax] & Vmin & Vmax & Lmin & Lmax).
    clearbody p. destruct (cc_eq p) as [e|].
    + destruct (Heq e eq_refl) as (Hin & Hon & Hop). destruct (cond_rank c e He Hc Hin Hon) as (Hcmp & Hv & Hl). rewrite Hop in Hcmp. simpl in Hcmp.
      destruct (IH stop (mk_Bounds (lower_key b ++ cond_raw c e) (upper_key b ++ cond_raw c e) true true (lower_open b) (upper_open b))) as (L & U & Hx).
      exists (cond_raw c e ++ L), (cond_raw c e ++ U). eapply extends_col; [done|done|..|exact Hx]; try done; simpl; auto.
      destruct (Z.compare_spec (col_rank (cm_type c) (cm_len c) (field r (cm_offset c) (cm_len c))) (col_rank (cm_type c) (cm_len c) (cond_raw c e))); [lia|done..].
    + set (b1 := match cc_lower p with Some _ => _ | None => _ end). set (b2 := match cc_upper p with Some _ => _ | None => _ end).
      destruct (IH true b2) as (L & U & Hx).
      assert (∃ x, lower_key b2 = lower_key b ++ x ∧ col_valid (cm_type c) (cm_len c) x ∧ Z.of_nat (length x) = cm_len c ∧
        col_rank (cm_type c) (cm_len c) x ≤ col_rank (cm_type c) (cm_len c) (field r (cm_offset c) (cm_len c)) ∧
        (lower_open b2 = true → lower_open b = true ∨ col_rank (cm_type c) (cm_len c) x < col_rank (cm_type c) (cm_len c) (field r (cm_offset c) (cm_len c)))) as (x & X1 & X2 & X3 & X4 & X5).
      { assert (lower_key b2 = lower_key b1 ∧ lower_open b2 = lower_open b1) as [-> ->] by (unfold b2; by destruct (cc_upper p)). unfold b1.
        destruct (cc_lower p) as [l|]; [|exists (fill_min_key c); split_and!; simpl; auto; lia].
        destruct (Hlow l eq_refl) as (Hin & Hon & Hop). destruct (cond_rank c l He Hc Hin Hon) as (Hcmp & Hv & Hl). exists (cond_raw c l). simpl. unfold is_op.
        destruct Hop as [E|E]; rewrite E in *; simpl in Hcmp;
          destruct (Z.compare_spec (col_rank (cm_type c) (cm_len c) (field r (cm_offset c) (cm_len c))) (col_rank (cm_type c) (cm_len c) (cond_raw c l)));
          try done; split_and!; try done; try lia; try (intros _; right; lia). }
      assert (∃ y, upper_key b2 = upper_key b ++ y ∧ col_valid (cm_type c) (cm_len c) y ∧ Z.of_nat (length y) = cm_len c ∧
        col_rank (cm_type c) (cm_len c) (field r (cm_offset c) (cm_len c)) ≤ col_rank (cm_type c) (cm_len c) y ∧
        (upper_open b2 = true → upper_open b = true ∨ col_rank (cm_type c) (cm_len c) (field r (cm_offset c) (cm_len c)) < col_rank (cm_type c) (cm_len c) y)) as (y & Y1 & Y2 & Y3 & Y4 & Y5).
      { assert (upper_key b1 = upper_key b ∧ upper_open b1 = upper_open b) as [Eu Eo] by (unfold b1; by destruct (cc_lower p)). unfold b2.
        destruct (cc_upper p) as [u|]; simpl; rewrite Eu, ?Eo; [|exists (fill_max_key c); split_and!; auto; lia].
        destruct (Hup u eq_refl) as (Hin & Hon & Hop). destruct (cond_rank c u He Hc Hin Hon) as (Hcmp & Hv & Hl). exists (cond_raw c u). unfold is_op.
        destruct Hop as [E|E]; rewrite E in *; simpl in Hcmp;
          destruct (Z.compare_spec (col_rank (cm_type c) (cm_len c) (field r (cm_offset c) (cm_len c))) (col_rank (cm_type c) (cm_len c) (cond_raw c u)));
          try done; split_and!; try done; try lia; try (intros _; right; lia). }
      exists (x ++ L), (y ++ U). by eapply extends_col.
Qed.

(** The keys of the scan are between its bounds. *)
Lemma bounds_between cs : Forall col_ok cs → eval_conds r cols_ conds = true → let b := build_bounds tab conds cs false no_bounds in
  let rk := key_rank (col_pair <$> cs) in key_valid (col_pair <$> cs) (lower_key b) ∧ key_valid (col_pair <$> cs) (upper_key b) ∧
  rk (lower_key b) ≤ rk (key_of cs) ≤ rk (upper_key b) ∧ (lower_open b = true → rk (lower_key b) < rk (key_of cs)) ∧
  (upper_open b = true → rk (key_of cs) < rk (upper_key b)).
Proof.
  intros Hcs He. destruct (build_bounds_ok cs Hcs He false no_bounds) as (L & U & [E1 E2 V1 V2 R1 R2 O1 O2]). simpl in E1, E2, O1, O2.
  cbn zeta. rewrite E1, E2. split_and!; try done; [intros [?|?]%O1|intros [?|?]%O2]; done.
Qed.

(** ** Bounds are valid keys *)

Record typed (c : ColMeta) : Prop := {
  ty_len : 0 ≤ cm_len c;
  ty_four : cm_type c ≠ TYPE_STRING → cm_len c = 4;
  ty_values cond : cond ∈ conds → on_col c cond → value_ok (cm_type c) (cm_len c) (rhs_val cond)
}.

(** A field of zeros. *)
Lemma zero_field c : typed c → field_ok (cm_type c) (cm_len c) (replicate (Z.to_nat (cm_len c)) Byte.x00).
Proof.
  intros [Hl H4 _]. split; [rewrite length_replicate; lia|]. destruct (cm_type c).
  - by apply H4.
  - rewrite H4 by done. by vm_compute.
  - assert (c_str (replicate (Z.to_nat (cm_len c)) Byte.x00) = []) as -> by by destruct (Z.to_nat (cm_len c)). unfold pad. simpl. f_equal. lia.
Qed.

Lemma raw_piece c e : typed c → e ∈ conds → on_col c e → col_valid (cm_type c) (cm_len c) (cond_raw c e) ∧ Z.of_nat (length (cond_raw c e)) = cm_len c.
Proof.
  intros Hc Hin Hon. pose proof (zero_field c Hc) as Hz. pose proof (ty_values _ Hc _ Hin Hon) as Hv.
  pose proof (raw_length _ _ _ Hz _ Hv) as Hl. rewrite length_replicate in Hl. pose proof (ty_len _ Hc). unfold cond_raw. rewrite take_ge by lia.
  split; [by eapply raw_valid|lia].
Qed.

Lemma build_bounds_valid cs : Forall typed cs → ∀ stop b, let b' := build_bounds tab conds cs stop b in
  ∃ L U, lower_key b' = lower_key b ++ L ∧ upper_key b' = upper_key b ++ U ∧ key_valid (col_pair <$> cs) L ∧ key_valid (col_pair <$> cs) U.
Proof.
  induction 1 as [|c cs Hc Hcs IH]; intros stop b; cbn zeta; [exists [], []; by rewrite !app_nil_r|]. cbn [build_bounds].
  set (p := if stop then mk_ColConds None None None else col_conds tab conds c).
  assert ((∀ e, cc_eq p = Some e → e ∈ conds ∧ on_col c e) ∧ (∀ e, cc_lower p = Some e → e ∈ conds ∧ on_col c e) ∧
    (∀ e, cc_upper p = Some e → e ∈ conds ∧ on_col c e)) as (Heq & Hlow & Hup).
  { unfold p. destruct stop; [by split_and!|]. destruct (col_conds_spec c) as (H1 & H2 & H3). split_and!; [intros e ?%H1|intros e ?%H2|intros e ?%H3]; tauto. }
  destruct (min_max_rank _ _ _ (zero_field c Hc) c eq_refl eq_refl) as (_ & Vmin & Vmax & Lmin & Lmax). clearbody p.
  assert (∀ b1 b' x y, lower_key b1 = lower_key b ++ x → upper_key b1 = upper_key b ++ y → col_valid (cm_type c) (cm_len c) x ∧ Z.of_nat (length x) = cm_len c →
    col_valid (cm_type c) (cm_len c) y ∧ Z.of_nat (length y) = cm_len c →
    (∃ L U, lower_key b' = lower_key b1 ++ L ∧ upper_key b' = upper_key b1 ++ U ∧ key_valid (col_pair <$> cs) L ∧ key_valid (col_pair <$> cs) U) →
    ∃ L U, lower_key b' = lower_key b ++ L ∧ upper_key b' = upper_key b ++ U ∧ key_valid (col_pair <$> c :: cs) L ∧ key_valid (col_pair <$> c :: cs) U) as Hstep.
  { intros b1 b' x y Ex Ey [Vx Lx] [Vy Ly] (L & U & -> & -> & VL & VU). exists (x ++ L), (y ++ U). rewrite Ex, Ey, !app_assoc.
    split_and!; [done..| |]; by apply key_valid_front; [done|apply (ty_four _ Hc)|..]. }
  destruct (cc_eq p) as [e|].
  - destruct (Heq e eq_refl) as [Hin Hon]. pose proof (raw_piece c e Hc Hin Hon) as Hr. by eapply Hstep; [..|apply IH].
  - eapply (Hstep _ _ (match cc_lower p with Some l => cond_raw c l | None => fill_min_key c end) (match cc_upper p with Some u => cond_raw c u | None => fill_max_key c end)); [..|apply IH].
    + by destruct (cc_lower p), (cc_upper p).
    + by destruct (cc_lower p), (cc_upper p).
    + destruct (cc_lower p) as [l|]; [|done]. destruct (Hlow l eq_refl). by apply raw_piece.
    + destruct (cc_upper p) as [u|]; [|done]. destruct (Hup u eq_refl). by apply raw_piece.
Qed.

Lemma bounds_valid cs : Forall typed cs → let b := build_bounds tab conds cs false no_bounds in
  key_valid (col_pair <$> cs) (lower_key b) ∧ key_valid (col_pair <$> cs) (upper_key b).
Proof. intros Hcs. destruct (build_bounds_valid cs Hcs false no_bounds) as (L & U & E1 & E2 & V1 & V2). simpl in E1, E2. cbn zeta. by rewrite E1, E2. Qed.
End bounds.
End ScanBounds.
