(* ===== verification/Catalogue.v ===== *)
(** * The catalogue and its file ([system/sm_meta.h], [defs.h])

    The catalogue of a database: its tables with their columns and indexes.  It is kept as a
    text file, written with the [operator<<] and read with the [operator>>] of the classes: words
    and numbers between white space.

    A stream that is read is the bytes that are left.  The code never tests whether an extraction
    succeeded; one that fails leaves its target undefined and throws [Undefined] here. *)

From Stdlib Require Import DecimalZ DecimalN Decimal.
From S2P Require Import Prelude Conditions.

Module Cat.
Import Cond.
Abbreviation bytes := (list byte).

(** ** The catalogue *)

(** [ColMeta] with its member [index]. *)
Record CatCol := mk_CatCol { cc_meta : ColMeta; cc_index : bool }.

(** [IndexMeta]. *)
Record CatIndex := mk_CatIndex { ci_tab_name : bytes; ci_col_tot_len : Z; ci_col_num : Z; ci_cols : list CatCol }.

(** [TabMeta]. *)
Record CatTab := mk_CatTab { ct_name : bytes; ct_cols : list CatCol; ct_indexes : list CatIndex }.

Record DbMeta := mk_DbMeta { name_ : bytes; tabs_ : gmap bytes CatTab }.

(** A [std::map] is visited in the order of its keys. *)
Definition entries_in_order (m : gmap bytes CatTab) : list (bytes * CatTab) :=
  merge_sort (λ a b, byte_compare a.1 b.1 ≠ Gt) (map_to_list m).

(** ** Writing *)

Definition SP : byte := Byte.x20.
Definition NL : byte := Byte.x0a.

Fixpoint uint_bytes (u : uint) : bytes :=
  match u with
  | Nil => []
  | D0 u => Byte.x30 :: uint_bytes u | D1 u => Byte.x31 :: uint_bytes u | D2 u => Byte.x32 :: uint_bytes u
  | D3 u => Byte.x33 :: uint_bytes u | D4 u => Byte.x34 :: uint_bytes u | D5 u => Byte.x35 :: uint_bytes u
  | D6 u => Byte.x36 :: uint_bytes u | D7 u => Byte.x37 :: uint_bytes u | D8 u => Byte.x38 :: uint_bytes u
  | D9 u => Byte.x39 :: uint_bytes u
  end.

(** [os << i] for an integer. *)
Definition write_int (z : Z) : bytes :=
  match Z.to_int z with Pos u => uint_bytes u | Neg u => Byte.x2d :: uint_bytes u end.

Definition int_of_type (t : ColType) : Z := match t with TYPE_INT => 0 | TYPE_FLOAT => 1 | TYPE_STRING => 2 end.

Definition write_col (c : CatCol) : bytes :=
  let m := cc_meta c in
  cm_tab_name m ++ [SP] ++ cm_name m ++ [SP] ++ write_int (int_of_type (cm_type m)) ++ [SP] ++ write_int (cm_len m) ++ [SP] ++
  write_int (cm_offset m) ++ [SP] ++ write_int (if cc_index c then 1 else 0).

Definition write_index (i : CatIndex) : bytes :=
  ci_tab_name i ++ [SP] ++ write_int (ci_col_tot_len i) ++ [SP] ++ write_int (ci_col_num i) ++ concat ((λ c, [NL] ++ write_col c) <$> ci_cols i).

Definition write_tab (t : CatTab) : bytes :=
  ct_name t ++ [NL] ++ write_int (Z.of_nat (length (ct_cols t))) ++ [NL] ++ concat ((λ c, write_col c ++ [NL]) <$> ct_cols t) ++
  write_int (Z.of_nat (length (ct_indexes t))) ++ [NL] ++ concat ((λ i, write_index i ++ [NL]) <$> ct_indexes t).

Definition write_db (d : DbMeta) : bytes :=
  name_ d ++ [NL] ++ write_int (Z.of_nat (size (tabs_ d))) ++ [NL] ++ concat ((λ e, write_tab e.2 ++ [NL]) <$> entries_in_order (tabs_ d)).

(** ** Reading *)

Definition is_space (b : byte) : bool := bool_decide (b ∈ [Byte.x20; Byte.x09; Byte.x0a; Byte.x0b; Byte.x0c; Byte.x0d]).

Fixpoint skip_spaces (bs : bytes) : bytes := match bs with b :: bs' => if is_space b then skip_spaces bs' else bs | [] => [] end.

Fixpoint span_word (bs : bytes) : bytes * bytes :=
  match bs with
  | b :: bs' => if is_space b then ([], bs) else let '(w, rest) := span_word bs' in (b :: w, rest)
  | [] => ([], [])
  end.

(** [is >> s] for a string. *)
Definition read_word : M bytes bytes :=
  bs ← get;
  let '(w, rest) := span_word (skip_spaces bs) in
  put rest;;
  match w with [] => throw Undefined | _ => mret w end.

Definition digit_of (b : byte) : option (uint → uint) :=
  match b with
  | Byte.x30 => Some D0 | Byte.x31 => Some D1 | Byte.x32 => Some D2 | Byte.x33 => Some D3 | Byte.x34 => Some D4
  | Byte.x35 => Some D5 | Byte.x36 => Some D6 | Byte.x37 => Some D7 | Byte.x38 => Some D8 | Byte.x39 => Some D9
  | _ => None
  end.

(** The digits in front. *)
Fixpoint span_digits (bs : bytes) : uint * bytes :=
  match bs with
  | b :: bs' => match digit_of b with Some d => let '(u, rest) := span_digits bs' in (d u, rest) | None => (Nil, bs) end
  | [] => (Nil, [])
  end.

Definition span_sign (bs : bytes) : bool * bytes :=
  match bs with Byte.x2d :: bs => (true, bs) | Byte.x2b :: bs => (false, bs) | _ => (false, bs) end.

(** [is >> i]: a sign, digits, and a value between the bounds of the type. *)
Definition read_int (lo hi : Z) : M bytes Z :=
  bs ← get;
  let '(neg, bs) := span_sign (skip_spaces bs) in
  let '(u, rest) := span_digits bs in
  put rest;;
  match u with
  | Nil => throw Undefined
  | _ =>
      let z := Z.of_int (if neg then Neg u else Pos u) in
      if decide (lo ≤ z ≤ hi) then mret z else throw Undefined
  end.
Definition read_i32 : M bytes Z := read_int (-2147483648) 2147483647.
Definition read_size : M bytes nat := z ← read_int 0 18446744073709551615; mret (Z.to_nat z).
Definition read_bool : M bytes bool := z ← read_int 0 1; mret (bool_decide (z = 1)).
Definition read_type : M bytes ColType :=
  z ← read_i32;
  if decide (z = 0) then mret TYPE_INT else if decide (z = 1) then mret TYPE_FLOAT else if decide (z = 2) then mret TYPE_STRING else throw Undefined.

Definition read_col : M bytes CatCol :=
  tab ← read_word;
  name ← read_word;
  type ← read_type;
  len ← read_i32;
  offset ← read_i32;
  index ← read_bool;
  mret (mk_CatCol (mk_ColMeta tab name type len offset) index).

Fixpoint read_many {A} (read : M bytes A) (n : nat) : M bytes (list A) :=
  match n with O => mret [] | S n => x ← read; l ← read_many read n; mret (x :: l) end.

Definition read_index : M bytes CatIndex :=
  tab ← read_word;
  tot_len ← read_i32;
  num ← read_i32;
  cs ← read_many read_col (Z.to_nat num);
  mret (mk_CatIndex tab tot_len num cs).

Definition read_tab : M bytes CatTab :=
  name ← read_word;
  n ← read_size;
  cs ← read_many read_col n;
  n ← read_size;
  ixs ← read_many read_index n;
  mret (mk_CatTab name cs ixs).

(** The tables are entered under their names; a later one replaces an earlier one. *)
Definition read_db : M bytes DbMeta :=
  name ← read_word;
  n ← read_size;
  ts ← read_many read_tab n;
  mret (mk_DbMeta name (foldl (λ m t, <[ct_name t := t]> m) ∅ ts)).

(** ** Catalogues that can be written *)

(** A name that [>>] reads as one word. *)
Definition word (w : bytes) : bool := bool_decide (w ≠ []) && forallb (λ b, negb (is_space b)) w.

Definition col_ok (c : CatCol) : bool :=
  let m := cc_meta c in
  word (cm_tab_name m) && word (cm_name m) && bool_decide (-2147483648 ≤ cm_len m ≤ 2147483647) && bool_decide (-2147483648 ≤ cm_offset m ≤ 2147483647).
Definition index_ok (i : CatIndex) : bool :=
  word (ci_tab_name i) && bool_decide (-2147483648 ≤ ci_col_tot_len i ≤ 2147483647) && bool_decide (ci_col_num i = Z.of_nat (length (ci_cols i))) && forallb col_ok (ci_cols i).
Definition tab_ok (t : CatTab) : bool := word (ct_name t) && forallb col_ok (ct_cols t) && forallb index_ok (ct_indexes t).

(** Names without white space, lengths that agree, tables under their names. *)
Record db_ok (d : DbMeta) : Prop := {
  do_name : word (name_ d) = true;
  do_tabs : map_Forall (λ name t, ct_name t = name ∧ tab_ok t = true) (tabs_ d)
}.

(** The numbers of columns, indexes and tables fit the types they are read with. *)
Definition tab_counts (t : CatTab) : Prop :=
  Z.of_nat (length (ct_cols t)) ≤ 18446744073709551615 ∧ Z.of_nat (length (ct_indexes t)) ≤ 18446744073709551615 ∧
  Forall (λ i, Z.of_nat (length (ci_cols i)) ≤ 2147483647) (ct_indexes t).
Record counts_ok (d : DbMeta) : Prop := {
  ct_tabs : map_Forall (λ _ t, tab_counts t) (tabs_ d);
  ct_size : Z.of_nat (size (tabs_ d)) ≤ 18446744073709551615
}.

(** ** Round trip *)

(** Ends a word or a number. *)
Definition sep (rest : bytes) : Prop := match rest with [] => True | b :: _ => is_space b = true end.

Definition spaces (ws : bytes) : Prop := forallb is_space ws = true.

(** [read] reads [x] from the text [w], behind white space and before what [ok] admits; it may
    leave white space. *)
Definition reads {A} (ok : bytes → Prop) (read : M bytes A) (w : bytes) (x : A) : Prop :=
  ∀ ws rest, spaces ws → ok rest → ∃ ws', spaces ws' ∧ read (ws ++ w ++ rest) = (Ok x, ws' ++ rest).

Lemma skip_ws ws rest : spaces ws → skip_spaces (ws ++ rest) = skip_spaces rest.
Proof. unfold spaces. induction ws as [|b ws IH]; [done|]. simpl. intros [-> H]%andb_true_iff. by apply IH. Qed.

Lemma skip_word b w : is_space b = false → skip_spaces (b :: w) = b :: w.
Proof. intros H. simpl. by rewrite H. Qed.

Lemma span_word_ok w rest : forallb (λ b, negb (is_space b)) w = true → sep rest → span_word (w ++ rest) = (w, rest).
Proof.
  intros Hw Hs. induction w as [|b w IH]; simpl.
  - destruct rest as [|c rest]; [done|]. simpl in *. by rewrite Hs.
  - simpl in Hw. apply andb_true_iff in Hw as [Hb Hw]. apply negb_true_iff in Hb. rewrite Hb. by rewrite IH.
Qed.

Lemma word_inv w : word w = true → w ≠ [] ∧ forallb (λ b, negb (is_space b)) w = true.
Proof. unfold word. intros [H1%bool_decide_eq_true H2]%andb_true_iff. done. Qed.

Lemma reads_word w : word w = true → reads sep read_word w w.
Proof.
  intros [Hne Hw]%word_inv ws rest Hws Hs. exists []. split; [done|]. unfold read_word, mbind, M_bind, get, put. rewrite skip_ws by done.
  destruct w as [|b w]; [done|]. pose proof Hw as Hw'. simpl in Hw'. apply andb_true_iff in Hw' as [Hb%negb_true_iff _]. rewrite <-app_comm_cons, skip_word by done.
  rewrite app_comm_cons. by rewrite span_word_ok.
Qed.

Lemma span_digits_ok u rest : sep rest → span_digits (uint_bytes u ++ rest) = (u, rest).
Proof.
  intros Hs. assert (span_digits rest = (Nil, rest)) as Hr.
  { destruct rest as [|b rest]; [done|]. simpl in *. destruct b; try done; by vm_compute in Hs. }
  induction u as [|u IH|u IH|u IH|u IH|u IH|u IH|u IH|u IH|u IH|u IH]; [exact Hr|..]; cbn [uint_bytes app span_digits digit_of]; by rewrite IH.
Qed.

Lemma uint_space u : u ≠ Nil → ∃ b bs, uint_bytes u = b :: bs ∧ is_space b = false ∧ b ≠ Byte.x2d ∧ b ≠ Byte.x2b.
Proof. destruct u; [done|..]; intros _; (eexists _, _; split; [reflexivity|]; split_and!; [by vm_compute|done..]). Qed.

Lemma to_int_not_nil z : match Z.to_int z with Pos u | Neg u => u ≠ Nil end.
Proof. destruct z as [|p|p]; simpl; [done|..]; apply DecimalPos.Unsigned.to_uint_nonnil. Qed.

Lemma reads_int lo hi z : lo ≤ z ≤ hi → reads sep (read_int lo hi) (write_int z) z.
Proof.
  intros Hz ws rest Hws Hs. exists []. split; [done|]. unfold read_int, write_int, mbind, M_bind, get, put. rewrite skip_ws by done. pose proof (to_int_not_nil z) as Hn. pose proof (DecimalZ.of_to z) as Hot.
  destruct (Z.to_int z) as [u|u].
  - destruct (uint_space u Hn) as (b & bs & E & Hb & H1 & H2). rewrite E, <-app_comm_cons, skip_word by done. rewrite app_comm_cons, <-E.
    assert (span_sign (uint_bytes u ++ rest) = (false, uint_bytes u ++ rest)) as -> by (rewrite E; simpl; by destruct b).
    rewrite span_digits_ok by done. destruct u; [done|..]; rewrite Hot; by rewrite decide_True.
  - rewrite <-app_comm_cons, skip_word by done. cbn [span_sign]. rewrite span_digits_ok by done. destruct u; [done|..]; rewrite Hot; by rewrite decide_True.
Qed.

(** *** Composition *)

Lemma spaces_app a b : spaces a → spaces b → spaces (a ++ b).
Proof. unfold spaces. intros H1 H2. by rewrite forallb_app, H1, H2. Qed.

(** A text behind another one, after white space [s]. *)
Lemma reads_bind {A B} ok1 ok2 (r : M bytes A) (k : A → M bytes B) w s v x y : reads ok1 r w x → spaces s → (∀ rest, ok2 rest → ok1 (s ++ v ++ rest)) →
  reads ok2 (k x) v y → reads ok2 (r ≫= k) (w ++ s ++ v) y.
Proof.
  intros Hr Hs Hok Hk ws rest Hws Hrest. destruct (Hr ws (s ++ v ++ rest) Hws (Hok rest Hrest)) as (ws1 & Hws1 & E). destruct (Hk (ws1 ++ s) rest) as (ws2 & Hws2 & E2); [by apply spaces_app|done|].
  exists ws2. split; [done|]. unfold mbind, M_bind. rewrite <-!app_assoc, E. by rewrite <-app_assoc in E2.
Qed.

Lemma reads_map {A B} ok (r : M bytes A) (k : A → M bytes B) w x y : reads ok r w x → k x = mret y → reads ok (r ≫= k) w y.
Proof. intros Hr Hk ws rest Hws Hrest. destruct (Hr ws rest Hws Hrest) as (ws' & Hws' & E). exists ws'. split; [done|]. unfold mbind, M_bind. by rewrite E, Hk. Qed.

Lemma reads_line {A} (r : M bytes A) w x : reads sep r w x → reads (λ _, True) r (w ++ [NL]) x.
Proof.
  intros Hr ws rest Hws _. destruct (Hr ws ([NL] ++ rest) Hws ltac:(by vm_compute)) as (ws' & Hws' & E). exists (ws' ++ [NL]). split; [by apply spaces_app|].
  by rewrite <-!app_assoc.
Qed.

Lemma reads_behind {A} ok (r : M bytes A) s w x : spaces s → reads ok r w x → reads ok r (s ++ w) x.
Proof. intros Hs Hr ws rest Hws Hrest. destruct (Hr (ws ++ s) rest) as (ws' & Hws' & E); [by apply spaces_app|done|]. exists ws'. split; [done|]. by rewrite <-!app_assoc in *. Qed.

Lemma reads_weaken {A} (ok ok' : bytes → Prop) (r : M bytes A) w x : (∀ rest, ok' rest → ok rest) → reads ok r w x → reads ok' r w x.
Proof. intros H Hr ws rest Hws Hrest. by apply Hr, H. Qed.

Lemma reads_nil {A} ok : reads ok (mret [] : M bytes (list A)) [] [].
Proof. intros ws rest Hws _. exists ws. done. Qed.

(** Lines, and items that each begin a line. *)
Lemma reads_lines {A} (r : M bytes A) (f : A → bytes) l : (∀ x, x ∈ l → reads sep r (f x) x) → reads (λ _, True) (read_many r (length l)) (concat ((λ x, f x ++ [NL]) <$> l)) l.
Proof.
  induction l as [|x l IH]; intros Hl; [apply reads_nil|]. cbn [length read_many fmap list_fmap concat]. eapply (reads_bind (λ _, True) _ _ _ _ []); [apply reads_line, Hl; by left|done|done|].
  eapply reads_map; [|done]. apply IH. intros y Hy. apply Hl. by right.
Qed.

Lemma reads_items {A} (r : M bytes A) (f : A → bytes) l : (∀ x, x ∈ l → reads sep r (f x) x) → reads sep (read_many r (length l)) (concat ((λ x, [NL] ++ f x) <$> l)) l.
Proof.
  induction l as [|x l IH]; intros Hl; [apply reads_nil|]. cbn [length read_many fmap list_fmap concat]. eapply (reads_bind sep _ _ _ _ []).
  - apply reads_behind; [by vm_compute|]. apply Hl. by left.
  - done.
  - intros rest Hrest. simpl. destruct l as [|y l]; [exact Hrest|by vm_compute].
  - eapply reads_map; [|done]. apply IH. intros y Hy. apply Hl. by right.
Qed.

(** A text with a separator behind it. *)
Lemma reads_then {A B} ok (r : M bytes A) (k : A → M bytes B) w b v x y : reads sep r w x → is_space b = true → reads ok (k x) v y → reads ok (r ≫= k) (w ++ [b] ++ v) y.
Proof. intros Hr Hb Hk. eapply reads_bind; [exact Hr|unfold spaces; simpl; by rewrite Hb|done|exact Hk]. Qed.

(** *** The classes *)

Lemma reads_type t : reads sep read_type (write_int (int_of_type t)) t.
Proof. eapply reads_map; [apply reads_int; by destruct t|]. by destruct t. Qed.

Lemma reads_bool (b : bool) : reads sep read_bool (write_int (if b then 1 else 0)) b.
Proof. eapply reads_map; [apply reads_int; by destruct b|]. by destruct b. Qed.

Lemma reads_size n : Z.of_nat n ≤ 18446744073709551615 → reads sep read_size (write_int (Z.of_nat n)) n.
Proof. intros Hn. eapply reads_map; [apply reads_int; lia|]. by rewrite Nat2Z.id. Qed.

Lemma reads_col c : col_ok c = true → reads sep read_col (write_col c) c.
Proof.
  unfold col_ok. intros [[[H1 H2]%andb_true_iff H3%bool_decide_eq_true]%andb_true_iff H4%bool_decide_eq_true]%andb_true_iff. unfold read_col, write_col.
  eapply reads_then; [by apply reads_word|done|]. eapply reads_then; [by apply reads_word|done|]. eapply reads_then; [apply reads_type|done|].
  eapply reads_then; [by apply reads_int|done|]. eapply reads_then; [by apply reads_int|done|]. eapply reads_map; [apply reads_bool|]. by destruct c as [[] ?].
Qed.

Lemma reads_index i : index_ok i = true → Z.of_nat (length (ci_cols i)) ≤ 2147483647 → reads sep read_index (write_index i) i.
Proof.
  unfold index_ok. intros [[[H1 H2%bool_decide_eq_true]%andb_true_iff H3%bool_decide_eq_true]%andb_true_iff H5]%andb_true_iff H4. unfold read_index, write_index.
  eapply reads_then; [by apply reads_word|done|]. eapply reads_then; [by apply reads_int|done|]. rewrite H3.
  eapply (reads_bind sep _ _ _ _ []); [apply reads_int; lia|done| |].
  - intros rest Hrest. simpl. destruct (ci_cols i); [exact Hrest|by vm_compute].
  - rewrite Nat2Z.id. eapply reads_map; [apply reads_items|].
    + intros c Hc. apply reads_col. rewrite List.forallb_forall in H5. by apply H5, list_elem_of_In.
    + destruct i; simpl in *. by rewrite <-H3.
Qed.

Lemma reads_tab t : tab_ok t = true → tab_counts t → reads (λ _, True) read_tab (write_tab t) t.
Proof.
  unfold tab_ok. intros [[H1 H2]%andb_true_iff H3]%andb_true_iff (H4 & H5 & H6). rewrite List.forallb_forall in H2. rewrite List.forallb_forall in H3. rewrite Forall_forall in H6.
  unfold read_tab, write_tab. eapply reads_then; [by apply reads_word|done|]. eapply reads_then; [by apply reads_size|done|].
  eapply (reads_bind (λ _, True) _ _ _ _ []); [apply reads_lines|done|done|].
  - intros c Hc. by apply reads_col, H2, list_elem_of_In.
  - eapply reads_then; [by apply reads_size|done|]. eapply reads_map; [apply reads_lines|by destruct t]. intros i Hi. apply reads_index; [by apply H3, list_elem_of_In|by apply H6].
Qed.

Lemma entries_perm m : entries_in_order m ≡ₚ map_to_list m.
Proof. apply merge_sort_Permutation. Qed.

(** Entering the tables under their names gives the map back. *)
Lemma enter_tables (l : list (bytes * CatTab)) : NoDup l.*1 → Forall (λ e, ct_name e.2 = e.1) l → ∀ m, (∀ e, e ∈ l → m !! e.1 = None) →
  foldl (λ m t, <[ct_name t := t]> m) m l.*2 = (list_to_map l : gmap bytes CatTab) ∪ m.
Proof.
  induction l as [|[k t] l IH]; intros Hnd Hn m Hm; [change (list_to_map []) with (∅ : gmap bytes CatTab); by rewrite (left_id_L ∅ (∪))|]. cbn [fmap list_fmap foldl list_to_map fst snd] in *. apply NoDup_cons in Hnd as [Hk Hnd]. apply Forall_cons in Hn as [E Hn].
  cbn [fst snd] in E. rewrite E, IH; [|done|done|].
  - change (list_to_map ((k, t) :: l)) with (<[k := t]> (list_to_map l : gmap bytes CatTab)). rewrite <-insert_union_r by by apply not_elem_of_list_to_map_1. by rewrite insert_union_l.
  - intros [k' t'] Hin. cbn [fst]. rewrite lookup_insert_ne; [by apply (Hm (k', t')); right|]. intros <-. apply Hk. apply list_elem_of_fmap. by exists (k, t').
Qed.

Lemma reads_db d : db_ok d → counts_ok d → reads (λ _, True) read_db (write_db d) d.
Proof.
  intros [H1 H2] [H4 H3]. unfold read_db, write_db. eapply reads_then; [by apply reads_word|done|]. eapply reads_then; [by apply reads_size|done|].
  assert (size (tabs_ d) = length (entries_in_order (tabs_ d)).*2) as -> by (rewrite length_fmap, entries_perm; by rewrite length_map_to_list).
  assert (concat ((λ e, write_tab e.2 ++ [NL]) <$> entries_in_order (tabs_ d)) = concat ((λ t, write_tab t ++ [NL]) <$> (entries_in_order (tabs_ d)).*2)) as -> by by rewrite <-list_fmap_compose.
  assert (∀ e, e ∈ entries_in_order (tabs_ d) → ct_name e.2 = e.1 ∧ tab_ok e.2 = true ∧ tab_counts e.2) as Hall.
  { intros [k t] Hin. rewrite entries_perm, elem_of_map_to_list in Hin. destruct (H2 k t Hin) as [E1 E2]. by specialize (H4 k t Hin). }
  eapply reads_map; [apply reads_lines|].
  - intros t Ht. apply list_elem_of_fmap in Ht as (e & -> & He). destruct (Hall e He) as (_ & E1 & E2). by eapply reads_weaken; [|apply reads_tab].
  - rewrite enter_tables.
    + destruct d as [name tabs]. simpl. rewrite (right_id_L ∅ (∪)). do 2 f_equal. trans (list_to_map (map_to_list tabs) : gmap bytes CatTab); [|apply list_to_map_to_list].
      apply list_to_map_proper; [|apply entries_perm]. rewrite entries_perm. apply NoDup_fst_map_to_list.
    + rewrite entries_perm. apply NoDup_fst_map_to_list.
    + apply Forall_forall. intros e He. by apply Hall.
    + done.
Qed.
End Cat.
