(* ===== verification/SysManager.v ===== *)
(** * The system manager ([system/sm_manager.cpp])

    Creation and removal of tables and indexes.  The state is the catalogue in memory, the open
    heap files and indexes, the files of the database directory and the text of the catalogue
    file.  Heap files are used at the level of their records, as in [Dml]; an index is the map
    from ranks of keys to entries that its B+ tree implements.  The paths of files are relative
    to the directory of the database.  The contents of heap files and indexes are carried over a
    restart; the catalogue is written and read as text.  Only the loading of CSV files, checkpoints and the printing
    of tables are left out. *)

From Stdlib Require Import SpecFloat.
From S2P Require Import Prelude RecordFile Recovery Conditions LockManager Mvcc Index IndexTree IndexKeys IndexFile Executor Aggregate Scans Dml ScanBounds Catalogue.

Module Sys.
Import RecFile Cond Mvcc Exec Cat.

(** ** State *)

Record OpenIndex := mk_OpenIndex { oi_cols : list ColMeta; oi_entries : gmap Z IxTree.entry }.

Record SmManager := mk_SmManager {
  db_ : DbMeta;
  fhs_ : gmap bytes Recovery.Table;
  ihs_ : gmap string OpenIndex;
  files_ : gset string;
  meta_file_ : bytes
}.

Definition set_db (d : DbMeta) (s : SmManager) : SmManager := mk_SmManager d (fhs_ s) (ihs_ s) (files_ s) (meta_file_ s).
Definition set_fhs (f : gmap bytes Recovery.Table) (s : SmManager) : SmManager := mk_SmManager (db_ s) f (ihs_ s) (files_ s) (meta_file_ s).
Definition set_ihs (i : gmap string OpenIndex) (s : SmManager) : SmManager := mk_SmManager (db_ s) (fhs_ s) i (files_ s) (meta_file_ s).
Definition set_files (f : gset string) (s : SmManager) : SmManager := mk_SmManager (db_ s) (fhs_ s) (ihs_ s) f (meta_file_ s).
Definition set_tabs (m : gmap bytes CatTab) (s : SmManager) : SmManager := set_db (mk_DbMeta (name_ (db_ s)) m) s.

Definition file_of (tab : bytes) : string := String.string_of_list_byte tab.
Definition index_file (tab : bytes) (cs : list ColMeta) : string := IxFile.get_index_name (file_of tab) cs.

(** [DiskManager::create_file] and [destroy_file] of a file that is closed. *)
Definition create_disk_file (name : string) : M SmManager unit :=
  s ← get; if decide (name ∈ files_ s) then throw (FileExistsError name) else put (set_files ({[name]} ∪ files_ s) s).
Definition destroy_disk_file (name : string) : M SmManager unit :=
  s ← get; if decide (name ∈ files_ s) then put (set_files (files_ s ∖ {[name]}) s) else throw (FileNotFoundError name).

(** The catalogue file gets the text of the catalogue. *)
Definition flush_meta : M SmManager unit :=
  modify (λ s, mk_SmManager (db_ s) (fhs_ s) (ihs_ s) (files_ s) (write_db (db_ s))).

(** A table by its name, and a column of it. *)
Definition get_tab (tab : bytes) : M SmManager CatTab :=
  s ← get; match tabs_ (db_ s) !! tab with Some t => mret t | None => throw (TableNotFoundError (file_of tab)) end.
Definition get_cat_col (t : CatTab) (name : bytes) : res CatCol :=
  require (snd <$> list_find (λ c, cm_name (cc_meta c) = name) (ct_cols t)) (ColumnNotFoundError (String.string_of_list_byte name)).

(** ** CREATE TABLE *)

Record ColDef := mk_ColDef { cd_name : bytes; cd_type : ColType; cd_len : Z }.

Fixpoint make_cols (tab : bytes) (curr_offset : Z) (defs : list ColDef) : list CatCol :=
  match defs with
  | [] => []
  | d :: defs => mk_CatCol (mk_ColMeta tab (cd_name d) (cd_type d) (cd_len d) curr_offset) false :: make_cols tab (curr_offset + cd_len d) defs
  end.
Definition record_size_of (defs : list ColDef) : Z := foldl (λ n d, n + cd_len d) 0 defs.

(** A new heap file, opened. *)
Definition new_heap (record_size : Z) : Recovery.Table := Recovery.mk_Table ∅ ∅ RM_FIRST_RECORD_PAGE (num_records_per_page (make_hdr record_size)) [].

Definition create_heap_file (name : string) (record_size : Z) : M SmManager unit :=
  if decide (record_size < 1 ∨ RM_MAX_RECORD_SIZE < record_size) then throw (InvalidRecordSizeError record_size) else create_disk_file name.

(** [curr_offset] is an [int]: an overflow of it is undefined. *)
Definition create_table (tab : bytes) (defs : list ColDef) : M SmManager unit :=
  s ← get;
  if decide (is_Some (tabs_ (db_ s) !! tab)) then throw (TableExistsError (file_of tab))
  else
    let record_size := record_size_of defs in
    (if decide (2147483647 < record_size) then throw Undefined else mret tt);;
    create_heap_file (file_of tab) record_size;;
    modify (λ s, set_tabs (<[tab := mk_CatTab tab (make_cols tab 0 defs) []]> (tabs_ (db_ s))) s);;
    modify (λ s, set_fhs (match fhs_ s !! tab with Some _ => fhs_ s | None => <[tab := new_heap record_size]> (fhs_ s) end) s);;
    flush_meta.

(** ** DROP TABLE *)

(** The open index is closed and its file removed. *)
Definition remove_index (name : string) : M SmManager unit :=
  modify (λ s, set_ihs (delete name (ihs_ s)) s);; destroy_disk_file name.

Definition drop_table (tab : bytes) : M SmManager unit :=
  t ← get_tab tab;
  modify (λ s, set_fhs (delete tab (fhs_ s)) s);;
  destroy_disk_file (file_of tab);;
  mfor (λ i, remove_index (index_file tab (cc_meta <$> ci_cols i))) (ct_indexes t);;
  modify (λ s, set_tabs (delete tab (tabs_ (db_ s))) s);;
  flush_meta.

(** ** CREATE INDEX *)

(** [memcmp] or the comparison of numbers: [compare_record_col]. *)
Definition compare_record_col (l r : record) (c : ColMeta) : comparison :=
  match cm_type c with
  | TYPE_INT => int_of (field l (cm_offset c) 4) ?= int_of (field r (cm_offset c) 4)
  | TYPE_FLOAT =>
      let lv := float_of (field l (cm_offset c) 4) in
      let rv := float_of (field r (cm_offset c) 4) in
      if SFltb lv rv then Lt else if SFltb rv lv then Gt else Eq
  | TYPE_STRING => byte_compare (field l (cm_offset c) (cm_len c)) (field r (cm_offset c) (cm_len c))
  end.

Fixpoint record_less_by_index (cs : list ColMeta) (l r : record) : bool :=
  match cs with
  | [] => false
  | c :: cs => match compare_record_col l r c with Eq => record_less_by_index cs l r | Lt => true | Gt => false end
  end.

Definition record_key_equal_by_index (cs : list ColMeta) (l r : record) : bool :=
  forallb (λ c, bool_decide (compare_record_col l r c = Eq)) cs.

Section build.
Context (free_slot : Recovery.Table → Rid) (index_cols : list ColMeta).
Abbreviation rank r := (IxKeys.key_rank (ScanBounds.col_pair <$> index_cols) (ScanBounds.key_of r index_cols)).

(** [insert_entry], which refuses a key that is there. *)
Definition add_entry (es : gmap Z IxTree.entry) (r : record) (rid : Rid) : res (gmap Z IxTree.entry) :=
  match es !! rank r with Some _ => Err RMDBError | None => Ok (<[rank r := (ScanBounds.key_of r index_cols, rid)]> es) end.

(** The records in the order of a scan. *)
Definition scan_records (tb : Recovery.Table) : list (Rid * record) :=
  omap (λ rid, pair rid <$> Recovery.t_records tb !! rid) (merge_sort rid_le (elements (dom (Recovery.t_records tb)))).

(** An entry for each record where it is. *)
Fixpoint index_records (l : list (Rid * record)) (es : gmap Z IxTree.entry) : res (gmap Z IxTree.entry) :=
  match l with
  | [] => Ok es
  | (rid, r) :: l => es ← add_entry es r rid; index_records l es
  end.

(** [RmFileHandle::reset_data_pages]. *)
Definition reset_data_pages : M Recovery.Table unit :=
  modify (λ tb, Recovery.mk_Table ∅ ∅ RM_FIRST_RECORD_PAGE (Recovery.t_slots tb) (Recovery.t_indexes tb)).

(** Records are put into the file, each with its entry. *)
Fixpoint load_records (l : list record) (es : gmap Z IxTree.entry) : M Recovery.Table (gmap Z IxTree.entry) :=
  match l with
  | [] => mret es
  | r :: l => rid ← Dml.insert_record free_slot r; es ← lift (add_entry es r rid); load_records l es
  end.

Definition has_duplicate (l : list record) : bool :=
  existsb (λ '(a, b), record_key_equal_by_index index_cols a b) (zip l (tail l)).

Definition restore_records (l : list record) : M Recovery.Table unit := mfor (λ r, Dml.insert_record free_slot r;; mret tt) l.

(** The table becomes clustered: its records are put back in the order of the index.  Records
    with equal keys, whose order [std::sort] leaves open, are refused. *)
Definition build_clustered : M Recovery.Table (gmap Z IxTree.entry) :=
  tb ← get;
  let backup := (scan_records tb).*2 in
  let records := stable_sort (record_less_by_index index_cols) backup in
  if has_duplicate records then throw RMDBError
  else
    reset_data_pages;;
    try_catch (load_records records ∅) (λ e, reset_data_pages;; restore_records backup;; throw e).

Definition build_entries : M Recovery.Table (gmap Z IxTree.entry) :=
  tb ← get; lift (index_records (scan_records tb) ∅).
End build.

Section create_index.
Context (free_slot : Recovery.Table → Rid).

(** [fhs_.at(tab)]. *)
Definition on_fh {A} (tab : bytes) (m : M Recovery.Table A) : M SmManager A := λ s,
  match fhs_ s !! tab with
  | Some tb => let '(r, tb') := m tb in (r, set_fhs (<[tab := tb']> (fhs_ s)) s)
  | None => (Err InternalError, s)
  end.

(** [IxManager::create_index]: the length is checked when the file exists. *)
Definition create_index_file (name : string) (cs : list ColMeta) : M SmManager unit :=
  create_disk_file name;;
  let len := foldl Z.add 0 (cm_len <$> cs) in
  if decide (Ix.IX_MAX_COL_LEN < len) then throw (InvalidColLengthError len) else mret tt.

Definition has_index (t : CatTab) (col_names : list bytes) : bool :=
  existsb (λ i, bool_decide (cm_name ∘ cc_meta <$> ci_cols i = col_names)) (ct_indexes t).

(** The first column with the name is marked. *)
Fixpoint mark_col (name : bytes) (cs : list CatCol) : list CatCol :=
  match cs with
  | [] => []
  | c :: cs => if decide (cm_name (cc_meta c) = name) then mk_CatCol (cc_meta c) true :: cs else c :: mark_col name cs
  end.

Definition create_index (tab : bytes) (col_names : list bytes) : M SmManager unit :=
  t ← get_tab tab;
  if has_index t col_names then throw (IndexExistsError (file_of tab) (String.string_of_list_byte <$> col_names))
  else
    cs ← lift (mapM (get_cat_col t) col_names);
    let metas := cc_meta <$> cs in
    let name := index_file tab metas in
    create_index_file name metas;;
    es ← try_catch (on_fh tab (match ct_indexes t with [] => build_clustered free_slot metas | _ => build_entries metas end))
           (λ e, destroy_disk_file name;; throw e);
    let i := mk_CatIndex tab (foldl Z.add 0 (cm_len <$> metas)) (Z.of_nat (length cs)) cs in
    modify (λ s, set_tabs (<[tab := mk_CatTab (ct_name t) (foldl (λ l n, mark_col n l) (ct_cols t) col_names) (ct_indexes t ++ [i])]> (tabs_ (db_ s))) s);;
    modify (λ s, set_ihs (<[name := mk_OpenIndex metas es]> (ihs_ s)) s);;
    flush_meta.
End create_index.

(** ** DROP INDEX *)

Definition index_names (i : CatIndex) : list bytes := cm_name ∘ cc_meta <$> ci_cols i.

(** A column is marked while an index has it. *)
Definition remark (ixs : list CatIndex) (c : CatCol) : CatCol :=
  mk_CatCol (cc_meta c) (existsb (λ i, existsb (λ ic, bool_decide (cm_name (cc_meta ic) = cm_name (cc_meta c))) (ci_cols i)) ixs).

Definition drop_index (tab : bytes) (col_names : list bytes) : M SmManager unit :=
  t ← get_tab tab;
  '(k, i) ← lift (require (list_find (λ i, index_names i = col_names) (ct_indexes t)) (IndexNotFoundError (file_of tab) (String.string_of_list_byte <$> col_names)));
  remove_index (index_file tab (cc_meta <$> ci_cols i));;
  let ixs := delete k (ct_indexes t) in
  modify (λ s, set_tabs (<[tab := mk_CatTab (ct_name t) (remark ixs <$> ct_cols t) ixs]> (tabs_ (db_ s))) s);;
  flush_meta.

(** ** Statements *)

Inductive Ddl := CreateTable (tab : bytes) (defs : list ColDef) | DropTable (tab : bytes) | CreateIndex (tab : bytes) (names : list bytes) | DropIndex (tab : bytes) (names : list bytes).

(** [QlManager::run_mutli_query]. *)
Definition run_ddl (free_slot : Recovery.Table → Rid) (d : Ddl) : M SmManager unit :=
  match d with
  | CreateTable tab defs => create_table tab defs
  | DropTable tab => drop_table tab
  | CreateIndex tab names => create_index free_slot tab names
  | DropIndex tab names => drop_index tab names
  end.

(** Statements one after the other; the client gets the error of one that fails. *)
Definition run_ddls (free_slot : Recovery.Table → Rid) (l : list Ddl) (s : SmManager) : SmManager := foldl (λ s d, (run_ddl free_slot d s).2) s l.

(** ** Start and stop *)

(** What the files of a database hold while it is closed. *)
Record Stored := mk_Stored {
  st_heaps : gmap string Recovery.Table;
  st_trees : gmap string (gmap Z IxTree.entry);
  st_files : gset string;
  st_meta : bytes
}.

(** A directory with the catalogue file and the log. *)
Definition create_db (name : bytes) : Stored := mk_Stored ∅ ∅ {["db.meta"%string; "db.log"%string]} (write_db (mk_DbMeta name ∅)).

(** [close_index] and [close_file] write what is in memory, and the catalogue is flushed.  The
    records and entries are carried over as they are: that a closed heap file gives its records
    back is [RecSpec.reload_records], for index files it is assumed; only the catalogue goes
    through its text here. *)
Definition close_db (s : SmManager) : Stored := mk_Stored (kmap file_of (fhs_ s)) (oi_entries <$> ihs_ s) (files_ s) (write_db (db_ s)).

Section open_db.
Context (st : Stored).

Fixpoint open_indexes (tab : bytes) (ixs : list CatIndex) (ihs : gmap string OpenIndex) : res (gmap string OpenIndex) :=
  match ixs with
  | [] => Ok ihs
  | i :: ixs =>
      let metas := cc_meta <$> ci_cols i in
      let ix_name := index_file tab metas in
      es ← require (st_trees st !! ix_name) (FileNotFoundError ix_name);
      open_indexes tab ixs (<[ix_name := mk_OpenIndex metas es]> ihs)
  end.

Fixpoint open_tables (ts : list CatTab) (fhs : gmap bytes Recovery.Table) (ihs : gmap string OpenIndex) : res (gmap bytes Recovery.Table * gmap string OpenIndex) :=
  match ts with
  | [] => Ok (fhs, ihs)
  | t :: ts =>
      tb ← require (st_heaps st !! file_of (ct_name t)) (FileNotFoundError (file_of (ct_name t)));
      ihs ← open_indexes (ct_name t) (ct_indexes t) ihs;
      open_tables ts (<[ct_name t := tb]> fhs) ihs
  end.

Definition open_db : res SmManager :=
  d ← (read_db (st_meta st)).1;
  '(fhs, ihs) ← open_tables (entries_in_order (tabs_ d)).*2 ∅ ∅;
  mret (mk_SmManager d fhs ihs (st_files st) (st_meta st)).
End open_db.

(** A table with its indexes, as recovery uses them. *)
Definition recovery_table (s : SmManager) (tab : bytes) (tb : Recovery.Table) : Recovery.Table :=
  let ixs := match tabs_ (db_ s) !! tab with Some t => ct_indexes t | None => [] end in
  Recovery.with_indexes
    ((λ i, let metas := cc_meta <$> ci_cols i in
       let es := match ihs_ s !! index_file tab metas with Some ix => oi_entries ix | None => ∅ end in
       Recovery.mk_Index ((λ c, Recovery.mk_IndexCol (cm_offset c) (cm_len c)) <$> metas) (list_to_map (map_to_list es).*2)) <$> ixs) tb.
Definition recovery_db (s : SmManager) : gmap bytes Recovery.Table := map_imap (λ tab tb, Some (recovery_table s tab tb)) (fhs_ s).

(** ** The catalogue that analyzer, planner and executors use *)

Definition tab_meta (t : CatTab) : TabMeta := mk_TabMeta (cc_meta <$> ct_cols t) ((λ i, mk_IndexMeta (cc_meta <$> ci_cols i)) <$> ct_indexes t).
Definition catalogue (d : DbMeta) : gmap bytes TabMeta := tab_meta <$> tabs_ d.
End Sys.
