(* ===== verification/SysFacts.v ===== *)
(** * Facts about the system manager

    Building an index gives every record of the table exactly one entry, or fails because two
    records have equal keys; in both cases the table keeps its records.  [sm_ok] is the invariant
    of the system manager: the catalogue file has the text of the catalogue, every table and
    index of the catalogue is open and has its own file, and every index is complete. *)

From Stdlib Require Import SpecFloat.
From S2P Require Import Prelude Bitmap RecordFile Recovery Conditions LockManager Mvcc Index IndexTree IndexKeys IndexFile Executor ExecutorSort Aggregate Scans Dml ScanBounds Catalogue SysManager.

Module SysFacts.
Import RecFile Cond Mvcc Exec Cat Sys.

(** ** Heap files *)

Record heap_ok (tb : Recovery.Table) : Prop := {
  ho_pages : RM_FIRST_RECORD_PAGE ≤ Recovery.t_pages tb;
  ho_slots : 0 < Recovery.t_slots tb;
  ho_recs : map_Forall (λ r _, Recovery.page_ok (page_no r) tb = true) (Recovery.t_records tb)
}.

Definition values (tb : Recovery.Table) : list record := (map_to_list (Recovery.t_records tb)).*2.

Section heap.
Context (free_slot : Recovery.Table → Rid) `{Hfree : !Dml.FreeSlots free_slot}.

Lemma heap_insert_ok tb r : heap_ok tb → ∃ rid tb', Dml.insert_record free_slot r tb = (Ok rid, tb') ∧ heap_ok tb' ∧
  Recovery.t_records tb !! rid = None ∧ Recovery.t_records tb' = <[rid := r]> (Recovery.t_records tb).
Proof.
  intros [H1 H2 H3]. set (rid := free_slot tb). pose proof (Dml.free_slot_unused tb H3) as Hn. pose proof (Dml.free_slot_page tb H1) as Hp. pose proof (Dml.free_slot_slot tb H2) as Hs. fold rid in Hn, Hp, Hs.
  set (tb1 := if decide (page_no rid = Recovery.t_pages tb) then Recovery.mk_Table (Recovery.t_records tb) (<[Recovery.t_pages tb := INVALID_LSN]> (Recovery.t_lsn tb)) (Recovery.t_pages tb + 1) (Recovery.t_slots tb) (Recovery.t_indexes tb) else tb).
  assert (Recovery.t_records tb1 = Recovery.t_records tb ∧ Recovery.t_slots tb1 = Recovery.t_slots tb ∧ page_no rid < Recovery.t_pages tb1 ∧ Recovery.t_pages tb ≤ Recovery.t_pages tb1) as (E1 & E2 & Hlt & Hle)
    by (unfold tb1; case_decide; cbn; split_and!; try done; lia).
  exists rid, (Recovery.with_records (<[rid := r]> (Recovery.t_records tb1)) tb1). split_and!.
  - unfold Dml.insert_record, mbind, M_bind, get. fold rid. assert ((if decide (page_no rid = Recovery.t_pages tb) then Recovery.create_new_page else mret tt) tb = (Ok tt, tb1)) as ->
      by (unfold tb1; by case_decide). unfold Recovery.insert_record_at, mbind, M_bind, get.
    assert (Recovery.page_ok (page_no rid) tb1 = true) as -> by (apply bool_decide_eq_true; lia). assert (Recovery.slot_ok (slot_no rid) tb1 = true) as -> by (unfold Recovery.slot_ok; by rewrite E2). cbn [negb].
    unfold Recovery.is_record. rewrite E1, Hn. rewrite bool_decide_eq_false_2 by by intros [].  by unfold put.
  - split; cbn; [lia|by rewrite E2|]. rewrite E1. apply map_Forall_insert_2.
    + apply bool_decide_eq_true. cbn. lia.
    + intros r' v Hr'. specialize (H3 r' v Hr'). cbv beta in H3. apply bool_decide_eq_true in H3. apply bool_decide_eq_true. cbn. lia.
  - done.
  - cbn. by rewrite E1.
Qed.

Lemma values_insert tb tb' rid r : Recovery.t_records tb !! rid = None → Recovery.t_records tb' = <[rid := r]> (Recovery.t_records tb) → values tb' ≡ₚ r :: values tb.
Proof. intros Hn E. unfold values. by rewrite E, map_to_list_insert. Qed.

Lemma restore_ok l : ∀ tb, heap_ok tb → ∃ tb', restore_records free_slot l tb = (Ok tt, tb') ∧ heap_ok tb' ∧ values tb' ≡ₚ values tb ++ l.
Proof.
  induction l as [|r l IH]; intros tb Htb; [exists tb; by rewrite app_nil_r|]. destruct (heap_insert_ok tb r Htb) as (rid & tb1 & Hrun & Hok & Hn & E).
  destruct (IH tb1 Hok) as (tb2 & Hrun2 & Hok2 & Hv). exists tb2. split_and!; [|done|].
  - unfold restore_records in *. cbn [mfor]. unfold mbind, M_bind in *. rewrite Hrun. exact Hrun2.
  - rewrite Hv, (values_insert tb tb1 rid r) by done. by rewrite <-Permutation_middle.
Qed.

Lemma reset_ok tb : heap_ok tb → ∃ tb', reset_data_pages tb = (Ok tt, tb') ∧ heap_ok tb' ∧ Recovery.t_records tb' = ∅.
Proof. intros [H1 H2 H3]. eexists. split; [reflexivity|]. split; [|done]. split; cbn; [done|done|]. apply map_Forall_empty. Qed.
End heap.

(** ** Entries of an index *)

Section entries.
Context (cs : list ColMeta).
Abbreviation rank r := (IxKeys.key_rank (ScanBounds.col_pair <$> cs) (ScanBounds.key_of r cs)).
Abbreviation key r := (ScanBounds.key_of r cs).

(** The entries are those of the records in [l]. *)
Record entries_of (l : list (Rid * record)) (es : gmap Z IxTree.entry) : Prop := {
  eo_all rid r : (rid, r) ∈ l → es !! rank r = Some (key r, rid);
  eo_only z k rid : es !! z = Some (k, rid) → ∃ r, (rid, r) ∈ l ∧ z = rank r ∧ k = key r
}.

#[export] Instance entries_of_proper : Proper (Permutation ==> eq ==> iff) entries_of.
Proof.
  assert (∀ l k es, l ≡ₚ k → entries_of l es → entries_of k es) as H.
  { intros l k es Hp [H1 H2]. split; [intros rid r Hin; apply H1; by rewrite Hp|]. intros z key rid Hz. destruct (H2 z key rid Hz) as (r & Hin & E). exists r. by rewrite <-Hp. }
  intros l k Hp es ? <-. split; by apply H.
Qed.

Lemma entries_nil : entries_of [] ∅.
Proof. split; [intros rid r H; by apply elem_of_nil in H|by intros]. Qed.

Lemma add_entry_ok l es rid r : entries_of l es →
  match add_entry cs es r rid with Ok es' => entries_of ((rid, r) :: l) es' | Err e => e = RMDBError ∧ ∃ r', r' ∈ l.*2 ∧ rank r' = rank r end.
Proof.
  intros [H1 H2]. unfold add_entry. destruct (es !! rank r) as [[k rid']|] eqn:E.
  - split; [done|]. destruct (H2 _ _ _ E) as (r' & Hin & Hz & _). exists r'. split; [|done]. apply list_elem_of_fmap. by exists (rid', r').
  - split.
    + intros rid' r' [[= -> ->]|Hin]%elem_of_cons; [by rewrite lookup_insert_eq|]. rewrite lookup_insert_ne; [by apply H1|]. intros Er. specialize (H1 _ _ Hin). congruence.
    + intros z k rid' [[<- [= <- <-]]|[_ Hz]]%lookup_insert_Some; [exists r; split; [by left|done]|]. destruct (H2 _ _ _ Hz) as (r' & Hin & Hr). exists r'. split; [by right|done].
Qed.

Lemma dup_not_nodup (l : list record) r k : (∃ r', r' ∈ l ∧ rank r' = rank r) → ¬ NoDup ((λ r, rank r) <$> (l ++ r :: k)).
Proof.
  intros (r' & Hin & E) Hnd. apply list_elem_of_split in Hin as (l1 & l2 & ->). rewrite <-app_assoc, fmap_app in Hnd. apply NoDup_app in Hnd as (_ & _ & Hnd).
  cbn [app fmap list_fmap] in Hnd. apply NoDup_cons in Hnd as [Hn _]. apply Hn. rewrite fmap_app. apply elem_of_app. right. rewrite E. by left.
Qed.

(** Complete entries of different records have different keys. *)
Lemma entries_nodup l es : entries_of l es → NoDup l.*1 → NoDup ((λ r, rank r) <$> l.*2).
Proof.
  intros [H1 _]. assert (∀ e, e ∈ l → es !! rank e.2 = Some (key e.2, e.1)) as H by (intros [rid r]; apply H1). clear H1.
  induction l as [|[rid r] l IH]; intros Hnd; [constructor|]. cbn [fmap list_fmap fst snd] in *. apply NoDup_cons in Hnd as [Hn Hnd]. constructor; [|apply IH; [intros e He; apply H; by right|done]].
  intros Hin. apply list_elem_of_fmap in Hin as (r' & E & (e & -> & He)%list_elem_of_fmap). pose proof (H (rid, r) ltac:(by left)) as Ha. pose proof (H e ltac:(by right)) as Hb. cbn [fst snd] in *.
  rewrite E in Ha. rewrite Ha in Hb. injection Hb as _ Er. apply Hn. rewrite Er. apply list_elem_of_fmap. by exists e.
Qed.

Lemma index_records_ok l : ∀ seen es, entries_of seen es →
  match index_records cs l es with Ok es' => entries_of (reverse l ++ seen) es' | Err e => e = RMDBError ∧ ¬ NoDup ((λ r, rank r) <$> (seen.*2 ++ l.*2)) end.
Proof.
  induction l as [|[rid r] l IH]; intros seen es Hd; cbn [index_records]; [done|]. pose proof (add_entry_ok seen es rid r Hd) as Ha. destruct (add_entry cs es r rid) as [es1|e]; cbn [mbind res_bind].
  - specialize (IH ((rid, r) :: seen) es1 Ha). destruct (index_records cs l es1).
    + by rewrite reverse_cons, <-app_assoc.
    + destruct IH as [-> Hn]. split; [done|]. cbn [fmap list_fmap snd] in *. intros Hnd. apply Hn. by rewrite <-app_comm_cons, Permutation_middle.
  - destruct Ha as [-> Hdup]. split; [done|]. by apply dup_not_nodup.
Qed.

Section load.
Context (free_slot : Recovery.Table → Rid) `{Hfree : !Dml.FreeSlots free_slot}.

Lemma load_records_ok l : ∀ es tb, heap_ok tb → entries_of (map_to_list (Recovery.t_records tb)) es → ∃ r tb', load_records free_slot cs l es tb = (r, tb') ∧ heap_ok tb' ∧
  match r with
  | Ok es' => entries_of (map_to_list (Recovery.t_records tb')) es' ∧ values tb' ≡ₚ values tb ++ l
  | Err e => e = RMDBError ∧ ¬ NoDup ((λ r, rank r) <$> (values tb ++ l))
  end.
Proof.
  induction l as [|r l IH]; intros es tb Htb Hes; [exists (Ok es), tb; by rewrite app_nil_r|]. destruct (heap_insert_ok free_slot tb r Htb) as (rid & tb1 & Hrun & Hok & Hn & E).
  cbn [load_records]. unfold mbind at 1, M_bind at 1. rewrite Hrun. unfold mbind, M_bind, lift. pose proof (add_entry_ok _ es rid r Hes) as Ha. destruct (add_entry cs es r rid) as [es1|e].
  - destruct (IH es1 tb1 Hok) as (res & tb2 & Hrun2 & Hok2 & Hres); [by rewrite E, map_to_list_insert|]. exists res, tb2. split_and!; [done|done|].
    assert (values tb1 ++ l ≡ₚ values tb ++ r :: l) as Hv by (rewrite (values_insert tb tb1 rid r) by done; by rewrite <-Permutation_middle).
    destruct res as [es2|e]; [by rewrite <-Hv|]. destruct Hres as [-> Hd]. split; [done|]. by rewrite <-Hv.
  - exists (Err e), tb1. destruct Ha as [-> Hdup]. split_and!; [done|done|done|]. by apply dup_not_nodup.
Qed.

Lemma scan_records_perm tb : scan_records tb ≡ₚ map_to_list (Recovery.t_records tb).
Proof.
  unfold scan_records. set (m := Recovery.t_records tb). rewrite merge_sort_Permutation. apply NoDup_Permutation.
  - assert (∀ k, NoDup k → NoDup (omap (λ rid, pair rid <$> m !! rid) k)) as H; [|apply H, NoDup_elements]. induction 1 as [|rid k Hn Hnd IH]; [constructor|]. cbn [omap list_omap].
    destruct (m !! rid) as [r|]; [|done]. cbn [fmap option_fmap option_map]. constructor; [|done]. intros (rid' & Hin & Hf)%list_elem_of_omap. destruct (m !! rid'); [|done]. injection Hf as -> _. done.
  - apply NoDup_map_to_list.
  - intros [rid r]. rewrite list_elem_of_omap, elem_of_map_to_list. split.
    + intros (rid' & _ & Hf). destruct (m !! rid') eqn:Em; [|done]. injection Hf as <- <-. done.
    + intros Hm. exists rid. split; [|by rewrite Hm]. apply elem_of_elements, elem_of_dom. by eexists.
Qed.

Lemma scan_values_perm tb : (scan_records tb).*2 ≡ₚ values tb.
Proof. unfold values. by rewrite scan_records_perm. Qed.

Lemma stable_sort_perm less (l : list record) : stable_sort less l ≡ₚ l.
Proof.
  assert (∀ x k, stable_insert less x k ≡ₚ x :: k) as Hi.
  { intros x k. induction k as [|y k IH]; [done|]. cbn [stable_insert]. destruct (less y x); [|done]. rewrite IH. apply Permutation_swap. }
  unfold stable_sort. induction l as [|x l IH]; [done|]. cbn [foldr]. by rewrite Hi, IH.
Qed.

(** What building an index does to the table. *)
Record built (tb tb' : Recovery.Table) (r : res (gmap Z IxTree.entry)) : Prop := {
  bt_heap : heap_ok tb';
  bt_values : values tb' ≡ₚ values tb;
  bt_entries es : r = Ok es → entries_of (map_to_list (Recovery.t_records tb')) es
}.

Lemma build_entries_built tb : heap_ok tb → ∃ r, build_entries cs tb = (r, tb) ∧ built tb tb r ∧ (∀ e, r = Err e → e = RMDBError ∧ ¬ NoDup ((λ r, rank r) <$> values tb)).
Proof.
  intros Htb. unfold build_entries, mbind, M_bind, get, lift. eexists. split; [reflexivity|]. pose proof (index_records_ok (scan_records tb) [] ∅ entries_nil) as H.
  destruct (index_records cs (scan_records tb) ∅) as [es|e].
  - split; [|done]. split; [done|done|]. intros es' [= <-]. by rewrite app_nil_r, reverse_Permutation, scan_records_perm in H.
  - split; [split; [done|done|by intros]|]. intros e' [= <-]. destruct H as [-> H]. split; [done|]. cbn [fmap list_fmap app] in H. by rewrite scan_values_perm in H.
Qed.

Lemma build_clustered_built tb : heap_ok tb → ∃ r tb', build_clustered free_slot cs tb = (r, tb') ∧ built tb tb' r ∧
  (∀ e, r = Err e → e = RMDBError ∧ (has_duplicate cs (stable_sort (record_less_by_index cs) (scan_records tb).*2) = true ∨ ¬ NoDup ((λ r, rank r) <$> values tb))).
Proof.
  intros Htb. unfold build_clustered, mbind, M_bind, get. set (sorted := stable_sort _ _). destruct (has_duplicate cs sorted) eqn:Ed.
  - exists (Err RMDBError), tb. split; [done|]. split; [split; [done|done|by intros]|]. intros e [= <-]. by split; [|left].
  - destruct (reset_ok tb Htb) as (tb0 & Hr0 & Hok0 & E0). rewrite Hr0. unfold try_catch.
    destruct (load_records_ok sorted ∅ tb0 Hok0) as (r & tb1 & Hrun & Hok1 & Hr); [rewrite E0, map_to_list_empty; apply entries_nil|]. rewrite Hrun.
    assert (values tb0 = []) as Ev by (unfold values; by rewrite E0, map_to_list_empty). rewrite Ev in Hr. cbn [app] in Hr.
    assert (sorted ≡ₚ values tb) as Hs by (unfold sorted; by rewrite stable_sort_perm, scan_values_perm). destruct r as [es|e].
    + destruct Hr as [Hes Hv]. exists (Ok es), tb1. split; [done|]. split; [|done]. split; [done|by rewrite Hv|]. by intros es' [= <-].
    + destruct Hr as [-> Hn]. destruct (reset_ok tb1 Hok1) as (tb2 & Hr2 & Hok2 & E2). destruct (restore_ok free_slot (scan_records tb).*2 tb2 Hok2) as (tb3 & Hr3 & Hok3 & Hv3).
      exists (Err RMDBError), tb3. unfold mbind, M_bind. rewrite Hr2, Hr3. split; [done|]. split.
      * split; [done| |by intros]. rewrite Hv3. unfold values at 1. rewrite E2, map_to_list_empty. apply scan_values_perm.
      * intros e [= <-]. split; [done|]. right. by rewrite <-Hs.
Qed.
End load.
End entries.

(** *** Equal keys *)

(** The columns of the record have values of their types. *)
Definition valid_record (cs : list ColMeta) (r : record) : Prop :=
  Forall (λ c, ScanBounds.field_ok (cm_type c) (cm_len c) (field r (cm_offset c) (cm_len c))) cs.

Lemma compare_col_rank l r c : ScanBounds.field_ok (cm_type c) (cm_len c) (field l (cm_offset c) (cm_len c)) → ScanBounds.field_ok (cm_type c) (cm_len c) (field r (cm_offset c) (cm_len c)) →
  compare_record_col l r c = (IxKeys.col_rank (cm_type c) (cm_len c) (field l (cm_offset c) (cm_len c)) ?= IxKeys.col_rank (cm_type c) (cm_len c) (field r (cm_offset c) (cm_len c))).
Proof.
  intros Hl Hr. rewrite <-IxKeys.col_compare_rank by by apply ScanBounds.field_valid. unfold compare_record_col, ix_compare_col. destruct Hl as [Hll Hl], Hr as [Hrl Hr].
  assert (∀ rec, take 4 (field rec (cm_offset c) 4) = field rec (cm_offset c) 4) as H4 by (intros rec; apply take_ge; unfold field, read_bytes; rewrite length_take; lia).
  destruct (cm_type c).
  - rewrite Hl, !H4. done.
  - destruct Hl as [-> _]. by rewrite !H4.
  - by rewrite !take_ge by lia.
Qed.

Lemma equal_rank cs l r : valid_record cs l → valid_record cs r → record_key_equal_by_index cs l r = true →
  IxKeys.key_rank (ScanBounds.col_pair <$> cs) (ScanBounds.key_of l cs) = IxKeys.key_rank (ScanBounds.col_pair <$> cs) (ScanBounds.key_of r cs).
Proof.
  unfold record_key_equal_by_index, ScanBounds.key_of. induction cs as [|c cs IH]; intros Hl Hr He; [done|]. apply Forall_cons in Hl as [Hl Hls], Hr as [Hr Hrs]. cbn [forallb] in He.
  apply andb_true_iff in He as [Hc%bool_decide_eq_true He]. rewrite compare_col_rank in Hc by done. apply Z.compare_eq in Hc. cbn [fmap list_fmap concat]. unfold ScanBounds.col_pair at 1 3.
  assert (∀ rec, ScanBounds.field_ok (cm_type c) (cm_len c) (field rec (cm_offset c) (cm_len c)) → Z.of_nat (length (field rec (cm_offset c) (cm_len c))) = cm_len c ∧ (cm_type c ≠ TYPE_STRING → cm_len c = 4)) as Hf.
  { intros rec [H1 H2]. split; [done|]. destruct (cm_type c); [done|by destruct H2|done]. }
  destruct (Hf l Hl) as [F1 F2], (Hf r Hr) as [G1 G2]. rewrite !ScanBounds.key_rank_front by done. rewrite Hc. f_equal. by apply IH.
Qed.

Lemma duplicate_ranks cs l : Forall (valid_record cs) l → has_duplicate cs l = true → ¬ NoDup ((λ r, IxKeys.key_rank (ScanBounds.col_pair <$> cs) (ScanBounds.key_of r cs)) <$> l).
Proof.
  unfold has_duplicate. induction l as [|a l IH]; [done|]. intros Hv Hd Hnd. apply Forall_cons in Hv as [Ha Hv]. cbn [fmap list_fmap] in Hnd. apply NoDup_cons in Hnd as [Hn Hnd].
  destruct l as [|b l]; [done|]. cbn [tail zip zip_with existsb] in *. apply orb_true_iff in Hd as [He|Hd]; [|by apply (IH Hv Hd)].
  apply Hn. apply Forall_cons in Hv as [Hb _]. rewrite (equal_rank cs a b Ha Hb He). by left.
Qed.

(** ** The invariant *)

(** A name of a file, and the table or the index that it belongs to. *)
Inductive owns (m : gmap bytes CatTab) : string → bytes * option nat → Prop :=
  | owns_table tab t : m !! tab = Some t → owns m (file_of tab) (tab, None)
  | owns_index tab t k i : m !! tab = Some t → ct_indexes t !! k = Some i → owns m (index_file tab (cc_meta <$> ci_cols i)) (tab, Some k).

Record sm_ok (s : SmManager) : Prop := {
  so_db : db_ok (db_ s);
  so_meta : meta_file_ s = write_db (db_ s);
  so_lens : map_Forall (λ _ t, Forall (λ c, 0 ≤ cm_len (cc_meta c)) (ct_cols t)) (tabs_ (db_ s));
  so_table tab t : tabs_ (db_ s) !! tab = Some t → ∃ tb, fhs_ s !! tab = Some tb ∧ heap_ok tb;
  so_only tab : is_Some (fhs_ s !! tab) → is_Some (tabs_ (db_ s) !! tab);
  so_index tab t i tb : tabs_ (db_ s) !! tab = Some t → i ∈ ct_indexes t → fhs_ s !! tab = Some tb → let metas := cc_meta <$> ci_cols i in
    ∃ ix, ihs_ s !! index_file tab metas = Some ix ∧ oi_cols ix = metas ∧ entries_of metas (map_to_list (Recovery.t_records tb)) (oi_entries ix);
  so_handles name : is_Some (ihs_ s !! name) → ∃ tab k, owns (tabs_ (db_ s)) name (tab, Some k);
  so_files name o : owns (tabs_ (db_ s)) name o → name ∈ files_ s;
  so_unique name o o' : owns (tabs_ (db_ s)) name o → owns (tabs_ (db_ s)) name o' → o = o'
}.

(** *** Columns *)

Lemma make_cols_ok tab defs : word tab = true → Forall (λ d, word (cd_name d) = true ∧ 0 ≤ cd_len d) defs → ∀ off, 0 ≤ off → off + record_size_of defs ≤ 2147483647 →
  forallb col_ok (make_cols tab off defs) = true ∧ Forall (λ c, 0 ≤ cm_len (cc_meta c)) (make_cols tab off defs).
Proof.
  intros Ht. unfold record_size_of. assert (∀ ds n, foldl (λ n d, n + cd_len d) n ds = n + foldl (λ n d, n + cd_len d) 0 ds) as Hs.
  { induction ds as [|d ds IH]; intros n; cbn [foldl]; [lia|]. rewrite IH, (IH (0 + cd_len d)). lia. }
  assert (∀ ds, Forall (λ d, word (cd_name d) = true ∧ 0 ≤ cd_len d) ds → 0 ≤ foldl (λ n d, n + cd_len d) 0 ds) as Hp.
  { induction 1 as [|d ds [_ Hd] _ IH]; cbn [foldl]; [lia|]. rewrite Hs. lia. }
  induction 1 as [|d defs [Hw Hd] Hds IH]; intros off Ho Hb; [done|]. cbn [foldl] in Hb. rewrite Hs in Hb. pose proof (Hp _ Hds). destruct (IH (off + cd_len d)) as [I1 I2]; [lia..|].
  cbn [make_cols forallb]. rewrite I1. split; [|by constructor]. unfold col_ok. cbn. by rewrite Ht, Hw, !bool_decide_eq_true_2 by lia.
Qed.

Lemma mark_metas n (cs : list CatCol) : cc_meta <$> mark_col n cs = cc_meta <$> cs.
Proof. induction cs as [|c cs IH]; [done|]. cbn [mark_col]. case_decide; [done|]. cbn [fmap list_fmap]. by rewrite IH. Qed.

Lemma marks_metas ns : ∀ cs, cc_meta <$> foldl (λ l n, mark_col n l) cs ns = cc_meta <$> cs.
Proof. induction ns as [|n ns IH]; intros cs; [done|]. cbn [foldl]. by rewrite IH, mark_metas. Qed.

Lemma remark_metas ixs (cs : list CatCol) : cc_meta <$> (remark ixs <$> cs) = cc_meta <$> cs.
Proof. by rewrite <-list_fmap_compose. Qed.

(** Whether columns are well formed depends on their data only. *)
Lemma cols_ok_metas (cs cs' : list CatCol) : cc_meta <$> cs' = cc_meta <$> cs → forallb col_ok cs = true → forallb col_ok cs' = true.
Proof.
  revert cs. induction cs' as [|c' cs' IH]; intros [|c cs] E; try done. cbn [fmap list_fmap] in E. injection E as E1 E2. cbn [forallb]. unfold col_ok at 1 3. rewrite E1.
  intros [-> H]%andb_true_iff. by apply (IH cs).
Qed.

Lemma lens_metas (cs cs' : list CatCol) : cc_meta <$> cs' = cc_meta <$> cs → Forall (λ c, 0 ≤ cm_len (cc_meta c)) cs → Forall (λ c, 0 ≤ cm_len (cc_meta c)) cs'.
Proof.
  intros E H. apply (Forall_fmap cc_meta (λ m, 0 ≤ cm_len m)). rewrite E. by apply Forall_fmap.
Qed.

(** *** CREATE TABLE *)

Lemma new_heap_ok rs : 1 ≤ rs ≤ RM_MAX_RECORD_SIZE → heap_ok (new_heap rs).
Proof.
  intros Hrs. split; cbn; [done| |apply map_Forall_empty]. unfold RM_MAX_RECORD_SIZE in Hrs. apply Z.quot_str_pos. unfold Bitmap.BITMAP_WIDTH, PAGE_SIZE, sizeof_RmFileHdr. lia.
Qed.

Lemma owns_insert m tab t name o : owns (<[tab := t]> m) name o →
  (name = file_of tab ∧ o = (tab, None)) ∨ (∃ k i, ct_indexes t !! k = Some i ∧ name = index_file tab (cc_meta <$> ci_cols i) ∧ o = (tab, Some k)) ∨ (owns m name o ∧ o.1 ≠ tab).
Proof.
  intros [tab' t' Ht|tab' t' k i Ht Hi]; apply lookup_insert_Some in Ht as [[<- <-]|[Hne Ht]].
  - by left.
  - right. right. split; [by econstructor|by cbn].
  - right. left. by exists k, i.
  - right. right. split; [by econstructor|by cbn].
Qed.

Lemma owns_index_inv m tab k name : owns m name (tab, Some k) → ∃ t i, m !! tab = Some t ∧ ct_indexes t !! k = Some i ∧ name = index_file tab (cc_meta <$> ci_cols i).
Proof. inversion 1. by do 2 eexists. Qed.

Lemma owns_kept m tab t name o : owns m name o → o.1 ≠ tab → owns (<[tab := t]> m) name o.
Proof. intros [] Hne; econstructor; try done; by rewrite lookup_insert_ne. Qed.

Lemma create_table_ok tab defs s : word tab = true → Forall (λ d, word (cd_name d) = true ∧ 0 ≤ cd_len d) defs → sm_ok s → sm_ok (create_table tab defs s).2.
Proof.
  intros Hw Hd Hok. unfold create_table, create_heap_file, create_disk_file, mbind, M_bind, get, modify, put, flush_meta. case_decide as Ht; [done|]. case_decide as Hov; [done|]. cbn [mret M_ret]. case_decide as Hrs; [done|]. case_decide as Hf; [done|]. cbn.
  destruct Hok as [O1 O2 O3 O4 O5 O6 Oh O7 O8]. assert (tabs_ (db_ s) !! tab = None) as Hn by by apply eq_None_not_Some. assert (fhs_ s !! tab = None) as Hfn.
  { apply eq_None_not_Some. intros Hs. by apply O5 in Hs. } rewrite Hfn.
  assert (1 ≤ record_size_of defs ≤ RM_MAX_RECORD_SIZE) as Hsz by lia. unfold RM_MAX_RECORD_SIZE in Hsz. destruct (make_cols_ok tab defs Hw Hd 0) as [C1 C2]; [lia..|].
  split; cbn; try done.
  - destruct O1 as [D1 D2]. split; [done|]. cbn. apply map_Forall_insert_2; [|done]. split; [done|]. unfold tab_ok. cbn. by rewrite Hw, C1.
  - by apply map_Forall_insert_2.
  - intros tab' t' [[<- <-]|[Hne Ht']]%lookup_insert_Some; [rewrite lookup_insert_eq; eexists; split; [done|]; apply new_heap_ok; unfold RM_MAX_RECORD_SIZE; lia|].
    rewrite lookup_insert_ne by done. by eapply O4.
  - intros tab'. destruct (decide (tab = tab')) as [<-|Hne]; [rewrite !lookup_insert_eq; by eexists|]. rewrite !lookup_insert_ne by done. apply O5.
  - intros tab' t' i tb [[<- <-]|[Hne Ht']]%lookup_insert_Some Hi; [by apply elem_of_nil in Hi|]. rewrite lookup_insert_ne by done. by eapply O6.
  - intros name (tab' & k & Ho)%Oh. exists tab', k. apply owns_kept; [done|]. intros E. cbn in E. subst. inversion Ho. congruence.
  - intros name o [[-> ->]|[(k & i & Hi & _)|[Ho _]]]%owns_insert; [set_solver|done|]. apply elem_of_union_r. by eapply O7.
  - intros name o o' [[-> ->]|[(k & i & Hi & _)|[Ho _]]]%owns_insert [[E ->]|[(k' & i' & Hi' & _)|[Ho' _]]]%owns_insert; try done.
    + by apply O7 in Ho'.
    + subst name. by apply O7 in Ho.
    + by eapply O8.
Qed.

(** *** DROP TABLE *)

Definition removed (names : list string) (s s' : SmManager) : Prop :=
  db_ s' = db_ s ∧ fhs_ s' = fhs_ s ∧ meta_file_ s' = meta_file_ s ∧ (∀ n, n ∉ names → ihs_ s' !! n = ihs_ s !! n ∧ (n ∈ files_ s → n ∈ files_ s')) ∧ (∀ n, n ∈ names → ihs_ s' !! n = None).

Lemma remove_index_ok name s : name ∈ files_ s → ∃ s', remove_index name s = (Ok tt, s') ∧ removed [name] s s'.
Proof.
  intros Hf. unfold remove_index, destroy_disk_file, mbind, M_bind, modify, get, put. cbn. rewrite decide_True by done. eexists. split; [done|]. split_and!; [done..| |]; cbn.
  - intros n Hn. assert (n ≠ name) by set_solver. split; [by rewrite lookup_delete_ne|set_solver].
  - intros n ->%list_elem_of_singleton. apply lookup_delete_eq.
Qed.

Lemma remove_indexes_ok (name_of : CatIndex → string) ixs : ∀ s, NoDup (name_of <$> ixs) → (∀ i, i ∈ ixs → name_of i ∈ files_ s) →
  ∃ s', mfor (λ i, remove_index (name_of i)) ixs s = (Ok tt, s') ∧ removed (name_of <$> ixs) s s'.
Proof.
  induction ixs as [|i ixs IH]; intros s Hnd Hin; [exists s; split; [done|]; split_and!; try done; by intros n ?%elem_of_nil|]. cbn [fmap list_fmap] in Hnd. apply NoDup_cons in Hnd as [Hn Hnd].
  destruct (remove_index_ok (name_of i) s (Hin i ltac:(by left))) as (s1 & H1 & R1 & R2 & R3 & R4 & R5). destruct (IH s1 Hnd) as (s2 & H2 & Q1 & Q2 & Q3 & Q4 & Q5).
  { intros j Hj. apply R4; [|by apply Hin; right]. intros E%list_elem_of_singleton. apply Hn. rewrite <-E. by apply list_elem_of_fmap_2. }
  exists s2. cbn [mfor]. unfold mbind, M_bind. rewrite H1. split; [done|]. split_and!; [congruence..| |]; cbn [fmap list_fmap].
  - intros n Hni. apply not_elem_of_cons in Hni as [Hne Hni]. destruct (Q4 n Hni) as [E1 E2]. destruct (R4 n ltac:(set_solver)) as [F1 F2]. split; [congruence|auto].
  - intros n [->|Hin']%elem_of_cons; [|by apply Q5]. rewrite (proj1 (Q4 _ Hn)). apply R5. by left.
Qed.

Lemma owns_delete m tab name o : owns (delete tab m) name o → owns m name o ∧ o.1 ≠ tab.
Proof. intros [tab' t' Ht|tab' t' k i Ht Hi]; apply lookup_delete_Some in Ht as [Hne Ht]; (split; [by econstructor|by cbn]). Qed.

Lemma drop_table_runs tab t s : sm_ok s → tabs_ (db_ s) !! tab = Some t → ∃ s', drop_table tab s = (Ok tt, s') ∧ db_ s' = mk_DbMeta (name_ (db_ s)) (delete tab (tabs_ (db_ s))) ∧ sm_ok s'.
Proof.
  intros Hok Et. unfold drop_table, get_tab, mbind at 1, M_bind at 1. unfold mbind at 1, M_bind at 1, get. rewrite Et. cbn [mret M_ret].
  unfold destroy_disk_file, mbind, M_bind, modify, get, put. cbn [files_ set_fhs]. pose proof Hok as [O1 O2 O3 O4 O5 O6 Oh O7 O8]. rewrite decide_True by (apply (O7 _ (tab, None)); by econstructor). cbn [db_ fhs_ set_fhs set_files].
  set (s1 := set_files _ _). set (name_of := λ i, index_file tab (cc_meta <$> ci_cols i)).
  assert (∀ k i, ct_indexes t !! k = Some i → owns (tabs_ (db_ s)) (name_of i) (tab, Some k)) as Hown by (intros k i Hi; by econstructor).
  assert (owns (tabs_ (db_ s)) (file_of tab) (tab, None)) as Hownt by by econstructor.
  destruct (remove_indexes_ok name_of (ct_indexes t) s1) as (s2 & Hrun & R1 & R2 & R3 & R4 & R5).
  { apply NoDup_alt. intros k k' n Hk Hk'. rewrite list_lookup_fmap in Hk, Hk'. apply fmap_Some in Hk as (i & Hi & ->). apply fmap_Some in Hk' as (i' & Hi' & E). pose proof (Hown k i Hi) as H1. rewrite E in H1.
    specialize (O8 _ _ _ H1 (Hown k' i' Hi')). by injection O8. }
  { intros i Hi. apply list_elem_of_lookup in Hi as [k Hi]. cbn. apply elem_of_difference. split; [by eapply O7, Hown|]. intros E%elem_of_singleton. pose proof (Hown k i Hi) as H1. rewrite E in H1. by specialize (O8 _ _ _ H1 Hownt). }
  unfold name_of in Hrun at 1. rewrite Hrun. unfold flush_meta, modify. eexists. split; [reflexivity|]. cbn. rewrite R1. cbn. split; [done|].
  assert (∀ n o, owns (tabs_ (db_ s)) n o → o.1 ≠ tab → n ≠ file_of tab ∧ n ∉ name_of <$> ct_indexes t) as Hother.
  { intros n o Ho Hne. split; [intros ->; specialize (O8 _ _ _ Ho Hownt); by subst|]. intros Hin. apply list_elem_of_fmap in Hin as (i & -> & [k Hi]%list_elem_of_lookup). specialize (O8 _ _ _ Ho (Hown k i Hi)). by subst. }
  split; cbn; try done.
  - destruct O1 as [D1 D2]. split; [done|]. cbn. by apply map_Forall_delete.
  - by apply map_Forall_delete.
  - rewrite R2. cbn. intros tab' t' [Hne Ht']%lookup_delete_Some. rewrite lookup_delete_ne by done. by eapply O4.
  - rewrite R2. cbn. intros tab'. destruct (decide (tab = tab')) as [<-|Hne]; [rewrite lookup_delete_eq; by intros []|]. rewrite !lookup_delete_ne by done. apply O5.
  - rewrite R2. cbn. intros tab' t' i tb [Hne Ht']%lookup_delete_Some Hi. rewrite lookup_delete_ne by done. intros Htb. destruct (O6 tab' t' i tb Ht' Hi Htb) as (ix & Hix & Hrest). exists ix. split; [|done].
    apply list_elem_of_lookup in Hi as [k Hi]. destruct (Hother (index_file tab' (cc_meta <$> ci_cols i)) (tab', Some k)) as [_ Hni]; [by econstructor|done|]. by rewrite (proj1 (R4 _ Hni)).
  - intros n Hs. destruct (decide (n ∈ name_of <$> ct_indexes t)) as [Hin|Hin]; [rewrite (R5 n Hin) in Hs; by destruct Hs|]. rewrite (proj1 (R4 n Hin)) in Hs. destruct (Oh n Hs) as (tab' & k & Ho). exists tab', k.
    apply owns_index_inv in Ho as (t' & i & Ht' & Hi & ->). econstructor; [|done]. rewrite lookup_delete_ne; [done|]. intros <-. apply Hin. assert (t' = t) as -> by congruence. apply list_elem_of_fmap. exists i. split; [done|]. by eapply list_elem_of_lookup_2.
  - intros n o [Ho Hne]%owns_delete. destruct (Hother n o Ho Hne) as [H1 H2]. apply (R4 n H2). cbn. apply elem_of_difference. split; [by eapply O7|set_solver].
  - intros n o o' [Ho _]%owns_delete [Ho' _]%owns_delete. by eapply O8.
Qed.

Lemma drop_table_ok tab s : sm_ok s → sm_ok (drop_table tab s).2.
Proof.
  intros Hok. destruct (tabs_ (db_ s) !! tab) as [t|] eqn:Et; [by destruct (drop_table_runs tab t s Hok Et) as (s' & -> & _ & ?)|].
  unfold drop_table, get_tab, mbind, M_bind, get. by rewrite Et.
Qed.

(** *** CREATE INDEX *)

Lemma extra_file name s : sm_ok s → sm_ok (set_files ({[name]} ∪ files_ s) s).
Proof. intros [O1 O2 O3 O4 O5 O6 Oh O7 O8]. split; try done. intros n o Ho. cbn. apply elem_of_union_r. by eapply O7. Qed.

(** A table without indexes can get another heap file. *)
Lemma other_heap tab t tb s : sm_ok s → tabs_ (db_ s) !! tab = Some t → heap_ok tb → ct_indexes t = [] ∨ fhs_ s !! tab = Some tb → sm_ok (set_fhs (<[tab := tb]> (fhs_ s)) s).
Proof.
  intros [O1 O2 O3 O4 O5 O6 Oh O7 O8] Ht Htb Hix. split; cbn; try done.
  - intros tab' t' Ht'. destruct (decide (tab = tab')) as [<-|Hne]; [rewrite lookup_insert_eq; by exists tb|]. rewrite lookup_insert_ne by done. by eapply O4.
  - intros tab'. destruct (decide (tab = tab')) as [<-|Hne]; [by eexists|]. rewrite lookup_insert_ne by done. apply O5.
  - intros tab' t' i tb' Ht' Hi [[<- <-]|[Hne Hf]]%lookup_insert_Some; [|by eapply O6]. assert (t' = t) as -> by congruence. destruct Hix as [E|Hf]; [rewrite E in Hi; by apply elem_of_nil in Hi|by eapply O6].
Qed.

Definition add_index (tab : bytes) (t' : CatTab) (name : string) (ix : OpenIndex) (s : SmManager) : SmManager :=
  (flush_meta (set_ihs (<[name := ix]> (ihs_ s)) (set_tabs (<[tab := t']> (tabs_ (db_ s))) s))).2.

(** A table gets an index with a file that nothing else owns. *)
Lemma add_index_ok tab t i cols es tb s : let metas := cc_meta <$> ci_cols i in let name := index_file tab metas in
  sm_ok s → tabs_ (db_ s) !! tab = Some t → fhs_ s !! tab = Some tb → name ∈ files_ s → (∀ o, ¬ owns (tabs_ (db_ s)) name o) →
  index_ok i = true → cc_meta <$> cols = cc_meta <$> ct_cols t → entries_of metas (map_to_list (Recovery.t_records tb)) es →
  sm_ok (add_index tab (mk_CatTab (ct_name t) cols (ct_indexes t ++ [i])) name (mk_OpenIndex metas es) s).
Proof.
  intros metas name [O1 O2 O3 O4 O5 O6 Oh O7 O8] Ht Hf Hin Hno Hi Hm He. destruct O1 as [D1 D2]. destruct (D2 tab t Ht) as [T1 T2]. unfold tab_ok in T2. rewrite !andb_true_iff in T2. destruct T2 as [[T2 T3] T4].
  set (t' := mk_CatTab _ _ _). assert (∀ n o, owns (<[tab := t']> (tabs_ (db_ s))) n o → owns (tabs_ (db_ s)) n o ∨ (n = name ∧ o = (tab, Some (length (ct_indexes t))))) as Hown.
  { intros n o [[-> ->]|[(k & i' & Hk & -> & ->)|[Ho _]]]%owns_insert; [left; by econstructor| |by left]. apply lookup_snoc_Some in Hk as [[_ Hk]|[-> ->]]; [left; by econstructor|by right]. }
  unfold add_index. split; cbn; try done.
  - split; [done|]. cbn. apply map_Forall_insert_2; [|done]. split; [done|]. unfold tab_ok. cbn. rewrite T2, (cols_ok_metas _ _ Hm T3), forallb_app, T4. cbn. by rewrite Hi.
  - apply map_Forall_insert_2; [|done]. cbn. eapply lens_metas; [done|]. by apply (O3 tab).
  - intros tab' t'' [[<- <-]|[Hne Ht']]%lookup_insert_Some; by eapply O4.
  - intros tab' Hs. destruct (decide (tab = tab')) as [<-|Hne]; [by rewrite lookup_insert_eq|]. rewrite lookup_insert_ne by done. by apply O5.
  - intros tab' t'' j tb' Ht' Hj Hf'. assert (∀ t0, tabs_ (db_ s) !! tab' = Some t0 → j ∈ ct_indexes t0 → index_file tab' (cc_meta <$> ci_cols j) ≠ name) as Hne.
    { intros t0 H1 [k Hk]%list_elem_of_lookup E. apply (Hno (tab', Some k)). rewrite <-E. by econstructor. }
    apply lookup_insert_Some in Ht' as [[<- <-]|[_ Ht']].
    + cbn in Hj. apply elem_of_app in Hj as [Hj|Hj%list_elem_of_singleton].
      * rewrite lookup_insert_ne by (symmetry; by eapply Hne). by eapply O6.
      * subst j. fold metas name. rewrite lookup_insert_eq. eexists. split; [done|]. split; [done|]. by assert (tb' = tb) as -> by congruence.
    + rewrite lookup_insert_ne by (symmetry; by eapply Hne). by eapply O6.
  - intros n [<-|[Hne Hs]]%lookup_insert_is_Some.
    + exists tab, (length (ct_indexes t)). eapply owns_index; [by rewrite lookup_insert_eq|]. cbn. by rewrite lookup_app_r, Nat.sub_diag by done.
    + destruct (Oh n Hs) as (tab' & k & Ho). exists tab', k. destruct (decide (tab' = tab)) as [->|Hne']; [|by apply owns_kept]. apply owns_index_inv in Ho as (t0 & j & Ht0 & Hj & ->). assert (t0 = t) as -> by congruence.
      eapply owns_index; [by rewrite lookup_insert_eq|]. cbn. by apply lookup_app_l_Some.
  - intros n o [Ho|[-> _]]%Hown; [by eapply O7|done].
  - intros n o o' [Ho|[-> ->]]%Hown [Ho'|[E ->]]%Hown; try done; [by eapply O8|subst; by apply Hno in Ho|by apply Hno in Ho'].
Qed.

Lemma cols_found t names cs : mapM (get_cat_col t) names = Ok cs → length cs = length names ∧ Forall (λ c, c ∈ ct_cols t) cs.
Proof.
  rewrite mapM_ok. intros H. split; [symmetry; by eapply Forall2_length|]. induction H as [|n c names cs Hc _ IH]; constructor; [|done].
  unfold get_cat_col in Hc. apply require_ok, fmap_Some in Hc as ([k c'] & Hf & ->). apply list_find_Some in Hf as [Hf _]. by eapply list_elem_of_lookup_2.
Qed.

Lemma new_index_ok tab t cs : word tab = true → forallb col_ok (ct_cols t) = true → Forall (λ c, 0 ≤ cm_len (cc_meta c)) (ct_cols t) → Forall (λ c, c ∈ ct_cols t) cs →
  let len := foldl Z.add 0 (cm_len <$> (cc_meta <$> cs)) in len ≤ Ix.IX_MAX_COL_LEN → index_ok (mk_CatIndex tab len (Z.of_nat (length cs)) cs) = true.
Proof.
  intros Hw Hc Hl Hin len Hmax. unfold Ix.IX_MAX_COL_LEN in Hmax. rewrite List.forallb_forall in Hc. rewrite Forall_forall in Hl, Hin.
  assert (∀ l a, (∀ c, c ∈ l → 0 ≤ cm_len (cc_meta c)) → a ≤ foldl Z.add a (cm_len <$> (cc_meta <$> l))) as Hs.
  { induction l as [|c l IH]; intros a Hl'; [done|]. cbn [fmap list_fmap foldl]. etrans; [|apply IH; intros c' Hc'; apply Hl'; by right]. specialize (Hl' c ltac:(by left)). lia. }
  specialize (Hs cs 0 (λ c Hc, Hl c (Hin c Hc))). fold len in Hs. unfold index_ok. cbn. rewrite Hw, !bool_decide_eq_true_2 by (done || lia). apply List.forallb_forall. intros c Hc'. apply Hc, list_elem_of_In, Hin. by apply list_elem_of_In.
Qed.

(** The ranks of the keys of records. *)
Abbreviation ranks metas l := ((λ r, IxKeys.key_rank (ScanBounds.col_pair <$> metas) (ScanBounds.key_of r metas)) <$> l).

Section create.
Context (free_slot : Recovery.Table → Rid) `{Hfree : !Dml.FreeSlots free_slot}.

Definition build (t : CatTab) (metas : list ColMeta) : M Recovery.Table (gmap Z IxTree.entry) :=
  match ct_indexes t with [] => build_clustered free_slot metas | _ => build_entries metas end.

Lemma build_built t metas tb : heap_ok tb → ∃ r tb', build t metas tb = (r, tb') ∧ built metas tb tb' r ∧ (ct_indexes t = [] ∨ tb' = tb) ∧
  (∀ e, r = Err e → e = RMDBError ∧ (Forall (valid_record metas) (values tb) → ¬ NoDup (ranks metas (values tb)))).
Proof.
  intros Htb. unfold build. destruct (ct_indexes t).
  - destruct (build_clustered_built metas free_slot tb Htb) as (r & tb' & Hrun & Hb & He). exists r, tb'. split_and!; [done|done|by left|]. intros e ->. destruct (He e eq_refl) as [-> Hor]. split; [done|]. intros Hv.
    destruct Hor as [Hd|Hn]; [|done]. assert (stable_sort (record_less_by_index metas) (scan_records tb).*2 ≡ₚ values tb) as Hs by by rewrite stable_sort_perm, scan_values_perm.
    apply duplicate_ranks in Hd; [by rewrite Hs in Hd|by rewrite Hs].
  - destruct (build_entries_built metas tb Htb) as (r & Hrun & Hb & He). exists r, tb. split_and!; [done|done|by right|]. intros e ->. destruct (He e eq_refl) as [-> Hn]. by split.
Qed.

(** CREATE INDEX when its columns exist and it has no file. *)
Lemma create_index_runs tab names t cs tb s : let metas := cc_meta <$> cs in let name := index_file tab metas in let len := foldl Z.add 0 (cm_len <$> metas) in
  tabs_ (db_ s) !! tab = Some t → has_index t names = false → mapM (get_cat_col t) names = Ok cs → name ∉ files_ s → len ≤ Ix.IX_MAX_COL_LEN → fhs_ s !! tab = Some tb →
  create_index free_slot tab names s =
    let '(r, tb') := build t metas tb in
    let s' := set_fhs (<[tab := tb']> (fhs_ s)) s in
    match r with
    | Ok es => (Ok tt, add_index tab (mk_CatTab (ct_name t) (foldl (λ l n, mark_col n l) (ct_cols t) names) (ct_indexes t ++ [mk_CatIndex tab len (Z.of_nat (length cs)) cs])) name (mk_OpenIndex metas es) (set_files ({[name]} ∪ files_ s) s'))
    | Err e => (Err e, s')
    end.
Proof.
  intros metas name len Ht Hh Hm Hn Hl Hf. unfold create_index, get_tab, create_index_file, create_disk_file, on_fh, try_catch, destroy_disk_file, mbind, M_bind, get, modify, put, lift. rewrite Ht. cbn [mret M_ret].
  rewrite Hh, Hm. fold metas name len. rewrite decide_False by done. rewrite decide_False by lia. cbn [fhs_ set_files mret M_ret]. rewrite Hf. fold (build t metas).
  destruct (build t metas tb) as [[es|e] tb']; [done|]. cbn. rewrite decide_True by set_solver. unfold set_fhs, set_files. cbn. repeat f_equal. set_solver.
Qed.

(** Columns that are too long together: the file is there when they are found out. *)
Lemma create_index_too_long tab names t cs s : let metas := cc_meta <$> cs in let name := index_file tab metas in let len := foldl Z.add 0 (cm_len <$> metas) in
  tabs_ (db_ s) !! tab = Some t → has_index t names = false → mapM (get_cat_col t) names = Ok cs → name ∉ files_ s → Ix.IX_MAX_COL_LEN < len →
  create_index free_slot tab names s = (Err (InvalidColLengthError len), set_files ({[name]} ∪ files_ s) s).
Proof.
  intros metas name len Ht Hh Hm Hn Hl. unfold create_index, get_tab, create_index_file, create_disk_file, mbind, M_bind, get, put, lift. rewrite Ht. cbn [mret M_ret].
  rewrite Hh, Hm. fold metas name len. rewrite decide_False by done. by rewrite decide_True.
Qed.

Lemma create_index_ok tab names s : sm_ok s → sm_ok (create_index free_slot tab names s).2.
Proof.
  intros Hok. destruct (tabs_ (db_ s) !! tab) as [t|] eqn:Ht; [|unfold create_index, get_tab, mbind, M_bind, get; by rewrite Ht].
  destruct (has_index t names) eqn:Hh; [unfold create_index, get_tab, mbind, M_bind, get; rewrite Ht; cbn; by rewrite Hh|].
  destruct (mapM (get_cat_col t) names) as [cs|e] eqn:Hm; [|unfold create_index, get_tab, mbind, M_bind, get, lift; rewrite Ht; cbn; by rewrite Hh, Hm].
  set (metas := cc_meta <$> cs). set (name := index_file tab metas). set (len := foldl Z.add 0 (cm_len <$> metas)).
  destruct (decide (name ∈ files_ s)) as [Hin|Hn].
  { unfold create_index, get_tab, create_index_file, create_disk_file, mbind, M_bind, get, lift. rewrite Ht. cbn. rewrite Hh, Hm. fold metas name. by rewrite decide_True. }
  destruct (decide (len ≤ Ix.IX_MAX_COL_LEN)) as [Hl|Hl].
  2:{ unfold create_index, get_tab, create_index_file, create_disk_file, mbind, M_bind, get, lift, put. rewrite Ht. cbn. rewrite Hh, Hm. fold metas name len. rewrite decide_False, decide_True by (done || lia). by apply extra_file. }
  destruct (so_table s Hok tab t Ht) as (tb & Hf & Htb). rewrite (create_index_runs tab names t cs tb) by done. fold metas name len.
  destruct (build_built t metas tb Htb) as (r & tb' & -> & [B1 B2 B3] & Hor & _). assert (sm_ok (set_fhs (<[tab := tb']> (fhs_ s)) s)) as Hok'.
  { apply (other_heap tab t); [done|done|done|]. destruct Hor as [E| ->]; [by left|by right]. }
  destruct r as [es|e]; [|done]. cbn [snd]. set (i := mk_CatIndex _ _ _ _). destruct (cols_found t names cs Hm) as [_ Hin].
  apply (add_index_ok tab t i _ es tb'); cbn; try done.
  - by apply (extra_file name) in Hok'.
  - by rewrite lookup_insert_eq.
  - set_solver.
  - intros o Ho. apply Hn. by eapply (so_files s Hok).
  - destruct (so_db s Hok) as [_ D]. destruct (D tab t Ht) as [T1 T2]. unfold tab_ok in T2. rewrite !andb_true_iff in T2. destruct T2 as [[T2 T3] _]. apply (new_index_ok tab t cs); try done; [by rewrite <-T1|by apply (so_lens s Hok tab)].
  - apply marks_metas.
  - by apply B3.
Qed.
End create.

(** *** DROP INDEX *)

Lemma drop_index_ok tab names s : sm_ok s → sm_ok (drop_index tab names s).2.
Proof.
  intros Hok. unfold drop_index, get_tab, mbind at 1, M_bind at 1. unfold mbind at 1, M_bind at 1, get. destruct (tabs_ (db_ s) !! tab) as [t|] eqn:Ht; [|done]. cbn [mret M_ret].
  unfold mbind at 1, M_bind at 1, lift, require. destruct (list_find _ (ct_indexes t)) as [[k i]|] eqn:Hk; [|done]. apply list_find_Some in Hk as (Hk & _ & _). set (name := index_file tab (cc_meta <$> ci_cols i)).
  pose proof Hok as [O1 O2 O3 O4 O5 O6 Oh O7 O8]. assert (owns (tabs_ (db_ s)) name (tab, Some k)) as Hown by by econstructor.
  unfold mbind at 1, M_bind at 1. destruct (remove_index_ok name s (O7 _ _ Hown)) as (s1 & -> & R1 & R2 & R3 & R4 & R5). cbn. set (t' := mk_CatTab _ _ _). destruct O1 as [D1 D2]. destruct (D2 tab t Ht) as [T1 T2].
  unfold tab_ok in T2. rewrite !andb_true_iff in T2. destruct T2 as [[T2 T3] T4].
  assert (∀ n o, owns (<[tab := t']> (tabs_ (db_ s))) n o → n ≠ name ∧ ∃ o', owns (tabs_ (db_ s)) n o' ∧ (o'.1 = o.1) ∧ (o.1 ≠ tab → o' = o) ∧ (o.1 = tab → o'.2 = (j ← o.2; Some (if decide (j < k)%nat then j else S j)))) as Hold.
  { intros n o Ho. assert (∃ o', owns (tabs_ (db_ s)) n o' ∧ (o'.1 = o.1) ∧ (o.1 ≠ tab → o' = o) ∧ (o.1 = tab → o'.2 = (j ← o.2; Some (if decide (j < k)%nat then j else S j))) ∧ o' ≠ (tab, Some k)) as (o' & Ho' & E1 & E2 & E3 & Hne).
    - apply owns_insert in Ho as [[-> ->]|[(j & i' & Hj & -> & ->)|[Ho Hne]]].
      + exists (tab, None). split_and!; try done. by econstructor.
      + exists (tab, Some (if decide (j < k)%nat then j else S j)). cbn in Hj. split_and!; try done; [|case_decide; intros [= E]; lia]. econstructor; [done|]. case_decide.
        * by rewrite list_lookup_delete_lt in Hj.
        * by rewrite list_lookup_delete_ge in Hj by lia.
      + exists o. split_and!; try done. intros ->. by apply Hne.
    - split; [|by exists o']. intros ->. apply Hne. by eapply O8. }
  unfold flush_meta, modify, mbind, M_bind. cbn. rewrite R1. split; cbn; try done.
  - split; [done|]. cbn. apply map_Forall_insert_2; [|done]. split; [done|]. unfold tab_ok. cbn. rewrite T2, (cols_ok_metas (ct_cols t) _ (remark_metas _ _) T3). cbn.
    apply List.forallb_forall. intros j Hj. rewrite List.forallb_forall in T4. apply T4. apply list_elem_of_In in Hj. apply list_elem_of_In. by eapply list_elem_of_delete_inv.
  - apply map_Forall_insert_2; [|done]. cbn. eapply lens_metas; [apply remark_metas|]. by apply (O3 tab).
  - intros tab' t'' [[<- <-]|[Hne Ht']]%lookup_insert_Some; rewrite R2; by eapply O4.
  - intros tab'. rewrite R2. destruct (decide (tab = tab')) as [<-|Hne]; [by rewrite lookup_insert_eq|]. rewrite lookup_insert_ne by done. apply O5.
  - rewrite R2. intros tab' t'' j tb' Ht' Hj Hf'. pose proof Hj as [x Hx]%list_elem_of_lookup. destruct (Hold (index_file tab' (cc_meta <$> ci_cols j)) (tab', Some x)) as [Hne _]; [by econstructor|].
    destruct (R4 (index_file tab' (cc_meta <$> ci_cols j)) ltac:(set_solver)) as [-> _]. apply lookup_insert_Some in Ht' as [[<- <-]|[_ Ht']]; [|by eapply O6]. cbn in Hj. eapply O6; [done| |done]. by eapply list_elem_of_delete_inv.
  - intros n Hs. destruct (decide (n = name)) as [->|Hne]; [rewrite R5 in Hs by (by left); by destruct Hs|]. rewrite (proj1 (R4 n ltac:(set_solver))) in Hs. destruct (Oh n Hs) as (tab' & j & Ho).
    destruct (decide (tab' = tab)) as [->|Hne']; [|exists tab', j; by apply owns_kept]. apply owns_index_inv in Ho as (t0 & i' & Ht0 & Hi' & ->). assert (t0 = t) as -> by congruence.
    exists tab, (if decide (j < k)%nat then j else pred j). eapply owns_index; [by rewrite lookup_insert_eq|]. cbn. rewrite list_lookup_delete. assert (j ≠ k) by (intros ->; apply Hne; unfold name; congruence). rewrite <-Hi'. f_equal. repeat case_decide; lia.
  - intros n o Ho. destruct (Hold n o Ho) as (Hne & o' & Ho' & _). apply R4; [set_solver|]. by eapply O7.
  - intros n o o' Ho Ho'. destruct (Hold n o Ho) as (_ & p & P0 & P1 & P2 & P3), (Hold n o' Ho') as (_ & q & Q0 & Q1 & Q2 & Q3). assert (p = q) as <- by by eapply O8.
    destruct (decide (o.1 = tab)) as [E|E].
    + destruct o as [a b], o' as [a' b']. cbn in *. assert (a' = a) as -> by congruence. f_equal. specialize (P3 E). specialize (Q3 E). rewrite P3 in Q3. destruct b, b'; try done. cbn in Q3. injection Q3 as Q3. f_equal. repeat case_decide; lia.
    + rewrite <-P2 by done. apply Q2. congruence.
Qed.

(** *** Statements *)

(** Names without white space and lengths that are not negative, as the parser gives them. *)
Definition ddl_ok (d : Ddl) : Prop :=
  match d with CreateTable tab defs => word tab = true ∧ Forall (λ c, word (cd_name c) = true ∧ 0 ≤ cd_len c) defs | _ => True end.

Lemma run_ddl_ok free_slot `{!Dml.FreeSlots free_slot} d s : ddl_ok d → sm_ok s → sm_ok (run_ddl free_slot d s).2.
Proof. destruct d; cbn; intros Hd Hs; [destruct Hd; by apply create_table_ok|by apply drop_table_ok|by apply create_index_ok|by apply drop_index_ok]. Qed.

Lemma run_ddls_ok free_slot `{!Dml.FreeSlots free_slot} l : ∀ s, Forall ddl_ok l → sm_ok s → sm_ok (run_ddls free_slot l s).
Proof. induction l as [|d l IH]; intros s Hl Hs; [done|]. apply Forall_cons in Hl as [Hd Hl]. apply (IH _ Hl). by apply run_ddl_ok. Qed.

Definition new_db (name : bytes) : SmManager := mk_SmManager (mk_DbMeta name ∅) ∅ ∅ {["db.meta"%string; "db.log"%string]} (write_db (mk_DbMeta name ∅)).

Lemma new_db_ok name : word name = true → sm_ok (new_db name).
Proof.
  intros Hw. assert (∀ n o, ¬ owns ∅ n o) as Hno by by inversion 1. split; cbn; try done.
  - intros tab [x Hx]. by rewrite lookup_empty in Hx.
  - intros n [x Hx]. by rewrite lookup_empty in Hx.
  - by intros n o Ho%Hno.
  - by intros n o o' Ho%Hno.
Qed.

(** ** Restart *)

#[export] Instance file_of_inj : Inj eq eq file_of.
Proof. intros a b E. unfold file_of in E. by rewrite <-(String.list_byte_of_string_of_list_byte a), E, String.list_byte_of_string_of_list_byte. Qed.

(** What has been opened so far agrees with what was open. *)
Definition agrees (s : SmManager) (fhs : gmap bytes Recovery.Table) (ihs : gmap string OpenIndex) : Prop := fhs ⊆ fhs_ s ∧ ihs ⊆ ihs_ s.

Lemma open_indexes_ok s tab ixs : ∀ ihs, ihs ⊆ ihs_ s → (∀ i, i ∈ ixs → ∃ ix, ihs_ s !! index_file tab (cc_meta <$> ci_cols i) = Some ix ∧ oi_cols ix = cc_meta <$> ci_cols i) →
  ∃ ihs', open_indexes (close_db s) tab ixs ihs = Ok ihs' ∧ ihs ⊆ ihs' ∧ ihs' ⊆ ihs_ s ∧ (∀ i, i ∈ ixs → is_Some (ihs' !! index_file tab (cc_meta <$> ci_cols i))).
Proof.
  induction ixs as [|i ixs IH]; intros ihs Hsub Hix; [exists ihs; split_and!; try done; by intros i ?%elem_of_nil|]. destruct (Hix i ltac:(by left)) as ([cs es] & Hi & E). cbn in E. subst cs. set (metas := cc_meta <$> ci_cols i) in *.
  cbn [open_indexes close_db st_trees]. fold metas. rewrite lookup_fmap, Hi. cbn. destruct (IH (<[index_file tab metas := mk_OpenIndex metas es]> ihs)) as (ihs' & Hrun & H1 & H2 & H3).
  { by apply insert_subseteq_l. } { intros j Hj. apply Hix. by right. }
  assert (ihs' !! index_file tab metas = Some (mk_OpenIndex metas es)) as Hnew by (eapply lookup_weaken; [|exact H1]; apply lookup_insert_eq).
  exists ihs'. split_and!; [done| |done|].
  - apply map_subseteq_spec. intros n x Hx. destruct (decide (n = index_file tab metas)) as [->|Hne].
    + rewrite Hnew. pose proof (lookup_weaken _ _ _ _ Hx Hsub). congruence.
    + eapply lookup_weaken; [|exact H1]. by rewrite lookup_insert_ne.
  - intros j [->|Hj]%elem_of_cons; [by eexists|by apply H3].
Qed.

Lemma open_tables_ok s ts : sm_ok s → (∀ t, t ∈ ts → tabs_ (db_ s) !! ct_name t = Some t) → ∀ fhs ihs, agrees s fhs ihs →
  ∃ fhs' ihs', open_tables (close_db s) ts fhs ihs = Ok (fhs', ihs') ∧ agrees s fhs' ihs' ∧ fhs ⊆ fhs' ∧ ihs ⊆ ihs' ∧
    (∀ t, t ∈ ts → is_Some (fhs' !! ct_name t) ∧ ∀ i, i ∈ ct_indexes t → is_Some (ihs' !! index_file (ct_name t) (cc_meta <$> ci_cols i))).
Proof.
  intros Hok. induction ts as [|t ts IH]; intros Hts fhs ihs [A1 A2]; [exists fhs, ihs; split_and!; try done; by intros t ?%elem_of_nil|].
  pose proof (Hts t ltac:(by left)) as Ht. destruct (so_table s Hok _ _ Ht) as (tb & Htb & _). cbn [open_tables close_db st_heaps]. rewrite (lookup_kmap file_of), Htb. cbn.
  destruct (open_indexes_ok s (ct_name t) (ct_indexes t) ihs A2) as (ihs1 & -> & I1 & I2 & I3).
  { intros i Hi. destruct (so_index s Hok _ _ _ _ Ht Hi Htb) as (ix & Hix & Hc & _). by exists ix. }
  cbn. destruct (IH ltac:(intros t' Ht'; apply Hts; by right) (<[ct_name t := tb]> fhs) ihs1) as (fhs2 & ihs2 & Hrun & [B1 B2] & F1 & F2 & Hall).
  { split; [by apply insert_subseteq_l|done]. }
  exists fhs2, ihs2. split_and!; try done.
  - apply map_subseteq_spec. intros n x Hx. destruct (decide (n = ct_name t)) as [->|Hne].
    + pose proof (lookup_weaken _ _ _ _ Hx A1). assert (x = tb) as -> by congruence. eapply lookup_weaken; [|exact F1]. apply lookup_insert_eq.
    + eapply lookup_weaken; [|exact F1]. by rewrite lookup_insert_ne.
  - by trans ihs1.
  - intros t' [->|Ht']%elem_of_cons; [|by apply Hall]. split; [exists tb; eapply lookup_weaken; [|exact F1]; apply lookup_insert_eq|]. intros i Hi. destruct (I3 i Hi) as [ix Hix]. exists ix. by eapply lookup_weaken.
Qed.

Lemma subseteq_dom_eq {A} `{Countable K} (m n : gmap K A) : m ⊆ n → (∀ k, is_Some (n !! k) → is_Some (m !! k)) → m = n.
Proof.
  intros Hs Hd. apply map_eq. intros k. destruct (n !! k) as [x|] eqn:E.
  - destruct (Hd k ltac:(by eexists)) as [y Hy]. pose proof (lookup_weaken _ _ _ _ Hy Hs). congruence.
  - destruct (m !! k) as [y|] eqn:E'; [|done]. pose proof (lookup_weaken _ _ _ _ E' Hs). congruence.
Qed.

Lemma counts_delete d tab : counts_ok d → counts_ok (mk_DbMeta (name_ d) (delete tab (tabs_ d))).
Proof. intros [H1 H2]. split; cbn; [by apply map_Forall_delete|]. etrans; [|exact H2]. apply Nat2Z.inj_le. rewrite map_size_delete. case_match; cbn; [apply Nat.le_pred_l|done]. Qed.

(** Closing a database and opening it again changes nothing. *)
Lemma reopen_ok s : sm_ok s → counts_ok (db_ s) → open_db (close_db s) = Ok s.
Proof.
  intros Hok Hc. unfold open_db. cbn [st_meta close_db]. destruct (reads_db (db_ s) (so_db s Hok) Hc [] [] ltac:(done) ltac:(done)) as (ws & _ & Hr). cbn [app] in Hr. rewrite app_nil_r in Hr. rewrite Hr. cbn [fst mbind res_bind].
  destruct (open_tables_ok s (entries_in_order (tabs_ (db_ s))).*2 Hok) with (fhs := ∅ : gmap bytes Recovery.Table) (ihs := ∅ : gmap string OpenIndex) as (fhs & ihs & Hrun & [A1 A2] & _ & _ & Hall).
  { intros t (e & -> & He)%list_elem_of_fmap. rewrite entries_perm in He. destruct e as [n t]. apply elem_of_map_to_list in He. cbn [snd]. by rewrite (proj1 (do_tabs _ (so_db s Hok) n t He)). }
  { split; apply map_empty_subseteq. }
  assert (∀ n t, tabs_ (db_ s) !! n = Some t → n = ct_name t ∧ t ∈ (entries_in_order (tabs_ (db_ s))).*2) as Hin.
  { intros n t Ht. split; [symmetry; by apply (do_tabs _ (so_db s Hok) n t)|]. apply list_elem_of_fmap. exists (n, t). split; [done|]. by rewrite entries_perm, elem_of_map_to_list. }
  assert (fhs = fhs_ s) as ->. { apply subseteq_dom_eq; [done|]. intros n Hn. destruct (so_only s Hok n Hn) as [t Ht]. destruct (Hin n t Ht) as [-> Hl]. by apply Hall. }
  assert (ihs = ihs_ s) as ->. { apply subseteq_dom_eq; [done|]. intros n Hn. destruct (so_handles s Hok n Hn) as (tab & k & Ho). apply owns_index_inv in Ho as (t & i & Ht & Hi & ->). destruct (Hin tab t Ht) as [-> Hl].
    apply (Hall t Hl). by eapply list_elem_of_lookup_2. }
  rewrite Hrun. cbn. pose proof (so_meta s Hok) as E. destruct s. cbn in *. by rewrite E.
Qed.
End SysFacts.
