(* ===== verification/Relations.v ===== *)
(** * Relations: the reference for FROM and WHERE

    A relation is a list of records with their columns.  The FROM clause of a query denotes the
    product of its sources and the WHERE clause a selection from it.  The lemmas say how a
    condition on a product is one on a factor, which is what moving conditions in a plan relies
    on. *)

From Stdlib Require Import SpecFloat.
From S2P Require Import Prelude RecordFile Conditions IndexKeys Executor Scans ScanBounds.

Module Rel.
Import RecFile Cond Exec.

(** ** Relations *)

Record Relation := mk_Relation { r_cols : list ColMeta; r_len : Z; r_rows : list record }.

Definition cross (a b : Relation) : Relation :=
  mk_Relation (r_cols a ++ (shift_col (r_len a) <$> r_cols b)) (r_len a + r_len b) (l ← r_rows a; (λ r : record, l ++ r) <$> r_rows b).

(** The product of the sources, from the left. *)
Definition cross_all : Relation → list Relation → Relation := foldl cross.

Definition where_rows (conds : list Condition) (a : Relation) : list record := filter (λ r, eval_conds r (r_cols a) conds = true) (r_rows a).

(** A column lies within records of length [n]; numbers have four bytes. *)
Record col_fits (n : Z) (c : ColMeta) : Prop := {
  cf_offset : 0 ≤ cm_offset c;
  cf_len : 0 ≤ cm_len c;
  cf_end : cm_offset c + cm_len c ≤ n;
  cf_four : cm_type c ≠ TYPE_STRING → cm_len c = 4
}.

(** Columns lie in the records, records have their length and values of their types. *)
Record well_formed (a : Relation) : Prop := {
  wf_len : 0 ≤ r_len a;
  wf_cols : Forall (col_fits (r_len a)) (r_cols a);
  wf_rows : Forall (λ r, Z.of_nat (length r) = r_len a) (r_rows a);
  wf_fields : Forall (λ r, Forall (λ c, ScanBounds.field_ok (cm_type c) (cm_len c) (field r (cm_offset c) (cm_len c))) (r_cols a)) (r_rows a)
}.

(** All columns are of the tables [tabs]. *)
Definition columns_of (tabs : list (list byte)) (a : Relation) : Prop := Forall (λ c, cm_tab_name c ∈ tabs) (r_cols a).

(** ** Fields of concatenated records *)

Lemma field_app_l (l r : record) off len : 0 ≤ off → 0 ≤ len → off + len ≤ Z.of_nat (length l) → field (l ++ r) off len = field l off len.
Proof.
  intros Ho Hl Hb. unfold field, read_bytes. rewrite drop_app_le by lia. apply take_app_le. rewrite length_drop. lia.
Qed.

Lemma field_app_r (l r : record) off len : 0 ≤ off → field (l ++ r) (off + Z.of_nat (length l)) len = field r off len.
Proof. intros Ho. unfold field, read_bytes. rewrite drop_app_ge by lia. do 2 f_equal. lia. Qed.

Lemma field_whole (r : record) n : Z.of_nat (length r) = n → field r 0 n = r.
Proof. intros <-. unfold field, read_bytes. rewrite Nat2Z.id. by rewrite drop_0, firstn_all. Qed.

(** ** Conditions *)

Abbreviation eval_cond r cs c := (eval_conds r cs [c]).

Lemma eval_conds_cons r cs c conds : eval_conds r cs (c :: conds) = eval_cond r cs c && eval_conds r cs conds.
Proof.
  cbn [eval_conds]. destruct (find_col cs (lhs_col c)) as [l|]; [|done]. cbv zeta.
  match goal with |- (if ?b then _ else _) = _ => destruct b end; reflexivity.
Qed.

Lemma eval_conds_app r cs a b : eval_conds r cs (a ++ b) = eval_conds r cs a && eval_conds r cs b.
Proof. induction a as [|c a IH]; [done|]. rewrite <-app_comm_cons, (eval_conds_cons r cs c (a ++ b)), (eval_conds_cons r cs c a), IH. apply andb_assoc. Qed.

Lemma eval_conds_Forall r cs conds : eval_conds r cs conds = true ↔ Forall (λ c, eval_cond r cs c = true) conds.
Proof.
  induction conds as [|c conds IH]; [by split; [constructor|]|]. rewrite (eval_conds_cons r cs c conds), Forall_cons, <-IH. apply andb_true_iff.
Qed.

#[export] Instance eval_conds_proper r cs : Proper (Permutation ==> eq) (eval_conds r cs).
Proof.
  intros a b Hp. apply eq_true_iff_eq. rewrite !eval_conds_Forall. by rewrite Hp.
Qed.

#[export] Instance where_rows_proper : Proper (Permutation ==> eq ==> eq) where_rows.
Proof. intros a b Hp r ? <-. unfold where_rows. apply list_filter_iff. intros x. by rewrite Hp. Qed.

(** The data of a column that a comparison by type [ty] reads. *)
Definition col_data (ty : ColType) (r : record) (c : ColMeta) : list byte :=
  match ty with TYPE_STRING => field r (cm_offset c) (cm_len c) | _ => field r (cm_offset c) 4 end.

Definition compare_data (ty : ColType) (o : CompOp) (a b : list byte) : bool :=
  match ty with
  | TYPE_INT => compare_int o (int_of a) (int_of b)
  | TYPE_FLOAT => compare_float o (float_of a) (float_of b)
  | TYPE_STRING => compare_string o (c_str a) (c_str b)
  end.

Definition compare_value (ty : ColType) (o : CompOp) (a : list byte) (v : Value) : bool :=
  match ty with
  | TYPE_INT => compare_int o (int_of a) (int_of (v_bits v))
  | TYPE_FLOAT => compare_float o (float_of a) (float_of (v_bits v))
  | TYPE_STRING => compare_string o (c_str a) (str_val v)
  end.

Lemma eval_cond_eq r cs c : eval_cond r cs c =
  match find_col cs (lhs_col c) with
  | None => false
  | Some l =>
      if is_rhs_val c then compare_value (cm_type l) (op c) (col_data (cm_type l) r l) (rhs_val c)
      else match find_col cs (rhs_col c) with
           | None => false
           | Some m => compare_data (cm_type l) (op c) (col_data (cm_type l) r l) (col_data (cm_type l) r m)
           end
  end.
Proof.
  cbn [eval_conds]. destruct (find_col cs (lhs_col c)) as [l|]; [|done]. cbv zeta. destruct (is_rhs_val c).
  - destruct (cm_type l); cbn [compare_value col_data]; match goal with |- (if ?b then _ else _) = _ => by destruct b end.
  - destruct (find_col cs (rhs_col c)) as [m|]; [|done]. destruct (cm_type l); cbn [compare_data col_data]; match goal with |- (if ?b then _ else _) = _ => by destruct b end.
Qed.

(** The condition finds its columns: of one type and length when compared, with a value of its
    type otherwise. *)
Definition cond_fits (cs : list ColMeta) (c : Condition) : Prop :=
  ∃ l, find_col cs (lhs_col c) = Some l ∧
    (is_rhs_val c = false → ∃ r, find_col cs (rhs_col c) = Some r ∧ cm_type l = cm_type r ∧ cm_len l = cm_len r) ∧
    (is_rhs_val c = true → ScanBounds.value_ok (cm_type l) (cm_len l) (rhs_val c)).

(** The tables of a condition. *)
Definition cond_tabs (c : Condition) : list (list byte) := tc_tab_name (lhs_col c) :: (if is_rhs_val c then [] else [tc_tab_name (rhs_col c)]).

Lemma find_col_Some cs x c : find_col cs x = Some c → c ∈ cs ∧ cm_tab_name c = tc_tab_name x ∧ cm_name c = tc_col_name x.
Proof.
  unfold find_col. intros ([i c'] & Hf & ->)%fmap_Some. apply list_find_Some in Hf as (Hi & [H1 H2] & _). split_and!; [by eapply list_elem_of_lookup_2|done..].
Qed.

Lemma find_col_foreign tabs a x : columns_of tabs a → tc_tab_name x ∉ tabs → find_col (r_cols a) x = None.
Proof.
  intros Hc Hx. apply eq_None_not_Some. intros [c (Hin & E & _)%find_col_Some]. unfold columns_of in Hc. rewrite Forall_forall in Hc.
  specialize (Hc c Hin). congruence.
Qed.

Lemma find_col_app_l cs ds x c : find_col cs x = Some c → find_col (cs ++ ds) x = Some c.
Proof. unfold find_col. intros ([i c'] & Hf & ->)%fmap_Some. by rewrite (list_find_app_l _ _ _ _ _ Hf). Qed.

Lemma find_col_app_r cs ds d x : find_col cs x = None → find_col (cs ++ (shift_col d <$> ds)) x = shift_col d <$> find_col ds x.
Proof.
  unfold find_col. intros Hn%fmap_None. rewrite list_find_app_r by done. rewrite list_find_fmap.
  change (λ m, cm_tab_name m = tc_tab_name x ∧ cm_name m = tc_col_name x) with ((λ m, cm_tab_name m = tc_tab_name x ∧ cm_name m = tc_col_name x) ∘ shift_col d) at 2.
  by destruct (list_find _ ds) as [[]|].
Qed.

(** ** Conditions on products *)

Section cross.
Context (a b : Relation) (Ha : well_formed a) (Hb : well_formed b) (l r : record).
Context (Hl : Z.of_nat (length l) = r_len a) (Hr : Z.of_nat (length r) = r_len b).
Abbreviation cs := (r_cols (cross a b)).

Lemma col_data_left ty c : c ∈ r_cols a → (ty ≠ TYPE_STRING → cm_len c = 4) → col_data ty (l ++ r) c = col_data ty l c.
Proof.
  intros Hin H4. pose proof (wf_cols _ Ha) as Hf. rewrite Forall_forall in Hf. destruct (Hf c Hin) as [F1 F2 F3 F4].
  destruct ty; simpl; apply field_app_l; try lia; by rewrite H4 in F3 by done; lia.
Qed.

Lemma col_data_right ty c : c ∈ r_cols b → col_data ty (l ++ r) (shift_col (r_len a) c) = col_data ty r c.
Proof.
  intros Hin. pose proof (wf_cols _ Hb) as Hf. rewrite Forall_forall in Hf. destruct (Hf c Hin) as [F1 F2 F3 F4].
  destruct ty; cbn [col_data shift_col cm_offset cm_len]; rewrite <-Hl; by apply field_app_r.
Qed.

Lemma eval_cond_left c : cond_fits (r_cols a) c → eval_cond (l ++ r) cs c = eval_cond l (r_cols a) c.
Proof.
  intros (m & Hm & Hn & _). rewrite !eval_cond_eq. cbn [r_cols cross]. rewrite (find_col_app_l _ _ _ _ Hm), Hm.
  pose proof (wf_cols _ Ha) as Hf. rewrite Forall_forall in Hf. destruct (find_col_Some _ _ _ Hm) as [Hin _].
  rewrite col_data_left by (try done; apply (Hf m Hin)). destruct (is_rhs_val c); [done|]. destruct (Hn eq_refl) as (n & Hfn & Ety & _).
  rewrite (find_col_app_l _ _ _ _ Hfn), Hfn. destruct (find_col_Some _ _ _ Hfn) as [Hin' _].
  rewrite (col_data_left _ n); [done|done|]. rewrite Ety. apply (Hf n Hin').
Qed.

Lemma eval_cond_right tabs c : columns_of tabs a → Forall (λ t, t ∉ tabs) (cond_tabs c) → eval_cond (l ++ r) cs c = eval_cond r (r_cols b) c.
Proof.
  intros Hc Ht. rewrite !eval_cond_eq. cbn [r_cols cross]. unfold cond_tabs in Ht. apply Forall_cons in Ht as [Ht1 Ht2].
  rewrite (find_col_app_r _ _ _ _ (find_col_foreign _ _ _ Hc Ht1)). destruct (find_col (r_cols b) (lhs_col c)) as [m|] eqn:Em; [|done]. simpl.
  destruct (find_col_Some _ _ _ Em) as [Hin _]. rewrite col_data_right by done. destruct (is_rhs_val c); [done|].
  apply Forall_cons in Ht2 as [Ht2 _]. rewrite (find_col_app_r _ _ _ _ (find_col_foreign _ _ _ Hc Ht2)).
  destruct (find_col (r_cols b) (rhs_col c)) as [n|] eqn:En; [|done]. simpl. destruct (find_col_Some _ _ _ En) as [Hin' _]. by rewrite col_data_right.
Qed.
End cross.

Lemma well_formed_row a r : well_formed a → r ∈ r_rows a → Z.of_nat (length r) = r_len a.
Proof. intros Ha Hr. pose proof (wf_rows _ Ha) as H. rewrite Forall_forall in H. by apply H. Qed.

Lemma well_formed_cross a b : well_formed a → well_formed b → well_formed (cross a b).
Proof.
  intros Ha Hb. pose proof (wf_len _ Ha). pose proof (wf_len _ Hb). split; cbn [r_len r_cols r_rows cross].
  - lia.
  - apply Forall_app. split.
    + eapply Forall_impl; [apply Ha|]. intros c [? ? ? ?]. split; [done..|lia|done].
    + apply Forall_fmap. eapply Forall_impl; [apply Hb|]. intros c [? ? ? ?]. split; simpl; [lia..|done].
  - apply Forall_forall. intros x (l & (r & -> & Hr)%list_elem_of_fmap & Hl)%list_elem_of_bind. rewrite length_app.
    apply well_formed_row in Hl, Hr; [lia|done..].
  - apply Forall_forall. intros x (l & (r & -> & Hr)%list_elem_of_fmap & Hl)%list_elem_of_bind.
    pose proof (wf_fields _ Ha) as Fa. pose proof (wf_fields _ Hb) as Fb. rewrite Forall_forall in Fa, Fb. specialize (Fa l Hl). specialize (Fb r Hr).
    pose proof (wf_cols _ Ha) as Ca. pose proof (wf_cols _ Hb) as Cb. rewrite !Forall_forall in *. pose proof (well_formed_row _ _ Ha Hl) as El.
    intros c [Hc|(c' & -> & Hc)%list_elem_of_fmap]%elem_of_app.
    + destruct (Ca c Hc). rewrite field_app_l by lia. by apply Fa.
    + destruct (Cb c' Hc). cbn [shift_col cm_offset cm_len cm_type]. rewrite <-El, field_app_r by done. by apply Fb.
Qed.

Lemma columns_of_cross tabs tab a b : columns_of tabs a → columns_of [tab] b → columns_of (tabs ++ [tab]) (cross a b).
Proof.
  intros Ha Hb. apply Forall_app. split.
  - eapply Forall_impl; [exact Ha|]. intros c Hc. simpl in *. apply elem_of_app. by left.
  - apply Forall_fmap. eapply Forall_impl; [exact Hb|]. intros c Hc. simpl in *. apply elem_of_app. by right.
Qed.

(** A condition that fits a factor fits the product. *)
Lemma cond_fits_app cs ds c : cond_fits cs c → cond_fits (cs ++ ds) c.
Proof.
  intros (l & Hl & Hr & Hv). exists l. split_and!; [by apply find_col_app_l| |done]. intros E. destruct (Hr E) as (r & Hf & ? & ?). exists r. split; [by apply find_col_app_l|done].
Qed.

(** A condition on other tables than those of [a] that fits a product fits its right factor. *)
Lemma cond_fits_right tabs a b c : columns_of tabs a → Forall (λ t, t ∉ tabs) (cond_tabs c) → cond_fits (r_cols (cross a b)) c → cond_fits (r_cols b) c.
Proof.
  intros Ha Ht (l & Hl & Hr & Hv). unfold cond_tabs in Ht. apply Forall_cons in Ht as [Ht1 Ht2]. cbn [r_cols cross] in Hl, Hr.
  rewrite (find_col_app_r _ _ _ _ (find_col_foreign _ _ _ Ha Ht1)) in Hl. apply fmap_Some in Hl as (l0 & Hl0 & ->). exists l0. split_and!; [done| |done].
  intros E. rewrite E in Ht2. apply Forall_cons in Ht2 as [Ht2 _]. destruct (Hr E) as (r & Hfr & ? & ?).
  rewrite (find_col_app_r _ _ _ _ (find_col_foreign _ _ _ Ha Ht2)) in Hfr. apply fmap_Some in Hfr as (r0 & Hr0 & ->). by exists r0.
Qed.

Lemma filter_bind {A B} (P : B → Prop) `{∀ x, Decision (P x)} (f : A → list B) (l : list A) : filter P (l ≫= f) = l ≫= (λ x, filter P (f x)).
Proof. induction l as [|x l IH]; [done|]. cbn [mbind list_bind]. by rewrite filter_app, IH. Qed.

Lemma filter_fmap {A B} (P : B → Prop) `{∀ x, Decision (P x)} (f : A → B) (l : list A) : filter P (f <$> l) = f <$> filter (λ x, P (f x)) l.
Proof. induction l as [|x l IH]; [done|]. cbn [fmap list_fmap]. rewrite !filter_cons. case_decide; cbn [fmap list_fmap]; by rewrite IH. Qed.

Lemma filter_all {A} (P : A → Prop) `{∀ x, Decision (P x)} (l : list A) : (∀ x, x ∈ l → P x) → filter P l = l.
Proof.
  induction l as [|x l IH]; intros Hp; [done|]. rewrite filter_cons, decide_True by (apply Hp; by left). f_equal. apply IH. intros y Hy. apply Hp. by right.
Qed.

(** The selection from a product by conditions on the left, on the right and on both. *)
Lemma where_cross a b tabs ca cb cj : well_formed a → well_formed b → columns_of tabs a →
  Forall (cond_fits (r_cols a)) ca → Forall (λ c, Forall (λ t, t ∉ tabs) (cond_tabs c)) cb →
  where_rows (ca ++ cb ++ cj) (cross a b) =
    l ← where_rows ca a; (λ r : record, l ++ r) <$> filter (λ r, eval_conds (l ++ r) (r_cols (cross a b)) cj = true) (where_rows cb b).
Proof.
  intros Ha Hb Ht Hca Hcb. unfold where_rows at 1. cbn [r_rows cross]. rewrite filter_bind.
  change (where_rows ca a) with (filter (λ r, eval_conds r (r_cols a) ca = true) (r_rows a)). assert (Forall (λ l, Z.of_nat (length l) = r_len a) (r_rows a)) as Hla by apply Ha.
  revert Hla. generalize (r_rows a). intros la Hla. induction Hla as [|l ls Hl Hls IH]; [done|]. cbn [mbind list_bind].
  rewrite IH, filter_cons, filter_fmap. clear IH.
  assert (∀ r, r ∈ r_rows b → eval_conds (l ++ r) (r_cols (cross a b)) (ca ++ cb ++ cj) =
    eval_conds l (r_cols a) ca && (eval_conds r (r_cols b) cb && eval_conds (l ++ r) (r_cols (cross a b)) cj)) as He.
  { intros r Hr. apply well_formed_row in Hr; [|done]. rewrite !eval_conds_app. f_equal; [|f_equal].
    - apply eq_true_iff_eq. rewrite !eval_conds_Forall, !Forall_forall. rewrite Forall_forall in Hca. split; intros H c Hc; specialize (H c Hc); [rewrite <-(eval_cond_left a b) with (r:=r)|rewrite (eval_cond_left a b)]; auto.
    - apply eq_true_iff_eq. rewrite !eval_conds_Forall, !Forall_forall. rewrite Forall_forall in Hcb.
      split; intros H c Hc; specialize (H c Hc); [rewrite <-(eval_cond_right a b) with (l:=l) (tabs:=tabs)|rewrite (eval_cond_right a b) with (tabs:=tabs)]; auto. }
  assert (∀ k, k ⊆ r_rows b → filter (λ r, eval_conds (l ++ r) (r_cols (cross a b)) (ca ++ cb ++ cj) = true) k =
    if eval_conds l (r_cols a) ca then filter (λ r, eval_conds (l ++ r) (r_cols (cross a b)) cj = true) (filter (λ r, eval_conds r (r_cols b) cb = true) k) else []) as Hk.
  { intros k Hin. induction k as [|r k IH]; [by destruct (eval_conds l (r_cols a) ca)|]. rewrite !filter_cons, IH by set_solver. rewrite He by set_solver.
    destruct (eval_conds l (r_cols a) ca); cbn [andb]; [|by rewrite decide_False]. destruct (eval_conds r (r_cols b) cb); cbn [andb]; [|by rewrite !decide_False].
    rewrite (decide_True (P:=true = true)) by done. by rewrite filter_cons. }
  rewrite (Hk (r_rows b)) by done. case_decide as Hd; [rewrite Hd|apply not_true_is_false in Hd; rewrite Hd]; cbn [mbind list_bind]; [done|by rewrite app_nil_l].
Qed.

(** ** Equality is symmetric *)

Lemma byte_compare_sym a : ∀ b, byte_compare a b = CompOpp (byte_compare b a).
Proof.
  induction a as [|x a IH]; intros [|y b]; try done. simpl. rewrite (Z.compare_antisym (byte.unsigned y)). destruct (byte.unsigned y ?= byte.unsigned x) eqn:E; simpl; auto.
Qed.

Lemma SFcompare_eq_sym x y : SFcompare x y = Some Eq → SFcompare y x = Some Eq.
Proof.
  destruct x as [| | |s m e], y as [| | |s' m' e']; simpl; try done; try (by repeat case_match).
  destruct s, s'; try done; rewrite (Z.compare_antisym e); destruct (e ?= e') eqn:Ee; simpl; try done;
    (change (Pos.compare_cont Eq m m') with (m ?= m')%positive; change (Pos.compare_cont Eq m' m) with (m' ?= m)%positive; rewrite (Pos.compare_antisym m); by destruct (m ?= m')%positive).
Qed.

Lemma compare_data_eq_sym ty a b : compare_data ty OP_EQ a b = compare_data ty OP_EQ b a.
Proof.
  destruct ty; cbn [compare_data].
  - unfold compare_int, compare_op. rewrite (Z.compare_antisym (int_of a)). by destruct (int_of a ?= int_of b).
  - unfold compare_float, compare_op. assert (∀ x y, SFcompare x y = Some Eq ↔ SFcompare y x = Some Eq) as H by (split; apply SFcompare_eq_sym).
    specialize (H (float_of a) (float_of b)). destruct (SFcompare (float_of a) (float_of b)) as [[]|], (SFcompare (float_of b) (float_of a)) as [[]|]; naive_solver.
  - unfold compare_string, compare_op. rewrite (byte_compare_sym (c_str a)). by destruct (byte_compare (c_str b) (c_str a)).
Qed.
End Rel.
