(* ===== verification/PlannerFacts.v ===== *)
(** * Plans of joins and selections

    The plan that the planner makes of the sources and conditions of a query delivers the
    records of the product of the sources that satisfy the conditions.  Of the scans at its
    leaves it needs what the class [ScanSpec] says. *)

From S2P Require Import Prelude RecordFile Recovery Conditions LockManager Mvcc Executor Aggregate Scans Portal PortalFacts ScanBounds Relations Planner.

Module PlannerFacts.
Import Cond Mvcc Exec Agg Scans Portal PortalFacts Rel Planner.

(** ** What the planner needs of scans *)

Section spec.
Context (table_cols : bytes → option (list ColMeta)) (scan : ScanPlan → option (record * list ColMeta) → option (list record)).
Context (db : gmap bytes TabMeta) (rel_of : bytes → Relation) (usable : ScanPlan → Prop).

(** The keys of the outer record [l] and of the inner record [r] are equal. *)
Definition same_key (l : record) (oc : ColMeta) (ic : ColMeta) (r : record) : bool :=
  compare_data (cm_type ic) OP_EQ (col_data (cm_type ic) l oc) (col_data (cm_type ic) r ic).

(** The scans that the planner makes: with conditions on their table, and an index of it if any;
    a scan on the inside of a join has the index on the column of the key. *)
Record planned (s : ScanPlan) : Prop := {
  pn_table : is_Some (db !! sp_tab s);
  pn_conds : Forall (λ c, cond_fits (r_cols (rel_of (sp_tab s))) c ∧ Forall (λ t, t = sp_tab s) (cond_tabs c)) (sp_conds s);
  pn_index : match sp_index s with None => sp_join s = None | Some names => ∃ m, db !! sp_tab s = Some m ∧ is_index m names = true end;
  pn_join : match sp_join s with None => True | Some (_, inner) => sp_index s = Some [inner] end
}.

(** A scan has the records of its table that satisfy its conditions, in any order; on the inside
    of a join those that also have the key of the outer record. *)
Class ScanSpec : Prop := {
  ss_table tab m : db !! tab = Some m → table_cols tab = Some (r_cols (rel_of tab)) ∧ table_len (r_cols (rel_of tab)) = r_len (rel_of tab);
  ss_alone s : planned s → usable s → sp_join s = None → ∃ R, (∀ b, scan s b = Some R) ∧ R ≡ₚ where_rows (sp_conds s) (rel_of (sp_tab s));
  ss_inner s outer inner a l oc ic : planned s → usable s → sp_join s = Some (outer, inner) → well_formed a → l ∈ r_rows a →
    find_col (r_cols a) outer = Some oc → find_col (r_cols (rel_of (sp_tab s))) (mk_TabCol (sp_tab s) inner) = Some ic →
    cm_type oc = cm_type ic → cm_len oc = cm_len ic →
    ∃ R, scan s (Some (l, r_cols a)) = Some R ∧ R ≡ₚ filter (λ r, same_key l oc ic r = true) (where_rows (sp_conds s) (rel_of (sp_tab s)))
}.
End spec.

Section facts.
Context (fuel : nat) (table_cols : bytes → option (list ColMeta)) (scan : ScanPlan → option (record * list ColMeta) → option (list record)).
Context (db : gmap bytes TabMeta) (rel_of : bytes → Relation) (usable : ScanPlan → Prop).
Context `{Hspec : !ScanSpec table_cols scan db rel_of usable}.
Abbreviation hdr := (plan_cols table_cols).
Abbreviation eval := (eval_plan fuel table_cols scan).

(** ** Joins *)

(** The plan delivers the records of [a] that satisfy [conds], whatever it is joined with. *)
Definition delivers (p : Plan) (conds : list Condition) (a : Relation) : Prop :=
  hdr p = Some (r_cols a, r_len a) ∧ ∃ L, (∀ b, eval b p = Some L) ∧ L ≡ₚ where_rows conds a.

(** On the inside of a join with [a], by the conditions [cj], it may leave out records of [b]
    that [cj] excludes. *)
Definition delivers_inner (p : Plan) (cj conds : list Condition) (a b : Relation) : Prop :=
  hdr p = Some (r_cols b, r_len b) ∧ ∀ l, l ∈ r_rows a → ∃ R (Q : record → bool), eval (Some (l, r_cols a)) p = Some R ∧
    R ≡ₚ filter (λ r, Q r = true) (where_rows conds b) ∧ ∀ r, r ∈ r_rows b → eval_conds (l ++ r) (r_cols (cross a b)) cj = true → Q r = true.

Lemma where_rows_sub conds a r : r ∈ where_rows conds a → r ∈ r_rows a.
Proof. unfold where_rows. by intros [_ ?]%list_elem_of_filter. Qed.

Lemma length_where conds a : (length (where_rows conds a) ≤ length (r_rows a))%nat.
Proof. apply length_filter. Qed.

Lemma length_cross a b : length (r_rows (cross a b)) = (length (r_rows a) * length (r_rows b))%nat.
Proof.
  cbn [r_rows cross]. induction (r_rows a) as [|l ls IH]; [done|]. cbn [mbind list_bind]. rewrite length_app, length_fmap, IH. simpl. lia.
Qed.

Lemma delivers_inside p cj conds a b : delivers p conds b → delivers_inner p cj conds a b.
Proof.
  intros [Hh (L & HL & Hp)]. split; [done|]. intros l _. exists L, (λ _, true). split_and!; [done| |done]. rewrite Hp.
  assert (filter (λ _ : record, true = true) (where_rows conds b) = where_rows conds b) as ->; [|done]. by apply filter_all.
Qed.

(** One round of the inner loop. *)
Lemma join_list_rows a b cj conds l R (Q : record → bool) : well_formed a → well_formed b → l ∈ r_rows a → R ≡ₚ filter (λ r, Q r = true) (where_rows conds b) →
  (∀ r, r ∈ r_rows b → eval_conds (l ++ r) (r_cols (cross a b)) cj = true → Q r = true) →
  join_list (r_cols a, r_len a) (r_cols b, r_len b) cj l R ≡ₚ (λ r, l ++ r) <$> filter (λ r, eval_conds (l ++ r) (r_cols (cross a b)) cj = true) (where_rows conds b).
Proof.
  intros Ha Hb Hl HR HQ. assert (Z.of_nat (length l) = r_len a) as El by by apply well_formed_row.
  assert (∀ r, r ∈ R → Z.of_nat (length r) = r_len b) as ER.
  { intros r Hr. rewrite HR, list_elem_of_filter in Hr. apply well_formed_row; [done|]. eapply where_rows_sub, Hr. }
  assert (join_list (r_cols a, r_len a) (r_cols b, r_len b) cj l R = (λ r, l ++ r) <$> filter (λ r, eval_conds (l ++ r) (r_cols (cross a b)) cj = true) R) as ->.
  { unfold join_list. cbn [fst snd r_cols cross]. rewrite (field_whole l) by done. clear HR. induction R as [|r R IH]; [done|].
    assert (field r 0 (r_len b) = r) as Er by (apply field_whole, ER; by left). rewrite !filter_cons, Er. case_decide; [|apply IH; set_solver].
    cbn [fmap list_fmap]. rewrite Er. f_equal. apply IH. set_solver. }
  apply fmap_Permutation. rewrite HR, list_filter_filter. assert (∀ k, k ⊆ r_rows b →
    filter (λ r, eval_conds (l ++ r) (r_cols (cross a b)) cj = true ∧ Q r = true) k = filter (λ r, eval_conds (l ++ r) (r_cols (cross a b)) cj = true) k) as Hk.
  { intros k Hin. apply filter_ext_in. intros r Hr. split; [by intros []|]. intros H. split; [done|]. apply HQ; [by apply Hin|done]. }
  rewrite Hk; [done|]. intros r. apply where_rows_sub.
Qed.

Lemma concat_bind {A B} (P : A → list B → Prop) (g : A → list B) L ls : Forall2 P L ls → (∀ x y, x ∈ L → P x y → y ≡ₚ g x) → concat ls ≡ₚ L ≫= g.
Proof.
  induction 1 as [|x y L ls Hxy Hall IH]; intros Hg; [done|]. cbn [concat mbind list_bind]. rewrite (Hg x y), IH; [done| |by left|done].
  intros x' y' Hin. apply Hg. by right.
Qed.

Lemma join_delivers root right cj ca cb tabs a b : well_formed a → well_formed b → columns_of tabs a → steady root = true →
  Forall (cond_fits (r_cols a)) ca → Forall (λ c, Forall (λ t, t ∉ tabs) (cond_tabs c)) cb →
  (S (length (r_rows a)) < fuel)%nat → (length (r_rows a) * length (r_rows b) < fuel)%nat →
  delivers root ca a → delivers_inner right cj cb a b → delivers (PJoin root right cj) (ca ++ cb ++ cj) (cross a b).
Proof.
  intros Ha Hb Ht Hs Hca Hcb Hf1 Hf2 [Hh1 (L & HL & HpL)] [Hh2 Hinner]. split; [cbn [plan_cols]; by rewrite Hh1, Hh2|].
  assert (∀ l, l ∈ L → l ∈ r_rows a) as HinL by (intros l Hl; rewrite HpL in Hl; by eapply where_rows_sub).
  set (f := λ l, R ← eval (Some (l, r_cols a)) right; Some (join_list (r_cols a, r_len a) (r_cols b, r_len b) cj l R)).
  assert (is_Some (mapM f L)) as [ls Hls].
  { apply mapM_is_Some_2, Forall_forall. intros l Hl. destruct (Hinner l (HinL l Hl)) as (R & Q & HR & _). unfold f. simpl. rewrite HR. by eexists. }
  apply mapM_Some in Hls as Hall.
  set (g := λ l, (λ r : record, l ++ r) <$> filter (λ r, eval_conds (l ++ r) (r_cols (cross a b)) cj = true) (where_rows cb b)).
  assert (concat ls ≡ₚ where_rows (ca ++ cb ++ cj) (cross a b)) as Hc.
  { rewrite (where_cross a b tabs) by done. fold g. rewrite <-HpL. eapply concat_bind; [exact Hall|]. intros l y Hl Hy. unfold f in Hy.
    destruct (Hinner l (HinL l Hl)) as (R & Q & HR & Hp & HQ). rewrite HR in Hy. injection Hy as <-. by eapply join_list_rows; [..|apply HinL| |]. }
  exists (concat ls). split; [|done]. intros b0. cbn [eval_plan]. rewrite Hs, Hh1. cbn [mbind option_bind]. rewrite Hh2. cbn [mbind option_bind]. rewrite HL. cbn [mbind option_bind].
  cbn [fst]. fold f. rewrite Hls. cbn [mbind option_bind]. pose proof (length_where ca a) as Hl1. rewrite <-HpL in Hl1. rewrite decide_True by lia.
  unfold bounded. rewrite decide_True; [done|]. rewrite Hc. eapply Nat.le_lt_trans; [apply length_where|]. by rewrite length_cross.
Qed.

(** ** Sources *)

(** A source has the records of the relation [b]: a table those of its file, a derived table
    those of its plan. *)
Record source_ok (s : QuerySource (res Plan)) (b : Relation) : Prop := {
  so_wf : well_formed b;
  so_columns : columns_of [qs_name s] b;
  so_rows : match qs_derived s with
    | None => is_Some (db !! qs_name s) ∧ b = rel_of (qs_name s)
    | Some p => ∃ p', p = Ok p' ∧ qs_cols s = r_cols b ∧ (∃ cs, hdr p' = Some (cs, r_len b)) ∧ ∀ c, eval c p' = Some (r_rows b)
    end
}.

Lemma best_index_ok tab conds ixs : let best := best_index tab conds ixs in best.1 = 0%nat ∨ ∃ ix, ix ∈ ixs ∧ cm_name <$> im_cols ix = best.2.
Proof.
  clear -tab conds ixs. unfold best_index. set (step := λ (best : nat * list bytes) ix, if decide (best.1 < matched tab conds (im_cols ix))%nat then (matched tab conds (im_cols ix), cm_name <$> im_cols ix) else best).
  change (let best := foldl step (0%nat, []) ixs in best.1 = 0%nat ∨ ∃ ix, ix ∈ ixs ∧ cm_name <$> im_cols ix = best.2). cbv zeta.
  induction ixs as [|ix ixs IH] using rev_ind; [by left|]. rewrite foldl_app. cbn [foldl]. unfold step at 1 3. case_decide as Hd; cbn [fst snd].
  - right. exists ix. split; [set_solver|done].
  - destruct IH as [->|(ix' & Hin & E)]; [by left|]. right. exists ix'. split; [set_solver|done].
Qed.

Lemma get_index_cols_ok tab conds m : db !! tab = Some m → ∃ index, get_index_cols db tab conds = Ok index ∧
  match index with None => True | Some names => is_index m names = true end.
Proof.
  intros Hm. unfold get_index_cols, get_table. rewrite Hm. eexists. split; [reflexivity|]. case_decide as Hd; [|done].
  destruct (best_index_ok tab conds (tm_indexes m)) as [E|(ix & Hin & E)]; [lia|]. apply existsb_exists. exists ix. split; [by apply list_elem_of_In|by apply bool_decide_eq_true].
Qed.

Lemma where_nil a : where_rows [] a = r_rows a.
Proof. by apply filter_all. Qed.

Lemma scan_delivers tab conds index m : db !! tab = Some m → (length (r_rows (rel_of tab)) < fuel)%nat →
  planned db rel_of (mk_ScanPlan tab conds index None) → usable (mk_ScanPlan tab conds index None) → delivers (PScan (mk_ScanPlan tab conds index None)) conds (rel_of tab).
Proof.
  intros Hm Hf Hpn Hu. destruct (ss_table _ _ _ _ _ tab m Hm) as [E1 E2]. split; [cbn [plan_cols sp_tab]; rewrite E1; cbn [mbind option_bind]; by rewrite E2|].
  destruct (ss_alone _ _ _ _ _ (mk_ScanPlan tab conds index None) Hpn Hu eq_refl) as (R & HR & Hp). exists R. split; [|done]. intros b. cbn [eval_plan]. rewrite HR. cbn [mbind option_bind]. unfold bounded.
  rewrite decide_True; [done|]. rewrite Hp. eapply Nat.le_lt_trans; [apply length_where|done].
Qed.

Lemma derived_delivers s b p conds : qs_derived s = Some (Ok p) → qs_cols s = r_cols b → (∃ cs, hdr p = Some (cs, r_len b)) → (∀ c, eval c p = Some (r_rows b)) →
  delivers (match conds with [] => PRename p (qs_cols s) | _ => PFilter (PRename p (qs_cols s)) conds end) conds b.
Proof.
  intros Hd Hcs (cs & Hh) He. assert (hdr (PRename p (qs_cols s)) = Some (r_cols b, r_len b)) as Hr by (cbn [plan_cols]; rewrite Hh, Hcs; done).
  destruct conds as [|c conds].
  - split; [done|]. exists (r_rows b). by rewrite where_nil.
  - split; [done|]. exists (where_rows (c :: conds) b). split; [|done]. intros b0. cbn [eval_plan]. rewrite Hr, He. done.
Qed.

(** Conditions on a source. *)
Definition own_conds (s : QuerySource (res Plan)) (b : Relation) : list Condition → Prop :=
  Forall (λ c, cond_fits (r_cols b) c ∧ Forall (λ t, t = qs_name s) (cond_tabs c)).

Lemma source_alone s b conds : source_ok s b → own_conds s b conds → (length (r_rows b) < fuel)%nat →
  ∃ p, build_source_scan_plan db (Some s) (qs_name s) conds None = Ok p ∧ (Forall usable (scans p) → delivers p conds b).
Proof.
  intros [Hwf Hc Hr] Hown Hf. unfold build_source_scan_plan, build_source_plan. cbn [mbind option_bind]. destruct (qs_derived s) as [p|] eqn:Ed.
  - destruct Hr as (p' & -> & Hcs & Hh & He). eexists. split; [reflexivity|]. intros _. by apply derived_delivers.
  - destruct Hr as [[m Hm] ->]. destruct (get_index_cols_ok (qs_name s) conds m Hm) as (index & Hi & Hix). rewrite Hi. unfold get_table. rewrite Hm.
    eexists. split; [reflexivity|]. intros Hu. apply Forall_cons in Hu as [Hu _]. eapply scan_delivers; [done|done| |done]. split; [by exists m|done| |done]. simpl. destruct index; [by exists m|done].
Qed.

(** The condition that gives an index join its key. *)
Definition key_cond (tabs : list bytes) (tab : bytes) (key : option (TabCol * bytes)) (cj : list Condition) : Prop :=
  match key with
  | None => True
  | Some (outer, inner) => ∃ c, c ∈ cj ∧ is_rhs_val c = false ∧ op c = OP_EQ ∧ tc_tab_name outer ∈ tabs ∧
      ((lhs_col c = mk_TabCol tab inner ∧ rhs_col c = outer) ∨ (rhs_col c = mk_TabCol tab inner ∧ lhs_col c = outer)) ∧
      ∃ m, db !! tab = Some m ∧ is_index m [inner] = true
  end.

Lemma choose_key_ok tab joined cj m : db !! tab = Some m → ∃ key, choose_inlj_key db tab joined cj = Ok key ∧ key_cond joined tab key cj.
Proof.
  intros Hm. unfold choose_inlj_key, get_table. rewrite Hm. eexists. split; [reflexivity|]. unfold key_cond.
  destruct (head _) as [[outer inner]|] eqn:Eh; [|done]. assert ((outer, inner) ∈ omap (inlj_key m tab joined) cj) as (c & Hc & Hk)%list_elem_of_omap.
  { destruct (omap (inlj_key m tab joined) cj); [done|]. injection Eh as ->. by left. }
  exists c. unfold inlj_key, is_equality, table_in_list in Hk. destruct (is_rhs_val c); [by rewrite orb_true_r in Hk|]. destruct (op c) eqn:Eo; try done. simpl in Hk.
  case_bool_decide as H1; case_bool_decide as H2; simpl in Hk.
  1: destruct (is_index m _) eqn:Ei; [injection Hk as <- <-; split_and!; try done; [left; split; [destruct (lhs_col c); simpl in *; by subst|done]|by exists m]|].
  all: case_bool_decide as H3; case_bool_decide as H4; simpl in Hk; try done; destruct (is_index m [tc_col_name (rhs_col c)]) eqn:Ej; try done; injection Hk as <- <-; split_and!; try done;
    [right; (split; [destruct (rhs_col c); simpl in *; by subst|done])|by exists m].
Qed.

(** The columns of a condition between the factors of a product. *)
Lemma find_cross_left tabs tab a b x m : columns_of tabs a → columns_of [tab] b → tab ∉ tabs → tc_tab_name x ∈ tabs →
  find_col (r_cols (cross a b)) x = Some m → find_col (r_cols a) x = Some m.
Proof.
  intros Ha Hb Hx Hc Hm. cbn [r_cols cross] in Hm. destruct (find_col (r_cols a) x) as [m'|] eqn:E.
  - by rewrite (find_col_app_l _ _ _ _ E) in Hm.
  - rewrite find_col_app_r in Hm by done. apply fmap_Some in Hm as (n & Hn & ->). apply find_col_Some in Hn as (Hin & Et & _).
    unfold columns_of in Hb. rewrite Forall_forall in Hb. specialize (Hb n Hin). apply list_elem_of_singleton in Hb. by rewrite <-Et, Hb in Hc.
Qed.

Lemma find_cross_right tabs a b x : columns_of tabs a → tc_tab_name x ∉ tabs → find_col (r_cols (cross a b)) x = shift_col (r_len a) <$> find_col (r_cols b) x.
Proof. intros Ha Hx. cbn [r_cols cross]. apply find_col_app_r. by eapply find_col_foreign. Qed.

Lemma source_inner s b cj conds key tabs a : source_ok s b → own_conds s b conds → (length (r_rows b) < fuel)%nat → (is_Some (qs_derived s) → key = None) →
  well_formed a → columns_of tabs a → qs_name s ∉ tabs → key_cond tabs (qs_name s) key cj → Forall (cond_fits (r_cols (cross a b))) cj →
  ∃ p, build_source_scan_plan db (Some s) (qs_name s) conds key = Ok p ∧ (Forall usable (scans p) → delivers_inner p cj conds a b).
Proof.
  intros Hs Hown Hf Hd Ha Hta Hn Hk Hfit. destruct key as [[outer inner]|].
  2:{ destruct (source_alone s b conds Hs Hown Hf) as (p & Hp & Hdel). exists p. split; [done|]. intros Hu. by apply delivers_inside, Hdel. }
  destruct (qs_derived s) as [p|] eqn:Ed; [by specialize (Hd ltac:(by eexists))|]. destruct Hs as [Hwf Hc Hr]. rewrite Ed in Hr. destruct Hr as [[m Hm] Eb].
  unfold build_source_scan_plan, build_source_plan. cbn [mbind option_bind]. rewrite Ed. unfold get_table. rewrite Hm. eexists. split; [reflexivity|].
  cbn [scans]. intros Hu. apply Forall_cons in Hu as [Hu _]. destruct (ss_table _ _ _ _ _ _ _ Hm) as [E1 E2].
  split; [cbn [plan_cols sp_tab]; rewrite E1; cbn [mbind option_bind]; by rewrite E2, Eb|]. intros l Hl.
  destruct Hk as (c & Hin & Hval & Hop & Hout & Hcase & Hix). rewrite Forall_forall in Hfit. destruct (Hfit c Hin) as (lc & Hlc & Hrc & _). destruct (Hrc Hval) as (rc & Hfr & Ety & Elen).
  assert (∃ oc ic, find_col (r_cols (cross a b)) outer = Some oc ∧ find_col (r_cols (cross a b)) (mk_TabCol (qs_name s) inner) = Some ic ∧ cm_type oc = cm_type ic ∧ cm_len oc = cm_len ic ∧
    ∀ r, eval_cond r (r_cols (cross a b)) c = compare_data (cm_type ic) OP_EQ (col_data (cm_type ic) r oc) (col_data (cm_type ic) r ic)) as (oc & ic & Hoc & Hic & Hty & Hlen & Hev).
  { destruct Hcase as [[El Er]|[Er El]]; rewrite El in Hlc; rewrite Er in Hfr; [exists rc, lc|exists lc, rc]; (split_and!; [done..|]); intros r; rewrite eval_cond_eq, El, Er, Hlc, Hval, Hfr, Hop;
      [by rewrite compare_data_eq_sym|by rewrite Ety]. }
  apply (find_cross_left tabs (qs_name s)) in Hoc; [|done..].
  rewrite find_cross_right with (tabs:=tabs) in Hic by done. apply fmap_Some in Hic as (ic0 & Hic0 & ->).
  destruct (ss_inner _ _ _ _ _ (mk_ScanPlan (qs_name s) conds (Some [inner]) (Some (outer, inner))) outer inner a l oc ic0) as (R & HR & Hp); [|done..|cbn [sp_tab]; by rewrite <-Eb|done|done|].
  { split; [by exists m|cbn [sp_tab sp_conds]; by rewrite <-Eb|done|done]. }
  exists R, (same_key l oc ic0). cbn [eval_plan]. rewrite HR. cbn [mbind option_bind]. unfold bounded. cbn [sp_conds sp_tab] in Hp. rewrite <-Eb in Hp. rewrite decide_True.
  2:{ rewrite Hp. eapply Nat.le_lt_trans; [apply length_filter|]. eapply Nat.le_lt_trans; [apply length_where|done]. }
  split_and!; [done|done|]. intros r Hr He. rewrite eval_conds_Forall, Forall_forall in He. specialize (He c Hin). cbv beta in He. rewrite Hev in He. unfold same_key. cbn [cm_type shift_col] in He.
  assert (Z.of_nat (length l) = r_len a) as Ll by by apply well_formed_row. assert (Z.of_nat (length r) = r_len b) as Lr by by apply well_formed_row.
  destruct (find_col_Some _ _ _ Hoc) as [Hino _]. destruct (find_col_Some _ _ _ Hic0) as [Hini _]. pose proof (wf_cols _ Ha) as Fa. rewrite Forall_forall in Fa.
  rewrite (col_data_left a) in He by (try done; cbn [cm_type shift_col] in Hty; rewrite <-Hty; apply (Fa oc Hino)). by rewrite (col_data_right a b) in He.
Qed.

(** ** The loop over the tables *)

Definition weight (rels : list Relation) : nat := foldr (λ b n, (S (length (r_rows b)) * n)%nat) 1%nat rels.

Lemma weight_pos rels : (1 ≤ weight rels)%nat.
Proof. induction rels as [|b rels IH]; simpl; [lia|]. pose proof IH. nia. Qed.

(** A table with its source, its own conditions and its relation. *)
Definition todo_ok (x : bytes * option (QuerySource (res Plan)) * list Condition) (b : Relation) : Prop :=
  ∃ s, x.1.2 = Some s ∧ qs_name s = x.1.1 ∧ source_ok s b ∧ Forall (λ c, Forall (λ t, t = x.1.1) (cond_tabs c)) x.2.

Definition todo_names (todo : list (bytes * option (QuerySource (res Plan)) * list Condition)) : list bytes := (λ x, x.1.1) <$> todo.
Definition todo_conds (todo : list (bytes * option (QuerySource (res Plan)) * list Condition)) : list Condition := concat (snd <$> todo).

(** The columns of the product of [a] with relations of other tables begin with those of [a]. *)
Lemma cross_all_cols todo rels : Forall2 todo_ok todo rels → ∀ a, ∃ ds, r_cols (cross_all a rels) = r_cols a ++ ds ∧ Forall (λ c, cm_tab_name c ∈ todo_names todo) ds.
Proof.
  induction 1 as [|[[tab src] single] b todo rels Hx Hall IH]; intros a; [exists []; by rewrite app_nil_r|].
  destruct (IH (cross a b)) as (ds & E & Hds). exists ((shift_col (r_len a) <$> r_cols b) ++ ds). cbn [cross_all foldl]. change (foldl cross (cross a b) rels) with (cross_all (cross a b) rels). rewrite E. cbn [r_cols cross].
  split; [by rewrite app_assoc|]. apply Forall_app. destruct Hx as (s & _ & Hn & [_ Hc _] & _). simpl in Hn. split.
  - apply Forall_fmap. eapply Forall_impl; [exact Hc|]. intros c Hin%list_elem_of_singleton. simpl. rewrite Hin, Hn. by left.
  - eapply Forall_impl; [exact Hds|]. intros c Hin. by right.
Qed.

(** A condition on the tables of [a] finds its columns there. *)
Lemma cond_fits_prefix cs ds (tabs : list bytes) c : Forall (λ d, cm_tab_name d ∉ tabs) ds → Forall (λ t, t ∈ tabs) (cond_tabs c) → cond_fits (cs ++ ds) c → cond_fits cs c.
Proof.
  intros Hds Ht (l & Hl & Hr & Hv). assert (∀ x m, tc_tab_name x ∈ tabs → find_col (cs ++ ds) x = Some m → find_col cs x = Some m) as Hf.
  { intros x m Hx Hm. destruct (find_col cs x) as [m'|] eqn:E; [by rewrite (find_col_app_l _ _ _ _ E) in Hm|]. exfalso.
    assert (m ∈ ds) as Hin. { destruct (find_col_Some _ _ _ Hm) as ([Hc|]%elem_of_app & E1 & E2); [|done]. exfalso. unfold find_col in E. apply fmap_None, list_find_None in E.
      rewrite Forall_forall in E. by apply (E m Hc). }
    apply find_col_Some in Hm as (_ & E1 & _). rewrite Forall_forall in Hds. apply (Hds m Hin). by rewrite E1. }
  unfold cond_tabs in Ht. apply Forall_cons in Ht as [Ht1 Ht2]. exists l. split_and!; [by apply Hf| |done]. intros E. rewrite E in Ht2. apply Forall_cons in Ht2 as [Ht2 _].
  destruct (Hr E) as (r & Hfr & ? & ?). exists r. split; [by apply Hf|done].
Qed.

(** A condition that is left: between different tables that are not both joined. *)
Definition pending (joined : list bytes) (c : Condition) : Prop :=
  is_rhs_val c = false ∧ tc_tab_name (lhs_col c) ≠ tc_tab_name (rhs_col c) ∧ ¬ (tc_tab_name (lhs_col c) ∈ joined ∧ tc_tab_name (rhs_col c) ∈ joined).

Lemma cond_fits_tabs tabs a c : columns_of tabs a → cond_fits (r_cols a) c → Forall (λ t, t ∈ tabs) (cond_tabs c).
Proof.
  intros Ha (l & Hl & Hr & _). unfold columns_of in Ha. rewrite Forall_forall in Ha. unfold cond_tabs. apply find_col_Some in Hl as (Hin & E & _). constructor; [rewrite <-E; by apply Ha|].
  destruct (is_rhs_val c); [done|]. destruct (Hr eq_refl) as (r & Hf & _). apply find_col_Some in Hf as (Hin' & E' & _). constructor; [rewrite <-E'; by apply Ha|done].
Qed.

Lemma delivers_perm p c1 c2 a : c1 ≡ₚ c2 → delivers p c1 a → delivers p c2 a.
Proof. intros Hp [Hh (L & HL & Hrows)]. split; [done|]. exists L. split; [done|]. by rewrite <-Hp. Qed.

Lemma filter_both {A} (f : A → bool) l : filter (λ x, f x = true) l ++ filter (λ x, f x = false) l ≡ₚ l.
Proof.
  induction l as [|x l IH]; [done|]. rewrite !filter_cons. destruct (f x); simpl; [by rewrite IH|]. by rewrite <-Permutation_middle, IH.
Qed.

(** What [take_join_conds] takes is between the joined tables and the new one; what it leaves
    stays pending. *)
Lemma join_cond_tabs joined tab c : is_join_cond joined tab c = true → Forall (λ t, t ∈ joined ++ [tab]) (cond_tabs c).
Proof.
  unfold is_join_cond, table_in_list, cond_tabs. destruct (is_rhs_val c); [done|]. simpl.
  intros [[H1%bool_decide_eq_true_1 H2%bool_decide_eq_true_1]%andb_prop|[H1%bool_decide_eq_true_1 H2%bool_decide_eq_true_1]%andb_prop]%orb_prop;
    repeat constructor; set_solver.
Qed.

Lemma pending_left joined tab c : pending joined c → is_join_cond joined tab c = false → pending (joined ++ [tab]) c.
Proof.
  intros (Hv & Hd & Hn) Hj. split_and!; [done|done|]. unfold is_join_cond, table_in_list in Hj. rewrite Hv in Hj. simpl in Hj.
  apply orb_false_iff in Hj as [Hj1 Hj2]. rewrite !elem_of_app, !list_elem_of_singleton. intros [[H1|H1] [H2|H2]]; [by apply Hn|..|congruence].
  - by rewrite !bool_decide_eq_true_2 in Hj1.
  - by rewrite !bool_decide_eq_true_2 in Hj2.
Qed.

Lemma join_key_ok s joined cj b : source_ok s b →
  ∃ key, match qs_derived s with Some _ => Ok None | None => choose_inlj_key db (qs_name s) joined cj end = Ok key ∧
    (is_Some (qs_derived s) → key = None) ∧ key_cond joined (qs_name s) key cj.
Proof.
  intros [_ _ Hr]. destruct (qs_derived s) as [d|]; [by exists None|]. destruct Hr as [[m Hm] _]. destruct (choose_key_ok (qs_name s) joined cj m Hm) as (key & Hk & Hc).
  exists key. split_and!; [done|by intros []|done].
Qed.

Lemma join_tables_ok todo rels : Forall2 todo_ok todo rels → ∀ root joined a ca conds,
  well_formed a → columns_of joined a → NoDup (joined ++ todo_names todo) → todo = [] ∨ steady root = true →
  (S (length (r_rows a)) * weight rels < fuel)%nat →
  Forall (cond_fits (r_cols (cross_all a rels))) (ca ++ todo_conds todo ++ conds) → Forall (λ c, Forall (λ t, t ∈ joined) (cond_tabs c)) ca → Forall (pending joined) conds →
  (Forall usable (scans root) → delivers root ca a) →
  ∃ p, join_tables db root joined todo conds = Ok (p, []) ∧
    (Forall usable (scans p) → Forall usable (scans root) ∧ delivers p (ca ++ todo_conds todo ++ conds) (cross_all a rels)).
Proof.
  induction 1 as [|[[tab src] single] b todo rels Hx Hall IH]; intros root joined a ca conds Ha Hja Hnd Hst Hf Hfit Hca Hpend Hroot.
  - assert (conds = []) as ->.
    { destruct conds as [|c conds]; [done|]. exfalso. apply Forall_cons in Hpend as [(Hv & _ & Hn) _]. apply Forall_app in Hfit as [_ Hfit]. apply Forall_cons in Hfit as [Hfit _].
      pose proof (cond_fits_tabs joined a c Hja Hfit) as Ht. unfold cond_tabs in Ht. rewrite Hv in Ht. apply Forall_cons in Ht as [? Ht]. apply Forall_cons in Ht as [? _]. by apply Hn. }
    exists root. split; [done|]. intros Hu. split; [done|]. rewrite app_nil_r. by apply Hroot.
  - destruct Hst as [|Hst]; [done|]. destruct Hx as (s & Es & Hname & Hs & Hsingle). simpl in Es, Hname, Hsingle. subst src tab. cbn [join_tables take_join_conds].
    set (cj := filter (λ c, is_join_cond joined (qs_name s) c = true) conds). set (rest := filter (λ c, is_join_cond joined (qs_name s) c = false) conds).
    assert (cj ++ rest ≡ₚ conds) as Hsplit by apply filter_both. cbn [todo_names fmap list_fmap fst] in Hnd. fold (todo_names todo) in Hnd.
    assert (qs_name s ∉ joined) as Hnew by (apply NoDup_app in Hnd as (_ & H & _); intros Hin; apply (H _ Hin); by left).
    assert (NoDup ((joined ++ [qs_name s]) ++ todo_names todo)) as Hnd' by by rewrite <-app_assoc.
    assert ((ca ++ single ++ cj) ++ todo_conds todo ++ rest ≡ₚ ca ++ todo_conds ((qs_name s, Some s, single) :: todo) ++ conds) as Hperm.
    { unfold todo_conds. cbn [fmap list_fmap concat snd]. rewrite <-Hsplit. rewrite <-!app_assoc. apply Permutation_app_head, Permutation_app_head.
      rewrite (app_assoc cj), (Permutation_app_comm cj), <-app_assoc. done. }
    destruct (cross_all_cols todo rels Hall (cross a b)) as (ds & Hds & Hdt). cbn [cross_all foldl] in Hfit. change (foldl cross (cross a b) rels) with (cross_all (cross a b) rels) in Hfit.
    assert (Forall (λ d, cm_tab_name d ∉ joined ++ [qs_name s]) ds) as Hdn.
    { eapply Forall_impl; [exact Hdt|]. intros d Hd Hin. apply NoDup_app in Hnd' as (_ & H & _). by apply (H _ Hin). }
    assert (Forall (λ c, Forall (λ t, t ∈ joined ++ [qs_name s]) (cond_tabs c)) (ca ++ single ++ cj)) as Htabs.
    { rewrite !Forall_app. split_and!.
      - eapply Forall_impl; [exact Hca|]. intros c Hc. eapply Forall_impl; [exact Hc|]. intros t Ht. apply elem_of_app. by left.
      - eapply Forall_impl; [exact Hsingle|]. intros c Hc. eapply Forall_impl; [exact Hc|]. intros t ->. apply elem_of_app. right. by left.
      - apply Forall_forall. intros c [Hc _]%list_elem_of_filter. by apply join_cond_tabs. }
    assert (Forall (cond_fits (r_cols (cross a b))) (ca ++ single ++ cj)) as Hfit'.
    { rewrite <-Hperm, Hds in Hfit. apply Forall_app in Hfit as [Hfit0 _]. apply Forall_forall. intros c Hc. apply (cond_fits_prefix _ ds (joined ++ [qs_name s])); [done|..].
      - by apply (proj1 (Forall_forall _ _) Htabs).
      - by apply (proj1 (Forall_forall _ _) Hfit0). }
    assert (well_formed b) as Hb by apply Hs. pose proof (weight_pos rels) as Hw. cbn [weight foldr] in Hf. fold (weight rels) in Hf.
    destruct (join_key_ok s joined cj b Hs) as (key & Hkey & Hkd & Hkc). rewrite Hkey. cbn [mbind res_bind].
    assert (own_conds s b single) as Hown.
    { apply Forall_forall. intros c Hc. pose proof (proj1 (Forall_forall _ _) Hsingle c Hc) as Hc1. split; [|done]. apply (cond_fits_right joined a); [done| |].
      - eapply Forall_impl; [exact Hc1|]. by intros t ->.
      - apply (proj1 (Forall_forall _ _) Hfit'). set_solver. }
    destruct (source_inner s b cj single key joined a) as (right & Hright & Hdel); [done|done|nia|done..| |].
    { apply Forall_app in Hfit' as [_ H]. by apply Forall_app in H as [_ ?]. }
    rewrite Hright. cbn [mbind res_bind].
    destruct (IH (PJoin root right cj) (joined ++ [qs_name s]) (cross a b) (ca ++ single ++ cj) rest) as (p & Hp & Hres).
    + by apply well_formed_cross.
    + apply columns_of_cross; [done|apply Hs].
    + done.
    + by right.
    + rewrite length_cross. nia.
    + by rewrite Hperm.
    + done.
    + apply Forall_forall. intros c [Hc Hin]%list_elem_of_filter. rewrite Forall_forall in Hpend. by apply pending_left; [apply Hpend|].
    + cbn [scans]. intros [Hu1 Hu2]%Forall_app. apply (join_delivers _ _ _ _ _ joined); [done|apply Hs|done|done| | |nia|nia|by apply Hroot|by apply Hdel].
      * apply Forall_app in Hfit' as [Hfa _]. apply Forall_forall. intros c Hc.
        apply (cond_fits_prefix _ (shift_col (r_len a) <$> r_cols b) joined); [|by apply (proj1 (Forall_forall _ _) Hca)|by apply (proj1 (Forall_forall _ _) Hfa)]. apply Forall_fmap.
        destruct Hs as [_ Hcb _]. eapply Forall_impl; [exact Hcb|]. intros d Hd%list_elem_of_singleton. simpl. by rewrite Hd.
      * eapply Forall_impl; [exact Hsingle|]. intros c Hc. eapply Forall_impl; [exact Hc|]. by intros t ->.
    + exists p. split; [done|]. intros Hu. destruct (Hres Hu) as [Hr Hd]. cbn [scans] in Hr. apply Forall_app in Hr as [Hr _]. split; [done|].
      cbn [cross_all foldl]. by eapply delivers_perm; [exact Hperm|].
Qed.

(** ** The sources of a query *)

Definition cross_of (rels : list Relation) : Relation := match rels with [] => mk_Relation [] 0 [] | b :: bs => cross_all b bs end.

(** The source that is the left side of a join ends behind its last record. *)
Definition steady_first (sources : list (QuerySource (res Plan))) : Prop :=
  match sources with
  | s :: _ :: _ => match qs_derived s with Some (Ok p) => steady p = true | _ => True end
  | _ => True
  end.

(** Sources of different names with the relations [rels], conditions on their columns, and loops
    that are long enough for the products. *)
Record plannable (sources : list (QuerySource (res Plan))) (rels : list Relation) (conds : list Condition) : Prop := {
  pl_sources : Forall2 source_ok sources rels;
  pl_names : NoDup (qs_name <$> sources);
  pl_conds : Forall (cond_fits (r_cols (cross_of rels))) conds;
  pl_steady : steady_first sources;
  pl_fuel : (weight rels < fuel)%nat
}.

Lemma single_cond_tabs tab c : is_single_table_cond c tab = true → Forall (λ t, t = tab) (cond_tabs c).
Proof.
  unfold is_single_table_cond, cond_tabs. intros [H1%bool_decide_eq_true_1 H2]%andb_prop. destruct (is_rhs_val c); [by repeat constructor|].
  simpl in H2. apply bool_decide_eq_true_1 in H2. by repeat constructor.
Qed.

Lemma take_singles_ok tables : ∀ conds owns rest, take_singles tables conds = (owns, rest) →
  length owns = length tables ∧ concat owns ++ rest ≡ₚ conds ∧ Forall2 (λ tab, Forall (λ c, Forall (λ t, t = tab) (cond_tabs c))) tables owns ∧
  ∀ c, c ∈ rest → Forall (λ tab, is_single_table_cond c tab = false) tables.
Proof.
  induction tables as [|tab tables IH]; intros conds owns rest Ht; [by injection Ht as <- <-|]. cbn [take_singles take_single_table_conds] in Ht.
  destruct (take_singles tables _) as [owns' rest'] eqn:E. injection Ht as <- <-. destruct (IH _ _ _ E) as (Hl & Hp & Hs & Hr). split_and!.
  - simpl. by rewrite Hl.
  - cbn [concat]. rewrite <-app_assoc, Hp. apply filter_both.
  - constructor; [|done]. apply Forall_forall. intros c [Hc _]%list_elem_of_filter. by apply single_cond_tabs.
  - intros c Hc. constructor; [|by apply Hr]. assert (c ∈ filter (λ c, is_single_table_cond c tab = false) conds) as [? _]%list_elem_of_filter; [|done].
    rewrite <-Hp. apply elem_of_app. by right.
Qed.

Lemma sources_at_ok (sources : list (QuerySource (res Plan))) : sources_at (qs_name <$> sources) sources = Some <$> sources.
Proof.
  unfold sources_at. rewrite length_fmap. apply list_eq. intros i. rewrite !list_lookup_fmap. destruct (decide (i < length sources)%nat) as [Hi|Hi].
  - rewrite lookup_seq_lt by done. simpl. destruct (lookup_lt_is_Some_2 _ _ Hi) as [s ->]. done.
  - rewrite lookup_seq_ge by lia. by rewrite lookup_ge_None_2 by lia.
Qed.

Lemma zip_todo_ok sources rels : Forall2 source_ok sources rels → ∀ owns, Forall2 (λ tab, Forall (λ c, Forall (λ t, t = tab) (cond_tabs c))) (qs_name <$> sources) owns →
  let todo := zip (zip (qs_name <$> sources) (Some <$> sources)) owns in
  Forall2 todo_ok todo rels ∧ todo_names todo = qs_name <$> sources ∧ todo_conds todo = concat owns.
Proof.
  induction 1 as [|s b sources rels Hs Hall IH]; intros owns Ho; inversion Ho as [|? own ? owns' Hown Ho']; subst; [done|].
  destruct (IH owns' Ho') as (H1 & H2 & H3). cbn [fmap list_fmap zip zip_with]. split_and!.
  - constructor; [|done]. by exists s.
  - unfold todo_names in *. cbn [fmap list_fmap fst]. by rewrite H2.
  - unfold todo_conds in *. cbn [fmap list_fmap snd concat]. by rewrite H3.
Qed.

Lemma cross_of_columns todo rels : Forall2 todo_ok todo rels → columns_of (todo_names todo) (cross_of rels).
Proof.
  destruct 1 as [|x b todo rels Hx Hall]; [constructor|]. cbn [cross_of]. unfold columns_of. destruct (cross_all_cols _ _ Hall b) as (ds & -> & Hds). apply Forall_app.
  destruct Hx as (s & _ & Hn & [_ Hc _] & _). split.
  - eapply Forall_impl; [exact Hc|]. intros c Hin%list_elem_of_singleton. rewrite Hin, Hn. by left.
  - eapply Forall_impl; [exact Hds|]. intros c Hin. by right.
Qed.

(** A condition that no table takes for itself is between two tables. *)
Lemma rest_pending (tables : list bytes) tab c : Forall (λ t, t ∈ tables) (cond_tabs c) → Forall (λ t, is_single_table_cond c t = false) tables → pending [tab] c.
Proof.
  intros Ht Hs. unfold cond_tabs in Ht. apply Forall_cons in Ht as [Ht1 Ht2]. rewrite Forall_forall in Hs. specialize (Hs _ Ht1). unfold is_single_table_cond in Hs.
  rewrite bool_decide_eq_true_2 in Hs by done. simpl in Hs. apply orb_false_iff in Hs as [Hv Hd%bool_decide_eq_false_1]. split_and!; [done|congruence|].
  rewrite !list_elem_of_singleton. intros [E1 E2]. congruence.
Qed.

Lemma make_one_rel_ok sources rels conds : sources ≠ [] → plannable sources rels conds →
  ∃ p, make_one_rel db (qs_name <$> sources) sources conds = Ok p ∧ (Forall usable (scans p) → delivers p conds (cross_of rels)).
Proof.
  intros Hne [Hs Hnd Hfit Hst Hf]. unfold make_one_rel. destruct (take_singles _ conds) as [owns rest] eqn:Et. destruct (take_singles_ok _ _ _ _ Et) as (_ & Hperm & Hown & Hrest).
  rewrite sources_at_ok. destruct (zip_todo_ok sources rels Hs owns Hown) as (Htodo & Hnames & Htc). pose proof (cross_of_columns _ _ Htodo) as Hcols. rewrite Hnames in Hcols.
  destruct Hs as [|s b sources rels Hs Hall]; [done|]. cbn [fmap list_fmap] in *. inversion Hown as [|? own ? owns' Hown0 Hown']; subst owns. cbn [zip zip_with] in *.
  inversion Htodo as [|? ? ? ? Hx Htodo']; subst. pose proof (weight_pos rels) as Hw. cbn [weight foldr] in Hf. fold (weight rels) in Hf.
  assert (own_conds s b own) as Hoc.
  { apply Forall_forall. intros c Hc. pose proof (proj1 (Forall_forall _ _) Hown0 c Hc) as Hc1. split; [|done]. destruct (cross_all_cols _ _ Htodo' b) as (ds & Eds & Hds).
    cbn [cross_of] in Hfit. rewrite Eds in Hfit. apply (cond_fits_prefix _ ds [qs_name s]).
    - eapply Forall_impl; [exact Hds|]. intros d Hd Ed%list_elem_of_singleton. unfold todo_names in Hnames. cbn [fmap list_fmap fst] in Hnames. injection Hnames as Hnames.
      unfold todo_names in Hd. cbv beta in Hd. rewrite Hnames, Ed in Hd. by inversion Hnd.
    - eapply Forall_impl; [exact Hc1|]. intros t ->. by left.
    - apply (proj1 (Forall_forall _ _) Hfit). rewrite <-Hperm. cbn [concat]. set_solver. }
  destruct (source_alone s b own) as (root & Hroot & Hdel); [done|done|nia|]. rewrite Hroot. cbn [mbind res_bind].
  unfold todo_names in Hnames. cbn [fmap list_fmap fst] in Hnames. injection Hnames as Hnames. unfold todo_conds in Htc. cbn [fmap list_fmap snd concat] in Htc. apply app_inv_head in Htc.
  set (todo := zip_with pair _ _) in *. fold (todo_names todo) in Hnames. fold (todo_conds todo) in Htc.
  assert (own ++ todo_conds todo ++ rest ≡ₚ conds) as Hp by (rewrite Htc, <-Hperm; cbn [concat]; by rewrite <-app_assoc).
  destruct (join_tables_ok todo rels Htodo' root [qs_name s] b own rest) as (p & Hjoin & Hres).
  - apply Hs.
  - apply Hs.
  - cbn [app]. by rewrite Hnames.
  - destruct sources as [|s2 sources].
    + left. by destruct todo.
    + right. unfold steady_first in Hst. unfold build_source_scan_plan, build_source_plan in Hroot. cbn [mbind option_bind] in Hroot. destruct (qs_derived s) as [[d|]|] eqn:Ed; cbn [mbind res_bind] in Hroot.
      * injection Hroot as <-. by destruct own.
      * done.
      * destruct (get_index_cols db (qs_name s) own); [|done]. simpl in Hroot. destruct (get_table db (qs_name s)); [|done]. by injection Hroot as <-.
  - done.
  - rewrite Hp. done.
  - eapply Forall_impl; [exact Hown0|]. intros c Hc. eapply Forall_impl; [exact Hc|]. intros t ->. by left.
  - apply Forall_forall. intros c Hc. apply (rest_pending (qs_name s :: (qs_name <$> sources))); [|by apply Hrest]. eapply cond_fits_tabs; [exact Hcols|].
    rewrite Forall_forall in Hfit. apply Hfit. rewrite <-Hp. set_solver.
  - done.
  - rewrite Hjoin. cbn [mbind res_bind]. eexists. split; [reflexivity|]. cbn [push_all foldl]. intros Hu. destruct (Hres Hu) as [_ Hd]. by eapply delivers_perm; [exact Hp|].
Qed.

(** ** Behind the joins *)

(** Grouping, order, limit and projection of the records [l] of a query. *)
Definition finish_rows (q : Query) (x : list ColMeta * Z) (l : list record) : option (list record) :=
  '(x, l) ← (if q_aggregate q then
               l ← aggregate x (q_terms q) (q_calls q) (q_groups q) (q_having q) l ≫= bounded fuel;
               Some ((agg_cols (q_terms q) 0, agg_len (q_terms q)), l)
             else Some (x, l));
  l ← match q_order q with [] => Some l | _ => order ← mapM (find_order x.1) (q_order q); Some (stable_sort (order_less order) l) end;
  let l := if decide (0 ≤ q_limit q) then take (Z.to_nat (q_limit q)) l else l in
  match select_cols x.1 (q_cols q) 0 with Ok sel => Some (project sel (sel_len sel) <$> (l : list record)) | Err _ => None end.

Lemma finish_plan_eval q p x l : hdr p = Some x → (∀ b, eval b p = Some l) → ∀ b, eval b (finish_plan q p) = finish_rows q x l.
Proof.
  intros Hh He b. unfold finish_plan, finish_rows.
  set (p1 := if q_aggregate q then _ else p). assert (∃ o, hdr p1 = Some (if q_aggregate q then (agg_cols (q_terms q) 0, agg_len (q_terms q)) else x) ∧ (∀ b, eval b p1 = o) ∧
    (if q_aggregate q then l ← aggregate x (q_terms q) (q_calls q) (q_groups q) (q_having q) l ≫= bounded fuel; Some ((agg_cols (q_terms q) 0, agg_len (q_terms q)), l) else Some (x, l)) =
    l' ← o; Some (if q_aggregate q then (agg_cols (q_terms q) 0, agg_len (q_terms q)) else x, l')) as (o & Hh1 & He1 & ->).
  { unfold p1. destruct (q_aggregate q).
    - eexists. split_and!; [reflexivity| |reflexivity]. intros b0. cbn [eval_plan]. by rewrite Hh, He.
    - exists (Some l). by rewrite Hh. }
  set (x1 := if q_aggregate q then _ else x) in *. clearbody p1 x1. clear Hh He p x l. cbn [eval_plan].
  set (p2 := generate_sort_plan (q_order q) p1). assert (hdr p2 = Some x1) as Hh2 by (unfold p2, generate_sort_plan; by destruct (q_order q)).
  assert (∀ b, eval b p2 = l ← o; match q_order q with [] => Some l | _ => order ← mapM (find_order x1.1) (q_order q); Some (stable_sort (order_less order) l) end) as He2.
  { intros b0. unfold p2, generate_sort_plan. destruct (q_order q) as [|o1 os] eqn:Eo; [rewrite He1; by destruct o|]. cbn [eval_plan]. rewrite Hh1. cbn [mbind option_bind]. rewrite He1.
    destruct o; cbn [mbind option_bind]; by destruct (mapM _ _). }
  clearbody p2. set (p3 := if decide (0 ≤ q_limit q) then _ else p2). assert (hdr p3 = Some x1) as Hh3 by (unfold p3; by case_decide). rewrite Hh3. cbn [mbind option_bind].
  assert (∀ b, eval b p3 = l ← eval b p2; Some (if decide (0 ≤ q_limit q) then take (Z.to_nat (q_limit q)) l else l)) as ->.
  { intros b0. unfold p3. case_decide; [cbn [eval_plan]; by rewrite !He2|]. by destruct (eval b0 p2). }
  rewrite He2. destruct o as [l|]; [|done]. cbn [mbind option_bind]. by destruct (match q_order q with [] => _ | _ => _ end).
Qed.

Lemma scans_finish q p : scans (finish_plan q p) = scans p.
Proof. unfold finish_plan, generate_sort_plan. cbn [scans]. case_decide; cbn [scans]; destruct (q_order q); cbn [scans]; by destruct (q_aggregate q). Qed.

(** The plan of a query over the relations of its sources. *)
Lemma select_plan_ok q rels : q_union q = [] → q_sources q ≠ [] → q_tables q = qs_name <$> q_sources q →
  plannable (plan_source (make_query_plan db) <$> q_sources q) rels (q_conds q) →
  ∃ p, generate_select_plan db q = Ok p ∧ (Forall usable (scans p) →
    ∃ l, l ≡ₚ where_rows (q_conds q) (cross_of rels) ∧ ∀ b, eval b p = finish_rows q (r_cols (cross_of rels), r_len (cross_of rels)) l).
Proof.
  intros Hu Hne Ht Hpl. assert (qs_name <$> q_sources q = qs_name <$> (plan_source (make_query_plan db) <$> q_sources q)) as En.
  { rewrite <-list_fmap_compose. apply list_fmap_ext. by intros i [n d c] _. }
  destruct (make_one_rel_ok (plan_source (make_query_plan db) <$> q_sources q) rels (q_conds q)) as (p & Hp & Hd); [by destruct (q_sources q)|done|].
  exists (finish_plan q p). split.
  - destruct q as [conds cols terms calls groups having order output sources union aggregate limit tables]. simpl in Hu, Ht. subst union tables. cbn [generate_select_plan].
    change (map (plan_source (make_query_plan_with (generate_select_plan db))) sources) with (plan_source (make_query_plan db) <$> sources).
    simpl in En, Hp. rewrite En. setoid_rewrite Hp. done.
  - rewrite scans_finish. intros Hus. destruct (Hd Hus) as [Hh (L & HL & Hrows)]. exists L. split; [done|]. by apply finish_plan_eval.
Qed.
End facts.
End PlannerFacts.
