(* ===== verification/AnalyzeFacts.v ===== *)
(** * What the analyzer accepts

    The queries that analysis returns are well typed: their columns exist in the sources, values
    and compared columns have the types of their columns, aggregate calls and terms refer to each
    other.  Well-typed queries have results: grouping, sorting and projection find what they
    need. *)

From Stdlib Require Import SpecFloat.
From S2P Require Import Prelude RecordFile Recovery Conditions LockManager Mvcc IndexKeys Executor ExecutorSort Aggregate LongDouble AggregateFacts Scans Portal Dml Planner Analyze ScanBounds PortalFacts Relations PlannerFacts.

Module AnalyzeFacts.
Import Cond Mvcc Exec Agg LongDouble Scans Portal Dml Rel Planner PlannerFacts Analyze.

(** ** Integers as floats *)

Abbreviation dig p := (Zpos (digits2_pos p)).

Lemma shr_div n : ∀ r, 0 ≤ shr_m r → shr_m (Nat.iter n shr_1 r) = shr_m r / 2 ^ Z.of_nat n.
Proof.
  induction n as [|n IH]; intros r Hr; [simpl; by rewrite Z.div_1_r|]. change (Nat.iter (S n) shr_1 r) with (shr_1 (Nat.iter n shr_1 r)).
  assert (∀ r, 0 ≤ shr_m r → shr_m (shr_1 r) = shr_m r / 2) as H1.
  { intros [m a b] Hm. simpl in Hm. unfold shr_1. destruct m as [|[p|p|]|p]; try lia; cbn [shr_m]; [done| | |done].
    - change (Zpos p~1) with (2 * Zpos p + 1). by rewrite Z.add_comm, Z.mul_comm, Z.div_add by lia.
    - change (Zpos p~0) with (2 * Zpos p). by rewrite Z.mul_comm, Z.div_mul by lia. }
  rewrite H1 by (rewrite IH by done; apply Z.div_pos; lia). rewrite IH by done. rewrite Nat2Z.inj_succ, Z.pow_succ_r by lia.
  rewrite Z.div_div by lia. f_equal. lia.
Qed.

(** A mantissa of at least 24 bits is cut to 24 bits. *)
Lemma shr_fexp_24 m e : 24 ≤ dig m → -100 ≤ dig m + e → ∃ r,
  shr_fexp 24 128 (Zpos m) e loc_Exact = (r, e + (dig m - 24)) ∧ 8388608 ≤ shr_m r < 16777216.
Proof.
  intros Hd He. unfold shr_fexp, fexp, emin. cbn [Zdigits2 shr_record_of_loc].
  replace (Z.max (dig m + e - 24) (3 - 128 - 24) - e) with (Z.of_nat (Z.to_nat (dig m - 24))) by lia. assert (Z.of_nat (Z.to_nat (dig m - 24)) = dig m - 24) as Hn by lia. generalize dependent (Z.to_nat (dig m - 24)). intros n Hn.
  pose proof (dig_bounds m) as [Hlo Hhi]. exists (Nat.iter n shr_1 (Build_shr_record (Zpos m) false false)). split.
  - destruct n as [|k].
    + change (Z.of_nat 0) with 0 in *. cbn [shr]. change (Nat.iter 0 shr_1 ?x) with x. f_equal. lia.
    + change (Z.of_nat (S k)) with (Zpos (Pos.of_succ_nat k)) in *. cbn [shr]. rewrite iter_pos_nat, SuccNat2Pos.id_succ. f_equal. lia.
  - rewrite shr_div by done. cbn [shr_m]. replace (dig m - 1) with (23 + Z.of_nat n) in Hlo by lia. replace (dig m) with (24 + Z.of_nat n) in Hhi by lia.
    rewrite Z.pow_add_r in Hlo, Hhi by lia. change (2 ^ 23) with 8388608 in Hlo. change (2 ^ 24) with 16777216 in Hhi. split.
    + apply Z.div_le_lower_bound; lia.
    + apply Z.div_lt_upper_bound; lia.
Qed.

Lemma round_even_cases m l : round_nearest_even m l = m ∨ round_nearest_even m l = m + 1.
Proof. destruct l as [|[]]; simpl; auto. destruct (Z.even m); auto. Qed.

Lemma round_aux_24 s m e : 24 ≤ dig m → -50 ≤ dig m + e ≤ 100 → ∃ m' e',
  binary_round_aux 24 128 s (Zpos m) e loc_Exact = S754_finite s m' e' ∧ 8388608 ≤ Zpos m' < 16777216 ∧ e + (dig m - 24) ≤ e' ≤ e + (dig m - 24) + 1.
Proof.
  intros Hd He. unfold binary_round_aux. destruct (shr_fexp_24 m e) as (r & -> & Hr); [lia..|].
  set (m1 := round_nearest_even _ _). assert (8388608 ≤ m1 ≤ 16777216) as Hm1 by (destruct (round_even_cases (shr_m r) (loc_of_shr_record r)) as [E|E]; unfold m1; rewrite E; lia).
  destruct m1 as [|p|p]; try lia. assert (24 ≤ dig p ≤ 25) as Hp.
  { pose proof (dig_bounds p) as [Hlo Hhi]. split; [|apply dig_le; lia]. destruct (Z.le_gt_cases 24 (dig p)) as [|Hlt]; [done|].
    assert (2 ^ dig p ≤ 2 ^ 23) by (apply Z.pow_le_mono_r; lia). lia. }
  destruct (shr_fexp_24 p (e + (dig m - 24))) as (r2 & -> & Hr2); [lia..|]. destruct (shr_m r2) as [|m'|m']; try lia.
  exists m', (e + (dig m - 24) + (dig p - 24)). rewrite (proj2 (Z.leb_le _ _)) by lia. split_and!; [done|lia..].
Qed.

Lemma round_24 s p : dig p ≤ 33 → ∃ m e, binary_round 24 128 s p 0 = S754_finite s m e ∧ 8388608 ≤ Zpos m < 16777216 ∧ -24 ≤ e ≤ 10.
Proof.
  intros Hd. unfold binary_round, fexp, emin. replace (Z.max (dig p + 0 - 24) (3 - 128 - 24)) with (dig p - 24) by lia. unfold shl_align.
  destruct (decide (dig p < 24)) as [Hlt|Hge].
  - replace (dig p - 24 - 0) with (Zneg (Z.to_pos (24 - dig p))) by lia. unfold shift_pos. rewrite iter_scale. set (k := Pos.to_nat (Z.to_pos (24 - dig p))).
    destruct (round_aux_24 s (scale p k) (dig p - 24)) as (m & e & -> & Hm & He); rewrite ?dig_scale in *; [unfold k; lia..|].
    exists m, e. split_and!; [done|lia..].
  - destruct (dig p - 24 - 0) as [|d|d] eqn:Ed; [| |lia]; (destruct (round_aux_24 s p 0) as (m & e & -> & Hm & He); [lia..|]; exists m, e; split_and!; [done|lia..]).
Qed.

(** An [int] as a [float] is a number. *)
Lemma float_of_int_not_nan z : INT_MIN ≤ z ≤ INT_MAX → not_nan (dec_u32 (enc_int 4 (bits_of_float (float_of_int z)))).
Proof.
  unfold INT_MIN, INT_MAX. intros Hz. assert (∃ b, bits_of_float (float_of_int z) = b ∧ 0 ≤ b < 4294967296 ∧ b mod 2147483648 ≤ 2139095040) as (b & -> & Hb & Hn).
  { eexists. split; [reflexivity|]. unfold float_of_int. destruct z as [|p|p]; [simpl; split; [lia|vm_compute; congruence]|..]; cbn [binary_normalize];
      (destruct (round_24 false p) as (m & e & E & Hm & He); [apply dig_le; lia|]); (destruct (round_24 true p) as (m' & e' & E' & Hm' & He'); [apply dig_le; lia|]).
    - rewrite E. unfold bits_of_float. rewrite decide_False by lia. rewrite Z.mod_small by lia. lia.
    - rewrite E'. unfold bits_of_float. rewrite decide_False by lia. split; [lia|].
      replace (2147483648 + ((e' + 150) * 8388608 + (Zpos m' - 8388608))) with ((e' + 150) * 8388608 + (Zpos m' - 8388608) + 1 * 2147483648) by lia.
      rewrite Z.mod_add, Z.mod_small by lia. lia. }
  unfold not_nan. rewrite dec_enc_u32; [done|]. unfold is_uint32. lia.
Qed.

(** ** Typing *)

(** Literals as the parser makes them: integers in range, floats that are numbers, strings
    without zero bytes. *)
Definition lit_ok (l : Lit) : Prop :=
  match l with
  | IntLit z => INT_MIN ≤ z ≤ INT_MAX
  | FloatLit b => length b = 4%nat ∧ not_nan (dec_u32 b)
  | StringLit s => ScanBounds.nonzero s
  | BoolLit _ => True
  end.
Definition rhs_ok (e : Expr) : Prop := match e with ELit l => lit_ok l | _ => True end.

Section typing.
Context (cs : list ColMeta).

(** The columns exist and have one type, or the value has the type of the column. *)
Definition typed_cond (c : Condition) : Prop :=
  ∃ l, find_col cs (lhs_col c) = Some l ∧
    (is_rhs_val c = false → ∃ r, find_col cs (rhs_col c) = Some r ∧ cm_type l = cm_type r) ∧
    (is_rhs_val c = true → ScanBounds.value_ok (cm_type l) (cm_len l) (rhs_val c)).

(** The type of the result by that of the argument; only numbers are added up. *)
Definition typed_call (c : AggCall) : Prop :=
  (ac_type c = AGG_COUNT ∧ ac_star c = true ∧ result_type c = TYPE_INT) ∨
  ac_star c = false ∧ ∃ m, find_col cs (ac_col c) = Some m ∧
    match ac_type c with
    | AGG_COUNT => result_type c = TYPE_INT
    | AGG_MAX | AGG_MIN => result_type c = cm_type m
    | AGG_SUM => result_type c = cm_type m ∧ cm_type m ≠ TYPE_STRING
    | AGG_AVG => result_type c = TYPE_FLOAT ∧ cm_type m ≠ TYPE_STRING
    end.

Definition typed_term (calls : list AggCall) (t : SelectTerm) : Prop :=
  if is_agg t then 0 ≤ st_idx t ∧ ∃ c, calls !! Z.to_nat (st_idx t) = Some c ∧ st_type t = result_type c
  else ∃ m, find_col cs (st_col t) = Some m ∧ st_type t = cm_type m ∧ st_len t = cm_len m.

(** A term of HAVING has the type [ty]. *)
Definition has_type (calls : list AggCall) (groups : list TabCol) (t : AggTerm) (ty : ColType) : Prop :=
  match t with
  | AGG_TERM_COL c => c ∈ groups ∧ ∃ m, find_col cs c = Some m ∧ ty = cm_type m
  | AGG_TERM_AGG i => 0 ≤ i ∧ ∃ c, calls !! Z.to_nat i = Some c ∧ ty = result_type c
  | AGG_TERM_VALUE v => ty = tv_type v
  end.
Definition typed_having (calls : list AggCall) (groups : list TabCol) (h : AggHavingCond) : Prop :=
  ∃ lty rty, has_type calls groups (hc_lhs h) lty ∧ has_type calls groups (hc_rhs h) rty ∧ (lty = rty ∨ is_number lty ∧ is_number rty).

(** A query is well typed for the columns of its sources.  Without aggregation the result has
    columns of the sources, up to their names; with aggregation it has those of the terms, and
    plain columns are grouped. *)
Record well_typed (q : Query) : Prop := {
  wt_conds : Forall typed_cond (q_conds q);
  wt_groups : Forall (λ g, is_Some (find_col cs g)) (q_groups q);
  wt_calls : Forall typed_call (q_calls q);
  wt_terms : Forall (typed_term (q_calls q)) (q_terms q);
  wt_having : Forall (typed_having (q_calls q) (q_groups q)) (q_having q);
  wt_grouped : q_aggregate q = true → Forall (λ t, is_agg t = false → st_col t ∈ q_groups q) (q_terms q) ∧
    q_cols q = (λ t, mk_TabCol agg_tab (output_name t)) <$> q_terms q;
  wt_plain : q_aggregate q = false → q_groups q = [] ∧ q_having q = [] ∧ Forall (λ t, is_agg t = false) (q_terms q) ∧
    (q_cols q = ((λ c, mk_TabCol (cm_tab_name c) (cm_name c)) <$> cs) ∨ q_cols q = (λ t, mk_TabCol (tc_tab_name (st_col t)) (output_name t)) <$> q_terms q);
  wt_order : q_aggregate q = false → Forall (λ o, is_Some (find_col cs (ob_col o))) (q_order q)
}.
End typing.

(** ** Analysis is sound *)

Section sound.
Context (sc : Scope).
Abbreviation cs := (all_cols sc).

Lemma resolve_found c tc : resolve_col sc c = Ok tc → is_Some (find_col cs tc) ∧ tc_col_name tc = tc_col_name c.
Proof. intros H. unfold resolve_col in H. apply res_bind_ok in H as (real & _ & H). case_decide as Hd; [|done]. by injection H as <-. Qed.

Lemma meta_found tc m : get_col_meta sc tc = Ok m → find_col cs tc = Some m.
Proof. intros H. by apply require_ok in H. Qed.

Lemma value_fits l v ty len v' : lit_ok l → convert_sv_value l = Ok v → convert_number ty v = Ok v' → check_raw len v' = Ok tt → ty = tv_type v' →
  ScanBounds.value_ok ty len (tv_val v').
Proof.
  intros Hl Hv Hc Hr Ht. destruct l as [z|b|s|b]; [| | |done]; injection Hv as <-; destruct ty; cbn in Hc; try done.
  - by injection Hc as <-.
  - injection Hc as <-. split; [done|]. apply float_of_int_not_nan. cbn. unfold int_of. cbn [lit_ok] in Hl. rewrite dec_enc_i32; [done|]. unfold is_int32, INT_MIN, INT_MAX in *. change (2 ^ 31) with 2147483648 in *. lia.
  - by injection Hc as <-.
  - apply res_bind_ok in Hc as (z & _ & [= <-]). done.
  - by injection Hc as <-.
  - by injection Hc as <-.
  - by injection Hc as <-.
  - by injection Hc as <-.
  - injection Hc as <-. split; [exact Hl|]. unfold check_raw in Hr. cbn in Hr. case_decide; [done|]. cbn. lia.
Qed.

Lemma cond_sound e r c : rhs_ok (be_rhs e) → resolve_cond sc e = Ok r → check_cond sc r = Ok c → typed_cond cs c.
Proof.
  intros Hl Hr Hc. unfold resolve_cond in Hr. case_decide; [done|]. apply res_bind_ok in Hr as (lhs & Hlhs & Hr). apply res_bind_ok in Hr as (rhs & Hrhs & [= <-]).
  apply res_bind_ok in Hc as (lm & Hlm & Hc). apply res_bind_ok in Hc as (rhs' & Hrhs' & Hc). apply meta_found in Hlm.
  destruct (be_rhs e) as [l|rc|a|]; try done; apply res_bind_ok in Hrhs as (v & Hv & [= <-]); cbn in Hrhs'.
  - injection Hrhs' as <-. unfold check_types in Hc. apply res_bind_ok in Hc as (v' & Hv' & Hc). apply res_bind_ok in Hc as ([] & Hraw & Hc). case_decide as Ht; [|done].
    injection Hc as <-. exists lm. split_and!; [done|done|]. intros _. by eapply value_fits.
  - apply res_bind_ok in Hrhs' as (rm & Hrm & [= <-]). apply meta_found in Hrm. cbn in Hc. case_decide as Ht; [|done]. injection Hc as <-. exists lm.
    split_and!; [done| |done]. intros _. by exists rm.
Qed.

Lemma conds_sound es rs conds : Forall (λ e, rhs_ok (be_rhs e)) es → mapM (resolve_cond sc) es = Ok rs → mapM (check_cond sc) rs = Ok conds → Forall (typed_cond cs) conds.
Proof.
  rewrite !mapM_ok. intros Hl H1. revert conds. induction H1 as [|e r es rs He H1 IH]; intros conds H2; [by apply Forall2_nil_inv_l in H2 as ->|].
  apply Forall2_cons_inv_l in H2 as (c & conds' & Hc & H2 & ->). apply Forall_cons in Hl as [Hl1 Hl]. constructor; [by eapply cond_sound|by apply IH].
Qed.

(** *** Aggregate calls *)

(** A call with its length. *)
Definition call_ok (c : CallMeta) : Prop := typed_call cs (cl_call c).

Lemma make_call_ok a c : make_call sc a = Ok c → call_ok c.
Proof.
  intros H. unfold make_call in H. apply res_bind_ok in H as ([[col ty] len] & Ha & H). destruct (ae_star a) eqn:Es.
  - injection Ha as <- <- <-. destruct (ae_func a); cbn in H; try done. injection H as <-. left. done.
  - apply res_bind_ok in Ha as (c0 & _ & Ha). apply res_bind_ok in Ha as (tc & Htc & Ha). apply res_bind_ok in Ha as (m & Hm & [= <- <- <-]). apply meta_found in Hm.
    unfold call_ok, typed_call. destruct (ae_func a), (cm_type m) eqn:Et; cbn in H; try done; injection H as <-; right; (split; [done|]; exists m; split; [done|]; cbn; rewrite ?Et; done).
Qed.

(** Calls are only added, and the index is that of a call. *)
Lemma add_call_ok calls a i calls' : Forall call_ok calls → add_agg_call sc calls a = Ok (i, calls') →
  Forall call_ok calls' ∧ calls `prefix_of` calls' ∧ is_Some (calls' !! i).
Proof.
  intros Hok H. apply res_bind_ok in H as (c & Hc & H). destruct (list_find _ calls) as [[j c']|] eqn:Ef; injection H as <- <-.
  - split_and!; [done|done|]. apply list_find_Some in Ef as [Hj _]. by eexists.
  - split_and!; [|by apply prefix_app_r|exists c; by rewrite lookup_app_r, Nat.sub_diag by done]. apply Forall_app_2; [done|]. apply Forall_singleton. by eapply make_call_ok.
Qed.

(** *** The select list *)

Lemma typed_term_prefix l k t : l `prefix_of` k → typed_term cs (cl_call <$> l) t → typed_term cs (cl_call <$> k) t.
Proof.
  intros [k' ->] Ht. unfold typed_term in *. destruct (is_agg t); [|done]. destruct Ht as (Hi & c & Hc & Hty). split; [done|]. exists c. split; [|done].
  rewrite fmap_app. by apply lookup_app_l_Some.
Qed.

(** The state of the loop over the items. *)
Record items_ok (groups : list TabCol) (st : SelectState) : Prop := {
  io_calls : Forall call_ok (calls st);
  io_terms : Forall (typed_term cs (cl_call <$> calls st)) (terms st);
  io_names : tc_col_name <$> out_cols st = output_name <$> terms st;
  io_plain : has_aggregate st = false → Forall (λ t, is_agg t = false) (terms st);
  io_tabs : has_aggregate st = false → groups = [] → out_cols st = (λ t, mk_TabCol (tc_tab_name (st_col t)) (output_name t)) <$> terms st
}.

Lemma add_item_ok groups st item st' : items_ok groups st → add_item sc groups st item = Ok st' → items_ok groups st'.
Proof.
  intros [H1 H2 H3 H4 H5] H. apply res_bind_ok in H as ([[term calls'] agg] & Ht & [= <-]).
  assert (Forall call_ok calls' ∧ calls st `prefix_of` calls' ∧ typed_term cs (cl_call <$> calls') term ∧
    (agg = false → has_aggregate st = false ∧ is_agg term = false)) as (Hc & Hp & Hty & Ha).
  { destruct (si_expr item) as [l|c|a|]; try done.
    - apply res_bind_ok in Ht as (tc & Htc & Ht). apply res_bind_ok in Ht as (m & Hm & [= <- <- <-]). apply meta_found in Hm. split_and!; try done. by exists m.
    - apply res_bind_ok in Ht as ([i cs'] & Hadd & Ht). apply res_bind_ok in Ht as (call & Hcall & [= <- <- <-]). apply require_ok in Hcall.
      destruct (add_call_ok _ _ _ _ H1 Hadd) as (Hc & Hp & _). split_and!; try done. cbn [typed_term is_agg st_idx st_type]. split; [lia|]. exists (cl_call call).
      by rewrite Nat2Z.id, list_lookup_fmap, Hcall. }
  split; cbn [calls terms out_cols has_aggregate].
  - done.
  - apply Forall_app_2; [|by apply Forall_singleton]. eapply Forall_impl; [exact H2|]. intros t. by apply typed_term_prefix.
  - rewrite !fmap_app. by rewrite H3.
  - intros [Ea Et]%Ha. apply Forall_app_2; [by apply H4|by apply Forall_singleton].
  - intros Eagg ->. destruct (Ha Eagg) as [Ea _]. subst agg. rewrite fmap_app. by rewrite H5.
Qed.

Lemma add_items_ok groups items : ∀ st st', items_ok groups st → add_items sc groups st items = Ok st' → items_ok groups st'.
Proof.
  induction items as [|item items IH]; intros st st' Hst H; cbn [add_items] in H; [by injection H as <-|].
  apply res_bind_ok in H as (st1 & H1 & H2). eapply IH; [|exact H2]. by eapply add_item_ok.
Qed.

Lemma group_contains_spec groups c : group_contains groups c = true ↔ c ∈ groups.
Proof.
  unfold group_contains. rewrite existsb_exists. split.
  - intros (g & Hg & H). apply andb_true_iff in H as [H1%bool_decide_eq_true H2%bool_decide_eq_true]. apply list_elem_of_In in Hg. destruct g, c. simpl in *. by subst.
  - intros Hc. exists c. split; [by apply list_elem_of_In|]. by rewrite !bool_decide_eq_true_2.
Qed.

Lemma check_aggregate_ok groups st st' : check_aggregate groups st = Ok st' →
  calls st' = calls st ∧ terms st' = terms st ∧ has_aggregate st' = has_aggregate st ∧
  if has_aggregate st then Forall (λ t, is_agg t = false → st_col t ∈ groups) (terms st) ∧ out_cols st' = (λ c, mk_TabCol agg_tab (tc_col_name c)) <$> out_cols st
  else out_cols st' = out_cols st.
Proof.
  unfold check_aggregate. destruct (has_aggregate st) eqn:Ea; [|by intros [= <-]]. destruct (forallb _ _) eqn:Ef; [|done]. intros [= <-]. split_and!; try done.
  rewrite List.forallb_forall in Ef. apply Forall_forall. intros t Hin Hp. apply list_elem_of_In in Hin. specialize (Ef t Hin). cbv beta in Ef. rewrite Hp in Ef.
  by apply group_contains_spec.
Qed.

(** *** HAVING *)

Lemma has_type_prefix l k groups t ty : l `prefix_of` k → has_type cs (cl_call <$> l) groups t ty → has_type cs (cl_call <$> k) groups t ty.
Proof.
  intros [k' ->] Ht. destruct t; try done. destruct Ht as (Hi & c & Hc & Hty). split; [done|]. exists c. split; [|done]. rewrite fmap_app. by apply lookup_app_l_Some.
Qed.

Lemma having_term_ok groups l e t ty l' : Forall call_ok l → convert_having_term sc groups l e = Ok (t, ty, l') →
  Forall call_ok l' ∧ l `prefix_of` l' ∧ has_type cs (cl_call <$> l') groups t ty.
Proof.
  intros Hok H. destruct e as [lit|c|a|]; cbn [convert_having_term] in H; [..|done].
  - apply res_bind_ok in H as (v & _ & [= <- <- <-]). by split_and!.
  - apply res_bind_ok in H as (tc & Htc & H). destruct (group_contains groups tc) eqn:Eg; [|done]. apply res_bind_ok in H as (m & Hm & [= <- <- <-]). apply meta_found in Hm.
    apply group_contains_spec in Eg. split_and!; try done. split; [done|by exists m].
  - apply res_bind_ok in H as ([i l1] & Hadd & H). apply res_bind_ok in H as (call & Hcall & [= <- <- <-]). apply require_ok in Hcall.
    destruct (add_call_ok _ _ _ _ Hok Hadd) as (Hc & Hp & _). split_and!; try done. split; [lia|]. exists (cl_call call). by rewrite Nat2Z.id, list_lookup_fmap, Hcall.
Qed.

Lemma having_ok groups hs : ∀ l out l', Forall call_ok l → convert_having sc groups l hs = Ok (out, l') →
  Forall call_ok l' ∧ l `prefix_of` l' ∧ Forall (typed_having cs (cl_call <$> l') groups) out.
Proof.
  induction hs as [|h hs IH]; intros l out l' Hok H; cbn [convert_having] in H; [by injection H as <- <-|].
  apply res_bind_ok in H as ([[lt lty] l1] & H1 & H). apply res_bind_ok in H as ([[rt rty] l2] & H2 & H). destruct (negb _ && _) eqn:Et; [done|].
  apply res_bind_ok in H as ([out' l3] & H3 & [= <- <-]). destruct (having_term_ok _ _ _ _ _ _ Hok H1) as (K1 & P1 & T1). destruct (having_term_ok _ _ _ _ _ _ K1 H2) as (K2 & P2 & T2).
  destruct (IH _ _ _ K2 H3) as (K3 & P3 & T3). split_and!; [done|by do 2 (etrans; [done|])|]. constructor; [|done]. exists lty, rty. cbn [hc_lhs hc_rhs].
  split_and!; [eapply has_type_prefix; [|exact T1]; by etrans|by eapply has_type_prefix|]. apply andb_false_iff in Et as [E|E].
  - right. apply negb_false_iff, andb_true_iff in E as [-> ->]. done.
  - left. by apply negb_false_iff, bool_decide_eq_true in E.
Qed.

(** *** The whole statement *)

Lemma groups_found gs groups : mapM (resolve_col sc) gs = Ok groups → Forall (λ g, is_Some (find_col cs g)) groups.
Proof. rewrite mapM_ok. induction 1 as [|c g gs groups Hc _ IH]; constructor; [by eapply resolve_found|done]. Qed.

Lemma order_found groups st os order : has_aggregate st = false → mapM (order_term sc groups st) os = Ok order → Forall (λ o, is_Some (find_col cs (ob_col o))) order.
Proof.
  rewrite mapM_ok. intros Ha. induction 1 as [|o r os order Ho _ IH]; constructor; [|done]. apply res_bind_ok in Ho as (c & Hc & [= <-]). unfold order_col in Hc. rewrite Ha in Hc.
  by eapply resolve_found.
Qed.

(** The list of [SELECT *], or of items. *)
Lemma select_list_ok groups items having st : select_list sc groups items having = Ok st →
  (items = [] ∧ groups = [] ∧ having = [] ∧ st = mk_SelectState [] [] ((λ c, mk_TabCol (cm_tab_name c) (cm_name c)) <$> cs) false) ∨ (items ≠ [] ∧ items_ok groups st).
Proof.
  unfold select_list. destruct items as [|item items].
  - destruct (negb _ || negb _) eqn:E; [done|]. intros [= <-]. left. apply orb_false_iff in E as [E1 E2]. apply negb_false_iff, bool_decide_eq_true in E1. apply negb_false_iff, bool_decide_eq_true in E2.
    split_and!; try done. by destruct having.
  - intros H. right. split; [done|]. eapply add_items_ok; [|exact H]. split; cbn; try done; constructor.
Qed.

Lemma analyze_body_sound x q : Forall (λ e, rhs_ok (be_rhs e)) (sl_conds x) → analyze_body sc x = Ok q → well_typed cs q.
Proof.
  intros Hl H. unfold analyze_body in H. apply res_bind_ok in H as (groups & Hg & H). apply res_bind_ok in H as (st & Hst & H).
  apply res_bind_ok in H as (st1 & Hst1 & H). apply res_bind_ok in H as (rs & Hrs & H). apply res_bind_ok in H as (conds & Hconds & H).
  apply res_bind_ok in H as ([having l] & Hh & H). apply res_bind_ok in H as (st2 & Hst2 & H). apply res_bind_ok in H as (order & Ho & H). apply res_bind_ok in H as (output & _ & [= <-]).
  set (agg := has_aggregate st || _ || _) in *. apply check_aggregate_ok in Hst1 as (A1 & A2 & A3 & A4). apply check_aggregate_ok in Hst2 as (B1 & B2 & B3 & B4). cbn in A1, A2, A3, A4, B1, B2, B3, B4.
  rewrite A2 in B2, B4. rewrite A3 in B3, B4. rewrite A1 in Hh. pose proof (groups_found _ _ Hg) as Hgf. pose proof (conds_sound _ _ _ Hl Hrs Hconds) as Hcf.
  destruct (select_list_ok _ _ _ _ Hst) as [(E1 & E2 & E3 & ->)|[Hne Hio]].
  - assert (agg = false) as Ea by (unfold agg; by rewrite E2, E3). rewrite E3 in Hh. injection Hh as <- <-. cbn in A2, B1, B2. rewrite Ea in A4, B4, B3. rewrite B1, B2, B4, A4, B3.
    split; cbn; try done; try by apply Forall_nil.
    + intros _. by split_and!; [..|left].
    + intros _. destruct (sl_order x); [|by injection Ho as <-]. by eapply order_found.
  - destruct Hio as [I1 I2 I3 I4 I5]. destruct (having_ok _ _ _ _ _ I1 Hh) as (J1 & J2 & J3). rewrite B1, B2, B3. split; cbn; try done.
    + by apply Forall_fmap.
    + eapply Forall_impl; [exact I2|]. intros t. by apply typed_term_prefix.
    + intros Ea. rewrite Ea in A4, B4. destruct A4 as [A4 A5], B4 as [B4 B5]. split; [done|]. rewrite B5, A5.
      trans (mk_TabCol agg_tab <$> (tc_col_name <$> out_cols st)); [by rewrite <-!list_fmap_compose|]. by rewrite I3, <-list_fmap_compose.
    + intros Ea. rewrite Ea in A4, B4. rewrite B4, A4. unfold agg in Ea. apply orb_false_iff in Ea as [[E1 E2]%orb_false_iff E3]. apply negb_false_iff, bool_decide_eq_true in E2, E3.
      split_and!; [done| |by apply I4|right; by apply I5]. destruct (sl_having x); [|done]. by injection Hh as <- <-.
    + intros Ea. destruct (sl_order x); [|by injection Ho as <-]. eapply order_found; [|exact Ho]. by rewrite B3.
Qed.
End sound.

(** ** Columns at other places *)

(** The columns of a product are those of its factors, at other offsets. *)
Record like (c c' : ColMeta) : Prop := {
  lk_tab : cm_tab_name c' = cm_tab_name c;
  lk_name : cm_name c' = cm_name c;
  lk_type : cm_type c' = cm_type c;
  lk_len : cm_len c' = cm_len c
}.

Lemma find_col_cons c cs tc : find_col (c :: cs) tc = if decide (cm_tab_name c = tc_tab_name tc ∧ cm_name c = tc_col_name tc) then Some c else find_col cs tc.
Proof. unfold find_col. cbn [list_find]. case_decide; [done|]. by destruct (list_find _ cs) as [[i m]|]. Qed.

Lemma find_col_like cs cs' tc m : Forall2 like cs cs' → find_col cs tc = Some m → ∃ m', find_col cs' tc = Some m' ∧ like m m'.
Proof.
  intros Hl. induction Hl as [|c c' cs cs' Hc Hl IH]; [done|]. rewrite !find_col_cons. pose proof Hc as [E1 E2 _ _]. rewrite E1, E2. case_decide as Hd; [|done].
  intros [= <-]. by exists c'.
Qed.

Lemma well_typed_like cs cs' q : Forall2 like cs cs' → well_typed cs q → well_typed cs' q.
Proof.
  intros Hl [W1 W2 W3 W4 W5 W6 W7 W8]. assert (∀ tc, is_Some (find_col cs tc) → is_Some (find_col cs' tc)) as Hs.
  { intros tc [m Hm]. destruct (find_col_like _ _ _ _ Hl Hm) as (m' & Hm' & _). by exists m'. }
  assert (∀ calls groups t ty, has_type cs calls groups t ty → has_type cs' calls groups t ty) as Ht.
  { intros calls groups [c|i|v] ty; try done. intros (Hg & m & Hm & ->). destruct (find_col_like _ _ _ _ Hl Hm) as (m' & Hm' & [_ _ E _]). split; [done|]. exists m'. by rewrite E. }
  split; try done.
  - eapply Forall_impl; [exact W1|]. intros c (l & Hlc & Hr & Hv). destruct (find_col_like _ _ _ _ Hl Hlc) as (l' & Hlc' & [_ _ E1 E2]). exists l'. rewrite E1, E2. split_and!; [done| |done].
    intros Hc. destruct (Hr Hc) as (r & Hrc & Ety). destruct (find_col_like _ _ _ _ Hl Hrc) as (r' & Hrc' & [_ _ E3 _]). exists r'. by rewrite E3.
  - eapply Forall_impl; [exact W2|]. auto.
  - eapply Forall_impl; [exact W3|]. intros c [Hc|(Hstar & m & Hm & Hty)]; [by left|]. right. split; [done|].
    destruct (find_col_like _ _ _ _ Hl Hm) as (m' & Hm' & [_ _ E _]). exists m'. by rewrite E.
  - eapply Forall_impl; [exact W4|]. intros t. unfold typed_term. destruct (is_agg t); [done|]. intros (m & Hm & E1 & E2).
    destruct (find_col_like _ _ _ _ Hl Hm) as (m' & Hm' & [_ _ E3 E4]). exists m'. by rewrite E3, E4.
  - eapply Forall_impl; [exact W5|]. intros h (lty & rty & H1 & H2 & H3). exists lty, rty. auto.
  - intros Ha. destruct (W7 Ha) as (G1 & G2 & G3 & [-> | ->]); split_and!; try done; [left|by right]. clear -Hl. induction Hl as [|c c' cs cs' [E1 E2 _ _] Hl IH]; [done|].
    cbn [fmap list_fmap]. by rewrite E1, E2, IH.
  - intros Ha. eapply Forall_impl; [exact (W8 Ha)|]. auto.
Qed.

(** ** Well-typed queries have results *)

Section runs.
Context (cs : list ColMeta) (calls : list AggCall) (Hcalls : Forall (typed_call cs) calls).
Abbreviation over := (AggFacts.agg_over cs).

Lemma over_counts c rows : row_count (over c rows) = Z.of_nat (length rows) ∧ value_count (over c rows) = Z.of_nat (length rows).
Proof.
  unfold AggFacts.agg_over. induction rows as [|r rows IH] using rev_ind; [done|]. rewrite foldl_snoc, length_app. set (s := foldl _ _ rows) in *.
  assert (∀ ty m s', row_count (add_value ty m r s') = row_count s' ∧ value_count (add_value ty m r s') = value_count s') as Ha
    by (intros ty m s'; unfold add_value; by destruct (cm_type m)).
  assert (row_count (AggFacts.step c (AggFacts.call_meta cs c) s r) = row_count s + 1 ∧ value_count (AggFacts.step c (AggFacts.call_meta cs c) s r) = value_count s + 1) as [-> ->].
  { unfold AggFacts.step. destruct (ac_type c), (AggFacts.call_meta cs c) as [m|]; try done; apply (Ha _ m (count_row 1 s)). }
  simpl. lia.
Qed.

Lemma agg_value_typed c rows : typed_call cs c → Z.of_nat (length rows) ≤ 2 ^ 32 → ∃ v, agg_value c (over c rows) = Some v ∧ tv_type v = result_type c.
Proof.
  intros Hc Hl. change (2 ^ 32) with 4294967296 in Hl. destruct (over_counts c rows) as [E1 E2]. unfold agg_value.
  assert (∀ n, Z.of_nat n ≤ 4294967296 → is_Some (clamp_to_int (ld_of_Z (Z.of_nat n)))) as Hcl.
  { intros n Hn. assert (fits (Z.of_nat n)) by (unfold fits; lia). rewrite ld_of_Z_int, clamp_int by done. by eexists. }
  destruct Hc as [(-> & -> & Hr)|(Hst & m & Hm & Hty)].
  - rewrite E1. destruct (Hcl (length rows) Hl) as [z ->]. exists (set_int z). by rewrite Hr.
  - rewrite Hst, E2. destruct (ac_type c) eqn:Et.
    + destruct (Hcl (length rows) Hl) as [z ->]. exists (set_int z). by rewrite Hty.
    + destruct (result_type c); eauto.
    + destruct (result_type c); eauto.
    + destruct Hty as [Hty Hn]. destruct (result_type c) eqn:Er; [|eauto|congruence]. erewrite AggFacts.agg_sum; [|exact Hm|congruence|congruence|done].
      rewrite clamp_int; [eauto|]. pose proof (AggFacts.total_bound m rows). unfold fits. change (2 ^ 64) with 18446744073709551616. lia.
    + destruct Hty as [-> _]. eauto.
Qed.

(** The group has the states of [calls] over some of the records. *)
Definition group_ok (g : GroupState) : Prop := ∃ rows, Z.of_nat (length rows) ≤ 2 ^ 32 ∧ aggs g = (λ c, over c rows) <$> calls.

Lemma call_value_typed g i c : group_ok g → 0 ≤ i → calls !! Z.to_nat i = Some c → ∃ v, call_value calls i g = Ok v ∧ tv_type v = result_type c.
Proof.
  intros (rows & Hl & Hg) Hi Hc. unfold call_value, at_idx. rewrite !decide_True by done. rewrite Hc. cbn [require mbind res_bind]. rewrite Hg, list_lookup_fmap, Hc. cbn [fmap option_fmap option_map require mbind res_bind].
  destruct (agg_value_typed c rows) as (v & Hv & Hty); [|done|exists v; split; [by rewrite Hv|done]]. rewrite Forall_forall in Hcalls. apply Hcalls. by eapply list_elem_of_lookup_2.
Qed.

Lemma col_value_typed g c m : find_col cs c = Some m → ∃ v, col_value cs c g = Ok v ∧ tv_type v = cm_type m.
Proof. intros Hm. unfold col_value, col_of. rewrite Hm. cbn [require mbind res_bind]. eexists. split; [reflexivity|]. by destruct (cm_type m). Qed.

Lemma term_value_ok g groups t ty : group_ok g → has_type cs calls groups t ty → ∃ v, term_value cs calls t g = Ok v.
Proof.
  intros Hg Ht. destruct t as [c|i|v]; cbn [term_value has_type] in *.
  - destruct Ht as (_ & m & Hm & _). destruct (col_value_typed g c m Hm) as (v & -> & _). by exists v.
  - destruct Ht as (Hi & c & Hc & _). destruct (call_value_typed g i c Hg Hi Hc) as (v & -> & _). by exists v.
  - by exists v.
Qed.

Lemma select_value_typed g t : group_ok g → typed_term cs calls t → ∃ v, select_value cs calls t g = Ok v ∧ tv_type v = st_type t.
Proof.
  intros Hg Ht. unfold select_value, typed_term in *. destruct (is_agg t).
  - destruct Ht as (Hi & c & Hc & ->). by apply call_value_typed.
  - destruct Ht as (m & Hm & -> & _). by apply col_value_typed.
Qed.

Lemma build_fields_ok ts g : group_ok g → Forall (typed_term cs calls) ts → ∀ off rec, ∃ rec', build_fields cs calls ts off g rec = Ok rec'.
Proof.
  intros Hg. induction 1 as [|t ts Ht Hts IH]; intros off rec; cbn [build_fields]; [by eexists|]. destruct (select_value_typed g t Hg Ht) as (v & -> & Hv). cbn [mbind res_bind].
  assert (is_Some (value_bytes (st_type t) (st_len t) v)) as [bs ->] by (unfold value_bytes; rewrite Hv; destruct (st_type t); by eexists). apply IH.
Qed.

Lemma pass_having_ok hs groups g : group_ok g → Forall (typed_having cs calls groups) hs → ∃ b, pass_having cs calls hs g = Ok b.
Proof.
  intros Hg. induction 1 as [|h hs (lty & rty & Hl & Hr & _) Hhs IH]; cbn [pass_having]; [by eexists|]. destruct (term_value_ok g groups _ _ Hg Hl) as [v ->]. cbn [mbind res_bind].
  destruct (term_value_ok g groups _ _ Hg Hr) as [v' ->]. cbn [mbind res_bind]. destruct (compare_values _ _ _); [exact IH|by eexists].
Qed.

Lemma results_ok ts hs groups gs : Forall group_ok gs → Forall (typed_term cs calls) ts → Forall (typed_having cs calls groups) hs →
  ∃ out, results cs ts calls hs gs = Ok out ∧ (length out ≤ length gs)%nat.
Proof.
  intros Hgs Hts Hhs. induction Hgs as [|g gs Hg _ IH]; cbn [results]; [by eexists|]. destruct (pass_having_ok hs groups g Hg Hhs) as [b ->]. cbn [mbind res_bind].
  destruct IH as (out & -> & Hl). destruct b.
  - destruct (build_fields_ok ts g Hg Hts 0 (replicate (Z.to_nat (agg_len ts)) Byte.x00)) as [rec Hrec]. unfold build_record. rewrite Hrec. cbn [mbind res_bind mret res_ret]. eexists. split; [reflexivity|]. simpl. lia.
  - cbn [mbind res_bind mret res_ret]. eexists. split; [reflexivity|]. simpl. lia.
Qed.

Lemma final_groups_total len groups ms l : Z.of_nat (length l) ≤ 2 ^ 32 →
  Forall group_ok (AggFacts.final_spec cs len calls groups ms l) ∧ (length (AggFacts.final_spec cs len calls groups ms l) ≤ S (length l))%nat.
Proof.
  intros Hl. unfold AggFacts.final_spec. case_decide as Hd.
  - split; [|simpl; lia]. apply Forall_singleton. exists []. split; [simpl; lia|]. cbn [aggs]. clear. induction calls as [|c k IH]; [done|]. cbn [length replicate fmap list_fmap]. by rewrite IH.
  - unfold AggFacts.group_spec. split.
    + apply Forall_fmap, Forall_forall. intros k _. exists (AggFacts.class ms l k). split; [|done]. unfold AggFacts.class. pose proof (length_filter (λ r, AggFacts.row_key ms r = k) l). lia.
    + rewrite length_fmap. unfold AggFacts.keys. destruct (ExecSort.dedup_spec (AggFacts.row_key ms <$> l) ∅) as (_ & _ & Hs). apply sublist_length in Hs. rewrite length_fmap in Hs. lia.
Qed.

Lemma aggregate_total len ts groups hs l : Forall (λ g, is_Some (find_col cs g)) groups → Forall (typed_term cs calls) ts → Forall (typed_having cs calls groups) hs →
  Z.of_nat (length l) ≤ 2 ^ 32 → ∃ out, aggregate (cs, len) ts calls groups hs l = Some out ∧ (length out ≤ S (length l))%nat.
Proof.
  intros Hg Hts Hhs Hl. unfold aggregate. cbn [fst snd]. assert (is_Some (mapM (find_col cs) groups)) as [ms ->] by by apply mapM_is_Some_2. cbn [mbind option_bind].
  assert (forallb (λ c, (bool_decide (ac_type c = AGG_COUNT) && ac_star c) || bool_decide (is_Some (AggFacts.call_meta cs c))) calls = true) as ->.
  { apply List.forallb_forall. intros c Hin. rewrite Forall_forall in Hcalls. apply list_elem_of_In, Hcalls in Hin as [(E1 & E2 & _)|(_ & m & Hm & _)].
    - by rewrite E1, E2.
    - rewrite (bool_decide_eq_true_2 (is_Some _)); [by rewrite orb_true_r|]. unfold AggFacts.call_meta. by exists m. }
  destruct (final_groups_total len groups ms l Hl) as [Hgs Hlen]. destruct (results_ok ts hs groups _ Hgs Hts Hhs) as (out & -> & Ho). exists out. split; [done|lia].
Qed.
End runs.

(** *** Order and projection *)

Lemma select_cols_total cs sel : Forall (λ c, is_Some (find_col cs c)) sel → ∀ off, ∃ l, select_cols cs sel off = Ok l.
Proof.
  induction 1 as [|c sel [m Hm] _ IH]; intros off; cbn [select_cols]; [by eexists|]. unfold col_of. rewrite Hm. cbn [require mbind res_bind]. destruct (IH (off + cm_len m)) as [l ->]. by eexists.
Qed.

Lemma find_order_total cs os : Forall (λ o, is_Some (find_col cs (ob_col o))) os → is_Some (mapM (find_order cs) os).
Proof. intros H. apply mapM_is_Some_2. eapply Forall_impl; [exact H|]. intros o [m Hm]. unfold find_order, compose. rewrite Hm. by eexists. Qed.

Lemma find_col_in cs c : c ∈ cs → is_Some (find_col cs (mk_TabCol (cm_tab_name c) (cm_name c))).
Proof.
  intros Hc. unfold find_col. destruct (list_find_elem_of (λ m, cm_tab_name m = cm_tab_name c ∧ cm_name m = cm_name c) cs c Hc) as [[i m] Hm]; [done|]. cbn [tc_tab_name tc_col_name]. rewrite Hm. by eexists.
Qed.

Lemma agg_cols_found ts t : t ∈ ts → ∀ off, is_Some (find_col (agg_cols ts off) (mk_TabCol agg_tab (output_name t))).
Proof.
  intros Ht off. assert (∃ c, c ∈ agg_cols ts off ∧ cm_tab_name c = agg_tab ∧ cm_name c = output_name t) as (c & Hc & <- & <-); [|by apply find_col_in].
  revert off. induction ts as [|t' ts IH]; [by apply elem_of_nil in Ht|]. intros off. cbn [agg_cols]. apply elem_of_cons in Ht as [<-|Ht].
  - eexists. split; [by left|done].
  - destruct (IH Ht (off + st_len t')) as (c & Hc & E). exists c. split; [by right|done].
Qed.

(** What the code relies on besides types: without aggregation a column keeps its name, with
    aggregation the result is ordered by its own columns. *)
Definition renders (q : Query) : Prop :=
  if q_aggregate q then Forall (λ o, ob_col o ∈ q_cols q) (q_order q) else Forall (λ t, output_name t = tc_col_name (st_col t)) (q_terms q).

Lemma finish_total fuel q x l : well_typed x.1 q → renders q → (S (length l) < fuel)%nat → Z.of_nat (length l) ≤ 2 ^ 32 → is_Some (finish_rows fuel q x l).
Proof.
  intros [W1 W2 W3 W4 W5 W6 W7 W8] Hr Hf Hl. destruct x as [cs len]. cbn [fst] in *. unfold finish_rows, renders in *.
  assert (∃ x' l', (if q_aggregate q then l ← aggregate (cs, len) (q_terms q) (q_calls q) (q_groups q) (q_having q) l ≫= bounded fuel; Some ((agg_cols (q_terms q) 0, agg_len (q_terms q)), l) else Some ((cs, len), l)) = Some (x', l') ∧
    Forall (λ o, is_Some (find_col x'.1 (ob_col o))) (q_order q) ∧ Forall (λ c, is_Some (find_col x'.1 c)) (q_cols q)) as (x' & l' & -> & Ho & Hc).
  { destruct (q_aggregate q).
    - destruct (aggregate_total cs (q_calls q) W3 len (q_terms q) (q_groups q) (q_having q) l W2 W4 W5 Hl) as (out & -> & Hout). cbn [mbind option_bind]. unfold bounded.
      rewrite decide_True by lia. eexists _, _. split; [reflexivity|]. destruct (W6 eq_refl) as [_ Ec].
      assert (Forall (λ c, is_Some (find_col (agg_cols (q_terms q) 0) c)) (q_cols q)) as Hc by (rewrite Ec; apply Forall_fmap, Forall_forall; intros t Ht; by apply agg_cols_found).
      split; [|done]. eapply Forall_impl; [exact Hr|]. intros o Hin. rewrite Forall_forall in Hc. by apply Hc.
    - eexists _, _. split; [reflexivity|]. split; [by apply W8|]. destruct (W7 eq_refl) as (_ & _ & Hp & [->| ->]); apply Forall_fmap, Forall_forall; [intros c; apply find_col_in|].
      intros t Ht. rewrite Forall_forall in W4, Hp, Hr. specialize (W4 t Ht). unfold typed_term in W4. rewrite (Hp t Ht) in W4. destruct W4 as (m & Hm & _). unfold compose. cbn [fst]. rewrite (Hr t Ht).
      exists m. by destruct (st_col t). }
  cbn [mbind option_bind]. destruct (select_cols_total x'.1 (q_cols q) Hc 0) as [sel ->]. destruct (find_order_total _ _ Ho) as [order Hord].
  destruct (q_order q); cbn [mbind option_bind]; [by eexists|]. rewrite Hord. by eexists.
Qed.
End AnalyzeFacts.
