(* ===== verification/ScanFacts.v ===== *)
(** * What scans deliver

    Against a view, the records that a transaction sees: a sequential scan delivers the records
    of the view that satisfy the conditions, in the order of their record ids; an index scan
    delivers the same records in the order of the index, because the bounds it computes from
    the conditions leave out no key of a record that satisfies them. *)

From stdpp Require Import gmultiset.
From S2P Require Import Prelude RecordFile Recovery Conditions LockManager Mvcc Index IndexTree IndexSplit IndexFacts IndexOps IndexKeys IndexSpec IndexScan Executor ExecutorFacts Scans ScanBounds.

Module ScanFacts.
Import RecFile Cond Mvcc Exec ExecFacts Scans.

Lemma length_omap_le {A B} (f : A → option B) (l : list A) : (length (omap f l) ≤ length l)%nat.
Proof. induction l as [|x l IH]; simpl; [done|]. unfold omap in *. destruct (f x); simpl; lia. Qed.

Abbreviation is_ahead I e := (ahead I (is_end e) (Next e) (nextTuple e)).

(** ** Positions of a table scan *)

Definition good_rid (r : Rid) : Prop := page_no r ≠ RM_NO_PAGE.

(** [l] is what is left of a scan. *)
Inductive scan_at : list Rid → RmScan → Prop :=
  | scan_at_end sc : rid_ sc = no_rid → scan_at [] sc
  | scan_at_row sc r l : drop (pos_ sc) (rids_ sc) = r :: l → rid_ sc = r → scan_at (r :: l) sc.

Lemma scan_at_init rids : scan_at rids (RmScan_init rids).
Proof. destruct rids; by constructor. Qed.

Lemma scan_at_next r l sc : scan_at (r :: l) sc → scan_at l (scan_next sc).
Proof.
  inversion 1 as [|? ? ? Hd Hr]; subst. unfold scan_next. assert (rids_ sc !! (pos_ sc + 1)%nat = l !! 0%nat) as E by by rewrite <-lookup_drop, Hd.
  pose proof (f_equal length Hd) as Hl. rewrite length_drop in Hl. simpl in Hl. destruct l as [|r' l]; simpl in *.
  - rewrite decide_False by lia. by constructor.
  - rewrite decide_True by lia. rewrite E. constructor; [|done]. simpl. by rewrite <-drop_drop, Hd.
Qed.

Section facts.
Context (std_hash : Z → Z) (ndebug : bool) (fuel : nat) (I : World → Prop).
Context (tab : bytes) (t : Z) (use_2pl_locks : bool) (cols_ : list ColMeta) (view : gmap Rid record).

(** In the states of [I] the transaction sees [view], and may register what it read. *)
Record sees : Prop := {
  se_read rid : does I (read_visible std_hash tab t use_2pl_locks rid) (λ o, o = view !! rid);
  se_register conds rids : does I (on_tm (RegisterSerializableRead tab cols_ conds rids t)) (λ _, True)
}.

(** The record at [rid], if it is seen and satisfies the conditions. *)
Definition matching (conds : list Condition) (rid : Rid) : option record :=
  match view !! rid with Some r => if eval_conds r cols_ conds then Some r else None | None => None end.

(** ** Sequential scans *)

Section seq_scan.
Context (conds : list Condition) (Hs : sees).
Abbreviation seq := (SeqScanExecutor std_hash fuel tab t use_2pl_locks cols_ conds).

Lemma seq_register_ok s : does I (seq_register tab t cols_ conds s) (λ s', seq_is_end s' = seq_is_end s).
Proof.
  unfold seq_register. destruct (ss_registered s); [by apply does_ret|]. eapply does_seq; [apply (se_register Hs)|]. intros _ _. by apply does_ret.
Qed.

(** The two ways of reading the current record. *)
Definition seq_ahead (l : list record) (s : SeqState) : Prop :=
  ahead I seq_is_end seq_Next (seq_next std_hash fuel tab t use_2pl_locks cols_ conds) true l s ∧
  ahead I seq_is_end seq_take (seq_next std_hash fuel tab t use_2pl_locks cols_ conds) true l s.

Lemma seq_advance_ok l : ∀ f sc s, scan_at l sc → Forall good_rid l → (length l < f)%nat → (length l < fuel)%nat →
  does I (seq_advance std_hash tab t use_2pl_locks cols_ conds f sc s) (seq_ahead (omap (matching conds) l)).
Proof.
  induction l as [|r l IH]; intros [|f] sc s Hat Hg Hf Hfu; simpl in Hf; try lia; cbn [seq_advance].
  - inversion Hat as [? Hr|]; subst. unfold scan_is_end. rewrite Hr. cbn [page_no no_rid]. rewrite bool_decide_eq_true_2 by done.
    eapply does_mono; [apply seq_register_ok|]. intros s' Hs'. simpl in Hs'. unfold seq_is_end at 2, scan_is_end in Hs'. simpl in Hs'. rewrite Hr in Hs'.
    split; simpl; by rewrite Hs'.
  - apply Forall_cons in Hg as [Hgr Hg]. inversion Hat as [|? ? ? Hd Hr]; subst. unfold scan_is_end. rewrite bool_decide_eq_false_2 by done.
    unfold seq_load. apply does_bind. eapply does_seq; [apply (se_read Hs)|]. intros o ->. apply does_ret. cbn [omap list_omap]. fold (matching conds (rid_ sc)).
    assert (∀ s, does I (seq_advance std_hash tab t use_2pl_locks cols_ conds f (scan_next sc) s) (seq_ahead (omap (matching conds) l))) as Hk.
    { intros s'. apply IH; [by eapply scan_at_next|done|simpl in *; lia|simpl in *; lia]. }
    destruct (matching conds (rid_ sc)) as [x|]; [|apply Hk]. apply does_ret.
    set (s' := mk_SeqState _ _ _ _ _ _). assert (∀ n, does I (seq_next std_hash fuel tab t use_2pl_locks cols_ conds
      (mk_SeqState (ss_scan s') (ss_rid s') (ss_cur s') (ss_returned s') (ss_registered s') n)) (seq_ahead (omap (matching conds) l))) as Hn.
    { intros n. apply IH; [by eapply scan_at_next|done|simpl in *; lia|simpl in *; lia]. }
    assert (∀ n, seq_is_end (mk_SeqState (ss_scan s') (ss_rid s') (ss_cur s') (ss_returned s') (ss_registered s') n) = false) as He.
    { intros n. unfold s', seq_is_end, scan_is_end. simpl. by rewrite bool_decide_eq_false_2. }
    split; (split; [apply (He (ss_rows s'))|]).
    + unfold seq_Next. rewrite (He (ss_rows s') : seq_is_end s' = false). apply does_bind, does_ret, does_ret. split_and!; [done|intros _; apply He|].
      eapply does_mono; [apply Hn|]. by intros ? [? _].
    + apply does_ret. split_and!; [done|intros _; apply He|]. eapply does_mono; [apply Hn|]. by intros ? [_ ?].
Qed.

Lemma seq_scan_implements rids : Forall good_rid rids → (length rids < fuel)%nat → does I (on_tm (on_table tab table_rids)) (λ l, l = rids) →
  implements I seq true (omap (matching conds) rids).
Proof.
  intros Hg Hf Hrids. split.
  - intros s. eapply does_seq; [exact Hrids|]. intros l ->. eapply does_mono; [apply seq_advance_ok; [apply scan_at_init|done..]|]. intros s' [Ha Hb].
    split; [exact Ha|]. intros k. eapply (default_batches _ _ seq_take); [done|exact Hb|]. eapply Nat.le_lt_trans; [apply length_omap_le|done].
  - intros s. eapply does_mono; [apply seq_register_ok|]. done.
Qed.
End seq_scan.

(** ** Index scans *)

Section index_scan.
Context (Hs : sees).
Context (name : string) (index_cols : list ColMeta).
Abbreviation cs := (ScanBounds.col_pair <$> index_cols).
Abbreviation rk := (IxKeys.key_rank cs).
Context {h : Ix.IxFileHdr} {ns : gmap Z Ix.IxNode} {G : gmap Z IxTree.range} {H : nat} (P : gmultiset Z).
Context (Hinv : IxOps.tree_inv (cmp:=IxKeys.key_cmp cs) h ns G H None).

(** In the states of [I] the index is the tree, and reading it keeps the states. *)
Record indexed : Prop := {
  ii_tree w : I w → ∃ ih, w_ihs w !! name = Some ih ∧ IxFacts.is_at h ns P ih;
  ii_keep w ih : I w → IxFacts.is_at h ns P ih → I (mk_World (w_tm w) (<[name := ih]> (w_ihs w)))
}.

Context (Hix : indexed).
Context (Hgaps : IxScan.no_gaps (h:=h) (ns:=ns) (G:=G)).
Context (extra : list Condition → gset Rid → list (Rid * record)).
Context (Hextra : ∀ conds seen, does I (on_tm (CollectVisibleVersionRecords tab cols_ conds seen t)) (λ l, l = extra conds seen)).

Lemma does_on_index {A} (m : M Ix.IxIndexHandle A) (Q : A → Prop) :
  (∀ s, IxFacts.is_at h ns P s → wp m s (λ a s', IxFacts.is_at h ns P s' ∧ Q a)) → does I (on_index name m) Q.
Proof.
  intros Hm w Hw. destruct (ii_tree Hix w Hw) as (ih & Hih & Hat). destruct (wp_run m ih _ (Hm ih Hat)) as (a & ih' & Hrun & Hat' & Hq).
  exists a. eexists. split_and!; [unfold on_index; rewrite Hih, Hrun; reflexivity| |done]. by apply (ii_keep Hix).
Qed.

(** *** The range between two bounds *)

Definition lo_thr (b : Bounds) : option Z := if has_lower b then Some (if lower_open b then rk (lower_key b) else rk (lower_key b) - 1) else None.
Definition hi_thr (b : Bounds) : option Z := if has_upper b then Some (if upper_open b then rk (upper_key b) - 1 else rk (upper_key b)) else None.
Definition above (o : option Z) (z : Z) : Prop := match o with Some a => a < z | None => True end.
Definition upto (o : option Z) (z : Z) : Prop := match o with Some a => z ≤ a | None => True end.
Definition in_range (b : Bounds) (z : Z) : Prop := above (lo_thr b) z ∧ upto (hi_thr b) z.

(** The lower bound is not behind the upper one. *)
Definition ordered (b : Bounds) : Prop := match lo_thr b, hi_thr b with Some a, Some c => a ≤ c | _, _ => True end.

Abbreviation rest := (IxScan.rest (ns:=ns) (G:=G)).
Abbreviation normal := (IxScan.normal (h:=h) (ns:=ns) (G:=G)).
Abbreviation entry_rank e := (rk (e : IxTree.entry).1).
Abbreviation sorted := (IxTree.sorted (cmp:=IxKeys.key_cmp cs)).

(** A position with the entries that satisfy [T] ahead of it. *)
Definition at_entries (x : Ix.Iid) (T : Z → Prop) : Prop :=
  ∃ c es, rest c (Ix.iid_page x) (Ix.iid_slot x) es ∧ normal x ∧ sorted es ∧ ∀ e, e ∈ es ↔ IxTree.holds ns G e ∧ T (entry_rank e).

Lemma start_pos_ok b : IxKeys.key_valid cs (lower_key b) → does I (on_index name (start_pos b)) (λ x, at_entries x (above (lo_thr b))).
Proof.
  intros Hv. apply does_on_index. intros s Hat. unfold start_pos, lo_thr. destruct (has_lower b); [destruct (lower_open b)|].
  - eapply (IxScan.wp_upper_bound Hinv); [exact Hv|done|]. intros x c es s' H1 H2 H3 [H4 H5]. split; [done|]. by exists c, es.
  - eapply (IxScan.wp_lower_bound Hinv); [exact Hv|done|]. intros x c es s' H1 H2 H3 [H4 H5]. split; [done|]. exists c, es. split_and!; try done.
    intros e. rewrite H5. simpl. split; intros [? ?]; (split; [done|lia]).
  - eapply (IxScan.wp_leaf_begin Hinv); [done|]. intros x c es s' H1 H2 H3 [H4 H5]. split; [done|]. by exists c, es.
Qed.

Lemma end_pos_ok b : IxKeys.key_valid cs (upper_key b) → does I (on_index name (end_pos b)) (λ x, at_entries x (λ z, ¬ upto (hi_thr b) z)).
Proof.
  intros Hv. apply does_on_index. intros s Hat. unfold end_pos, hi_thr. destruct (has_upper b); [destruct (upper_open b)|].
  - eapply (IxScan.wp_lower_bound Hinv); [exact Hv|done|]. intros x c es s' H1 H2 H3 [H4 H5]. split; [done|]. exists c, es. split_and!; try done.
    intros e. rewrite H5. simpl. split; intros [? ?]; (split; [done|lia]).
  - eapply (IxScan.wp_upper_bound Hinv); [exact Hv|done|]. intros x c es s' H1 H2 H3 [H4 H5]. split; [done|]. exists c, es. split_and!; try done.
    intros e. rewrite H5. simpl. split; intros [? ?]; (split; [done|lia]).
  - eapply (IxScan.wp_leaf_end Hinv); [done|]. intros x c s' H1 H2 H3. split; [done|]. exists c, []. split_and!; [done..| |].
    + intros i j e1 e2 _ He. done.
    + intros e. split; [by intros ?%elem_of_nil|]. intros [_ Hn]. by destruct Hn.
Qed.

(** The entries between the positions. *)
Definition between (x y : Ix.Iid) (mid : list IxTree.entry) : Prop :=
  ∃ c c' es, rest c (Ix.iid_page x) (Ix.iid_slot x) (mid ++ es) ∧ rest c' (Ix.iid_page y) (Ix.iid_slot y) es ∧ normal x ∧ normal y.

Lemma positions_between b x y : ordered b → at_entries x (above (lo_thr b)) → at_entries y (λ z, ¬ upto (hi_thr b) z) →
  ∃ mid, between x y mid ∧ sorted mid ∧ ∀ e, e ∈ mid ↔ IxTree.holds ns G e ∧ in_range b (entry_rank e).
Proof.
  intros Ho (c1 & es1 & R1 & N1 & S1 & E1) (c2 & es2 & R2 & N2 & S2 & E2). unfold ordered, in_range in *. destruct (hi_thr b) as [z2|] eqn:Eh; simpl in *.
  - set (mid := filter (λ e : IxTree.entry, IxTree.rank (cmp:=IxKeys.key_cmp cs) e.1 ≤ z2) es1). exists mid.
    assert (filter (λ e : IxTree.entry, z2 < IxTree.rank (cmp:=IxKeys.key_cmp cs) e.1) es1 = es2) as Ef.
    { eapply (IxScan.sorted_unique (cmp:=IxKeys.key_cmp cs)); [by apply IxScan.sorted_filter|done|]. intros e. rewrite list_elem_of_filter, E1, E2. simpl.
      destruct (lo_thr b) as [z1|]; simpl in *; split; intros; split_and!; try tauto; lia. }
    pose proof (IxScan.sorted_split es1 z2 S1) as Hsp. rewrite Ef in Hsp. fold mid in Hsp. split_and!.
    + exists c1, c2, es2. by rewrite <-Hsp.
    + by apply IxScan.sorted_filter.
    + intros e. unfold mid. rewrite list_elem_of_filter, E1. simpl. tauto.
  - assert (es2 = []) as ->.
    { destruct es2 as [|e es2]; [done|]. destruct (proj1 (E2 e) (list_elem_of_here _ _)) as [_ Hn]. by destruct Hn. }
    exists es1. split_and!; [|done|].
    + exists c1, c2, []. by rewrite app_nil_r.
    + intros e. rewrite E1. tauto.
Qed.

Lemma between_end x y : between x y [] → x = y.
Proof. intros (c & c' & es & R1 & R2 & N1 & N2). by eapply (IxScan.rest_inj Hinv). Qed.

Lemma between_step x y e mid : between x y (e :: mid) → x ≠ y ∧ does I (on_index name (Ix.get_rid x)) (λ r, r = e.2) ∧
  does I (on_index name (Ix.scan_next ndebug x y)) (λ x', between x' y mid).
Proof.
  intros (c & c' & es & R1 & R2 & N1 & N2). assert (x ≠ y) as Hne.
  { intros ->. pose proof (IxScan.rest_fun _ _ _ _ R1 _ _ R2) as E. apply (f_equal length) in E. simpl in E. rewrite length_app in E. lia. }
  split_and!; [done|..]; apply does_on_index; intros s Hat.
  - eapply (IxScan.wp_get_rid Hinv); [exact R1|done|done|]. intros s' Hat'. done.
  - eapply (IxScan.wp_scan_next ndebug Hinv); [done|done|exact R1|done|done|]. intros x' c1 s' Hat' R' N'. split; [done|]. by exists c1, c', es.
Qed.

(** *** The loop over the entries *)

Context (conds_ : list Condition) (join_inner : option (TabCol * bytes)).
Abbreviation ixs := (IndexScanExecutor std_hash ndebug fuel tab t use_2pl_locks cols_ conds_ name index_cols join_inner).

(** The versions that the index does not lead to. *)
Definition extras (fed : list Condition) (seen : gset Rid) : list (Rid * record) := if use_2pl_locks then [] else extra fed seen.

(** What a scan of the entries [mid] delivers, when the entries of [seen] were read before. *)
Definition index_rows (fed : list Condition) (seen : gset Rid) (mid : list IxTree.entry) : list record :=
  omap (matching fed) (snd <$> mid) ++ (snd <$> extras fed (list_to_set (snd <$> mid) ∪ seen)).

Lemma ix_register_ok s : does I (ix_register tab t cols_ s) (λ s', xs_end s' = xs_end s).
Proof.
  unfold ix_register. destruct (xs_registered s); [by apply does_ret|]. eapply does_seq; [apply (se_register Hs)|]. intros _ _. by apply does_ret.
Qed.

(** A scan behind its last entry that has the extra records [l] ahead. *)
Lemma extra_ahead l : ∀ s rid rec y, drop (xs_extra_pos s) (xs_extra s) = (rid, rec) :: l → xs_scan s = Some (y, y) → xs_cur s = Some rec →
  xs_end s = false → is_ahead I ixs true (rec :: (snd <$> l)) s.
Proof.
  induction l as [|[rid' rec'] l IH]; intros s rid rec y Hd Hsc Hcur Hend; (split; [done|]); cbn [Next IndexScanExecutor]; unfold ix_Next; rewrite Hend, Hcur;
    apply does_ret; (split_and!; [done..|]); cbn [fst snd nextTuple IndexScanExecutor]; unfold ix_next; cbn [xs_end xs_scan xs_extra_pos xs_extra];
    rewrite Hsc, decide_True by done; pose proof (f_equal length Hd) as Hlen; rewrite length_drop in Hlen; cbn [length] in Hlen; rewrite decide_True by lia;
    assert (drop (S (xs_extra_pos s)) (xs_extra s) = drop 1 (drop (xs_extra_pos s) (xs_extra s))) as E by (rewrite drop_drop; f_equal; lia); rewrite Hd in E; cbn [drop] in E;
    unfold load_next_extra; cbn [xs_extra xs_extra_pos].
  - rewrite lookup_ge_None_2 by lia. simpl. eapply does_mono; [apply ix_register_ok|]. intros s' ->. done.
  - assert (xs_extra s !! S (xs_extra_pos s) = Some (rid', rec')) as El by (rewrite <-(Nat.add_0_r (S (xs_extra_pos s))), <-lookup_drop, E; done).
    rewrite El. simpl. apply does_ret. by eapply IH.
Qed.

Lemma ix_extra_ok s y : xs_scan s = Some (y, y) → does I (ix_extra tab t use_2pl_locks cols_ s) (is_ahead I ixs true (snd <$> extras (xs_conds s) (xs_seen s))).
Proof.
  intros Hsc. unfold ix_extra, load_mvcc_extra_records. apply does_bind.
  eapply (does_seq _ _ _ (λ l, l = extras (xs_conds s) (xs_seen s))); [unfold extras; destruct use_2pl_locks; [by apply does_ret|apply Hextra]|].
  intros l ->. apply does_ret. unfold load_next_extra. cbn [xs_extra xs_extra_pos]. destruct (extras _ _) as [|[rid rec] l]; simpl.
  - eapply does_mono; [apply ix_register_ok|]. intros s' ->. done.
  - apply does_ret. by eapply extra_ahead.
Qed.

Lemma ix_loop_ok mid : ∀ f s x y, between x y mid → xs_scan s = Some (x, y) → (length mid < f)%nat → (length mid < fuel)%nat →
  does I (ix_advance_loop std_hash ndebug tab t use_2pl_locks cols_ name f s) (is_ahead I ixs true (index_rows (xs_conds s) (xs_seen s) mid)).
Proof.
  induction mid as [|e mid IH]; intros [|f] s x y Hb Hsc Hf Hfu; simpl in Hf; try lia; cbn [ix_advance_loop]; rewrite Hsc.
  - pose proof (between_end x y Hb) as ->. rewrite decide_True by done. unfold index_rows. simpl. rewrite union_empty_l_L. by eapply ix_extra_ok.
  - destruct (between_step x y e mid Hb) as (Hne & Hget & Hnext). rewrite decide_False by done. eapply does_seq; [exact Hget|]. intros rid ->.
    unfold load_visible_index_current. apply does_bind. eapply does_seq; [apply (se_read Hs)|]. intros o ->. apply does_ret.
    set (seen := {[e.2]} ∪ xs_seen s).
    assert (index_rows (xs_conds s) (xs_seen s) (e :: mid) = omap (matching (xs_conds s)) [e.2] ++ index_rows (xs_conds s) seen mid) as ->.
    { unfold index_rows. cbn [fmap list_fmap list_to_set omap list_omap]. replace ({[e.2]} ∪ list_to_set (snd <$> mid) ∪ xs_seen s) with (list_to_set (snd <$> mid) ∪ seen) by (unfold seen; set_solver).
      destruct (matching (xs_conds s) e.2); done. }
    assert (∀ s', xs_conds s' = xs_conds s → xs_seen s' = seen → does I (x' ← on_index name (Ix.scan_next ndebug x y);
      ix_advance_loop std_hash ndebug tab t use_2pl_locks cols_ name f (with_scan (Some (x', y)) s')) (is_ahead I ixs true (index_rows (xs_conds s) seen mid))) as Hmiss.
    { intros s' <- <-. eapply does_seq; [exact Hnext|]. intros x' Hb'. by apply (IH f (with_scan (Some (x', y)) s') x' y); [..|lia|simpl in *; lia]. }
    cbn [omap list_omap]. unfold matching at 1. destruct (view !! e.2) as [r|]; [destruct (eval_conds r cols_ (xs_conds s))|].
    2, 3: lazymatch goal with |- context [with_scan (Some (_, _)) ?st] => exact (Hmiss st eq_refl eq_refl) end.
    apply does_ret. cbn [app]. split; [done|]. apply does_ret. split_and!; [done..|]. cbn [fst snd nextTuple IndexScanExecutor]. unfold ix_next.
    cbn [xs_end xs_scan]. rewrite Hsc, decide_False by done. eapply does_seq; [exact Hnext|]. intros x' Hb'. unfold ix_advance.
    match goal with |- does _ (ix_advance_loop _ _ _ _ _ _ _ _ ?st) _ => apply (IH fuel st x' y) end; try done; simpl in *; lia.
Qed.

(** The entries of the range, in order: there is one such list. *)
Definition range_entries (fed : list Condition) (mid : list IxTree.entry) : Prop := let b := build_bounds tab fed index_cols false no_bounds in
  sorted mid ∧ ∀ e, e ∈ mid ↔ IxTree.holds ns G e ∧ in_range b (entry_rank e).

(** The conditions are on valid keys and do not exclude each other. *)
Record scannable (fed : list Condition) : Prop := {
  sc_lower : IxKeys.key_valid cs (lower_key (build_bounds tab fed index_cols false no_bounds));
  sc_upper : IxKeys.key_valid cs (upper_key (build_bounds tab fed index_cols false no_bounds));
  sc_ordered : ordered (build_bounds tab fed index_cols false no_bounds)
}.

Lemma positions_ok fed mid : scannable fed → range_entries fed mid → let b := build_bounds tab fed index_cols false no_bounds in
  does I (x ← on_index name (start_pos b); y ← on_index name (end_pos b); mret (x, y)) (λ p, between p.1 p.2 mid).
Proof.
  intros [H1 H2 H3] [M1 M2]. cbn zeta. eapply does_seq; [by apply start_pos_ok|]. intros x Hx. eapply does_seq; [by apply end_pos_ok|]. intros y Hy.
  apply does_ret. destruct (positions_between _ x y H3 Hx Hy) as (mid' & Hb & M3 & M4). assert (mid' = mid) as ->; [|done].
  eapply (IxScan.sorted_unique (cmp:=IxKeys.key_cmp cs)); [done..|]. intros e. by rewrite M2, M4.
Qed.

Lemma range_entries_exist fed w : I w → scannable fed → ∃ mid, range_entries fed mid.
Proof.
  intros Hw [H1 H2 H3]. destruct (start_pos_ok _ H1 w Hw) as (x & w1 & _ & Hw1 & Hx). destruct (end_pos_ok _ H2 w1 Hw1) as (y & w2 & _ & _ & Hy).
  destruct (positions_between _ x y H3 Hx Hy) as (mid & _ & M1 & M2). by exists mid.
Qed.

(** The scan starts with the conditions [fed]. *)
Lemma ix_start_ok fed mid s : scannable fed → range_entries fed mid → (length mid < fuel)%nat → (length (index_rows fed ∅ mid) < fuel)%nat →
  does I (ix_start std_hash ndebug fuel tab t use_2pl_locks cols_ name index_cols fed s) (delivers I ixs true (index_rows fed ∅ mid)).
Proof.
  intros Hsc Hr Hf Hl. pose proof (positions_ok fed mid Hsc Hr) as Hp. intros w Hw. destruct (Hp w Hw) as ([x y] & w1 & Hrun & Hw1 & Hb).
  apply bind_inv_ok in Hrun as (x0 & w2 & Hx & Hrun). apply bind_inv_ok in Hrun as (y0 & w3 & Hy & Hrun). injection Hrun as <- <- <-.
  unfold ix_start. cbn zeta. rewrite (bind_ok _ _ _ _ _ Hx), (bind_ok _ _ _ _ _ Hy). revert w3 Hy Hw1. intros w3 _ Hw3.
  match goal with |- context [ix_advance _ _ _ _ _ _ _ _ ?st] => set (s0 := st) end.
  assert (does I (ix_advance std_hash ndebug fuel tab t use_2pl_locks cols_ name s0) (delivers I ixs true (index_rows fed ∅ mid))) as Hd; [|by apply Hd].
  eapply does_mono; [by apply (ix_loop_ok mid fuel (with_cur None (xs_end s0) s0) x0 y0)|]. intros s' Ha. split; [exact Ha|]. intros k. by eapply default_batches.
Qed.

Lemma index_scan_implements mid : join_inner = None → scannable (conds0 tab conds_) → range_entries (conds0 tab conds_) mid →
  (length mid < fuel)%nat → (length (index_rows (conds0 tab conds_) ∅ mid) < fuel)%nat → implements I ixs true (index_rows (conds0 tab conds_) ∅ mid).
Proof.
  intros Hj Hsc Hr Hf Hl. split.
  - intros s. cbn [beginTuple IndexScanExecutor]. unfold ix_begin. rewrite Hj. by apply ix_start_ok.
  - intros s. eapply does_mono; [apply ix_register_ok|]. done.
Qed.

(** The scan on the inside of a join, for the value [v l] that the left record [l] gives it. *)
Lemma index_join_implements lcols outer inner oc ic (dom : record → Prop) (v : record → Value) (mid : record → list IxTree.entry) :
  let fed l := conds0 tab conds_ ++ [join_cond tab inner (v l)] in
  join_inner = Some (outer, inner) → find_col lcols outer = Some oc → find_col cols_ (mk_TabCol tab inner) = Some ic →
  (∀ l, dom l → does I (join_value ic oc l) (λ x, x = v l)) →
  (∀ l, dom l → scannable (fed l) ∧ range_entries (fed l) (mid l) ∧ (length (mid l) < fuel)%nat ∧ (length (index_rows (fed l) ∅ (mid l)) < fuel)%nat) →
  implements_for I ixs lcols dom (λ l, index_rows (fed l) ∅ (mid l)).
Proof.
  intros fed Hj Ho Hi Hv Hall. split.
  - intros l s Hl. assert (does I (bind_join_key ixs l lcols s) (λ x, xs_join_key x.2 = Some (v l))) as Hbind.
    { cbn [bind_join_key IndexScanExecutor]. unfold ix_bind, get_col. rewrite Hj, Ho, Hi. apply does_bind, does_ret, does_bind, does_ret.
      eapply does_seq; [by apply Hv|]. intros x ->. by apply does_ret. }
    eapply does_mono; [exact Hbind|]. intros [b s1] Hx. cbn [snd] in *. destruct (Hall l Hl) as (H1 & H2 & H3 & H4).
    assert (beginTuple ixs s1 = ix_start std_hash ndebug fuel tab t use_2pl_locks cols_ name index_cols (fed l) s1) as ->.
    { cbn [beginTuple IndexScanExecutor]. unfold ix_begin. by rewrite Hj, Hx. }
    eapply does_mono; [by apply (ix_start_ok (fed l) (mid l))|]. intros s'. apply delivers_weaken.
  - intros s. eapply does_mono; [apply ix_register_ok|]. done.
Qed.
End index_scan.
End facts.
End ScanFacts.
