(* ===== verification/ScanViews.v ===== *)
(** * What a transaction sees

    The view of a transaction: the records of a table as its reads return them.  Reading does
    not change the view, nor does taking the shared locks that a transaction without snapshot
    takes, as long as no other transaction holds a conflicting lock. *)

From S2P Require Import Prelude RecordFile Recovery Conditions LockManager LockFacts Mvcc Index Executor ExecutorFacts Scans ScanBounds ScanFacts.

Module ScanViews.
Import RecFile Cond Mvcc Exec ExecFacts Scans ScanFacts.

(** ** Shared locks *)

Section locks.
Context (std_hash : Z → Z) (t : Z).

(** The transaction may lock every record in shared mode. *)
Definition readable (l : Lm.LockManager) : Prop :=
  (∃ x, Lm.txns l !! t = Some x ∧ Lm.state_ x ≠ Lm.SHRINKING) ∧
  ∀ fd rid q r, Lm.queue_of std_hash (Lm.record_lock fd rid) l = Some q → r ∈ Lm.request_queue_ q → Lm.granted_ r = true →
    if decide (Lm.txn_id_ r = t) then Lm.covers (Lm.lock_mode_ r) Lm.SHARED = true else Lm.compatible Lm.SHARED (Lm.lock_mode_ r) = true.

Lemma readable_put fd rid q l x : readable l → Lm.txns l !! t = Some x →
  (∀ r, r ∈ Lm.request_queue_ q → Lm.granted_ r = true →
    if decide (Lm.txn_id_ r = t) then Lm.covers (Lm.lock_mode_ r) Lm.SHARED = true else Lm.compatible Lm.SHARED (Lm.lock_mode_ r) = true) →
  readable (Lm.put_txn t (Lm.mk_Txn (Lm.state_ x) ({[Lm.record_lock fd rid]} ∪ Lm.lock_set_ x)) (Lm.put_queue std_hash (Lm.record_lock fd rid) (Some q) l)).
Proof.
  intros [(x' & Hx' & Hst) Hq] Hx Hnew. assert (x' = x) as -> by congruence. split.
  - eexists. simpl. rewrite lookup_insert_eq. by split.
  - intros fd' rid' q' r Hq'. change (Lm.queue_of std_hash (Lm.record_lock fd' rid') (Lm.put_queue std_hash (Lm.record_lock fd rid) (Some q) l) = Some q') in Hq'.
    rewrite LmFacts.queue_of_put in Hq'. case_decide; [injection Hq' as <-; by apply Hnew|]. by eapply Hq.
Qed.

Lemma shared_lock_ok fd rid l : readable l → ∃ l', Lm.lock_shared_on_record std_hash t rid fd l = (Ok true, l') ∧ readable l'.
Proof.
  intros Hr. pose proof Hr as [(x & Hx & Hst) Hq]. unfold Lm.lock_shared_on_record, Lm.lock, Lm.txn_of, get, deref, mbind, M_bind. rewrite Hx. simpl.
  rewrite decide_False by done. set (lid := Lm.record_lock fd rid) in *.
  assert (∀ q, Lm.txns (Lm.put_queue std_hash lid q l) !! t = Some x) as Hpx by done.
  destruct (Lm.queue_of std_hash lid l) as [q|] eqn:Eq; simpl.
  2:{ unfold modify, Lm.remember_lock, Lm.txn_of, deref, mbind, M_bind. rewrite Hpx. simpl. eexists. split; [done|]. apply readable_put; [done..|].
      intros r [->|[]%elem_of_nil]%elem_of_cons _. simpl. by rewrite decide_True. }
  specialize (Hq fd rid q). case_decide as En.
  - unfold modify, Lm.remember_lock, Lm.txn_of, deref, mbind, M_bind. rewrite Hpx. simpl. eexists. split; [done|]. apply readable_put; [done..|].
    intros r [->|[]%elem_of_nil]%elem_of_cons _. simpl. by rewrite decide_True.
  - destruct (list_find (Lm.owned t) (Lm.request_queue_ q)) as [[i r]|] eqn:Ef.
    + apply list_find_Some in Ef as (Hi & [Ht Hg] & _). pose proof (Hq r Eq (list_elem_of_lookup_2 _ _ _ Hi) Hg) as Hc. rewrite decide_True in Hc by done.
      rewrite Hc. by exists l.
    + assert (existsb (Lm.blocks t Lm.SHARED) (Lm.request_queue_ q) = false) as ->.
      { apply not_true_iff_false. intros (r & Hr0 & Hb)%existsb_exists. apply list_elem_of_In in Hr0. unfold Lm.blocks in Hb.
        apply andb_prop in Hb as [[Hg Ht]%andb_prop Hc]. apply bool_decide_eq_true_1 in Ht. pose proof (Hq r Eq Hr0 Hg) as H1. rewrite decide_False in H1 by done.
        by rewrite H1 in Hc. }
      unfold modify, Lm.remember_lock, Lm.txn_of, deref, mbind, M_bind. rewrite Hpx. simpl. eexists. split; [done|]. apply readable_put; [done..|].
      intros r [Hin|[->|[]%elem_of_nil]%elem_of_cons]%elem_of_app Hg; [by apply Hq|]. simpl. by rewrite decide_True.
Qed.
End locks.

(** ** Views *)

Definition visible (tm : TransactionManager) (tab : bytes) (t : Z) (x : Transaction) (rid : Rid) (physical : bytes) : option bytes :=
  if HasMvccState tm then
    match mvcc_versions_ (versions tm) !! MvccKey tab rid with
    | None => Some physical
    | Some e => VisibleRecordLocked (vs e) physical t x
    end
  else Some physical.

Definition view_of (tm : TransactionManager) (tab : bytes) (t : Z) (x : Transaction) (tb : Recovery.Table) : gmap Rid record :=
  map_imap (visible tm tab t x) (Recovery.t_records tb).

Definition with_locks (l : Lm.LockManager) (tm : TransactionManager) : TransactionManager :=
  set_sys (mk_System (fhs_ (sys tm)) (fds_ (sys tm)) (tabs_ (sys tm)) l (log (sys tm))) tm.

(** A transaction that reads a table, and takes locks unless it has a snapshot. *)
Record reader (tm : TransactionManager) (tab : bytes) (t : Z) (x : Transaction) (tb : Recovery.Table) (fd : Z) : Prop := {
  re_txn : txns tm !! t = Some x;
  re_table : fhs_ (sys tm) !! tab = Some tb;
  re_fd : fds_ (sys tm) !! tab = Some fd;
  re_plain : IsMvccTxn x = false ∨ isolation_level_ x ≠ SERIALIZABLE
}.

Section views.
Context (std_hash : Z → Z) (J : gmap string Ix.IxIndexHandle → Prop).
Context (tm : TransactionManager) (tab : bytes) (t : Z) (x : Transaction) (tb : Recovery.Table) (fd : Z).
Context (Hr : reader tm tab t x tb fd).

Abbreviation two_phase := (negb (IsMvccTxn x)).

(** The states of the world while the transaction reads. *)
Definition reading (w : World) : Prop :=
  (∃ l, w_tm w = with_locks l tm ∧ (two_phase = true → readable std_hash t l)) ∧ J (w_ihs w).

Lemma with_locks_same l l' : with_locks l (with_locks l' tm) = with_locks l tm.
Proof. done. Qed.

Lemma on_table_read {A} (m : M Recovery.Table A) a : m tb = (Ok a, tb) → does reading (on_tm (on_table tab m)) (λ b, b = a).
Proof.
  intros Hm w Hw. pose proof Hw as [(l & El & Hl) Hj]. exists a, w. split_and!; [|done|done]. unfold on_tm, on_table, Recovery.at_table. rewrite El.
  simpl. rewrite (re_table _ _ _ _ _ _ Hr), Hm. simpl. rewrite insert_id by apply (re_table _ _ _ _ _ _ Hr). f_equal. destruct w. simpl in *. by rewrite El.
Qed.

Lemma lock_read rid : two_phase = true → does reading (fd ← on_tm (fd_of tab); on_tm (on_locks (Lm.lock_shared_on_record std_hash t rid fd));; mret tt) (λ _, True).
Proof.
  intros H2 w Hw. pose proof Hw as [(l & El & Hl) Hj]. destruct (shared_lock_ok std_hash t fd rid l (Hl H2)) as (l' & Hlock & Hl').
  exists tt, (mk_World (with_locks l' tm) (w_ihs w)). split_and!; [| |done].
  - unfold on_tm, fd_of, on_locks, mbind, M_bind, deref. rewrite El. simpl. rewrite (re_fd _ _ _ _ _ _ Hr). simpl. by rewrite Hlock.
  - split; [|done]. by exists l'.
Qed.

Lemma read_visible_ok rid : does reading (read_visible std_hash tab t two_phase rid) (λ o, o = view_of tm tab t x tb !! rid).
Proof.
  unfold read_visible. eapply (does_seq _ _ _ (λ _, True)).
  { destruct two_phase eqn:E2; [by apply lock_read|by apply does_ret]. }
  intros _ _ w Hw. pose proof Hw as [(l & El & Hl) Hj]. unfold view_of. rewrite map_lookup_imap.
  unfold try_catch, get, mbind at 1, M_bind at 1. destruct (Recovery.t_records tb !! rid) as [phys|] eqn:Ep; simpl.
  - assert (Recovery.get_record rid tb = (Ok phys, tb)) as Hg by (unfold Recovery.get_record, get, mbind, M_bind; by rewrite Ep).
    destruct (on_table_read _ _ Hg w Hw) as (a & w1 & Hrun & Hw1 & ->). rewrite (bind_ok _ _ _ _ _ Hrun).
    assert (HasMvccState (w_tm w) = HasMvccState tm) as -> by by rewrite El. unfold visible. pose proof Hw1 as [(l1 & El1 & _) _].
    destruct (HasMvccState tm) eqn:Em; [|by exists (Some phys), w1].
    unfold on_tm, GetVisibleRecord, txn_of, get, deref, mbind, M_bind. rewrite El1. simpl. rewrite (re_txn _ _ _ _ _ _ Hr). simpl.
    assert (HasMvccState (with_locks l1 tm) = true) as -> by done. rewrite andb_false_r. rewrite <-El1.
    destruct (mvcc_versions_ (versions tm) !! MvccKey tab rid) as [e|]; simpl; eexists _, w1; (split_and!; [destruct w1; reflexivity|done|done]).
  - assert (on_tm (on_table tab (Recovery.get_record rid)) w = (Err (RecordNotFoundError (page_no rid) (slot_no rid)), w)) as Hg.
    { unfold on_tm, on_table, Recovery.at_table. rewrite El. simpl. rewrite (re_table _ _ _ _ _ _ Hr). unfold Recovery.get_record, get, mbind, M_bind. rewrite Ep. simpl.
      rewrite insert_id by apply (re_table _ _ _ _ _ _ Hr). f_equal. destruct w. simpl in *. by rewrite El. }
    rewrite (bind_err _ _ _ _ _ Hg). by exists None, w.
Qed.

Lemma register_ok cols_ conds rids : does reading (on_tm (RegisterSerializableRead tab cols_ conds rids t)) (λ _, True).
Proof.
  intros w Hw. pose proof Hw as [(l & El & Hl) Hj]. exists tt, w. split_and!; [|done|done].
  unfold on_tm, RegisterSerializableRead, txn_of, deref, mbind, M_bind. rewrite El. simpl. rewrite (re_txn _ _ _ _ _ _ Hr). simpl.
  assert (negb (IsMvccTxn x) || negb (bool_decide (isolation_level_ x = SERIALIZABLE)) = true) as ->.
  { destruct (re_plain _ _ _ _ _ _ Hr) as [->|Hi]; [done|]. rewrite (bool_decide_eq_false_2 _ Hi). apply orb_true_r. }
  destruct w. simpl in *. by rewrite El.
Qed.

Lemma reading_sees cols_ : sees std_hash reading tab t two_phase cols_ (view_of tm tab t x tb).
Proof. split; [apply read_visible_ok|intros; apply register_ok]. Qed.

Lemma table_rids_ok : does reading (on_tm (on_table tab table_rids)) (λ l, l = merge_sort rid_le (elements (dom (Recovery.t_records tb)))).
Proof. by apply on_table_read. Qed.
End views.
End ScanViews.
