(* ===== verification/DmlWhere.v ===== *)
(** * DELETE and UPDATE with their scan ([portal.h])

    [Portal::start] runs the scan of the WHERE clause to its end and collects the ids of the
    records before the executor of the statement starts.  Here for plans with a sequential scan,
    which uses no index. *)

From S2P Require Import Prelude Disk RecordFile Log LogFacts Recovery Conditions LockManager LockFacts Mvcc Executor ExecutorFacts Aggregate Index Scans ScanBounds ScanFacts ScanViews Dml DmlIndexes DmlFacts DmlUndo DmlRun.

Module DmlWhere.
Import RecFile Cond Mvcc Exec ExecFacts Agg Scans ScanFacts ScanViews Dml DmlIndexes DmlFacts DmlUndo DmlRun.

(** ** Collecting record ids *)

Lemma does_assoc {A B C} (I : World → Prop) (m : M World A) (h : A → M World B) (k : B → M World C) Q :
  does I (a ← m; b ← h a; k b) Q ↔ does I (b ← (a ← m; h a); k b) Q.
Proof. split; intros H w Hw; destruct (H w Hw) as (c & w' & Hrun & ?); exists c, w'; (split; [|done]); revert Hrun; unfold mbind, M_bind; by destruct (m w) as [[a|e] w1]. Qed.

Section collect.
Context (e : Exec World) (rid : ex_st e → Rid).

(** [for (scan->beginTuple(); !scan->is_end(); scan->nextTuple()) rids.push_back(scan->rid())]. *)
Fixpoint collect_loop (fuel : nat) (acc : list Rid) (s : ex_st e) : M World (list Rid * ex_st e) :=
  match fuel with
  | O => throw Undefined
  | S fuel =>
      if is_end e s then mret (acc, s)
      else
        s' ← nextTuple e s;
        collect_loop fuel (acc ++ [rid s]) s'
  end.

Definition collect_rids (fuel : nat) : M World (list Rid) :=
  s ← beginTuple e (ex_init e);
  p ← collect_loop fuel [] s;
  finish e p.2;;
  mret p.1.
End collect.

Section statements.
Context (std_hash : Z → Z) (os_fd : gmap Z string → Z) (free_slot : Recovery.Table → Rid) (fuel : nat) (t : Z).

(** A sequential scan needs no open index. *)
Definition scan_rids (tab : bytes) (cs : list ColMeta) (conds : list Condition) (use_2pl_locks : bool) : M TransactionManager (list Rid) := λ tm,
  let '(x, w) := collect_rids (SeqScanExecutor std_hash fuel tab t use_2pl_locks cs conds) ss_rid fuel (mk_World tm ∅) in (x, w_tm w).

(** [Portal::start] and [Portal::run] of DELETE and UPDATE, for the plan with a sequential scan:
    [do_planner] makes one when [get_index_cols] finds no index for the conditions.  Plans with an
    index scan are not modelled here. *)
Definition scan_then (tab : bytes) (conds : list Condition) (k : list Rid → M TransactionManager unit) : M TransactionManager unit :=
  m ← get_table tab;
  x ← txn_of t;
  rids ← scan_rids tab (tm_cols m) conds (negb (IsMvccTxn x));
  k rids.
Definition run_delete_where (tab : bytes) (conds : list Condition) : M TransactionManager unit :=
  scan_then tab conds (λ rids, exec_stmt std_hash os_fd free_slot t (Delete tab conds rids)).
Definition run_update_where (tab : bytes) (scs : list SetClause) (conds : list Condition) : M TransactionManager unit :=
  scan_then tab conds (λ rids, exec_stmt std_hash os_fd free_slot t (Update tab scs conds rids)).

(** ** What the scan collects *)

Section collected.
Context (I : World → Prop) (tab : bytes) (cs : list ColMeta) (view : gmap Rid record) (conds : list Condition).
Context (Hs : sees std_hash I tab t true cs view).

Abbreviation seq := (SeqScanExecutor std_hash fuel tab t true cs conds).
Abbreviation matches := (λ r, is_Some (matching cs view conds r)).

Lemma scan_collects l : ∀ f1 f sc s acc, scan_at l sc → Forall good_rid l → (length l < f1)%nat → (length l < fuel)%nat → (length l < f)%nat →
  does I (s' ← seq_advance std_hash tab t true cs conds f1 sc s; collect_loop seq ss_rid f acc s') (λ p, p.1 = acc ++ filter matches l).
Proof.
  induction l as [|r l IH]; intros [|f1] [|f] sc s acc Hat Hg Hf1 Hfu Hf; simpl in Hf1, Hf, Hfu; try lia; cbn [seq_advance].
  - inversion Hat as [? Hr|]; subst. unfold scan_is_end. rewrite Hr. cbn [page_no no_rid]. rewrite bool_decide_eq_true_2 by done.
    eapply does_seq; [eapply seq_register_ok; exact Hs|]. intros s' Hs'. cbn [collect_loop is_end seq SeqScanExecutor]. simpl in Hs'. unfold seq_is_end at 2, scan_is_end in Hs'. simpl in Hs'. rewrite Hr in Hs'.
    simpl. rewrite Hs'. simpl. apply does_ret. by rewrite app_nil_r.
  - apply Forall_cons in Hg as [Hgr Hg]. inversion Hat as [|? ? ? Hd Hr]; subst. unfold scan_is_end. rewrite bool_decide_eq_false_2 by done.
    refine (proj1 (does_assoc _ _ _ _ _) _). unfold seq_load. eapply (does_seq _ _ _ (λ o, o = matching cs view conds (rid_ sc))); [eapply does_seq; [apply (se_read _ _ _ _ _ _ _ Hs)|]; intros o ->; by apply does_ret|]. intros o ->.
    destruct (matching cs view conds (rid_ sc)) as [x|] eqn:Em.
    + apply does_bind, does_ret. cbn [collect_loop]. set (s' := mk_SeqState _ _ _ _ _ _). assert (is_end seq s' = false) as -> by (unfold s'; simpl; unfold seq_is_end, scan_is_end; simpl; by rewrite bool_decide_eq_false_2).
      cbn [nextTuple seq SeqScanExecutor]. unfold seq_next. unfold s' at 1. cbn [ss_scan]. eapply does_mono; [apply IH; [by eapply scan_at_next|done|lia..]|]. intros p Hp. rewrite Hp, filter_cons.
      rewrite decide_True by (rewrite Em; by eexists). by rewrite <-app_assoc.
    + eapply does_mono; [apply IH; [by eapply scan_at_next|done|lia..]|]. intros p Hp. rewrite Hp, filter_cons, decide_False; [done|]. rewrite Em. by intros [].
Qed.
End collected.

Section scanned.
Context (tab : bytes) (L n : Z) (ics : Shape) (recs : gmap Rid record) (s : TransactionManager) (Hh : holds_records std_hash t tab L n ics recs s).

(** The states of the scan: only locks change. *)
Definition scanning (w : World) : Prop := ∃ l, w_tm w = with_locks l s ∧ sole std_hash t l.

Lemma scanning_start : scanning (mk_World s ∅).
Proof. exists (locks (sys s)). split; [by destruct s as [? ? ? ? ? ? ? ? ? []]|]. apply Hh. Qed.

Lemma scanning_holds w : scanning w → holds_records std_hash t tab L n ics recs (w_tm w) ∧ others_same tab s (w_tm w).
Proof.
  intros (l & -> & Hl). eapply holds_quiet; [exact Hh| |done|apply Hh]. split; try done; [intros _; by eapply sole_known|]. intros tab0 tb0 H0. by exists tb0.
Qed.

Lemma scanning_table {A} (m : M Recovery.Table A) x : (∀ tb, fhs_ (sys s) !! tab = Some tb → m tb = (x, tb)) → ∀ w, scanning w → on_tm (on_table tab m) w = (x, w).
Proof.
  intros Hm w (l & El & Hl). destruct Hh as [_ (tb & Htb & _)]. unfold on_tm. rewrite El. assert (fhs_ (sys (with_locks l s)) !! tab = Some tb) as Htb' by done.
  rewrite (on_table_run tab m _ _ _ _ Htb' (Hm _ Htb)), upd_same by done. destruct w. simpl in *. by rewrite El.
Qed.

Lemma scanning_lock rid : does scanning (fd ← on_tm (fd_of tab); on_tm (on_locks (Lm.lock_shared_on_record std_hash t rid fd));; mret tt) (λ _, True).
Proof.
  intros w (l & El & Hl). destruct (rd_fd _ _ _ _ _ (proj1 Hh)) as [fd Hfd]. destruct (sole_lock std_hash t (Lm.record_lock fd rid) Lm.SHARED l Hl) as (l' & Hlock & Hl').
  exists tt, (mk_World (with_locks l' s) (w_ihs w)). split_and!; [| |done].
  - unfold on_tm, fd_of, on_locks, Lm.lock_shared_on_record, mbind, M_bind, deref. rewrite El. simpl. rewrite Hfd. simpl. by rewrite Hlock.
  - by exists l'.
Qed.

Lemma scanning_read rid : does scanning (read_visible std_hash tab t true rid) (λ o, o = recs !! rid).
Proof.
  unfold read_visible. eapply (does_seq _ _ _ (λ _, True)); [apply scanning_lock|]. intros _ _ w Hw. exists (recs !! rid), w. split; [|done].
  unfold try_catch, get. unfold mbind at 1, M_bind at 1. destruct (recs !! rid) as [rec|] eqn:Er.
  - rewrite (bind_ok _ _ w rec w).
    + destruct Hw as (l & El & _). assert (HasMvccState (w_tm w) = false) as ->; [|done]. rewrite El. exact (pl_mode _ _ (rd_plain _ _ _ _ _ (proj1 Hh))).
    + apply scanning_table; [|done]. intros tb Htb. destruct Hh as [_ (tb' & Htb' & E & _)]. assert (tb' = tb) as -> by congruence. unfold Recovery.get_record, get, mbind, M_bind. by rewrite E, Er.
  - rewrite (bind_err _ _ w (RecordNotFoundError (page_no rid) (slot_no rid)) w); [done|]. apply scanning_table; [|done]. intros tb Htb.
    destruct Hh as [_ (tb' & Htb' & E & _)]. assert (tb' = tb) as -> by congruence. unfold Recovery.get_record, get, mbind, M_bind. by rewrite E, Er.
Qed.

Lemma scanning_sees cs : sees std_hash scanning tab t true cs recs.
Proof.
  split; [apply scanning_read|]. intros conds rids w Hw. exists tt, w. split_and!; [|done|done]. destruct Hw as (l & El & _). destruct (plain_reads _ _ (rd_plain _ _ _ _ _ (proj1 Hh))) as (x & Hx & F1 & _).
  unfold on_tm, RegisterSerializableRead, txn_of, deref, mbind, M_bind. rewrite El. simpl. rewrite Hx. simpl. rewrite F1. simpl. destruct w. simpl in *. by rewrite El.
Qed.

(** The ids of the records that satisfy the conditions, in their order. *)
Definition where_rids (cs : list ColMeta) (conds : list Condition) : list Rid :=
  filter (λ r, is_Some (matching cs recs conds r)) (merge_sort rid_le (elements (dom recs))).

Lemma scan_rids_run cs conds : (size recs < fuel)%nat →
  ∃ s', scan_rids tab cs conds true s = (Ok (where_rids cs conds), s') ∧ holds_records std_hash t tab L n ics recs s' ∧ others_same tab s s'.
Proof.
  intros Hf. set (l := merge_sort rid_le (elements (dom recs))). assert (l ≡ₚ elements (dom recs)) as Hperm by apply merge_sort_Permutation.
  assert (length l < fuel)%nat as Hlf by (rewrite Hperm; change (size (dom recs) < fuel)%nat; by rewrite size_dom).
  destruct Hh as [[_ Htidy _ _ _] (tb & Htb & Hrec & _)]. assert (Forall good_rid l) as Hg.
  { rewrite Hperm. apply Forall_forall. intros r Hr. apply elem_of_elements, elem_of_dom in Hr as [v Hr]. rewrite <-Hrec in Hr. destruct (td_place _ (Htidy _ _ Htb) _ _ Hr) as [Hp _].
    unfold Recovery.page_ok in Hp. apply bool_decide_eq_true_1 in Hp. unfold good_rid, RM_NO_PAGE. unfold RM_FIRST_RECORD_PAGE in Hp. lia. }
  assert (does scanning (collect_rids (SeqScanExecutor std_hash fuel tab t true cs conds) ss_rid fuel) (λ x, x = where_rids cs conds)) as Hd.
  { unfold collect_rids. cbn [beginTuple SeqScanExecutor ex_init]. unfold seq_begin. refine (proj1 (does_assoc _ _ _ _ _) _). eapply (does_seq _ _ _ (λ x, x = l)).
    - intros w Hw. exists l, w. split_and!; [|done|done]. apply scanning_table; [|done]. intros tb' Htb'. assert (tb' = tb) as -> by congruence. unfold table_rids. by rewrite Hrec.
    - intros x ->. refine (proj2 (does_assoc _ _ _ _ _) _). eapply does_seq; [by eapply (scan_collects scanning); [apply scanning_sees|apply scan_at_init|..]|]. intros p Hp.
      eapply does_seq; [eapply seq_register_ok, scanning_sees|]. intros _ _. by apply does_ret. }
  destruct (Hd _ scanning_start) as (x & w & Hrun & Hw & ->). exists (w_tm w). split; [unfold scan_rids; by rewrite Hrun|by apply scanning_holds].
Qed.

Lemma where_rids_elem cs conds r : r ∈ where_rids cs conds ↔ ∃ rec, recs !! r = Some rec ∧ eval_conds rec cs conds = true.
Proof.
  unfold where_rids. rewrite list_elem_of_filter, merge_sort_Permutation, elem_of_elements, elem_of_dom. unfold matching. split.
  - intros [[x Hx] [rec Hr]]. rewrite Hr in Hx. exists rec. split; [done|]. by destruct (eval_conds rec cs conds).
  - intros (rec & -> & ->). by split.
Qed.

Lemma where_rids_nodup cs conds : NoDup (where_rids cs conds).
Proof. apply NoDup_filter. rewrite merge_sort_Permutation. apply NoDup_elements. Qed.

Lemma where_rids_length cs conds : (length (where_rids cs conds) ≤ size recs)%nat.
Proof.
  unfold where_rids. etransitivity; [apply length_filter|]. rewrite merge_sort_Permutation. change (size (dom recs) ≤ size recs)%nat. by rewrite size_dom.
Qed.
End scanned.

(** ** The records behind the statements *)

Implicit Types (recs : gmap Rid record).

Lemma mean_delete_rows cs conds rids : ∀ recs, ∃ recs', mfor (mean_delete_row cs conds) rids recs = (Ok tt, recs') ∧
  ∀ r, recs' !! r = match recs !! r with Some rec => if eval_conds rec cs conds && bool_decide (r ∈ rids) then None else Some rec | None => None end.
Proof.
  induction rids as [|r rids IH]; intros recs.
  - exists recs. split; [done|]. intros r. destruct (recs !! r); [|done]. by rewrite bool_decide_eq_false_2, andb_false_r by by intros ?%elem_of_nil.
  - simpl. set (recs1 := (mean_delete_row cs conds r recs).2). destruct (IH recs1) as (recs' & Hrun & Hl). exists recs'. split; [exact Hrun|].
    intros r'. rewrite Hl. destruct (decide (r' = r)) as [->|Hne].
    + rewrite (bool_decide_eq_true_2 (r ∈ r :: rids)) by by left. unfold recs1, mean_delete_row. simpl. destruct (recs !! r) as [rec|] eqn:Er; [|by rewrite Er]. destruct (eval_conds rec cs conds) eqn:Ec.
      * by rewrite lookup_delete_eq.
      * rewrite Er, Ec. done.
    + assert (recs1 !! r' = recs !! r') as ->. { unfold recs1, mean_delete_row. simpl. destruct (recs !! r); [|done]. destruct (eval_conds _ _ _); [|done]. by rewrite lookup_delete_ne. }
      destruct (recs !! r') as [rec|]; [|done]. rewrite (bool_decide_ext (r' ∈ r :: rids) (r' ∈ rids)); [done|]. rewrite elem_of_cons. naive_solver.
Qed.

(** A record as an update with unchanged keys leaves it. *)
Definition updated (cs : list ColMeta) (scs : list SetClause) (conds : list Condition) (rec : record) : record :=
  if eval_conds rec cs conds then match updated_record cs scs rec with Ok new => new | Err _ => rec end else rec.

Definition keys_kept (ics : Shape) (cs : list ColMeta) (scs : list SetClause) (conds : list Condition) recs : Prop :=
  map_Forall (λ _ old, eval_conds old cs conds = true → ∃ new, updated_record cs scs old = Ok new ∧ Forall (λ c, key_of new c = key_of old c) ics) recs.

Definition distinct_keys (ics : Shape) recs : Prop := ∀ r r' rec rec', recs !! r = Some rec → recs !! r' = Some rec' → r ≠ r' → Forall (λ c, key_of rec c ≠ key_of rec' c) ics.

Lemma mean_update_rows ics cs scs conds recs rids : keys_kept ics cs scs conds recs → distinct_keys ics recs → ∀ (done : gset Rid) recs1,
  NoDup rids → (∀ r, r ∈ rids → r ∉ done ∧ ∃ rec, recs !! r = Some rec ∧ eval_conds rec cs conds = true) →
  (∀ r, recs1 !! r = (λ rec, if decide (r ∈ done) then updated cs scs conds rec else rec) <$> recs !! r) →
  ∃ recs2, mfor (mean_update_row ics cs scs conds) rids recs1 = (Ok tt, recs2) ∧
    ∀ r, recs2 !! r = (λ rec, if decide (r ∈ done ∪ list_to_set rids) then updated cs scs conds rec else rec) <$> recs !! r.
Proof.
  intros Hkept Hdist. assert (∀ rec r, recs !! r = Some rec → Forall (λ c, key_of (updated cs scs conds rec) c = key_of rec c) ics) as Hkeys.
  { intros rec r Hr. unfold updated. destruct (eval_conds rec cs conds) eqn:Ec; [|by apply Forall_true]. destruct (Hkept _ _ Hr Ec) as (new & -> & Hk). done. }
  induction rids as [|r rids IH]; intros done recs1 Hnd Hr Hl.
  - exists recs1. split; [done|]. intros r. rewrite Hl. simpl. by rewrite union_empty_r_L.
  - apply NoDup_cons in Hnd as [Hnin Hnd]. destruct (Hr r) as (Hd & old & Hold & Hc); [by left|]. destruct (Hkept _ _ Hold Hc) as (new & Hnew & Hk).
    assert (updated cs scs conds old = new) as Hup by (unfold updated; by rewrite Hc, Hnew). simpl. unfold mbind, M_bind. unfold mean_update_row at 1.
    rewrite Hl, Hold. simpl. rewrite decide_False by done. rewrite Hc. unfold lift at 1, mbind, M_bind. rewrite Hnew. unfold put_record. rewrite decide_True.
    2:{ intros r' rec' Hr'. destruct (decide (r' = r)) as [->|Hne]; [by left|right]. rewrite Hl in Hr'. destruct (recs !! r') as [old'|] eqn:Hold'; [|done]. injection Hr' as <-.
        pose proof (Hdist _ _ _ _ Hold' Hold Hne) as Hdk. pose proof (Hkeys _ _ Hold') as Hk'. apply Forall_forall. intros c Hcin. rewrite Forall_forall in Hdk, Hk, Hk'.
        rewrite (Hk _ Hcin). case_decide; [rewrite (Hk' _ Hcin)|]; by apply Hdk. }
    destruct (IH ({[r]} ∪ done) (<[r := new]> recs1) Hnd) as (recs2 & Hrun & Hl2).
    + intros r' Hr'. destruct (Hr r') as (Hd' & Hex); [by right|]. split; [set_solver|done].
    + intros r'. destruct (decide (r' = r)) as [->|Hne].
      * rewrite lookup_insert_eq, Hold. simpl. rewrite decide_True by set_solver. by rewrite Hup.
      * rewrite lookup_insert_ne, Hl by done. destruct (recs !! r'); [|done]. simpl. f_equal. destruct (decide (r' ∈ done)); [rewrite decide_True by set_solver|rewrite decide_False by set_solver]; done.
    + exists recs2. split; [exact Hrun|]. intros r'. rewrite Hl2. simpl. by replace ({[r]} ∪ done ∪ list_to_set rids) with (done ∪ ({[r]} ∪ list_to_set rids)) by set_solver.
Qed.

(** ** Whole statements *)

Context `{!FreeSlots free_slot}.

Lemma where_run tab L n ics recs m tb st s conds (k : list Rid → M TransactionManager unit) :
  holds_records std_hash t tab L (Z.of_nat (size recs) * row_cost L tab + n) ics recs s → 0 ≤ n → 0 ≤ L → fhs_ (sys s) !! tab = Some tb → tabs_ (sys s) !! tab = Some m → (size recs < fuel)%nat →
  st = Delete tab conds (where_rids recs (tm_cols m) conds) ∨ (∃ scs, st = Update tab scs conds (where_rids recs (tm_cols m) conds) ∧ keeps_size (tm_cols m) scs L) →
  k (where_rids recs (tm_cols m) conds) = exec_stmt std_hash os_fd free_slot t st →
  ∃ s' slot, scan_then tab conds k s = ((mean_stmt ics (tm_cols m) slot st recs).1, s') ∧
    holds_records std_hash t tab L n ics (mean_stmt ics (tm_cols m) slot st recs).2 s' ∧ others_same tab s s'.
Proof.
  intros H Hn HL Htb Hm Hf Hst Hk. destruct (plain_reads _ _ (rd_plain _ _ _ _ _ (proj1 H))) as (x & Hx & F1 & _). assert (0 ≤ row_cost L tab) as Hc by (unfold row_cost; pose proof (LogFacts.size_nonneg tab); lia).
  destruct (scan_rids_run tab L _ ics recs s H (tm_cols m) conds Hf) as (s1 & Hscan & Hh1 & O1). unfold scan_then. rewrite (bind_ok _ _ s m s) by (unfold get_table; by rewrite Hm).
  rewrite (bind_ok _ _ s x s) by (unfold txn_of; by rewrite Hx). rewrite F1. simpl negb. rewrite (bind_ok _ _ _ _ _ Hscan), Hk. pose proof (where_rids_length recs (tm_cols m) conds) as Hlen.
  pose proof Hh1 as [_ (tb1 & Htb1 & _)]. assert (tabs_ (sys s1) !! tab = Some m) as Hm1 by (destruct O1 as (_ & _ & ->); done).
  assert (stmt_tab st = tab ∧ stmt_rows st = Z.of_nat (length (where_rids recs (tm_cols m) conds)) ∧ stmt_sized (tm_cols m) L st) as (E1 & E2 & E3) by (destruct Hst as [->|(scs & -> & ?)]; done).
  rewrite <-E1 in Htb1, Hm1 |- *. destruct (stmt_run std_hash os_fd free_slot t L n ics recs m tb1 st s1) as (s2 & Hrun & Hh2 & O2); try done.
  - rewrite E1, E2. eapply holds_mono; [|done]. nia.
  - exists s2, (free_slot tb1). split_and!; [done|done|]. rewrite E1 in *. by eapply others_same_trans.
Qed.

Lemma delete_where_run tab L n ics recs m tb conds s :
  holds_records std_hash t tab L (Z.of_nat (size recs) * row_cost L tab + n) ics recs s → 0 ≤ n → 0 ≤ L → fhs_ (sys s) !! tab = Some tb → tabs_ (sys s) !! tab = Some m → (size recs < fuel)%nat →
  ∃ s', run_delete_where tab conds s = (Ok tt, s') ∧ holds_records std_hash t tab L n ics (filter (λ p, eval_conds p.2 (tm_cols m) conds = false) recs) s' ∧ others_same tab s s'.
Proof.
  intros H Hn HL Htb Hm Hf. destruct (where_run tab L n ics recs m tb (Delete tab conds (where_rids recs (tm_cols m) conds)) s conds
    (λ rids, exec_stmt std_hash os_fd free_slot t (Delete tab conds rids))) as (s' & slot & Hrun & Hh & Ho); try done; [by left|].
  simpl in Hrun, Hh. destruct (mean_delete_rows (tm_cols m) conds (where_rids recs (tm_cols m) conds) recs) as (recs' & Emean & Hl). rewrite Emean in Hrun, Hh. simpl in Hrun, Hh.
  exists s'. split_and!; [done| |done]. assert (filter (λ p, eval_conds p.2 (tm_cols m) conds = false) recs = recs') as ->; [|done].
  apply map_eq. intros r. rewrite Hl. destruct (recs !! r) as [rec|] eqn:Er.
  - destruct (eval_conds rec (tm_cols m) conds) eqn:Ec; simpl.
    + rewrite bool_decide_eq_true_2 by (apply where_rids_elem; eauto). apply map_lookup_filter_None. right. intros v Hv. simpl. congruence.
    + by apply map_lookup_filter_Some.
  - apply map_lookup_filter_None. by left.
Qed.

Lemma holds_distinct tab L n ics recs s : holds_records std_hash t tab L n ics recs s → distinct_keys ics recs.
Proof.
  intros [[_ Ht _ _ _] (tb & Htb & <- & <- & _)] r r' rec rec' Hr Hr' Hne. apply Forall_forall. intros c (ix & -> & Hix)%list_elem_of_fmap E.
  pose proof (td_keyed _ (Ht _ _ Htb)) as Hk. rewrite Forall_forall in Hk. apply Hne. change (key rec ix = key rec' ix) in E.
  assert (Recovery.entries ix !! key rec ix = Some r) by (apply (Hk _ Hix); eauto). assert (Recovery.entries ix !! key rec' ix = Some r') by (apply (Hk _ Hix); eauto). congruence.
Qed.

Lemma update_where_run tab L n ics recs m tb scs conds s :
  holds_records std_hash t tab L (Z.of_nat (size recs) * row_cost L tab + n) ics recs s → 0 ≤ n → 0 ≤ L → fhs_ (sys s) !! tab = Some tb → tabs_ (sys s) !! tab = Some m → (size recs < fuel)%nat →
  keeps_size (tm_cols m) scs L → keys_kept ics (tm_cols m) scs conds recs →
  ∃ s', run_update_where tab scs conds s = (Ok tt, s') ∧ holds_records std_hash t tab L n ics (updated (tm_cols m) scs conds <$> recs) s' ∧ others_same tab s s'.
Proof.
  intros H Hn HL Htb Hm Hf Hks Hkk. destruct (where_run tab L n ics recs m tb (Update tab scs conds (where_rids recs (tm_cols m) conds)) s conds
    (λ rids, exec_stmt std_hash os_fd free_slot t (Update tab scs conds rids))) as (s' & slot & Hrun & Hh & Ho); try done; [right; eauto|]. simpl in Hrun, Hh.
  destruct (mean_update_rows ics (tm_cols m) scs conds recs (where_rids recs (tm_cols m) conds) Hkk (holds_distinct _ _ _ _ _ _ H) ∅ recs) as (recs' & Emean & Hl).
  - apply where_rids_nodup.
  - intros r Hr. split; [set_solver|]. by apply where_rids_elem.
  - intros r. by destruct (recs !! r).
  - rewrite Emean in Hrun, Hh. exists s'. split_and!; [done| |done]. assert (updated (tm_cols m) scs conds <$> recs = recs') as ->; [|done]. apply map_eq. intros r. rewrite lookup_fmap, Hl.
    destruct (recs !! r) as [rec|] eqn:Er; [|done]. simpl. f_equal. case_decide as Hd; [done|]. unfold updated. destruct (eval_conds rec (tm_cols m) conds) eqn:Ec; [|done].
    destruct Hd. rewrite union_empty_l_L. apply elem_of_list_to_set, where_rids_elem. eauto.
Qed.
End statements.
End DmlWhere.
