(* ===== verification/DmlClaims.v ===== *)
(** * What INSERT, DELETE and UPDATE guarantee

    Statements have their meaning on the records of a table, keep the indexes consistent and are
    taken back by an abort; and two cases in which the code gives less than it means to: an abort
    that leaves a row that was inserted and deleted, and an UPDATE that stores a string as a
    number.  All for transactions without snapshot, while there are no versions. *)

From S2P Require Import Prelude Disk RecordFile RecordSpec Log LogFacts Recovery Conditions LockManager LockFacts Watermark Mvcc MvccFacts MvccClaims Executor Aggregate Scans Dml DmlIndexes DmlFacts DmlUndo DmlRun DmlWhere.

Module DmlClaims.
Import RecFile Cond Mvcc MvccClaims Exec Agg Scans Dml DmlIndexes DmlFacts DmlUndo DmlRun DmlWhere.

(** ** Free slots *)

Definition slots_of (tb : Recovery.Table) : list Rid := p ← seqZ RM_FIRST_RECORD_PAGE (Recovery.t_pages tb - RM_FIRST_RECORD_PAGE); mk_Rid p <$> seqZ 0 (Recovery.t_slots tb).

(** The first free slot, or one of the next page. *)
Definition first_free (tb : Recovery.Table) : Rid :=
  default (mk_Rid (Recovery.t_pages tb) 0) (head (filter (λ r, Recovery.t_records tb !! r = None) (slots_of tb))).

Lemma slots_of_elem tb r : r ∈ slots_of tb → RM_FIRST_RECORD_PAGE ≤ page_no r < Recovery.t_pages tb ∧ Recovery.slot_ok (slot_no r) tb = true.
Proof.
  unfold slots_of. intros (p & Hr & Hp)%list_elem_of_bind. apply list_elem_of_fmap in Hr as (q & -> & Hq). apply elem_of_seqZ in Hp, Hq. simpl.
  split; [lia|]. apply bool_decide_eq_true. lia.
Qed.

Lemma first_free_cases tb : (first_free tb ∈ slots_of tb ∧ Recovery.t_records tb !! first_free tb = None) ∨ first_free tb = mk_Rid (Recovery.t_pages tb) 0.
Proof.
  unfold first_free. destruct (filter _ _) as [|r l] eqn:E; [by right|left]. simpl.
  assert (r ∈ filter (λ r, Recovery.t_records tb !! r = None) (slots_of tb)) as Hr by (rewrite E; by left). apply list_elem_of_filter in Hr as [? ?]. done.
Qed.

#[export] Instance first_free_slots : FreeSlots first_free.
Proof.
  split; intros tb.
  - intros Hp. destruct (first_free_cases tb) as [[_ H]| ->]; [done|]. apply eq_None_not_Some. intros [v Hv]. specialize (Hp _ _ Hv). simpl in Hp.
    unfold Recovery.page_ok in Hp. apply bool_decide_eq_true_1 in Hp. simpl in Hp. lia.
  - intros Hp. destruct (first_free_cases tb) as [[H _]| ->]; [|simpl; lia]. apply slots_of_elem in H as [? _]. lia.
  - intros Hs. destruct (first_free_cases tb) as [[H _]| ->]; [by apply slots_of_elem in H as [_ ?]|]. apply bool_decide_eq_true. simpl. lia.
Qed.

(** The heap file gives a freed slot to the next record. *)
Lemma slot_reused :
  ((r1 ← RecFile.insert_record RecSpec.rec_a; RecFile.delete_record r1;; r2 ← RecFile.insert_record RecSpec.rec_a; mret (bool_decide (r1 = r2))) RecSpec.sample_file).1 = Ok true.
Proof. vm_compute. reflexivity. Qed.

(** ** The properties *)

(** C12: Statements have their meaning. INSERT, DELETE and UPDATE run to their end and have exactly
    the effect and the result of [mean_stmt] on the records of the table, errors included:
    wrong number of values, values that do not fit their columns, a key that another record has.
    The indexes stay consistent with the records and the other tables do not change.  The
    transaction has no snapshot, no versions exist, nobody else holds a lock, and the log buffer
    has room for the log records. *)
Theorem statement_meaning (std_hash : Z → Z) (os_fd : gmap Z string → Z) (free_slot : Recovery.Table → Rid) `{!FreeSlots free_slot} t L n m tb st s :
  let tab := stmt_tab st in
  let run := mean_stmt (shape (Recovery.t_indexes tb)) (tm_cols m) (free_slot tb) st (Recovery.t_records tb) in
  fhs_ (sys s) !! tab = Some tb → tabs_ (sys s) !! tab = Some m → 0 ≤ n → 0 ≤ L →
  ready std_hash t tab (stmt_rows st * row_cost L tab + n) s →
  map_Forall (λ _ rec, Log.size rec ≤ L) (Recovery.t_records tb) → stmt_sized (tm_cols m) L st →
  ∃ s' tb', exec_stmt std_hash os_fd free_slot t st s = (run.1, s') ∧
    fhs_ (sys s') !! tab = Some tb' ∧ Recovery.t_records tb' = run.2 ∧ tidy tb' ∧ others_same tab s s' ∧ ready std_hash t tab n s'.
Proof.
  intros tab run Htb Hm Hn HL Hr Hlen Hsz.
  destruct (stmt_run std_hash os_fd free_slot t L n (shape (Recovery.t_indexes tb)) (Recovery.t_records tb) m tb st s) as (s' & Hrun & [Hr' (tb' & Htb' & E & _)] & Ho); [split; [done|by exists tb]|done..|].
  exists s', tb'. split_and!; try done. by eapply (rd_tidy _ _ _ _ _ Hr').
Qed.

(** C11: Transactions are atomic. However many statements a transaction runs, also when the last one
    throws in the middle, every index is consistent with its table, and an abort gives all
    tables and indexes the contents they had at the start.  The transaction has no snapshot, no
    versions exist, and every INSERT gets a slot that the transaction has not inserted into
    before. *)
Theorem statements_roll_back (std_hash : Z → Z) (os_fd : gmap Z string → Z) (free_slot : Recovery.Table → Rid) `{!FreeSlots free_slot} t sts s :
  plain t s → map_Forall (λ _, tidy) (fhs_ (sys s)) → writes_of t s = Some [] → fresh_inserts std_hash os_fd free_slot t sts s →
  let s1 := (run_stmts std_hash os_fd free_slot t sts s).2 in
  map_Forall (λ _, tidy) (fhs_ (sys s1)) ∧
  data_of (abort std_hash os_fd t s1).2 = data_of s ∧ owners_of (abort std_hash os_fd t s1).2 = owners_of s.
Proof.
  intros Hp Ht Hw Hf s1. pose proof (stmts_undoable (tabs_ (sys s)) std_hash os_fd free_slot t _ sts s (undoable_start _ t s Hp eq_refl Ht Hw) Hf) as Hu.
  split; [apply Hu|]. pose proof (abort_restores _ std_hash os_fd t _ _ Hu) as H. by injection H.
Qed.

(** C13: DELETE and UPDATE with a sequential scan, which is the plan when no index of the table
    matches the WHERE clause. The scan finds the records that satisfy the conditions; DELETE
    removes these and no others, and an UPDATE that leaves the keys of the indexes alone replaces
    these by what its SET clauses make of them and no others; the indexes stay consistent with
    the records and the other tables do not change.  The transaction has no snapshot, no
    versions exist, nobody else holds a lock, the log buffer has room for the log records, and
    the table has less than [fuel] records.  Statements with an index scan are not covered. *)
Theorem where_statements (std_hash : Z → Z) (os_fd : gmap Z string → Z) (free_slot : Recovery.Table → Rid) `{!FreeSlots free_slot} (fuel : nat) t L n m tb tab conds scs s :
  let recs := Recovery.t_records tb in
  fhs_ (sys s) !! tab = Some tb → tabs_ (sys s) !! tab = Some m → 0 ≤ n → 0 ≤ L →
  ready std_hash t tab (Z.of_nat (size recs) * row_cost L tab + n) s → map_Forall (λ _ rec, Log.size rec ≤ L) recs → (size recs < fuel)%nat →
  (∃ s' tb', run_delete_where std_hash os_fd free_slot fuel t tab conds s = (Ok tt, s') ∧ fhs_ (sys s') !! tab = Some tb' ∧ tidy tb' ∧
    Recovery.t_records tb' = filter (λ p, eval_conds p.2 (tm_cols m) conds = false) recs ∧ others_same tab s s') ∧
  (keeps_size (tm_cols m) scs L → keys_kept (shape (Recovery.t_indexes tb)) (tm_cols m) scs conds recs →
   ∃ s' tb', run_update_where std_hash os_fd free_slot fuel t tab scs conds s = (Ok tt, s') ∧ fhs_ (sys s') !! tab = Some tb' ∧ tidy tb' ∧
    Recovery.t_records tb' = updated (tm_cols m) scs conds <$> recs ∧ others_same tab s s').
Proof.
  intros recs Htb Hm Hn HL Hr Hlen Hf. assert (holds_records std_hash t tab L (Z.of_nat (size recs) * row_cost L tab + n) (shape (Recovery.t_indexes tb)) recs s) as Hh by (split; [done|by exists tb]).
  split.
  - edestruct (delete_where_run std_hash os_fd free_slot fuel t) as (s' & Hrun & [Hr' (tb' & Htb' & E & _)] & Ho); [exact Hh|done..|].
    exists s', tb'. split_and!; [exact Hrun|done|by eapply (rd_tidy _ _ _ _ _ Hr')|done|done].
  - intros Hks Hkk. edestruct (update_where_run std_hash os_fd free_slot fuel t) as (s' & Hrun & [Hr' (tb' & Htb' & E & _)] & Ho); [exact Hh|done..|].
    exists s', tb'. split_and!; [exact Hrun|done|by eapply (rd_tidy _ _ _ _ _ Hr')|done|done].
Qed.

(** ** A small database *)

(** The table [t(id int, v int)] with an index on [id] and the rows (1,0) and (2,0). *)
Definition id_only : list Recovery.Index := [Recovery.mk_Index [Recovery.mk_IndexCol 0 4] ∅].
Definition table_i : Recovery.Table :=
  Recovery.mk_Table (<[at_row 2 := row 2 0]> (<[at_row 1 := row 1 0]> ∅)) {[1 := 0]} 2 8 (all_add (row 2 0) (at_row 2) (all_add (row 1 0) (at_row 1) id_only)).
Definition meta_i : TabMeta := mk_TabMeta [id_col; v_col] [mk_IndexMeta [id_col]].
Definition tm_i : TransactionManager :=
  set_sys (mk_System {[tab_t := table_i]} {[tab_t := 3]} {[tab_t := meta_i]} (Lm.mk_LockManager ∅ ∅) (Log.make_log_manager (Disk.init {["db.log"%string := []]}))) tm0.

(** Transaction 0, without snapshot. *)
Definition db_i : TransactionManager := (begin_txn READ_COMMITTED tm_i).2.

Lemma rows_i r v : Recovery.t_records table_i !! r = Some v → (r = at_row 1 ∧ v = row 1 0) ∨ (r = at_row 2 ∧ v = row 2 0).
Proof.
  simpl. rewrite lookup_insert_Some. intros [[<- <-]|[_ H]]; [by right|]. rewrite lookup_insert_Some in H. destruct H as [[<- <-]|[_ H]]; [by left|]. by rewrite lookup_empty in H.
Qed.

Lemma tidy_i : tidy table_i.
Proof.
  split; [| |done|done].
  - apply all_keyed_add; [apply all_keyed_add; [|done|]|done|].
    + apply Forall_singleton. intros k r. simpl. split; [by rewrite lookup_empty|]. intros (rec & Hr & _). by rewrite lookup_empty in Hr.
    + by intros ix ->%list_elem_of_singleton.
    + intros ix (ix0 & -> & ->%list_elem_of_singleton)%list_elem_of_fmap. vm_compute. reflexivity.
  - by intros r v [[-> _]|[-> _]]%rows_i.
Qed.

Lemma plain_i : plain 0 db_i.
Proof. split; [|reflexivity|by eexists]. eexists. split; [reflexivity|]. by split. Qed.

Lemma all_tidy_i : map_Forall (λ _, tidy) (fhs_ (sys db_i)).
Proof. apply map_Forall_singleton, tidy_i. Qed.

Lemma ready_i n : n ≤ LOG_BUFFER_SIZE → ready (λ h, h) 0 tab_t n db_i.
Proof.
  intros Hn. split; [apply plain_i|apply all_tidy_i| |exact Hn|by eexists]. split; [eexists; split; [reflexivity|done]|].
  intros lid q req. unfold Lm.queue_of, Lm.shard_table.
  change (Lm.lock_table_shards_ (locks (sys db_i))) with (∅ : gmap Z (gmap Lm.LockDataId Lm.LockRequestQueue)). rewrite lookup_empty. simpl. by rewrite lookup_empty.
Qed.

Lemma sized_i : map_Forall (λ _ rec, Log.size rec ≤ 8) (Recovery.t_records table_i).
Proof. by intros r v [[_ ->]|[_ ->]]%rows_i. Qed.

Abbreviation exec0 := (exec_stmt (λ h, h) (λ _, 7) first_free).

(** Row 3 is inserted; then row 2 cannot become row 1. *)
Lemma statement_meaning_witness : ∃ s' tb', exec0 0 (Insert tab_t [set_int 3; set_int 5]) db_i = (Ok tt, s') ∧
  Recovery.t_records tb' !! at_row 0 = Some (row 3 5) ∧ tidy tb'.
Proof.
  destruct (statement_meaning (λ h, h) (λ _, 7) first_free 0 8 0 meta_i table_i (Insert tab_t [set_int 3; set_int 5]) db_i) as (s' & tb' & Hrun & Htb & Hrec & Ht & _);
    [reflexivity|reflexivity|lia|lia|apply ready_i; vm_compute; congruence|apply sized_i| |].
  - intros rec [= <-]. vm_compute. congruence.
  - exists s', tb'. split_and!; [exact Hrun| |exact Ht]. rewrite Hrec. vm_compute. reflexivity.
Defined.

(** A row is inserted, one changed, one deleted; the last statement meets a key that is there. *)
Definition arith (minus : bool) (v : Z) : SetClause := mk_SetClause [Byte.x69] (set_int v) None true [Byte.x69] minus.
Definition stmts_i : list Stmt :=
  [Insert tab_t [set_int 3; set_int 5]; Update tab_t [arith false 4] [] [at_row 1]; Delete tab_t [] [at_row 2]; Insert tab_t [set_int 5; set_int 0]].

Lemma statements_roll_back_witness :
  (run_stmts (λ h, h) (λ _, 7) first_free 0 stmts_i db_i).1 = Err RMDBError ∧
  data_of (abort0 0 (run_stmts (λ h, h) (λ _, 7) first_free 0 stmts_i db_i).2).2 = data_of db_i.
Proof.
  split; [vm_compute; reflexivity|]. apply (statements_roll_back (λ h, h) (λ _, 7) first_free 0 stmts_i db_i); [apply plain_i|apply all_tidy_i|reflexivity|].
  vm_compute. repeat split.
Defined.

(** Row 2 by its [id]; [v] is set to 7 in both rows. *)
Definition id_is (z : Z) : Condition := mk_Condition (mk_TabCol tab_t [Byte.x69]) OP_EQ true (mk_TabCol [] []) (tv_val (set_int z)).
Definition set_v : SetClause := mk_SetClause [Byte.x76] (set_int 7) (Some (enc_int 4 7)) false [] false.

Lemma set_v_size : keeps_size [id_col; v_col] [set_v] 8.
Proof.
  intros old new Hold. change (updated_record [id_col; v_col] [set_v] old) with (Ok (write_bytes old 4 (enc_int 4 7))). intros [= <-]. unfold write_bytes, Log.size in *.
  rewrite !length_app, length_take, length_drop. change (length (enc_int 4 7)) with 4%nat. lia.
Qed.

Lemma set_v_keys : keys_kept (shape (Recovery.t_indexes table_i)) [id_col; v_col] [set_v] [] (Recovery.t_records table_i).
Proof. intros r v [[_ ->]|[_ ->]]%rows_i _; (eexists; split; [reflexivity|]; apply Forall_singleton; vm_compute; reflexivity). Qed.

Lemma where_statements_witness :
  (∃ s' tb', run_delete_where (λ h, h) (λ _, 7) first_free 9 0 tab_t [id_is 2] db_i = (Ok tt, s') ∧ fhs_ (sys s') !! tab_t = Some tb' ∧ Recovery.t_records tb' = {[at_row 1 := row 1 0]}) ∧
  (∃ s' tb', run_update_where (λ h, h) (λ _, 7) first_free 9 0 tab_t [set_v] [] db_i = (Ok tt, s') ∧ fhs_ (sys s') !! tab_t = Some tb' ∧ Recovery.t_records tb' !! at_row 2 = Some (row 2 7)).
Proof.
  split.
  - destruct (where_statements (λ h, h) (λ _, 7) first_free 9 0 8 0 meta_i table_i tab_t [id_is 2] [] db_i) as [(s' & tb' & Hrun & Htb & _ & Hrec & _) _];
      [reflexivity|reflexivity|lia|lia|apply ready_i; vm_compute; congruence|apply sized_i|vm_compute; lia|]. exists s', tb'. split_and!; [exact Hrun|exact Htb|]. rewrite Hrec. vm_compute. reflexivity.
  - destruct (where_statements (λ h, h) (λ _, 7) first_free 9 0 8 0 meta_i table_i tab_t [] [set_v] db_i) as [_ H];
      [reflexivity|reflexivity|lia|lia|apply ready_i; vm_compute; congruence|apply sized_i|vm_compute; lia|]. destruct (H set_v_size set_v_keys) as (s' & tb' & Hrun & Htb & _ & Hrec & _).
    exists s', tb'. split_and!; [exact Hrun|exact Htb|]. rewrite Hrec. vm_compute. reflexivity.
Defined.

(** ** Less than the code means to give *)

(** Row 5 is inserted and deleted, row 6 takes its slot, and the transaction aborts. *)
Definition insert_delete_insert : M TransactionManager unit :=
  t ← begin_txn READ_COMMITTED;
  exec0 t (Insert tab_t [set_int 5; set_int 5]);;
  exec0 t (Delete tab_t [] [at_row 0]);;
  exec0 t (Insert tab_t [set_int 6; set_int 6]);;
  abort0 t.

(** An abort leaves a row behind that its transaction inserted and deleted. The owner of a
    physical insert is kept for a slot and not for a write; when the transaction inserts into
    the slot of a row that it inserted and deleted before, taking the second insert back removes
    the owner, the rollback of the deletion restores the row, and the rollback of the first
    insert skips it.  The row is in the table and in its index after the abort. *)
Theorem abort_revives_row :
  (insert_delete_insert tm_i).1 = Ok tt ∧ MvccFacts.phys tm_i tab_t (at_row 0) = None ∧ MvccFacts.phys (insert_delete_insert tm_i).2 tab_t (at_row 0) = Some (row 5 5) ∧
  data_of (insert_delete_insert tm_i).2 = <[tab_t := (<[at_row 0 := row 5 5]> (Recovery.t_records table_i), all_add (row 5 5) (at_row 0) (Recovery.t_indexes table_i))]> (data_of tm_i).
Proof. split_and!; vm_compute; reflexivity. Qed.

(** UPDATE does not check the type of a value. SET id = 'ab' is accepted for the integer column
    and stores the bytes of the string, so that id becomes 25185; INSERT refuses the same value.
    An integer for a string column of another length than four leaves bytes of the record
    undefined. *)
Theorem update_stores_string_as_int :
  field_bytes id_col (set_str [Byte.x61; Byte.x62]) = Err IncompatibleTypeError ∧
  (sc ← analyze_set tab_t meta_i [Byte.x69] (SetValue (set_str [Byte.x61; Byte.x62])); updated_record (tm_cols meta_i) [sc] (row 1 0)) = Ok (row 25185 0) ∧
  (let name := mk_ColMeta tab_t [Byte.x6e] TYPE_STRING 8 0 in analyze_set tab_t (mk_TabMeta [name] []) [Byte.x6e] (SetValue (set_int 1)) = Err Undefined).
Proof. split_and!; vm_compute; reflexivity. Qed.
End DmlClaims.
