(* ===== verification/ScanReads.v ===== *)
(** * Scans of a reading transaction

    What a sequential scan and an index scan deliver to a transaction, in terms of the records
    that it sees and of the entries of the index.  When the index has an entry for each of
    these records, both deliver the same ones; an index scan on the inside of a join does so
    for each record of the outside. *)

From stdpp Require Import gmultiset.
From Stdlib Require Import SpecFloat.
From S2P Require Import Prelude RecordFile Recovery Conditions LockManager LockFacts Mvcc Index IndexTree IndexSplit IndexFacts IndexOps IndexKeys IndexSpec IndexScan Executor ExecutorFacts Scans ScanBounds ScanFacts ScanViews.

Module ScanReads.
Import RecFile Cond Mvcc Exec ExecFacts Scans ScanFacts ScanViews.

(** ** Lists with the same defined elements *)

Lemma sorted_lookup {A} (R : relation A) (l : list A) : StronglySorted R l → ∀ i j x y, (i < j)%nat → l !! i = Some x → l !! j = Some y → R x y.
Proof.
  induction 1 as [|a l Hl IH Ha]; intros i j x y Hij Hx Hy; [done|]. destruct j as [|j]; [lia|]. destruct i as [|i]; simpl in *.
  - injection Hx as ->. by eapply Forall_lookup_1.
  - by eapply (IH i j); [lia|..].
Qed.

Lemma omap_filter {A B} (f : A → option B) (l : list A) : omap f (filter (λ x, is_Some (f x)) l) = omap f l.
Proof.
  induction l as [|x l IH]; [done|]. rewrite filter_cons. destruct (f x) as [y|] eqn:E.
  - rewrite decide_True by done. cbn [omap list_omap]. rewrite E. by f_equal.
  - rewrite decide_False by by intros []. cbn [omap list_omap]. by rewrite E.
Qed.

Lemma omap_permutation {A B} (f : A → option B) (l k : list A) :
  NoDup (filter (λ x, is_Some (f x)) l) → NoDup (filter (λ x, is_Some (f x)) k) → (∀ x, is_Some (f x) → x ∈ l ↔ x ∈ k) → omap f l ≡ₚ omap f k.
Proof.
  intros Hl Hk He. rewrite <-(omap_filter f l), <-(omap_filter f k). assert (filter (λ x, is_Some (f x)) l ≡ₚ filter (λ x, is_Some (f x)) k) as ->; [|done].
  apply NoDup_Permutation; [done..|]. intros x. rewrite !list_elem_of_filter. naive_solver.
Qed.

Lemma filter_fmap_list {A B} (f : A → B) (P : B → Prop) `{∀ y, Decision (P y)} (l : list A) : filter P (f <$> l) = f <$> filter (λ x, P (f x)) l.
Proof. induction l as [|x l IH]; [done|]. cbn [fmap list_fmap]. rewrite !filter_cons. case_decide; cbn [fmap list_fmap]; by rewrite IH. Qed.

(** ** Index scans and sequential scans *)

(** Only the last leaf of an index may be empty, and the page in front of the leaves. *)
Definition no_empty_leaf (ih : Ix.IxIndexHandle) : Prop :=
  map_Forall (λ p n, Ix.is_leaf n = true → Ix.pairs n = [] → p = Ix.IX_LEAF_HEADER_PAGE ∨ p = Ix.last_leaf_ (Ix.file_hdr_ ih)) (Ix.nodes ih).

Section scans.
Context (tab : bytes) (cols_ index_cols : list ColMeta) (conds : list Condition).
Abbreviation cs := (ScanBounds.col_pair <$> index_cols).
Abbreviation rk := (IxKeys.key_rank cs).
Abbreviation key r := (ScanBounds.key_of r index_cols).

(** The index has an entry for every visible record, and no other entry for it.  Entries of
    records that are not visible do no harm. *)
Record consistent (view : gmap Rid record) (m : gmap Z IxTree.entry) : Prop := {
  cn_entry rid r : view !! rid = Some r → m !! rk (key r) = Some (key r, rid);
  cn_only z k rid r : m !! z = Some (k, rid) → view !! rid = Some r → k = key r
}.

(** The conditions are on the table and have values of the types of the columns; the records
    are those the server stores; the lower bound is not behind the upper one. *)
Record usable (view : gmap Rid record) : Prop := {
  us_own : Forall (λ c, tc_tab_name (lhs_col c) = tab) conds;
  us_typed : Forall (ScanBounds.typed tab conds) index_cols;
  us_records : map_Forall (λ _ r, Forall (ScanBounds.col_ok tab cols_ conds r) index_cols) view;
  us_ordered : ordered index_cols (build_bounds tab conds index_cols false no_bounds)
}.

Lemma conds0_own : Forall (λ c, tc_tab_name (lhs_col c) = tab) conds → conds0 tab conds = conds.
Proof.
  intros Hown. unfold conds0. induction Hown as [|c l Hc Hl IH]; [done|]. cbn [fmap list_fmap]. rewrite IH. f_equal. unfold orient. by rewrite bool_decide_eq_true_2.
Qed.

Lemma matching_in_range view rid r : usable view → matching cols_ view conds rid = Some r → view !! rid = Some r ∧
  in_range index_cols (build_bounds tab conds index_cols false no_bounds) (rk (key r)).
Proof.
  intros Hu. unfold matching. destruct (view !! rid) as [r'|] eqn:Ev; [|done]. destruct (eval_conds r' cols_ conds) eqn:Ec; [|done]. intros [= ->]. split; [done|].
  destruct (ScanBounds.bounds_between tab cols_ conds r index_cols (us_records _ Hu _ _ Ev) Ec) as (_ & _ & Hb & Ho1 & Ho2).
  unfold in_range, lo_thr, hi_thr, above, upto. set (b := build_bounds tab conds index_cols false no_bounds) in *.
  destruct (has_lower b), (lower_open b), (has_upper b), (upper_open b); try (specialize (Ho1 eq_refl)); try (specialize (Ho2 eq_refl)); lia.
Qed.

Lemma sorted_nodup es : IxTree.sorted (cmp:=IxKeys.key_cmp cs) es → NoDup es.
Proof.
  intros Hs. apply NoDup_alt. intros i j e Hi Hj. destruct (decide (i < j)%nat); [pose proof (Hs _ _ _ _ l Hi Hj); lia|].
  destruct (decide (j < i)%nat) as [l|]; [pose proof (Hs _ _ _ _ l Hj Hi); lia|lia].
Qed.

Lemma index_rows_permutation view m rids mid (hs : IxTree.entry → Prop) : usable view → consistent view m → NoDup rids → (∀ rid, is_Some (view !! rid) → rid ∈ rids) →
  (∀ z e, m !! z = Some e ↔ hs e ∧ rk e.1 = z) → IxTree.sorted (cmp:=IxKeys.key_cmp cs) mid →
  (∀ e, e ∈ mid ↔ hs e ∧ in_range index_cols (build_bounds tab conds index_cols false no_bounds) (rk e.1)) →
  omap (matching cols_ view conds) (snd <$> mid) ≡ₚ omap (matching cols_ view conds) rids.
Proof.
  intros Hu Hc Hnd Hin Hm Hs Hmid. apply omap_permutation.
  - rewrite filter_fmap_list. apply NoDup_fmap_2_strong; [|by apply NoDup_filter, sorted_nodup]. intros [k1 rid1] [k2 rid2] H1 H2 E. simpl in E. subst rid2.
    apply list_elem_of_filter in H1 as [[r Hr] H1], H2 as [_ H2]. simpl in Hr. destruct (matching_in_range _ _ _ Hu Hr) as [Hv _].
    apply Hmid in H1 as [H1 _], H2 as [H2 _]. rewrite (cn_only _ _ Hc (rk k1) k1 rid1 r), (cn_only _ _ Hc (rk k2) k2 rid1 r); [done|by apply Hm|done|by apply Hm|done].
  - by apply NoDup_filter.
  - intros rid [r Hr]. destruct (matching_in_range _ _ _ Hu Hr) as [Hv Hr2]. split; intros _; [by apply Hin|].
    apply list_elem_of_fmap. exists (key r, rid). split; [done|]. apply Hmid. split; [|done]. by apply (Hm (rk (key r))), (cn_entry _ _ Hc).
Qed.

(** The entries of the index in the range of the conditions, in order. *)
Definition rank_le (a b : Z * IxTree.entry) : Prop := a.1 ≤ b.1.
#[local] Instance rank_le_dec : RelDecision rank_le.
Proof. intros a b. unfold rank_le. apply _. Defined.
#[local] Instance rank_le_total : Total rank_le.
Proof. intros a b. unfold rank_le. lia. Qed.
#[local] Instance rank_le_trans : Transitive rank_le.
Proof. intros a b c. unfold rank_le. lia. Qed.
#[local] Instance in_range_dec b z : Decision (in_range index_cols b z).
Proof. unfold in_range, above, upto. destruct (lo_thr index_cols b), (hi_thr index_cols b); apply _. Defined.

Definition range_of (fed : list Condition) (m : gmap Z IxTree.entry) : list IxTree.entry :=
  snd <$> merge_sort rank_le (filter (λ e, in_range index_cols (build_bounds tab fed index_cols false no_bounds) e.1) (map_to_list m)).

Lemma range_of_ok fed (m : gmap Z IxTree.entry) (hs : IxTree.entry → Prop) : (∀ z e, m !! z = Some e ↔ hs e ∧ rk e.1 = z) →
  IxTree.sorted (cmp:=IxKeys.key_cmp cs) (range_of fed m) ∧
  ∀ e, e ∈ range_of fed m ↔ hs e ∧ in_range index_cols (build_bounds tab fed index_cols false no_bounds) (rk e.1).
Proof.
  intros Hm. set (fl := filter (λ e : Z * IxTree.entry, in_range index_cols (build_bounds tab fed index_cols false no_bounds) e.1) (map_to_list m)).
  assert (∀ e, e ∈ merge_sort rank_le fl ↔ m !! e.1 = Some e.2 ∧ in_range index_cols (build_bounds tab fed index_cols false no_bounds) e.1) as Hin.
  { intros [z e]. rewrite (merge_sort_Permutation rank_le). unfold fl. rewrite list_elem_of_filter, elem_of_map_to_list. simpl. tauto. }
  assert (NoDup (fst <$> merge_sort rank_le fl)) as Hnd.
  { rewrite (merge_sort_Permutation rank_le). unfold fl. rewrite <-(filter_fmap_list fst (λ z, in_range index_cols _ z)). apply NoDup_filter, NoDup_fst_map_to_list. }
  pose proof (StronglySorted_merge_sort rank_le fl) as Hs. unfold range_of. fold fl. split.
  - intros i j e1 e2 Hij. rewrite !list_lookup_fmap. intros ([z1 x1] & H1 & ->)%fmap_Some ([z2 x2] & H2 & ->)%fmap_Some. simpl.
    assert (rank_le (z1, x1) (z2, x2)) as Hle by by eapply (sorted_lookup _ _ Hs i j).
    apply list_elem_of_lookup_2 in H1 as Hm1. apply Hin in Hm1 as [[_ E1]%Hm _]. apply list_elem_of_lookup_2 in H2 as Hm2. apply Hin in Hm2 as [[_ E2]%Hm _].
    simpl in E1, E2. unfold IxTree.rank. simpl. rewrite E1, E2. unfold rank_le in Hle. simpl in Hle. assert (z1 ≠ z2); [|lia]. intros <-.
    assert (i = j); [|lia]. eapply (NoDup_lookup _ i j z1 Hnd); rewrite list_lookup_fmap; [by rewrite H1|by rewrite H2].
  - intros e. rewrite list_elem_of_fmap. split.
    + intros ([z x] & -> & [[Hh <-]%Hm Hr]%Hin). done.
    + intros [Hh Hr]. exists (rk e.1, e). split; [done|]. apply Hin. split; [|done]. by apply Hm.
Qed.

(** The entries of a range are no more than those of the index. *)
Lemma entries_le mid (m : gmap Z IxTree.entry) (hs : IxTree.entry → Prop) : (∀ z e, m !! z = Some e ↔ hs e ∧ rk e.1 = z) →
  IxTree.sorted (cmp:=IxKeys.key_cmp cs) mid → (∀ e, e ∈ mid → hs e) → (length mid ≤ size m)%nat.
Proof.
  intros Hm Hs Hmid. assert (NoDup ((λ e, rk e.1) <$> mid)) as Hnd.
  { apply NoDup_alt. intros i j z. rewrite !list_lookup_fmap. intros (e1 & H1 & ->)%fmap_Some (e2 & H2 & E)%fmap_Some.
    destruct (decide (i < j)%nat) as [l|]; [pose proof (Hs _ _ _ _ l H1 H2) as Hlt; unfold IxTree.rank in Hlt; simpl in Hlt; lia|].
    destruct (decide (j < i)%nat) as [l|]; [pose proof (Hs _ _ _ _ l H2 H1) as Hlt; unfold IxTree.rank in Hlt; simpl in Hlt; lia|lia]. }
  rewrite <-(length_fmap (λ e, rk e.1)), <-(size_list_to_set (C:=gset Z)), <-size_dom by done. apply subseteq_size. intros z.
  rewrite elem_of_list_to_set, list_elem_of_fmap, elem_of_dom. intros (e & -> & He). exists e. apply Hm. by split; [apply Hmid|].
Qed.
End scans.

(** The indexes [ihs0] up to the pages in the pool that are dirty. *)
Definition indexes_at (ihs0 ihs : gmap string Ix.IxIndexHandle) : Prop :=
  ∀ name ih0, ihs0 !! name = Some ih0 → ∃ ih, ihs !! name = Some ih ∧ IxSpec.same_index ih0 ih.

Lemma indexes_at_refl ihs : indexes_at ihs ihs.
Proof. intros name ih Hih. by exists ih. Qed.

Lemma reading_indexed std_hash tm t x ihs name ih : ihs !! name = Some ih →
  indexed (reading std_hash (indexes_at ihs) tm t x) name (Ix.pinned ih) (h:=Ix.file_hdr_ ih) (ns:=Ix.nodes ih).
Proof.
  intros Hih. split.
  - intros w [_ Hj]. by apply Hj.
  - intros w ih' [Hl Hj] Hat. split; [done|]. intros name' ih0 H0. simpl. destruct (decide (name' = name)) as [->|Hne].
    + rewrite lookup_insert_eq. exists ih'. split; [done|]. assert (ih0 = ih) as -> by congruence. done.
    + rewrite lookup_insert_ne by done. by apply Hj.
Qed.

(** A transaction without snapshot, or on a table without compensation keys, gets no records
    from the versions. *)
Lemma no_extras std_hash J tm tab t x tb fd cols_ conds seen : reader tm tab t x tb fd →
  (IsMvccTxn x = true → mvcc_index_compensation_keys_ (versions tm) !! tab = None) →
  does (reading std_hash J tm t x) (on_tm (CollectVisibleVersionRecords tab cols_ conds seen t)) (λ l, l = []).
Proof.
  intros Hr Hk w Hw. pose proof Hw as [(l & El & Hl) Hj]. exists [], w. split_and!; [|done|done].
  unfold on_tm, CollectVisibleVersionRecords, txn_of, get, deref, mbind, M_bind. rewrite El. simpl. rewrite (re_txn _ _ _ _ _ _ Hr). simpl.
  destruct (IsMvccTxn x); simpl; [rewrite Hk by done|]; destruct w; simpl in *; by rewrite El.
Qed.

Lemma reading_start std_hash J tm t x ihs : (IsMvccTxn x = false → readable std_hash t (locks (sys tm))) → J ihs →
  reading std_hash J tm t x (mk_World tm ihs).
Proof.
  intros Hl Hj. split; [|done]. exists (locks (sys tm)). split; [by destruct tm as [? ? ? ? ? ? ? ? ? []]|]. intros E. apply Hl. by destruct (IsMvccTxn x).
Qed.

(** The records of an index scan are in the order of their keys. *)
Lemma index_rows_sorted index_cols cols_ view conds mid m (hs : IxTree.entry → Prop) : let rk := IxKeys.key_rank (ScanBounds.col_pair <$> index_cols) in
  consistent index_cols view m → (∀ z e, m !! z = Some e ↔ hs e ∧ rk e.1 = z) → (∀ e, e ∈ mid → hs e) →
  IxTree.sorted (cmp:=IxKeys.key_cmp (ScanBounds.col_pair <$> index_cols)) mid →
  StronglySorted (λ a b, rk (ScanBounds.key_of a index_cols) < rk (ScanBounds.key_of b index_cols)) (omap (matching cols_ view conds) (snd <$> mid)).
Proof.
  intros rk Hc Hm. assert (∀ k rid r, hs (k, rid) → matching cols_ view conds rid = Some r → k = ScanBounds.key_of r index_cols) as Hkey.
  { intros k rid r He Hr. eapply (cn_only _ _ _ Hc (rk k)); [by apply Hm|]. revert Hr. unfold matching. destruct (view !! rid) as [r'|]; [|done].
    destruct (eval_conds _ _ _); [by intros [= ->]|done]. }
  induction mid as [|[k rid] mid IH]; intros Hh Hs; [constructor|]. cbn [fmap list_fmap omap list_omap snd].
  assert (StronglySorted (λ a b, rk (ScanBounds.key_of a index_cols) < rk (ScanBounds.key_of b index_cols)) (omap (matching cols_ view conds) (snd <$> mid))) as Htail.
  { apply IH; [intros e He; apply Hh; by right|]. intros i j e1 e2 Hij H1 H2. by apply (Hs (S i) (S j)); [lia|..]. }
  destruct (matching cols_ view conds rid) as [r|] eqn:E; [|done]. constructor; [done|]. apply Forall_forall. intros r' Hr'.
  apply list_elem_of_omap in Hr' as (rid' & Hin & Hr'). apply list_elem_of_fmap in Hin as ([k' b] & -> & Hin). simpl in Hr'.
  rewrite <-(Hkey k rid r), <-(Hkey k' b r'); [|apply Hh; by right|done|apply Hh; by left|done].
  apply list_elem_of_lookup in Hin as [i Hi]. apply (Hs 0%nat (S i) (k, rid) (k', b)); [lia|done..].
Qed.

(** ** The scans of a reading transaction *)

Section reader.
Context (std_hash : Z → Z) (ndebug : bool) (fuel : nat) (tm : TransactionManager) (tab : bytes) (t : Z) (x : Transaction) (tb : Recovery.Table) (fd : Z).
Context (cols_ index_cols : list ColMeta) (conds : list Condition) (ihs : gmap string Ix.IxIndexHandle) (name : string) (ih : Ix.IxIndexHandle) (m : gmap Z IxTree.entry).
Abbreviation cs := (ScanBounds.col_pair <$> index_cols).
Abbreviation two_phase := (negb (IsMvccTxn x)).
Abbreviation view := (view_of tm tab t x tb).
Abbreviation I := (reading std_hash (indexes_at ihs) tm t x).

Definition sorted_rids : list Rid := merge_sort rid_le (elements (dom (Recovery.t_records tb))).

Lemma sorted_rids_perm : sorted_rids ≡ₚ elements (dom (Recovery.t_records tb)).
Proof. apply merge_sort_Permutation. Qed.

Lemma length_sorted_rids : length sorted_rids = size (Recovery.t_records tb).
Proof. rewrite sorted_rids_perm. by rewrite <-size_dom. Qed.

Context (Hr : reader tm tab t x tb fd).

Lemma seq_reader_implements : map_Forall (λ rid _, good_rid rid) (Recovery.t_records tb) → (size (Recovery.t_records tb) < fuel)%nat →
  implements I (SeqScanExecutor std_hash fuel tab t two_phase cols_ conds) true (omap (matching cols_ view conds) sorted_rids).
Proof.
  intros Hgood Hf. apply seq_scan_implements; [by apply (reading_sees _ _ _ _ _ _ _ fd)| |by rewrite length_sorted_rids|by apply (table_rids_ok _ _ tm tab t x tb fd)].
  rewrite sorted_rids_perm. apply Forall_forall. intros rid (r & Hrid)%elem_of_elements%elem_of_dom. by eapply Hgood.
Qed.

Lemma no_empty_leaf_gaps G H : IxOps.tree_inv (cmp:=IxKeys.key_cmp cs) (Ix.file_hdr_ ih) (Ix.nodes ih) G H None → no_empty_leaf ih →
  IxScan.no_gaps (h:=Ix.file_hdr_ ih) (ns:=Ix.nodes ih) (G:=G).
Proof.
  intros [Hs _ _ _ _ _ _] Hne p r n (Hp & Hn & Hh) Hpr. destruct (IxTree.sh_node _ _ _ _ Hs _ _ Hp) as (n' & Hn' & Hl).
  assert (n' = n) as -> by congruence. destruct (Hne p n Hn) as [->|]; [by rewrite Hl, bool_decide_eq_true_2|done| |done].
  pose proof (IxTree.sh_page _ _ _ _ Hs _ _ Hp) as Hpg. unfold Ix.IX_LEAF_HEADER_PAGE in Hpg. lia.
Qed.

(** What an index scan with the conditions [fed] delivers. *)
Definition index_result (fed : list Condition) : list record := omap (matching cols_ view fed) (snd <$> range_of tab index_cols fed m).

Context (Hlk : IsMvccTxn x = false → readable std_hash t (locks (sys tm))).
Context (Hcomp : IsMvccTxn x = true → mvcc_index_compensation_keys_ (versions tm) !! tab = None).
Context (Hih : ihs !! name = Some ih) (Hix : IxSpec.index_ok cs ih m) (Hne : no_empty_leaf ih) (Hf : (size m < fuel)%nat).

Lemma usable_scannable fed : Forall (ScanBounds.typed tab fed) index_cols → ordered index_cols (build_bounds tab fed index_cols false no_bounds) →
  scannable tab index_cols fed.
Proof. intros Ht Ho. destruct (ScanBounds.bounds_valid tab fed index_cols Ht). by split. Qed.

Lemma index_result_rows fed mid : mid = range_of tab index_cols fed m → index_rows two_phase cols_ view (λ _ _, []) fed ∅ mid = index_result fed.
Proof. intros ->. unfold index_rows, extras. destruct two_phase; apply app_nil_r. Qed.

Lemma index_result_length fed : (length (index_result fed) ≤ size m)%nat ∧ (length (range_of tab index_cols fed m) ≤ size m)%nat.
Proof.
  destruct Hix as (G & H & Hinv & Hm). destruct (range_of_ok tab index_cols fed m _ Hm) as [Hs Hmid].
  assert (length (range_of tab index_cols fed m) ≤ size m)%nat as Hl.
  { eapply entries_le; [exact Hm|exact Hs|]. intros e He. by apply Hmid. }
  split; [|done]. eapply Nat.le_trans; [apply length_omap_le|]. by rewrite length_fmap.
Qed.

Lemma index_reader_implements : Forall (λ c, tc_tab_name (lhs_col c) = tab) conds → Forall (ScanBounds.typed tab conds) index_cols →
  ordered index_cols (build_bounds tab conds index_cols false no_bounds) →
  implements I (IndexScanExecutor std_hash ndebug fuel tab t two_phase cols_ conds name index_cols None) true (index_result conds).
Proof.
  intros Hown Ht Ho. pose proof (conds0_own tab conds Hown) as E0. pose proof (usable_scannable conds Ht Ho) as Hsc.
  destruct (index_result_length conds) as [Hl1 Hl2]. destruct Hix as (G & H & Hinv & Hm).
  pose proof (index_scan_implements std_hash ndebug fuel I tab t two_phase cols_ view (reading_sees _ _ _ _ _ _ _ _ Hr _)
    name index_cols _ Hinv (reading_indexed _ _ _ _ _ _ _ Hih) (no_empty_leaf_gaps _ _ Hinv Hne) (λ _ _, []) (λ c s, no_extras _ _ _ _ _ _ _ _ _ c s Hr Hcomp)
    conds None (range_of tab index_cols conds m)) as Himp.
  rewrite E0, (index_result_rows conds) in Himp by done. apply Himp; [done|done|by apply range_of_ok|lia|lia].
Qed.

(** The key that an outer record gives the scan, if it fits the inner column. *)
Definition join_key (ic oc : ColMeta) (l : record) : option Value :=
  match cm_type ic with
  | TYPE_STRING =>
      let v := c_str (field l (cm_offset oc) (cm_len oc)) in
      if decide (cm_len ic < Z.of_nat (length v)) then None else Some (mk_Value [] v)
  | _ => Some (mk_Value (field l (cm_offset oc) 4) [])
  end.
Definition key_value (ic oc : ColMeta) (l : record) : Value := default (mk_Value [] []) (join_key ic oc l).
Definition join_conds (inner : bytes) (ic oc : ColMeta) (l : record) : list Condition := conds ++ [join_cond tab inner (key_value ic oc l)].

(** The outer records for which the scan has a key that fits and a range that is in order. *)
Definition joinable (inner : bytes) (ic oc : ColMeta) (l : record) : Prop :=
  is_Some (join_key ic oc l) ∧ Forall (ScanBounds.typed tab (join_conds inner ic oc l)) index_cols ∧
  ordered index_cols (build_bounds tab (join_conds inner ic oc l) index_cols false no_bounds).

Lemma join_value_ok ic oc l : is_Some (join_key ic oc l) → does I (join_value ic oc l) (λ v, v = key_value ic oc l).
Proof.
  unfold key_value, join_key, join_value. destruct (cm_type ic); intros [v Hv]; try by apply does_ret. case_decide; [done|]. by apply does_ret.
Qed.

Lemma index_join_reader_implements lcols outer inner ic oc : Forall (λ c, tc_tab_name (lhs_col c) = tab) conds →
  find_col lcols outer = Some oc → find_col cols_ (mk_TabCol tab inner) = Some ic →
  implements_for I (IndexScanExecutor std_hash ndebug fuel tab t two_phase cols_ conds name index_cols (Some (outer, inner))) lcols
    (joinable inner ic oc) (λ l, index_result (join_conds inner ic oc l)).
Proof.
  intros Hown Ho Hi. pose proof (conds0_own tab conds Hown) as E0. pose proof Hix as (G & H & Hinv & Hm).
  pose proof (index_join_implements std_hash ndebug fuel I tab t two_phase cols_ view (reading_sees _ _ _ _ _ _ _ _ Hr _)
    name index_cols _ Hinv (reading_indexed _ _ _ _ _ _ _ Hih) (no_empty_leaf_gaps _ _ Hinv Hne) (λ _ _, []) (λ c s, no_extras _ _ _ _ _ _ _ _ _ c s Hr Hcomp)
    conds (Some (outer, inner)) lcols outer inner oc ic (joinable inner ic oc) (key_value ic oc) (λ l, range_of tab index_cols (join_conds inner ic oc l) m)) as Himp.
  cbn zeta in Himp. rewrite E0 in Himp. eapply implements_for_mono; [|apply Himp; try done].
  - intros l Hl. split; [done|]. exact (index_result_rows (join_conds inner ic oc l) _ eq_refl).
  - intros l [Hk _]. by apply join_value_ok.
  - intros l (Hk & Ht & Hord). fold (join_conds inner ic oc l). destruct (index_result_length (join_conds inner ic oc l)) as [Hl1 Hl2].
    rewrite <-(index_result_rows (join_conds inner ic oc l) _ eq_refl) in Hl1.
    split_and!; [by apply usable_scannable|by apply range_of_ok|lia|]. by eapply Nat.le_lt_trans; [exact Hl1|].
Qed.

(** A complete index gives the records of the table, in its order. *)
Lemma index_result_complete fed : consistent index_cols view m → usable tab cols_ index_cols fed view →
  index_result fed ≡ₚ omap (matching cols_ view fed) sorted_rids ∧
  let key r := IxKeys.key_rank cs (ScanBounds.key_of r index_cols) in StronglySorted (λ a b, key a < key b) (index_result fed).
Proof.
  intros Hc Hu. destruct Hix as (G & H & Hinv & Hm). destruct (range_of_ok tab index_cols fed m _ Hm) as [Hs Hmid]. split.
  - eapply index_rows_permutation; [done|done| | |done..].
    + rewrite sorted_rids_perm. apply NoDup_elements.
    + intros rid [r Hv]. rewrite sorted_rids_perm, elem_of_elements, elem_of_dom. unfold view_of in Hv. rewrite map_lookup_imap in Hv.
      by destruct (Recovery.t_records tb !! rid).
  - eapply (index_rows_sorted index_cols cols_ view fed _ m); [done|exact Hm| |done]. intros e He. by apply Hmid.
Qed.
End reader.
End ScanReads.
