(* ===== verification/ScanClaims.v ===== *)
(** * Properties of scans

    An index scan returns what a sequential scan returns, in the order of the index, when the
    index has the visible records of the table; and the ranges on which it fails instead. *)

From stdpp Require Import gmultiset.
From S2P Require Import Prelude Disk RecordFile Log Recovery Conditions LockManager Mvcc MvccClaims Index IndexTree IndexKeys IndexSpec IndexClaims Executor ExecutorFacts Scans ScanBounds ScanFacts ScanViews ScanReads.

Module ScanClaims.
Import RecFile Cond Mvcc Exec ExecFacts Scans ScanFacts ScanViews ScanReads.

(** C10: Index scans find what sequential scans find.  A transaction that reads a table through an
    index which has an entry for each record it sees gets the records that a sequential scan
    with the same conditions gets, each once, in the order of the index: the bounds that the
    scan computes from the conditions exclude no record that satisfies them.  The conditions
    compare columns of the table with values of their types, the lower bound is not behind the
    upper one, and only the last leaf of the index is empty.  The transaction is not a
    SERIALIZABLE snapshot transaction; if it has no snapshot, its shared locks are granted; if it
    has one, the table has no compensation keys, so that [load_mvcc_extra_records] adds nothing.
    Floats in the index columns are finite (the code takes FLT_MAX for the largest), and table
    and index have less than [fuel] entries. *)
Theorem index_scan_complete (std_hash : Z → Z) (ndebug : bool) (fuel : nat) (tm : TransactionManager) (tab : bytes) (t : Z) (x : Transaction)
    (tb : Recovery.Table) (fd : Z) (cols_ index_cols : list ColMeta) (conds : list Condition) (name : string)
    (ihs : gmap string Ix.IxIndexHandle) (ih : Ix.IxIndexHandle) (m : gmap Z IxTree.entry) :
  reader tm tab t x tb fd → (IsMvccTxn x = false → readable std_hash t (locks (sys tm))) →
  (IsMvccTxn x = true → mvcc_index_compensation_keys_ (versions tm) !! tab = None) →
  map_Forall (λ rid _, good_rid rid) (Recovery.t_records tb) →
  ihs !! name = Some ih → IxSpec.index_ok (ScanBounds.col_pair <$> index_cols) ih m → no_empty_leaf ih →
  let view := view_of tm tab t x tb in consistent index_cols view m → usable tab cols_ index_cols conds view →
  (size (Recovery.t_records tb) < fuel)%nat → (size m < fuel)%nat →
  let two_phase := negb (IsMvccTxn x) in
  let key r := IxKeys.key_rank (ScanBounds.col_pair <$> index_cols) (ScanBounds.key_of r index_cols) in
  ∃ rows rows' w w',
    select_from fuel (SeqScanExecutor std_hash fuel tab t two_phase cols_ conds) (mk_World tm ihs) = (Ok rows, w) ∧
    select_from fuel (IndexScanExecutor std_hash ndebug fuel tab t two_phase cols_ conds name index_cols None) (mk_World tm ihs) = (Ok rows', w') ∧
    rows = omap (matching cols_ view conds) (sorted_rids tb) ∧
    rows' ≡ₚ rows ∧ StronglySorted (λ a b, key a < key b) rows'.
Proof.
  intros Hr Hlk Hcomp Hgood Hih Hix Hne view Hc Hu Hf1 Hf2 two_phase key.
  pose proof (index_reader_implements std_hash ndebug fuel tm tab t x tb fd cols_ index_cols conds ihs name ih m Hr Hcomp Hih Hix Hne Hf2
    (us_own _ _ _ _ _ Hu) (us_typed _ _ _ _ _ Hu) (us_ordered _ _ _ _ _ Hu)) as Hi.
  destruct (index_result_complete tm tab t x tb cols_ index_cols ih m Hix conds Hc Hu) as [Hp Hs].
  destruct (index_result_length tm tab t x tb cols_ index_cols ih m Hix conds) as [Hl _].
  pose proof (seq_reader_implements std_hash fuel tm tab t x tb fd cols_ conds ihs Hr Hgood Hf1) as Hq.
  assert (reading std_hash (indexes_at ihs) tm t x (mk_World tm ihs)) as HI by (apply reading_start; [done|apply indexes_at_refl]).
  destruct (select_from_ok _ fuel _ _ _ Hi ltac:(lia) _ HI) as (? & w' & Hrun' & _ & ->).
  destruct (select_from_ok _ fuel _ _ _ Hq) with (w := mk_World tm ihs) as (? & w & Hrun & _ & ->); [|done|].
  { eapply Nat.le_lt_trans; [apply length_omap_le|]. by rewrite length_sorted_rids. }
  eexists _, _, w, w'. split_and!; [exact Hrun|exact Hrun'|done..].
Qed.

(** An index on the first column of the small table, and conditions on both columns.  Another
    transaction has set the second field of row 1 to 7, which the snapshot does not show. *)
Definition id_ops : list IxSpec.op := (λ i, IxSpec.OpInsert (IxClaims.int_key i) (MvccClaims.at_row i)) <$> [2; 1; 3].
Definition id_index : Ix.IxIndexHandle := IxClaims.filled true id_ops.
Definition id_entries : gmap Z IxTree.entry := (IxSpec.spec_ops IxClaims.int_cols id_ops ∅).2.
Definition table_w5 : Recovery.Table := default MvccClaims.table_t (fhs_ (sys MvccClaims.w5) !! MvccClaims.tab_t).
Definition int_cond (c : bytes) (o : CompOp) (z : Z) : Condition :=
  mk_Condition (mk_TabCol MvccClaims.tab_t c) o true (mk_TabCol [] []) (mk_Value (le_split 4 z) []).
Definition small_conds : list Condition := [int_cond [Byte.x69] OP_LT 3; int_cond [Byte.x76] OP_LT 5].

Lemma id_index_ok : IxSpec.index_ok IxClaims.int_cols id_index id_entries.
Proof. apply IxClaims.filled_ok. repeat (constructor; [by eexists|]). constructor. Qed.

Definition small_view : gmap Rid record := {[ MvccClaims.at_row 1 := MvccClaims.row 1 0; MvccClaims.at_row 2 := MvccClaims.row 2 0; MvccClaims.at_row 3 := MvccClaims.row 3 0]}.

Lemma small_view_ok : view_of MvccClaims.w5 MvccClaims.tab_t 0 MvccClaims.snapshot_txn table_w5 = small_view.
Proof. by vm_compute. Qed.

Lemma small_view_inv rid r : small_view !! rid = Some r → ∃ i, 1 ≤ i ≤ 3 ∧ rid = MvccClaims.at_row i ∧ r = MvccClaims.row i 0.
Proof.
  unfold small_view. intros Hr. repeat (apply lookup_insert_Some in Hr as [[<- <-]|[_ Hr]]; [eexists; split_and!; [..|done|done]; lia|]).
  apply lookup_singleton_Some in Hr as [<- <-]. exists 3. split_and!; [lia..|done|done].
Qed.

Lemma small_consistent : consistent [MvccClaims.id_col] small_view id_entries.
Proof.
  assert (∀ i, 1 ≤ i ≤ 3 → i = 1 ∨ i = 2 ∨ i = 3) as Hi by lia. split.
  - intros rid r (i & [->|[->| ->]]%Hi & -> & ->)%small_view_inv; by vm_compute.
  - intros z k rid r He (i & Hi' & -> & ->)%small_view_inv. apply Hi in Hi'.
    assert (map_Forall (λ _ e, e.1 = IxClaims.int_key (slot_no e.2)) id_entries) as Hall by (apply (bool_decide_unpack _); by vm_compute).
    pose proof (Hall _ _ He) as E. simpl in E. subst k. destruct Hi' as [->|[->| ->]]; by vm_compute.
Qed.

Lemma small_usable : usable MvccClaims.tab_t [MvccClaims.id_col; MvccClaims.v_col] [MvccClaims.id_col] small_conds small_view.
Proof.
  assert (∀ cond, cond ∈ small_conds → ScanBounds.value_ok TYPE_INT 4 (rhs_val cond)) as Hv.
  { intros cond. unfold small_conds. by intros [->|[->|[]%elem_of_nil]%elem_of_cons]%elem_of_cons. }
  split.
  - by repeat constructor.
  - constructor; [|constructor]. split; [done..|]. intros cond Hin _. by apply Hv.
  - intros rid r (i & Hi & -> & ->)%small_view_inv. constructor; [|constructor]. split; [done| |intros cond Hin _; by apply Hv].
    assert (i = 1 ∨ i = 2 ∨ i = 3) as [->|[->| ->]] by lia; by vm_compute.
  - by vm_compute.
Qed.

Lemma index_scan_complete_witness : let w := mk_World MvccClaims.w5 {["t_i"%string := id_index]} in let cols_ := [MvccClaims.id_col; MvccClaims.v_col] in
  ∃ rows w1 w2, select_from 10 (SeqScanExecutor (λ h, h) 10 MvccClaims.tab_t 0 false cols_ small_conds) w =
      (Ok [MvccClaims.row 1 0; MvccClaims.row 2 0], w1) ∧
    select_from 10 (IndexScanExecutor (λ h, h) true 10 MvccClaims.tab_t 0 false cols_ small_conds "t_i" [MvccClaims.id_col] None) w = (Ok rows, w2) ∧
    rows ≡ₚ [MvccClaims.row 1 0; MvccClaims.row 2 0].
Proof.
  intros w cols_. destruct (index_scan_complete (λ h, h) true 10 MvccClaims.w5 MvccClaims.tab_t 0 MvccClaims.snapshot_txn table_w5 3 cols_ [MvccClaims.id_col] small_conds "t_i"
    {["t_i"%string := id_index]} id_index id_entries) as (rows & rows' & w1 & w2 & H1 & H2 & E & Hp & _).
  - split; [by vm_compute..|right; done].
  - by intros [=].
  - intros _. by vm_compute.
  - intros rid r Hr. intros E. assert (map_Forall (λ rid _, page_no rid = 1) (Recovery.t_records table_w5)) as Hall by (apply (bool_decide_unpack _); by vm_compute).
    pose proof (Hall _ _ Hr) as E2. cbv beta in E2. unfold RM_NO_PAGE in E. lia.
  - by rewrite lookup_singleton_eq.
  - exact id_index_ok.
  - apply (bool_decide_unpack _). by vm_compute.
  - rewrite small_view_ok. exact small_consistent.
  - rewrite small_view_ok. exact small_usable.
  - apply Nat.ltb_lt. by vm_compute.
  - apply Nat.ltb_lt. by vm_compute.
  - assert (rows = [MvccClaims.row 1 0; MvccClaims.row 2 0]) as ->. { rewrite E, small_view_ok. by vm_compute. }
    change (negb (IsMvccTxn MvccClaims.snapshot_txn)) with false in H1, H2. exists rows', w1, w2. exact (conj H1 (conj H2 Hp)).
Defined.

(** ** Failures *)

Abbreviation small_cols := [MvccClaims.id_col; MvccClaims.v_col].
Definition seq_select (conds : list Condition) (w : World) : res (list record) * World :=
  select_from 20 (SeqScanExecutor (λ h, h) 20 MvccClaims.tab_t 0 false small_cols conds) w.
Definition index_select (conds : list Condition) (w : World) : res (list record) * World :=
  select_from 20 (IndexScanExecutor (λ h, h) true 20 MvccClaims.tab_t 0 false small_cols conds "t_i" [MvccClaims.id_col] None) w.
Definition pins (w : World) : option (list Z) := (λ ih, elements (Ix.pinned ih)) <$> w_ihs w !! "t_i"%string.

(** Conditions that exclude each other make an index scan throw.  The scan of [id > 2 AND
    id < 1], and of [id > 1 AND id < 1], starts behind its end, runs over the last entry of the
    index and throws [IndexEntryNotFoundError], with the leaf left pinned; a sequential scan
    returns no record. *)
Theorem excluded_range_throws : let w := mk_World MvccClaims.w5 {["t_i"%string := id_index]} in
  let empty lo hi := [int_cond [Byte.x69] OP_GT lo; int_cond [Byte.x69] OP_LT hi] in
  (seq_select (empty 2 1) w).1 = Ok [] ∧ (seq_select (empty 1 1) w).1 = Ok [] ∧
  (index_select (empty 2 1) w).1 = Err IndexEntryNotFoundError ∧ (index_select (empty 1 1) w).1 = Err IndexEntryNotFoundError ∧
  pins w = Some [] ∧ pins (index_select (empty 2 1) w).2 = Some [2].
Proof. vm_compute. by split_and!. Qed.

(** A scan does not pass a leaf that has been emptied.  Deleting the two entries of the middle
    one of three leaves leaves the leaf in the chain; a scan over all entries steps on it and
    throws [IndexEntryNotFoundError], with the leaf left pinned. *)
Theorem emptied_leaf_stops_scan :
  let ih := IxClaims.filled false ((IxClaims.ins <$> [10; 20; 30; 40; 50; 60]) ++ (IxClaims.del <$> [30; 40])) in
  let r := index_select [] (mk_World MvccClaims.w5 {["t_i"%string := ih]}) in
  Ix.pairs <$> Ix.nodes ih !! 3 = Some [] ∧ (length ∘ Ix.pairs) <$> Ix.nodes ih !! 5 = Some 2%nat ∧ pins (mk_World MvccClaims.w5 {["t_i"%string := ih]}) = Some [] ∧
  r.1 = Err IndexEntryNotFoundError ∧ pins r.2 = Some [3].
Proof. vm_compute. by split_and!. Qed.
End ScanClaims.
