(* ===== verification/PortalReads.v ===== *)
(** * Queries of a reading transaction

    What the scans of a plan deliver to a transaction, as a function of the records that it sees
    and of the entries of the indexes; with it the executors of a plan deliver [eval_plan]. *)

From stdpp Require Import gmultiset.
From Stdlib Require Import SpecFloat.
From S2P Require Import Prelude RecordFile Recovery Conditions LockManager Mvcc Index IndexTree IndexKeys IndexSpec Executor ExecutorFacts Aggregate Scans Portal PortalFacts ScanBounds ScanFacts ScanViews ScanReads.

Module PortalReads.
Import RecFile Cond Mvcc Exec ExecFacts Scans Portal PortalFacts ScanFacts ScanViews ScanReads.

(** ** Decisions *)

#[export] Instance value_ok_dec type len v : Decision (ScanBounds.value_ok type len v).
Proof. unfold ScanBounds.value_ok, ScanBounds.nonzero, not_nan. destruct type; apply _. Defined.

#[export] Instance on_col_dec tab c cond : Decision (ScanBounds.on_col tab c cond).
Proof. unfold ScanBounds.on_col. apply _. Defined.

Lemma typed_iff tab conds c : ScanBounds.typed tab conds c ↔ 0 ≤ cm_len c ∧ (cm_type c = TYPE_STRING ∨ cm_len c = 4) ∧
  Forall (λ cond, ¬ ScanBounds.on_col tab c cond ∨ ScanBounds.value_ok (cm_type c) (cm_len c) (rhs_val cond)) conds.
Proof.
  split.
  - intros [H1 H2 H3]. split_and!; [done|destruct (decide (cm_type c = TYPE_STRING)); auto|]. apply Forall_forall. intros cond Hin.
    destruct (decide (ScanBounds.on_col tab c cond)); auto.
  - intros (H1 & H2 & H3). split; [done|by destruct H2|]. intros cond Hin Hon. rewrite Forall_forall in H3. by destruct (H3 cond Hin).
Qed.

#[export] Instance typed_dec tab conds c : Decision (ScanBounds.typed tab conds c).
Proof. refine (cast_if (decide (0 ≤ cm_len c ∧ (cm_type c = TYPE_STRING ∨ cm_len c = 4) ∧
  Forall (λ cond, ¬ ScanBounds.on_col tab c cond ∨ ScanBounds.value_ok (cm_type c) (cm_len c) (rhs_val cond)) conds))); by rewrite typed_iff. Defined.

#[export] Instance ordered_dec index_cols b : Decision (ordered index_cols b).
Proof. unfold ordered. destruct (lo_thr index_cols b), (hi_thr index_cols b); apply _. Defined.

(** ** What scans deliver *)

Section reads.
Context (std_hash : Z → Z) (ndebug : bool) (fuel : nat) (tm : TransactionManager) (ihs : gmap string Ix.IxIndexHandle) (t : Z) (x : Transaction).
(** The entries of the indexes. *)
Context (entries : gmap string (gmap Z IxTree.entry)).

Definition table_cols (tab : bytes) : option (list ColMeta) := tm_cols <$> tabs_ (sys tm) !! tab.

(** The conditions of an index scan: on the table, of the types of the columns, with a lower
    bound that is not behind the upper one. *)
Definition rangeable (tab : bytes) (index_cols : list ColMeta) (conds : list Condition) : Prop :=
  Forall (λ c, tc_tab_name (lhs_col c) = tab) conds ∧ Forall (ScanBounds.typed tab conds) index_cols ∧ ordered index_cols (build_bounds tab conds index_cols false no_bounds).
#[export] Instance rangeable_dec tab index_cols conds : Decision (rangeable tab index_cols conds).
Proof. unfold rangeable. apply _. Defined.

Definition index_rows_of (tab : bytes) (tb : Recovery.Table) (cs index_cols : list ColMeta) (m : gmap Z IxTree.entry) (conds : list Condition) : option (list record) :=
  if decide (rangeable tab index_cols conds) then Some (index_result tm tab t x tb cs index_cols m conds) else None.

(** The scan of an index with the entries [es], alone or for the outer record of a join. *)
Definition index_scan_rows (s : ScanPlan) (tb : Recovery.Table) (cs index_cols : list ColMeta) (es : gmap Z IxTree.entry) (b : option (record * list ColMeta)) : option (list record) :=
  match sp_join s, b with
  | None, _ => index_rows_of (sp_tab s) tb cs index_cols es (sp_conds s)
  | Some _, None => None
  | Some (outer, inner), Some (l, lcols) =>
      oc ← find_col lcols outer;
      ic ← find_col cs (mk_TabCol (sp_tab s) inner);
      _ ← join_key ic oc l;
      index_rows_of (sp_tab s) tb cs index_cols es (join_conds (sp_tab s) (sp_conds s) inner ic oc l)
  end.

Definition scan_rows (s : ScanPlan) (b : option (record * list ColMeta)) : option (list record) :=
  m ← tabs_ (sys tm) !! sp_tab s;
  tb ← fhs_ (sys tm) !! sp_tab s;
  match sp_index s with
  | None => Some (omap (matching (tm_cols m) (view_of tm (sp_tab s) t x tb) (sp_conds s)) (sorted_rids tb))
  | Some names =>
      im ← snd <$> list_find (λ i, (cm_name <$> im_cols i) = names) (tm_indexes m);
      es ← entries !! index_file (sp_tab s) (im_cols im);
      index_scan_rows s tb (tm_cols m) (im_cols im) es b
  end.

(** The tables and indexes are as a running transaction finds them. *)
Record readable_db : Prop := {
  rd_txn : txns tm !! t = Some x;
  rd_plain : IsMvccTxn x = false ∨ isolation_level_ x ≠ SERIALIZABLE;
  rd_locks : IsMvccTxn x = false → readable std_hash t (locks (sys tm));
  rd_table tab tb : fhs_ (sys tm) !! tab = Some tb → is_Some (fds_ (sys tm) !! tab) ∧
    map_Forall (λ rid _, good_rid rid) (Recovery.t_records tb) ∧ (size (Recovery.t_records tb) < fuel)%nat;
  rd_index tab m im ih : tabs_ (sys tm) !! tab = Some m → im ∈ tm_indexes m → ihs !! index_file tab (im_cols im) = Some ih →
    ∃ es, entries !! index_file tab (im_cols im) = Some es ∧ IxSpec.index_ok (ScanBounds.col_pair <$> im_cols im) ih es ∧ no_empty_leaf ih ∧ (size es < fuel)%nat;
  rd_versions tab m im : tabs_ (sys tm) !! tab = Some m → im ∈ tm_indexes m → IsMvccTxn x = true → mvcc_index_compensation_keys_ (versions tm) !! tab = None
}.
Context (Hdb : readable_db).
Abbreviation I := (reading std_hash (indexes_at ihs) tm t x).
Abbreviation w := (mk_World tm ihs).

Lemma db_reader tab tb : fhs_ (sys tm) !! tab = Some tb → ∃ fd, reader tm tab t x tb fd.
Proof. intros Ht. destruct (rd_table Hdb tab tb Ht) as [[fd Hfd] _]. exists fd. split; [apply Hdb|done|done|apply Hdb]. Qed.

Lemma db_start : I w.
Proof. apply reading_start; [apply Hdb|apply indexes_at_refl]. Qed.

Lemma seq_meets tab tb cs conds : fhs_ (sys tm) !! tab = Some tb →
  let rows := omap (matching cs (view_of tm tab t x tb) conds) (sorted_rids tb) in
  meets I (SeqScanExecutor std_hash fuel tab t (negb (IsMvccTxn x)) cs conds) true (λ _, Some rows ≫= bounded fuel).
Proof.
  intros Htb rows. destruct (db_reader tab tb Htb) as (fd & Hr). destruct (rd_table Hdb tab tb Htb) as (_ & Hg & Hf).
  pose proof (seq_reader_implements std_hash fuel tm tab t x tb fd cs conds ihs Hr Hg Hf) as Hi. apply meets_const.
  - intros s. apply (im_finish _ _ _ _ Hi).
  - intros l lc s. by apply does_ret.
  - intros rows' [-> _]%bounded_Some. exact Hi.
Qed.

Section index.
Context (s : ScanPlan) (tb : Recovery.Table) (cs : list ColMeta) (m : TabMeta) (im : IndexMeta) (ih : Ix.IxIndexHandle) (es : gmap Z IxTree.entry).
Context (Htb : fhs_ (sys tm) !! sp_tab s = Some tb) (Hm : tabs_ (sys tm) !! sp_tab s = Some m) (Hin : im ∈ tm_indexes m).
Context (Hih : ihs !! index_file (sp_tab s) (im_cols im) = Some ih) (Hes : entries !! index_file (sp_tab s) (im_cols im) = Some es).
Abbreviation ixs := (IndexScanExecutor std_hash ndebug fuel (sp_tab s) t (negb (IsMvccTxn x)) cs (sp_conds s) (index_file (sp_tab s) (im_cols im)) (im_cols im) (sp_join s)).
Abbreviation rows_of b := (index_scan_rows s tb cs (im_cols im) es b ≫= bounded fuel).

Lemma db_index : IxSpec.index_ok (ScanBounds.col_pair <$> im_cols im) ih es ∧ no_empty_leaf ih ∧ (size es < fuel)%nat.
Proof. destruct (rd_index Hdb _ _ _ _ Hm Hin Hih) as (es' & E & H). rewrite Hes in E. by injection E as <-. Qed.

Lemma index_finishes : finishes I ixs.
Proof.
  destruct (db_reader _ tb Htb) as (fd & Hr). intros st. eapply does_mono; [apply (ix_register_ok std_hash I (sp_tab s) t (negb (IsMvccTxn x)) cs (view_of tm (sp_tab s) t x tb))|done].
  by apply (reading_sees _ _ _ _ _ _ _ fd).
Qed.

Lemma index_alone rows : sp_join s = None → rows_of None = Some rows → implements I ixs true rows.
Proof.
  intros Hj Hrows. apply bind_Some in Hrows as (rows' & Hr & [-> _]%bounded_Some). unfold index_scan_rows in Hr. rewrite Hj in *.
  unfold index_rows_of in Hr. case_decide as Hd; [|done]. injection Hr as <-. destruct Hd as (Hown & Ht & Ho).
  destruct (db_reader _ tb Htb) as (fd & Hr). destruct db_index as (Hix & Hne & Hsz).
  eapply (index_reader_implements _ _ _ _ _ _ _ _ fd); try done. by apply (rd_versions Hdb _ _ _ Hm Hin).
Qed.

Lemma index_inner lcols outer inner : sp_join s = Some (outer, inner) →
  implements_for I ixs lcols (λ l, is_Some (rows_of (Some (l, lcols)))) (λ l, default [] (rows_of (Some (l, lcols)))).
Proof.
  intros Hj. destruct (db_reader _ tb Htb) as (fd & Hr). destruct db_index as (Hix & Hne & Hsz). pose proof index_finishes as Hfin. revert Hfin.
  unfold index_scan_rows. rewrite Hj. intros Hfin.
  destruct (find_col lcols outer) as [oc|] eqn:Eo; [|by split; [intros l st [? ?]|]].
  destruct (find_col cs (mk_TabCol (sp_tab s) inner)) as [ic|] eqn:Ei; [|by split; [intros l st [? ?]|]].
  destruct (decide (Forall (λ c, tc_tab_name (lhs_col c) = sp_tab s) (sp_conds s))) as [Hown|Hown].
  - eapply implements_for_mono; [|eapply (index_join_reader_implements _ _ _ _ _ _ _ _ fd); try done; by apply (rd_versions Hdb _ _ _ Hm Hin)].
    intros l (rows & Hrows). cbn [mbind option_bind] in *. rewrite Hrows. apply bind_Some in Hrows as (rows' & (v & Hv & Hrows)%bind_Some & [-> _]%bounded_Some).
    unfold index_rows_of in Hrows. case_decide as Hd; [|done]. injection Hrows as <-. destruct Hd as (_ & Ht & Ho). split; [|done]. by split_and!; [eexists| |].
  - split; [|done]. intros l st (rows & Hrows). exfalso. apply Hown. cbn [mbind option_bind] in *.
    apply bind_Some in Hrows as (rows' & (v & Hv & Hrows)%bind_Some & _). unfold index_rows_of in Hrows. case_decide as Hd; [|done].
    destruct Hd as (Hall & _). by apply Forall_app in Hall as [? _].
Qed.

Lemma index_meets : meets I ixs true (λ b, rows_of b).
Proof.
  destruct (sp_join s) as [[outer inner]|] eqn:Ej.
  - split; rewrite <-Ej; [apply index_finishes| |intros lcols; by eapply index_inner]. intros rows Hrows. unfold index_scan_rows in Hrows. by rewrite Ej in Hrows.
  - pose proof index_finishes as Hf. pose proof index_alone as Ha. rewrite Ej in *. unfold index_scan_rows in *. rewrite Ej in *. apply meets_const; [done| |by auto].
    intros l lc st. by apply does_ret.
Qed.
End index.

Lemma db_scan_ok s : scan_ok std_hash ndebug fuel t I w table_cols scan_rows s.
Proof.
  assert (∀ e, scan_executor std_hash ndebug fuel t s w = Ok e → ∃ m tb, tabs_ (sys tm) !! sp_tab s = Some m ∧ fhs_ (sys tm) !! sp_tab s = Some tb ∧
    match sp_index s with
    | None => e = SeqScanExecutor std_hash fuel (sp_tab s) t (negb (IsMvccTxn x)) (tm_cols m) (sp_conds s)
    | Some names => ∃ im ih, snd <$> list_find (λ i, (cm_name <$> im_cols i) = names) (tm_indexes m) = Some im ∧ im ∈ tm_indexes m ∧
        ihs !! index_file (sp_tab s) (im_cols im) = Some ih ∧
        e = IndexScanExecutor std_hash ndebug fuel (sp_tab s) t (negb (IsMvccTxn x)) (tm_cols m) (sp_conds s) (index_file (sp_tab s) (im_cols im)) (im_cols im) (sp_join s)
    end) as Hinv.
  { intros e (m & Hm%require_ok & (x' & Hx%require_ok & (tb & Htb%require_ok & He)%res_bind_ok)%res_bind_ok)%res_bind_ok. simpl in Hm, Hx, Htb.
    rewrite (rd_txn Hdb) in Hx. injection Hx as <-. exists m, tb. split_and!; [done..|]. destruct (sp_index s) as [names|]; [|by injection He as <-].
    apply res_bind_ok in He as (im & Him%require_ok & (ih & Hih%require_ok & [= <-])%res_bind_ok). exists im, ih. split_and!; [done| |done|done].
    apply fmap_Some in Him as ([i im'] & Hf & ->). apply list_find_Some in Hf as (Hf & _). by eapply list_elem_of_lookup_2. }
  split; intros e He; destruct (Hinv e He) as (m & tb & Hm & Htb & Hcase); clear Hinv He.
  - unfold table_cols. rewrite Hm. destruct (sp_index s) as [names|]; [destruct Hcase as (im & ih & _ & _ & _ & ->)|subst e]; done.
  - unfold scan_rows. rewrite Hm, Htb. cbn [mbind option_bind]. destruct (sp_index s) as [names|].
    + destruct Hcase as (im & ih & Him & Hin & Hih & ->). destruct (rd_index Hdb _ _ _ _ Hm Hin Hih) as (es & Hes & _). rewrite Him. cbn [mbind option_bind]. rewrite Hes. cbn [mbind option_bind].
      by eapply index_meets.
    + subst e. by apply seq_meets.
Qed.
End reads.
End PortalReads.
