(* ===== verification/PlannerReads.v ===== *)
(** * Planned scans of a reading transaction

    The scans that the planner makes deliver, to a transaction that reads a database whose
    records fit their columns and whose indexes are complete, what [ScanSpec] asks of them. *)

From stdpp Require Import gmultiset.
From Stdlib Require Import SpecFloat.
From S2P Require Import Prelude RecordFile Recovery Conditions LockManager Mvcc Index IndexTree IndexKeys IndexSpec Executor ExecutorFacts Aggregate Scans Portal PortalFacts ScanBounds Relations Planner PlannerFacts ScanFacts ScanViews ScanReads PortalReads.

Module PlannerReads.
Import RecFile Cond Mvcc Exec Scans Portal Rel Planner PlannerFacts ScanFacts ScanViews ScanReads PortalReads.

Section reads.
Context (std_hash : Z → Z) (fuel : nat) (tm : TransactionManager) (ihs : gmap string Ix.IxIndexHandle) (t : Z) (x : Transaction).
Context (entries : gmap string (gmap Z IxTree.entry)).

(** The records of a table that the transaction sees. *)
Definition table_rel (tab : bytes) : Relation :=
  match tabs_ (sys tm) !! tab, fhs_ (sys tm) !! tab with
  | Some m, Some tb => mk_Relation (tm_cols m) (table_len (tm_cols m)) (omap (λ rid, view_of tm tab t x tb !! rid) (sorted_rids tb))
  | _, _ => mk_Relation [] 0 []
  end.

(** Tables are open, their records fit the columns, and their indexes are open and have an entry
    for each record. *)
Record planned_db : Prop := {
  pd_readable : readable_db std_hash fuel tm ihs t x entries;
  pd_table tab m : tabs_ (sys tm) !! tab = Some m → is_Some (fhs_ (sys tm) !! tab) ∧ well_formed (table_rel tab);
  pd_index tab m im tb : tabs_ (sys tm) !! tab = Some m → im ∈ tm_indexes m → fhs_ (sys tm) !! tab = Some tb →
    ∃ ih es, ihs !! index_file tab (im_cols im) = Some ih ∧ entries !! index_file tab (im_cols im) = Some es ∧
      consistent (im_cols im) (view_of tm tab t x tb) es ∧ Forall (λ c, find_col (tm_cols m) (mk_TabCol tab (cm_name c)) = Some c) (im_cols im)
}.

(** The bounds that the conditions give an index scan are in order. *)
Definition in_order (s : ScanPlan) : Prop :=
  match sp_index s, sp_join s, tabs_ (sys tm) !! sp_tab s with
  | Some names, None, Some m =>
      match snd <$> list_find (λ i, (cm_name <$> im_cols i) = names) (tm_indexes m) with
      | Some im => ordered (im_cols im) (build_bounds (sp_tab s) (sp_conds s) (im_cols im) false no_bounds)
      | None => True
      end
  | _, _, _ => True
  end.

Context (Hdb : planned_db).

Lemma omap_matching cs (view : gmap Rid record) conds (l : list Rid) : omap (matching cs view conds) l = filter (λ r, eval_conds r cs conds = true) (omap (λ rid, view !! rid) l).
Proof.
  induction l as [|rid l IH]; [done|]. cbn [omap list_omap]. unfold matching at 1. destruct (view !! rid) as [r|] eqn:E; [|done]. rewrite filter_cons, <-IH.
  destruct (eval_conds r cs conds); [by rewrite decide_True|by rewrite decide_False].
Qed.

Section table.
Context (tab : bytes) (m : TabMeta) (tb : Recovery.Table) (Hm : tabs_ (sys tm) !! tab = Some m) (Htb : fhs_ (sys tm) !! tab = Some tb).
Abbreviation view := (view_of tm tab t x tb).

Lemma table_rel_eq : table_rel tab = mk_Relation (tm_cols m) (table_len (tm_cols m)) (omap (λ rid, view !! rid) (sorted_rids tb)).
Proof. unfold table_rel. by rewrite Hm, Htb. Qed.

Lemma where_table conds : where_rows conds (table_rel tab) = omap (matching (tm_cols m) view conds) (sorted_rids tb).
Proof. rewrite table_rel_eq, omap_matching. done. Qed.

Lemma view_row rid r : view !! rid = Some r → r ∈ r_rows (table_rel tab).
Proof.
  intros Hv. rewrite table_rel_eq. apply list_elem_of_omap. exists rid. split; [|done]. rewrite sorted_rids_perm, elem_of_elements, elem_of_dom.
  unfold view_of in Hv. rewrite map_lookup_imap in Hv. by destruct (Recovery.t_records tb !! rid).
Qed.

(** The values of conditions on the columns of an index. *)
Definition values_fit (c : ColMeta) (conds : list Condition) : Prop := ∀ cond, cond ∈ conds → ScanBounds.on_col tab c cond → ScanBounds.value_ok (cm_type c) (cm_len c) (rhs_val cond).

Lemma index_col_fits c : find_col (tm_cols m) (mk_TabCol tab (cm_name c)) = Some c → col_fits (table_len (tm_cols m)) c ∧
  Forall (λ r, ScanBounds.field_ok (cm_type c) (cm_len c) (field r (cm_offset c) (cm_len c))) (r_rows (table_rel tab)).
Proof.
  intros Hc. destruct (pd_table Hdb tab m Hm) as [_ Hwf]. pose proof (wf_cols _ Hwf) as H1. pose proof (wf_fields _ Hwf) as H2. rewrite table_rel_eq in H1, H2 |- *. simpl in H1, H2 |- *.
  destruct (find_col_Some _ _ _ Hc) as [Hin _]. rewrite Forall_forall in H1. split; [by apply H1|]. eapply Forall_impl; [exact H2|]. intros r Hr. rewrite Forall_forall in Hr. by apply Hr.
Qed.

Lemma index_scan_rows_ok im fed : im ∈ tm_indexes m → Forall (λ c, tc_tab_name (lhs_col c) = tab) fed → (∀ c, c ∈ im_cols im → values_fit c fed) →
  ordered (im_cols im) (build_bounds tab fed (im_cols im) false no_bounds) →
  ∃ es, entries !! index_file tab (im_cols im) = Some es ∧ ∃ R, index_rows_of tm t x tab tb (tm_cols m) (im_cols im) es fed = Some R ∧ R ≡ₚ where_rows fed (table_rel tab).
Proof.
  intros Him Hown Hval Ho. destruct (pd_index Hdb tab m im tb Hm Him Htb) as (ih & es & Hih & Hes & Hcon & Hfind). exists es. split; [done|].
  destruct (rd_index _ _ _ _ _ _ _ (pd_readable Hdb) tab m im ih Hm Him Hih) as (es' & Hes' & Hix & _). assert (es' = es) as -> by congruence.
  rewrite Forall_forall in Hfind. assert (usable tab (tm_cols m) (im_cols im) fed view) as Hu.
  { split; [done| | |done].
    - apply Forall_forall. intros c Hc. destruct (index_col_fits c (Hfind c Hc)) as [[? ? ? ?] _]. split; [done|done|]. intros cond. by apply Hval.
    - intros rid r Hv. apply Forall_forall. intros c Hc. destruct (index_col_fits c (Hfind c Hc)) as [_ Hf]. rewrite Forall_forall in Hf.
      split; [by apply Hfind|by eapply Hf, view_row|]. intros cond. by apply Hval. }
  unfold index_rows_of. rewrite decide_True by by (split_and!; [apply Hu..|]). eexists. split; [done|]. rewrite where_table.
  by apply (index_result_complete tm tab t x tb (tm_cols m) (im_cols im) ih).
Qed.

Lemma find_index (names : list bytes) : is_index m names = true → ∃ im, snd <$> list_find (λ i, (cm_name <$> im_cols i) = names) (tm_indexes m) = Some im ∧ im ∈ tm_indexes m ∧ cm_name <$> im_cols im = names.
Proof.
  intros (im & Hin & E)%existsb_exists. apply list_elem_of_In in Hin. apply bool_decide_eq_true_1 in E.
  destruct (list_find (λ i, (cm_name <$> im_cols i) = names) (tm_indexes m)) as [[i im']|] eqn:Ef.
  - apply list_find_Some in Ef as (Hi & E' & _). exists im'. split_and!; [done|by eapply list_elem_of_lookup_2|done].
  - apply list_find_None in Ef. rewrite Forall_forall in Ef. by specialize (Ef im Hin).
Qed.

(** The conditions of a planned scan have values of the types of the columns. *)
Lemma planned_values c conds : find_col (tm_cols m) (mk_TabCol tab (cm_name c)) = Some c →
  Forall (λ c, cond_fits (r_cols (table_rel tab)) c ∧ Forall (λ t, t = tab) (cond_tabs c)) conds → values_fit c conds.
Proof.
  intros Hc Hconds cond Hin [Hv El]. rewrite Forall_forall in Hconds. destruct (Hconds cond Hin) as [(l & Hl & _ & Hok) _]. rewrite table_rel_eq in Hl. simpl in Hl.
  rewrite El, Hc in Hl. injection Hl as <-. by apply Hok.
Qed.

Lemma planned_own conds : Forall (λ c, cond_fits (r_cols (table_rel tab)) c ∧ Forall (λ t, t = tab) (cond_tabs c)) conds → Forall (λ c, tc_tab_name (lhs_col c) = tab) conds.
Proof. intros H. eapply Forall_impl; [exact H|]. intros c [_ Ht]. unfold cond_tabs in Ht. by apply Forall_cons in Ht as [? _]. Qed.

(** *** The key of an index join *)

Context (a : Relation) (l : record) (oc ic : ColMeta) (Ha : well_formed a) (Hl : l ∈ r_rows a) (Hoc : oc ∈ r_cols a).
Context (Hic : find_col (tm_cols m) (mk_TabCol tab (cm_name ic)) = Some ic) (Hty : cm_type oc = cm_type ic) (Hlen : cm_len oc = cm_len ic).

Lemma outer_field : ScanBounds.field_ok (cm_type ic) (cm_len ic) (field l (cm_offset oc) (cm_len ic)) ∧ (cm_type ic ≠ TYPE_STRING → cm_len ic = 4).
Proof.
  pose proof (wf_fields _ Ha) as H. rewrite Forall_forall in H. specialize (H l Hl). rewrite Forall_forall in H. specialize (H oc Hoc). rewrite Hty, Hlen in H. split; [done|].
  intros Hne. destruct H as [_ H]. destruct (cm_type ic); [done|by destruct H|done].
Qed.

Lemma length_c_str bs : (length (c_str bs) ≤ length bs)%nat.
Proof. induction bs as [|b bs IH]; simpl; [lia|]. case_decide; simpl; lia. Qed.

Lemma join_key_fits : ∃ v, join_key ic oc l = Some v ∧ ScanBounds.value_ok (cm_type ic) (cm_len ic) v ∧
  ∀ o (r : record), compare_value (cm_type ic) o (col_data (cm_type ic) r ic) v = compare_data (cm_type ic) o (col_data (cm_type ic) r ic) (col_data (cm_type ic) l oc).
Proof.
  destruct outer_field as [[Hl1 Hf] H4]. unfold join_key. destruct (cm_type ic) eqn:Et.
  - eexists. split_and!; [done| |done]. simpl. rewrite H4 in Hl1 by done. lia.
  - eexists. split_and!; [done| |done]. simpl. destruct Hf as [E Hfin]. rewrite E in *. split; [lia|]. unfold ScanBounds.finite_bits, not_nan in *. lia.
  - rewrite Hlen. pose proof (length_c_str (field l (cm_offset oc) (cm_len ic))) as Hc. rewrite decide_False by lia. eexists. split_and!; [done| |].
    + simpl. split; [apply ScanBounds.c_str_nonzero|lia].
    + intros o r. simpl. by rewrite Hlen.
Qed.

Lemma join_bounds conds (v : Value) : ordered [ic] (build_bounds tab (conds ++ [join_cond tab (cm_name ic) v]) [ic] false no_bounds).
Proof.
  cbn [build_bounds]. unfold col_conds. rewrite foldl_app. cbn [foldl]. unfold pick_cond at 1. cbn [is_rhs_val join_cond negb lhs_col tc_tab_name tc_col_name orb].
  rewrite !bool_decide_eq_true_2 by done. cbn [negb orb op cc_eq]. unfold ordered, lo_thr, hi_thr. simpl. lia.
Qed.
End table.

#[export] Instance planner_scans : ScanSpec (table_cols tm) (scan_rows tm t x entries) (tabs_ (sys tm)) table_rel in_order.
Proof.
  split.
  - intros tab m Hm. destruct (pd_table Hdb tab m Hm) as [[tb Htb] _]. rewrite (table_rel_eq tab m tb Hm Htb). unfold table_cols. by rewrite Hm.
  - intros s [[m0 Hm0] Hconds Hix _] Hord Hj. destruct (sp_index s) as [names|] eqn:Ei.
    + destruct Hix as (m & Hm & Hnames). destruct (pd_table Hdb _ m Hm) as [[tb Htb] _]. destruct (find_index _ _ Hnames) as (im & Hf & Hin & _).
      unfold in_order in Hord. rewrite Ei, Hj, Hm, Hf in Hord. pose proof (pd_index Hdb _ m im tb Hm Hin Htb) as (_ & _ & _ & _ & _ & Hfind). rewrite Forall_forall in Hfind.
      destruct (index_scan_rows_ok _ m tb Hm Htb im (sp_conds s) Hin) as (es & Hes & R & HR & Hp).
      * by eapply planned_own.
      * intros c Hc. eapply planned_values; [exact Hm|exact Htb|by apply Hfind|done].
      * done.
      * exists R. split; [|done]. intros b. unfold scan_rows. rewrite Hm, Htb. cbn [mbind option_bind]. rewrite Ei, Hf. cbn [mbind option_bind]. rewrite Hes. cbn [mbind option_bind].
        unfold index_scan_rows. by rewrite Hj.
    + destruct (pd_table Hdb _ m0 Hm0) as [[tb Htb] _]. eexists. split; [|by rewrite (where_table _ m0 tb Hm0 Htb)]. intros b. unfold scan_rows. by rewrite Hm0, Htb, Ei.
  - intros s outer inner a l oc ic [_ Hconds Hix Hjn] _ Hj Ha Hl Hoc Hic Hty Hlen. rewrite Hj in Hjn. rewrite Hjn in Hix. destruct Hix as (m & Hm & Hnames).
    destruct (pd_table Hdb _ m Hm) as [[tb Htb] _]. destruct (find_index _ _ Hnames) as (im & Hf & Hin & En).
    pose proof (pd_index Hdb _ m im tb Hm Hin Htb) as (_ & _ & _ & _ & _ & Hfind). rewrite (table_rel_eq _ m tb Hm Htb) in Hic. cbn [r_cols] in Hic.
    assert (im_cols im = [ic] ∧ cm_name ic = inner) as [Eim En1].
    { destruct (im_cols im) as [|c [|]]; try done. apply Forall_cons in Hfind as [Hc _]. injection En as En. rewrite En, Hic in Hc. injection Hc as ->. done. }
    subst inner. destruct (find_col_Some _ _ _ Hoc) as [Hino _].
    destruct (join_key_fits a l oc ic Ha Hl Hino Hty Hlen) as (v & Hv & Hvok & Hcmp).
    destruct (index_scan_rows_ok _ m tb Hm Htb im (sp_conds s ++ [join_cond (sp_tab s) (cm_name ic) v]) Hin) as (es & Hes & R & HR & Hp).
    + apply Forall_app. split; [by eapply planned_own|by apply Forall_singleton].
    + rewrite Eim. intros c ->%list_elem_of_singleton cond [Hc| ->%list_elem_of_singleton]%elem_of_app; [|done]. by eapply planned_values; [exact Hm|exact Htb|done|done|].
    + rewrite Eim. apply join_bounds.
    + exists R. split.
      * unfold scan_rows. rewrite Hm, Htb. cbn [mbind option_bind]. rewrite Hjn, Hf. cbn [mbind option_bind]. rewrite Hes. cbn [mbind option_bind].
        unfold index_scan_rows. rewrite Hj, Hoc. cbn [mbind option_bind]. rewrite Hic. cbn [mbind option_bind]. rewrite Hv. cbn [mbind option_bind]. unfold join_conds, key_value. by rewrite Hv.
      * rewrite Hp. unfold where_rows. rewrite list_filter_filter. apply reflexive_eq, filter_ext_in. intros r _. rewrite eval_conds_app, andb_true_iff.
        assert (eval_cond r (r_cols (table_rel (sp_tab s))) (join_cond (sp_tab s) (cm_name ic) v) = same_key l oc ic r) as ->; [|tauto].
        rewrite eval_cond_eq, (table_rel_eq _ m tb Hm Htb). cbn [r_cols join_cond lhs_col is_rhs_val rhs_val op]. rewrite Hic, Hcmp. apply compare_data_eq_sym.
Qed.
End reads.
End PlannerReads.
