(* ===== verification/QueryClaims.v ===== *)
(** * Properties of queries

    A query returns what its plan means; sorting, grouping and aggregates; and a join that loses
    records of a limited left side. *)

From stdpp Require Import gmultiset.
From Stdlib Require Import SpecFloat.
From S2P Require Import Prelude Disk RecordFile Log Recovery Conditions LockManager Watermark Mvcc MvccClaims Index IndexTree IndexKeys IndexSpec IndexClaims Executor ExecutorFacts ExecutorSort Aggregate LongDouble AggregateFacts Scans Portal PortalFacts ScanBounds ScanFacts ScanViews ScanReads PortalReads.

Module QueryClaims.
Import RecFile Cond Mvcc MvccClaims Exec ExecFacts Agg Scans Portal ScanViews ScanReads PortalReads.

(** ** A small database *)

(** The table [t(id, v)] and a table [u(id, w)] with the rows (1,10) and (3,30) and an index on
    its first column. *)
Definition tab_u : list byte := [Byte.x75].
Definition u_id : ColMeta := mk_ColMeta tab_u [Byte.x69] TYPE_INT 4 0.
Definition u_w : ColMeta := mk_ColMeta tab_u [Byte.x77] TYPE_INT 4 4.
Definition table_u : Recovery.Table := Recovery.mk_Table {[at_row 1 := row 1 10; at_row 2 := row 3 30]} {[1 := 0]} 2 8 [].
Definition u_ops : list IxSpec.op := [IxSpec.OpInsert (IxClaims.int_key 1) (at_row 1); IxSpec.OpInsert (IxClaims.int_key 3) (at_row 2)].
Definition u_index : Ix.IxIndexHandle := IxClaims.filled true u_ops.
Definition u_entries : gmap Z IxTree.entry := (IxSpec.spec_ops IxClaims.int_cols u_ops ∅).2.
Definition db_tm : TransactionManager :=
  mk_Tm 1 {[0 := snapshot_txn]} 0 0 1 (Wm.make_watermark 0) ∅ (mk_Versions ∅ ∅ ∅ 0) (mk_SerState ∅ ∅ ∅ ∅ ∅ ∅)
    (mk_System {[tab_t := table_t; tab_u := table_u]} {[tab_t := 3; tab_u := 4]}
      {[tab_t := mk_TabMeta [id_col; v_col] []; tab_u := mk_TabMeta [u_id; u_w] [mk_IndexMeta [u_id]]]}
      (Lm.mk_LockManager ∅ ∅) (Log.make_log_manager (Disk.init {["db.log"%string := []]}))).
Definition db_indexes : gmap string Ix.IxIndexHandle := {["u_i.idx"%string := u_index]}.
Definition db_entries : gmap string (gmap Z IxTree.entry) := {["u_i.idx"%string := u_entries]}.

(** [SELECT t.id, u.w FROM t, u WHERE t.id = u.id ORDER BY u.w DESC] with an index join. *)
Definition col (tab c : list byte) : TabCol := mk_TabCol tab c.
Definition join_plan : Plan :=
  PProjection (PSort (PJoin (PScan (mk_ScanPlan tab_t [] None None))
      (PScan (mk_ScanPlan tab_u [] (Some [[Byte.x69]]) (Some (col tab_t [Byte.x69], [Byte.x69]))))
      [mk_Condition (col tab_t [Byte.x69]) OP_EQ false (col tab_u [Byte.x69]) (mk_Value [] [])])
    [mk_OrderByTerm (col tab_u [Byte.x77]) true])
  [col tab_t [Byte.x69]; col tab_u [Byte.x77]].

Lemma u_index_ok : IxSpec.index_ok IxClaims.int_cols u_index u_entries.
Proof. apply IxClaims.filled_ok. repeat (constructor; [by eexists|]). constructor. Qed.

Lemma db_ok : readable_db (λ h, h) 20 db_tm db_indexes 0 snapshot_txn db_entries.
Proof.
  split.
  - done.
  - by right.
  - by intros [=].
  - intros tab tb Ht. change (fhs_ (sys db_tm)) with ({[tab_t := table_t; tab_u := table_u]} : gmap (list byte) Recovery.Table) in Ht.
    apply lookup_insert_Some in Ht as [[<- <-]|[_ [<- <-]%lookup_singleton_Some]]; (split_and!; [by eexists|apply (bool_decide_unpack _); by vm_compute|apply Nat.ltb_lt; by vm_compute]).
  - intros tab m im ih Hm Hin Hih. change (tabs_ (sys db_tm)) with ({[tab_t := mk_TabMeta [id_col; v_col] []; tab_u := mk_TabMeta [u_id; u_w] [mk_IndexMeta [u_id]]]} : gmap (list byte) TabMeta) in Hm.
    apply lookup_insert_Some in Hm as [[<- <-]|[_ [<- <-]%lookup_singleton_Some]]; [by apply elem_of_nil in Hin|]. apply list_elem_of_singleton in Hin as ->.
    exists u_entries. assert (ih = u_index) as -> by (change (({["u_i.idx"%string := u_index]} : gmap string Ix.IxIndexHandle) !! "u_i.idx"%string = Some ih) in Hih; by apply lookup_singleton_Some in Hih as [_ <-]).
    split_and!; [by vm_compute|exact u_index_ok|apply (bool_decide_unpack _); by vm_compute|apply Nat.ltb_lt; by vm_compute].
  - intros tab m im _ _ _. change (mvcc_index_compensation_keys_ (versions db_tm)) with (∅ : gmap (list byte) (gset (list byte))). apply lookup_empty.
Qed.

(** ** Queries *)

(** C6: A query returns what its plan means.  When [eval_plan] gives a plan a result, the executors
    that [convert_plan_executor] makes of it return, through batches, locks, versions and index
    positions, exactly that list of records, computed from the records that the transaction
    sees: for sequential and index scans, index joins, selections, projections, sorting, unions,
    grouping and limits.  [eval_plan] gives none for a join whose left side is limited (the code
    loses its last record there: [join_over_limit_loses_last]), for an index scan whose
    conditions are not on its table, not of the types of the index columns, or leave an empty
    range, for columns that are not there, and for results of [fuel] records or more.
    [readable_db] asks that the transaction is not a SERIALIZABLE snapshot transaction, that the
    lock table grants one without snapshot its shared locks, that tables and indexes have less
    than [fuel] records, that the indexes are sound and only the last leaf of one is empty,
    and that there are no compensation keys for a snapshot transaction. *)
Theorem query_returns_plan (std_hash : Z → Z) (ndebug : bool) (fuel : nat) (tm : TransactionManager) (ihs : gmap string Ix.IxIndexHandle) (t : Z)
    (x : Transaction) (entries : gmap string (gmap Z IxTree.entry)) (p : Plan) (e : Exec World) (rows : list record) :
  readable_db std_hash fuel tm ihs t x entries → convert_plan_executor std_hash ndebug fuel t (mk_World tm ihs) p = Ok e →
  eval_plan fuel (table_cols tm) (scan_rows tm t x entries) None p = Some rows →
  ∃ w', run_select std_hash ndebug fuel t p (mk_World tm ihs) = (Ok rows, w').
Proof.
  intros Hdb He Hr. destruct (PortalFacts.run_select_ok std_hash ndebug fuel t (reading std_hash (indexes_at ihs) tm t x) (mk_World tm ihs)
    (table_cols tm) (scan_rows tm t x entries) p e rows) as (w' & Hrun & _); [by eapply db_start|done| |done|by exists w'].
  apply Forall_forall. intros s _. by apply db_scan_ok.
Qed.

Lemma query_returns_plan_witness : ∃ w', run_select (λ h, h) true 20 0 join_plan (mk_World db_tm db_indexes) = (Ok [row 3 30; row 1 10], w').
Proof.
  destruct (convert_plan_executor (λ h, h) true 20 0 (mk_World db_tm db_indexes) join_plan) as [e|] eqn:He.
  - apply (query_returns_plan (λ h, h) true 20 db_tm db_indexes 0 snapshot_txn db_entries join_plan e); [exact db_ok|exact He|by vm_compute].
  - exfalso. assert (match convert_plan_executor (λ h, h) true 20 0 (mk_World db_tm db_indexes) join_plan with Ok _ => true | Err _ => false end = true) as H by by vm_compute.
    by rewrite He in H.
Defined.

(** The scans of the tables of the small database. *)
Definition db_reading : World → Prop := reading (λ h, h) (indexes_at db_indexes) db_tm 0 snapshot_txn.
Definition db_world : World := mk_World db_tm db_indexes.
Definition scan_t : Exec World := SeqScanExecutor (λ h, h) 20 tab_t 0 false [id_col; v_col] [].
Definition scan_u : Exec World := SeqScanExecutor (λ h, h) 20 tab_u 0 false [u_id; u_w] [].

Lemma db_reading_start : db_reading db_world.
Proof. exact (db_start (λ h, h) 20 db_tm db_indexes 0 snapshot_txn db_entries db_ok). Qed.

Lemma db_seq tab tb cs conds rows : fhs_ (sys db_tm) !! tab = Some tb →
  (Some (omap (ScanFacts.matching cs (view_of db_tm tab 0 snapshot_txn tb) conds) (sorted_rids tb)) ≫= bounded 20) = Some rows →
  implements db_reading (SeqScanExecutor (λ h, h) 20 tab 0 false cs conds) true rows.
Proof.
  intros Ht Hr. apply (PortalFacts.me_alone _ _ _ _ (seq_meets (λ h, h) 20 db_tm db_indexes 0 snapshot_txn db_entries db_ok tab tb cs conds Ht)). exact Hr.
Qed.

Lemma scan_t_ok : implements db_reading scan_t true [row 1 0; row 2 0; row 3 0].
Proof. apply (db_seq tab_t table_t); by vm_compute. Qed.

Lemma scan_u_ok : implements db_reading scan_u true [row 1 10; row 3 30].
Proof. apply (db_seq tab_u table_u); by vm_compute. Qed.

(** ** Sorting *)

(** C33: ORDER BY.  Over a child that delivers [rows] without NaNs in the order columns, the sort
    returns the permutation of [rows] that is sorted by the columns, each ascending or
    descending, and keeps equal records in their order; there is only one. *)
Theorem order_by_sorts {W : Type} (I : W → Prop) (fuel : nat) (prev : Exec W) (order_bys : list OrderByTerm) (order : list (ColMeta * bool))
    (steady : bool) (rows : list record) (w : W) :
  I w → implements I prev steady rows → (length rows < fuel)%nat → order_found (cols prev) order_bys order →
  Forall (ExecSort.comparable order.*1) rows → let cmp a b := order_compare a b order in
  ∃ out w', select_from fuel (SortExecutor fuel prev order_bys) w = (Ok out, w') ∧
    ExecSort.stably_sorted cmp (ExecSort.comparable order.*1) rows out ∧
    ∀ out', ExecSort.stably_sorted cmp (ExecSort.comparable order.*1) rows out' → out' = out.
Proof.
  intros Hw Hi Hf Ho Hc cmp. pose proof (ExecSort.length_stable_sort cmp rows) as Hl.
  pose proof (sort_implements _ fuel prev order_bys order steady rows Hi Hf Ho Hl) as Hs.
  destruct (select_from_ok _ fuel _ _ _ Hs ltac:(rewrite PortalFacts.sort_length; done) w Hw) as (out & w' & Hrun & _ & ->).
  pose proof (ExecSort.stable_sort_ok cmp _ (ExecSort.order_compare_lawful order) rows Hc) as Hok. eexists _, w'. split_and!; [exact Hrun|exact Hok|].
  intros out' Ho'. by eapply (ExecSort.stably_sorted_unique cmp _ (ExecSort.order_compare_lawful order) rows).
Qed.

Lemma order_by_sorts_witness : let e := SortExecutor 20 scan_u [mk_OrderByTerm (col tab_u [Byte.x77]) true] in
  ∃ w', select_from 20 e db_world = (Ok [row 3 30; row 1 10], w') ∧
    ExecSort.stably_sorted (λ a b, order_compare a b [(u_w, true)]) (ExecSort.comparable [u_w]) [row 1 10; row 3 30] [row 3 30; row 1 10].
Proof.
  intros e. destruct (order_by_sorts db_reading 20 scan_u [mk_OrderByTerm (col tab_u [Byte.x77]) true] [(u_w, true)] true [row 1 10; row 3 30] db_world) as (out & w' & Hrun & Hok & Huniq).
  - exact db_reading_start.
  - exact scan_u_ok.
  - simpl. lia.
  - by repeat constructor.
  - by repeat constructor.
  - assert ((select_from 20 e db_world).1 = Ok [row 3 30; row 1 10]) as Hv by by vm_compute. unfold e in Hv. rewrite Hrun in Hv. injection Hv as ->.
    exists w'. exact (conj Hrun Hok).
Defined.

(** ** Grouping and aggregates *)

(** C31: GROUP BY and HAVING.  Over a child that delivers [rows], the executor returns a record for
    each class of [rows] with equal grouping fields that passes HAVING, in the order of the first
    records of the classes; its aggregates are those of exactly the records of the class.
    Without GROUP BY all records are one class, which exists even when there are none. *)
Theorem group_by_classes {W : Type} (I : W → Prop) (fuel : nat) (prev : Exec W) (terms : list SelectTerm) (calls : list AggCall) (groups : list TabCol)
    (having : list AggHavingCond) (metas : list ColMeta) (steady : bool) (rows out : list record) (w : W) :
  I w → implements I prev steady rows → AggFacts.agg_found (cols prev) calls groups metas →
  let classes := (λ k, AggFacts.class metas rows k) <$> AggFacts.keys metas rows in
  let group rs := mk_GroupState (default [] (head rs)) ((λ c, AggFacts.agg_over (cols prev) c rs) <$> calls) in
  let nothing := mk_GroupState (replicate (Z.to_nat (tupleLen prev)) Byte.x00) (replicate (length calls) new_agg) in
  results (cols prev) terms calls having (if decide (rows = [] ∧ groups = []) then [nothing] else group <$> classes) = Ok out →
  (length rows < fuel)%nat → (length out < fuel)%nat →
  (∃ w', select_from fuel (AggregateExecutor fuel prev terms calls groups having) w = (Ok out, w')) ∧
  concat classes ≡ₚ rows ∧ Forall (λ rs, rs ≠ [] ∧ ∃ k, Forall (λ r, AggFacts.row_key metas r = k) rs) classes ∧
  NoDup (AggFacts.keys metas rows).
Proof.
  intros Hw Hi Hfound classes group nothing Hout Hf Ho. split_and!.
  - destruct (select_from_ok I fuel (AggregateExecutor fuel prev terms calls groups having) true out) with (w := w) as (l & w' & Hrun & _ & ->); [|done|done|by exists w'].
    eapply AggFacts.agg_implements; [exact Hfound|exact Hi|done|done|]. rewrite <-Hout. f_equal. unfold AggFacts.final_spec. case_decide; [done|].
    unfold classes. by rewrite <-list_fmap_compose.
  - apply AggFacts.classes_partition.
  - apply Forall_fmap, Forall_forall. intros k Hk. split.
    + intros E. destruct (AggFacts.class_first metas rows k Hk) as [r Hr]. simpl in E. by rewrite E in Hr.
    + exists k. apply Forall_forall. by intros r [? _]%list_elem_of_filter.
  - apply AggFacts.keys_nodup.
Qed.

(** [SELECT v, COUNT( * ), SUM(id), MAX(id) FROM t GROUP BY v HAVING COUNT( * ) > 2]. *)
Definition agg_calls : list AggCall :=
  [mk_AggCall AGG_COUNT (col [] []) true TYPE_INT; mk_AggCall AGG_SUM (col tab_t [Byte.x69]) false TYPE_INT; mk_AggCall AGG_MAX (col tab_t [Byte.x69]) false TYPE_INT].
Definition agg_terms : list SelectTerm :=
  [mk_SelectTerm false (col tab_t [Byte.x76]) (-1) [Byte.x76] TYPE_INT 4; mk_SelectTerm true (col [] []) 0 [] TYPE_INT 4;
   mk_SelectTerm true (col [] []) 1 [] TYPE_INT 4; mk_SelectTerm true (col [] []) 2 [] TYPE_INT 4].
Definition agg_having : list AggHavingCond := [mk_AggHavingCond (AGG_TERM_AGG 0) OP_GT (AGG_TERM_VALUE (set_int 2))].

Lemma group_by_classes_witness : ∃ w',
  select_from 20 (AggregateExecutor 20 scan_t agg_terms agg_calls [col tab_t [Byte.x76]] agg_having) db_world = (Ok [row 0 3 ++ row 6 3], w').
Proof.
  destruct (group_by_classes db_reading 20 scan_t agg_terms agg_calls [col tab_t [Byte.x76]] agg_having [v_col] true [row 1 0; row 2 0; row 3 0] [row 0 3 ++ row 6 3] db_world)
    as [H _].
  - exact db_reading_start.
  - exact scan_t_ok.
  - split; [by repeat constructor|]. constructor; [by left|]. repeat (constructor; [right; by eexists|]). constructor.
  - by vm_compute.
  - simpl. lia.
  - simpl. lia.
  - exact H.
Defined.

(** C32: Aggregates over an integer column are exact.  For up to 2^32 records COUNT is their number
    and SUM the sum of the integers, both clamped to the range of [int], since every partial sum
    is exact in a [long double]; MAX and MIN are the greatest and the least of the integers. *)
Theorem int_aggregates_exact (cs : list ColMeta) (call : AggCall) (m : ColMeta) (rows : list record) :
  find_col cs (ac_col call) = Some m → cm_type m = TYPE_INT → result_type call = TYPE_INT → Z.of_nat (length rows) ≤ 2 ^ 32 →
  let ints := (λ r, int_of (field r (cm_offset m) 4)) <$> rows in
  let clamp z := Z.max INT_MIN (Z.min INT_MAX z) in
  let value := agg_value call (AggFacts.agg_over cs call rows) in
  match ac_type call with
  | AGG_COUNT => value = Some (set_int (clamp (Z.of_nat (length rows))))
  | AGG_SUM => value = Some (set_int (clamp (foldr Z.add 0 ints)))
  | AGG_MAX => rows ≠ [] → ∃ z, value = Some (set_int z) ∧ z ∈ ints ∧ Forall (λ y, y ≤ z) ints
  | AGG_MIN => rows ≠ [] → ∃ z, value = Some (set_int z) ∧ z ∈ ints ∧ Forall (λ y, z ≤ y) ints
  | AGG_AVG => True
  end.
Proof.
  intros Hm Ht Hres Hl ints clamp value. unfold value, agg_value. rewrite Hres. destruct (AggFacts.agg_counts cs call m Hm Ht rows) as [E1 E2].
  pose proof (AggFacts.agg_sum cs call m Hm Ht rows) as Hsum. pose proof (AggFacts.agg_extreme cs call m Hm Ht) as Hx.
  pose proof (AggFacts.total_bound m rows) as Hb. change (foldr Z.add 0 ints) with (AggFacts.total m rows). destruct (ac_type call) eqn:Ec.
  - assert (LongDouble.fits (Z.of_nat (length rows))) as Hfit by (unfold LongDouble.fits; lia).
    destruct (ac_star call); rewrite ?E1, ?E2; by rewrite LongDouble.ld_of_Z_int, LongDouble.clamp_int.
  - intros Hne. destruct (Hx Z.le rows) as (Hv & Hin & Hall); try done; [lia..|by intros v z [?|?%bool_decide_eq_true_1]%orb_prop; lia| |].
    { intros v z [_ ?%bool_decide_eq_false_1]%orb_false_iff. lia. }
    rewrite Hv. by eexists.
  - intros Hne. destruct (Hx (λ a b, b ≤ a) rows) as (Hv & Hin & Hall); try done; [lia..|by intros v z [?|?%bool_decide_eq_true_1]%orb_prop; lia| |].
    { intros v z [_ ?%bool_decide_eq_false_1]%orb_false_iff. lia. }
    rewrite Hv. by eexists.
  - rewrite Hsum by done. rewrite LongDouble.clamp_int; [done|]. unfold LongDouble.fits. lia.
  - done.
Qed.

Lemma int_aggregates_exact_witness : agg_value (mk_AggCall AGG_SUM (col tab_t [Byte.x69]) false TYPE_INT)
  (AggFacts.agg_over [id_col; v_col] (mk_AggCall AGG_SUM (col tab_t [Byte.x69]) false TYPE_INT) [row 2147483647 0; row (-1) 0; row 2147483647 0]) = Some (set_int 2147483647).
Proof.
  apply (int_aggregates_exact [id_col; v_col] (mk_AggCall AGG_SUM (col tab_t [Byte.x69]) false TYPE_INT) id_col); [done|done|done|]. simpl. lia.
Defined.

(** HAVING compares integers as floats.  The conditional expression that picks [int_val] or
    [float_val] has type [float], so both sides are rounded to 24 bits before they are widened to
    [double]: 16777217 is not greater than 16777216, and equals it. *)
Theorem having_rounds_integers :
  compare_values (set_int 16777217) OP_GT (set_int 16777216) = false ∧ compare_values (set_int 16777217) OP_EQ (set_int 16777216) = true.
Proof. by vm_compute. Qed.

(** ** Joins of limited queries *)

(** A join loses the last record of a limit on its left.  [LimitExecutor::is_end] turns true in
    the call of [Next] that returns the last record, and the join takes a left child that is at
    its end to have no record: when the limit [n] is reached, the join has the records of the
    first [n - 1] records only. *)
Theorem join_over_limit_loses_last {W : Type} (I : W → Prop) (fuel : nat) (prev right : Exec W) (n : Z) (conds : list Condition)
    (dom : record → Prop) (R : record → list record) (rows : list record) (w : W) :
  I w → implements I prev true rows → implements_for I right (cols prev) dom R → Forall dom rows → (∀ l, dom l → (length (R l) < fuel)%nat) →
  1 ≤ n ≤ Z.of_nat (length rows) → let left := LimitExecutor prev n in let kept := take (Z.to_nat (n - 1)) rows in
  (S (length kept) < fuel)%nat → (length (join_rows left right conds R kept) < fuel)%nat →
  ∃ w', select_from fuel (NestedLoopJoinExecutor fuel left right conds) w = (Ok (join_rows left right conds R kept), w').
Proof.
  intros Hw Hi Hr Hd HR Hn left kept Hf1 Hf2. destruct (select_from_ok I fuel (NestedLoopJoinExecutor fuel left right conds) true (join_rows left right conds R kept))
    with (w := w) as (l & w' & Hrun & _ & ->); [|done|done|by exists w'].
  apply (join_feeds_implements I fuel left right conds R dom Hr HR); [|..|by apply Forall_take|done|done].
  - intros s. eapply does_map; [apply (im_begin _ _ _ _ Hi)|]. intros p [Ha _].
    pose proof (limit_feeds I prev n dom rows (mk_LimitState prev p 0 (li_rows prev s)) Ha Hd) as Hfeed. simpl in Hfeed. rewrite Z.sub_0_r in Hfeed. apply Hfeed; lia.
  - intros s. eapply does_map; [apply (im_finish _ _ _ _ Hi)|]. done.
Qed.

Lemma join_over_limit_loses_last_witness : ∃ w', select_from 20 (NestedLoopJoinExecutor 20 (LimitExecutor scan_t 1) scan_u []) db_world = (Ok [], w').
Proof.
  apply (join_over_limit_loses_last db_reading 20 scan_t scan_u 1 [] (λ _, True) (λ _, [row 1 10; row 3 30]) [row 1 0; row 2 0; row 3 0]).
  - exact db_reading_start.
  - exact scan_t_ok.
  - apply (implements_any _ _ _ _ true); [exact scan_u_ok|]. intros l lc s. by apply does_ret.
  - by repeat constructor.
  - intros l _. simpl. lia.
  - simpl. lia.
  - simpl. lia.
  - simpl. lia.
Defined.
End QueryClaims.
