(* ===== verification/PlannerClaims.v ===== *)
(** * What the planner guarantees

    The plan of a query, run by its executors, returns the records of the product of the sources
    that satisfy the WHERE clause, grouped, ordered, limited and projected. *)

From stdpp Require Import gmultiset.
From Stdlib Require Import SpecFloat.
From S2P Require Import Prelude Disk RecordFile Log Recovery Conditions LockManager Watermark Mvcc MvccClaims Index IndexTree IndexKeys IndexSpec IndexClaims Executor ExecutorFacts Aggregate AggregateFacts Scans Portal PortalFacts ScanBounds Relations Planner PlannerFacts ScanFacts ScanViews ScanReads PortalReads PlannerReads QueryClaims.

Module PlannerClaims.
Import RecFile Cond Mvcc MvccClaims Exec Agg Scans Portal PortalFacts Rel Planner PlannerFacts ScanViews ScanReads PortalReads PlannerReads QueryClaims.

(** C7: A planned query returns what it means. For a query over tables and derived tables of different
    names, the planner makes a plan; when the index scans of the plan have bounds in order, the
    plan's executors return the product of the sources, selected by all conditions of the query
    and then grouped, ordered, limited and projected: no condition is lost or applied to the
    wrong source when conditions move into scans and joins, and neither indexes nor index joins
    change the result.  The order in which the product is enumerated is not fixed.
    The conditions compare columns of one type and length, or a column with a value of its type
    ([cond_fits]); with several sources the first one is not a derived table that ends with a
    LIMIT (the code loses its last record, [pl_steady]); the executors of the plan exist, which
    [accepted_select_returns] shows for accepted statements.  The database is as in
    [planned_db]: not a SERIALIZABLE snapshot transaction, its shared locks granted, tables open
    with records that fit their columns and have finite floats, complete indexes of which only
    the last leaf is empty, no compensation keys; and the products have less than [fuel] records. *)
Theorem planned_query_returns (std_hash : Z → Z) (ndebug : bool) (fuel : nat) (tm : TransactionManager) (ihs : gmap string Ix.IxIndexHandle) (t : Z)
    (x : Transaction) (entries : gmap string (gmap Z IxTree.entry)) (q : Query) (rels : list Relation) :
  let db := tabs_ (sys tm) in
  planned_db std_hash fuel tm ihs t x entries → q_union q = [] → q_sources q ≠ [] → q_tables q = qs_name <$> q_sources q →
  plannable fuel (table_cols tm) (scan_rows tm t x entries) db (table_rel tm t x) (plan_source (make_query_plan db) <$> q_sources q) rels (q_conds q) →
  ∃ p, generate_select_plan db q = Ok p ∧ ∀ e, Forall (in_order tm) (scans p) → convert_plan_executor std_hash ndebug fuel t (mk_World tm ihs) p = Ok e →
    ∃ l, l ≡ₚ where_rows (q_conds q) (cross_of rels) ∧
      ∀ rows, finish_rows fuel q (r_cols (cross_of rels), r_len (cross_of rels)) l = Some rows → ∃ w', run_select std_hash ndebug fuel t p (mk_World tm ihs) = (Ok rows, w').
Proof.
  intros db Hdb Hu Hne Ht Hpl. destruct (select_plan_ok _ _ _ _ _ _ (Hspec:=planner_scans _ _ _ _ _ _ _ Hdb) q rels Hu Hne Ht Hpl) as (p & Hp & Hd).
  exists p. split; [done|]. intros e Hord He. destruct (Hd Hord) as (l & Hl & Hev). exists l. split; [done|]. intros rows Hrows.
  destruct (PortalFacts.run_select_ok std_hash ndebug fuel t (reading std_hash (indexes_at ihs) tm t x) (mk_World tm ihs)
    (table_cols tm) (scan_rows tm t x entries) p e rows) as (w' & Hrun & _); [by eapply db_start, Hdb|done| |by rewrite Hev|by exists w'].
  apply Forall_forall. intros s _. by apply db_scan_ok, Hdb.
Qed.

(** ** A query of the small database *)

#[export] Instance field_ok_dec type len bs : Decision (ScanBounds.field_ok type len bs).
Proof. unfold ScanBounds.field_ok, ScanBounds.finite_bits. destruct type; apply _. Defined.

Lemma col_fits_iff n c : col_fits n c ↔ 0 ≤ cm_offset c ∧ 0 ≤ cm_len c ∧ cm_offset c + cm_len c ≤ n ∧ (cm_type c = TYPE_STRING ∨ cm_len c = 4).
Proof.
  split; [intros [? ? ? H4]|intros (? & ? & ? & H4)].
  - split_and!; [done..|]. destruct (decide (cm_type c = TYPE_STRING)); auto.
  - split; [done..|]. by destruct H4.
Qed.
#[export] Instance col_fits_dec n c : Decision (col_fits n c).
Proof. refine (cast_if (decide (0 ≤ cm_offset c ∧ 0 ≤ cm_len c ∧ cm_offset c + cm_len c ≤ n ∧ (cm_type c = TYPE_STRING ∨ cm_len c = 4)))); by rewrite col_fits_iff. Defined.

Lemma well_formed_iff a : well_formed a ↔ 0 ≤ r_len a ∧ Forall (col_fits (r_len a)) (r_cols a) ∧ Forall (λ r, Z.of_nat (length r) = r_len a) (r_rows a) ∧
  Forall (λ r, Forall (λ c, ScanBounds.field_ok (cm_type c) (cm_len c) (field r (cm_offset c) (cm_len c))) (r_cols a)) (r_rows a).
Proof. split; [by intros []|by intros (? & ? & ? & ?)]. Qed.
#[export] Instance well_formed_dec a : Decision (well_formed a).
Proof. refine (cast_if (decide (0 ≤ r_len a ∧ Forall (col_fits (r_len a)) (r_cols a) ∧ Forall (λ r, Z.of_nat (length r) = r_len a) (r_rows a) ∧
  Forall (λ r, Forall (λ c, ScanBounds.field_ok (cm_type c) (cm_len c) (field r (cm_offset c) (cm_len c))) (r_cols a)) (r_rows a)))); by rewrite well_formed_iff. Defined.

Abbreviation rel0 := (table_rel db_tm 0 snapshot_txn).

Lemma db_tables tab m : tabs_ (sys db_tm) !! tab = Some m → (tab = tab_t ∧ m = mk_TabMeta [id_col; v_col] []) ∨ (tab = tab_u ∧ m = mk_TabMeta [u_id; u_w] [mk_IndexMeta [u_id]]).
Proof.
  change (tabs_ (sys db_tm)) with ({[tab_t := mk_TabMeta [id_col; v_col] []; tab_u := mk_TabMeta [u_id; u_w] [mk_IndexMeta [u_id]]]} : gmap (list byte) TabMeta).
  intros [[<- <-]|[_ [<- <-]%lookup_singleton_Some]]%lookup_insert_Some; auto.
Qed.

Lemma db_planned : planned_db (λ h, h) 20 db_tm db_indexes 0 snapshot_txn db_entries.
Proof.
  split; [exact db_ok| |].
  - intros tab m [[-> ->]|[-> ->]]%db_tables; (split; [by eexists|apply (bool_decide_unpack _); by vm_compute]).
  - intros tab m im tb [[-> ->]|[-> ->]]%db_tables Hin; [by apply elem_of_nil in Hin|]. apply list_elem_of_singleton in Hin as ->.
    change (fhs_ (sys db_tm) !! tab_u) with (Some table_u). intros [= <-]. exists u_index, u_entries. split_and!; [by vm_compute|by vm_compute| |apply Forall_singleton; by vm_compute].
    set (view := view_of db_tm tab_u 0 snapshot_txn table_u). split.
    + assert (map_Forall (λ rid r, u_entries !! IxKeys.key_rank (ScanBounds.col_pair <$> [u_id]) (ScanBounds.key_of r [u_id]) = Some (ScanBounds.key_of r [u_id], rid)) view) as H
        by (apply (bool_decide_unpack _); by vm_compute). intros rid r Hr. by apply H.
    + assert (map_Forall (λ _ e, (if view !! e.2 is Some r then bool_decide (e.1 = ScanBounds.key_of r [u_id]) else true) = true) u_entries) as H by (apply (bool_decide_unpack _); by vm_compute).
      intros z k rid r Hz Hv. specialize (H z (k, rid) Hz). cbn [fst snd] in H. rewrite Hv in H. by apply bool_decide_eq_true_1 in H.
Qed.

(** [SELECT t.id, u.w FROM t, u WHERE t.id = u.id AND u.w < 20 ORDER BY u.w DESC]. *)
Definition source_t : QuerySource Query := mk_QuerySource tab_t None [id_col; v_col].
Definition source_u : QuerySource Query := mk_QuerySource tab_u None [u_id; u_w].
Definition same_id : Condition := mk_Condition (col tab_t [Byte.x69]) OP_EQ false (col tab_u [Byte.x69]) (mk_Value [] []).
Definition small_w : Condition := mk_Condition (col tab_u [Byte.x77]) OP_LT true (col [] []) (tv_val (set_int 20)).
Definition query_tu : Query :=
  mk_Query [same_id; small_w] [col tab_t [Byte.x69]; col tab_u [Byte.x77]] [] [] [] [] [mk_OrderByTerm (col tab_u [Byte.x77]) true] [] [source_t; source_u] [] false (-1) [tab_t; tab_u].

Lemma base_source_ok s : qs_derived s = None → is_Some (tabs_ (sys db_tm) !! qs_name s) → columns_of [qs_name s] (rel0 (qs_name s)) →
  source_ok 20 (table_cols db_tm) (scan_rows db_tm 0 snapshot_txn db_entries) (tabs_ (sys db_tm)) rel0 s (rel0 (qs_name s)).
Proof. intros Hd [m Hm] Hc. split; [by eapply pd_table; [exact db_planned|]|done|]. rewrite Hd. split; [by exists m|done]. Qed.

Lemma planned_query_returns_witness : ∃ p w', generate_select_plan (tabs_ (sys db_tm)) query_tu = Ok p ∧
  run_select (λ h, h) true 20 0 p (mk_World db_tm db_indexes) = (Ok [row 1 10], w').
Proof.
  destruct (planned_query_returns (λ h, h) true 20 db_tm db_indexes 0 snapshot_txn db_entries query_tu [rel0 tab_t; rel0 tab_u]) as (p & Hp & Hrun); try done.
  - exact db_planned.
  - split.
    + repeat (constructor; [apply base_source_ok; [done|by eexists|apply (bool_decide_unpack _); by vm_compute]|]). constructor.
    + apply (bool_decide_unpack _). by vm_compute.
    + constructor; [|constructor; [|constructor]].
      * exists id_col. split_and!; [vm_compute; reflexivity| |done]. intros _. exists (shift_col 8 u_id). split_and!; [vm_compute; reflexivity|reflexivity|reflexivity].
      * exists (shift_col 8 u_w). split_and!; [vm_compute; reflexivity|done|]. intros _. apply (bool_decide_unpack _). vm_compute. exact I.
    + done.
    + apply Nat.ltb_lt. by vm_compute.
  - exists p. pose proof Hp as Hp'. vm_compute in Hp'. injection Hp' as Ep. subst p.
    destruct (Hrun _ ltac:(by repeat constructor) eq_refl) as (l & Hl & Hrows).
    assert (where_rows (q_conds query_tu) (cross_of [rel0 tab_t; rel0 tab_u]) = [row 1 0 ++ row 1 10]) as E by by vm_compute. rewrite E in Hl. apply Permutation_singleton_r in Hl as ->.
    destruct (Hrows [row 1 10]) as [w' Hw]; [vm_compute; reflexivity|]. exists w'. split; [exact Hp|exact Hw].
Defined.
End PlannerClaims.
