(* ===== verification/AnalyzeClaims.v ===== *)
(** * What the SQL front end guarantees

    A SELECT statement over tables that the analyzer accepts is planned and runs to its result:
    the product of the tables, selected by WHERE and then grouped, ordered, limited and
    projected.  The conditions under which this holds are those that [renders] and the
    distinctness of the tables name; the last theorems show what happens without them. *)

From stdpp Require Import gmultiset.
From Stdlib Require Import SpecFloat.
From S2P Require Import Prelude Disk RecordFile Log Recovery Conditions LockManager Watermark Mvcc MvccClaims Index IndexTree IndexKeys IndexSpec IndexClaims Executor ExecutorFacts Aggregate AggregateFacts Scans Portal Dml Planner Analyze PortalFacts ScanBounds Relations PlannerFacts AnalyzeFacts ScanFacts ScanViews ScanReads PortalReads PlannerReads QueryClaims PlannerClaims.

Module AnalyzeClaims.
Import RecFile Cond Mvcc MvccClaims Exec Agg Scans Portal Dml PortalFacts Rel Planner PlannerFacts Analyze AnalyzeFacts ScanViews ScanReads PortalReads PlannerReads QueryClaims PlannerClaims.

(** ** The scope of a statement *)

Section scope.
Context (db : gmap bytes TabMeta).

(** The columns in scope are those of the sources; a table has the columns of the catalogue. *)
Record scope_ok (sc : Scope) : Prop := {
  sk_cols : all_cols sc = concat (qs_cols <$> sources sc);
  sk_tables : Forall (λ s, qs_derived s = None → ∃ m, db !! qs_name s = Some m ∧ qs_cols s = tm_cols m) (sources sc)
}.

Lemma add_ref_ok sc ref sc' : scope_ok sc → add_ref db sc ref = Ok sc' →
  scope_ok sc' ∧ ∃ s, sources sc' = sources sc ++ [s] ∧ (tr_derived ref = None → qs_derived s = None).
Proof.
  intros [Hc Ht] H. unfold add_ref in H. destruct (tr_derived ref) as [q|].
  - case_decide; [done|]. apply res_bind_ok in H as (q' & _ & [= <-]). split; [|eexists; split; [reflexivity|done]]. split; cbn.
    + rewrite fmap_app, concat_app, <-Hc. simpl. by rewrite app_nil_r.
    + apply Forall_app_2; [done|]. by apply Forall_singleton.
  - apply res_bind_ok in H as (m & Hm & [= <-]). apply require_ok in Hm. split; [|eexists; split; [reflexivity|done]]. split; cbn.
    + rewrite fmap_app, concat_app, <-Hc. simpl. by rewrite app_nil_r.
    + apply Forall_app_2; [done|]. apply Forall_singleton. intros _. by exists m.
Qed.

Lemma add_refs_ok refs : ∀ sc sc', scope_ok sc → add_refs db sc refs = Ok sc' →
  scope_ok sc' ∧ ∃ ss, sources sc' = sources sc ++ ss ∧ length ss = length refs ∧ (Forall (λ r, tr_derived r = None) refs → Forall (λ s, qs_derived s = None) ss).
Proof.
  induction refs as [|ref refs IH]; intros sc sc' Hsc H; cbn [add_refs] in H.
  - injection H as <-. split; [done|]. exists []. split_and!; [by rewrite app_nil_r|done|constructor].
  - apply res_bind_ok in H as (sc1 & H1 & H2). destruct (add_ref_ok _ _ _ Hsc H1) as (Hsc1 & s & Es & Hd). destruct (IH _ _ Hsc1 H2) as (Hsc2 & ss & Ess & El & Hds).
    split; [done|]. exists (s :: ss). rewrite Ess, Es, <-app_assoc. split_and!; [done|simpl; by rewrite El|]. intros [H3 H4]%Forall_cons. constructor; auto.
Qed.

Lemma empty_scope_ok : scope_ok (mk_Scope [] ∅ []).
Proof. split; [done|constructor]. Qed.

Lemma analyze_select_inv x tabs refs q : analyze_select db x tabs refs = Ok q → ∃ sc, scope_ok sc ∧ analyze_body sc x = Ok q ∧
  length (sources sc) = length (refs_of tabs refs) ∧ (Forall (λ r, tr_derived r = None) refs → Forall (λ s, qs_derived s = None) (sources sc)).
Proof.
  intros H. apply res_bind_ok in H as (sc & Hsc & H). destruct (add_refs_ok _ _ _ empty_scope_ok Hsc) as (Hok & ss & Es & El & Hd). cbn in Es. exists sc. rewrite Es. split_and!; try done.
  intros Hr. apply Hd. unfold refs_of. destruct refs; [|done]. apply Forall_fmap, Forall_forall. by intros [tab alias] _.
Qed.

Lemma body_parts sc x q : analyze_body sc x = Ok q → q_sources q = sources sc ∧ q_union q = [] ∧ q_tables q = qs_name <$> sources sc.
Proof.
  intros H. unfold analyze_body in H. do 5 (apply res_bind_ok in H as (? & _ & H)). apply res_bind_ok in H as ([having l] & _ & H). do 2 (apply res_bind_ok in H as (? & _ & H)).
  apply res_bind_ok in H as (? & _ & [= <-]). done.
Qed.
End scope.

(** ** Accepted statements are well typed *)

(** C8: The analyzer accepts only well-typed SELECT statements: in the query it returns, every column
    that WHERE, GROUP BY, HAVING and the terms of the select list refer to is a column of a
    source; compared columns have one type and a literal has the type of the column it is
    compared with and fits its length; aggregate functions take arguments they can handle; terms refer to
    existing calls with their types; and with aggregation every plain column is grouped.  Without
    aggregation the columns of ORDER BY are columns of the sources too; with aggregation nothing
    is said of them ([accepted_statements_fail] has one that cannot run).  The result columns [q_cols] are all the
    columns of the sources or one for each term, which carries the alias of the term if it has
    one; with aggregation they are those of the terms.  The sources are tables of the catalogue
    with their columns, or derived tables.  The literals of the statement are such as the parser
    makes ([rhs_ok]). *)
Theorem accepted_query_typed (db : gmap bytes TabMeta) (x : SelectBody) (tabs : list (bytes * bytes)) (refs : list (TableRef QueryExpr)) (q : Query) :
  Forall (λ e, rhs_ok (be_rhs e)) (sl_conds x) → analyze_query_expr db (SelectStmt x tabs refs) = Ok q →
  well_typed (concat (qs_cols <$> q_sources q)) q ∧ q_union q = [] ∧ q_tables q = qs_name <$> q_sources q ∧
  Forall (λ s, qs_derived s = None → ∃ m, db !! qs_name s = Some m ∧ qs_cols s = tm_cols m) (q_sources q).
Proof.
  intros Hl H. cbn [analyze_query_expr] in H. destruct (analyze_select_inv _ _ _ _ _ H) as (sc & [Hc Ht] & Hb & _). destruct (body_parts _ _ _ Hb) as (-> & -> & ->).
  rewrite <-Hc. split_and!; try done. by apply (analyze_body_sound sc x).
Qed.

(** ** Plans over tables can be converted *)



Section flat.
Context (db : gmap bytes TabMeta).




End flat.

Section convert.
Context (std_hash : Z → Z) (ndebug : bool) (fuel : nat) (tm : TransactionManager) (ihs : gmap string Ix.IxIndexHandle) (t : Z) (x : Transaction).
Context (entries : gmap string (gmap Z IxTree.entry)) (Hdb : planned_db std_hash fuel tm ihs t x entries).
Abbreviation conv := (convert_plan_executor std_hash ndebug fuel t (mk_World tm ihs)).


End convert.

(** ** The columns of a product *)







(** ** Accepted statements run *)




Section accepted.
Context (std_hash : Z → Z) (ndebug : bool) (fuel : nat) (tm : TransactionManager) (ihs : gmap string Ix.IxIndexHandle) (t : Z) (x : Transaction).
Context (entries : gmap string (gmap Z IxTree.entry)) (Hdb : planned_db std_hash fuel tm ihs t x entries).
Abbreviation db := (tabs_ (sys tm)).
Abbreviation planned_sources ss := (plan_source (make_query_plan db) <$> ss).
Abbreviation rel := (table_rel tm t x).





End accepted.


(** ** A statement over the small database *)

(** [SELECT t.i, MAX(w) AS m FROM t, u WHERE t.i = u.i AND w < 20 GROUP BY t.i HAVING COUNT( * ) > 0
    ORDER BY m DESC]. *)
Definition col_i : bytes := [Byte.x69].
Definition col_w : bytes := [Byte.x77].
Definition name_m : bytes := [Byte.x6d].
Definition stmt_tu : SelectBody :=
  mk_SelectBody
    [mk_SelectItem (ECol (mk_TabCol tab_t col_i)) []; mk_SelectItem (EAgg (mk_AggExpr Agg_MAX (Some (mk_TabCol [] col_w)) false)) name_m]
    [mk_BinaryExpr (mk_TabCol tab_t col_i) SV_OP_EQ (ECol (mk_TabCol tab_u col_i)); mk_BinaryExpr (mk_TabCol [] col_w) SV_OP_LT (ELit (IntLit 20))]
    [mk_TabCol tab_t col_i]
    [mk_HavingExpr (EAgg (mk_AggExpr Agg_COUNT None true)) SV_OP_GT (ELit (IntLit 0))]
    (Some [(mk_TabCol [] name_m, OrderBy_DESC)]) (-1).
Definition refs_tu : list (TableRef QueryExpr) := [mk_TableRef tab_t [] None; mk_TableRef tab_u [] None].

Definition query_stmt : Query :=
  match analyze_query_expr (tabs_ (sys db_tm)) (SelectStmt stmt_tu [] refs_tu) with Ok q => q | Err _ => query_tu end.

Lemma stmt_accepted : analyze_query_expr (tabs_ (sys db_tm)) (SelectStmt stmt_tu [] refs_tu) = Ok query_stmt.
Proof. vm_compute. reflexivity. Qed.

Lemma stmt_literals : Forall (λ e, rhs_ok (be_rhs e)) (sl_conds stmt_tu).
Proof. repeat constructor; unfold INT_MIN, INT_MAX; lia. Qed.

Lemma accepted_query_typed_witness : q_aggregate query_stmt = true ∧ Forall (typed_call (concat (qs_cols <$> q_sources query_stmt))) (q_calls query_stmt).
Proof.
  split; [vm_compute; reflexivity|]. apply wt_calls. apply (accepted_query_typed (tabs_ (sys db_tm)) stmt_tu [] refs_tu query_stmt stmt_literals stmt_accepted).
Defined.


(** ** Statements that the conditions exclude *)

(** Analysis, planning and execution of a statement over the small database. *)
Definition accepted (e : QueryExpr) : bool := match analyze_query_expr (tabs_ (sys db_tm)) e with Ok _ => true | Err _ => false end.
Definition run_statement (e : QueryExpr) : res (list record) :=
  q ← analyze_query_expr (tabs_ (sys db_tm)) e;
  p ← make_query_plan (tabs_ (sys db_tm)) q;
  (run_select (λ h, h) true 20 0 p (mk_World db_tm db_indexes)).1.

Definition item (e : Expr) (alias : bytes) : SelectItem := mk_SelectItem e alias.
Definition ref_t (alias : bytes) : TableRef QueryExpr := mk_TableRef tab_t alias None.
(** [SELECT i AS m FROM t]. *)
Definition renamed_column : QueryExpr := SelectStmt (mk_SelectBody [item (ECol (mk_TabCol [] col_i)) name_m] [] [] [] None (-1)) [] [ref_t []].
(** [SELECT COUNT( * ) FROM t GROUP BY i ORDER BY i]. *)
Definition order_by_group : QueryExpr :=
  SelectStmt (mk_SelectBody [item (EAgg (mk_AggExpr Agg_COUNT None true)) []] [] [mk_TabCol [] col_i] [] (Some [(mk_TabCol [] col_i, OrderBy_ASC)]) (-1)) [] [ref_t []].

(** Accepted statements that cannot run. The analyzer gives a plain column with an alias the name
    of the alias in the projection, which is applied to the columns of the table; and it lets a
    grouped result be ordered by a grouped column that is not selected, which the result does not
    have.  Both statements are accepted and fail with ColumnNotFoundError when they run. *)
Theorem accepted_statements_fail :
  accepted renamed_column = true ∧ run_statement renamed_column = Err (ColumnNotFoundError "t.m") ∧
  accepted order_by_group = true ∧ run_statement order_by_group = Err (ColumnNotFoundError "__agg.i").
Proof. vm_compute. repeat split. Qed.

(** [SELECT * FROM t a, t b WHERE a.i = 1 AND b.i = 2], and the same with [(SELECT * FROM t) b]. *)
Definition name_a : bytes := [Byte.x61].
Definition name_b : bytes := [Byte.x62].
Definition pair_conds : list BinaryExpr :=
  [mk_BinaryExpr (mk_TabCol name_a col_i) SV_OP_EQ (ELit (IntLit 1)); mk_BinaryExpr (mk_TabCol name_b col_i) SV_OP_EQ (ELit (IntLit 2))].
Definition self_join : QueryExpr := SelectStmt (mk_SelectBody [] pair_conds [] [] None (-1)) [] [ref_t name_a; ref_t name_b].
Definition self_join_derived : QueryExpr :=
  SelectStmt (mk_SelectBody [] pair_conds [] [] None (-1)) []
    [ref_t name_a; mk_TableRef [] name_b (Some (SelectStmt (mk_SelectBody [] [] [] [] None (-1)) [] [ref_t []]))].

(** Aliases of one table are one source. The analyzer replaces an alias by the name of its table
    and keeps the table twice; the conditions on both aliases then go to the scan of the first
    one, so that the self join returns nothing, where the same statement over a derived table
    returns the pair of records. *)
Theorem self_join_conditions_merge :
  run_statement self_join = Ok [] ∧ run_statement self_join_derived = Ok [row 1 0 ++ row 2 0].
Proof. vm_compute. repeat split. Qed.
End AnalyzeClaims.
