(* ===== verification/SysClaims.v ===== *)
(** * What tables, indexes and restarts guarantee

    Every sequence of CREATE and DROP statements, failing ones included, keeps the invariant of
    the system manager, and a database that is closed and opened is the same database.  CREATE
    INDEX gives every row its entry or reports a duplicate.  Three cases give less: an index name
    that two tables share, a dropped table whose log records stop the next start, and a clustered
    index whose rows recovery moves back. *)

From S2P Require Import Prelude RecordFile Log Recovery Conditions LockManager Mvcc Index IndexTree IndexKeys IndexFile Executor Aggregate Scans Dml ScanBounds Catalogue SysManager SysFacts DmlClaims.

Module SysClaims.
Import DmlClaims RecFile Cond Cat Sys SysFacts.

Abbreviation nm s := (String.list_byte_of_string s).

(** ** A database *)

(** Tables [t(id INT)] and [u(id INT, s CHAR(8))] with indexes; two statements fail. *)
Definition sample_ddl : list Ddl :=
  [CreateTable (nm "t") [mk_ColDef (nm "id") TYPE_INT 4]; CreateTable (nm "u") [mk_ColDef (nm "id") TYPE_INT 4; mk_ColDef (nm "s") TYPE_STRING 8];
   CreateIndex (nm "u") [nm "id"; nm "s"]; CreateIndex (nm "u") [nm "s"]; CreateTable (nm "t") []; DropIndex (nm "u") [nm "s"]; DropTable (nm "v"); CreateIndex (nm "t") [nm "id"]].

Lemma sample_ddl_ok : Forall ddl_ok sample_ddl.
Proof. repeat constructor; done. Qed.

#[local] Instance tab_counts_dec t : Decision (tab_counts t).
Proof. unfold tab_counts. apply _. Defined.

Lemma sample_counts : counts_ok (db_ (run_ddls first_free sample_ddl (new_db (nm "db")))).
Proof. split; [|vm_compute; done]. apply (bool_decide_unpack (map_Forall (λ _ t, tab_counts t) _)). vm_compute. exact I. Qed.

(** Table [t] with rows 2 and 1, and the log of the transaction that put them there. *)
Definition insert_int (v lsn : Z) : M Recovery.Table unit := rid ← Dml.insert_record first_free (enc_int 4 v); Recovery.set_page_lsn rid lsn.
Definition rows_heap : Recovery.Table := ((insert_int 2 1;; insert_int 1 2) (new_heap 4)).2.
Definition base : SmManager := run_ddls first_free (take 1 sample_ddl) (new_db (nm "db")).
Definition loaded : SmManager := set_fhs (<[nm "t" := rows_heap]> (fhs_ base)) base.
Definition rows_log : list Log.LogRecord :=
  [Log.mk_LogRecord 1 0 7 (-1) (Log.PInsert (enc_int 4 2) (mk_Rid 1 0) (nm "t")); Log.mk_LogRecord 2 0 7 1 (Log.PInsert (enc_int 4 1) (mk_Rid 1 1) (nm "t")); Log.mk_LogRecord 3 0 7 2 Log.PCommit].

Lemma rows_heap_ok : heap_ok rows_heap.
Proof. split; [vm_compute; done|vm_compute; done|]. apply (bool_decide_unpack (map_Forall _ _)). vm_compute. exact I. Qed.

Definition t_meta : CatTab := mk_CatTab (nm "t") [mk_CatCol (mk_ColMeta (nm "t") (nm "id") TYPE_INT 4 0) false] [].

Lemma loaded_ok : sm_ok loaded.
Proof.
  apply (other_heap (nm "t") t_meta); [|vm_compute; reflexivity|exact rows_heap_ok|by left].
  apply run_ddls_ok; [apply _|apply Forall_take, sample_ddl_ok|apply new_db_ok; reflexivity].
Qed.

Lemma loaded_counts : counts_ok (db_ loaded).
Proof. split; [|vm_compute; done]. apply (bool_decide_unpack (map_Forall (λ _ t, tab_counts t) _)). vm_compute. exact I. Qed.

Lemma loaded_t : tabs_ (db_ loaded) !! nm "t" = Some t_meta.
Proof. vm_compute. reflexivity. Qed.
Lemma loaded_rows : fhs_ loaded !! nm "t" = Some rows_heap.
Proof. vm_compute. reflexivity. Qed.
Lemma loaded_free : index_file (nm "t") (cc_meta <$> ct_cols t_meta) ∉ files_ loaded.
Proof. apply (bool_decide_unpack (_ ∉ _)). vm_compute. exact I. Qed.
Lemma rows_valid : Forall (valid_record (cc_meta <$> ct_cols t_meta)) (values rows_heap).
Proof. assert (values rows_heap = [enc_int 4 2; enc_int 4 1] ∨ values rows_heap = [enc_int 4 1; enc_int 4 2]) as [-> | ->] by (vm_compute; auto); repeat constructor. Qed.
Lemma rows_committed : 7 ∈ Recovery.committed_txns_ (Recovery.analyze rows_log).
Proof. apply (bool_decide_unpack (_ ∈ _)). vm_compute. exact I. Qed.

(** ** Statements and restarts *)

(** C14: CREATE TABLE, DROP TABLE, CREATE INDEX and DROP INDEX, in any order and whether they succeed
    or fail, keep the invariant of the system manager: the catalogue file has the text of the
    catalogue, exactly the tables of the catalogue are open, every index of the catalogue is
    open, complete and the only owner of its file. *)
Theorem ddl_keeps_invariant free_slot `{!Dml.FreeSlots free_slot} l s : sm_ok s → Forall ddl_ok l → sm_ok (run_ddls free_slot l s).
Proof. intros Hs Hl. by apply run_ddls_ok. Qed.

Lemma ddl_keeps_invariant_witness : sm_ok (run_ddls first_free sample_ddl (new_db (nm "db"))).
Proof. apply (ddl_keeps_invariant first_free sample_ddl); [apply new_db_ok; reflexivity|exact sample_ddl_ok]. Defined.

(** C15: A database that is closed and opened again has the same catalogue, the same tables with the
    same rows and the same indexes: what [operator<<] writes [operator>>] reads back, and every
    file that the catalogue names is there. *)
Theorem restart_keeps_database s : sm_ok s → counts_ok (db_ s) → open_db (close_db s) = Ok s.
Proof. apply reopen_ok. Qed.

Lemma restart_keeps_database_witness : let s := run_ddls first_free sample_ddl (new_db (nm "db")) in open_db (close_db s) = Ok s.
Proof.
  apply (restart_keeps_database (run_ddls first_free sample_ddl (new_db (nm "db")))); [apply run_ddls_ok; [apply _|exact sample_ddl_ok|apply new_db_ok; reflexivity]|].
  exact sample_counts.
Defined.

(** ** CREATE INDEX *)

(** C16: For columns of the table, none of the indexes it has and a file name that is free, CREATE
    INDEX succeeds exactly if the columns are not too long together and no two rows have equal
    keys.  It then has an entry for every row at its place and no other.  Without success the
    catalogue and the open indexes are as before; so are the files if two rows have equal keys,
    while columns that are too long leave the new file behind.  In all cases the table has the
    rows it had: also when its first index has moved them.  The rows have valid keys: strings
    that are padded with zeros and finite floats. *)
Theorem create_index_correct free_slot `{!Dml.FreeSlots free_slot} tab names s t cs tb :
  let metas := cc_meta <$> cs in let name := index_file tab metas in let len := foldl Z.add 0 (cm_len <$> metas) in
  sm_ok s → tabs_ (db_ s) !! tab = Some t → has_index t names = false → mapM (get_cat_col t) names = Ok cs → name ∉ files_ s →
  fhs_ s !! tab = Some tb → Forall (valid_record metas) (values tb) →
  ∃ r tb', let s' := (create_index free_slot tab names s).2 in
    (create_index free_slot tab names s).1 = r ∧ (r = Ok tt ↔ len ≤ Ix.IX_MAX_COL_LEN ∧ NoDup (ranks metas (values tb))) ∧
    fhs_ s' = <[tab := tb']> (fhs_ s) ∧ values tb' ≡ₚ values tb ∧
    match r with
    | Ok _ => ∃ es, ihs_ s' = <[name := mk_OpenIndex metas es]> (ihs_ s) ∧ entries_of metas (map_to_list (Recovery.t_records tb')) es
    | Err e => db_ s' = db_ s ∧ ihs_ s' = ihs_ s ∧
        if decide (len ≤ Ix.IX_MAX_COL_LEN) then e = RMDBError ∧ files_ s' = files_ s
        else e = InvalidColLengthError len ∧ tb' = tb ∧ files_ s' = {[name]} ∪ files_ s
    end.
Proof.
  intros metas name len Hok Ht Hh Hm Hn Hf Hv. destruct (decide (len ≤ Ix.IX_MAX_COL_LEN)) as [Hl|Hl].
  2:{ assert (Ix.IX_MAX_COL_LEN < len) as Hl' by lia. rewrite (create_index_too_long free_slot tab names t cs s Ht Hh Hm Hn Hl'). exists (Err (InvalidColLengthError len)), tb. split_and!; try done; [naive_solver|]. cbn. by rewrite insert_id. }
  rewrite (create_index_runs free_slot tab names t cs tb) by done. fold metas name. destruct (so_table s Hok tab t Ht) as (tb0 & Hf0 & Htb). assert (tb0 = tb) as -> by congruence.
  destruct (build_built free_slot t metas tb Htb) as (r & tb' & -> & [B1 B2 B3] & _ & He). destruct r as [es|e].
  - exists (Ok tt), tb'. split_and!; try done; [|by exists es; split; [|apply B3]]. split; [|done]. intros _. split; [done|]. specialize (B3 es eq_refl). apply entries_nodup in B3; [|apply NoDup_fst_map_to_list]. by rewrite <-B2.
  - exists (Err e), tb'. destruct (He e eq_refl) as [-> Hd]. split_and!; try done. split; [done|]. intros [_ Hnd]. by apply Hd in Hnd.
Qed.

Lemma create_index_correct_witness :
  let s' := (create_index first_free (nm "t") [nm "id"] loaded).2 in
  ∃ r tb', (create_index first_free (nm "t") [nm "id"] loaded).1 = r ∧ fhs_ s' = <[nm "t" := tb']> (fhs_ loaded).
Proof.
  destruct (create_index_correct first_free (nm "t") [nm "id"] loaded t_meta (ct_cols t_meta) rows_heap) as (r & tb' & H1 & _ & H2 & _).
  - exact loaded_ok.
  - exact loaded_t.
  - reflexivity.
  - vm_compute. reflexivity.
  - exact loaded_free.
  - exact loaded_rows.
  - exact rows_valid.
  - exists r, tb'. split; [exact H1|exact H2].
Defined.

Lemma clustered_counts : counts_ok (db_ (create_index first_free (nm "t") [nm "id"] loaded).2).
Proof. split; [|vm_compute; done]. apply (bool_decide_unpack (map_Forall (λ _ t, tab_counts t) _)). vm_compute. exact I. Qed.

(** The row at a place in table [t], and what its indexes have for a key. *)
Definition row_and_entries (rid : Rid) (key : list byte) (db : Recovery.Db) : option (option (list byte) * list (option Rid)) :=
  (λ tb, (Recovery.t_records tb !! rid, (λ ix, Recovery.entries ix !! key) <$> Recovery.t_indexes tb)) <$> db !! nm "t".

(** The first index of a table sorts its rows into new pages, which no log record tells.  A row
    2 at slot 0 and a row 1 at slot 1 change places; at the next start the log of the transaction
    that inserted them puts them back where they were, and the index ends up without row 2. *)
Theorem clustering_breaks_recovery :
  let s1 := (create_index first_free (nm "t") [nm "id"] loaded).2 in
  let db := (Recovery.recover rows_log (recovery_db s1)).2 in
  (create_index first_free (nm "t") [nm "id"] loaded).1 = Ok tt ∧ open_db (close_db s1) = Ok s1 ∧ (Recovery.recover rows_log (recovery_db s1)).1 = Ok tt ∧
  row_and_entries (mk_Rid 1 1) (enc_int 4 2) (recovery_db s1) = Some (Some (enc_int 4 2), [Some (mk_Rid 1 1)]) ∧
  row_and_entries (mk_Rid 1 0) (enc_int 4 2) db = Some (Some (enc_int 4 2), [None]).
Proof.
  split_and!; [vm_compute; reflexivity| |vm_compute; reflexivity..]. apply reopen_ok; [apply create_index_ok; [apply _|exact loaded_ok]|exact clustered_counts].
Qed.

(** The name of an index joins the name of its table and of its columns with underscores, so an
    index of table [a] and one of table [a_b] can have the same file; the second is refused. *)
Theorem index_names_collide :
  let int c := [mk_ColDef c TYPE_INT 4] in
  let s := run_ddls first_free [CreateTable (nm "a") (int (nm "b_c")); CreateTable (nm "a_b") (int (nm "c")); CreateIndex (nm "a") [nm "b_c"]] (new_db (nm "db")) in
  (create_index first_free (nm "a_b") [nm "c"] s).1 = Err (FileExistsError "a_b_c.idx").
Proof. vm_compute. reflexivity. Qed.

(** ** DROP TABLE *)

Lemma apply_redo_keeps r tab db : db !! tab = None → (Recovery.apply_redo r db).2 !! tab = None.
Proof.
  intros Hn. assert (∀ name (m : M Recovery.Table unit), (Recovery.at_table name m db).2 !! tab = None) as H.
  { intros name m. unfold Recovery.at_table. destruct (db !! name) as [tb|] eqn:E; [|done]. destruct (m tb) as [x tb']. cbn. rewrite lookup_insert_ne; [done|congruence]. }
  unfold Recovery.apply_redo. destruct (Log.body r); done || apply H.
Qed.

Lemma redo_needs_table committed r v rid tab logs : r ∈ logs → Log.body r = Log.PInsert v rid tab → Log.log_tid_ r ∈ committed → ∀ db, db !! tab = None →
  ∃ e db', Recovery.redo_logs committed logs db = (Err e, db').
Proof.
  intros Hr Hb Hc. induction logs as [|r' logs IH]; intros db Hn; [by apply elem_of_nil in Hr|]. cbn [Recovery.redo_logs]. unfold mbind, M_bind. apply elem_of_cons in Hr as [<-|Hr].
  - rewrite decide_True by done. unfold Recovery.apply_redo, Recovery.at_table. rewrite Hb, Hn. by do 2 eexists.
  - case_decide; [|by apply IH]. pose proof (apply_redo_keeps r' tab db Hn) as Hk. destruct (Recovery.apply_redo r' db) as [[[]|e] db1]; [by apply IH|by do 2 eexists].
Qed.

(** C40: DROP TABLE removes a table and leaves the log as it is.  If a committed transaction of the log
    has inserted a row into the table, the database is opened without it at the next start, and
    recovery fails at that log record: the server does not start again. *)
Theorem dropped_table_blocks_restart tab s t logs r v rid :
  sm_ok s → tabs_ (db_ s) !! tab = Some t → counts_ok (db_ s) → r ∈ logs → Log.body r = Log.PInsert v rid tab → Log.log_tid_ r ∈ Recovery.committed_txns_ (Recovery.analyze logs) →
  ∃ s', drop_table tab s = (Ok tt, s') ∧ open_db (close_db s') = Ok s' ∧ ∃ e db', Recovery.recover logs (recovery_db s') = (Err e, db').
Proof.
  intros Hok Ht Hc Hr Hb Hcom. destruct (drop_table_runs tab t s Hok Ht) as (s' & Hrun & Hd & Hok'). exists s'. split; [done|]. split.
  - apply reopen_ok; [done|]. rewrite Hd. by apply counts_delete.
  - assert (recovery_db s' !! tab = None) as Hn.
    { unfold recovery_db. rewrite map_lookup_imap. destruct (fhs_ s' !! tab) as [tb|] eqn:E; [|done]. destruct (so_only s' Hok' tab ltac:(by eexists)) as [t' Ht']. rewrite Hd in Ht'. cbn in Ht'. by rewrite lookup_delete_eq in Ht'. }
    destruct (redo_needs_table _ r v rid tab logs Hr Hb Hcom _ Hn) as (e & db' & He). unfold Recovery.recover, mbind, M_bind, Recovery.redo. rewrite He. by do 2 eexists.
Qed.

Lemma dropped_table_blocks_restart_witness :
  ∃ s', drop_table (nm "t") loaded = (Ok tt, s') ∧ open_db (close_db s') = Ok s' ∧ ∃ e db', Recovery.recover rows_log (recovery_db s') = (Err e, db').
Proof.
  apply (dropped_table_blocks_restart (nm "t") loaded t_meta rows_log (Log.mk_LogRecord 1 0 7 (-1) (Log.PInsert (enc_int 4 2) (mk_Rid 1 0) (nm "t"))) (enc_int 4 2) (mk_Rid 1 0)).
  - exact loaded_ok.
  - exact loaded_t.
  - exact loaded_counts.
  - left.
  - reflexivity.
  - exact rows_committed.
Defined.
End SysClaims.
